(* ===== verification/_CoqProject ===== *)
-Q . S2P
Prelude.v
GoStd.v
GoNet.v
Effects.v
Transactions.v
Address.v
Domain.v
Checksum.v
Validation.v
Snapshot.v
Samples.v
SnapshotFacts.v
Report.v
ReportFacts.v
Datagram.v
Reassembly.v
ReassemblyFacts.v
ReassemblyOrder.v
Control.v
ControlFacts.v
Engine.v
EngineSteps.v
EngineFacts.v
Egress.v
EgressFacts.v
Placement.v
PlacementFacts.v
Reconcile.v
Candidates.v
CandidatesFacts.v
ReconcileFacts.v
Leadership.v
LeadershipFacts.v
Files.v
FilesFacts.v
Replacement.v
ReplacementFacts.v
Reconnect.v
RateLimit.v
RateLimitFacts.v
Routing.v
RoutingFacts.v
Proxy.v
ProxyFacts.v
AfdpSession.v
AfdpSessionFacts.v
Obfuscation.v
ObfuscationFacts.v
Json.v
ControlWire.v
ControlWireFacts.v
NodeCache.v
NodeCacheFacts.v
NodeRuntime.v
NodeRuntimeFacts.v
NodeLoop.v
NodeLoopFacts.v
Telemetry.v
TelemetryFacts.v
TelemetryReports.v
ChangeBus.v
ChangeBusFacts.v
ControlStream.v
ControlStreamFacts.v
StreamsFacts.v
Release.v
ReleaseFacts.v
SnapshotStore.v
SnapshotStoreFacts.v
Enrollment.v
EnrollmentFacts.v
