(* ===== verification/Prelude.v ===== *)
(** * AsterFerry verification library

    AsterFerry is a reverse-tunnel fabric written in Go: a Controller stores the
    desired state and pushes one sealed snapshot per node over a control stream; a
    Gateway node publishes endpoints; an Agent node serves local targets through
    authenticated AFDP sessions.  This library models the program's own decisions as
    executable functions translated from src/internal and proves what makes them
    correct.

    ** How the parts interact

    The Controller's scheduler (Reconcile) reads candidates from the repository, asks
    the pure placement function (Placement) for an assignment and writes it
    conditionally; every write is fenced by the lease of the leader (Leadership).  The
    repository turns assignments into a DesiredSnapshot, which is normalised, validated
    and sealed by a checksum (Domain, Checksum, Validation, Snapshot, over the address
    policy of Address), and stored with its keys encrypted in one row per node, which only
    a higher generation replaces (SnapshotStore).  A node gets its certificate for a token
    that is used once (Enrollment, over the transactions of Transactions).  A change is
    announced on the change bus (ChangeBus), and the control stream of each node (ControlStream), admitted by a rate limiter (RateLimit),
    sends it the new snapshot as a wire message (ControlWire, over Json).

    On the node a loop (NodeLoop) keeps that stream: it checks a snapshot, caches it
    (NodeCache, over the atomic writes of Files) and applies it to the runtime
    (NodeRuntime), whose engine (Engine) then admits AFDP sessions (AfdpSession) and
    opens (Control) and outbound connections (Egress, Routing, Proxy) within the limits
    of the snapshot.  UDP payloads travel as datagrams (Datagram) that are fragmented and
    reassembled (Reassembly), under masking of the packets (Obfuscation).  An agent
    reconnects with a backoff (Reconnect).  The node reports its state (Report) and its
    connections (Telemetry); the Controller checks a result against the snapshot that is
    current before it changes an assignment.  A node or a Controller replaces its own
    executable with a helper process that survives a crash (Replacement).

    ** Files

    Foundations
    - Prelude: errors and results, loops and their rules, map iteration order, time,
      sums over maps; the tactics [inv_ok] and [bool_facts].
    - GoStd, GoNet: the Go standard library functions the program calls, written as
      the Go sources implement them (strings, strconv, sort, hex; net, net/netip).
    - Effects: state with errors, and a Hoare logic for it.
    - Transactions: programs of statements that run at the same time in transactions of one
      database (what a statement reads is committed, a row that was written is locked), and a
      rely-guarantee logic for what they commit.
    - Samples: concrete instances of the parameters, and sample resources.

    Domain
    - Address: addresspolicy/policy.go.
    - Domain: domain/model_core.go, identity.go (records, constants, selectors).
    - Checksum: domain/model_clone.go, checksum.go ([Clone], [Normalize], the checksum
      document and its hash).
    - Validation, Snapshot: domain/model_validation.go, model_validation_network.go and
      the validators of model_core.go; Snapshot also has [WithChecksum].
    - Report: domain/system_info.go, runtime.go, runtime_metrics.go and the observed
      state of model_validation.go.

    Data plane
    - Datagram, Reassembly: afdp/protocol_datagram.go, limits.go,
      protocol_reassembly.go, with the heap of container/heap.
    - Control: afdp/protocol_control.go, protocol_capabilities.go, stream.go and
      wireio/writer.go.
    - AfdpSession: afdp/session.go.  Obfuscation: afdp/obfuscation_*.go, random/random.go.
    - Engine: dataplane/engine_types.go, engine_authorize.go, engine_clone.go,
      engine_snapshot.go, one function per method.  EngineSteps: the same methods as
      threads over a shared engine, one step per atomic operation.
    - Egress: dataplane/egress.go.  Routing: dataplane/routing.go.  Proxy:
      dataplane/proxy.go.

    Controller
    - Placement: controller/scheduler_placement.go ([Schedule] and its helpers),
      scheduler_ports.go, [normalizeBind] and [sameObfuscationPolicy].
    - Reconcile: controller/scheduler_reconcile.go over the persistence port of
      scheduler.go.  Candidates: the two operations of that port that
      scheduler_placement.go computes from query results ([LoadGatewayCandidates],
      [AllocateAssignmentID]).
    - Leadership: controller/leadership.go with its SQL statements on the lease row.
    - RateLimit: controller/ratelimit.go, admission.go.
    - ChangeBus: controller/change_bus.go, changes.go and the subscriptions of
      actions.go, snapshots.go and runtime_store_core.go.
    - ControlStream: controller/grpc_connect.go, grpc_snapshots.go, grpc_security.go,
      grpc_enrollment.go, node_update_events.go, errors.go.
    - SnapshotStore: controller/store_snapshots.go, snapshots.go (the materialisation),
      store_security.go (the obfuscation keys), EncryptSecret and DecryptSecret of crypto.go.
    - Enrollment: controller/enrollment_issue.go, enrollment_consume.go, enrollment_cert.go,
      enrollment_pending.go, the idempotency keys of store_security.go, and
      [DecommissionNode] of store_resources.go.
    - Json: jsonutil/strict.go.  ControlWire: controlwire/protocol.go.

    Node
    - NodeCache: node/cache.go.  NodeRuntime: node/runtime_types.go, runtime_snapshot.go,
      data_runtime.go.  NodeLoop: node/runtime_loop.go, lifecycle.go and the key file of
      runtime_enrollment.go.
    - Reconnect: node/reconnect_state.go and the loop of data_runtime_agent.go.
    - Telemetry: node/runtime_limiter.go, runtime_telemetry_registry.go,
      runtime_telemetry_actions.go, runtime_control.go and the report of data_runtime.go.

    Files and processes
    - Files: atomicfile/write.go over a file system whose calls fail.
    - Replacement: update/process.go, process_unix.go, replacement_journal.go,
      controller/update_recovery.go, node/runtime_update.go.
    - Release: update/release.go, manifest.go, archive.go, release_key.go.

    A file whose name ends in Facts holds the theorems about the file without it;
    ReassemblyOrder, TelemetryReports and StreamsFacts (the table of streams, and runs of
    ControlStream) hold more of them, and so does Reconnect itself.

    ** What the theorems show

    - Engine (EngineFacts): in every interleaving the counters equal the number of
      open leases and sessions, no step lets a stream in above a limit, a lease of an
      older snapshot cannot touch the counts of a newer one, a snapshot is applied
      completely or not at all, admission is decided exactly, and the methods refine
      the atomic steps.
    - Snapshots (SnapshotFacts): a validated snapshot gives every service and public
      endpoint to one assignment; the checksum ignores resource order and
      control-plane metadata; sealing produces valid snapshots; port pools are
      accepted exactly when their ranges are valid and disjoint.
    - Placement (PlacementFacts, CandidatesFacts): a placement is eligible, within
      capacity, free of port conflicts, the best one, and found whenever one exists; on
      loaded candidates it collides with no endpoint its gateway holds.
    - Scheduling (ReconcileFacts): for every repository, and so for every interference
      by other writers, how often and what a placement may write, when a
      reconciliation pass may write at all and in which order, how an agent's
      services are divided into targets.
    - Leadership (LeadershipFacts): in every run of several controllers over one lease
      row, what is committed is fenced by an increasing epoch; the statements refine an
      abstract fence.
    - Control streams (ControlStreamFacts, StreamsFacts): a slot is given back on every
      path; nothing is sent, stored or issued for a peer that did not authenticate; the
      snapshots of a stream go up; a retry ends; a result and a renewal count only for
      the current snapshot and certificate; the newest stream of a node wins, and a
      revocation closes all of them.
    - Change bus (ChangeBusFacts): for every sequence of operations no channel is closed
      twice or sent on after it was closed, and no wake-up is lost.
    - Stored snapshots (SnapshotStoreFacts): whatever several Controllers do to one database
      with failing calls, a stored row is a sealed, valid snapshot of its node without plain
      keys, and until the node is purged a generation names one document; an unchanged node
      keeps its generation; the keys that were encrypted are those that are sent, under
      the same checksum.
    - Enrollment (EnrollmentFacts): in every interleaving a token is good for one
      certificate, a node changes only as its state permits, and an operation that succeeds
      has committed once what it answers.
    - Rate limits (RateLimitFacts): while there is room for the keys in use, the login limiter
      is its specification over the attempts so far, and it bounds what logins that overlap
      can try.
    - AFDP (Datagram, ReassemblyFacts, ReassemblyOrder, ControlFacts, AfdpSessionFacts,
      ObfuscationFacts): codecs are exact and canonical, fragments reassemble in every
      delivery order, memory budgets hold in every reachable state, replays are refused,
      writing a frame terminates, both ends of a handshake agree, the stream count is
      exact under concurrent callers, a masked packet is delivered.
    - Egress, routing, proxies (EgressFacts, RoutingFacts, ProxyFacts): an enabled policy
      lets through only permitted addresses and ports, the route chosen is the first that
      matches, the proxies answer and dial exactly what the request asks for.
    - Node (NodeCacheFacts, NodeRuntimeFacts, NodeLoopFacts, Reconnect): the state reported
      is that of the snapshot served, as far as the data plane keeps serving it when a
      resync fails; a crash leaves the old or the new cache; a failed update keeps the
      previous snapshot serving or drains; what an agent
      takes for a session it gives back; waits are bounded.
    - Telemetry (TelemetryFacts, TelemetryReports): connections are counted exactly and
      closed once, every event is told and none is lost unless it is counted as dropped,
      reports validate.
    - Wire (ControlWireFacts): a snapshot or an observed state survives encoding, and a
      decoded one is valid and is what its metadata says.
    - Files (FilesFacts, ReplacementFacts): a write is atomic at every crash, and a
      replacement leaves a whole executable wherever the helper stops, unless somebody else
      touches its files.
    - Releases (ReleaseFacts): versions are totally ordered and survive printing, accepted
      paths cannot leave a directory, the release found is the newest stable one with a
      signed manifest, and a download or an extraction puts only verified contents or the
      named executable in place, wherever it stops.
    - ReportFacts: a report is accepted exactly when it is well formed.

    Theorems and examples that record defects: [SnapshotFacts.listener_endpoint_claimed],
    [EgressFacts.zoned_address_escapes_policy], [CandidatesFacts.long_ids_never_assigned],
    [TelemetryReports.long_assignment_not_reported],
    [StreamsFacts.lost_leadership_leaves_stream],
    [StreamsFacts.racing_streams_lose_capabilities], and the examples
    [connection_event_without_connection] (ReportFacts), [write_begun_in_old_epoch]
    (LeadershipFacts), [restore_without_backup] (ReplacementFacts),
    [late_failure_lifts_block] (RateLimitFacts), [more_than_maxReassemblyBytes] and
    [sources_are_kept] (ObfuscationFacts), [retry_of_first_snapshot_stays_drained] and
    [behaviour_switch_ends_drain] (NodeRuntimeFacts), [failed_resync_not_reported]
    (NodeCacheFacts), [operator_limit_stops_telemetry] and [byte_counters_fall]
    (TelemetryReports), [deleted_service_retires_gateway] (SnapshotStoreFacts),
    [purged_node_starts_again] (SnapshotStoreFacts), [dots_are_asset_names],
    [large_versions_equal] and the lemma [long_zip_entry_cut] (ReleaseFacts).

    ** Conventions and bounds

    A Go [int] or unsigned integer is a [Z]; where a width matters it is written out
    (the [uint64] epoch wraps modulo 2^64, datagram fields are encoded at their
    width, generations are compared with [max_uint64], durations saturate).  The
    engine counts epochs below 2^64 activations, which is a hypothesis of the
    theorems on interleavings.  A nil and an empty slice are the same list; a nil
    map is [None].  Errors are values of [error] with their unrendered arguments.
    A call whose state is shared with other callers is split at its locks, and the
    theorems quantify over the order of the pieces; what a call outside the program
    answers is read from a list in the state, over which they quantify too.

    Fuel: [WriteFull] gets one round more than bytes and provably never runs out;
    the heap loops, expiry and eviction get the length of the heap, of which every
    round consumes one entry or one level; the IPv6 parser gets the eight groups an
    address has; a hint is merged at most twice before it is queued, so
    [enqueueResourceChange] gets 3; a snapshot is tried 5 times, which
    [snapshot_retry_bounded] shows to be enough; the wait of a rate limiter and the loops
    over ticks are bounded by what the clock and the events give.  Other loops are
    structural.

    ** Parameters

    Code outside the repository is given by classes with documented laws: [MapOrder]
    (the order of map iteration, any permutation), [SliceSort] (the unstable
    sort.Slice, any sorted permutation), [Crypto] (SHA-256, 32 bytes), [Blake2b], [AEAD]
    (what was sealed opens), [Unicode] (lower-casing, fixed on ASCII), [Fold]
    (EqualFold, fixed on hexadecimal digits), [DocumentJSON], [JSON] and [JSONAny]
    (encoding/json, decode after encode), [Proto] (the generated protobuf code, unmarshal
    after marshal), [PEM], [Writer] (io.Writer), [Resolver] (DNS), [GeoSource] (the GeoIP
    reader), [HTTP] (http.ReadRequest and Request.Write), [TempNames], [Processes] and
    [ResultJSON] (the operating system of the helper), [NetURL], [Signatures] (PEM, PKIX,
    base64 and ECDSA), [ReleaseFormat] and [Archives] (what the JSON, zip and tar readers
    find), [ErrorText], [GrpcStatus],
    [TimeText] and [FloatOverflow] (texts, and the conversion of a float that is out of
    range).  [Component] is the gateway or agent of a node; [Repository], [ControlStore]
    and the [Database] of Candidates are the SQL-backed store and its queries, and [Tables]
    the tables that a snapshot is built from: no law, so that any interference of other
    writers is covered.
    [StoredTime] is the text of a time in a row; [X509], [RawURLEncoding] and
    [IdempotencyJSON] are what the enrollment uses of crypto/x509, base64 and
    encoding/json.  The files of theorems have instances of those that the witnesses need.

    ** Not modelled

    Sockets, TLS, QUIC and the accept and copy loops over them (afdp/quic.go, duplex,
    data_runtime_gateway.go, data_runtime_agent.go apart from its reconnection);
    the SQL of the store, apart from the rows of the lease, of the snapshots and of the
    enrollment, and the codecs of its rows (a purge of a node is a row that others delete); HTTP handlers, passwords and
    sessions; the CA and its signatures; backup (a restored lease row is that of a backup of
    the present one); metrics and
    log lines, which only observe; generated code and the command line.
    [Engine.ReleaseOpen], [AuthorizeOpen], [ReleaseLocalOpen] and [AuthorizeLocalOpen],
    the forms without a lease that nothing else calls, are functions of Engine and not
    threads of EngineSteps. *)
From Stdlib Require Export ZArith Lia Bool List Ascii String.
From stdpp Require Export base gmap strings list sorting pretty.

#[global] Unset Asymmetric Patterns.
#[global] Open Scope string_scope.
#[global] Open Scope list_scope.
#[global] Open Scope Z_scope.

(** ** Errors

    A Go [error] value is kept as the expression that built it: a sentinel or
    [errors.New] text, a [fmt.Errorf] with its unrendered arguments, a wrapped
    error ([%w]), one of the program's own error structs, or [errors.Join] of two. *)

Inductive arg := AStr (s : string) | AInt (z : Z).

Inductive error :=
| ENew (msg : string)
| EFmt (format : string) (args : list arg)
| EWrap (format : string) (args : list arg) (inner : error)
| EApply (code : string) (path message : text)
| EPortConflict (gateway protocol bind : string) (port : Z)
| EExternal (origin : string)
| EJoin (e f : error)
with text :=
| TLit (s : string)
| TFmt (format : string) (args : list arg)
| TError (e : error).

(** [errors.Is(err, sentinel)] for a sentinel made by [errors.New]: the chain of
    wrapped errors contains it. *)
Fixpoint error_is (e : error) (sentinel : string) : bool :=
  match e with
  | ENew m => String.eqb m sentinel
  | EWrap _ _ inner => error_is inner sentinel
  | EJoin e f => error_is e sentinel || error_is f sentinel
  | _ => false
  end.

(** ** Results: a Go function returning [(T, error)] or [error] *)

Inductive result (A : Type) := Ok (a : A) | Err (e : error).
Arguments Ok {A} _.
Arguments Err {A} _.

Definition is_Ok {A} (r : result A) : bool := match r with Ok _ => true | Err _ => false end.

#[global] Instance result_ret : MRet result := fun A a => Ok a.
#[global] Instance result_bind : MBind result := fun A B f r =>
  match r with Ok a => f a | Err e => Err e end.
#[global] Instance result_fmap : FMap result := fun A B f r =>
  match r with Ok a => Ok (f a) | Err e => Err e end.

(** [if c { return err }]. *)
Definition reject_if (c : bool) (e : error) : result unit := if c then Err e else Ok tt.

(** [if err := f(); err != nil { return g(err) }]. *)
Definition map_err {A} (g : error -> error) (r : result A) : result A :=
  match r with Ok a => Ok a | Err e => Err (g e) end.

(** [for i, x := range xs { state, err = body(i, x, state); ... }]. *)
Fixpoint for_each {S A} (body : Z -> A -> S -> result S) (i : Z) (xs : list A) (s : S) : result S :=
  match xs with
  | [] => Ok s
  | x :: xs => s' ← body i x s; for_each body (i + 1) xs s'
  end.

(** A loop whose body only checks. *)
Definition check_each {A} (body : Z -> A -> result unit) (xs : list A) : result unit :=
  for_each (fun i x (_ : unit) => body i x) 0 xs tt.

Section ResultLemmas.
Context {A B : Type}.

Lemma bind_Ok (m : result A) (f : A -> result B) b :
  (m ≫= f) = Ok b <-> exists a, m = Ok a /\ f a = Ok b.
Proof.
  destruct m; cbn; split; [eauto | by intros (? & [= ->] & ?) | done | by intros (? & [=] & ?)].
Qed.

Lemma bind_Err (m : result A) (f : A -> result B) e :
  (m ≫= f) = Err e <-> m = Err e \/ exists a, m = Ok a /\ f a = Err e.
Proof.
  destruct m as [a|e']; cbn; split.
  - eauto.
  - by intros [[=] | (? & [= <-] & ?)].
  - intros [= ->]. by left.
  - by intros [[= ->] | (? & [=] & ?)].
Qed.

Lemma reject_if_Ok c e u : reject_if c e = Ok u <-> c = false.
Proof. destruct c, u; cbn; split; congruence. Qed.

Lemma map_err_Ok g (m : result A) a : map_err g m = Ok a <-> m = Ok a.
Proof. destruct m; cbn; split; congruence. Qed.
End ResultLemmas.

(** Inversion of a successful run, one bind at a time. *)
Ltac inv_ok_step :=
  match goal with
  | H : (_ ≫= _) = Ok _ |- _ => apply bind_Ok in H as (? & ? & H)
  | H : mbind _ _ = Ok _ |- _ => apply bind_Ok in H as (? & ? & H)
  | H : reject_if _ _ = Ok _ |- _ => apply reject_if_Ok in H
  | H : map_err _ _ = Ok _ |- _ => apply map_err_Ok in H
  | H : Ok _ = Ok _ |- _ => injection H as H
  | H : Err _ = Ok _ |- _ => discriminate H
  | H : mret _ = Ok _ |- _ => cbv [mret result_ret] in H
  | H : (if ?c then Err _ else _) = Ok _ |- _ => destruct c eqn:?; [discriminate H |]
  | H : (if ?c then _ else Err _) = Ok _ |- _ => destruct c eqn:?; [| discriminate H]
  end.
Ltac inv_ok := repeat inv_ok_step; subst.

(** Splits boolean connectives of the code's conditions into facts. *)
Ltac bool_facts :=
  repeat match goal with
  | H : context [Z.gtb _ _] |- _ => rewrite Z.gtb_ltb in H
  | H : context [Z.geb _ _] |- _ => rewrite Z.geb_leb in H
  | H : (_ || _)%bool = false |- _ => apply orb_false_iff in H as [? H]
  | H : (_ && _)%bool = true |- _ => apply andb_true_iff in H as [? H]
  | H : negb _ = false |- _ => apply negb_false_iff in H
  | H : negb _ = true |- _ => apply negb_true_iff in H
  | H : bool_decide _ = true |- _ => apply bool_decide_eq_true in H
  | H : bool_decide _ = false |- _ => apply bool_decide_eq_false in H
  | H : String.eqb _ _ = true |- _ => apply String.eqb_eq in H
  | H : String.eqb _ _ = false |- _ => apply String.eqb_neq in H
  | H : Z.eqb _ _ = true |- _ => apply Z.eqb_eq in H
  | H : Z.eqb _ _ = false |- _ => apply Z.eqb_neq in H
  | H : Z.ltb _ _ = true |- _ => apply Z.ltb_lt in H
  | H : Z.ltb _ _ = false |- _ => apply Z.ltb_ge in H
  | H : Z.leb _ _ = true |- _ => apply Z.leb_le in H
  | H : Z.leb _ _ = false |- _ => apply Z.leb_gt in H
  end.

(** ** Loops *)
Section Loops.
Context {S A : Type}.
Implicit Types (body : Z -> A -> S -> result S) (I : list A -> S -> Prop).

(** An invariant over the elements already visited holds after the loop. *)
Lemma for_each_inv body I :
  (forall done i x s s', I done s -> body i x s = Ok s' -> I (done ++ [x]) s') ->
  forall xs done i s s', I done s -> for_each body i xs s = Ok s' -> I (done ++ xs) s'.
Proof.
  intros Hstep xs. induction xs as [|x xs IH]; cbn; intros done i s s' HI Hrun.
  - inv_ok. by rewrite app_nil_r.
  - apply bind_Ok in Hrun as (s1 & Hb & Hrun).
    replace (done ++ x :: xs) with ((done ++ [x]) ++ xs) by (by rewrite <- app_assoc).
    eauto.
Qed.

(** Every iteration of a successful loop succeeded. *)
Lemma for_each_body body xs i s s' :
  for_each body i xs s = Ok s' ->
  Forall (fun x => exists j s1 s2, body j x s1 = Ok s2) xs.
Proof.
  revert i s. induction xs as [|x xs IH]; cbn; intros i s H; constructor.
  - apply bind_Ok in H as (s1 & ? & ?). eauto.
  - apply bind_Ok in H as (s1 & ? & H). eauto.
Qed.
End Loops.

(** A loop that checks every element and refuses a repeated key. *)
Lemma for_each_unique {A} (key : A -> string) (P : A -> Prop) (body : Z -> A -> gset string -> result (gset string)) :
  (forall i x s s', body i x s = Ok s' <-> P x /\ key x ∉ s /\ s' = {[key x]} ∪ s) ->
  forall xs, (exists s', for_each body 0 xs ∅ = Ok s') <-> Forall P xs /\ NoDup (key <$> xs).
Proof.
  intros Hbody xs.
  enough (forall i s, (exists s', for_each body i xs s = Ok s') <-> Forall P xs /\ NoDup (key <$> xs) /\ forall x, x ∈ xs -> key x ∉ s) as ->
    by (split; [tauto | intros [? ?]; split_and!; [done | done | set_solver]]).
  induction xs as [|x xs IH]; intros i s; cbn [for_each].
  { split; [intros _; split_and!; [constructor | constructor | by intros ? ?%elem_of_nil] | by eexists]. }
  rewrite fmap_cons, Forall_cons, NoDup_cons. setoid_rewrite elem_of_cons. split.
  - intros (s' & (s1 & (HP & Hk & ->)%Hbody & Hr)%bind_Ok). destruct (IH (i + 1) ({[key x]} ∪ s)) as [IH1 _].
    destruct IH1 as (H1 & H2 & H3); [by eexists|]. split_and!; try done.
    + intros (y & Hy & Hin)%list_elem_of_fmap. apply (H3 y Hin). set_solver.
    + intros y [->|Hy]; [done|]. specialize (H3 y Hy). set_solver.
  - intros ([HP HPs] & [Hx Hnd] & Hs). assert (body i x s = Ok ({[key x]} ∪ s)) as -> by (apply Hbody; auto).
    cbn [mbind result_bind]. apply IH. split_and!; [done | done |]. intros y Hy Hin.
    apply elem_of_union in Hin as [Hin%elem_of_singleton|Hin]; [| by apply (Hs y (or_intror Hy))].
    apply Hx. rewrite <- Hin. by apply list_elem_of_fmap_2.
Qed.

Lemma check_each_Ok {A} (body : Z -> A -> result unit) xs u :
  check_each body xs = Ok u -> Forall (fun x => exists i, body i x = Ok tt) xs.
Proof.
  intros H. apply for_each_body in H. eapply Forall_impl; [exact H|].
  intros x (j & ? & [] & ?). eauto.
Qed.

Lemma for_each_check {A} (body : Z -> A -> result unit) xs k :
  for_each (fun i x (_ : unit) => body i x) k xs tt = Ok tt
  <-> forall i x, xs !! i = Some x -> body (k + Z.of_nat i) x = Ok tt.
Proof.
  revert k. induction xs as [|x xs IH]; intros k; cbn [for_each]; [done|]. split.
  - intros H [|i] y Hi; apply bind_Ok in H as ([] & Hb & H); cbn in Hi.
    + injection Hi as <-. by rewrite Z.add_0_r.
    + rewrite IH in H. specialize (H i y Hi). by replace (k + Z.of_nat (S i)) with (k + 1 + Z.of_nat i) by lia.
  - intros H. pose proof (H 0%nat x eq_refl) as Hx. rewrite Z.add_0_r in Hx. rewrite Hx. cbn [mbind result_bind].
    apply IH. intros i y Hi. specialize (H (S i) y Hi). by replace (k + 1 + Z.of_nat i) with (k + Z.of_nat (S i)) by lia.
Qed.

(** A check that passes on every element passes as a loop, and conversely. *)
Lemma check_each_iff {A} (body : Z -> A -> result unit) xs :
  check_each body xs = Ok tt <-> forall i x, xs !! i = Some x -> body (Z.of_nat i) x = Ok tt.
Proof. unfold check_each. rewrite for_each_check. by setoid_rewrite Z.add_0_l. Qed.

Lemma check_each_Forall {A} (body : A -> result unit) xs :
  check_each (fun _ => body) xs = Ok tt <-> Forall (fun x => body x = Ok tt) xs.
Proof. by rewrite check_each_iff, Forall_lookup. Qed.

(** ** Map iteration order

    [for k, v := range m] visits the entries of a Go map in an unspecified
    order.  Every definition that iterates over a map takes the order from this
    class, so a theorem holds for every order the runtime may choose. *)
Class MapOrder := {
  range_order : forall {A : Type}, list (string * A) -> list (string * A);
  range_order_perm : forall {A : Type} (l : list (string * A)), range_order l ≡ₚ l
}.

(** The order in which the entries are written, used by the concrete examples. *)
#[local] Instance source_order : MapOrder := {| range_order := fun A l => l; range_order_perm := fun A l => Permutation_refl l |}.

(** A Go map with string keys; [None] is the nil map. *)
Abbreviation gomap V := (option (gmap string V)).

Definition gomap_entries {V} (m : gomap V) : list (string * V) :=
  match m with Some m => map_to_list m | None => [] end.

(** [len(m)]. *)
Definition gomap_len {V} (m : gomap V) : Z :=
  match m with Some m => Z.of_nat (size m) | None => 0 end.

(** [m\[k\]] with the zero value of the element type for an absent key. *)
Definition gomap_get {V} (zero : V) (m : gomap V) (k : string) : V :=
  match m with Some m => default zero (m !! k) | None => zero end.

(** ** Lengths and times *)

Abbreviation slen s := (Z.of_nat (String.length s)).
Abbreviation llen l := (Z.of_nat (List.length l)).

(** A [time.Time] is a number of nanoseconds; 0 is the zero time. *)
Definition is_zero_time (t : Z) : bool := t =? 0.

Definition max_duration : Z := 2 ^ 63 - 1.
Definition min_duration : Z := - 2 ^ 63.

(** [t.Sub(u)] saturates at the ends of the duration range. *)
Definition time_sub (t u : Z) : Z := Z.max min_duration (Z.min max_duration (t - u)).

Lemma time_sub_ge t u d : d <= max_duration -> min_duration < d -> (d <= time_sub t u <-> d <= t - u).
Proof. unfold time_sub. lia. Qed.

Create HintDb asterferry.
#[export] Hint Resolve Forall_nil_2 Forall_cons_2 : asterferry.

(** ** Sums over a map *)
Section MapSum.
Context `{Countable K} {V : Type} (f : V -> Z).

Definition msum (m : gmap K V) : Z := map_fold (fun _ v acc => f v + acc) 0 m.

Lemma msum_empty : msum ∅ = 0.
Proof. apply map_fold_empty. Qed.

Lemma msum_insert m k v : m !! k = None -> msum (<[k := v]> m) = f v + msum m.
Proof. intros Hk. unfold msum. rewrite map_fold_insert_L; [done | intros; lia | done]. Qed.

Lemma msum_delete m k v : m !! k = Some v -> msum m = f v + msum (delete k m).
Proof. intros Hk. unfold msum. rewrite (map_fold_delete_L _ _ k v m); [done | intros; lia | done]. Qed.

Lemma msum_update m k v w : m !! k = Some v -> msum (<[k := w]> m) = msum m - f v + f w.
Proof.
  intros Hk. rewrite <- insert_delete_eq, msum_insert by apply lookup_delete_eq.
  rewrite (msum_delete m k v Hk). lia.
Qed.

Lemma msum_nonneg m : (forall k v, m !! k = Some v -> 0 <= f v) -> 0 <= msum m.
Proof.
  induction m as [|k v m Hk IH] using map_ind; intros Hf; [by rewrite msum_empty|].
  rewrite msum_insert by done.
  assert (0 <= f v) by (apply (Hf k); apply lookup_insert_eq).
  assert (0 <= msum m); [| lia]. apply IH. intros k' v' Hk'. apply (Hf k').
  rewrite lookup_insert_ne; congruence.
Qed.
End MapSum.

(** ** Sums over lists *)
Section ListSums.
Context {A : Type} (f : A -> Z).
Fixpoint lsum (l : list A) : Z := match l with [] => 0 | a :: l => f a + lsum l end.

Lemma lsum_app l1 l2 : lsum (l1 ++ l2) = lsum l1 + lsum l2.
Proof. induction l1 as [|a l1 IH]; cbn; [done|]. rewrite IH. lia. Qed.
Lemma lsum_insert l i a b : l !! i = Some a -> lsum (<[i := b]> l) = lsum l - f a + f b.
Proof.
  revert i. induction l as [|c l IH]; intros [|i] H; try done; [cbn in *; injection H as ->; lia|]. 
  change (<[S i := b]> (c :: l)) with (c :: <[i := b]> l). specialize (IH i H). set (l' := <[i := b]> l) in *. cbn. lia.
Qed.
Lemma lsum_zero l : (forall a, a ∈ l -> f a = 0) -> lsum l = 0.
Proof.
  induction l as [|a l IH]; intros H; cbn; [done|]. rewrite (H a), IH; [done | | by left]. intros b Hb. apply H. by right.
Qed.
Lemma lsum_nonneg l : (forall a, a ∈ l -> 0 <= f a) -> 0 <= lsum l.
Proof.
  induction l as [|a l IH]; intros H; cbn; [done|]. assert (0 <= f a) by (apply H; by left). assert (0 <= lsum l); [|lia].
  apply IH. intros b Hb. apply H. by right.
Qed.
End ListSums.

Lemma lsum_le {A} (f g : A -> Z) l : (forall a, a ∈ l -> f a <= g a) -> lsum f l <= lsum g l.
Proof.
  induction l as [|a l IH]; intros H; cbn; [done|]. assert (f a <= g a) by (apply H; by left). assert (lsum f l <= lsum g l); [|lia].
  apply IH. intros b Hb. apply H. by right.
Qed.
