(* ===== verification/GoStd.v ===== *)
(** * The Go standard library functions the program calls

    Strings are byte strings.  [TrimSpace] strips the UTF-8 encodings of the
    Unicode white-space code points; the functions whose arguments are ASCII
    sets work on bytes, as the Go implementations do. *)
From S2P Require Import Prelude.

Abbreviation bytes_of := list_ascii_of_string.
Abbreviation of_bytes := string_of_list_ascii.

Lemma of_bytes_bytes_of s : of_bytes (bytes_of s) = s.
Proof. induction s as [|c s IH]; [done|]. cbn. by f_equal. Qed.
Lemma bytes_of_of_bytes l : bytes_of (of_bytes l) = l.
Proof. induction l as [|c l IH]; [done|]. cbn. by f_equal. Qed.
Lemma bytes_of_app a b : bytes_of (a +:+ b) = bytes_of a ++ bytes_of b.
Proof. induction a as [|x a IH]; [done|]. cbn. by rewrite <- IH. Qed.
Lemma of_bytes_app a b : of_bytes (a ++ b) = of_bytes a +:+ of_bytes b.
Proof. induction a as [|x a IH]; [done|]. cbn. by rewrite IH. Qed.

Definition byte_val (c : ascii) : Z := Z.of_N (N_of_ascii c).
Definition in_byte_range (lo hi : Z) (c : ascii) : bool := (lo <=? byte_val c) && (byte_val c <=? hi).

Definition is_digit := in_byte_range 48 57.
Definition is_lower := in_byte_range 97 122.
Definition is_upper := in_byte_range 65 90.
Definition is_alnum (c : ascii) : bool := is_digit c || is_lower c || is_upper c.

Module strings.

(** *** White space *)
Definition space1 (a : ascii) : bool := in_byte_range 9 13 a || (byte_val a =? 32).
Definition space2 (a b : ascii) : bool :=
  (byte_val a =? 194) && ((byte_val b =? 133) || (byte_val b =? 160)).
Definition space3 (a b c : ascii) : bool :=
  match byte_val a, byte_val b, byte_val c with
  | 225, 154, 128 | 226, 129, 159 | 227, 128, 128 => true
  | 226, 128, z => (128 <=? z) && (z <=? 138) || (z =? 168) || (z =? 169) || (z =? 175)
  | _, _, _ => false
  end.

Fixpoint trim_left (l : list ascii) : list ascii :=
  match l with
  | [] => []
  | a :: l1 =>
      if space1 a then trim_left l1 else
      match l1 with
      | [] => l
      | b :: l2 =>
          if space2 a b then trim_left l2 else
          match l2 with
          | c :: l3 => if space3 a b c then trim_left l3 else l
          | [] => l
          end
      end
  end.

(** Trailing white space of a reversed string. *)
Fixpoint trim_reversed (l : list ascii) : list ascii :=
  match l with
  | [] => []
  | c :: l1 =>
      if space1 c then trim_reversed l1 else
      match l1 with
      | [] => l
      | b :: l2 =>
          if space2 b c then trim_reversed l2 else
          match l2 with
          | a :: l3 => if space3 a b c then trim_reversed l3 else l
          | [] => l
          end
      end
  end.

Definition TrimSpace (s : string) : string :=
  of_bytes (rev (trim_reversed (rev (trim_left (bytes_of s))))).

(** *** Searching *)
Definition ContainsAny (s : string) (set : list ascii) : bool :=
  existsb (fun c => existsb (Ascii.eqb c) set) (bytes_of s).

Fixpoint index_byte (l : list ascii) (c : ascii) : option nat :=
  match l with
  | [] => None
  | x :: l => if Ascii.eqb x c then Some O else S <$> index_byte l c
  end.

Definition IndexByte (s : string) (c : ascii) : option nat := index_byte (bytes_of s) c.

Definition last_index_byte (l : list ascii) (c : ascii) : option nat :=
  i ← index_byte (rev l) c; Some (List.length l - 1 - i)%nat.

Lemma in_rev_iff {A} (x : A) l : x ∈ rev l <-> x ∈ l.
Proof. rewrite !list_elem_of_In. symmetry. apply in_rev. Qed.

(** The two searches find the first and the last occurrence. *)
Lemma index_byte_Some l c i : index_byte l c = Some i -> exists a b, l = a ++ c :: b /\ c ∉ a /\ List.length a = i.
Proof.
  revert i. induction l as [|x l IH]; intros i H; [done|]. cbn in H. destruct (Ascii.eqb_spec x c) as [->|Hx].
  - injection H as <-. exists [], l. split_and!; [done|apply not_elem_of_nil|done].
  - destruct (index_byte l c) as [j|]; [|done]. injection H as <-. destruct (IH j eq_refl) as (a & b & -> & Ha & <-).
    exists (x :: a), b. split_and!; [done| |done]. by intros [?|?]%elem_of_cons.
Qed.

Lemma index_byte_app a c b : c ∉ a -> index_byte (a ++ c :: b) c = Some (List.length a).
Proof.
  induction a as [|x a IH]; intros Ha; cbn; [by rewrite Ascii.eqb_refl|]. apply not_elem_of_cons in Ha as [Hx Ha].
  destruct (Ascii.eqb_spec x c) as [->|]; [done|]. by rewrite IH.
Qed.

Lemma index_byte_None l c : index_byte l c = None <-> c ∉ l.
Proof.
  split.
  - intros H Hin. apply list_elem_of_split in Hin as (a & b & ->). revert H.
    induction a as [|x a IH]; cbn; [by rewrite Ascii.eqb_refl|]. destruct (Ascii.eqb x c); [done|].
    by destruct (index_byte _ c); [|intros _; apply IH].
  - intros Hn. destruct (index_byte l c) as [i|] eqn:E; [|done]. apply index_byte_Some in E as (a & b & -> & _). set_solver.
Qed.

Lemma last_index_byte_Some l c i : last_index_byte l c = Some i -> exists a b, l = a ++ c :: b /\ c ∉ b /\ List.length a = i.
Proof.
  unfold last_index_byte. destruct (index_byte (rev l) c) as [j|] eqn:E; [|done]. intros [= <-].
  apply index_byte_Some in E as (a & b & Hl & Ha & <-). apply (f_equal (@rev ascii)) in Hl. rewrite rev_involutive, rev_app_distr in Hl.
  cbn in Hl. rewrite <- app_assoc in Hl. subst l. exists (rev b), (rev a). split_and!; [done|by rewrite in_rev_iff|].
  rewrite !length_app. cbn [List.length]. rewrite !length_rev. lia.
Qed.

Lemma last_index_byte_app a c b : c ∉ b -> last_index_byte (a ++ c :: b) c = Some (List.length a).
Proof.
  intros Hb. unfold last_index_byte. rewrite rev_app_distr. cbn. rewrite <- app_assoc. cbn.
  rewrite index_byte_app by (by rewrite in_rev_iff). cbn. f_equal. rewrite length_rev, length_app. cbn. lia.
Qed.

Lemma last_index_byte_None l c : c ∉ l -> last_index_byte l c = None.
Proof. intros Hn. unfold last_index_byte. assert (index_byte (rev l) c = None) as -> by (apply index_byte_None; by rewrite in_rev_iff). done. Qed.

(** *** Slicing and splitting: [s\[i:\]], [s\[:i\]] *)
Definition drop (i : nat) (s : string) : string := of_bytes (skipn i (bytes_of s)).
Definition take (i : nat) (s : string) : string := of_bytes (firstn i (bytes_of s)).

Fixpoint split_bytes (l : list ascii) (sep : ascii) (cur : list ascii) : list (list ascii) :=
  match l with
  | [] => [rev cur]
  | c :: l => if Ascii.eqb c sep then rev cur :: split_bytes l sep [] else split_bytes l sep (c :: cur)
  end.

(** [strings.Split] with a one-byte separator. *)
Definition Split (s : string) (sep : ascii) : list string :=
  of_bytes <$> split_bytes (bytes_of s) sep [].

Fixpoint strip_set (set : list ascii) (l : list ascii) : list ascii :=
  match l with
  | c :: l' => if existsb (Ascii.eqb c) set then strip_set set l' else l
  | [] => []
  end.

(** [strings.Trim] with an ASCII cutset. *)
Definition Trim (s : string) (cutset : list ascii) : string :=
  of_bytes (rev (strip_set cutset (rev (strip_set cutset (bytes_of s))))).

Definition HasPrefix (s p : string) : bool := String.prefix p s.
Definition HasSuffix (s p : string) : bool :=
  String.prefix (of_bytes (rev (bytes_of p))) (of_bytes (rev (bytes_of s))).
Definition TrimSuffix (s p : string) : string :=
  if HasSuffix s p then take (String.length s - String.length p) s else s.
Definition TrimPrefix (s p : string) : string :=
  if HasPrefix s p then drop (String.length p) s else s.

(** *** Case *)
Definition ascii_lower (c : ascii) : ascii :=
  if is_upper c then ascii_of_N (N_of_ascii c + 32) else c.
Definition ascii_only (s : string) : bool := forallb (fun c => byte_val c <? 128) (bytes_of s).
Definition lower_bytes (s : string) : string := of_bytes (ascii_lower <$> bytes_of s).

(** [strings.EqualFold(a, b)] when one side is a lower-case hexadecimal
    string: only ASCII letters fold to hexadecimal digits. *)
Definition equal_fold_hex (a b : string) : bool := String.eqb (lower_bytes a) (lower_bytes b).

(** [strings.EqualFold] against lower-case ASCII letters: besides the capitals, the
    long s and the Kelvin sign fold to them. *)
Fixpoint fold_bytes (l : list ascii) : list ascii :=
  match l with
  | "197"%char :: ("191"%char :: l) => "s"%char :: fold_bytes l
  | "226"%char :: ("132"%char :: ("170"%char :: l)) => "k"%char :: fold_bytes l
  | c :: l => ascii_lower c :: fold_bytes l
  | [] => []
  end.
Definition equal_fold_ascii (s lower : string) : bool := String.eqb (of_bytes (fold_bytes (bytes_of s))) lower.

(** *** Byte-wise order and sorting *)
Definition le (a b : string) : Prop := String.leb a b = true.
#[global] Instance le_dec : RelDecision le := fun a b => decide (String.leb a b = true).

End strings.

(** [strings.ToLower] on non-ASCII text needs the Unicode case tables, which are
    not modelled: the function is given by this class, with its documented
    result on ASCII text. *)
Class Unicode := {
  to_lower : string -> string;
  to_lower_ascii : forall s, strings.ascii_only s = true -> to_lower s = strings.lower_bytes s
}.

Lemma ContainsAny_false s set : strings.ContainsAny s set = false <-> forall c, c ∈ set -> c ∉ bytes_of s.
Proof.
  unfold strings.ContainsAny. rewrite <- not_true_iff_false, existsb_exists. split.
  - intros Hn c Hc Hin. apply Hn. exists c. rewrite <- list_elem_of_In, existsb_exists. split; [done|]. exists c.
    rewrite <- list_elem_of_In. split; [done|]. apply Ascii.eqb_refl.
  - intros Hn (c & Hin & (d & Hd & He)%existsb_exists). apply Ascii.eqb_eq in He as ->. rewrite <- list_elem_of_In in *. by eapply Hn.
Qed.

(** *** path/filepath on Unix *)
Fixpoint before_byte (c : ascii) (l : list ascii) : list ascii :=
  match l with [] => [] | x :: l => if Ascii.eqb x c then [] else x :: before_byte c l end.

Module filepath.
(** [path/filepath] on Unix: the last element of a path without its trailing slashes. *)
Definition Base (path : string) : string :=
  if String.eqb path "" then "." else
  match before_byte "/" (strings.strip_set ["/"%char] (rev (bytes_of path))) with
  | [] => "/"
  | name => of_bytes (rev name)
  end.

(** One element, on the elements so far, the last one first. *)
Definition clean_step (rooted : bool) (st : list string) (element : string) : list string :=
  if String.eqb element "" || String.eqb element "." then st
  else if String.eqb element ".." then
    match st with
    | top :: rest => if String.eqb top ".." then element :: st else rest
    | [] => if rooted then st else element :: st
    end
  else element :: st.

Definition clean_elements (path : string) : list string :=
  rev (foldl (clean_step (strings.HasPrefix path "/")) [] (strings.Split path "/")).

Definition Clean (path : string) : string :=
  let joined := String.concat "/" (clean_elements path) in
  if strings.HasPrefix path "/" then "/" +:+ joined else if String.eqb joined "" then "." else joined.
End filepath.

Example Clean_examples :
  filepath.Clean "/var//lib/./asterferry/../node/snapshot" = "/var/lib/node/snapshot" /\ filepath.Clean "" = "."
  /\ filepath.Clean "a/../../b/" = "../b" /\ filepath.Clean "/.." = "/".
Proof. repeat split; reflexivity. Qed.

(** [strings.ContainsAny(s, "\x00\r\n")]. *)
Definition nul_cr_lf : list ascii := ["000"; "013"; "010"]%char.
Definition tab_space : list ascii := ["009"; "032"]%char.

Module strconv.
Fixpoint digits_value (l : list ascii) (acc : Z) : option Z :=
  match l with
  | [] => Some acc
  | c :: l => if is_digit c then digits_value l (acc * 10 + (byte_val c - 48)) else None
  end.

Definition signed_range (z : Z) : bool := (- 2 ^ 63 <=? z) && (z <? 2 ^ 63).

Definition ErrSyntax := EExternal "strconv.Atoi".

(** [strconv.Atoi]: an optional sign and at least one decimal digit, within
    the 64-bit [int] range. *)
Definition Atoi (s : string) : result Z :=
  let parse neg l :=
    match l with
    | [] => Err ErrSyntax
    | _ => match digits_value l 0 with
           | Some v => let v := if neg : bool then - v else v in
                       if signed_range v then Ok v else Err ErrSyntax
           | None => Err ErrSyntax
           end
    end in
  match bytes_of s with
  | c :: l => if Ascii.eqb c "-"%char then parse true l
              else if Ascii.eqb c "+"%char then parse false l
              else parse false (c :: l)
  | [] => Err ErrSyntax
  end.

(** [strconv.Itoa] and the verb [%d]. *)
Definition Itoa (z : Z) : string := pretty z.

(** The digits of a number, and their value. *)
Lemma pretty_N_char_digit d : (d < 10)%N -> is_digit (pretty_N_char d) = true /\ byte_val (pretty_N_char d) - 48 = Z.of_N d.
Proof.
  intros Hd. assert (d = 0 \/ d = 1 \/ d = 2 \/ d = 3 \/ d = 4 \/ d = 5 \/ d = 6 \/ d = 7 \/ d = 8 \/ d = 9)%N as Hc by lia.
  repeat destruct Hc as [->|Hc]; try (split; reflexivity). subst. split; reflexivity.
Qed.

Lemma pretty_N_go_digits x : forall s,
  forallb is_digit (bytes_of (pretty_N_go x s)) = forallb is_digit (bytes_of s) /\
  forall acc, acc = 0 -> digits_value (bytes_of (pretty_N_go x s)) acc = digits_value (bytes_of s) (Z.of_N x).
Proof.
  induction (N.lt_wf_0 x) as [x _ IH]; intros s.
  assert (x = 0 \/ 0 < x)%N as [->|Hx] by lia; [rewrite pretty_N_go_0; by split; [|intros ? ->]|].
  rewrite pretty_N_go_step by done. destruct (IH (x `div` 10)%N (N.div_lt x 10 Hx eq_refl) (String (pretty_N_char (x `mod` 10)) s)) as [H1 H2].
  destruct (pretty_N_char_digit (x `mod` 10)%N) as [Hd Hv]; [by apply N.mod_lt|]. split.
  - rewrite H1. cbn [list_ascii_of_string forallb]. by rewrite Hd.
  - intros acc ->. rewrite H2 by done. cbn [list_ascii_of_string digits_value]. rewrite Hd, Hv. f_equal.
    rewrite N2Z.inj_div, N2Z.inj_mod. pose proof (Z.div_mod (Z.of_N x) 10). lia.
Qed.

Lemma Itoa_digits z : 0 <= z -> forallb is_digit (bytes_of (Itoa z)) = true /\ bytes_of (Itoa z) <> [] /\ digits_value (bytes_of (Itoa z)) 0 = Some z.
Proof.
  intros Hz. unfold Itoa. destruct z as [|p|p]; [done| |lia]. change (pretty (Z.pos p)) with (pretty_N_go (N.pos p) "").
  destruct (pretty_N_go_digits (N.pos p) "") as [H1 H2]. rewrite H1, (H2 0 eq_refl). split_and!; [done| |done].
  intros Hn. specialize (H2 0 eq_refl). rewrite Hn in H2. done.
Qed.

Lemma digit_not c d : is_digit c = true -> is_digit d = false -> c <> d.
Proof. intros Hc Hd ->. congruence. Qed.

Lemma Atoi_Itoa z : 0 <= z < 2 ^ 63 -> Atoi (Itoa z) = Ok z.
Proof.
  intros Hz. destruct (Itoa_digits z ltac:(lia)) as (Hd & Hne & Hv). unfold Atoi. destruct (bytes_of (Itoa z)) as [|c l]; [done|].
  cbn [forallb] in Hd. apply andb_true_iff in Hd as [Hc _].
  destruct (Ascii.eqb_spec c "-"%char) as [->|]; [done|]. destruct (Ascii.eqb_spec c "+"%char) as [->|]; [done|].
  rewrite Hv. unfold signed_range. destruct (Z.leb_spec (- 2 ^ 63) z), (Z.ltb_spec z (2 ^ 63)); try lia; done.
Qed.
End strconv.

(** ** Sorting

    [sort.Slice] is not stable: it returns some permutation in which no element
    is [less] than an earlier one.  The class states exactly that, for a [less]
    that is a strict weak order on its elements; [sort.SliceStable] and [sort.Strings] have one
    result and are insertion sort. *)
Section InsertionSort.
Context {A : Type} (less : A -> A -> bool).

Fixpoint insert_stable (x : A) (l : list A) : list A :=
  match l with
  | [] => [x]
  | y :: l' => if less y x then y :: insert_stable x l' else x :: l
  end.

Fixpoint sort_stable (l : list A) : list A :=
  match l with [] => [] | x :: l => insert_stable x (sort_stable l) end.

(** A strict weak order on the elements of [P]. *)
Definition weak_order_on (P : A -> Prop) : Prop :=
  (forall x, P x -> less x x = false) /\ (forall x y z, P x -> P y -> P z -> less x y = true -> less y z = true -> less x z = true)
  /\ (forall x y z, P x -> P y -> P z -> less x y = false -> less y z = false -> less x z = false).

Definition weak_order : Prop :=
  (forall x, less x x = false) /\ (forall x y z, less x y = true -> less y z = true -> less x z = true)
  /\ (forall x y z, less x y = false -> less y z = false -> less x z = false).

Definition not_after (x y : A) : Prop := less y x = false.

Lemma insert_stable_perm x l : insert_stable x l ≡ₚ x :: l.
Proof. induction l as [|y l IH]; cbn; [done|]. case_match; [| done]. rewrite IH. constructor. Qed.

Lemma sort_stable_perm l : sort_stable l ≡ₚ l.
Proof. induction l as [|x l IH]; cbn; [done|]. by rewrite insert_stable_perm, IH. Qed.

Lemma insert_stable_sorted P x l : weak_order_on P -> P x -> Forall P l ->
  StronglySorted not_after l -> StronglySorted not_after (insert_stable x l).
Proof.
  intros (Hi & Ht & Hn) Hx HP H. induction H as [|y l Hs IH Hall]; cbn; [repeat constructor|].
  apply Forall_cons in HP as [Hy HP]. destruct (less y x) eqn:E.
  - constructor; [by apply IH|]. rewrite insert_stable_perm. constructor; [| done].
    unfold not_after. destruct (less x y) eqn:E'; [| done].
    specialize (Hi y Hy). by rewrite (Ht y x y Hy Hx Hy E E') in Hi.
  - constructor; [by constructor|]. constructor; [done|].
    rewrite Forall_forall in *. intros z Hz. unfold not_after in *. eapply (Hn z y x); eauto.
Qed.

Lemma sort_stable_sorted_on l : weak_order_on (fun x => x ∈ l) -> StronglySorted not_after (sort_stable l).
Proof.
  intros Hw. enough (forall k, (forall x, x ∈ k -> x ∈ l) -> StronglySorted not_after (sort_stable k)) as H by by apply H.
  induction k as [|x k IH]; intros Hk; cbn; [constructor|]. eapply insert_stable_sorted; [exact Hw | apply Hk; by left | |].
  - apply Forall_forall. intros y Hy. rewrite sort_stable_perm in Hy. apply Hk. by right.
  - apply IH. intros y Hy. apply Hk. by right.
Qed.

Lemma weak_order_any P : weak_order -> weak_order_on P.
Proof. intros (H1 & H2 & H3). split_and!; eauto. Qed.

Lemma sort_stable_sorted l : weak_order -> StronglySorted not_after (sort_stable l).
Proof. intros Hw. by apply sort_stable_sorted_on, weak_order_any. Qed.
End InsertionSort.

Class SliceSort := {
  sort_slice : forall {A : Type} (less : A -> A -> bool), list A -> list A;
  sort_slice_perm : forall {A} (less : A -> A -> bool) l, sort_slice less l ≡ₚ l;
  sort_slice_sorted_on : forall {A} (less : A -> A -> bool) l,
    weak_order_on less (fun x => x ∈ l) -> StronglySorted (not_after less) (sort_slice less l)
}.

Lemma sort_slice_sorted `{!SliceSort} {A} (less : A -> A -> bool) l : weak_order less -> StronglySorted (not_after less) (sort_slice less l).
Proof. intros Hw. by apply sort_slice_sorted_on, weak_order_any. Qed.

(** Insertion sort is one such function (and what Go runs on short slices). *)
Definition insertion_slice_sort : SliceSort := {|
  sort_slice := @sort_stable;
  sort_slice_perm := @sort_stable_perm;
  sort_slice_sorted_on := @sort_stable_sorted_on
|}.

(** [a < b] on strings, and [sort.Slice] by a string key. *)
Definition string_less (a b : string) : bool :=
  match String.compare a b with Lt => true | _ => false end.

Definition key_less {A} (key : A -> string) (a b : A) : bool := string_less (key a) (key b).

Definition sort_strings : list string -> list string := sort_stable string_less.

Lemma string_compare_cons a b s t :
  String.compare (String a s) (String b t) =
  match N.compare (N_of_ascii a) (N_of_ascii b) with Eq => String.compare s t | c => c end.
Proof. reflexivity. Qed.

Lemma string_compare_refl s : String.compare s s = Eq.
Proof. induction s as [|a s IH]; [done|]. by rewrite string_compare_cons, N.compare_refl. Qed.

Lemma string_compare_trans c x y z :
  String.compare x y = c -> String.compare y z = c -> String.compare x z = c.
Proof.
  revert y z. induction x as [|a x IH]; intros [|b y] [|d z]; cbn -[N.compare]; try congruence.
  change (Ascii.compare ?p ?q) with (N.compare (N_of_ascii p) (N_of_ascii q)).
  destruct (N.compare_spec (N_of_ascii a) (N_of_ascii b)) as [E1|E1|E1];
  destruct (N.compare_spec (N_of_ascii b) (N_of_ascii d)) as [E2|E2|E2];
  destruct (N.compare_spec (N_of_ascii a) (N_of_ascii d)) as [E3|E3|E3];
    try lia; try congruence; try (by eauto); intros <- ?; congruence.
Qed.

Lemma string_less_weak : weak_order string_less.
Proof.
  unfold string_less. split_and!.
  - intros x. by rewrite string_compare_refl.
  - intros x y z. destruct (String.compare x y) eqn:E1; try done.
    destruct (String.compare y z) eqn:E2; try done. by rewrite (string_compare_trans _ _ _ _ E1 E2).
  - intros x y z. destruct (String.compare x y) eqn:E1; try done;
      destruct (String.compare y z) eqn:E2; try done; intros _ _.
    + by rewrite (string_compare_trans _ _ _ _ E1 E2).
    + apply String.compare_eq_iff in E1 as ->. by rewrite E2.
    + apply String.compare_eq_iff in E2 as <-. by rewrite E1.
    + by rewrite (string_compare_trans _ _ _ _ E1 E2).
Qed.

Lemma string_less_antisym a b : string_less a b = false -> string_less b a = false -> a = b.
Proof.
  unfold string_less. rewrite (String.compare_antisym a b).
  destruct (String.compare b a) eqn:E; cbn; try done. intros _ _. symmetry.
  by apply String.compare_eq_iff.
Qed.

Lemma key_less_weak {A} (key : A -> string) : weak_order (key_less key).
Proof.
  destruct string_less_weak as (H1 & H2 & H3). unfold key_less. split_and!; eauto.
Qed.

(** When keys are distinct the sorted list is determined by its elements. *)
Lemma sort_slice_unique `{!SliceSort} {A} (key : A -> string) l1 l2 :
  NoDup (key <$> l1) -> l1 ≡ₚ l2 -> sort_slice (key_less key) l1 = sort_slice (key_less key) l2.
Proof.
  intros Hnd Hp.
  apply (StronglySorted_unique_strong (not_after (key_less key)));
    [| apply sort_slice_sorted, key_less_weak .. | by rewrite !sort_slice_perm].
  intros x y Hx Hy Hxy Hyx. rewrite sort_slice_perm in Hx, Hy.
  rewrite <- Hp in Hy. unfold not_after, key_less in *.
  pose proof (string_less_antisym _ _ Hyx Hxy) as Hk.
  apply list_elem_of_lookup in Hx as [i Hi], Hy as [j Hj].
  assert (i = j) as ->; [| congruence].
  eapply (NoDup_lookup (key <$> l1) i j (key x)); [done | |]; rewrite list_lookup_fmap.
  - by rewrite Hi.
  - by rewrite Hj, Hk.
Qed.

Lemma sort_strings_perm l : sort_strings l ≡ₚ l.
Proof. apply sort_stable_perm. Qed.

Lemma sort_strings_unique l1 l2 : l1 ≡ₚ l2 -> sort_strings l1 = sort_strings l2.
Proof.
  intros Hp. apply (StronglySorted_unique_strong (not_after string_less));
    [| apply sort_stable_sorted, string_less_weak .. | by rewrite !sort_strings_perm].
  intros x y _ _ ? ?. by apply string_less_antisym.
Qed.

(** ** Hashing: [crypto/sha256] is a function to 32 bytes; [encoding/hex] *)
Class Crypto := {
  sha256 : list ascii -> list ascii;
  sha256_length : forall l, List.length (sha256 l) = 32%nat
}.

Definition hex_nibble (z : Z) : ascii := ascii_of_N (Z.to_N (if z <? 10 then z + 48 else z + 87)).
Definition hex_encode (l : list ascii) : string :=
  of_bytes (flat_map (fun c => [hex_nibble (byte_val c / 16); hex_nibble (byte_val c mod 16)]) l).

(** [hex.DecodeString]. *)
Definition hex_value (c : ascii) : option Z :=
  if is_digit c then Some (byte_val c - 48) else if in_byte_range 97 102 c then Some (byte_val c - 87)
  else if in_byte_range 65 70 c then Some (byte_val c - 55) else None.
Fixpoint hex_decode_bytes (l : list ascii) : option (list ascii) :=
  match l with
  | [] => Some []
  | h :: l :: rest =>
      match hex_value h, hex_value l, hex_decode_bytes rest with
      | Some h, Some l, Some rest => Some (ascii_of_N (Z.to_N (16 * h + l)) :: rest)
      | _, _, _ => None
      end
  | [_] => None
  end.
Definition hex_decode (s : string) : result (list ascii) :=
  match hex_decode_bytes (bytes_of s) with Some l => Ok l | None => Err (EExternal "hex.DecodeString") end.

Lemma hex_values c : exists h l, hex_value (hex_nibble (byte_val c / 16)) = Some h /\ hex_value (hex_nibble (byte_val c mod 16)) = Some l
  /\ ascii_of_N (Z.to_N (16 * h + l)) = c.
Proof. destruct c as [[] [] [] [] [] [] [] []]; do 2 eexists; split_and!; reflexivity. Qed.
Lemma hex_decode_encode l : hex_decode (hex_encode l) = Ok l.
Proof.
  unfold hex_decode, hex_encode. rewrite bytes_of_of_bytes. enough (hex_decode_bytes (flat_map (fun c => [hex_nibble (byte_val c / 16); hex_nibble (byte_val c mod 16)]) l) = Some l) as -> by done.
  induction l as [|c l IH]; [done|]. cbn [flat_map app hex_decode_bytes]. destruct (hex_values c) as (h & lo & -> & -> & E). by rewrite IH, E.
Qed.
