(* ===== verification/GoNet.v ===== *)
(** * [net] and [net/netip]: addresses, prefixes, host:port splitting

    An address carries its numeric value; an IPv6 zone is empty when absent.
    [ParseAddr], [String], [ParsePrefix], [Contains], [Masked], [Unmap],
    [SplitHostPort] and [JoinHostPort] follow the Go implementations.  Only the
    text of the parse errors is left out. *)
From S2P Require Import Prelude GoStd.

Module netip.

Inductive Addr :=
| AddrZero
| Addr4 (bits : Z)
| Addr6 (bits : Z) (zone : string).

#[global] Instance addr_eq_dec : EqDecision Addr.
Proof. solve_decision. Defined.

Definition BitLen (a : Addr) : Z :=
  match a with AddrZero => 0 | Addr4 _ => 32 | Addr6 _ _ => 128 end.
Definition bits_of (a : Addr) : Z :=
  match a with AddrZero => 0 | Addr4 b => b | Addr6 b _ => b end.
Definition has_zone (a : Addr) : bool :=
  match a with Addr6 _ z => negb (String.eqb z "") | _ => false end.
Definition Is6 (a : Addr) : bool := match a with Addr6 _ _ => true | _ => false end.
Definition without_zone (a : Addr) : Addr :=
  match a with Addr6 b _ => Addr6 b "" | _ => a end.

Definition well_formed (a : Addr) : Prop := 0 <= bits_of a < 2 ^ BitLen a.

(** An IPv4-mapped IPv6 address is [::ffff:a.b.c.d]. *)
Definition Is4In6 (a : Addr) : bool :=
  match a with Addr6 b _ => Z.shiftr b 32 =? 65535 | _ => false end.
Definition Unmap (a : Addr) : Addr :=
  if Is4In6 a then Addr4 (Z.land (bits_of a) (Z.ones 32)) else a.

(** *** Parsing *)
Definition bytes_value (l : list Z) : Z := fold_left (fun acc b => acc * 256 + b) l 0.

(** The four decimal fields of an IPv4 address; [digits] counts the digits of
    the current field. *)
Fixpoint parse_v4_fields (l : list ascii) (digits val : Z) (fields : list Z) : option (list Z) :=
  match l with
  | [] => if (digits =? 0) || (llen fields <? 3) then None else Some (fields ++ [val])
  | c :: l =>
      if is_digit c then
        if (digits =? 1) && (val =? 0) then None else
        let val := val * 10 + (byte_val c - 48) in
        if val >? 255 then None else parse_v4_fields l (digits + 1) val fields
      else if Ascii.eqb c "."%char then
        if (digits =? 0) || (llen fields =? 3) then None
        else parse_v4_fields l 0 0 (fields ++ [val])
      else None
  end.

Definition parseIPv4 (l : list ascii) : option Addr :=
  f ← parse_v4_fields l 0 0 []; Some (Addr4 (bytes_value f)).

Definition hex_value (c : ascii) : option Z :=
  if is_digit c then Some (byte_val c - 48)
  else if in_byte_range 97 102 c then Some (byte_val c - 87)
  else if in_byte_range 65 70 c then Some (byte_val c - 55)
  else None.

(** One run of at most four hexadecimal digits: (digits, value, rest). *)
Fixpoint hex_run (l : list ascii) (off acc : Z) : option (Z * Z * list ascii) :=
  match l with
  | c :: l' =>
      match hex_value c with
      | Some v => if off >? 3 then None else hex_run l' (off + 1) (acc * 16 + v)
      | None => Some (off, acc, l)
      end
  | [] => Some (off, acc, l)
  end.

(** The main loop of [parseIPv6]: [ip] holds the bytes written so far.  Eight
    rounds fill the address, so [fuel] 8 never runs out before [i < 16] does. *)
Fixpoint v6_loop (fuel : nat) (s : list ascii) (ip : list Z) (ellipsis : option nat)
    : option (list ascii * list Z * option nat) :=
  match fuel with
  | O => Some (s, ip, ellipsis)
  | S fuel =>
      '(off, acc, rest) ← hex_run s 0 0;
      if off =? 0 then None else
      match rest with
      | "."%char :: _ =>
          if bool_decide (ellipsis = None) && negb (llen ip =? 12) then None
          else if llen ip + 4 >? 16 then None
          else f ← parse_v4_fields s 0 0 []; Some ([], ip ++ f, ellipsis)
      | _ =>
          let ip := ip ++ [acc / 256; acc mod 256] in
          match rest with
          | [] => Some ([], ip, ellipsis)
          | [_] => None
          | ":"%char :: ":"%char :: s' =>
              if bool_decide (is_Some ellipsis) then None
              else match s' with
                   | [] => Some ([], ip, Some (List.length ip))
                   | _ => v6_loop fuel s' ip (Some (List.length ip))
                   end
          | ":"%char :: s' => v6_loop fuel s' ip ellipsis
          | _ => None
          end
      end
  end.

Definition expand_ellipsis (ip : list Z) (ellipsis : option nat) : option (list Z) :=
  if llen ip <? 16 then
    e ← ellipsis;
    Some (firstn e ip ++ repeat 0 (16 - List.length ip) ++ skipn e ip)
  else if bool_decide (is_Some ellipsis) then None else Some ip.

Definition parseIPv6 (l : list ascii) : option Addr :=
  let '(l, zone) :=
    match strings.index_byte l "%"%char with
    | Some i => (firstn i l, Some (of_bytes (skipn (S i) l)))
    | None => (l, None)
    end in
  if bool_decide (zone = Some "") then None else
  let zone := default "" zone in
  match l with
  | [":"%char; ":"%char] => Some (Addr6 0 zone)
  | _ =>
      let '(s, ell) := match l with
                       | ":"%char :: ":"%char :: s => (s, Some O)
                       | _ => (l, None)
                       end in
      '(rest, ip, ell) ← v6_loop 8 s [] ell;
      match rest with
      | _ :: _ => None
      | [] => ip ← expand_ellipsis ip ell; Some (Addr6 (bytes_value ip) zone)
      end
  end.

Fixpoint parse_by_first_mark (whole l : list ascii) : option Addr :=
  match l with
  | [] => None
  | "."%char :: _ => parseIPv4 whole
  | ":"%char :: _ => parseIPv6 whole
  | "%"%char :: _ => None
  | _ :: l => parse_by_first_mark whole l
  end.

Definition ErrParse := EExternal "netip.ParseAddr".

Definition ParseAddr (s : string) : result Addr :=
  match parse_by_first_mark (bytes_of s) (bytes_of s) with
  | Some a => Ok a
  | None => Err ErrParse
  end.

(** *** Printing *)
Definition byte_of (v i : Z) : Z := Z.land (Z.shiftr v (8 * i)) 255.
Definition group_of (v i : Z) : Z := Z.land (Z.shiftr v (16 * (7 - i))) 65535.

Definition hex_digit (z : Z) : ascii :=
  ascii_of_N (Z.to_N (if z <? 10 then z + 48 else z + 87)).
Definition hex_group (v : Z) : list ascii :=
  let d i := hex_digit (Z.land (Z.shiftr v (4 * i)) 15) in
  if v >=? 4096 then [d 3; d 2; d 1; d 0]
  else if v >=? 256 then [d 2; d 1; d 0]
  else if v >=? 16 then [d 1; d 0]
  else [d 0].

Fixpoint zero_run (groups : list Z) : Z :=
  match groups with g :: gs => if g =? 0 then 1 + zero_run gs else 0 | [] => 0 end.

(** The leftmost longest run of at least two zero groups: (start, length). *)
Fixpoint longest_zero_run (groups : list Z) (i : Z) (best : Z * Z) : Z * Z :=
  match groups with
  | [] => best
  | _ :: gs =>
      let l := zero_run groups in
      longest_zero_run gs (i + 1) (if (l >=? 2) && (l >? snd best) then (i, l) else best)
  end.

Fixpoint print_groups (groups : list Z) (i : Z) (zs zl : Z) : list ascii :=
  match groups with
  | [] => []
  | g :: gs =>
      if (zs <=? i) && (i <? zs + zl) then
        (if i =? zs then [":"; ":"]%char else []) ++ print_groups gs (i + 1) zs zl
      else
        (if (0 <? i) && negb (i =? zs + zl) then [":"%char] else [])
          ++ hex_group g ++ print_groups gs (i + 1) zs zl
  end.

Definition addr_string (a : Addr) : string :=
  match a with
  | AddrZero => "invalid IP"
  | Addr4 v =>
      String.concat "." ((fun i => strconv.Itoa (byte_of v i)) <$> [3; 2; 1; 0])
  | Addr6 v z =>
      let zone := if String.eqb z "" then "" else "%" +:+ z in
      if Is4In6 a then
        "::ffff:" +:+ String.concat "." ((fun i => strconv.Itoa (byte_of v i)) <$> [3; 2; 1; 0]) +:+ zone
      else
      let groups := group_of v <$> [0; 1; 2; 3; 4; 5; 6; 7] in
      let '(zs, zl) := longest_zero_run groups 0 (-1, 0) in
      of_bytes (print_groups groups 0 zs zl) +:+ zone
  end.

(** *** Prefixes *)
Record Prefix := MkPrefix { Addr_of : Addr; Bits : Z }.

Definition valid_prefix (p : Prefix) : bool :=
  negb (bool_decide (Addr_of p = AddrZero)) && (0 <=? Bits p) && (Bits p <=? BitLen (Addr_of p)).

(** The bits of an address below the prefix length. *)
Definition host_bits (p : Prefix) : Z := BitLen (Addr_of p) - Bits p.

Definition ParsePrefix (s : string) : result Prefix :=
  match strings.last_index_byte (bytes_of s) "/"%char with
  | None => Err (EExternal "netip.ParsePrefix")
  | Some i =>
      ip ← ParseAddr (strings.take i s);
      _ ← reject_if (has_zone ip) (EExternal "netip.ParsePrefix");
      let bits_str := strings.drop (S i) s in
      _ ← reject_if ((slen bits_str >? 1)
                     && negb (match bytes_of bits_str with c :: _ => in_byte_range 49 57 c | [] => false end))
                    (EExternal "netip.ParsePrefix");
      bits ← strconv.Atoi bits_str;
      _ ← reject_if ((bits <? 0) || (bits >? BitLen ip)) (EExternal "netip.ParsePrefix");
      Ok (MkPrefix (without_zone ip) bits)
  end.

Definition Contains (p : Prefix) (a : Addr) : bool :=
  valid_prefix p && negb (has_zone a)
  && negb (BitLen a =? 0) && (BitLen (Addr_of p) =? BitLen a)
  && (Z.shiftr (Z.lxor (bits_of a) (bits_of (Addr_of p))) (host_bits p) =? 0).

Definition mask (v host : Z) : Z := Z.shiftl (Z.shiftr v host) host.

Definition Masked (p : Prefix) : Prefix :=
  MkPrefix (match Addr_of p with
            | AddrZero => AddrZero
            | Addr4 v => Addr4 (mask v (host_bits p))
            | Addr6 v _ => Addr6 (mask v (host_bits p)) ""
            end) (Bits p).

Lemma shiftr_mask v host : 0 <= host -> Z.shiftr (mask v host) host = Z.shiftr v host.
Proof.
  intros H. unfold mask. rewrite Z.shiftr_shiftl_l by done.
  by rewrite Z.sub_diag, Z.shiftl_0_r.
Qed.

Lemma Contains_spec p a :
  Contains p a = true <->
  valid_prefix p = true /\ has_zone a = false /\ BitLen a <> 0 /\ BitLen (Addr_of p) = BitLen a
  /\ Z.shiftr (bits_of a) (host_bits p) = Z.shiftr (bits_of (Addr_of p)) (host_bits p).
Proof.
  unfold Contains. rewrite !andb_true_iff, !negb_true_iff, !Z.eqb_eq, Z.eqb_neq.
  rewrite Z.shiftr_lxor, Z.lxor_eq_0_iff. naive_solver.
Qed.

(** Two addresses that agree above [h] bits agree above every larger bound. *)
Lemma shiftr_agree x y h h' :
  0 <= h <= h' -> Z.shiftr x h = Z.shiftr y h -> Z.shiftr x h' = Z.shiftr y h'.
Proof.
  intros [? ?] E. replace h' with (h + (h' - h)) by lia.
  rewrite <- !Z.shiftr_shiftr by lia. by rewrite E.
Qed.

End netip.

Module net.

Definition addr_error : error := EExternal "net.AddrError".

Definition index_from (l : list ascii) (c : ascii) (from : nat) : bool :=
  match strings.index_byte (skipn from l) c with Some _ => true | None => false end.

Definition bracketed (l : list ascii) : bool := match l with c :: _ => Ascii.eqb c "["%char | [] => false end.

Definition SplitHostPort (s : string) : result (string * string) :=
  let l := bytes_of s in
  match strings.last_index_byte l ":"%char with
  | None => Err addr_error
  | Some i =>
      '(host, j, k) ←
        (if bracketed l then
           match strings.index_byte l "]"%char with
           | None => Err addr_error
           | Some e => if (S e =? i)%nat then Ok (firstn (e - 1) (skipn 1 l), 1%nat, S e)
                       else Err addr_error
           end
         else
           let host := firstn i l in
           match strings.index_byte host ":"%char with
           | Some _ => Err addr_error
           | None => Ok (host, O, O)
           end);
      _ ← reject_if (index_from l "["%char j) addr_error;
      _ ← reject_if (index_from l "]"%char k) addr_error;
      Ok (of_bytes host, of_bytes (skipn (S i) l))
  end.

(** What [SplitHostPort] accepts. *)
Definition host_port_text (s h p : list ascii) : Prop :=
  ":"%char ∉ p /\ "["%char ∉ h /\ "]"%char ∉ h /\ "["%char ∉ p /\ "]"%char ∉ p /\
  (s = h ++ ":"%char :: p /\ ":"%char ∉ h \/ s = "["%char :: h ++ "]"%char :: ":"%char :: p).

Lemma index_from_false l c n : index_from l c n = false <-> c ∉ skipn n l.
Proof.
  unfold index_from. destruct (strings.index_byte (skipn n l) c) as [i|] eqn:E; [|by rewrite <- strings.index_byte_None].
  split; [done|]. intros Hn. apply strings.index_byte_None in Hn. congruence.
Qed.

Lemma firstn_head {A} (a b : list A) n : List.length a = n -> firstn n (a ++ b) = a.
Proof. intros <-. by rewrite firstn_app, Nat.sub_diag, firstn_all, app_nil_r. Qed.
Lemma skipn_tail {A} (a : list A) x b n : List.length a = n -> skipn (S n) (a ++ x :: b) = b.
Proof. intros <-. induction a; [done|]. by cbn. Qed.

Lemma of_bytes_inj a b : of_bytes a = of_bytes b -> a = b.
Proof. intros H. by rewrite <- (list_ascii_of_string_of_list_ascii a), H, list_ascii_of_string_of_list_ascii. Qed.

Lemma SplitHostPort_inv l h p :
  SplitHostPort (of_bytes l) = Ok (of_bytes h, of_bytes p) -> host_port_text l h p.
Proof.
  unfold SplitHostPort. rewrite list_ascii_of_string_of_list_ascii. cbv zeta.
  destruct (strings.last_index_byte l ":"%char) as [i|] eqn:E; [|done]. apply strings.last_index_byte_Some in E as (a & b & -> & Hp & Hi).
  rewrite (firstn_head _ _ _ Hi), (skipn_tail _ _ _ _ Hi). intros H. inv_ok. destruct x as [[host j] k]. inv_ok.
  rewrite !index_from_false in *.
  repeat match goal with Ho : of_bytes _ = of_bytes _ |- _ => apply of_bytes_inj in Ho end. subst. unfold host_port_text.
  destruct (bracketed (a ++ ":"%char :: p)) eqn:Eb.
  - destruct (strings.index_byte (a ++ ":"%char :: p) "]"%char) as [e|] eqn:Ee; [|done].
    apply strings.index_byte_Some in Ee as (u & v & Hl & Hu & He). destruct (Nat.eqb_spec (S e) (List.length a)) as [Hae|]; [|done].
    assert (a = u ++ ["]"%char] /\ v = ":"%char :: p) as [-> ->].
    { replace (u ++ "]"%char :: v) with ((u ++ ["]"%char]) ++ v) in Hl by (by rewrite <- app_assoc).
      apply app_inj_1 in Hl as [? ?]; [done|]. rewrite length_app. cbn. lia. }
    clear Hl. rewrite <- app_assoc in *. destruct u as [|c u]; [done|]. cbn in Eb. apply Ascii.eqb_eq in Eb as ->.
    injection H0 as <- <- <-. subst e. cbn [app List.length skipn] in *. rewrite Nat.sub_succ, Nat.sub_0_r in *. cbn [app] in *.
    rewrite !drop_0 in *. rewrite (firstn_head u) by done. rewrite (skipn_tail u "]"%char (":"%char :: p)) in H2 by done. set_solver.
  - destruct (strings.index_byte a ":"%char) eqn:Ea; [done|]. apply strings.index_byte_None in Ea. injection H0 as <- <- <-.
    cbn [skipn] in *. set_solver.
Qed.

Lemma SplitHostPort_ok l h p :
  host_port_text l h p -> SplitHostPort (of_bytes l) = Ok (of_bytes h, of_bytes p).
Proof.
  intros (H1 & H2 & H3 & H4 & H5 & H). unfold SplitHostPort. rewrite list_ascii_of_string_of_list_ascii. cbv zeta.
  destruct H as [[-> Hh]| ->].
  - rewrite strings.last_index_byte_app by done. rewrite (firstn_head _ _ _ eq_refl), (skipn_tail _ _ _ _ eq_refl).
    assert (bracketed (h ++ ":"%char :: p) = false) as ->.
    { destruct h as [|c h]; [done|]. cbn. destruct (Ascii.eqb_spec c "["%char) as [->|]; [|done]. set_solver. }
    assert (strings.index_byte h ":"%char = None) as -> by (by apply strings.index_byte_None). cbn [mbind result_bind].
    assert (index_from (h ++ ":"%char :: p) "["%char 0 = false) as -> by (apply index_from_false; cbn; set_solver).
    by assert (index_from (h ++ ":"%char :: p) "]"%char 0 = false) as -> by (apply index_from_false; cbn; set_solver).
  - replace ("["%char :: h ++ "]"%char :: ":"%char :: p) with (("["%char :: h ++ ["]"%char]) ++ ":"%char :: p) by (cbn; by rewrite <- app_assoc).
    rewrite strings.last_index_byte_app by done. rewrite (skipn_tail _ _ _ _ eq_refl).
    replace (("["%char :: h ++ ["]"%char]) ++ ":"%char :: p) with (("["%char :: h) ++ "]"%char :: ":"%char :: p) by (cbn; by rewrite <- app_assoc).
    rewrite strings.index_byte_app by set_solver. cbn [app List.length].
    change (bracketed ("["%char :: h ++ "]"%char :: ":"%char :: p)) with true. cbv iota.
    rewrite length_app. cbn [List.length]. rewrite Nat.add_1_r, Nat.eqb_refl, Nat.sub_succ, Nat.sub_0_r. cbn [skipn mbind result_bind].
    rewrite !drop_0, (firstn_head h) by done.
    assert (index_from ("["%char :: h ++ "]"%char :: ":"%char :: p) "["%char 1 = false) as -> by (apply index_from_false; cbn; set_solver).
    cbn [mbind result_bind reject_if].
    assert (index_from ("["%char :: h ++ "]"%char :: ":"%char :: p) "]"%char (S (S (List.length h))) = false) as ->; [|done].
    apply index_from_false. change ("["%char :: h ++ "]"%char :: ":"%char :: p) with (("["%char :: h) ++ "]"%char :: ":"%char :: p).
    rewrite (skipn_tail ("["%char :: h)) by done. set_solver.
Qed.

Definition JoinHostPort (host port : string) : string :=
  match strings.IndexByte host ":"%char with
  | Some _ => "[" +:+ host +:+ "]:" +:+ port
  | None => host +:+ ":" +:+ port
  end.

(** *** [net.IP] and [net.IPNet]

    A [net.IP] is kept in the form [To4] gives it where it has one: [None] is nil, an
    IPv4 or IPv4-mapped address is an [Addr4].  A network is kept as the number and
    the mask that [Contains] computes with. *)
Definition ParseIP (s : string) : option netip.Addr :=
  match netip.ParseAddr s with
  | Ok a => if netip.has_zone a then None else Some (netip.Unmap a)
  | Err _ => None
  end.

(** [dtoi]: the digits at the front as a number below 0xFFFFFF, and how many. *)
Fixpoint dtoi (l : list ascii) (n i : Z) : option (Z * Z) :=
  match l with
  | c :: l' =>
      if is_digit c then
        let n := n * 10 + (byte_val c - 48) in
        if n >=? 16777215 then None else dtoi l' n (i + 1)
      else if i =? 0 then None else Some (n, i)
  | [] => if i =? 0 then None else Some (n, i)
  end.

Definition parse_error : error := EExternal "net.ParseError".

(** The network of [net.ParseCIDR]; the mask of an IPv4-mapped number loses its first
    96 bits. *)
Definition ParseCIDR (s : string) : result netip.Prefix :=
  match strings.index_byte (bytes_of s) "/"%char with
  | None => Err parse_error
  | Some i =>
      ip ← map_err (fun _ => parse_error) (netip.ParseAddr (strings.take i s));
      _ ← reject_if (netip.has_zone ip) parse_error;
      let digits := strings.drop (S i) s in
      match dtoi (bytes_of digits) 0 0 with
      | None => Err parse_error
      | Some (n, used) =>
          _ ← reject_if (negb (used =? slen digits) || (n >? netip.BitLen ip)) parse_error;
          let number := netip.Addr_of (netip.Masked (netip.MkPrefix ip n)) in
          Ok (if netip.Is4In6 number then netip.MkPrefix (netip.Unmap number) (n - 96) else netip.MkPrefix number n)
      end
  end.

Definition IPNet_Contains (p : netip.Prefix) (ip : netip.Addr) : bool :=
  (netip.BitLen (netip.Addr_of p) =? netip.BitLen ip)
  && (Z.shiftr (netip.bits_of ip) (netip.host_bits p) =? Z.shiftr (netip.bits_of (netip.Addr_of p)) (netip.host_bits p)).

Definition in_block (ip : netip.Addr) (len number bits : Z) : bool :=
  (netip.BitLen ip =? len) && (Z.shiftr (netip.bits_of ip) (len - bits) =? number).

(** 10/8, 172.16/12, 192.168/16 and fc00::/7. *)
Definition IsPrivate (ip : netip.Addr) : bool :=
  in_block ip 32 10 8 || in_block ip 32 2753 12 || in_block ip 32 49320 16 || in_block ip 128 126 7.
(** 127/8 and ::1. *)
Definition IsLoopback (ip : netip.Addr) : bool := in_block ip 32 127 8 || in_block ip 128 1 128.
(** 169.254/16 and fe80::/10. *)
Definition IsLinkLocalUnicast (ip : netip.Addr) : bool := in_block ip 32 43518 16 || in_block ip 128 1018 10.

End net.

(** The parsers and printers on concrete input. *)
Example parse_v4 : netip.ParseAddr "10.0.2.255" = Ok (netip.Addr4 167772927).
Proof. reflexivity. Qed.
Example parse_v4_zero : netip.ParseAddr "10.00.2.255" = Err netip.ErrParse.
Proof. reflexivity. Qed.
Example print_v6 :
  (netip.addr_string <$> netip.ParseAddr "2001:DB8:0:0:1:0:0:1") = Ok "2001:db8::1:0:0:1".
Proof. vm_compute. reflexivity. Qed.
Example unmap_v6 :
  ((netip.addr_string ∘ netip.Unmap) <$> netip.ParseAddr "::ffff:1.2.3.4") = Ok "1.2.3.4".
Proof. vm_compute. reflexivity. Qed.
Example print_v6_zone : (netip.addr_string <$> netip.ParseAddr "fe80::1%eth0") = Ok "fe80::1%eth0".
Proof. vm_compute. reflexivity. Qed.
Example print_v6_ends : (netip.addr_string <$> netip.ParseAddr "1::") = Ok "1::".
Proof. vm_compute. reflexivity. Qed.
Example split_v6 : net.SplitHostPort "[::1]:80" = Ok ("::1", "80").
Proof. reflexivity. Qed.
Example split_too_many : net.SplitHostPort "::1:80" = Err net.addr_error.
Proof. reflexivity. Qed.
Example split_plain : net.SplitHostPort "example.org:443" = Ok ("example.org", "443").
Proof. reflexivity. Qed.
Example parse_prefix : netip.ParsePrefix "10.1.0.0/16" = Ok (netip.MkPrefix (netip.Addr4 167837696) 16).
Proof. reflexivity. Qed.

Example ip_classes :
  (net.IsPrivate <$> net.ParseIP "172.31.0.1", net.IsPrivate <$> net.ParseIP "172.32.0.1", net.IsPrivate <$> net.ParseIP "192.168.9.9",
   net.IsPrivate <$> net.ParseIP "fd00::1", net.IsLoopback <$> net.ParseIP "::1", net.IsLinkLocalUnicast <$> net.ParseIP "fe80::1",
   net.IsLinkLocalUnicast <$> net.ParseIP "169.254.1.1", net.ParseIP "fe80::1%eth0") =
  (Some true, Some false, Some true, Some true, Some true, Some true, Some true, None).
Proof. vm_compute. reflexivity. Qed.
Example mapped_network :
  net.ParseCIDR "::ffff:10.1.2.3/104" = Ok (netip.MkPrefix (netip.Addr4 167772160) 8) /\
  net.ParseCIDR "10.1.2.3/08" = Ok (netip.MkPrefix (netip.Addr4 167772160) 8) /\ net.ParseCIDR "10.1.2.3/+8" = Err net.parse_error.
Proof. vm_compute. split_and!; reflexivity. Qed.

(** [net.ResolveTCPAddr("tcp", s)] for a host that is an IP literal and a decimal
    port within range: no name is looked up, and only the splitting can fail. *)
Definition resolve_tcp_literal (s : string) : result unit :=
  '(host, _) ← net.SplitHostPort s;
  _ ← netip.ParseAddr host;
  Ok tt.
