(* ===== verification/Effects.v ===== *)
(** * Stateful operations that may fail

    The monad of the components whose operations change a shared state and return
    an error, and a Hoare logic for it. *)
From S2P Require Import Prelude.

Definition M (R A : Type) : Type := R -> R * result A.

#[export] Instance M_ret {R} : MRet (M R) := fun A a s => (s, Ok a).
#[export] Instance M_bind {R} : MBind (M R) := fun A B f m s =>
  let '(s, r) := m s in match r with Ok a => f a s | Err e => (s, Err e) end.

Definition fail {R A} (e : error) : M R A := fun s => (s, Err e).
Definition lift {R A} (r : result A) : M R A := fun s => (s, r).
(** The call with its error as a value. *)
Definition try {R A} (m : M R A) : M R (result A) := fun s => let '(s, r) := m s in (s, Ok r).

Fixpoint for_each_m {R S A} (body : A -> S -> M R S) (xs : list A) (s : S) : M R S :=
  match xs with [] => mret s | x :: xs => s ← body x s; for_each_m body xs s end.

Lemma try_run {R A} (m : M R A) x x' r : try m x = (x', r) -> exists r', r = Ok r' /\ m x = (x', r').
Proof. unfold try. destruct (m x) as [y r']. intros [= <- <-]. by exists r'. Qed.

Lemma M_bind_run {R A B} (m : M R A) (f : A -> M R B) s s' r :
  (m ≫= f) s = (s', r) ->
  (exists a s1, m s = (s1, Ok a) /\ f a s1 = (s', r)) \/ exists e, m s = (s', Err e) /\ r = Err e.
Proof.
  cbv [mbind M_bind]. destruct (m s) as [s1 [a|e]]; [by eauto 6|]. intros [= <- <-]. right. by exists e.
Qed.

Lemma for_each_m_inv {R S A} (I : S -> Prop) (body : A -> S -> M R S) xs :
  (forall x st s s' st', x ∈ xs -> I st -> body x st s = (s', Ok st') -> I st') ->
  forall st s s' st', I st -> for_each_m body xs st s = (s', Ok st') -> I st'.
Proof.
  induction xs as [|x xs IH]; intros Hb st s s' st' HI H; cbn [for_each_m] in H.
  { injection H as _ <-. done. }
  apply M_bind_run in H as [(st1 & s1 & H1 & H2)|(e & _ & [=])].
  eapply IH; [intros y ? ? ? ? Hy; apply Hb; by right | | exact H2]. eapply Hb; [left | exact HI | exact H1].
Qed.

(** ** Hoare logic: from a state of [P] the operation ends in [Q] of its result. *)
Section Hoare.
Context {R : Type}.
Implicit Types P : R -> Prop.

Definition hoare {A} P (m : M R A) (Q : result A -> R -> Prop) : Prop := forall s, P s -> Q (snd (m s)) (fst (m s)).

Lemma hoare_ret {A} P (a : A) (Q : result A -> R -> Prop) : (forall s, P s -> Q (Ok a) s) -> hoare P (mret a) Q.
Proof. intros H s. apply H. Qed.

Lemma hoare_fail {A} P e (Q : result A -> R -> Prop) : (forall s, P s -> Q (Err e) s) -> hoare P (fail e) Q.
Proof. intros H s. apply H. Qed.

Lemma hoare_lift {A} P (r : result A) (Q : result A -> R -> Prop) : (forall s, P s -> Q r s) -> hoare P (lift r) Q.
Proof. intros H s. apply H. Qed.

Lemma hoare_bind {A B} P (m : M R A) (f : A -> M R B) (K : A -> R -> Prop) Q :
  hoare P m (fun r s => match r with Ok a => K a s | Err e => Q (Err e) s end) ->
  (forall a, hoare (K a) (f a) Q) -> hoare P (m ≫= f) Q.
Proof.
  intros Hm Hf s Hs. specialize (Hm s Hs). cbv [mbind M_bind]. destruct (m s) as [s1 [a|e]]; cbn in *; [|done].
  by apply Hf.
Qed.

Lemma hoare_try {A} P (m : M R A) Q : hoare P m (fun r => Q (Ok r)) -> hoare P (try m) Q.
Proof. intros Hm s Hs. specialize (Hm s Hs). unfold try. by destruct (m s). Qed.

Lemma hoare_weaken {A} P P' (m : M R A) (Q Q' : result A -> R -> Prop) :
  hoare P' m Q' -> (forall s, P s -> P' s) -> (forall r s, Q' r s -> Q r s) -> hoare P m Q.
Proof. intros Hm HP HQ s Hs. apply HQ, Hm, HP, Hs. Qed.

(** The pure part of a precondition. *)
Lemma hoare_pure {A} (X : Prop) P (m : M R A) Q : (X -> hoare P m Q) -> hoare (fun s => X /\ P s) m Q.
Proof. intros H s [Hx Hs]. by apply H. Qed.
End Hoare.
