(* ===== verification/Transactions.v ===== *)
(** * Programs over a shared database, and their interleaving

    A program is a tree of statements, calls outside the database and commits.  Many
    programs run on one database: every statement sees what is committed and what its own
    transaction wrote, a row that another transaction has written is waited for, any
    statement or commit may fail, and a program that ends without a commit is rolled back
    (READ COMMITTED with row locks).  [wp] is what holds when a program ends, whatever
    happens between its calls; [reachable_sound] makes it hold in every interleaving. *)
From S2P Require Import Prelude.

Class Database := {
  call : Type;
  answer : call -> Type;
  state : Type;
  row : Type;
  #[global] row_dec :: EqDecision row;
  write : Type;
  writes_to : write -> row;
  apply_write : state -> write -> state;
  fallible : call -> bool;
  (* [None]: the call goes elsewhere *)
  perform : state -> forall c, option (result (answer c * option write));
  same_row : row -> state -> state -> Prop;
  same_row_preorder : forall r, PreOrder (same_row r);
  apply_other : forall w r d, writes_to w <> r -> same_row r d (apply_write d w);
  (* what no writer changes *)
  evolves : state -> state -> Prop;
  #[global] evolves_preorder :: PreOrder evolves
}.

Section Transactions.
Context `{DB : Database}.

(** ** Programs *)
Inductive prog (A : Type) :=
| Done (r : result A)
| Call (c : call) (k : result (answer c) -> prog A)
| Commit (k : result unit -> prog A).
#[global] Arguments Done {A} _. #[global] Arguments Call {A} _ _. #[global] Arguments Commit {A} _.

Fixpoint bind_prog {A B} (f : A -> prog B) (m : prog A) : prog B :=
  match m with
  | Done (Ok a) => f a
  | Done (Err e) => Done (Err e)
  | Call c k => Call c (fun r => bind_prog f (k r))
  | Commit k => Commit (fun r => bind_prog f (k r))
  end.
#[global] Instance prog_bind : MBind prog := @bind_prog.
#[global] Instance prog_ret : MRet prog := fun A a => Done (Ok a).

Definition raise {A} (e : error) : prog A := Done (Err e).
Definition pure {A} (r : result A) : prog A := Done r.
Definition invoke (c : call) : prog (answer c) := Call c Done.
Definition commit : prog unit := Commit Done.
(** The call with its error as a value. *)
Fixpoint attempt {A} (m : prog A) : prog (result A) :=
  match m with
  | Done r => Done (Ok r)
  | Call c k => Call c (fun r => attempt (k r))
  | Commit k => Commit (fun r => attempt (k r))
  end.

(** ** Processes *)
Definition commits : Type := list (list write * state).
Definition apply_writes (d : state) (ws : list write) : state := foldl apply_write d ws.

(** [p_commits]: the writes of each commit that took effect, with the state before. *)
Record process (O A : Type) := MkProcess { p_op : O; p_code : prog A; p_pending : list write; p_commits : commits }.
#[global] Arguments MkProcess {O A} _ _ _ _. #[global] Arguments p_op {O A} _. #[global] Arguments p_code {O A} _.
#[global] Arguments p_pending {O A} _. #[global] Arguments p_commits {O A} _.

Record system (O A : Type) := MkSystem { committed : state; processes : list (process O A) }.
#[global] Arguments MkSystem {O A} _ _. #[global] Arguments committed {O A} _. #[global] Arguments processes {O A} _.

Section System.
Context {O A : Type} (program : O -> prog A).
(* the calls that can be made, and the writes of the rest of the program *)
Context (possible : call -> Prop) (outside : state -> write -> Prop).

Definition locked (p : process O A) : list row := writes_to <$> p_pending p.
Definition free_for (i : nat) (s : system O A) (r : row) : Prop := forall j p, j <> i -> processes s !! j = Some p -> r ∉ locked p.
Definition free_write (i : nat) (s : system O A) (w : option write) : Prop := match w with Some w => free_for i s (writes_to w) | None => True end.

Definition with_process (s : system O A) (d : state) (i : nat) (p : process O A) : system O A := MkSystem d (<[i := p]> (processes s)).
Definition with_code (p : process O A) (m : prog A) (pending : list write) : process O A := MkProcess (p_op p) m pending (p_commits p).
Definition has_committed (p : process O A) (m : prog A) (d : state) : process O A := MkProcess (p_op p) m [] (p_commits p ++ [(p_pending p, d)]).

Inductive step (s : system O A) : system O A -> Prop :=
| step_statement i p c k a w :
    processes s !! i = Some p -> p_code p = Call c k -> possible c ->
    perform (apply_writes (committed s) (p_pending p)) c = Some (Ok (a, w)) -> free_write i s w ->
    step s (with_process s (committed s) i (with_code p (k (Ok a)) (p_pending p ++ option_list w)))
| step_elsewhere i p c k a :
    processes s !! i = Some p -> p_code p = Call c k ->
    perform (apply_writes (committed s) (p_pending p)) c = None ->
    step s (with_process s (committed s) i (with_code p (k (Ok a)) (p_pending p)))
| step_failed i p c k e :
    processes s !! i = Some p -> p_code p = Call c k -> fallible c = true ->
    step s (with_process s (committed s) i (with_code p (k (Err e)) (p_pending p)))
| step_commit i p k r :
    (* [r] is an error when the answer is lost *)
    processes s !! i = Some p -> p_code p = Commit k ->
    step s (with_process s (apply_writes (committed s) (p_pending p)) i (has_committed p (k r) (committed s)))
| step_refused i p k e :
    processes s !! i = Some p -> p_code p = Commit k ->
    step s (with_process s (committed s) i (with_code p (k (Err e)) []))
| step_rollback i p r :
    processes s !! i = Some p -> p_code p = Done r ->
    step s (with_process s (committed s) i (with_code p (Done r) []))
| step_outside w :
    outside (committed s) w -> (forall j p, processes s !! j = Some p -> writes_to w ∉ locked p) ->
    step s (MkSystem (apply_write (committed s) w) (processes s)).

Definition started (d : state) (ops : list O) : system O A := MkSystem d ((fun o => MkProcess o (program o) [] []) <$> ops).

Inductive reachable (d : state) (ops : list O) : system O A -> Prop :=
| reach_start : reachable d ops (started d ops)
| reach_step s s' : reachable d ops s -> step s s' -> reachable d ops s'.

(** *** By computation: process [i] makes its next call, which succeeds. *)
Definition advance (allowed : call -> bool) (elsewhere : forall c, answer c) (s : system O A) (i : nat) : option (system O A) :=
  p ← processes s !! i;
  match p_code p with
  | Call c k =>
      match perform (apply_writes (committed s) (p_pending p)) c with
      | Some (Ok (a, w)) =>
          if allowed c && forallb (fun '(j, q) => Nat.eqb j i || forallb (fun r => negb (bool_decide (Some r = (writes_to <$> w)))) (locked q)) (imap pair (processes s))
          then Some (with_process s (committed s) i (with_code p (k (Ok a)) (p_pending p ++ option_list w))) else None
      | Some (Err e) => if fallible c then Some (with_process s (committed s) i (with_code p (k (Err e)) (p_pending p))) else None
      | None => Some (with_process s (committed s) i (with_code p (k (Ok (elsewhere c))) (p_pending p)))
      end
  | Commit k => Some (with_process s (apply_writes (committed s) (p_pending p)) i (has_committed p (k (Ok tt)) (committed s)))
  | Done r => Some (with_process s (committed s) i (with_code p (Done r) []))
  end.
Fixpoint advance_all (allowed : call -> bool) (elsewhere : forall c, answer c) (s : system O A) (turns : list nat) : option (system O A) :=
  match turns with
  | [] => Some s
  | i :: turns => match advance allowed elsewhere s i with Some s => advance_all allowed elsewhere s turns | None => None end
  end.

Lemma advance_step allowed elsewhere s i s' : (forall c, allowed c = true -> possible c) -> advance allowed elsewhere s i = Some s' -> step s s'.
Proof.
  intros Hp. unfold advance. destruct (processes s !! i) as [p|] eqn:Hi; [|done]. cbn [mbind option_bind]. destruct (p_code p) as [r|c k|k] eqn:Hm.
  - intros [= <-]. by eapply step_rollback.
  - destruct (perform _ c) as [[[a w]|e]|] eqn:Hperf; [|destruct (fallible c) eqn:Hc; [|done]; intros [= <-]; by eapply step_failed | intros [= <-]; by eapply step_elsewhere].
    destruct (allowed c) eqn:Ha; [|done]. destruct (forallb _ _) eqn:Hf; [|done]. intros [= <-]. eapply step_statement; [done..| by apply Hp | done |].
    destruct w as [w|]; [|done]. intros j q Hj Hq Hin. rewrite forallb_forall in Hf. specialize (Hf (j, q)). cbn in Hf.
    rewrite <-list_elem_of_In, elem_of_lookup_imap in Hf. specialize (Hf (ex_intro _ j (ex_intro _ q (conj eq_refl Hq)))).
    apply orb_true_iff in Hf as [Hf%Nat.eqb_eq|Hf]; [done|]. rewrite forallb_forall in Hf. apply list_elem_of_In, Hf, negb_true_iff in Hin.
    by case_bool_decide.
  - intros [= <-]. by eapply step_commit.
Qed.

Lemma advance_all_reachable allowed elsewhere d ops turns : (forall c, allowed c = true -> possible c) ->
  forall s s', reachable d ops s -> advance_all allowed elsewhere s turns = Some s' -> reachable d ops s'.
Proof.
  intros Hp. induction turns as [|i turns IH]; intros s s' Hs; cbn; [by intros [= <-]|]. destruct (advance _ _ s i) as [s1|] eqn:E; [|done].
  apply IH. eapply reach_step; [exact Hs | by eapply advance_step].
Qed.

(** ** What holds of a program between the steps of others *)
(** Since the last call of a transaction the others may have changed every row it has not
    written. *)
Definition rely (pending : list write) (d d' : state) : Prop := evolves d d' /\ Forall (fun w => same_row (writes_to w) d d') pending.

#[global] Instance rely_preorder pending : PreOrder (rely pending).
Proof.
  split.
  - intros d. split; [reflexivity|]. apply Forall_forall. intros w _. apply same_row_preorder.
  - intros a b c [H1 H2] [H3 H4]. split; [by etransitivity|]. apply Forall_forall. intros w Hw.
    pose proof (same_row_preorder (writes_to w)). etransitivity; [by eapply (Forall_forall _ pending) in H2 | by eapply (Forall_forall _ pending) in H4].
Qed.
End System.

Section Logic.
Context (possible : call -> Prop).

(** Every commit of [m] satisfies [G], and at its end [Q] holds; [d] is the state of the
    database at the last call. *)
Fixpoint wp {A} (G : list write -> state -> Prop) (Q : result A -> list write -> state -> commits -> Prop) (m : prog A)
  (pending : list write) (d : state) (log : commits) : Prop :=
  match m with
  | Done r => Q r pending d log
  | Call c k => forall d', rely pending d d' ->
      match perform (apply_writes d' pending) c with
      | Some (Ok (a, w)) => possible c -> wp G Q (k (Ok a)) (pending ++ option_list w) d' log
      | Some (Err _) => True
      | None => forall a, wp G Q (k (Ok a)) pending d' log
      end /\ (fallible c = true -> forall e, wp G Q (k (Err e)) pending d' log)
  | Commit k => forall d', rely pending d d' ->
      G pending d' /\ (forall r, wp G Q (k r) [] (apply_writes d' pending) (log ++ [(pending, d')])) /\ forall e, wp G Q (k (Err e)) [] d' log
  end.

Lemma wp_mono {A} G (Q Q' : result A -> list write -> state -> commits -> Prop) m :
  (forall r pending d log, Q r pending d log -> Q' r pending d log) -> forall pending d log, wp G Q m pending d log -> wp G Q' m pending d log.
Proof.
  intros HQ. induction m as [r|c k IH|k IH]; intros pending d log; cbn; [apply HQ|..]; intros H d' Hd; destruct (H d' Hd) as [H1 H2]; (split; [|]).
  - destruct (perform _ c) as [[[a w]|]|]; [|done|]; intros; by apply IH, H1.
  - intros Hc e. by apply IH, H2.
  - done.
  - destruct H2 as [H2 H3]. split; intros; by apply IH.
Qed.

Lemma wp_bind {A B} G Q (m : prog A) (f : A -> prog B) : forall pending d log,
  wp G (fun r pending d log => match r with Ok a => wp G Q (f a) pending d log | Err e => Q (Err e) pending d log end) m pending d log ->
  wp G Q (m ≫= f) pending d log.
Proof.
  induction m as [[a|e]|c k IH|k IH]; intros pending d log; [done..| |]; cbn; intros H d' Hd; destruct (H d' Hd) as [H1 H2]; (split; [|]).
  - destruct (perform _ c) as [[[a w]|]|]; [|done|]; intros; by apply IH, H1.
  - intros Hc e. by apply IH, H2.
  - done.
  - destruct H2 as [H2 H3]. split; intros; by apply IH.
Qed.

Lemma wp_attempt {A} G Q (m : prog A) : forall pending d log,
  wp G (fun r pending d log => Q (Ok r) pending d log) m pending d log -> wp G Q (attempt m) pending d log.
Proof.
  induction m as [r|c k IH|k IH]; intros pending d log; [done|..]; cbn; intros H d' Hd; destruct (H d' Hd) as [H1 H2]; (split; [|]).
  - destruct (perform _ c) as [[[a w]|]|]; [|done|]; intros; by apply IH, H1.
  - intros Hc e. by apply IH, H2.
  - done.
  - destruct H2 as [H2 H3]. split; intros; by apply IH.
Qed.

(** *** Programs that end without an error *)
Definition ensures {A} G (Q : A -> list write -> state -> commits -> Prop) : prog A -> list write -> state -> commits -> Prop :=
  wp G (fun r pending d log => match r with Ok a => Q a pending d log | Err _ => True end).

Lemma ensures_mono {A} G (Q Q' : A -> list write -> state -> commits -> Prop) m pending d log :
  (forall a pending d log, Q a pending d log -> Q' a pending d log) -> ensures G Q m pending d log -> ensures G Q' m pending d log.
Proof. intros HQ. apply wp_mono. intros [a|e]; [apply HQ | done]. Qed.
Lemma wp_ensures {A} G (Q : result A -> list write -> state -> commits -> Prop) m pending d log : (forall e pending d log, Q (Err e) pending d log) ->
  ensures G (fun a => Q (Ok a)) m pending d log -> wp G Q m pending d log.
Proof. intros He. apply wp_mono. intros [a|e]; [done | intros; apply He]. Qed.
Lemma ensures_ret {A} G (Q : A -> list write -> state -> commits -> Prop) a pending d log : Q a pending d log -> ensures G Q (mret a) pending d log.
Proof. done. Qed.
Lemma ensures_raise {A} G (Q : A -> list write -> state -> commits -> Prop) e pending d log : ensures G Q (raise e) pending d log.
Proof. done. Qed.
Lemma ensures_pure {A} G (Q : A -> list write -> state -> commits -> Prop) r pending d log :
  (forall a, r = Ok a -> Q a pending d log) -> ensures G Q (pure r) pending d log.
Proof. destruct r as [a|]; [|done]. intros H. by apply H. Qed.
Lemma ensures_bind {A B} G Q (m : prog A) (f : A -> prog B) pending d log :
  ensures G (fun a => ensures G Q (f a)) m pending d log -> ensures G Q (m ≫= f) pending d log.
Proof. apply wp_bind. Qed.
Lemma ensures_attempt {A B} G Q (m : prog A) (f : result A -> prog B) pending d log :
  wp G (fun r => ensures G Q (f r)) m pending d log -> ensures G Q (attempt m ≫= f) pending d log.
Proof. intros H. by apply wp_bind, wp_attempt. Qed.
Lemma ensures_map_err {A} G Q (g : error -> error) (m : prog A) pending d log :
  ensures G Q m pending d log -> ensures G Q (r ← attempt m; pure (map_err g r)) pending d log.
Proof. intros H. apply ensures_attempt. eapply wp_mono; [|exact H]. intros [a|e]; [|done]. intros pending' d' log' Hq. exact Hq. Qed.

Lemma ensures_map_err_then {A B} G Q (g : error -> error) (m : prog A) (f : A -> prog B) pending d log :
  ensures G (fun a => ensures G Q (f a)) m pending d log -> ensures G Q (r ← attempt m; a ← pure (map_err g r); f a) pending d log.
Proof. intros H. apply ensures_attempt. eapply wp_mono; [|exact H]. intros [a|e]; [|done]. intros pending' d' log' Hq. exact Hq. Qed.
Lemma ensures_invoke G c (Q : answer c -> list write -> state -> commits -> Prop) pending d log :
  (forall d', rely pending d d' ->
     match perform (apply_writes d' pending) c with
     | Some (Ok (a, w)) => possible c -> Q a (pending ++ option_list w) d' log
     | Some (Err _) => True
     | None => forall a, Q a pending d' log
     end) -> ensures G Q (invoke c) pending d log.
Proof. intros H d' Hd. specialize (H d' Hd). by split; [destruct (perform _ c) as [[[a w]|]|]|]. Qed.
Lemma ensures_commit G (Q : unit -> list write -> state -> commits -> Prop) pending d log :
  (forall d', rely pending d d' -> G pending d' /\ Q tt [] (apply_writes d' pending) (log ++ [(pending, d')])) -> ensures G Q commit pending d log.
Proof. intros H d' Hd. destruct (H d' Hd) as [H1 H2]. split; [done|]. split; [by intros [[]|e] | done]. Qed.
End Logic.

#[global] Opaque ensures.

(** ** In every interleaving *)
Section Soundness.
Context {O A : Type} (program : O -> prog A) (possible : call -> Prop) (outside : state -> write -> Prop).
Context (G : O -> list write -> state -> Prop) (Q : O -> result A -> commits -> Prop).
Hypothesis G_evolves : forall o ws d, G o ws d -> evolves d (apply_writes d ws).
Hypothesis outside_evolves : forall d w, outside d w -> evolves d (apply_write d w).
Hypothesis program_wp : forall o d, wp possible (G o) (fun r _ _ log => Q o r log) (program o) [] d [].

Definition well (d : state) (p : process O A) : Prop :=
  (exists d0, rely (p_pending p) d0 d /\ wp possible (G (p_op p)) (fun r _ _ log => Q (p_op p) r log) (p_code p) (p_pending p) d0 (p_commits p))
  /\ Forall (fun c => G (p_op p) c.1 c.2) (p_commits p).
Definition exclusive (s : system O A) : Prop := forall i j p q r, i <> j -> processes s !! i = Some p -> processes s !! j = Some q -> r ∈ locked p -> r ∉ locked q.
Definition sound (s : system O A) : Prop := (forall i p, processes s !! i = Some p -> well (committed s) p) /\ exclusive s.

Lemma well_others d d' p : rely (p_pending p) d d' -> well d p -> well d' p.
Proof. intros Hr [(d0 & H0 & Hw) Hc]. split; [|done]. exists d0. split; [by etransitivity | done]. Qed.

Lemma same_row_writes ws r d : r ∉ writes_to <$> ws -> same_row r d (apply_writes d ws).
Proof.
  revert d. induction ws as [|w ws IH]; intros d Hr; cbn; [apply same_row_preorder|]. pose proof (same_row_preorder r).
  rewrite fmap_cons, not_elem_of_cons in Hr. destruct Hr as [Hw Hr]. etransitivity; [by apply apply_other, not_eq_sym | by apply IH].
Qed.

Lemma sound_update s i p p' d' : sound s -> processes s !! i = Some p -> well d' p' ->
  (forall r, r ∈ locked p' -> r ∈ locked p \/ free_for i s r) ->
  (forall j q, j <> i -> processes s !! j = Some q -> rely (p_pending q) (committed s) d') -> sound (with_process s d' i p').
Proof.
  intros [Hw Hx] Hi Hp' Hl Ho. assert (Hlen : (i < List.length (processes s))%nat) by by eapply lookup_lt_Some.
  assert (Hd : forall j q r, j <> i -> processes s !! j = Some q -> r ∈ locked p' -> r ∉ locked q).
  { intros j q r Hj Hq Hr. destruct (Hl r Hr) as [Hin|Hf]; [by eapply (Hx i j p q) | by eapply Hf]. }
  split.
  - intros j q. cbn. rewrite list_lookup_insert_Some. intros [(<- & <- & _)|[Hj Hq]]; [done|]. eapply well_others; [by eapply Ho | by eapply Hw].
  - intros j k q q' r Hjk. cbn. rewrite !list_lookup_insert_Some. intros [(<- & <- & _)|[Hj Hq]] [(<- & <- & _)|[Hk Hq']] Hr; [done|..].
    + by eapply Hd.
    + intros Hr'. by eapply (Hd j q r).
    + by eapply (Hx j k q q').
Qed.

Lemma step_sound s s' : sound s -> step possible outside s s' -> sound s'.
Proof.
  intros Hs [i p c k a w Hi Hm Hpos Hperf Hfree | i p c k a Hi Hm Hperf | i p c k e Hi Hm Hc | i p k r Hi Hm | i p k e Hi Hm | i p r Hi Hm | w Hout Hfree].
  1-6: pose proof (proj1 Hs i p Hi) as [(d0 & Hr & Hw) Hlog]; rewrite Hm in Hw; cbn in Hw.
  1-5: destruct (Hw _ Hr) as [H1 H2].
  - rewrite Hperf in H1. eapply sound_update; [done..| | |].
    + split; [|done]. exists (committed s). split; [reflexivity | by apply H1].
    + intros r. unfold locked. cbn. rewrite fmap_app, elem_of_app. intros [Hin|Hin]; [by left|]. right. destruct w as [w|]; cbn in Hin; [|by apply not_elem_of_nil in Hin].
      apply list_elem_of_singleton in Hin as ->. exact Hfree.
    + intros. reflexivity.
  - rewrite Hperf in H1. eapply sound_update; [done..| | |]; [|by left | intros; reflexivity]. split; [|done]. exists (committed s). split; [reflexivity | apply H1].
  - eapply sound_update; [done..| | |]; [|by left | intros; reflexivity]. split; [|done]. exists (committed s). split; [reflexivity | by apply H2].
  - destruct H2 as [H2 _]. eapply sound_update; [done..| | |].
    + split; [|by apply Forall_app_2; [|apply Forall_singleton]]. eexists. split; [reflexivity | apply H2].
    + intros r' Hr'. by apply not_elem_of_nil in Hr'.
    + intros j q Hj Hq. split; [by eapply G_evolves|]. apply Forall_forall. intros w Hw'. apply same_row_writes.
      intros Hin. eapply (proj2 Hs i j p q); [done..| exact Hin | by apply list_elem_of_fmap_2].
  - destruct H2 as [_ H2]. eapply sound_update; [done..| | |]; [| intros r' Hr'; by apply not_elem_of_nil in Hr' | intros; reflexivity].
    split; [|done]. exists (committed s). split; [reflexivity | apply H2].
  - eapply sound_update; [done..| | |]; [| intros r' Hr'; by apply not_elem_of_nil in Hr' | intros; reflexivity].
    split; [|done]. exists (committed s). split; [reflexivity | done].
  - destruct Hs as [Hw Hx]. split; [|done]. intros i p Hi. eapply well_others; [|by eapply Hw]. split; [by apply outside_evolves|].
    apply Forall_forall. intros w' Hw'. apply apply_other. intros E. eapply (Hfree i p Hi). rewrite E. by apply list_elem_of_fmap_2.
Qed.

Lemma reachable_sound d ops s : reachable program possible outside d ops s -> sound s.
Proof.
  induction 1 as [|s s' _ IH Hstep]; [|by eapply step_sound]. split.
  - intros i p. cbn. rewrite list_lookup_fmap. destruct (ops !! i) as [o|]; [|done]. intros [= <-]. split; [|constructor]. exists d. split; [reflexivity | apply program_wp].
  - intros i j p q r _. cbn. rewrite list_lookup_fmap. destruct (ops !! i); [|done]. intros [= <-] _ Hr. by apply not_elem_of_nil in Hr.
Qed.
End Soundness.
End Transactions.
