(* ===== verification/Address.v ===== *)
(** * Special-use addresses (src/internal/addresspolicy/policy.go)

    The canonical special-use table shared by configuration validation and the
    runtime egress check, and the soundness of a CIDR exception: an accepted
    exception never reaches outside the special-use ranges. *)
From S2P Require Import Prelude GoStd GoNet.
Import netip.

Definition specialUsePrefixTexts : list string :=
  ["0.0.0.0/8"; "10.0.0.0/8"; "100.64.0.0/10"; "127.0.0.0/8";
   "168.63.129.16/32"; "169.254.0.0/16"; "172.16.0.0/12"; "192.0.0.0/24";
   "192.0.2.0/24"; "192.88.99.0/24"; "192.168.0.0/16"; "198.18.0.0/15";
   "198.51.100.0/24"; "203.0.113.0/24"; "224.0.0.0/4"; "240.0.0.0/4";
   "::/128"; "::1/128"; "100::/64"; "2001:2::/48"; "2001:10::/28";
   "2001:db8::/32"; "fc00::/7"; "fe80::/10"; "ff00::/8"].

(** A malformed entry panics: the result is then an error. *)
Definition mustPrefixes (values : list string) : result (list Prefix) :=
  for_each (fun _ value result => prefix ← ParsePrefix value; Ok (result ++ [Masked prefix])) 0 values [].

Definition specialUsePrefixes : list Prefix :=
  match mustPrefixes specialUsePrefixTexts with Ok l => l | Err _ => [] end.

Definition IsSpecial (addr : Addr) : bool :=
  let addr := Unmap addr in
  existsb (fun prefix => Contains prefix addr) specialUsePrefixes.

Definition IsSpecialPrefix (prefix : Prefix) : bool :=
  let prefix := Masked prefix in
  existsb (fun special => (BitLen (Addr_of prefix) =? BitLen (Addr_of special))
                          && (Bits prefix >=? Bits special)
                          && Contains special (Addr_of prefix)) specialUsePrefixes.

Definition Contains_any (prefixes : list Prefix) (addr : Addr) : bool :=
  let addr := Unmap addr in
  existsb (fun prefix => Contains prefix addr) prefixes.

(** The table parses: initialisation does not panic. *)
Lemma special_table_parses : is_Ok (mustPrefixes specialUsePrefixTexts) = true.
Proof. vm_compute. reflexivity. Qed.

Lemma special_table_length : List.length specialUsePrefixes = 25%nat.
Proof. vm_compute. reflexivity. Qed.

(** ** Containment is transitive through a masked prefix *)
Lemma bits_of_Masked p :
  bits_of (Addr_of (Masked p)) = (if decide (Addr_of p = AddrZero) then 0 else mask (bits_of (Addr_of p)) (host_bits p)).
Proof. destruct p as [[| |] b]; cbn; done. Qed.

Lemma BitLen_Masked p : BitLen (Addr_of (Masked p)) = BitLen (Addr_of p).
Proof. by destruct p as [[| |] b]. Qed.

Lemma valid_prefix_bits p : valid_prefix p = true -> 0 <= Bits p <= BitLen (Addr_of p) /\ Addr_of p <> AddrZero.
Proof. unfold valid_prefix. intros H. bool_facts. lia || (split; [lia | done]). Qed.

Lemma Contains_Masked_shift p a :
  valid_prefix p = true -> Contains p a = true ->
  Z.shiftr (bits_of a) (host_bits p) = Z.shiftr (bits_of (Addr_of (Masked p))) (host_bits p).
Proof.
  intros Hv (_ & _ & _ & _ & E)%Contains_spec. rewrite bits_of_Masked.
  destruct (valid_prefix_bits _ Hv) as [Hb Hne]. rewrite decide_False by done.
  rewrite shiftr_mask by (unfold host_bits; lia). done.
Qed.

Lemma Contains_narrower special p a :
  Bits special <= Bits p -> BitLen (Addr_of p) = BitLen (Addr_of special) ->
  Contains special (Addr_of (Masked p)) = true -> Contains p a = true -> Contains special a = true.
Proof.
  intros Hbits Hlen Hs Hp.
  pose proof Hp as (Hvp & Hz & Hl0 & HlA & _)%Contains_spec.
  apply Contains_spec in Hs as (Hvs & _ & _ & _ & Es).
  apply Contains_spec. repeat split; [done | done | done | congruence |].
  rewrite <- Es. eapply shiftr_agree; [| exact (Contains_Masked_shift _ _ Hvp Hp)].
  apply valid_prefix_bits in Hvp as [? _], Hvs as [? _]. unfold host_bits. lia.
Qed.

(** An exception accepted by [IsSpecialPrefix] never matches an address
    outside the special-use table: it cannot become a global bypass. *)
Theorem IsSpecialPrefix_sound p a :
  IsSpecialPrefix p = true -> Contains p a = true -> Unmap a = a -> IsSpecial a = true.
Proof.
  intros Hp Ha Hu. unfold IsSpecialPrefix, IsSpecial in *. rewrite Hu.
  apply existsb_exists in Hp as (s & Hin & Hs). apply existsb_exists. exists s. split; [done|].
  rewrite !andb_true_iff, Z.eqb_eq, BitLen_Masked in Hs. destruct Hs as [[Hlen Hb] Hs].
  eapply Contains_narrower; [| exact Hlen | exact Hs | exact Ha].
  unfold Masked in Hb. cbn in Hb. apply Z.geb_le in Hb. lia.
Qed.

Lemma IsSpecialPrefix_sound_witness :
  IsSpecialPrefix (MkPrefix (Addr4 167837696) 16) = true /\ IsSpecial (Addr4 167837697) = true.
Proof.
  split; [vm_compute; reflexivity |].
  apply (IsSpecialPrefix_sound (MkPrefix (Addr4 167837696) 16)); vm_compute; reflexivity.
Defined.
