(* ===== verification/Domain.v ===== *)
(** * The domain model (src/internal/domain: model_core.go, identity.go)

    The records exchanged between Controller and Node.  A Go slice is a list (nil
    and empty are the same list), a Go map is an optional [gmap] whose [None] is
    the nil map, a pointer is an option, an [int], [int64] or unsigned integer is
    a [Z], a byte slice is a byte string and a [time.Time] a [Z].  The record
    fields carry the record's name because field names repeat in the source. *)
From S2P Require Import Prelude GoStd GoNet.
From Stdlib Require Import SpecFloat.

Definition CertificateActive := "active".
Definition CertificateRevoked := "revoked".
Definition CertificateExpired := "expired".
Definition CertificatePending := "pending".
Definition CertificateDecommissioned := "decommissioned".
Definition ProtocolTCP := "tcp".
Definition ProtocolUDP := "udp".
Definition DataALPN := "asterferry-data/1".
Definition maxSnapshotServices : Z := 32768.
Definition maxSnapshotAssignments : Z := 32768.
Definition maxAssignmentServices : Z := 4096.
Definition maxAssignmentBindings : Z := 4096.
Definition CurrentControlProtocolVersion : Z := 1.

Definition NodeSpecGateway := "gateway".
Definition NodeSpecAgent := "agent".

Record Node := MkNode {
  Node_ID : string;
  Node_SpecKind : string;
  Node_Name : string;
  Node_Labels : gomap string;
  Node_Enabled : bool;
  Node_CertificateState : string;
  Node_CertificateSerial : string;
  Node_Revision : Z;
  Node_CreatedAt : Z;
  Node_UpdatedAt : Z
}.

Record Capacity := MkCapacity {
  Capacity_MaxAgents : Z; Capacity_MaxConnections : Z; Capacity_MaxServices : Z
}.

Record PortRange := MkPortRange { PortRange_Min : Z; PortRange_Max : Z }.

Record PortPool := MkPortPool { PortPool_TCP : list PortRange; PortPool_UDP : list PortRange }.

Record TransportPolicy := MkTransportPolicy {
  Transport_ALPN : string;
  Transport_MaxStreams : Z;
  Transport_MaxFrameBytes : Z;
  Transport_MaxDatagramBytes : Z;
  Transport_HandshakeTimeoutSeconds : Z;
  Transport_IdleTimeoutSeconds : Z
}.

Record ObfuscationPolicy := MkObfuscationPolicy {
  Obfuscation_Mode : string;
  Obfuscation_KeyCiphertext : string;
  Obfuscation_PreviousKeyCiphertext : string;
  Obfuscation_KeyID : string;
  Obfuscation_PreviousKeyID : string;
  Obfuscation_Key : string;
  Obfuscation_PreviousKey : string;
  Obfuscation_MaxPaddingBytes : Z;
  Obfuscation_HandshakeShaping : bool
}.

Record Listener := MkListener {
  Listener_Protocol : string; Listener_Bind : string; Listener_Port : Z; Listener_Enabled : bool
}.

Record EgressPolicy := MkEgressPolicy {
  Egress_Enabled : bool;
  Egress_TCPPorts : list string;
  Egress_UDPPorts : list string;
  Egress_AllowCIDRs : list string;
  Egress_AllowSpecialCIDRs : list string;
  Egress_MaxConnections : Z
}.

Record GatewaySpec := MkGatewaySpec {
  Gateway_NodeID : string;
  Gateway_PublicEndpoints : list string;
  Gateway_Listeners : list Listener;
  Gateway_Labels : gomap string;
  Gateway_Capacity : Capacity;
  Gateway_PortPool : PortPool;
  Gateway_Transport : TransportPolicy;
  Gateway_Obfuscation : ObfuscationPolicy;
  Gateway_Egress : EgressPolicy;
  Gateway_Revision : Z
}.

Record Selector := MkSelector { Selector_MatchLabels : gomap string }.

Record ProxySpec := MkProxySpec {
  Proxy_ID : string; Proxy_Protocol : string; Proxy_Bind : string; Proxy_Route : string; Proxy_Enabled : bool
}.

Record RouteRule := MkRouteRule {
  Route_Name : string;
  Route_CIDRs : list string;
  Route_Domains : list string;
  Route_GeoIP : list string;
  Route_Destination : string;
  Route_Enabled : bool
}.

Record AgentLimits := MkAgentLimits {
  Limits_MaxConnections : Z; Limits_MaxStreams : Z; Limits_MaxBufferBytes : Z
}.

Record LoggingPolicy := MkLoggingPolicy { Logging_Level : string; Logging_Format : string }.

Record AgentSpec := MkAgentSpec {
  Agent_NodeID : string;
  Agent_GatewayID : string;
  Agent_GatewaySelector : Selector;
  Agent_Proxies : list ProxySpec;
  Agent_Routes : list RouteRule;
  Agent_Limits : AgentLimits;
  Agent_Egress : EgressPolicy;
  Agent_Logging : LoggingPolicy;
  Agent_Revision : Z
}.

Record NodeSpec := MkNodeSpec {
  NodeSpec_NodeID : string;
  NodeSpec_Kind : string;
  NodeSpec_Gateway : option GatewaySpec;
  NodeSpec_Agent : option AgentSpec;
  NodeSpec_Revision : Z;
  NodeSpec_UpdatedAt : Z
}.

Record Service := MkService {
  Service_ID : string;
  Service_AgentID : string;
  Service_Protocol : string;
  Service_LocalTarget : string;
  Service_PublicBind : string;
  Service_PublicPort : Z;
  Service_GatewaySelector : Selector;
  Service_Enabled : bool;
  Service_Revision : Z;
  Service_UpdatedAt : Z
}.

Record Binding := MkBinding {
  Binding_ServiceID : string; Binding_Protocol : string; Binding_Bind : string; Binding_Port : Z
}.

Record Assignment := MkAssignment {
  Assignment_ID : string;
  Assignment_GatewayID : string;
  Assignment_AgentID : string;
  Assignment_ServiceIDs : list string;
  Assignment_Bindings : list Binding;
  Assignment_Generation : Z;
  Assignment_State : string;
  Assignment_PublicEndpoint : string;
  Assignment_Obfuscation : ObfuscationPolicy;
  Assignment_Revision : Z;
  Assignment_UpdatedAt : Z
}.

Definition AssignmentPending := "pending".
Definition AssignmentApplied := "applied".
Definition AssignmentDegraded := "degraded".
Definition AssignmentDraining := "draining".

Record DesiredSnapshot := MkSnapshot {
  Snapshot_SchemaVersion : Z;
  Snapshot_NodeID : string;
  Snapshot_Generation : Z;
  Snapshot_Checksum : string;
  Snapshot_Gateway : option GatewaySpec;
  Snapshot_Agent : option AgentSpec;
  Snapshot_Services : list Service;
  Snapshot_Assignments : list Assignment
}.

Record ApplyError := MkApplyError {
  ApplyError_Code : string; ApplyError_Path : string; ApplyError_Message : string; ApplyError_Retryable : bool
}.

Record SessionSummary := MkSessionSummary {
  Session_ID : string; Session_PeerID : string; Session_StartedAt : Z; Session_Streams : Z
}.

Record ListenerState := MkListenerState {
  ListenerState_Protocol : string; ListenerState_Bind : string; ListenerState_Port : Z; ListenerState_Ready : bool
}.

Record SystemInfo := MkSystemInfo {
  System_Hostname : string;
  System_OS : string;
  System_Distribution : string;
  System_DistributionVersion : string;
  System_Kernel : string;
  System_Architecture : string;
  System_CPUModel : string;
  System_LogicalCPUs : Z;
  System_NodeVersion : string;
  System_GoVersion : string;
  System_ServiceMode : string;
  System_IPAddresses : list string;
  System_UptimeSeconds : Z;
  System_CPUUsagePercent : option spec_float;
  System_LoadAverage1m : option spec_float;
  System_MemoryTotalBytes : Z;
  System_MemoryAvailableBytes : Z;
  System_DiskTotalBytes : Z;
  System_DiskFreeBytes : Z;
  System_CollectedAt : Z
}.

Record RuntimeMetrics := MkRuntimeMetrics {
  Metrics_ActiveStreams : Z;
  Metrics_ActiveSessions : Z;
  Metrics_ActiveEgress : Z;
  Metrics_UDPOversizeDrops : Z;
  Metrics_GeoIPUp : bool;
  Metrics_ActiveConnections : Z;
  Metrics_ActiveFlows : Z;
  Metrics_RuntimeBytesInTotal : Z;
  Metrics_RuntimeBytesOutTotal : Z;
  Metrics_RuntimeOpenedTotal : Z;
  Metrics_RuntimeClosedTotal : Z;
  Metrics_RuntimeRejectedTotal : Z;
  Metrics_RuntimeRateLimitedTotal : Z;
  Metrics_RuntimeTelemetryDroppedTotal : Z
}.

Record ObservedState := MkObservedState {
  Observed_SchemaVersion : Z;
  Observed_NodeID : string;
  Observed_AppliedGeneration : Z;
  Observed_Healthy : bool;
  Observed_Degraded : bool;
  Observed_LastError : option ApplyError;
  Observed_Sessions : list SessionSummary;
  Observed_Listeners : list ListenerState;
  Observed_Metrics : RuntimeMetrics;
  Observed_SystemInfo : option SystemInfo;
  Observed_ObservedAt : Z
}.

(** ** Operations of the plain records *)

Definition NewGatewayNodeSpec (spec : GatewaySpec) : NodeSpec :=
  MkNodeSpec (Gateway_NodeID spec) NodeSpecGateway (Some spec) None (Gateway_Revision spec) 0.

Definition NewAgentNodeSpec (spec : AgentSpec) : NodeSpec :=
  MkNodeSpec (Agent_NodeID spec) NodeSpecAgent None (Some spec) (Agent_Revision spec) 0.

Definition RuntimeKind (s : NodeSpec) : string := NodeSpec_Kind s.

(** [Selector.Matches]: a nil label map satisfies only the empty selector, and
    a missing label reads as the empty string. *)
Definition Selector_Matches (s : Selector) (labels : gomap string) : bool :=
  forallb (fun '(key, value) =>
             negb (bool_decide (labels = None) || negb (String.eqb (gomap_get "" labels key) value)))
          (gomap_entries (Selector_MatchLabels s)).

(** [domain.NodeIdentityURI]: the SPIFFE identity of a node. *)
Definition NodeIdentityURI (id : string) : string * string * string := ("spiffe", "asterferry", "/node/" +:+ id).

Definition default_Capacity := MkCapacity 0 0 0.
Definition default_Obfuscation := MkObfuscationPolicy "" "" "" "" "" "" "" 0 false.
Definition default_Egress := MkEgressPolicy false [] [] [] [] 0.
Definition default_Metrics := MkRuntimeMetrics 0 0 0 0 false 0 0 0 0 0 0 0 0 0.

#[global] Instance PortRange_eq_dec : EqDecision PortRange.
Proof. solve_decision. Defined.
#[global] Instance Binding_eq_dec : EqDecision Binding.
Proof. solve_decision. Defined.
#[global] Instance Listener_eq_dec : EqDecision Listener.
Proof. solve_decision. Defined.

(** A selector matches exactly the label maps that give each of its labels the
    selector's value, an absent label counting as the empty value. *)
Lemma Selector_Matches_spec s labels :
  Selector_Matches s labels = true <->
  forall k v, default ∅ (Selector_MatchLabels s) !! k = Some v ->
    exists m, labels = Some m /\ default "" (m !! k) = v.
Proof.
  destruct s as [[m|]]; unfold Selector_Matches; cbn [Selector_MatchLabels gomap_entries default].
  - rewrite forallb_forall. split.
    + intros H k v Hk. specialize (H (k, v)).
      rewrite negb_true_iff, orb_false_iff, negb_false_iff, bool_decide_eq_false, String.eqb_eq in H.
      destruct H as [Hne Hv]; [by apply list_elem_of_In, elem_of_map_to_list |].
      destruct labels as [lm|]; [| done]. by exists lm.
    + intros H [k v] Hin. apply list_elem_of_In, elem_of_map_to_list in Hin.
      destruct (H k v Hin) as (lm & -> & <-). cbn. by rewrite String.eqb_refl.
  - split; [| done]. intros _ k v Hk. by rewrite lookup_empty in Hk.
Qed.
