(* ===== verification/Checksum.v ===== *)
(** * Snapshot normalisation and checksum (src/internal/domain: model_clone.go, checksum.go)

    [Normalize] orders the resources of a snapshot, [ChecksumDocument] projects
    the metadata-free document that [ComputeChecksum] serialises and hashes.
    [json.Marshal] of that document is a parameter (class [DocumentJSON]); the
    checksum depends on the snapshot only through the document. *)
From S2P Require Import Prelude GoStd GoNet Domain.

Section Clone.

(** [append([]T(nil), xs...)]. *)
Definition append_nil {A} (xs : list A) : list A := [] ++ xs.

Definition cloneLabels (value : gomap string) : gomap string :=
  match value with
  | None => None
  | Some m => Some (foldr (fun '(k, v) clone => <[k := v]> clone) ∅ (map_to_list m))
  end.

Definition cloneEgress (value : EgressPolicy) : EgressPolicy :=
  MkEgressPolicy (Egress_Enabled value) (append_nil (Egress_TCPPorts value))
    (append_nil (Egress_UDPPorts value)) (append_nil (Egress_AllowCIDRs value))
    (append_nil (Egress_AllowSpecialCIDRs value)) (Egress_MaxConnections value).

Definition cloneObfuscation (value : ObfuscationPolicy) : ObfuscationPolicy :=
  MkObfuscationPolicy (Obfuscation_Mode value)
    (of_bytes (append_nil (bytes_of (Obfuscation_KeyCiphertext value))))
    (of_bytes (append_nil (bytes_of (Obfuscation_PreviousKeyCiphertext value))))
    (Obfuscation_KeyID value) (Obfuscation_PreviousKeyID value)
    (of_bytes (append_nil (bytes_of (Obfuscation_Key value))))
    (of_bytes (append_nil (bytes_of (Obfuscation_PreviousKey value))))
    (Obfuscation_MaxPaddingBytes value) (Obfuscation_HandshakeShaping value).

Definition cloneGatewaySpec (value : GatewaySpec) : GatewaySpec :=
  MkGatewaySpec (Gateway_NodeID value) (append_nil (Gateway_PublicEndpoints value))
    (append_nil (Gateway_Listeners value)) (cloneLabels (Gateway_Labels value)) (Gateway_Capacity value)
    (MkPortPool (append_nil (PortPool_TCP (Gateway_PortPool value)))
                (append_nil (PortPool_UDP (Gateway_PortPool value))))
    (Gateway_Transport value) (cloneObfuscation (Gateway_Obfuscation value))
    (cloneEgress (Gateway_Egress value)) (Gateway_Revision value).

Definition cloneRoute (value : RouteRule) : RouteRule :=
  MkRouteRule (Route_Name value) (append_nil (Route_CIDRs value)) (append_nil (Route_Domains value))
    (append_nil (Route_GeoIP value)) (Route_Destination value) (Route_Enabled value).

Definition cloneAgentSpec (value : AgentSpec) : AgentSpec :=
  MkAgentSpec (Agent_NodeID value) (Agent_GatewayID value)
    (MkSelector (cloneLabels (Selector_MatchLabels (Agent_GatewaySelector value))))
    (append_nil (Agent_Proxies value)) (cloneRoute <$> append_nil (Agent_Routes value))
    (Agent_Limits value) (cloneEgress (Agent_Egress value)) (Agent_Logging value) (Agent_Revision value).

Definition cloneService (service : Service) : Service :=
  MkService (Service_ID service) (Service_AgentID service) (Service_Protocol service)
    (Service_LocalTarget service) (Service_PublicBind service) (Service_PublicPort service)
    (MkSelector (cloneLabels (Selector_MatchLabels (Service_GatewaySelector service))))
    (Service_Enabled service) (Service_Revision service) (Service_UpdatedAt service).

Definition cloneAssignment (a : Assignment) : Assignment :=
  MkAssignment (Assignment_ID a) (Assignment_GatewayID a) (Assignment_AgentID a)
    (append_nil (Assignment_ServiceIDs a)) (append_nil (Assignment_Bindings a))
    (Assignment_Generation a) (Assignment_State a) (Assignment_PublicEndpoint a)
    (cloneObfuscation (Assignment_Obfuscation a)) (Assignment_Revision a) (Assignment_UpdatedAt a).

Definition Clone (s : DesiredSnapshot) : DesiredSnapshot :=
  MkSnapshot (Snapshot_SchemaVersion s) (Snapshot_NodeID s) (Snapshot_Generation s) (Snapshot_Checksum s)
    (cloneGatewaySpec <$> Snapshot_Gateway s) (cloneAgentSpec <$> Snapshot_Agent s)
    (cloneService <$> Snapshot_Services s) (cloneAssignment <$> Snapshot_Assignments s).

(** A clone has the same contents. *)
Lemma cloneLabels_eq m : cloneLabels m = m.
Proof.
  destruct m as [m|]; cbn; [|done]. f_equal.
  rewrite <- (list_to_map_to_list m) at 2. induction (map_to_list m) as [|[k v] l IH]; cbn; [done|].
  by rewrite IH.
Qed.

Lemma cloneEgress_eq v : cloneEgress v = v.
Proof. by destruct v. Qed.
Lemma cloneObfuscation_eq v : cloneObfuscation v = v.
Proof. destruct v. unfold cloneObfuscation, append_nil. cbn. by rewrite !string_of_list_ascii_of_string. Qed.
Lemma cloneGatewaySpec_eq v : cloneGatewaySpec v = v.
Proof. destruct v as [? ? ? ? ? [] ? ? ? ?]. unfold cloneGatewaySpec. cbn. by rewrite cloneLabels_eq, cloneObfuscation_eq, cloneEgress_eq. Qed.
Lemma cloneRoute_eq v : cloneRoute v = v.
Proof. by destruct v. Qed.
Lemma cloneAgentSpec_eq v : cloneAgentSpec v = v.
Proof.
  destruct v as [? ? [] ? ? ? ? ? ?]. unfold cloneAgentSpec, append_nil. cbn.
  rewrite cloneLabels_eq, cloneEgress_eq. f_equal.
  rewrite <- (list_fmap_id Agent_Routes) at 2. apply list_fmap_ext. intros. apply cloneRoute_eq.
Qed.
Lemma cloneService_eq v : cloneService v = v.
Proof. destruct v as [? ? ? ? ? ? [] ? ? ?]. unfold cloneService. cbn. by rewrite cloneLabels_eq. Qed.
Lemma cloneAssignment_eq v : cloneAssignment v = v.
Proof. destruct v. unfold cloneAssignment. cbn. by rewrite cloneObfuscation_eq. Qed.

Lemma Clone_eq s : Clone s = s.
Proof.
  destruct s as [? ? ? ? g a sv asn]. unfold Clone. cbn. f_equal.
  - destruct g; cbn; [by rewrite cloneGatewaySpec_eq | done].
  - destruct a; cbn; [by rewrite cloneAgentSpec_eq | done].
  - rewrite <- (list_fmap_id sv) at 2. apply list_fmap_ext. intros. apply cloneService_eq.
  - rewrite <- (list_fmap_id asn) at 2. apply list_fmap_ext. intros. apply cloneAssignment_eq.
Qed.
End Clone.

(** ** Normalisation *)
Section Normalize.
Context `{!SliceSort}.

Definition listener_sort_key (l : Listener) : string :=
  Listener_Protocol l +:+ "|" +:+ Listener_Bind l +:+ "|" +:+ strconv.Itoa (Listener_Port l).

Definition binding_sort_key (b : Binding) : string :=
  Binding_ServiceID b +:+ "|" +:+ Binding_Protocol b +:+ "|" +:+ Binding_Bind b +:+ "|"
    +:+ strconv.Itoa (Binding_Port b).

Definition normalize_egress (e : EgressPolicy) : EgressPolicy :=
  MkEgressPolicy (Egress_Enabled e) (sort_strings (Egress_TCPPorts e)) (sort_strings (Egress_UDPPorts e))
    (sort_strings (Egress_AllowCIDRs e)) (sort_strings (Egress_AllowSpecialCIDRs e)) (Egress_MaxConnections e).

Definition normalize_gateway (g : GatewaySpec) : GatewaySpec :=
  MkGatewaySpec (Gateway_NodeID g) (Gateway_PublicEndpoints g)
    (sort_slice (key_less listener_sort_key) (Gateway_Listeners g)) (Gateway_Labels g) (Gateway_Capacity g)
    (Gateway_PortPool g) (Gateway_Transport g) (Gateway_Obfuscation g)
    (normalize_egress (Gateway_Egress g)) (Gateway_Revision g).

Definition normalize_agent (a : AgentSpec) : AgentSpec :=
  MkAgentSpec (Agent_NodeID a) (Agent_GatewayID a) (Agent_GatewaySelector a)
    (sort_slice (key_less Proxy_ID) (Agent_Proxies a)) (Agent_Routes a) (Agent_Limits a)
    (normalize_egress (Agent_Egress a)) (Agent_Logging a) (Agent_Revision a).

Definition normalize_assignment (a : Assignment) : Assignment :=
  MkAssignment (Assignment_ID a) (Assignment_GatewayID a) (Assignment_AgentID a)
    (sort_strings (Assignment_ServiceIDs a))
    (sort_slice (key_less binding_sort_key) (Assignment_Bindings a))
    (Assignment_Generation a) (Assignment_State a) (Assignment_PublicEndpoint a)
    (Assignment_Obfuscation a) (Assignment_Revision a) (Assignment_UpdatedAt a).

Definition Normalize (s : DesiredSnapshot) : DesiredSnapshot :=
  let clone := Clone s in
  MkSnapshot (Snapshot_SchemaVersion clone) (Snapshot_NodeID clone) (Snapshot_Generation clone)
    (Snapshot_Checksum clone)
    (normalize_gateway <$> Snapshot_Gateway clone) (normalize_agent <$> Snapshot_Agent clone)
    (sort_slice (key_less Service_ID) (Snapshot_Services clone))
    (sort_slice (key_less Assignment_ID) (normalize_assignment <$> Snapshot_Assignments clone)).

Lemma normalize_assignment_ID a : Assignment_ID (normalize_assignment a) = Assignment_ID a.
Proof. done. Qed.

Lemma Normalize_perm s1 s2 :
  Snapshot_SchemaVersion s1 = Snapshot_SchemaVersion s2 -> Snapshot_NodeID s1 = Snapshot_NodeID s2 ->
  Snapshot_Generation s1 = Snapshot_Generation s2 -> Snapshot_Checksum s1 = Snapshot_Checksum s2 ->
  Snapshot_Gateway s1 = Snapshot_Gateway s2 -> Snapshot_Agent s1 = Snapshot_Agent s2 ->
  NoDup (Service_ID <$> Snapshot_Services s1) -> Snapshot_Services s1 ≡ₚ Snapshot_Services s2 ->
  NoDup (Assignment_ID <$> Snapshot_Assignments s1) -> Snapshot_Assignments s1 ≡ₚ Snapshot_Assignments s2 ->
  Normalize s1 = Normalize s2.
Proof.
  intros E1 E2 E3 E4 E5 E6 Hs Ps Ha Pa. unfold Normalize. rewrite !Clone_eq, E1, E2, E3, E4, E5, E6.
  f_equal; apply sort_slice_unique; [done | done | | by rewrite Pa].
  by rewrite <- list_fmap_compose.
Qed.
End Normalize.

(** ** The checksum document *)
Record ChecksumObfuscation := MkChecksumObfuscation {
  CObf_Mode : string; CObf_KeyID : string; CObf_PreviousKeyID : string;
  CObf_MaxPaddingBytes : Z; CObf_HandshakeShaping : bool
}.

Record ChecksumGateway := MkChecksumGateway {
  CGateway_NodeID : string; CGateway_PublicEndpoints : list string; CGateway_Listeners : list Listener;
  CGateway_Labels : gomap string; CGateway_Capacity : Capacity; CGateway_PortPool : PortPool;
  CGateway_Transport : TransportPolicy; CGateway_Obfuscation : ChecksumObfuscation; CGateway_Egress : EgressPolicy
}.

Record ChecksumAgent := MkChecksumAgent {
  CAgent_NodeID : string; CAgent_GatewayID : string; CAgent_GatewaySelector : Selector;
  CAgent_Proxies : list ProxySpec; CAgent_Routes : list RouteRule; CAgent_Limits : AgentLimits;
  CAgent_Egress : EgressPolicy; CAgent_Logging : LoggingPolicy
}.

Record ChecksumService := MkChecksumService {
  CService_ID : string; CService_AgentID : string; CService_Protocol : string; CService_LocalTarget : string;
  CService_PublicBind : string; CService_PublicPort : Z; CService_GatewaySelector : Selector; CService_Enabled : bool
}.

Record ChecksumAssignment := MkChecksumAssignment {
  CAssignment_ID : string; CAssignment_GatewayID : string; CAssignment_AgentID : string;
  CAssignment_ServiceIDs : list string; CAssignment_Bindings : list Binding; CAssignment_Generation : Z;
  CAssignment_State : string; CAssignment_PublicEndpoint : string; CAssignment_Obfuscation : ChecksumObfuscation
}.

Record ChecksumDocument := MkChecksumDocument {
  Document_SchemaVersion : Z; Document_NodeID : string; Document_Generation : Z;
  Document_Gateway : option ChecksumGateway; Document_Agent : option ChecksumAgent;
  Document_Services : list ChecksumService; Document_Assignments : list ChecksumAssignment
}.

Definition ErrMissingObfuscationKeyID := ENew "checksum requires a canonical obfuscation key id".

Definition checksumObfuscation (value : ObfuscationPolicy) : result ChecksumObfuscation :=
  let result := MkChecksumObfuscation (Obfuscation_Mode value) (Obfuscation_KeyID value)
                  (Obfuscation_PreviousKeyID value) (Obfuscation_MaxPaddingBytes value)
                  (Obfuscation_HandshakeShaping value) in
  if String.eqb (Obfuscation_Mode value) "" || String.eqb (Obfuscation_Mode value) "standard" then Ok result
  else if String.eqb (Obfuscation_Mode value) "camouflage" then
    _ ← reject_if (String.eqb (Obfuscation_KeyID value) "") ErrMissingObfuscationKeyID;
    _ ← reject_if (String.eqb (Obfuscation_PreviousKeyID value) ""
                   && ((slen (Obfuscation_PreviousKey value) >? 0)
                       || (slen (Obfuscation_PreviousKeyCiphertext value) >? 0)))
                  (EWrap "%w: previous key" [] ErrMissingObfuscationKeyID);
    Ok result
  else Err (EFmt "unsupported obfuscation mode %q" [AStr (Obfuscation_Mode value)]).

Class DocumentJSON := { marshal_document : ChecksumDocument -> result (list ascii) }.

Section Document.
Context `{!SliceSort, !Crypto, !DocumentJSON}.

(** [ObfuscationKeyID]. *)
Definition ObfuscationKeyID (key : string) : string :=
  if slen key =? 0 then "" else hex_encode (sha256 (bytes_of key)).

Definition document_gateway (gateway : GatewaySpec) : result ChecksumGateway :=
  obfuscation ← map_err (EWrap "gateway obfuscation: %w" []) (checksumObfuscation (Gateway_Obfuscation gateway));
  Ok (MkChecksumGateway (Gateway_NodeID gateway) (append_nil (Gateway_PublicEndpoints gateway))
        (append_nil (Gateway_Listeners gateway)) (cloneLabels (Gateway_Labels gateway))
        (Gateway_Capacity gateway)
        (MkPortPool (append_nil (PortPool_TCP (Gateway_PortPool gateway)))
                    (append_nil (PortPool_UDP (Gateway_PortPool gateway))))
        (Gateway_Transport gateway) obfuscation (cloneEgress (Gateway_Egress gateway))).

Definition document_agent (agent : AgentSpec) : ChecksumAgent :=
  MkChecksumAgent (Agent_NodeID agent) (Agent_GatewayID agent)
    (MkSelector (cloneLabels (Selector_MatchLabels (Agent_GatewaySelector agent))))
    (append_nil (Agent_Proxies agent)) (cloneRoute <$> append_nil (Agent_Routes agent))
    (Agent_Limits agent) (cloneEgress (Agent_Egress agent)) (Agent_Logging agent).

Definition document_service (service : Service) : ChecksumService :=
  MkChecksumService (Service_ID service) (Service_AgentID service) (Service_Protocol service)
    (Service_LocalTarget service) (Service_PublicBind service) (Service_PublicPort service)
    (MkSelector (cloneLabels (Selector_MatchLabels (Service_GatewaySelector service))))
    (Service_Enabled service).

Definition document_assignment (a : Assignment) : result ChecksumAssignment :=
  obfuscation ← map_err (EWrap "assignment %q obfuscation: %w" [AStr (Assignment_ID a)])
                        (checksumObfuscation (Assignment_Obfuscation a));
  Ok (MkChecksumAssignment (Assignment_ID a) (Assignment_GatewayID a) (Assignment_AgentID a)
        (append_nil (Assignment_ServiceIDs a)) (append_nil (Assignment_Bindings a))
        (Assignment_Generation a) (Assignment_State a) (Assignment_PublicEndpoint a) obfuscation).

Definition checksum_document (s : DesiredSnapshot) : result ChecksumDocument :=
  let canonical := Normalize s in
  gateway ← (match Snapshot_Gateway canonical with
             | None => Ok None
             | Some g => Some <$> document_gateway g
             end);
  assignments ← for_each (fun _ a acc => d ← document_assignment a; Ok (acc ++ [d]))
                         0 (Snapshot_Assignments canonical) [];
  Ok (MkChecksumDocument (Snapshot_SchemaVersion canonical) (Snapshot_NodeID canonical)
        (Snapshot_Generation canonical) gateway (document_agent <$> Snapshot_Agent canonical)
        (document_service <$> Snapshot_Services canonical) assignments).

Definition ComputeChecksum (s : DesiredSnapshot) : result string :=
  document ← checksum_document s;
  b ← marshal_document document;
  Ok (hex_encode (sha256 b)).

Definition set_checksum (s : DesiredSnapshot) (checksum : string) : DesiredSnapshot :=
  MkSnapshot (Snapshot_SchemaVersion s) (Snapshot_NodeID s) (Snapshot_Generation s) checksum
    (Snapshot_Gateway s) (Snapshot_Agent s) (Snapshot_Services s) (Snapshot_Assignments s).

(** The checksum field takes no part in the checksum. *)
Lemma ComputeChecksum_set_checksum s c : ComputeChecksum (set_checksum s c) = ComputeChecksum s.
Proof. unfold ComputeChecksum, checksum_document, Normalize. rewrite !Clone_eq. reflexivity. Qed.
End Document.

(** The obfuscation identity in the document does not depend on key material. *)
Lemma checksumObfuscation_key_free o key cipher :
  checksumObfuscation (MkObfuscationPolicy (Obfuscation_Mode o) cipher (Obfuscation_PreviousKeyCiphertext o)
    (Obfuscation_KeyID o) (Obfuscation_PreviousKeyID o) key (Obfuscation_PreviousKey o)
    (Obfuscation_MaxPaddingBytes o) (Obfuscation_HandshakeShaping o))
  = checksumObfuscation o.
Proof. reflexivity. Qed.
