(* ===== verification/Validation.v ===== *)
(** * Validation of the domain model (src/internal/domain)

    The validators of model_validation_network.go and model_core.go and the label
    checks of model_validation.go, with every branch and its error. *)
From S2P Require Import Prelude GoStd GoNet Address Domain Checksum.
From Stdlib Require Import SpecFloat.
Import netip.

Definition in_strings (s : string) (l : list string) : bool := existsb (String.eqb s) l.

(** [&ApplyError{Code, Path, Message}] as an [error]. *)
Definition apply_error (code path message : string) : error := EApply code (TLit path) (TLit message).

(** ** model_validation_network.go *)
Section Network.

Definition containsControl (value : string) : bool :=
  existsb (fun c => (byte_val c <? 32) || (byte_val c =? 127)) (bytes_of value).

Definition id_punct (c : ascii) : bool :=
  Ascii.eqb c "-" || Ascii.eqb c "_" || Ascii.eqb c ".".

(** [ValidateID]. *)
Definition ValidateID (value : string) (path : text) : result unit :=
  let trimmed := strings.TrimSpace value in
  _ ← reject_if (negb (String.eqb trimmed value))
        (EApply "invalid_id" path (TLit "id must not contain surrounding whitespace"));
  let value := trimmed in
  _ ← reject_if ((slen value <? 1) || (slen value >? 128))
        (EApply "invalid_id" path (TLit "id must contain 1 to 128 characters"));
  _ ← check_each (fun i r =>
        reject_if (negb (id_punct r || is_lower r || is_upper r || is_digit r) || (i =? 0) && id_punct r)
          (EApply "invalid_id" path (TLit "id contains an invalid character"))) (bytes_of value);
  match last (bytes_of value) with
  | Some c => reject_if (id_punct c) (EApply "invalid_id" path (TLit "id must not end with punctuation"))
  | None => Ok tt
  end.

Definition validateListener (l : Listener) : result unit :=
  _ ← reject_if (negb (String.eqb (Listener_Protocol l) ProtocolTCP) && negb (String.eqb (Listener_Protocol l) ProtocolUDP))
        (ENew "listener protocol must be tcp or udp");
  _ ← reject_if (Listener_Port l =? 0) (ENew "listener port must be non-zero");
  _ ← reject_if (String.eqb (strings.TrimSpace (Listener_Bind l)) "") (ENew "listener bind is required");
  _ ← reject_if (negb (String.eqb (Listener_Bind l) (strings.TrimSpace (Listener_Bind l))))
        (ENew "listener bind must not contain surrounding whitespace");
  _ ← map_err (EWrap "listener bind must be an IP address: %w" []) (ParseAddr (Listener_Bind l));
  Ok tt.

Definition normalizedIP (value : string) : string :=
  let value := strings.TrimSpace value in
  match ParseAddr value with
  | Ok address => addr_string (Unmap address)
  | Err _ => value
  end.

Definition validateHostPort (value : string) : result unit :=
  _ ← reject_if (containsControl value || (slen value >? 2048)) (ENew "host:port contains invalid characters");
  _ ← reject_if (negb (String.eqb value (strings.TrimSpace value)))
        (ENew "host:port must not contain surrounding whitespace");
  '(host, portText) ← net.SplitHostPort value;
  _ ← reject_if (String.eqb (strings.TrimSpace host) "" || negb (String.eqb host (strings.TrimSpace host))
                 || strings.ContainsAny host tab_space || strings.ContainsAny portText tab_space)
        (ENew "host is required");
  match strconv.Atoi portText with
  | Ok port => reject_if ((port <? 1) || (port >? 65535)) (ENew "port must be between 1 and 65535")
  | Err _ => Err (ENew "port must be between 1 and 65535")
  end.

Definition validateEndpoint (value : string) : result unit :=
  _ ← reject_if (negb (String.eqb value (strings.TrimSpace value)))
        (ENew "endpoint must not contain surrounding whitespace");
  _ ← reject_if (String.eqb value "" || (slen value >? 2048)) (ENew "endpoint is empty or too long");
  validateHostPort value.

Definition range_less (a b : PortRange) : bool :=
  if negb (PortRange_Min a =? PortRange_Min b) then PortRange_Min a <? PortRange_Min b
  else PortRange_Max a <? PortRange_Max b.

Fixpoint adjacent_overlap (ordered : list PortRange) : bool :=
  match ordered with
  | a :: (b :: _) as rest => (PortRange_Min b <=? PortRange_Max a) || adjacent_overlap rest
  | _ => false
  end.

Context `{!MapOrder, !SliceSort}.

(** [PortPool.Validate]: the loop over the two pools is a loop over a map. *)
Definition PortPool_Validate (p : PortPool) : result unit :=
  check_each (fun _ '(name, ranges) =>
    _ ← check_each (fun _ r =>
          reject_if ((PortRange_Min r =? 0) || (PortRange_Max r <? PortRange_Min r))
            (apply_error "invalid_port_pool" ("gateway.port_pool." +:+ name) "port range is invalid")) ranges;
    let ordered := sort_slice range_less ranges in
    reject_if (adjacent_overlap ordered)
      (apply_error "invalid_port_pool" ("gateway.port_pool." +:+ name) "port ranges overlap"))
    (range_order [("tcp", PortPool_TCP p); ("udp", PortPool_UDP p)]).

Definition invalid_label (key value : string) : bool :=
  String.eqb (strings.TrimSpace key) "" || negb (String.eqb (strings.TrimSpace key) key)
  || (slen key >? 128) || containsControl key || (slen value >? 256) || containsControl value.

Definition validateLabels (labels : gomap string) (path : string) : result unit :=
  _ ← reject_if (gomap_len labels >? 128) (apply_error "invalid_labels" path "too many labels");
  check_each (fun _ '(key, value) =>
      reject_if (invalid_label key value) (apply_error "invalid_labels" path "label is invalid"))
    (range_order (gomap_entries labels)).

Definition Selector_Validate (s : Selector) (path : string) : result unit :=
  _ ← reject_if (gomap_len (Selector_MatchLabels s) >? 128)
        (apply_error "invalid_selector" path "selector contains too many labels");
  check_each (fun _ '(key, value) =>
      _ ← reject_if (String.eqb (strings.TrimSpace key) "" || negb (String.eqb (strings.TrimSpace key) key)
                     || (slen key >? 128) || containsControl key)
            (apply_error "invalid_selector" path "selector label key is invalid");
      reject_if ((slen value >? 256) || containsControl value)
        (apply_error "invalid_selector" path "selector label value is invalid"))
    (range_order (gomap_entries (Selector_MatchLabels s))).
End Network.

(** ** model_core.go *)
Section Core.
Context `{!MapOrder, !SliceSort, !Crypto}.

Definition certificate_states : list string :=
  [CertificatePending; CertificateActive; CertificateRevoked; CertificateExpired; CertificateDecommissioned].

Definition Node_ValidateMetadata (n : Node) : result unit :=
  let name := strings.TrimSpace (Node_Name n) in
  _ ← reject_if (String.eqb name "" || (slen name >? 128) || containsControl name)
        (apply_error "invalid_name" "node.name" "name must contain 1 to 128 printable characters");
  _ ← reject_if (negb (String.eqb (Node_CertificateState n) "") && negb (in_strings (Node_CertificateState n) certificate_states))
        (apply_error "invalid_certificate_state" "node.certificate_state" "certificate state is invalid");
  _ ← reject_if (String.eqb (Node_CertificateState n) CertificateActive
                 && String.eqb (strings.TrimSpace (Node_CertificateSerial n)) "")
        (apply_error "invalid_certificate_serial" "node.certificate_serial" "an active node must have a certificate serial");
  _ ← reject_if ((slen (Node_CertificateSerial n) >? 256) || containsControl (Node_CertificateSerial n))
        (apply_error "invalid_certificate_serial" "node.certificate_serial" "certificate serial is invalid");
  _ ← reject_if (Node_Revision n <? 0) (apply_error "invalid_revision" "node.revision" "revision cannot be negative");
  _ ← reject_if (gomap_len (Node_Labels n) >? 128) (apply_error "invalid_labels" "node.labels" "node has too many labels");
  check_each (fun _ '(key, value) =>
      reject_if (invalid_label key value) (apply_error "invalid_labels" "node.labels" "node label is invalid"))
    (range_order (gomap_entries (Node_Labels n))).

Definition Node_Validate (n : Node) : result unit :=
  _ ← ValidateID (Node_ID n) (TLit "node.id");
  Node_ValidateMetadata n.

Definition Obfuscation_Validate (o : ObfuscationPolicy) (path : string) : result unit :=
  let path := if String.eqb path "" then "obfuscation" else path in
  let fail suffix message := apply_error "invalid_obfuscation" (path +:+ suffix) message in
  _ ← reject_if (negb (in_strings (Obfuscation_Mode o) [""; "standard"; "camouflage"]))
        (fail ".mode" "obfuscation mode must be standard or camouflage");
  _ ← reject_if (String.eqb (Obfuscation_Mode o) "camouflage" && (slen (Obfuscation_Key o) =? 0)
                 && (slen (Obfuscation_KeyCiphertext o) =? 0))
        (fail ".key_ciphertext" "camouflage mode requires a protected key");
  _ ← check_each (fun _ '(keyPath, key) =>
          reject_if (negb (slen key =? 0) && negb (slen key =? 32))
            (fail ("." +:+ keyPath) "data-plane obfuscation keys must contain exactly 32 bytes"))
        (range_order [("key", Obfuscation_Key o); ("previous_key", Obfuscation_PreviousKey o)]);
  _ ← reject_if ((slen (Obfuscation_Key o) >? 0) && negb (String.eqb (Obfuscation_KeyID o) "")
                 && negb (String.eqb (Obfuscation_KeyID o) (ObfuscationKeyID (Obfuscation_Key o))))
        (fail ".key_id" "key_id does not identify key");
  _ ← reject_if ((slen (Obfuscation_PreviousKey o) >? 0) && negb (String.eqb (Obfuscation_PreviousKeyID o) "")
                 && negb (String.eqb (Obfuscation_PreviousKeyID o) (ObfuscationKeyID (Obfuscation_PreviousKey o))))
        (fail ".previous_key_id" "previous_key_id does not identify previous_key");
  _ ← check_each (fun _ '(idPath, id) =>
          reject_if ((slen id >? 128) || strings.ContainsAny id nul_cr_lf)
            (fail ("." +:+ idPath) "obfuscation key id is invalid"))
        (range_order [("key_id", Obfuscation_KeyID o); ("previous_key_id", Obfuscation_PreviousKeyID o)]);
  _ ← reject_if ((Obfuscation_MaxPaddingBytes o <? 0) || (Obfuscation_MaxPaddingBytes o >? 65536))
        (fail ".max_padding_bytes" "obfuscation padding limit is out of range");
  _ ← reject_if (slen (Obfuscation_KeyCiphertext o) >? 131072)
        (fail ".key_ciphertext" "obfuscation key ciphertext is too large");
  reject_if (slen (Obfuscation_PreviousKeyCiphertext o) >? 131072)
    (fail ".previous_key_ciphertext" "previous obfuscation key ciphertext is too large").

Definition invalid_port_range (path : string) : error :=
  apply_error "invalid_egress" path "egress port range is invalid".

(** The ports of one range text, or the error of [validateEgressPortRanges]. *)
Definition parse_port_range (value path : string) : result (Z * Z) :=
  let trimmed := strings.TrimSpace value in
  _ ← reject_if (negb (String.eqb value trimmed) || String.eqb trimmed "" || (slen trimmed >? 11))
        (invalid_port_range path);
  let parts := strings.Split trimmed "-"%char in
  match parts with
  | [] => Err (invalid_port_range path)
  | first :: rest =>
      _ ← reject_if ((llen parts >? 2) || String.eqb first "") (invalid_port_range path);
      min ← map_err (fun _ => invalid_port_range path) (strconv.Atoi first);
      _ ← reject_if ((min <? 1) || (min >? 65535)) (invalid_port_range path);
      max ← (match rest with
             | [second] =>
                 max ← map_err (fun _ => invalid_port_range path) (strconv.Atoi second);
                 _ ← reject_if (max >? 65535) (invalid_port_range path);
                 Ok max
             | _ => Ok min
             end);
      _ ← reject_if (max <? min) (invalid_port_range path);
      Ok (min, max)
  end.

Definition validateEgressPortRanges (values : list string) (path : string) : result unit :=
  check_each (fun _ value => _ ← parse_port_range value path; Ok tt) values.

Definition Egress_Validate (p : EgressPolicy) (path : string) : result unit :=
  let path := if String.eqb (strings.TrimSpace path) "" then "agent.egress" else path in
  let fail suffix message := apply_error "invalid_egress" (path +:+ suffix) message in
  _ ← reject_if ((Egress_MaxConnections p <? 0) || (Egress_MaxConnections p >? 1048576))
        (fail ".max_connections" "egress connection limit is out of range");
  _ ← reject_if ((llen (Egress_TCPPorts p) >? 4096) || (llen (Egress_UDPPorts p) >? 4096)
                 || (llen (Egress_AllowCIDRs p) >? 4096) || (llen (Egress_AllowSpecialCIDRs p) >? 4096))
        (fail "" "egress policy contains too many entries");
  _ ← reject_if (Egress_Enabled p && (llen (Egress_TCPPorts p) =? 0) && (llen (Egress_UDPPorts p) =? 0))
        (fail "" "enabled egress requires TCP or UDP port ranges");
  _ ← validateEgressPortRanges (Egress_TCPPorts p) (path +:+ ".tcp_ports");
  _ ← validateEgressPortRanges (Egress_UDPPorts p) (path +:+ ".udp_ports");
  _ ← check_each (fun _ value =>
        _ ← reject_if (negb (String.eqb (strings.TrimSpace value) value) || (slen value >? 64))
              (fail ".allow_cidrs" "egress CIDR is invalid");
        _ ← map_err (fun _ => fail ".allow_cidrs" "egress CIDR is invalid") (ParsePrefix value);
        Ok tt) (Egress_AllowCIDRs p);
  check_each (fun _ value =>
        _ ← reject_if (negb (String.eqb (strings.TrimSpace value) value) || (slen value >? 64))
              (fail ".allow_special_cidrs" "special-use egress CIDR is invalid");
        let outside := fail ".allow_special_cidrs" "special-use egress CIDR must be within a special-use range" in
        prefix ← map_err (fun _ => outside) (ParsePrefix value);
        reject_if (negb (IsSpecialPrefix prefix)) outside) (Egress_AllowSpecialCIDRs p).
End Core.
