(* ===== verification/Snapshot.v ===== *)
(** * Validation of specs, services, assignments and snapshots, and sealing
    (src/internal/domain: model_validation.go, model_clone.go)

    [Snapshot_Validate] checks the structure of a snapshot, the ownership of its
    resources and its checksum; [WithChecksum] normalises, validates and seals. *)
From S2P Require Import Prelude GoStd GoNet Address Domain Checksum Validation.
From Stdlib Require Import SpecFloat.
Import netip.

(** A set of seen keys, [map\[string\]struct{}]. *)
Abbreviation seen_set := (gset string).

Definition seen (k : string) (s : seen_set) : bool := bool_decide (k ∈ s).

(** The key [protocol|bind|port] of a public binding. *)
Definition endpoint_key (protocol bind : string) (port : Z) : string :=
  protocol +:+ "|" +:+ bind +:+ "|" +:+ strconv.Itoa port.

Definition protocol_known (p : string) : bool := String.eqb p ProtocolTCP || String.eqb p ProtocolUDP.

Section Specs.
Context `{!MapOrder, !SliceSort, !Crypto, !Unicode}.

Definition Gateway_Validate (g : GatewaySpec) : result unit :=
  _ ← ValidateID (Gateway_NodeID g) (TLit "gateway.node_id");
  _ ← reject_if (llen (Gateway_PublicEndpoints g) =? 0)
        (apply_error "missing_endpoint" "gateway.public_endpoints" "at least one public endpoint is required");
  _ ← check_each (fun i endpoint =>
        map_err (fun err => EApply "invalid_endpoint" (TFmt "gateway.public_endpoints[%d]" [AInt i]) (TError err))
          (validateEndpoint endpoint)) (Gateway_PublicEndpoints g);
  _ ← reject_if (llen (Gateway_PublicEndpoints g) >? 64)
        (apply_error "too_many_endpoints" "gateway.public_endpoints" "gateway has too many public endpoints");
  _ ← for_each (fun _ endpoint (seenEndpoints : seen_set) =>
        let endpoint := strings.TrimSpace endpoint in
        _ ← reject_if (seen endpoint seenEndpoints)
              (apply_error "duplicate_endpoint" "gateway.public_endpoints" "gateway public endpoint is duplicated");
        Ok ({[endpoint]} ∪ seenEndpoints)) 0 (Gateway_PublicEndpoints g) ∅;
  _ ← validateLabels (Gateway_Labels g) "gateway.labels";
  _ ← reject_if (Gateway_Revision g <? 0)
        (apply_error "invalid_revision" "gateway.revision" "revision cannot be negative");
  _ ← reject_if ((llen (PortPool_TCP (Gateway_PortPool g)) >? 1024) || (llen (PortPool_UDP (Gateway_PortPool g)) >? 1024))
        (apply_error "invalid_port_pool" "gateway.port_pool" "gateway has too many port ranges");
  _ ← reject_if (llen (Gateway_Listeners g) >? 4096)
        (apply_error "too_many_listeners" "gateway.listeners" "gateway has too many listeners");
  _ ← for_each (fun i listener (seenListeners : seen_set) =>
        _ ← map_err (fun err => EApply "invalid_listener" (TFmt "gateway.listeners[%d]" [AInt i]) (TError err))
              (validateListener listener);
        let key := endpoint_key (Listener_Protocol listener) (normalizedIP (Listener_Bind listener)) (Listener_Port listener) in
        _ ← reject_if (seen key seenListeners)
              (EApply "duplicate_listener" (TFmt "gateway.listeners[%d]" [AInt i]) (TLit "listener binding is duplicated"));
        Ok ({[key]} ∪ seenListeners)) 0 (Gateway_Listeners g) ∅;
  let c := Gateway_Capacity g in
  _ ← reject_if ((Capacity_MaxAgents c <? 0) || (Capacity_MaxServices c <? 0) || (Capacity_MaxConnections c <? 0))
        (apply_error "invalid_capacity" "gateway.capacity" "capacity values cannot be negative");
  _ ← reject_if ((Capacity_MaxAgents c >? 1048576) || (Capacity_MaxServices c >? 1048576) || (Capacity_MaxConnections c >? 1048576))
        (apply_error "invalid_capacity" "gateway.capacity" "capacity values exceed the supported maximum");
  _ ← PortPool_Validate (Gateway_PortPool g);
  let t := Gateway_Transport g in
  _ ← reject_if ((Transport_MaxStreams t <? 0) || (Transport_MaxFrameBytes t <? 0) || (Transport_MaxDatagramBytes t <? 0)
                 || (Transport_HandshakeTimeoutSeconds t <? 0) || (Transport_IdleTimeoutSeconds t <? 0))
        (apply_error "invalid_transport" "gateway.transport" "transport limits cannot be negative");
  _ ← reject_if ((Transport_MaxStreams t >? 1048576) || (Transport_MaxFrameBytes t >? 1048576)
                 || (Transport_MaxDatagramBytes t >? 65536) || (Transport_HandshakeTimeoutSeconds t >? 24 * 60 * 60)
                 || (Transport_IdleTimeoutSeconds t >? 7 * 24 * 60 * 60))
        (apply_error "invalid_transport" "gateway.transport" "transport limits exceed the supported maximum");
  _ ← reject_if (negb (String.eqb (Transport_ALPN t) "") && negb (String.eqb (Transport_ALPN t) DataALPN)
                 || (slen (Transport_ALPN t) >? 255) || containsControl (Transport_ALPN t))
        (apply_error "invalid_transport" "gateway.transport.alpn" "transport ALPN is invalid");
  _ ← Obfuscation_Validate (Gateway_Obfuscation g) "gateway.obfuscation";
  Egress_Validate (Gateway_Egress g) "gateway.egress".

Definition proxy_check (i : Z) (proxy : ProxySpec) (st : seen_set * seen_set) : result (seen_set * seen_set) :=
  let '(seenProxies, seenProxyBinds) := st in
  let fail code fmt message := EApply code (TFmt fmt [AInt i]) (TLit message) in
  _ ← reject_if (negb (is_Ok (ValidateID (Proxy_ID proxy) (TFmt "agent.proxies[%d].id" [AInt i])))
                 || negb (String.eqb (Proxy_Protocol proxy) "http") && negb (String.eqb (Proxy_Protocol proxy) "socks5"))
        (fail "invalid_proxy" "agent.proxies[%d]" "proxy id and protocol are invalid");
  _ ← reject_if (seen (Proxy_ID proxy) seenProxies)
        (fail "duplicate_proxy" "agent.proxies[%d].id" "proxy id is duplicated");
  _ ← reject_if (String.eqb (Proxy_Bind proxy) "")
        (fail "invalid_proxy" "agent.proxies[%d].bind" "proxy bind is required");
  _ ← map_err (fun _ => fail "invalid_proxy" "agent.proxies[%d].bind" "proxy bind must be host:port")
        (validateHostPort (Proxy_Bind proxy));
  _ ← reject_if (seen (Proxy_Bind proxy) seenProxyBinds)
        (fail "duplicate_proxy_bind" "agent.proxies[%d].bind" "proxy bind is duplicated");
  _ ← reject_if (negb (in_strings (Proxy_Route proxy) [""; "direct"; "gateway"]))
        (fail "invalid_proxy" "agent.proxies[%d].route" "proxy route must be direct or gateway");
  Ok ({[Proxy_ID proxy]} ∪ seenProxies, {[Proxy_Bind proxy]} ∪ seenProxyBinds).

Definition geoip_letters (country : string) : bool :=
  match bytes_of country with
  | [a; b] => is_lower a && is_lower b
  | _ => false
  end.

Definition route_check (i : Z) (route : RouteRule) (seenRoutes : seen_set) : result seen_set :=
  let fail code fmt message := EApply code (TFmt fmt [AInt i]) (TLit message) in
  _ ← map_err (fun err => EApply "invalid_route" (TFmt "agent.routes[%d].name" [AInt i]) (TError err))
        (ValidateID (Route_Name route) (TFmt "agent.routes[%d].name" [AInt i]));
  _ ← reject_if (seen (Route_Name route) seenRoutes)
        (fail "duplicate_route" "agent.routes[%d].name" "route name is duplicated");
  _ ← reject_if (String.eqb (strings.TrimSpace (Route_Destination route)) "" || (slen (Route_Destination route) >? 2048)
                 || containsControl (Route_Destination route))
        (fail "invalid_route" "agent.routes[%d].destination" "route destination is invalid");
  _ ← reject_if (negb (in_strings (Route_Destination route) ["direct"; "gateway"]))
        (fail "invalid_route" "agent.routes[%d].destination" "route destination must be direct or gateway");
  _ ← reject_if ((llen (Route_CIDRs route) >? 1024) || (llen (Route_Domains route) >? 1024) || (llen (Route_GeoIP route) >? 256))
        (fail "invalid_route" "agent.routes[%d]" "route contains too many match entries");
  _ ← check_each (fun _ cidr =>
        _ ← map_err (fun _ => fail "invalid_route" "agent.routes[%d].cidrs" "route CIDR is invalid")
              (ParsePrefix (strings.TrimSpace cidr)); Ok tt) (Route_CIDRs route);
  _ ← check_each (fun _ name =>
        reject_if (String.eqb (strings.TrimSpace name) "" || negb (String.eqb (strings.TrimSpace name) name)
                   || (slen name >? 253) || containsControl name || strings.ContainsAny name tab_space)
          (fail "invalid_route" "agent.routes[%d].domains" "route domain is invalid")) (Route_Domains route);
  _ ← check_each (fun _ country =>
        let country := strings.TrimSpace country in
        _ ← reject_if (negb (String.eqb country (to_lower country)) || String.eqb country "" || (slen country >? 16)
                       || negb (String.eqb country (strings.TrimSpace country)) || containsControl country)
              (fail "invalid_route" "agent.routes[%d].geoip" "route GeoIP code is invalid");
        reject_if (negb (String.eqb country "private") && negb (geoip_letters country))
          (fail "invalid_route" "agent.routes[%d].geoip" "route GeoIP code must be private or a two-letter ISO code"))
      (Route_GeoIP route);
  Ok ({[Route_Name route]} ∪ seenRoutes).

Definition Agent_Validate (a : AgentSpec) : result unit :=
  _ ← ValidateID (Agent_NodeID a) (TLit "agent.node_id");
  _ ← (if String.eqb (Agent_GatewayID a) "" then Ok tt else
         _ ← ValidateID (Agent_GatewayID a) (TLit "agent.gateway_id");
         reject_if (String.eqb (Agent_GatewayID a) (Agent_NodeID a))
           (apply_error "invalid_gateway_binding" "agent.gateway_id" "agent cannot bind to itself"));
  let l := Agent_Limits a in
  _ ← reject_if ((Limits_MaxConnections l <? 0) || (Limits_MaxStreams l <? 0) || (Limits_MaxBufferBytes l <? 0))
        (apply_error "invalid_limits" "agent.limits" "limit values cannot be negative");
  _ ← reject_if ((Limits_MaxConnections l >? 1048576) || (Limits_MaxStreams l >? 1048576) || (Limits_MaxBufferBytes l >? 67108864))
        (apply_error "invalid_limits" "agent.limits" "agent limits exceed the supported maximum");
  _ ← Egress_Validate (Agent_Egress a) "agent.egress";
  _ ← reject_if (Agent_Revision a <? 0)
        (apply_error "invalid_revision" "agent.revision" "revision cannot be negative");
  _ ← Selector_Validate (Agent_GatewaySelector a) "agent.gateway_selector";
  _ ← reject_if ((llen (Agent_Proxies a) >? 1024) || (llen (Agent_Routes a) >? 4096))
        (apply_error "agent_spec_too_large" "agent" "agent spec contains too many entries");
  _ ← for_each proxy_check 0 (Agent_Proxies a) (∅, ∅);
  _ ← for_each route_check 0 (Agent_Routes a) ∅;
  Ok tt.

Definition NodeSpec_Validate (s : NodeSpec) : result unit :=
  _ ← ValidateID (NodeSpec_NodeID s) (TLit "node_spec.node_id");
  _ ← reject_if (negb (String.eqb (NodeSpec_Kind s) NodeSpecGateway) && negb (String.eqb (NodeSpec_Kind s) NodeSpecAgent))
        (apply_error "invalid_spec_kind" "node_spec.kind" "node spec kind must be gateway or agent");
  _ ← reject_if (Bool.eqb (bool_decide (NodeSpec_Gateway s = None)) (bool_decide (NodeSpec_Agent s = None)))
        (apply_error "invalid_node_spec" "node_spec" "node spec must contain exactly one typed configuration");
  _ ← (if String.eqb (NodeSpec_Kind s) NodeSpecGateway then
         match NodeSpec_Gateway s with
         | None => Err (apply_error "invalid_node_spec" "node_spec.gateway" "gateway configuration is required")
         | Some g =>
             _ ← reject_if (negb (String.eqb (Gateway_NodeID g) (NodeSpec_NodeID s)))
                   (apply_error "node_mismatch" "node_spec.gateway.node_id" "gateway spec node id does not match node spec");
             Gateway_Validate g
         end
       else
         match NodeSpec_Agent s with
         | None => Err (apply_error "invalid_node_spec" "node_spec.agent" "agent configuration is required")
         | Some a =>
             _ ← reject_if (negb (String.eqb (Agent_NodeID a) (NodeSpec_NodeID s)))
                   (apply_error "node_mismatch" "node_spec.agent.node_id" "agent spec node id does not match node spec");
             Agent_Validate a
         end);
  reject_if (NodeSpec_Revision s <? 0)
    (apply_error "invalid_revision" "node_spec.revision" "node spec revision cannot be negative").
End Specs.

Section Documents.
Context `{!MapOrder, !SliceSort, !Crypto, !Unicode, !DocumentJSON}.

Definition Service_Validate (s : Service) : result unit :=
  _ ← ValidateID (Service_ID s) (TLit "service.id");
  _ ← ValidateID (Service_AgentID s) (TLit "service.agent_id");
  _ ← reject_if (Service_Revision s <? 0)
        (apply_error "invalid_revision" "service.revision" "revision cannot be negative");
  _ ← reject_if (negb (protocol_known (Service_Protocol s))) (ENew "service protocol must be tcp or udp");
  _ ← Selector_Validate (Service_GatewaySelector s) "service.gateway_selector";
  _ ← reject_if (String.eqb (strings.TrimSpace (Service_LocalTarget s)) "") (ENew "service local_target is required");
  _ ← reject_if ((slen (Service_LocalTarget s) >? 2048) || containsControl (Service_LocalTarget s))
        (ENew "service local_target is invalid");
  _ ← reject_if (String.eqb (strings.TrimSpace (Service_PublicBind s)) "") (ENew "service public_bind is required");
  _ ← reject_if (negb (String.eqb (Service_PublicBind s) (strings.TrimSpace (Service_PublicBind s))))
        (ENew "service public_bind must not contain surrounding whitespace");
  _ ← map_err (fun _ => ENew "service public_bind must be an IP address") (ParseAddr (Service_PublicBind s));
  _ ← (if Service_PublicPort s =? 0 then Ok tt else
         match resolve_tcp_literal (net.JoinHostPort (Service_PublicBind s) (strconv.Itoa (Service_PublicPort s))) with
         | Err err => reject_if (String.eqb (Service_Protocol s) ProtocolTCP) (EWrap "service public bind: %w" [] err)
         | Ok _ => Ok tt
         end);
  map_err (EWrap "service local_target must be host:port: %w" []) (validateHostPort (Service_LocalTarget s)).

Definition assignment_states : list string :=
  [""; AssignmentPending; AssignmentApplied; AssignmentDegraded; AssignmentDraining].

Definition binding_check (binding : Binding) (st : seen_set * seen_set) : result (seen_set * seen_set) :=
  let '(seen_keys, seenBindingServices) := st in
  _ ← ValidateID (Binding_ServiceID binding) (TLit "assignment.binding.service_id");
  _ ← reject_if (negb (protocol_known (Binding_Protocol binding))) (ENew "assignment binding protocol must be tcp or udp");
  _ ← reject_if (Binding_Port binding =? 0) (ENew "assignment binding port must be non-zero");
  _ ← reject_if (negb (String.eqb (Binding_Bind binding) (strings.TrimSpace (Binding_Bind binding))))
        (ENew "assignment binding bind must not contain surrounding whitespace");
  _ ← map_err (fun _ => ENew "assignment binding bind must be an IP address") (ParseAddr (Binding_Bind binding));
  _ ← reject_if (seen (Binding_ServiceID binding) seenBindingServices)
        (ENew "assignment contains multiple bindings for one service");
  let key := endpoint_key (Binding_Protocol binding) (normalizedIP (Binding_Bind binding)) (Binding_Port binding) in
  _ ← reject_if (seen key seen_keys) (ENew "assignment contains duplicate public bindings");
  Ok ({[key]} ∪ seen_keys, {[Binding_ServiceID binding]} ∪ seenBindingServices).

Definition Assignment_Validate (a : Assignment) : result unit :=
  _ ← ValidateID (Assignment_ID a) (TLit "assignment.id");
  _ ← ValidateID (Assignment_GatewayID a) (TLit "assignment.gateway_id");
  _ ← ValidateID (Assignment_AgentID a) (TLit "assignment.agent_id");
  _ ← reject_if (Assignment_Generation a =? 0) (ENew "assignment generation must be positive");
  _ ← reject_if (negb (in_strings (Assignment_State a) assignment_states))
        (apply_error "invalid_assignment_state" "assignment.state" "assignment state is invalid");
  _ ← (if String.eqb (Assignment_PublicEndpoint a) "" then Ok tt else
         map_err (fun err => EApply "invalid_endpoint" (TLit "assignment.public_endpoint") (TError err))
           (validateEndpoint (Assignment_PublicEndpoint a)));
  _ ← Obfuscation_Validate (Assignment_Obfuscation a) "assignment.obfuscation";
  _ ← reject_if ((llen (Assignment_ServiceIDs a) >? maxAssignmentServices) || (llen (Assignment_Bindings a) >? maxAssignmentBindings))
        (apply_error "assignment_too_large" "" "assignment contains too many services or bindings");
  _ ← for_each (fun _ serviceID (serviceIDs : seen_set) =>
        _ ← ValidateID serviceID (TLit "assignment.service_ids");
        _ ← reject_if (seen serviceID serviceIDs) (ENew "assignment contains duplicate service ids");
        Ok ({[serviceID]} ∪ serviceIDs)) 0 (Assignment_ServiceIDs a) ∅;
  _ ← for_each (fun _ => binding_check) 0 (Assignment_Bindings a) (∅, ∅);
  Ok tt.

(** The indexes [Validate] builds over the services of a snapshot. *)
Record ServiceIndex := MkServiceIndex {
  serviceAgents : gmap string string;
  serviceProtocols : gmap string string;
  serviceBinds : gmap string string;
  servicePorts : gmap string Z
}.

Definition service_check (s : DesiredSnapshot) (i : Z) (service : Service) (ix : ServiceIndex) : result ServiceIndex :=
  _ ← map_err (fun err => EApply "invalid_service" (TFmt "services[%d]" [AInt i]) (TError err)) (Service_Validate service);
  let id := Service_ID service in
  _ ← reject_if (bool_decide (is_Some (serviceAgents ix !! id)))
        (EApply "duplicate_service" (TFmt "services[%d].id" [AInt i]) (TLit "service id is duplicated"));
  _ ← reject_if (bool_decide (is_Some (Snapshot_Agent s)) && negb (String.eqb (Service_AgentID service) (Snapshot_NodeID s)))
        (EApply "node_mismatch" (TFmt "services[%d].agent_id" [AInt i])
           (TLit "agent snapshot may only contain services owned by its node"));
  Ok (MkServiceIndex (<[id := Service_AgentID service]> (serviceAgents ix))
        (<[id := Service_Protocol service]> (serviceProtocols ix))
        (<[id := normalizedIP (Service_PublicBind service)]> (serviceBinds ix))
        (<[id := Service_PublicPort service]> (servicePorts ix))).

(** The indexes over the assignments: ids seen, the assignment that owns each
    service and the owner of each public binding (["listener"] for a listener). *)
Record AssignmentIndex := MkAssignmentIndex {
  assignmentIDs : gset string;
  assignedServices : gmap string string;
  assignedBindings : gmap string string
}.

(** [previous, exists := m\[k\]; exists && previous != id]. *)
Definition owned_by_other (m : gmap string string) (k id : string) : bool :=
  match m !! k with Some previous => negb (String.eqb previous id) | None => false end.

Definition assigned_service_check (ix : ServiceIndex) (i : Z) (a : Assignment) (serviceID : string)
    (st : seen_set * gmap string string) : result (seen_set * gmap string string) :=
  let '(services, assigned) := st in
  let fail code message := EApply code (TFmt "assignments[%d].service_ids" [AInt i]) message in
  match serviceAgents ix !! serviceID with
  | None => Err (fail "unknown_service" (TFmt "service %q is not present in snapshot" [AStr serviceID]))
  | Some serviceAgent =>
      _ ← reject_if (negb (String.eqb serviceAgent (Assignment_AgentID a)))
            (fail "service_agent_mismatch" (TFmt "service %q belongs to another agent" [AStr serviceID]));
      _ ← reject_if (owned_by_other assigned serviceID (Assignment_ID a))
            (fail "resource_conflict" (TFmt "service %q is assigned more than once" [AStr serviceID]));
      Ok ({[serviceID]} ∪ services, <[serviceID := Assignment_ID a]> assigned)
  end.

Definition assigned_binding_check (ix : ServiceIndex) (i : Z) (a : Assignment) (services : seen_set)
    (binding : Binding) (assigned : gmap string string) : result (gmap string string) :=
  let id := Binding_ServiceID binding in
  let fail code message := EApply code (TFmt "assignments[%d].bindings" [AInt i]) message in
  _ ← reject_if (negb (seen id services))
        (fail "unknown_service" (TFmt "binding references service %q outside service_ids" [AStr id]));
  _ ← reject_if (negb (String.eqb (default "" (serviceProtocols ix !! id)) (Binding_Protocol binding)))
        (fail "protocol_mismatch" (TFmt "binding protocol for service %q does not match the service" [AStr id]));
  _ ← reject_if (negb (String.eqb (default "" (serviceBinds ix !! id)) (normalizedIP (Binding_Bind binding))))
        (fail "bind_mismatch" (TFmt "binding address for service %q does not match the service public bind" [AStr id]));
  let requestedPort := default 0 (servicePorts ix !! id) in
  _ ← reject_if (negb (requestedPort =? 0) && negb (requestedPort =? Binding_Port binding))
        (fail "port_mismatch" (TFmt "binding port for service %q does not match the service public port" [AStr id]));
  let key := endpoint_key (Binding_Protocol binding) (normalizedIP (Binding_Bind binding)) (Binding_Port binding) in
  _ ← reject_if (owned_by_other assigned key (Assignment_ID a))
        (fail "resource_conflict" (TLit "public binding is duplicated across assignments"));
  Ok (<[key := Assignment_ID a]> assigned).

Definition assignment_check (s : DesiredSnapshot) (ix : ServiceIndex) (i : Z) (a : Assignment)
    (st : AssignmentIndex) : result AssignmentIndex :=
  let fail code fmt message := EApply code (TFmt fmt [AInt i]) (TLit message) in
  _ ← map_err (fun err => EApply "invalid_assignment" (TFmt "assignments[%d]" [AInt i]) (TError err)) (Assignment_Validate a);
  _ ← reject_if (seen (Assignment_ID a) (assignmentIDs st))
        (fail "duplicate_assignment" "assignments[%d].id" "assignment id is duplicated");
  _ ← reject_if (Assignment_Generation a >? Snapshot_Generation s)
        (fail "generation_mismatch" "assignments[%d].generation" "assignment generation cannot be newer than snapshot generation");
  _ ← reject_if (bool_decide (is_Some (Snapshot_Gateway s)) && negb (String.eqb (Assignment_GatewayID a) (Snapshot_NodeID s)))
        (fail "node_mismatch" "assignments[%d].gateway_id" "gateway snapshot contains an assignment for another gateway");
  _ ← reject_if (bool_decide (is_Some (Snapshot_Agent s)) && negb (String.eqb (Assignment_AgentID a) (Snapshot_NodeID s)))
        (fail "node_mismatch" "assignments[%d].agent_id" "agent snapshot contains an assignment for another agent");
  '(services, assigned) ← for_each (fun _ => assigned_service_check ix i a) 0 (Assignment_ServiceIDs a) (∅, assignedServices st);
  bindings ← for_each (fun _ => assigned_binding_check ix i a services) 0 (Assignment_Bindings a) (assignedBindings st);
  Ok (MkAssignmentIndex ({[Assignment_ID a]} ∪ assignmentIDs st) assigned bindings).

(** Gateway listeners occupy the namespace of the assignment bindings. *)
Definition listener_seed (s : DesiredSnapshot) : gmap string string :=
  match Snapshot_Gateway s with
  | None => ∅
  | Some g => foldl (fun m l =>
      <[endpoint_key (Listener_Protocol l) (normalizedIP (Listener_Bind l)) (Listener_Port l) := "listener"]> m)
      ∅ (Gateway_Listeners g)
  end.

Definition Snapshot_Validate (s : DesiredSnapshot) : result unit :=
  _ ← reject_if (negb (Snapshot_SchemaVersion s =? CurrentControlProtocolVersion))
        (EApply "unknown_schema" (TLit "schema_version") (TFmt "schema version %d is unsupported" [AInt (Snapshot_SchemaVersion s)]));
  _ ← ValidateID (Snapshot_NodeID s) (TLit "node_id");
  _ ← reject_if (Snapshot_Generation s =? 0) (apply_error "invalid_generation" "generation" "generation must be positive");
  _ ← reject_if ((llen (Snapshot_Services s) >? maxSnapshotServices) || (llen (Snapshot_Assignments s) >? maxSnapshotAssignments))
        (apply_error "snapshot_too_large" "" "snapshot contains too many resources");
  _ ← reject_if (bool_decide (is_Some (Snapshot_Gateway s)) && bool_decide (is_Some (Snapshot_Agent s)))
        (apply_error "invalid_node_spec" "" "snapshot must contain at most one gateway or agent spec");
  _ ← reject_if (bool_decide (Snapshot_Gateway s = None) && bool_decide (Snapshot_Agent s = None)
                 && ((llen (Snapshot_Services s) >? 0) || (llen (Snapshot_Assignments s) >? 0)))
        (apply_error "invalid_node_spec" "" "an unconfigured snapshot cannot contain services or assignments");
  _ ← (match Snapshot_Gateway s with
       | None => Ok tt
       | Some g =>
           _ ← reject_if (negb (String.eqb (Gateway_NodeID g) (Snapshot_NodeID s)))
                 (apply_error "node_mismatch" "gateway.node_id" "gateway node id does not match snapshot");
           Gateway_Validate g
       end);
  _ ← (match Snapshot_Agent s with
       | None => Ok tt
       | Some a =>
           _ ← reject_if (negb (String.eqb (Agent_NodeID a) (Snapshot_NodeID s)))
                 (apply_error "node_mismatch" "agent.node_id" "agent node id does not match snapshot");
           Agent_Validate a
       end);
  ix ← for_each (service_check s) 0 (Snapshot_Services s) (MkServiceIndex ∅ ∅ ∅ ∅);
  _ ← for_each (assignment_check s ix) 0 (Snapshot_Assignments s) (MkAssignmentIndex ∅ ∅ (listener_seed s));
  if String.eqb (Snapshot_Checksum s) "" then Ok tt else
  checksum ← map_err (fun err => EApply "checksum_error" (TLit "") (TError err)) (ComputeChecksum s);
  reject_if (negb (strings.equal_fold_hex checksum (Snapshot_Checksum s)))
    (apply_error "checksum_mismatch" "checksum" "snapshot checksum does not match its content").

(** [WithChecksum]. *)
Definition WithChecksum (s : DesiredSnapshot) : result DesiredSnapshot :=
  let s := set_checksum (Normalize s) "" in
  _ ← Snapshot_Validate s;
  checksum ← ComputeChecksum s;
  Ok (set_checksum s checksum).
End Documents.
