(* ===== verification/Samples.v ===== *)
(** * Concrete parameters and resources for the witnesses

    One instance of each class that stands for code outside the repository, and a
    small valid gateway snapshot. *)
From S2P Require Import Prelude GoStd GoNet Domain Checksum Validation Snapshot.

(** A 32-byte digest of the length and the byte sum. *)
Definition toy_sha256 (l : list ascii) : list ascii :=
  let total := fold_left (fun acc c => acc + byte_val c) l (llen l) in
  ascii_of_N (Z.to_N (total mod 256)) :: replicate 31 "000"%char.

Lemma toy_sha256_length l : List.length (toy_sha256 l) = 32%nat.
Proof. reflexivity. Qed.

Definition toy_crypto : Crypto := {| sha256 := toy_sha256; sha256_length := toy_sha256_length |}.
Definition ascii_unicode : Unicode := {| to_lower := strings.lower_bytes; to_lower_ascii := fun s _ => eq_refl |}.

(** A document is rendered by the ids of its resources. *)
Definition toy_json : DocumentJSON := {|
  marshal_document := fun d =>
    Ok (bytes_of (Document_NodeID d +:+ String.concat "," (CService_ID <$> Document_Services d)
                  +:+ String.concat "," (CAssignment_ID <$> Document_Assignments d)))
|}.

Definition go_order : MapOrder := {| range_order := fun A l => l; range_order_perm := fun A l => Permutation_refl l |}.

Definition sample_gateway : GatewaySpec :=
  MkGatewaySpec "gw-1" ["gw.example.org:443"] [MkListener "tcp" "0.0.0.0" 443 true] None (MkCapacity 8 64 16)
    (MkPortPool [MkPortRange 20000 20010] []) (MkTransportPolicy "asterferry-data/1" 4 0 0 0 0)
    default_Obfuscation default_Egress 1.

Definition sample_service (id : string) (port : Z) : Service :=
  MkService id "agent-1" "tcp" "127.0.0.1:80" "0.0.0.0" port (MkSelector None) true 1 0.

Definition sample_assignment (id : string) (ids : list string) (bindings : list Binding) : Assignment :=
  MkAssignment id "gw-1" "agent-1" ids bindings 1 AssignmentApplied "" default_Obfuscation 1 0.

Definition sample_snapshot (generation : Z) : DesiredSnapshot :=
  MkSnapshot 1 "gw-1" generation "" (Some sample_gateway) None [sample_service "web" 0; sample_service "api" 20001]
    [sample_assignment "asg-1" ["web"; "api"] [MkBinding "web" "tcp" "0.0.0.0" 20000; MkBinding "api" "tcp" "0.0.0.0" 20001]].

(** The sample with its checksum filled in. *)
Definition sealed (s : DesiredSnapshot) : DesiredSnapshot :=
  match @WithChecksum go_order insertion_slice_sort toy_crypto ascii_unicode toy_json s with Ok s' => s' | Err _ => s end.

Example sample_is_valid :
  @Snapshot_Validate go_order insertion_slice_sort toy_crypto ascii_unicode toy_json (sealed (sample_snapshot 1)) = Ok tt.
Proof. vm_compute. reflexivity. Qed.
