(* ===== verification/SnapshotFacts.v ===== *)
(** * What a validated snapshot guarantees

    A snapshot that [Validate] accepts gives every public endpoint and every
    service to one assignment only; its checksum ignores the order of resources
    and the control-plane metadata; [WithChecksum] produces valid snapshots. *)
From S2P Require Import Prelude GoStd GoNet Domain Checksum Validation Snapshot Samples.

(** ** Identifiers *)
Section Identifiers.
Lemma is_alnum_below c : is_alnum c = true -> byte_val c < 128 /\ strings.space1 c = false.
Proof.
  unfold is_alnum, is_digit, is_lower, is_upper, strings.space1, in_byte_range. intros H.
  assert (48 <= byte_val c <= 122) as Hr.
  { apply orb_true_iff in H as [H|H]; [apply orb_true_iff in H as [H|H] |]; bool_facts; lia. }
  split; [lia|]. apply orb_false_iff. split; [apply andb_false_iff; right; lia | lia].
Qed.

Lemma space2_low a b : byte_val a < 128 \/ byte_val b < 128 -> strings.space2 a b = false.
Proof.
  unfold strings.space2. intros H. apply andb_false_iff.
  destruct (Z.eqb_spec (byte_val a) 194); [right | by left]. apply orb_false_iff. split; lia.
Qed.

Lemma space3_low a b c : byte_val a < 128 \/ byte_val c < 128 -> strings.space3 a b c = false.
Proof.
  unfold strings.space3. intros H.
  destruct (byte_val a) as [|p|p] eqn:Ea; try done; do 8 (destruct p as [p|p|]; try done); try lia;
    destruct (byte_val b) as [|q|q]; try done; do 8 (destruct q as [q|q|]; try done);
    destruct H as [H|H]; try lia;
    try (repeat match goal with |- context [?x =? ?y] => replace (x =? y) with false by lia end;
         replace (128 <=? byte_val c) with false by lia; done);
    destruct (byte_val c) as [|r|r]; try done; do 8 (destruct r as [r|r|]; try done); lia.
Qed.

(** An ASCII byte that is not white space. *)
Definition solid (c : ascii) : Prop := byte_val c < 128 /\ strings.space1 c = false.

Lemma trim_left_solid c l : solid c -> strings.trim_left (c :: l) = c :: l.
Proof.
  intros [Hlow Hs]. cbn [strings.trim_left]. rewrite Hs.
  destruct l as [|b [|d l]]; rewrite ?space2_low, ?space3_low by auto; done.
Qed.

Lemma trim_reversed_solid c l : solid c -> strings.trim_reversed (c :: l) = c :: l.
Proof.
  intros [Hlow Hs]. cbn [strings.trim_reversed]. rewrite Hs.
  destruct l as [|b [|d l]]; rewrite ?space2_low, ?space3_low by auto; done.
Qed.

Lemma TrimSpace_solid v c d :
  head (bytes_of v) = Some c -> last (bytes_of v) = Some d -> solid c -> solid d -> strings.TrimSpace v = v.
Proof.
  intros Hh Hl Hc Hd. unfold strings.TrimSpace. destruct (bytes_of v) as [|c' l] eqn:E; [done|].
  injection Hh as ->. rewrite trim_left_solid by done.
  assert (exists r, rev (c :: l) = d :: r) as [r Hr].
  { rewrite <- (rev_involutive (c :: l)) in Hl.
    destruct (rev (c :: l)) as [|x r]; [done|]. cbn [rev] in Hl. rewrite last_snoc in Hl. injection Hl as ->. by exists r. }
  rewrite Hr, trim_reversed_solid by done. rewrite <- Hr, rev_involutive, <- E.
  apply string_of_list_ascii_of_string.
Qed.

Lemma TrimSpace_all_solid v : Forall solid (bytes_of v) -> strings.TrimSpace v = v.
Proof.
  intros H. destruct (bytes_of v) as [|c l] eqn:E.
  { apply (f_equal of_bytes) in E. rewrite string_of_list_ascii_of_string in E. by subst. }
  destruct (last (c :: l)) as [d|] eqn:Hd; [| by apply last_None in Hd].
  apply (TrimSpace_solid v c d); rewrite ?E; [done | done | by apply Forall_cons in H as [? _] |].
  rewrite last_lookup in Hd. rewrite Forall_lookup in H. by eapply H.
Qed.
End Identifiers.

Lemma id_punct_not_alnum c : id_punct c = true -> is_alnum c = false.
Proof.
  unfold id_punct. rewrite !orb_true_iff. intros [[H|H]|H]; apply Ascii.eqb_eq in H as ->; reflexivity.
Qed.

Lemma length_bytes_of s : List.length (bytes_of s) = String.length s.
Proof. induction s; cbn; congruence. Qed.

(** ** Bytes of texts *)

Lemma slen_bytes s : slen s = Z.of_nat (List.length (bytes_of s)).
Proof. by rewrite length_bytes_of. Qed.

Lemma hex_nibble_alnum z : 0 <= z < 16 -> is_alnum (hex_nibble z) = true.
Proof.
  intros Hz. assert (forallb (fun n => is_alnum (hex_nibble (Z.of_nat n))) (seq 0 16) = true) as H by (vm_compute; reflexivity).
  rewrite forallb_forall in H. specialize (H (Z.to_nat z)). rewrite Z2Nat.id in H by lia. apply H, in_seq. lia.
Qed.

Lemma hex_encode_alnum l : Forall (fun c => is_alnum c = true) (bytes_of (hex_encode l)).
Proof.
  unfold hex_encode. rewrite bytes_of_of_bytes. apply Forall_forall. intros c Hc.
  apply list_elem_of_In, in_flat_map in Hc as (x & _ & Hc).
  assert (0 <= byte_val x < 256) as Hx.
  { unfold byte_val. pose proof (N_ascii_bounded x). lia. }
  pose proof (Z.mod_pos_bound (byte_val x) 16 ltac:(lia)). assert (0 <= byte_val x / 16 < 16) by (split; [apply Z.div_pos | apply Z.div_lt_upper_bound]; lia).
  destruct Hc as [<-|[<-|[]]]; by apply hex_nibble_alnum.
Qed.

Lemma hex_encode_length l : List.length (bytes_of (hex_encode l)) = (2 * List.length l)%nat.
Proof.
  unfold hex_encode. rewrite bytes_of_of_bytes. induction l as [|c l IH]; [done|]. cbn [flat_map List.length app].
  rewrite IH. lia.
Qed.

(** A text of 1 to 128 ASCII letters, digits and punctuation with a letter or
    digit at both ends. *)
Definition valid_id (value : string) : Prop :=
  1 <= slen value <= 128
  /\ Forall (fun c => is_alnum c = true \/ id_punct c = true) (bytes_of value)
  /\ (exists c, head (bytes_of value) = Some c /\ is_alnum c = true)
  /\ (exists c, last (bytes_of value) = Some c /\ is_alnum c = true).

Lemma ValidateID_iff value path : ValidateID value path = Ok tt <-> valid_id value.
Proof.
  unfold valid_id.
  set (good := fun c => is_alnum c = true \/ id_punct c = true).
  assert (Hbody : forall (i : nat) c e, reject_if (negb (id_punct c || is_lower c || is_upper c || is_digit c)
            || (Z.of_nat i =? 0) && id_punct c) e = Ok tt <-> good c /\ (i = 0%nat -> is_alnum c = true)).
  { intros i c e. rewrite reject_if_Ok. unfold good. pose proof (id_punct_not_alnum c) as Hp.
    assert (id_punct c || is_lower c || is_upper c || is_digit c = id_punct c || is_alnum c) as ->
      by (unfold is_alnum; destruct (id_punct c), (is_lower c), (is_upper c), (is_digit c); done).
    destruct (id_punct c) eqn:E1, (is_alnum c) eqn:E2, (Z.eqb_spec (Z.of_nat i) 0); cbn;
      try (specialize (Hp eq_refl); congruence); split; intuition (try congruence; try lia). }
  unfold ValidateID. cbv zeta.
  destruct (String.eqb_spec (strings.TrimSpace value) value) as [Htrim|Htrim]; cbn [negb reject_if mbind result_bind].
  2: { split; [done|]. intros (_ & _ & (c & Hc & Hca) & (d & Hd & Hda)). exfalso. by apply Htrim, (TrimSpace_solid _ c d); try apply is_alnum_below. }
  rewrite Htrim, Z.gtb_ltb.
  destruct (Z.ltb_spec (slen value) 1), (Z.ltb_spec 128 (slen value)); cbn [orb reject_if mbind result_bind];
    try (split; [done | lia]).
  assert (bytes_of value <> []) as Hne by (intros E; pose proof (length_bytes_of value) as L; rewrite E in L; cbn in L; lia).
  match goal with |- context [check_each ?b ?l] => pose proof (check_each_iff b l) as Hall; destruct (check_each b l) as [[]|err] end;
    cbn [mbind result_bind].
  - assert (forall i c, bytes_of value !! i = Some c -> good c /\ (i = 0%nat -> is_alnum c = true)) as Hgood.
    { intros i c Hi. apply (Hbody i c (EApply "invalid_id" path (TLit "id contains an invalid character"))).
      by apply (proj1 Hall eq_refl). }
    destruct (last (bytes_of value)) as [d|] eqn:Hd; [| by apply last_None in Hd].
    rewrite reject_if_Ok. split.
    + intros Hp. split_and!; [lia | lia | | |].
      * apply Forall_lookup. intros i c Hi. by apply (Hgood i).
      * destruct (bytes_of value) as [|c l] eqn:E; [done|]. exists c. split; [done|]. by apply (Hgood 0%nat c).
      * exists d. split; [done|]. rewrite last_lookup in Hd. destruct (Hgood _ _ Hd) as [[?|?] _]; congruence.
    + intros (_ & _ & _ & (d' & [= <-] & Hda)). destruct (id_punct d) eqn:E; [| done].
      by rewrite (id_punct_not_alnum d E) in Hda.
  - split; [done|]. intros (_ & Hf & (c & Hc & Hca) & _). exfalso. enough (Err err = Ok tt) by done.
    apply Hall. intros i x Hi. apply Hbody. rewrite Forall_lookup in Hf. split; [by apply (Hf i)|].
    intros ->. destruct (bytes_of value); [done|]. cbn in *. congruence.
Qed.

(** [ValidateID] accepts exactly the texts of 1 to 128 bytes made of ASCII
    letters, digits and the punctuation [-], [_], [.], that start and end with a
    letter or digit, and an accepted text stays accepted when it is trimmed. *)
Theorem ValidateID_spec value path :
  (ValidateID value path = Ok tt <->
   1 <= slen value <= 128
   /\ Forall (fun c => is_alnum c = true \/ id_punct c = true) (bytes_of value)
   /\ (exists c, head (bytes_of value) = Some c /\ is_alnum c = true)
   /\ (exists c, last (bytes_of value) = Some c /\ is_alnum c = true))
  /\ (ValidateID value path = Ok tt -> strings.TrimSpace value = value).
Proof.
  split; [apply ValidateID_iff|]. unfold ValidateID. cbv zeta. intros H.
  apply bind_Ok in H as ([] & H%reject_if_Ok & _). by bool_facts.
Qed.

(** ** Port pools *)
Definition range_ok (r : PortRange) : Prop := PortRange_Min r <> 0 /\ PortRange_Min r <= PortRange_Max r.
Definition ranges_apart (a b : PortRange) : Prop := PortRange_Max a < PortRange_Min b \/ PortRange_Max b < PortRange_Min a.

(** Every range is valid and no two share a port. *)
Definition pool_ok (l : list PortRange) : Prop :=
  Forall range_ok l /\ forall i j a b, i <> j -> l !! i = Some a -> l !! j = Some b -> ranges_apart a b.

Section Pools.
Lemma StronglySorted_perm {A} (R : A -> A -> Prop) l1 l2 :
  (forall a b, R a b -> R b a) -> l1 ≡ₚ l2 -> StronglySorted R l1 -> StronglySorted R l2.
Proof.
  intros Hsym Hp. induction Hp as [|x l l' Hp IH|x y l|? ? ? _ IH1 _ IH2]; intros H; [done | | | by auto].
  - apply StronglySorted_inv in H as [H1 H2]. constructor; [by auto | by rewrite <- Hp].
  - apply StronglySorted_inv in H as [H1 H2]. apply StronglySorted_inv in H1 as [H1 H3].
    apply Forall_cons in H2 as [H2 H4]. constructor; [by constructor | constructor; [by apply Hsym | done]].
Qed.

Lemma StronglySorted_pairs {A} (R : A -> A -> Prop) l :
  (forall a b, R a b -> R b a) ->
  StronglySorted R l <-> forall i j a b, i <> j -> l !! i = Some a -> l !! j = Some b -> R a b.
Proof.
  intros Hsym. split.
  - intros H. induction H as [|x l _ IH Hx]; intros i j a b Hij Hi Hj; [done|]. rewrite Forall_lookup in Hx.
    destruct i as [|i], j as [|j]; cbn in Hi, Hj; simplify_eq; [by eapply Hx | by eapply Hsym, Hx | apply (IH i j); [congruence | done | done]].
  - induction l as [|x l IH]; intros H; [constructor|]. constructor.
    + apply IH. intros i j a b Hij Hi Hj. by apply (H (S i) (S j)); [congruence | |].
    + apply Forall_lookup. intros j b Hj. by apply (H 0%nat (S j)).
Qed.

Lemma range_less_weak : weak_order range_less.
Proof.
  unfold weak_order, range_less. split_and!.
  - intros x. rewrite Z.eqb_refl. cbn. lia.
  - intros x y z. repeat case_match; lia.
  - intros x y z. repeat case_match; lia.
Qed.

Lemma adjacent_overlap_spec l :
  StronglySorted (not_after range_less) l -> Forall range_ok l ->
  adjacent_overlap l = false <-> StronglySorted ranges_apart l.
Proof.
  intros Hs Hv. induction l as [|a l IH]; [split; [constructor | done]|].
  apply StronglySorted_inv in Hs as [Hs Ha]. apply Forall_cons in Hv as [Hva Hv]. specialize (IH Hs Hv).
  assert (Hmin : forall b, b ∈ l -> PortRange_Min a <= PortRange_Min b).
  { intros b Hb. rewrite Forall_forall in Ha. specialize (Ha b Hb). unfold not_after, range_less in Ha.
    destruct (Z.eqb_spec (PortRange_Min b) (PortRange_Min a)); cbn in Ha; lia. }
  destruct l as [|b l].
  { split; [intros _; repeat constructor | done]. }
  change (adjacent_overlap (a :: b :: l)) with ((PortRange_Min b <=? PortRange_Max a) || adjacent_overlap (b :: l)).
  rewrite orb_false_iff, IH, Z.leb_gt. split.
  - intros [Hab Hl]. constructor; [done|]. apply Forall_forall. intros c Hc. left.
    apply elem_of_cons in Hc as [->|Hc]; [lia|].
    apply StronglySorted_inv in Hs as [_ Hb]. rewrite Forall_forall in Hb. specialize (Hb c Hc).
    unfold not_after, range_less in Hb. destruct (Z.eqb_spec (PortRange_Min c) (PortRange_Min b)); cbn in Hb; lia.
  - intros H. apply StronglySorted_inv in H as [H1 H2]. split; [| done].
    apply Forall_cons in H2 as [H2 _]. apply Forall_cons in Hv as [[_ Hvb] _]. specialize (Hmin b ltac:(left)).
    unfold ranges_apart in H2. lia.
Qed.

Context `{MO : !MapOrder, SS : !SliceSort}.

Lemma pool_check_spec e1 e2 ranges :
  (_ ← check_each (fun _ r => reject_if ((PortRange_Min r =? 0) || (PortRange_Max r <? PortRange_Min r)) e1) ranges;
   reject_if (adjacent_overlap (sort_slice range_less ranges)) e2) = Ok tt <-> pool_ok ranges.
Proof.
  unfold pool_ok. rewrite <- (StronglySorted_pairs ranges_apart) by (unfold ranges_apart; tauto).
  assert (check_each (fun _ r => reject_if ((PortRange_Min r =? 0) || (PortRange_Max r <? PortRange_Min r)) e1) ranges = Ok tt
          <-> Forall range_ok ranges) as Hc.
  { rewrite (check_each_Forall (fun r => reject_if ((PortRange_Min r =? 0) || (PortRange_Max r <? PortRange_Min r)) e1)).
    apply Forall_iff. intros r. unfold range_ok. rewrite reject_if_Ok, orb_false_iff. lia. }
  rewrite <- Hc. destruct (check_each _ ranges) as [[]|]; cbn [mbind result_bind]; [| split; [done | intros [[=] _]]].
  assert (Forall range_ok ranges) as Hv by (by apply Hc). rewrite reject_if_Ok.
  rewrite adjacent_overlap_spec by (first [apply sort_slice_sorted, range_less_weak | by rewrite sort_slice_perm]).
  assert (forall a b, ranges_apart a b -> ranges_apart b a) as Hsym by (unfold ranges_apart; tauto).
  split; [intros H; split; [done|] | intros [_ H]]; eapply StronglySorted_perm; try exact H; try done;
    by rewrite sort_slice_perm.
Qed.

(** Whatever order the two pools are visited in and however the ranges are
    sorted, [PortPool.Validate] accepts a pool exactly when every range is
    non-empty and non-zero and no two ranges of a protocol share a port. *)
Theorem PortPool_Validate_spec p :
  PortPool_Validate p = Ok tt <-> pool_ok (PortPool_TCP p) /\ pool_ok (PortPool_UDP p).
Proof.
  unfold PortPool_Validate. rewrite (check_each_Forall (fun '(name, ranges) => _ ← check_each _ ranges; reject_if _ _)).
  rewrite range_order_perm, !Forall_cons, !pool_check_spec. split; [tauto | intros [? ?]; split_and!; try done; constructor].
Qed.
End Pools.

(** ** Indexes *)
Section Indexes.
Context `{MO : !MapOrder, SS : !SliceSort, CR : !Crypto, UN : !Unicode, DJ : !DocumentJSON}.
Implicit Types (s : DesiredSnapshot) (a : Assignment).

Definition binding_key (b : Binding) : string :=
  endpoint_key (Binding_Protocol b) (normalizedIP (Binding_Bind b)) (Binding_Port b).
Definition listener_key (l : Listener) : string :=
  endpoint_key (Listener_Protocol l) (normalizedIP (Listener_Bind l)) (Listener_Port l).

(** The agent of each service seen, each id once. *)
Definition services_indexed (done : list Service) (ix : ServiceIndex) : Prop :=
  NoDup (Service_ID <$> done)
  /\ forall id agent, serviceAgents ix !! id = Some agent ->
       exists sv, sv ∈ done /\ Service_ID sv = id /\ Service_AgentID sv = agent.

Lemma service_loop s ix :
  for_each (service_check s) 0 (Snapshot_Services s) (MkServiceIndex ∅ ∅ ∅ ∅) = Ok ix ->
  services_indexed (Snapshot_Services s) ix.
Proof.
  enough (forall l ix, for_each (service_check s) 0 l (MkServiceIndex ∅ ∅ ∅ ∅) = Ok ix ->
    services_indexed l ix /\ forall sv, sv ∈ l -> is_Some (serviceAgents ix !! Service_ID sv)) as H
    by (intros Hr; by apply H).
  intros l ix' Hr.
  refine (for_each_inv (service_check s) (fun done ix => services_indexed done ix
    /\ forall sv, sv ∈ done -> is_Some (serviceAgents ix !! Service_ID sv)) _ l [] 0 _ ix' _ Hr).
  2: { split; [split; [constructor |] |]; [intros ? ? Hl; cbn in Hl; by rewrite lookup_empty in Hl | by intros ? ?%elem_of_nil]. }
  intros done i sv ix1 ix2 [[Hnd Hag] Hall] Hb. unfold service_check in Hb.
  apply bind_Ok in Hb as (? & _ & Hb). apply bind_Ok in Hb as (? & Hnew & Hb). apply bind_Ok in Hb as (? & _ & Hb).
  apply reject_if_Ok in Hnew. bool_facts. injection Hb as <-. split; [split|].
  - rewrite fmap_app. apply NoDup_app. split_and!; [done | | apply NoDup_singleton].
    intros id (sv' & -> & Hin)%list_elem_of_fmap Hx%list_elem_of_singleton. apply Hnew. rewrite <- Hx. by apply Hall.
  - cbn. intros id agent [[<- <-]|[_ Hl]]%lookup_insert_Some.
    + exists sv. split; [set_solver | done].
    + destruct (Hag _ _ Hl) as (sv' & ? & ? & ?). exists sv'. split; [set_solver | done].
  - cbn. intros sv' [Hin| ->%list_elem_of_singleton]%elem_of_app; [| rewrite lookup_insert_eq; by eexists].
    destruct (decide (Service_ID sv' = Service_ID sv)) as [->|]; [rewrite lookup_insert_eq; by eexists |].
    rewrite lookup_insert_ne by done. by apply Hall.
Qed.

(** Claims: [m] gives [k] to [id]; nobody else's claim is overwritten. *)
Lemma claim_insert (m : gmap string string) k id k' x :
  owned_by_other m k id = false -> m !! k' = Some x -> (<[k := id]> m) !! k' = Some x.
Proof.
  unfold owned_by_other. intros Ho Hk. destruct (decide (k = k')) as [->|Hne]; [| by rewrite lookup_insert_ne].
  rewrite Hk in Ho. bool_facts. subst. apply lookup_insert_eq.
Qed.

Lemma assigned_service_loop ix i a l j st st' :
  for_each (fun _ => assigned_service_check ix i a) j l st = Ok st' ->
  (forall k x, st.2 !! k = Some x -> st'.2 !! k = Some x)
  /\ Forall (fun id => st'.2 !! id = Some (Assignment_ID a) /\ serviceAgents ix !! id = Some (Assignment_AgentID a)) l.
Proof.
  revert j st. induction l as [|id l IH]; intros j st H; cbn [for_each] in H.
  { simplify_eq. split; [done | constructor]. }
  apply bind_Ok in H as (st1 & Hb & H). destruct (IH _ _ H) as [Hk Hf]. destruct st as [sv m].
  unfold assigned_service_check in Hb. destruct (serviceAgents ix !! id) as [agent|] eqn:Hag; [| done].
  apply bind_Ok in Hb as ([] & H1 & Hb). apply bind_Ok in Hb as ([] & H2 & Hb). apply reject_if_Ok in H1, H2. bool_facts.
  injection Hb as <-. cbn [snd] in *. split.
  - intros k x Hx. apply Hk. by apply claim_insert.
  - constructor; [| done]. split; [apply Hk, lookup_insert_eq | congruence].
Qed.

Lemma assigned_binding_loop ix i a svcs l j m m' :
  for_each (fun _ => assigned_binding_check ix i a svcs) j l m = Ok m' ->
  (forall k x, m !! k = Some x -> m' !! k = Some x)
  /\ Forall (fun b => m' !! binding_key b = Some (Assignment_ID a)) l.
Proof.
  revert j m. induction l as [|b l IH]; intros j m H; cbn [for_each] in H.
  { simplify_eq. split; [done | constructor]. }
  apply bind_Ok in H as (m1 & Hb & H). destruct (IH _ _ H) as [Hk Hf].
  unfold assigned_binding_check in Hb. do 5 (apply bind_Ok in Hb as ([] & ?H & Hb)).
  apply reject_if_Ok in H4. injection Hb as <-. split.
  - intros k x Hx. apply Hk. by apply claim_insert.
  - constructor; [| done]. apply Hk, lookup_insert_eq.
Qed.

(** What holds of the assignments visited so far. *)
Record assignments_indexed s (ix : ServiceIndex) (done : list Assignment) (st : AssignmentIndex) : Prop := {
  ai_ids : forall a, a ∈ done -> Assignment_ID a ∈ assignmentIDs st;
  ai_nodup : NoDup (Assignment_ID <$> done);
  ai_generation : Forall (fun a => Assignment_Generation a <= Snapshot_Generation s) done;
  ai_agents : Forall (fun a => Forall (fun id => serviceAgents ix !! id = Some (Assignment_AgentID a)) (Assignment_ServiceIDs a)) done;
  ai_services : forall a id, a ∈ done -> id ∈ Assignment_ServiceIDs a -> assignedServices st !! id = Some (Assignment_ID a);
  ai_bindings : forall a b, a ∈ done -> b ∈ Assignment_Bindings a -> assignedBindings st !! binding_key b = Some (Assignment_ID a);
  ai_listeners : forall k x, listener_seed s !! k = Some x -> assignedBindings st !! k = Some x
}.

Lemma assignment_loop s ix st :
  for_each (assignment_check s ix) 0 (Snapshot_Assignments s) (MkAssignmentIndex ∅ ∅ (listener_seed s)) = Ok st ->
  assignments_indexed s ix (Snapshot_Assignments s) st.
Proof.
  intros Hr. refine (for_each_inv (assignment_check s ix) (assignments_indexed s ix) _ _ [] 0 _ st _ Hr).
  2: { constructor; try done; try constructor; by intros ? ?%elem_of_nil || by intros ? ? ?%elem_of_nil. }
  clear st Hr. intros done i a st st' [H1 H2 H3 H4 H5 H6 H7] Hb. unfold assignment_check in Hb.
  do 5 (apply bind_Ok in Hb as ([] & ?H & Hb)). apply bind_Ok in Hb as ([svcs assigned] & Hs & Hb).
  apply bind_Ok in Hb as (bindings & Hbs & Hb). injection Hb as <-.
  apply reject_if_Ok in H0, H8. unfold seen in H0. bool_facts.
  apply assigned_service_loop in Hs as [Hk1 Hf1]. apply assigned_binding_loop in Hbs as [Hk2 Hf2]. cbn [snd] in *.
  rewrite Forall_forall in Hf1. rewrite Forall_forall in Hf2.
  constructor; cbn.
  - intros a' [Hin| ->%list_elem_of_singleton]%elem_of_app; [specialize (H1 _ Hin); set_solver | set_solver].
  - rewrite fmap_app. apply NoDup_app. split_and!; [done | | apply NoDup_singleton].
    intros id (a' & -> & Hin)%list_elem_of_fmap Hx%list_elem_of_singleton. apply H0. rewrite <- Hx. by apply H1.
  - apply Forall_app. split; [done | constructor; [lia | constructor]].
  - apply Forall_app. split; [done | constructor; [| constructor]]. apply Forall_forall. intros id Hid. by apply Hf1.
  - intros a' id [Hin| ->%list_elem_of_singleton]%elem_of_app Hid; [by apply Hk1, H5 | by apply Hf1].
  - intros a' b [Hin| ->%list_elem_of_singleton]%elem_of_app Hib; [by apply Hk2, H6 | by apply Hf2].
  - intros k x Hx. by apply Hk2, H7.
Qed.

Lemma Snapshot_Validate_loops s :
  Snapshot_Validate s = Ok tt ->
  exists ix st, services_indexed (Snapshot_Services s) ix /\ assignments_indexed s ix (Snapshot_Assignments s) st.
Proof.
  intros H. unfold Snapshot_Validate in H. do 8 (apply bind_Ok in H as (? & _ & H)).
  apply bind_Ok in H as (ix & Hs & H). apply bind_Ok in H as (st & Ha & _).
  exists ix, st. split; [by apply service_loop | by apply assignment_loop].
Qed.

Lemma listener_seed_spec s g l :
  Snapshot_Gateway s = Some g -> l ∈ Gateway_Listeners g -> listener_seed s !! listener_key l = Some "listener".
Proof.
  intros Hg. unfold listener_seed. rewrite Hg.
  enough (forall ls (m : gmap string string), (l ∈ ls \/ m !! listener_key l = Some "listener") ->
    foldl (fun m l => <[endpoint_key (Listener_Protocol l) (normalizedIP (Listener_Bind l)) (Listener_Port l) := "listener"]> m) m ls
      !! listener_key l = Some "listener") as Hloop by (intros; apply Hloop; by left).
  induction ls as [|x ls IH]; intros m Hm; cbn [foldl]; [destruct Hm as [Hm|Hm]; [by apply elem_of_nil in Hm | done]|].
  apply IH. fold (listener_key x). destruct Hm as [[->|Hm]%elem_of_cons|Hm].
  - right. apply lookup_insert_eq.
  - by left.
  - right. destruct (decide (listener_key x = listener_key l)) as [->|]; [apply lookup_insert_eq | by rewrite lookup_insert_ne].
Qed.

Lemma same_id_same {A} (key : A -> string) (l : list A) x y :
  NoDup (key <$> l) -> x ∈ l -> y ∈ l -> key x = key y -> x = y.
Proof.
  intros Hnd [i Hi]%list_elem_of_lookup [j Hj]%list_elem_of_lookup Hk.
  assert (i = j) as ->; [| congruence].
  eapply (NoDup_lookup (key <$> l) i j (key x)); [done | |]; rewrite list_lookup_fmap; [by rewrite Hi | by rewrite Hj, Hk].
Qed.

(** C3: in a snapshot that validates, service and assignment ids are unique, no
    assignment is newer than the snapshot, every assigned service exists and
    belongs to the agent of its assignment, and no service and no public
    endpoint belongs to two assignments; an endpoint of a gateway listener can
    only belong to an assignment whose id is the text "listener". *)
Theorem snapshot_resources_exclusive s :
  Snapshot_Validate s = Ok tt ->
  NoDup (Service_ID <$> Snapshot_Services s) /\ NoDup (Assignment_ID <$> Snapshot_Assignments s)
  /\ (forall a, a ∈ Snapshot_Assignments s -> Assignment_Generation a <= Snapshot_Generation s
        /\ forall id, id ∈ Assignment_ServiceIDs a ->
             exists sv, sv ∈ Snapshot_Services s /\ Service_ID sv = id /\ Service_AgentID sv = Assignment_AgentID a)
  /\ (forall a1 a2 id, a1 ∈ Snapshot_Assignments s -> a2 ∈ Snapshot_Assignments s ->
        id ∈ Assignment_ServiceIDs a1 -> id ∈ Assignment_ServiceIDs a2 -> a1 = a2)
  /\ (forall a1 a2 b1 b2, a1 ∈ Snapshot_Assignments s -> a2 ∈ Snapshot_Assignments s ->
        b1 ∈ Assignment_Bindings a1 -> b2 ∈ Assignment_Bindings a2 -> binding_key b1 = binding_key b2 -> a1 = a2)
  /\ (forall g l a b, Snapshot_Gateway s = Some g -> l ∈ Gateway_Listeners g -> a ∈ Snapshot_Assignments s ->
        b ∈ Assignment_Bindings a -> binding_key b = listener_key l -> Assignment_ID a = "listener").
Proof.
  intros H. destruct (Snapshot_Validate_loops s H) as (ix & st & [Hnd Hag] & [A1 A2 A3 A4 A5 A6 A7]).
  split_and!; try done.
  - intros a Ha. rewrite Forall_forall in A3. rewrite Forall_forall in A4. split; [by apply A3|]. intros id Hid.
    specialize (A4 a Ha). rewrite Forall_forall in A4. by apply Hag, A4.
  - intros a1 a2 id H1 H2 I1 I2. apply (same_id_same Assignment_ID (Snapshot_Assignments s)); try done.
    pose proof (A5 _ _ H1 I1). pose proof (A5 _ _ H2 I2). congruence.
  - intros a1 a2 b1 b2 H1 H2 I1 I2 Hk. apply (same_id_same Assignment_ID (Snapshot_Assignments s)); try done.
    pose proof (A6 _ _ H1 I1) as E1. pose proof (A6 _ _ H2 I2) as E2. rewrite Hk in E1. congruence.
  - intros g l a b Hg Hl Ha Hb Hk. pose proof (A6 _ _ Ha Hb) as E1. rewrite Hk in E1.
    pose proof (A7 _ _ (listener_seed_spec s g l Hg Hl)). congruence.
Qed.
End Indexes.

Lemma snapshot_resources_exclusive_witness :
  NoDup (Assignment_ID <$> Snapshot_Assignments (sealed (sample_snapshot 1)))
  /\ @Snapshot_Validate go_order insertion_slice_sort toy_crypto ascii_unicode toy_json
       (sealed (sample_snapshot 1)) = Ok tt.
Proof.
  assert (H : @Snapshot_Validate go_order insertion_slice_sort toy_crypto ascii_unicode toy_json (sealed (sample_snapshot 1)) = Ok tt)
    by (vm_compute; reflexivity).
  split; [| exact H].
  exact (proj1 (proj2 (@snapshot_resources_exclusive go_order insertion_slice_sort toy_crypto ascii_unicode toy_json _ H))).
Defined.

(** ** A listener's endpoint can be claimed *)

(** A snapshot whose assignment "listener" binds the port of the gateway's own
    listener. *)
Definition shadowing_snapshot : DesiredSnapshot :=
  MkSnapshot 1 "gw-1" 1 "" (Some sample_gateway) None [sample_service "web" 443]
    [sample_assignment "listener" ["web"] [MkBinding "web" "tcp" "0.0.0.0" 443]].

(** The owner recorded for a gateway listener is an ordinary assignment id, so
    the collision check of [Validate] has a hole: a snapshot validates in which
    an assignment named "listener" is bound to the endpoint of a listener. *)
Theorem listener_endpoint_claimed :
  exists s g l a b,
    @Snapshot_Validate go_order insertion_slice_sort toy_crypto ascii_unicode toy_json s = Ok tt
    /\ Snapshot_Gateway s = Some g /\ l ∈ Gateway_Listeners g /\ Listener_Enabled l = true
    /\ a ∈ Snapshot_Assignments s /\ b ∈ Assignment_Bindings a /\ binding_key b = listener_key l.
Proof.
  exists shadowing_snapshot. do 4 eexists. split; [vm_compute; reflexivity|]. split; [reflexivity|].
  split; [left|]. split; [reflexivity|]. split; [left|]. split; [left | reflexivity].
Qed.

(** ** Checksums *)
Section ChecksumFacts.
Context `{MO : !MapOrder, SS : !SliceSort, CR : !Crypto, UN : !Unicode, DJ : !DocumentJSON}.
Implicit Types (s : DesiredSnapshot).

(** Snapshots with the same content up to the order of services and assignments. *)
Record same_resources s1 s2 : Prop := {
  sr_schema : Snapshot_SchemaVersion s1 = Snapshot_SchemaVersion s2;
  sr_node : Snapshot_NodeID s1 = Snapshot_NodeID s2;
  sr_generation : Snapshot_Generation s1 = Snapshot_Generation s2;
  sr_gateway : Snapshot_Gateway s1 = Snapshot_Gateway s2;
  sr_agent : Snapshot_Agent s1 = Snapshot_Agent s2;
  sr_services : Snapshot_Services s1 ≡ₚ Snapshot_Services s2;
  sr_assignments : Snapshot_Assignments s1 ≡ₚ Snapshot_Assignments s2
}.

#[export] Instance same_resources_equiv : Equivalence same_resources.
Proof.
  split.
  - intros s. by constructor.
  - intros s1 s2 []. by constructor.
  - intros s1 s2 s3 [] []. constructor; congruence || by etrans.
Qed.

(** C40: the checksum of a snapshot that validates does not depend on the order
    in which its services and assignments are listed, nor on the checksum it
    carries, whatever sorting routine the runtime uses. *)
Theorem checksum_order_independent s1 s2 :
  Snapshot_Validate s1 = Ok tt -> same_resources s1 s2 -> ComputeChecksum s1 = ComputeChecksum s2.
Proof.
  intros Hv [H1 H2 H3 H4 H5 H6 H7]. destruct (Snapshot_Validate_loops s1 Hv) as (ix & st & [Hnd _] & Hai).
  rewrite <- (ComputeChecksum_set_checksum s1 ""), <- (ComputeChecksum_set_checksum s2 "").
  unfold ComputeChecksum, checksum_document. rewrite (Normalize_perm (set_checksum s1 "") (set_checksum s2 "")); try done.
  apply (ai_nodup _ _ _ _ Hai).
Qed.

Lemma set_checksum_twice s c1 c2 : set_checksum (set_checksum s c1) c2 = set_checksum s c2.
Proof. done. Qed.

Lemma service_check_checksum s c : service_check (set_checksum s c) = service_check s.
Proof. reflexivity. Qed.
Lemma assignment_check_checksum s c : assignment_check (set_checksum s c) = assignment_check s.
Proof. reflexivity. Qed.

(** Only the last check looks at the checksum field. *)
Lemma Validate_set_checksum s c :
  Snapshot_Validate (set_checksum s "") = Ok tt ->
  Snapshot_Validate (set_checksum s c) =
    if String.eqb c "" then Ok tt else
    checksum ← map_err (fun err => EApply "checksum_error" (TLit "") (TError err)) (ComputeChecksum s);
    reject_if (negb (strings.equal_fold_hex checksum c))
      (apply_error "checksum_mismatch" "checksum" "snapshot checksum does not match its content").
Proof.
  intros H. rewrite <- (ComputeChecksum_set_checksum s c).
  unfold Snapshot_Validate in H |- *. rewrite service_check_checksum, assignment_check_checksum in *.
  cbn [Snapshot_SchemaVersion Snapshot_NodeID Snapshot_Generation Snapshot_Checksum Snapshot_Gateway Snapshot_Agent
       Snapshot_Services Snapshot_Assignments set_checksum listener_seed] in *.
  change (listener_seed (set_checksum s c)) with (listener_seed s).
  change (listener_seed (set_checksum s "")) with (listener_seed s) in H.
  do 8 (apply bind_Ok in H as ([] & ?E & H)). apply bind_Ok in H as (ix & Es & H). apply bind_Ok in H as (st & Ea & H).
  repeat match goal with E : ?m = Ok _ |- context [mbind _ ?m] => rewrite E; cbn [mbind result_bind] end.
  done.
Qed.

(** A snapshot sealed by [WithChecksum] validates, its checksum is that of
    its content, and replacing the checksum by any other text that differs from
    it in more than letter case makes validation fail. *)
Theorem WithChecksum_validates s s' c :
  WithChecksum s = Ok s' ->
  Snapshot_Validate s' = Ok tt
  /\ ComputeChecksum s' = Ok (Snapshot_Checksum s')
  /\ (c <> "" -> strings.lower_bytes c <> strings.lower_bytes (Snapshot_Checksum s') ->
      Snapshot_Validate (set_checksum s' c)
      = Err (apply_error "checksum_mismatch" "checksum" "snapshot checksum does not match its content")).
Proof.
  intros H. unfold WithChecksum in H. apply bind_Ok in H as ([] & Hv & H). apply bind_Ok in H as (sum & Hc & H).
  injection H as <-. rewrite ComputeChecksum_set_checksum in Hc. set (n := Normalize s) in *.
  split_and!; rewrite ?set_checksum_twice, ?ComputeChecksum_set_checksum.
  - rewrite Validate_set_checksum, Hc by done. cbn. unfold strings.equal_fold_hex. rewrite String.eqb_refl. by case_match.
  - exact Hc.
  - cbn [Snapshot_Checksum set_checksum]. intros Hne Hdiff. rewrite Validate_set_checksum, Hc by done. apply String.eqb_neq in Hne. rewrite Hne. cbn.
    unfold strings.equal_fold_hex. apply not_eq_sym in Hdiff. apply String.eqb_neq in Hdiff. by rewrite Hdiff.
Qed.
End ChecksumFacts.

Lemma checksum_order_independent_witness :
  let s1 := sealed (sample_snapshot 1) in
  let s2 := MkSnapshot 1 "gw-1" 1 "other" (Some (default sample_gateway (Snapshot_Gateway s1))) None
              (reverse (Snapshot_Services s1)) (reverse (Snapshot_Assignments s1)) in
  @ComputeChecksum insertion_slice_sort toy_crypto toy_json s1 = @ComputeChecksum insertion_slice_sort toy_crypto toy_json s2.
Proof.
  apply (@checksum_order_independent go_order insertion_slice_sort toy_crypto ascii_unicode toy_json).
  - vm_compute. reflexivity.
  - constructor; try reflexivity; symmetry; apply reverse_Permutation.
Defined.

Lemma WithChecksum_validates_witness :
  @Snapshot_Validate go_order insertion_slice_sort toy_crypto ascii_unicode toy_json
    (set_checksum (sealed (sample_snapshot 1)) "00")
  = Err (apply_error "checksum_mismatch" "checksum" "snapshot checksum does not match its content").
Proof.
  apply (@WithChecksum_validates go_order insertion_slice_sort toy_crypto ascii_unicode toy_json (sample_snapshot 1)).
  - vm_compute. reflexivity.
  - discriminate.
  - vm_compute. discriminate.
Defined.
