(* ===== verification/Report.v ===== *)
(** * Node reports (src/internal/domain: system_info.go, runtime.go, runtime_metrics.go,
      the observed state of model_validation.go)

    [time.Now] is the argument [now]; a float64 is a [spec_float]. *)
From S2P Require Import Prelude GoStd GoNet Domain Checksum Validation Snapshot.
From Stdlib Require Import SpecFloat.
Import netip.

Definition maxSystemInfoString : Z := 512.
Definition maxSystemInfoIPs : Z := 64.
Definition maxSystemInfoIPLength : Z := 128.
Definition maxSystemInfoServiceMode : Z := 64.
Definition maxSystemInfoCPUCount : Z := 4096.

(** The binary64 value of an integer that is exactly representable. *)
Definition float_of_Z (z : Z) : spec_float := binary_normalize 53 1024 z 0 false.

Definition float_out_of_range (hi : Z) (f : option spec_float) : bool :=
  match f with
  | None => false
  | Some S754_nan | Some (S754_infinity _) => true
  | Some x => SFltb x (float_of_Z 0) || SFltb (float_of_Z hi) x
  end.

Section SystemInfo.

Definition system_strings (s : SystemInfo) : list (string * string * Z) :=
  [("hostname", System_Hostname s, maxSystemInfoString);
   ("os", System_OS s, maxSystemInfoString);
   ("distribution", System_Distribution s, maxSystemInfoString);
   ("distribution_version", System_DistributionVersion s, maxSystemInfoString);
   ("kernel", System_Kernel s, maxSystemInfoString);
   ("architecture", System_Architecture s, maxSystemInfoString);
   ("cpu_model", System_CPUModel s, maxSystemInfoString);
   ("node_version", System_NodeVersion s, maxSystemInfoString);
   ("go_version", System_GoVersion s, maxSystemInfoString);
   ("service_mode", System_ServiceMode s, maxSystemInfoServiceMode)].

Definition system_fail (path message : string) : error := apply_error "invalid_system_info" path message.

Definition system_ip_check (index : Z) (value : string) (seenIPs : seen_set) : result seen_set :=
  let fail message := EApply "invalid_system_info" (TFmt "ip_addresses[%d]" [AInt index]) (TLit message) in
  _ ← reject_if (slen value >? maxSystemInfoIPLength) (fail "IP address is too long");
  address ← map_err (fun _ => fail "IP address is invalid") (ParseAddr value);
  let key := addr_string (Unmap address) in
  _ ← reject_if (seen key seenIPs) (fail "IP address is duplicated");
  Ok ({[key]} ∪ seenIPs).

Definition SystemInfo_Validate (now : Z) (info : option SystemInfo) : result unit :=
  match info with
  | None => Ok tt
  | Some s =>
      _ ← check_each (fun _ '(name, value, limit) =>
            _ ← reject_if (slen value >? limit)
                  (EApply "invalid_system_info" (TLit name) (TFmt "system info field exceeds %d bytes" [AInt limit]));
            reject_if (strings.ContainsAny value nul_cr_lf)
              (system_fail name "system info field contains a control character")) (system_strings s);
      _ ← reject_if ((System_LogicalCPUs s <? 0) || (System_LogicalCPUs s >? maxSystemInfoCPUCount))
            (system_fail "logical_cpus" "logical CPU count is out of range");
      _ ← reject_if (llen (System_IPAddresses s) >? maxSystemInfoIPs) (system_fail "ip_addresses" "too many IP addresses");
      _ ← for_each system_ip_check 0 (System_IPAddresses s) ∅;
      _ ← reject_if (float_out_of_range 100 (System_CPUUsagePercent s))
            (system_fail "cpu_usage_percent" "CPU usage must be between 0 and 100");
      _ ← reject_if (float_out_of_range 1000000000 (System_LoadAverage1m s))
            (system_fail "load_average_1m" "load average is out of range");
      _ ← reject_if ((System_MemoryAvailableBytes s >? System_MemoryTotalBytes s) && negb (System_MemoryTotalBytes s =? 0))
            (system_fail "memory_available_bytes" "available memory exceeds total memory");
      _ ← reject_if ((System_DiskFreeBytes s >? System_DiskTotalBytes s) && negb (System_DiskTotalBytes s =? 0))
            (system_fail "disk_free_bytes" "free disk space exceeds total disk space");
      _ ← reject_if (is_zero_time (System_CollectedAt s))
            (system_fail "collected_at" "system info collection time is required");
      reject_if (System_CollectedAt s >? now + 5 * 60 * 1000000000)
        (system_fail "collected_at" "system info collection time is too far in the future")
  end.
End SystemInfo.

(** ** Observed state *)
Definition validateListenerState (listener : ListenerState) : result unit :=
  _ ← reject_if (negb (protocol_known (ListenerState_Protocol listener))) (ENew "listener protocol must be tcp or udp");
  _ ← reject_if (ListenerState_Port listener =? 0) (ENew "listener port must be non-zero");
  _ ← reject_if (negb (String.eqb (ListenerState_Bind listener) (strings.TrimSpace (ListenerState_Bind listener))))
        (ENew "listener bind must not contain surrounding whitespace");
  _ ← map_err (fun _ => ENew "listener bind must be an IP address") (ParseAddr (ListenerState_Bind listener));
  Ok tt.

Definition session_check (i : Z) (session : SessionSummary) (seenSessions : seen_set) : result seen_set :=
  _ ← ValidateID (Session_ID session) (TFmt "sessions[%d].id" [AInt i]);
  _ ← reject_if (seen (Session_ID session) seenSessions)
        (EApply "duplicate_session" (TFmt "sessions[%d].id" [AInt i]) (TLit "session id is duplicated"));
  _ ← (if String.eqb (Session_PeerID session) "" then Ok tt
       else ValidateID (Session_PeerID session) (TFmt "sessions[%d].peer_id" [AInt i]));
  _ ← reject_if ((Session_Streams session <? 0) || (Session_Streams session >? 1048576))
        (EApply "invalid_session" (TFmt "sessions[%d].streams" [AInt i]) (TLit "session stream count is invalid"));
  Ok ({[Session_ID session]} ∪ seenSessions).

Definition listener_state_check (i : Z) (listener : ListenerState) (seenListeners : seen_set) : result seen_set :=
  _ ← map_err (fun err => EApply "invalid_listener_state" (TFmt "listeners[%d]" [AInt i]) (TError err))
        (validateListenerState listener);
  let key := endpoint_key (ListenerState_Protocol listener) (normalizedIP (ListenerState_Bind listener)) (ListenerState_Port listener) in
  _ ← reject_if (seen key seenListeners)
        (EApply "duplicate_listener_state" (TFmt "listeners[%d]" [AInt i]) (TLit "listener state is duplicated"));
  Ok ({[key]} ∪ seenListeners).

Definition Observed_Validate (now : Z) (o : ObservedState) : result unit :=
  _ ← reject_if (negb (Observed_SchemaVersion o =? CurrentControlProtocolVersion))
        (apply_error "unknown_schema" "schema_version" "observed schema version is unsupported");
  _ ← ValidateID (Observed_NodeID o) (TLit "node_id");
  _ ← reject_if (Observed_Healthy o && Observed_Degraded o)
        (apply_error "invalid_observed_state" "healthy" "observed state cannot be healthy and degraded at the same time");
  _ ← (match Observed_LastError o with
       | None => Ok tt
       | Some e => reject_if (String.eqb (strings.TrimSpace (ApplyError_Code e)) "" || (slen (ApplyError_Code e) >? 128)
                              || (slen (ApplyError_Message e) >? 2048))
                     (apply_error "invalid_observed_error" "last_error" "observed error fields are invalid")
       end);
  _ ← reject_if ((llen (Observed_Sessions o) >? 4096) || (llen (Observed_Listeners o) >? 4096))
        (apply_error "observed_state_too_large" "" "observed state contains too many entries");
  _ ← SystemInfo_Validate now (Observed_SystemInfo o);
  _ ← for_each session_check 0 (Observed_Sessions o) ∅;
  _ ← for_each listener_state_check 0 (Observed_Listeners o) ∅;
  Ok tt.

(** ** Runtime telemetry *)
Record RuntimeRateLimit := MkRuntimeRateLimit {
  Limit_Direction : string; Limit_BytesPerSecond : Z; Limit_BurstBytes : Z; Limit_ExpiresAt : Z
}.

Record RuntimeConnection := MkRuntimeConnection {
  Conn_ID : string; Conn_Type : string; Conn_NodeID : string; Conn_PeerNodeID : string;
  Conn_GatewayID : string; Conn_AgentID : string; Conn_AssignmentID : string; Conn_ServiceID : string;
  Conn_Protocol : string; Conn_SourceIP : string; Conn_SourcePort : Z; Conn_Target : string;
  Conn_ParentSessionID : string; Conn_StartedAt : Z; Conn_LastActivityAt : Z; Conn_EndedAt : option Z;
  Conn_State : string; Conn_CloseReason : string; Conn_BytesIn : Z; Conn_BytesOut : Z;
  Conn_RateIn : spec_float; Conn_RateOut : spec_float; Conn_Limit : option RuntimeRateLimit
}.

Record RuntimeEvent := MkRuntimeEvent {
  Event_ID : string; Event_Type : string; Event_NodeID : string; Event_ConnectionID : string;
  Event_Connection : option RuntimeConnection; Event_Message : string; Event_CreatedAt : Z
}.

Record RuntimeSnapshot := MkRuntimeSnapshot {
  RSnapshot_NodeID : string; RSnapshot_ObservedAt : Z;
  RSnapshot_Connections : list RuntimeConnection; RSnapshot_Metrics : RuntimeMetrics
}.

Definition runtime_connection_types : list string := ["session"; "tcp"; "udp_flow"; "egress"].
Definition runtime_states : list string := ["active"; "closed"; "unknown"].
Definition RuntimeEventRejected := "rejected".
Definition runtime_event_types : list string := ["opened"; "updated"; "closed"; RuntimeEventRejected; "rate_limited"].

Definition RateLimit_Validate (l : RuntimeRateLimit) : result unit :=
  _ ← reject_if (negb (in_strings (Limit_Direction l) ["in"; "out"; "both"]))
        (ENew "runtime rate limit direction must be in, out or both");
  _ ← reject_if ((Limit_BytesPerSecond l =? 0) || (Limit_BytesPerSecond l >? 2 ^ 40))
        (ENew "runtime rate limit bytes_per_second is out of range");
  _ ← reject_if ((Limit_BurstBytes l =? 0) || (Limit_BurstBytes l >? 2 ^ 40))
        (ENew "runtime rate limit burst_bytes is out of range");
  reject_if (is_zero_time (Limit_ExpiresAt l)) (ENew "runtime rate limit expiration is required").

Section Runtime.
Context `{!MapOrder}.

Definition Connection_Validate (c : RuntimeConnection) : result unit :=
  _ ← ValidateID (Conn_ID c) (TLit "runtime_connection.id");
  _ ← ValidateID (Conn_NodeID c) (TLit "runtime_connection.node_id");
  _ ← reject_if (negb (in_strings (Conn_Type c) runtime_connection_types))
        (EFmt "runtime connection type %q is invalid" [AStr (Conn_Type c)]);
  _ ← reject_if (negb (in_strings (Conn_State c) runtime_states))
        (EFmt "runtime connection state %q is invalid" [AStr (Conn_State c)]);
  _ ← reject_if (negb (in_strings (Conn_Protocol c) [""; ProtocolTCP; ProtocolUDP; "quic"]))
        (EFmt "runtime connection protocol %q is invalid" [AStr (Conn_Protocol c)]);
  _ ← check_each (fun _ '(name, value) =>
          if String.eqb value "" then Ok tt else ValidateID value (TLit ("runtime_connection." +:+ name)))
        (range_order [("peer_node_id", Conn_PeerNodeID c); ("gateway_id", Conn_GatewayID c); ("agent_id", Conn_AgentID c);
                      ("assignment_id", Conn_AssignmentID c); ("service_id", Conn_ServiceID c);
                      ("parent_session_id", Conn_ParentSessionID c)]);
  _ ← (if String.eqb (Conn_SourceIP c) "" then Ok tt else
         _ ← map_err (EWrap "runtime connection source_ip is invalid: %w" []) (ParseAddr (Conn_SourceIP c)); Ok tt);
  _ ← reject_if ((slen (Conn_Target c) >? 2048) || strings.ContainsAny (Conn_Target c) nul_cr_lf)
        (ENew "runtime connection target is invalid");
  _ ← reject_if (is_zero_time (Conn_StartedAt c) || is_zero_time (Conn_LastActivityAt c))
        (ENew "runtime connection timestamps are required");
  _ ← reject_if (match Conn_EndedAt c with Some t => t <? Conn_StartedAt c | None => false end)
        (ENew "runtime connection ended_at precedes started_at");
  match Conn_Limit c with Some l => RateLimit_Validate l | None => Ok tt end.

Definition Event_Validate (e : RuntimeEvent) : result unit :=
  _ ← ValidateID (Event_ID e) (TLit "runtime_event.id");
  _ ← ValidateID (Event_NodeID e) (TLit "runtime_event.node_id");
  _ ← reject_if (negb (in_strings (Event_Type e) runtime_event_types))
        (EFmt "runtime event type %q is invalid" [AStr (Event_Type e)]);
  _ ← reject_if (String.eqb (Event_ConnectionID e) "" && bool_decide (Event_Connection e = None)
                 && negb (String.eqb (Event_Type e) RuntimeEventRejected))
        (ENew "runtime event connection is required");
  _ ← (if String.eqb (Event_ConnectionID e) "" then Ok tt
       else ValidateID (Event_ConnectionID e) (TLit "runtime_event.connection_id"));
  _ ← (match Event_Connection e with
       | None => Ok tt
       | Some c =>
           _ ← Connection_Validate c;
           _ ← reject_if (negb (String.eqb (Conn_NodeID c) (Event_NodeID e)))
                 (ENew "runtime event connection node does not match event node");
           reject_if (negb (String.eqb (Event_ConnectionID e) "") && negb (String.eqb (Conn_ID c) (Event_ConnectionID e)))
             (ENew "runtime event connection id does not match event")
       end);
  _ ← reject_if ((slen (Event_Message e) >? 1024) || strings.ContainsAny (Event_Message e) nul_cr_lf)
        (ENew "runtime event message is invalid");
  reject_if (is_zero_time (Event_CreatedAt e)) (ENew "runtime event timestamp is required").

Definition RuntimeSnapshot_Validate (s : RuntimeSnapshot) : result unit :=
  _ ← ValidateID (RSnapshot_NodeID s) (TLit "runtime_snapshot.node_id");
  _ ← reject_if (is_zero_time (RSnapshot_ObservedAt s)) (ENew "runtime snapshot timestamp is required");
  _ ← reject_if (llen (RSnapshot_Connections s) >? 4096) (ENew "runtime snapshot is too large");
  check_each (fun _ connection =>
    _ ← Connection_Validate connection;
    reject_if (negb (String.eqb (Conn_NodeID connection) (RSnapshot_NodeID s)))
      (ENew "runtime snapshot connection node does not match snapshot node")) (RSnapshot_Connections s).
End Runtime.

(** ** The metric catalogue *)
Inductive RuntimeMetricKind := RuntimeMetricGauge | RuntimeMetricCounter | RuntimeMetricBoolean.

Record RuntimeMetricDescriptor := MkMetricDescriptor {
  Metric_JSONName : string; Metric_SQLColumn : string; Metric_Kind : RuntimeMetricKind
}.

Definition runtimeMetricCatalog : list RuntimeMetricDescriptor :=
  [MkMetricDescriptor "active_streams" "active_streams" RuntimeMetricGauge;
   MkMetricDescriptor "active_sessions" "active_sessions" RuntimeMetricGauge;
   MkMetricDescriptor "active_egress" "active_egress" RuntimeMetricGauge;
   MkMetricDescriptor "udp_oversize_drops" "udp_oversize_drops" RuntimeMetricCounter;
   MkMetricDescriptor "geoip_up" "geoip_up" RuntimeMetricBoolean;
   MkMetricDescriptor "active_connections" "active_connections" RuntimeMetricGauge;
   MkMetricDescriptor "active_flows" "active_flows" RuntimeMetricGauge;
   MkMetricDescriptor "runtime_bytes_in_total" "runtime_bytes_in_total" RuntimeMetricCounter;
   MkMetricDescriptor "runtime_bytes_out_total" "runtime_bytes_out_total" RuntimeMetricCounter;
   MkMetricDescriptor "runtime_opened_total" "runtime_opened_total" RuntimeMetricCounter;
   MkMetricDescriptor "runtime_closed_total" "runtime_closed_total" RuntimeMetricCounter;
   MkMetricDescriptor "runtime_rejected_total" "runtime_rejected_total" RuntimeMetricCounter;
   MkMetricDescriptor "runtime_rate_limited_total" "runtime_rate_limited_total" RuntimeMetricCounter;
   MkMetricDescriptor "runtime_telemetry_dropped_total" "runtime_telemetry_dropped_total" RuntimeMetricCounter].

Definition RuntimeMetricCatalog : list RuntimeMetricDescriptor := append_nil runtimeMetricCatalog.
