(* ===== verification/ReportFacts.v ===== *)
(** * Correctness of report and telemetry validation (Report)

    Each check is characterised by a predicate on the value it checks, and the
    whole report is accepted exactly when all of them hold. *)
From S2P Require Import Prelude GoStd GoNet Domain Checksum Validation Snapshot SnapshotFacts Samples Report.
Import netip.

(** ** What the validators accept *)
Definition session_ok (s : SessionSummary) : Prop :=
  valid_id (Session_ID s) /\ (Session_PeerID s = "" \/ valid_id (Session_PeerID s)) /\ 0 <= Session_Streams s <= 1048576.

Definition listener_state_ok (l : ListenerState) : Prop :=
  (ListenerState_Protocol l = ProtocolTCP \/ ListenerState_Protocol l = ProtocolUDP) /\ ListenerState_Port l <> 0
  /\ strings.TrimSpace (ListenerState_Bind l) = ListenerState_Bind l /\ is_Ok (ParseAddr (ListenerState_Bind l)) = true.

(** The endpoint of a listener, whatever the spelling of its address. *)
Definition listener_state_key (l : ListenerState) : string :=
  endpoint_key (ListenerState_Protocol l) (normalizedIP (ListenerState_Bind l)) (ListenerState_Port l).

Lemma unit_Ok (m : result unit) u : m = Ok u <-> m = Ok tt.
Proof. by destruct u. Qed.

Lemma session_check_Ok i s seen seen' :
  session_check i s seen = Ok seen' <-> session_ok s /\ Session_ID s ∉ seen /\ seen' = {[Session_ID s]} ∪ seen.
Proof.
  unfold session_check, session_ok. rewrite <- (ValidateID_iff (Session_ID s) (TFmt "sessions[%d].id" [AInt i])).
  rewrite <- (ValidateID_iff (Session_PeerID s) (TFmt "sessions[%d].peer_id" [AInt i])).
  destruct (ValidateID (Session_ID s) _) as [[]|e]; cbn [mbind result_bind]; [| by split; [| intros [[? _] _]]].
  unfold Snapshot.seen. case_bool_decide; cbn [reject_if mbind result_bind]; [by split; [| intros (_ & ? & _)]|].
  assert (((if String.eqb (Session_PeerID s) "" then Ok () else ValidateID (Session_PeerID s) (TFmt "sessions[%d].peer_id" [AInt i])) = Ok tt)
          <-> Session_PeerID s = "" \/ ValidateID (Session_PeerID s) (TFmt "sessions[%d].peer_id" [AInt i]) = Ok tt) as Hp.
  { destruct (String.eqb_spec (Session_PeerID s) ""); [by split; [left|] | split; [by right | by intros [?|?]]]. }
  rewrite bind_Ok. split.
  - intros ([] & H1%Hp & H2). apply bind_Ok in H2 as ([] & H2%reject_if_Ok & [= <-]). bool_facts. split_and!; done || lia.
  - intros ((_ & H1%Hp & H2) & _ & ->). exists tt. split; [done|].
    assert ((Session_Streams s <? 0) || (Session_Streams s >? 1048576) = false) as -> by lia. done.
Qed.

Lemma listener_state_check_Ok i l seen seen' :
  listener_state_check i l seen = Ok seen'
  <-> listener_state_ok l /\ listener_state_key l ∉ seen /\ seen' = {[listener_state_key l]} ∪ seen.
Proof.
  assert (validateListenerState l = Ok tt <-> listener_state_ok l) as Hl.
  { unfold validateListenerState, listener_state_ok, protocol_known.
    destruct (String.eqb_spec (ListenerState_Protocol l) ProtocolTCP), (String.eqb_spec (ListenerState_Protocol l) ProtocolUDP);
      cbn [negb orb reject_if mbind result_bind]; try (split; [done | by intros ([?|?] & _)]).
    all: destruct (Z.eqb_spec (ListenerState_Port l) 0); cbn [reject_if mbind result_bind]; [split; [done | tauto]|].
    all: destruct (String.eqb_spec (ListenerState_Bind l) (strings.TrimSpace (ListenerState_Bind l))) as [E|E];
      cbn [negb reject_if mbind result_bind]; [| split; [done | intros (_ & _ & ? & _); congruence]].
    all: destruct (ParseAddr (ListenerState_Bind l)); cbn; split; try done; try (intros (_ & _ & _ & ?); done); by auto. }
  unfold listener_state_check. fold (listener_state_key l). rewrite <- Hl.
  destruct (validateListenerState l) as [[]|e]; cbn [map_err mbind result_bind]; [| by split; [| intros [? _]]].
  unfold Snapshot.seen. case_bool_decide; cbn [reject_if mbind result_bind]; [by split; [| intros (_ & ? & _)]|].
  split; [by intros [= <-] | by intros (_ & _ & ->)].
Qed.

(** The printed IPv4 or IPv6 address a text stands for. *)
Definition address_key (value : string) : string :=
  match ParseAddr value with Ok a => addr_string (Unmap a) | Err _ => "" end.

Definition address_ok (value : string) : Prop := slen value <= maxSystemInfoIPLength /\ is_Ok (ParseAddr value) = true.

Lemma system_ip_check_Ok i v seen seen' :
  system_ip_check i v seen = Ok seen' <-> address_ok v /\ address_key v ∉ seen /\ seen' = {[address_key v]} ∪ seen.
Proof.
  unfold system_ip_check, address_ok, address_key. rewrite Z.gtb_ltb.
  destruct (Z.ltb_spec maxSystemInfoIPLength (slen v)); cbn [reject_if mbind result_bind]; [split; [done | lia]|].
  destruct (ParseAddr v) as [a|e]; cbn [map_err is_Ok mbind result_bind]; [| by split; [| intros [[_ ?] _]]].
  unfold Snapshot.seen. case_bool_decide; cbn [reject_if mbind result_bind]; [by split; [| intros (_ & ? & _)]|].
  split; [by intros [= <-] | by intros (_ & _ & ->)].
Qed.

Record system_info_ok (now : Z) (s : SystemInfo) : Prop := {
  si_strings : Forall (fun '(name, value, limit) => slen value <= limit /\ strings.ContainsAny value nul_cr_lf = false) (system_strings s);
  si_cpus : 0 <= System_LogicalCPUs s <= maxSystemInfoCPUCount;
  si_ips : llen (System_IPAddresses s) <= maxSystemInfoIPs /\ Forall address_ok (System_IPAddresses s)
           /\ NoDup (address_key <$> System_IPAddresses s);
  si_floats : float_out_of_range 100 (System_CPUUsagePercent s) = false
              /\ float_out_of_range 1000000000 (System_LoadAverage1m s) = false;
  si_memory : System_MemoryTotalBytes s <> 0 -> System_MemoryAvailableBytes s <= System_MemoryTotalBytes s;
  si_disk : System_DiskTotalBytes s <> 0 -> System_DiskFreeBytes s <= System_DiskTotalBytes s;
  si_collected : is_zero_time (System_CollectedAt s) = false /\ System_CollectedAt s <= now + 5 * 60 * 1000000000
}.

(** A guard in front of a computation. *)
Lemma guard_Ok {A} c e (m : result A) a : (_ ← reject_if c e; m) = Ok a <-> c = false /\ m = Ok a.
Proof. destruct c; cbn; [split; [done | by intros [[=] _]] | by split; [| intros [_ ?]]]. Qed.

Lemma loop_Ok {S A} (m : result S) (k : result A) a : (_ ← m; k) = Ok a <-> (exists s, m = Ok s) /\ k = Ok a.
Proof. destruct m; cbn; split; [eauto | by intros [_ ?] | done | by intros [[? [=]] _]]. Qed.

Lemma SystemInfo_Validate_Ok now s : SystemInfo_Validate now (Some s) = Ok tt <-> system_info_ok now s.
Proof.
  unfold SystemInfo_Validate. rewrite loop_Ok, !guard_Ok, loop_Ok, !guard_Ok, reject_if_Ok.
  assert ((exists u, check_each (fun (_ : Z) '(name, value, limit) =>
              _ ← reject_if (slen value >? limit)
                    (EApply "invalid_system_info" (TLit name) (TFmt "system info field exceeds %d bytes" [AInt limit]));
              reject_if (strings.ContainsAny value nul_cr_lf)
                (system_fail name "system info field contains a control character")) (system_strings s) = Ok u)
          <-> Forall (fun '(name, value, limit) => slen value <= limit /\ strings.ContainsAny value nul_cr_lf = false) (system_strings s)) as Hs.
  { transitivity (check_each (fun (_ : Z) '(name, value, limit) =>
              _ ← reject_if (slen value >? limit)
                    (EApply "invalid_system_info" (TLit name) (TFmt "system info field exceeds %d bytes" [AInt limit]));
              reject_if (strings.ContainsAny value nul_cr_lf)
                (system_fail name "system info field contains a control character")) (system_strings s) = Ok tt);
      [split; [by intros [[] ?] | by eexists]|].
    rewrite check_each_Forall. apply Forall_proper; [| done]. intros [[name value] limit].
    rewrite guard_Ok, reject_if_Ok, Z.gtb_ltb, Z.ltb_ge. done. }
  rewrite Hs. rewrite (for_each_unique address_key address_ok) by (intros; apply system_ip_check_Ok).
  rewrite orb_false_iff, !Z.gtb_ltb, !Z.ltb_ge.
  assert (Hand : forall a b c : Z, (a <? b) && negb (c =? 0) = false <-> (c <> 0 -> b <= a))
    by (intros a b c; destruct (Z.ltb_spec a b), (Z.eqb_spec c 0); cbn; split; intros; try done; try lia; tauto).
  rewrite !Hand. split; [intros; constructor; tauto | intros []; tauto].
Qed.

Record observed_ok (now : Z) (o : ObservedState) : Prop := {
  ob_schema : Observed_SchemaVersion o = CurrentControlProtocolVersion;
  ob_node : valid_id (Observed_NodeID o);
  ob_health : ~ (Observed_Healthy o = true /\ Observed_Degraded o = true);
  ob_error : match Observed_LastError o with
             | None => True
             | Some e => strings.TrimSpace (ApplyError_Code e) <> "" /\ slen (ApplyError_Code e) <= 128 /\ slen (ApplyError_Message e) <= 2048
             end;
  ob_size : llen (Observed_Sessions o) <= 4096 /\ llen (Observed_Listeners o) <= 4096;
  ob_system : match Observed_SystemInfo o with None => True | Some s => system_info_ok now s end;
  ob_sessions : Forall session_ok (Observed_Sessions o) /\ NoDup (Session_ID <$> Observed_Sessions o);
  ob_listeners : Forall listener_state_ok (Observed_Listeners o) /\ NoDup (listener_state_key <$> Observed_Listeners o)
}.

(** A node's report is accepted exactly when it is well formed: current schema,
    valid node id, not both healthy and degraded, bounded error and host data,
    distinct valid sessions, and listeners on pairwise distinct endpoints whatever
    the spelling of their addresses. *)
Theorem observed_report_exact now o : Observed_Validate now o = Ok tt <-> observed_ok now o.
Proof.
  unfold Observed_Validate. rewrite guard_Ok, loop_Ok, guard_Ok, loop_Ok, guard_Ok, loop_Ok, !loop_Ok.
  rewrite (for_each_unique Session_ID session_ok) by (intros; apply session_check_Ok).
  rewrite (for_each_unique listener_state_key listener_state_ok) by (intros; apply listener_state_check_Ok).
  assert (Hex : forall m : result unit, (exists u, m = Ok u) <-> m = Ok tt) by (intros; split; [by intros [[] ?] | by eexists]).
  rewrite !Hex, (ValidateID_iff (Observed_NodeID o)), negb_false_iff, Z.eqb_eq, andb_false_iff, orb_false_iff, !Z.gtb_ltb, !Z.ltb_ge.
  assert (SystemInfo_Validate now (Observed_SystemInfo o) = Ok tt
          <-> match Observed_SystemInfo o with None => True | Some s => system_info_ok now s end) as ->
    by (destruct (Observed_SystemInfo o); [apply SystemInfo_Validate_Ok | done]).
  assert ((match Observed_LastError o with
           | None => Ok tt
           | Some e => reject_if (String.eqb (strings.TrimSpace (ApplyError_Code e)) "" || (slen (ApplyError_Code e) >? 128)
                                  || (slen (ApplyError_Message e) >? 2048))
                         (apply_error "invalid_observed_error" "last_error" "observed error fields are invalid")
           end) = Ok tt <-> match Observed_LastError o with
             | None => True
             | Some e => strings.TrimSpace (ApplyError_Code e) <> "" /\ slen (ApplyError_Code e) <= 128 /\ slen (ApplyError_Message e) <= 2048
             end) as ->.
  { destruct (Observed_LastError o) as [e|]; [| done].
    rewrite reject_if_Ok, !orb_false_iff, !Z.gtb_ltb, !Z.ltb_ge, String.eqb_neq. tauto. }
  split; [intros (? & ? & H & ?); constructor; try tauto; destruct (Observed_Healthy o), (Observed_Degraded o); intuition congruence
         | intros []; split_and!; try tauto; destruct (Observed_Healthy o), (Observed_Degraded o); tauto].
Qed.

(** A connection event that names its connection without describing it. *)
Definition bare_event (type : string) : RuntimeEvent := MkRuntimeEvent "evt-1" type "node-1" "conn-1" None "" 1.

(** Events that open, update or close a connection are accepted
    with the connection's id alone, although the telemetry contract says that they
    carry the full connection. *)
Example connection_event_without_connection `{!MapOrder} :
  Event_Validate (bare_event "opened") = Ok tt /\ Event_Validate (bare_event "updated") = Ok tt
  /\ Event_Validate (bare_event "closed") = Ok tt.
Proof. split_and!; vm_compute; reflexivity. Qed.
