(* ===== verification/Datagram.v ===== *)
(** * The AFDP/1 datagram codec (src/internal/afdp/protocol_datagram.go, limits.go)

    Bytes are [ascii]; the multi-byte fields are big-endian.  [EncodeDatagram]
    and [DecodeDatagram] are inverse to each other: decoding an encoded datagram
    gives it back, and a datagram that decodes is the encoding of what it
    decodes to. *)
From S2P Require Import Prelude GoStd.

Abbreviation bytes := (list ascii).

(** ** Big-endian integers ([encoding/binary]) *)
Definition byte_of_Z (z : Z) : ascii := ascii_of_N (Z.to_N (z mod 256)).

Fixpoint be_put (n : nat) (v : Z) : bytes :=
  match n with
  | O => []
  | S n => byte_of_Z (v / 256 ^ Z.of_nat n) :: be_put n v
  end.

Fixpoint be_get (l : bytes) : Z :=
  match l with
  | [] => 0
  | c :: l => byte_val c * 256 ^ llen l + be_get l
  end.

(** [data\[a:b\]]. *)
Definition slice (a b : nat) (l : bytes) : bytes := firstn (b - a) (skipn a l).

Lemma byte_val_range c : 0 <= byte_val c < 256.
Proof. unfold byte_val. pose proof (N_ascii_bounded c). lia. Qed.

Lemma byte_of_Z_val c : byte_of_Z (byte_val c) = c.
Proof.
  unfold byte_of_Z. rewrite Z.mod_small by apply byte_val_range.
  unfold byte_val. by rewrite N2Z.id, ascii_N_embedding.
Qed.

Lemma byte_val_of_Z z : byte_val (byte_of_Z z) = z mod 256.
Proof.
  unfold byte_val, byte_of_Z. pose proof (Z.mod_pos_bound z 256).
  rewrite N_ascii_embedding by lia. lia.
Qed.

Lemma be_put_length n v : List.length (be_put n v) = n.
Proof. induction n; cbn; congruence. Qed.

Lemma be_get_range l : 0 <= be_get l < 256 ^ llen l.
Proof.
  induction l as [|c l IH]; cbn [be_get List.length]; [lia|].
  rewrite Nat2Z.inj_succ, Z.pow_succ_r by lia. pose proof (byte_val_range c). nia.
Qed.

Lemma be_get_put n v : 0 <= v -> be_get (be_put n v) = v mod 256 ^ Z.of_nat n.
Proof.
  intros Hv. induction n as [|n IH]; cbn [be_put be_get].
  - by rewrite Z.mod_1_r.
  - rewrite IH, be_put_length, byte_val_of_Z, Nat2Z.inj_succ, Z.pow_succ_r by lia.
    rewrite (Z.mul_comm 256), Z.rem_mul_r by lia. lia.
Qed.

Lemma be_get_put_small n v : 0 <= v < 256 ^ Z.of_nat n -> be_get (be_put n v) = v.
Proof. intros H. rewrite be_get_put by lia. by apply Z.mod_small. Qed.

Lemma be_put_mod n v k : 0 <= k -> be_put n (k * 256 ^ Z.of_nat n + v) = be_put n v.
Proof.
  revert k v. induction n as [|n IH]; intros k v Hk; [done|]. cbn [be_put].
  rewrite Nat2Z.inj_succ, Z.pow_succ_r by lia. f_equal.
  - replace (k * (256 * 256 ^ Z.of_nat n) + v) with (v + (k * 256) * 256 ^ Z.of_nat n) by lia.
    rewrite Z.div_add by lia. unfold byte_of_Z. by rewrite Z.mod_add by lia.
  - replace (k * (256 * 256 ^ Z.of_nat n) + v) with ((k * 256) * 256 ^ Z.of_nat n + v) by lia.
    apply IH. lia.
Qed.

Lemma be_put_get l : be_put (List.length l) (be_get l) = l.
Proof.
  induction l as [|c l IH]; [done|]. cbn [List.length be_put be_get].
  pose proof (be_get_range l) as Hr. pose proof (byte_val_range c). f_equal.
  - rewrite Z.div_add_l, (Z.div_small (be_get l)), Z.add_0_r by lia. apply byte_of_Z_val.
  - rewrite be_put_mod by lia. exact IH.
Qed.

Lemma be_put_get_n n l : List.length l = n -> be_put n (be_get l) = l.
Proof. intros <-. apply be_put_get. Qed.

(** ** Limits and errors *)
Definition maxAFDPWireBytes : Z := 65536.
Definition maxSessionFrame : Z := 1048576.
Definition defaultMaxStreams : Z := 256.
Definition datagramHeaderBytes : Z := 24.
Definition maxDatagramPayload : Z := 65535.
Definition maxDatagramFragments : Z := 1024.
Definition Version : Z := 1.

Definition ErrInvalidVersion := ENew "unsupported AFDP version".
Definition ErrMalformedFrame := ENew "malformed AFDP frame".
Definition ErrFrameTooLarge := ENew "AFDP frame exceeds configured limit".
Definition ErrUnauthorizedAgent := ENew "agent is not present in assignment".
Definition ErrTransient := ENew "AFDP transient resource limit".
Definition ErrProtocolViolation := ENew "AFDP protocol violation".
Definition ErrUnauthorizedOpen := ENew "AFDP open is unauthorized".

(** ** Header *)
Record DatagramHeader := MkHeader {
  Flags : Z; FlowID : Z; Sequence : Z; FragmentIndex : Z; FragmentCount : Z
}.

(** The machine widths of the fields. *)
Definition header_widths (h : DatagramHeader) : Prop :=
  0 <= Flags h < 256 /\ 0 <= FlowID h < 2 ^ 64 /\ 0 <= Sequence h < 2 ^ 32
  /\ 0 <= FragmentIndex h < 65536 /\ 0 <= FragmentCount h < 65536.

Definition DatagramFlagFragmented : Z := 1.
Definition DatagramFlagFin : Z := 2.

Definition has_flag (flags flag : Z) : bool := negb (Z.land flags flag =? 0).

(** [FragmentCount - 1] wraps at 16 bits; a zero count has been rejected before. *)
Definition last_index (h : DatagramHeader) : Z := (FragmentCount h - 1) mod 65536.

Definition validateDatagramHeader (h : DatagramHeader) : result unit :=
  _ ← reject_if (FlowID h =? 0) ErrMalformedFrame;
  _ ← reject_if (FragmentCount h =? 0) ErrMalformedFrame;
  _ ← reject_if ((FragmentCount h =? 1) && negb (FragmentIndex h =? 0)) ErrMalformedFrame;
  _ ← reject_if (FragmentIndex h >=? FragmentCount h) ErrMalformedFrame;
  _ ← reject_if (FragmentCount h >? maxDatagramFragments) ErrFrameTooLarge;
  _ ← reject_if ((FragmentCount h =? 1) && has_flag (Flags h) DatagramFlagFragmented) ErrMalformedFrame;
  _ ← reject_if ((FragmentCount h >? 1) && negb (has_flag (Flags h) DatagramFlagFragmented)) ErrMalformedFrame;
  _ ← reject_if (negb (Z.ldiff (Flags h) (Z.lor DatagramFlagFragmented DatagramFlagFin) =? 0)) ErrMalformedFrame;
  _ ← reject_if ((FragmentIndex h =? last_index h) && negb (has_flag (Flags h) DatagramFlagFin)) ErrMalformedFrame;
  reject_if (negb (FragmentIndex h =? last_index h) && has_flag (Flags h) DatagramFlagFin) ErrMalformedFrame.

Definition normalizeDatagramPayloadLimit (maxPayload : Z) : Z :=
  if (maxPayload <=? 0) || (maxPayload >? maxDatagramPayload) then maxDatagramPayload else maxPayload.

Definition EncodeDatagram (h : DatagramHeader) (payload : bytes) (maxPayload : Z) : result bytes :=
  _ ← validateDatagramHeader h;
  _ ← reject_if (llen payload >? normalizeDatagramPayloadLimit maxPayload) ErrFrameTooLarge;
  Ok (byte_of_Z Version :: byte_of_Z (Flags h) :: be_put 2 datagramHeaderBytes ++ be_put 8 (FlowID h)
      ++ be_put 4 (Sequence h) ++ be_put 2 (FragmentIndex h) ++ be_put 2 (FragmentCount h)
      ++ be_put 2 (llen payload) ++ be_put 2 0 ++ payload).

Definition byte_at (i : nat) (data : bytes) : Z := byte_val (nth i data zero).

Definition DecodeDatagram (data : bytes) (maxPayload : Z) : result (DatagramHeader * bytes) :=
  _ ← reject_if (llen data <? datagramHeaderBytes) ErrMalformedFrame;
  _ ← reject_if (negb (byte_at 0 data =? Version)) ErrInvalidVersion;
  _ ← reject_if (negb (be_get (slice 2 4 data) =? datagramHeaderBytes) || negb (be_get (slice 22 24 data) =? 0))
        ErrMalformedFrame;
  let payloadLength := be_get (slice 20 22 data) in
  _ ← reject_if (negb (payloadLength =? llen data - datagramHeaderBytes)) ErrMalformedFrame;
  let maxPayload := normalizeDatagramPayloadLimit maxPayload in
  let header := MkHeader (byte_at 1 data) (be_get (slice 4 12 data)) (be_get (slice 12 16 data))
                  (be_get (slice 16 18 data)) (be_get (slice 18 20 data)) in
  _ ← validateDatagramHeader header;
  _ ← reject_if (payloadLength >? maxPayload) ErrFrameTooLarge;
  Ok (header, skipn 24 data).

(** ** The header rules as one specification *)
Record header_valid (h : DatagramHeader) : Prop := {
  hv_flow : FlowID h <> 0;
  hv_index : 0 <= FragmentIndex h < FragmentCount h;
  hv_count : FragmentCount h <= maxDatagramFragments;
  hv_flags : Flags h = (if FragmentCount h =? 1 then 0 else DatagramFlagFragmented)
                       + (if FragmentIndex h =? FragmentCount h - 1 then DatagramFlagFin else 0)
}.

(** Only the flag bytes 0 to 3 pass the mask test, so a check over the flag byte
    is a check over four values. *)
Lemma flags_small f : 0 <= f < 256 -> Z.ldiff f 3 = 0 -> f = 0 \/ f = 1 \/ f = 2 \/ f = 3.
Proof.
  intros Hr Hf. assert (Hm : f = f mod 4).
  { change 4 with (2 ^ 2). rewrite <- Z.land_ones by lia. change (Z.ones 2) with 3.
    rewrite <- (Z.lor_ldiff_and f 3) at 1. by rewrite Hf. }
  pose proof (Z.mod_pos_bound f 4). lia.
Qed.

Lemma flag_table f b1 b2 :
  f = 0 \/ f = 1 \/ f = 2 \/ f = 3 ->
  (f = (if b1 : bool then 0 else DatagramFlagFragmented) + (if b2 : bool then DatagramFlagFin else 0)
   <-> has_flag f DatagramFlagFragmented = negb b1 /\ has_flag f DatagramFlagFin = b2).
Proof.
  intros [-> | [-> | [-> | ->]]]; destruct b1, b2; cbv;
    (split; [intros ?; first [discriminate | split; reflexivity] | intros [? ?]; first [discriminate | reflexivity]]).
Qed.

Lemma reject_then c e (r : result unit) : (_ ← reject_if c e; r) = Ok tt <-> c = false /\ r = Ok tt.
Proof. destruct c; cbn; intuition congruence. Qed.

Lemma reject_last c e : reject_if c e = Ok tt <-> c = false.
Proof. apply reject_if_Ok. Qed.

Lemma validateDatagramHeader_spec h :
  header_widths h -> validateDatagramHeader h = Ok tt <-> header_valid h.
Proof.
  intros (Hf & Hflow & _ & Hi & Hc). unfold validateDatagramHeader.
  rewrite !reject_then, reject_last. unfold last_index, maxDatagramFragments.
  rewrite Z.gtb_ltb, Z.gtb_ltb, Z.geb_leb.
  split.
  - intros (H1 & H2 & H3 & H4 & H5 & H6 & H7 & H8 & H9 & H10).
    rewrite Z.mod_small in H9, H10 by lia. bool_facts.
    apply flags_small in H8; [| done].
    constructor; unfold maxDatagramFragments; [lia | lia | lia |].
    apply flag_table; [done|].
    destruct (FragmentCount h =? 1) eqn:E1, (FragmentIndex h =? FragmentCount h - 1) eqn:E2;
      destruct (has_flag (Flags h) DatagramFlagFragmented), (has_flag (Flags h) DatagramFlagFin);
      cbn in *; auto; lia.
  - intros [V1 V2 V3 V4]. unfold maxDatagramFragments in V3.
    rewrite (Z.mod_small (FragmentCount h - 1)) by lia.
    assert (Flags h = 0 \/ Flags h = 1 \/ Flags h = 2 \/ Flags h = 3) as Hsmall.
    { rewrite V4. repeat case_match; cbv; auto. }
    apply flag_table in V4 as [Vf Vn]; [| done]. rewrite Vf, Vn.
    assert (Z.ldiff (Flags h) (Z.lor DatagramFlagFragmented DatagramFlagFin) = 0) as ->
      by (destruct Hsmall as [-> | [-> | [-> | ->]]]; reflexivity).
    destruct (FragmentCount h =? 1) eqn:E1, (FragmentIndex h =? FragmentCount h - 1) eqn:E2; cbn; lia.
Qed.

(** ** Encoding and decoding are inverse *)
Lemma normalize_limit_range m : 0 < normalizeDatagramPayloadLimit m <= maxDatagramPayload.
Proof. unfold normalizeDatagramPayloadLimit, maxDatagramPayload. case_match; bool_facts; lia. Qed.

(** The frame of a header and payload. *)
Definition datagram_frame (h : DatagramHeader) (payload : bytes) : bytes :=
  byte_of_Z Version :: byte_of_Z (Flags h) :: be_put 2 datagramHeaderBytes ++ be_put 8 (FlowID h)
    ++ be_put 4 (Sequence h) ++ be_put 2 (FragmentIndex h) ++ be_put 2 (FragmentCount h)
    ++ be_put 2 (llen payload) ++ be_put 2 0 ++ payload.

Lemma datagram_frame_length h p : llen (datagram_frame h p) = 24 + llen p.
Proof. unfold datagram_frame. cbn [be_put app List.length]. lia. Qed.

Lemma EncodeDatagram_Ok h p m data :
  EncodeDatagram h p m = Ok data <->
  validateDatagramHeader h = Ok tt /\ llen p <= normalizeDatagramPayloadLimit m /\ data = datagram_frame h p.
Proof.
  unfold EncodeDatagram. fold (datagram_frame h p). split.
  - intros H. inv_ok. destruct x. bool_facts. done.
  - intros (-> & Hl & ->). cbn.
    replace (llen p >? normalizeDatagramPayloadLimit m) with false by lia. done.
Qed.

Lemma frame_slices h p :
  let data := datagram_frame h p in
  byte_at 0 data = byte_val (byte_of_Z Version) /\ byte_at 1 data = byte_val (byte_of_Z (Flags h))
  /\ slice 2 4 data = be_put 2 datagramHeaderBytes /\ slice 4 12 data = be_put 8 (FlowID h)
  /\ slice 12 16 data = be_put 4 (Sequence h) /\ slice 16 18 data = be_put 2 (FragmentIndex h)
  /\ slice 18 20 data = be_put 2 (FragmentCount h) /\ slice 20 22 data = be_put 2 (llen p)
  /\ slice 22 24 data = be_put 2 0 /\ skipn 24 data = p.
Proof. cbv beta zeta. repeat split; reflexivity. Qed.

Lemma DecodeDatagram_frame h p m :
  header_widths h -> validateDatagramHeader h = Ok tt -> llen p <= normalizeDatagramPayloadLimit m ->
  DecodeDatagram (datagram_frame h p) m = Ok (h, p).
Proof.
  intros (Hf & Hflow & Hs & Hi & Hc) Hv Hp. pose proof (normalize_limit_range m) as Hm.
  unfold maxDatagramPayload in Hm. unfold DecodeDatagram.
  destruct (frame_slices h p) as (-> & -> & -> & -> & -> & -> & -> & -> & -> & ->).
  rewrite datagram_frame_length, !byte_val_of_Z, (Z.mod_small (Flags h)) by done.
  rewrite !be_get_put_small by (unfold datagramHeaderBytes; cbn; lia).
  unfold datagramHeaderBytes. replace (24 + llen p - 24) with (llen p) by lia.
  replace (24 + llen p <? 24) with false by lia. rewrite !Z.eqb_refl. cbn [negb orb reject_if].
  cbn -[validateDatagramHeader]. destruct h. cbn in Hv |- *. rewrite Hv. cbn.
  by replace (llen p >? normalizeDatagramPayloadLimit m) with false by lia.
Qed.

(** A frame that decodes is the frame of what it decodes to. *)
Lemma DecodeDatagram_inv data m h p :
  DecodeDatagram data m = Ok (h, p) ->
  data = datagram_frame h p /\ header_widths h /\ validateDatagramHeader h = Ok tt
  /\ llen p <= normalizeDatagramPayloadLimit m.
Proof.
  intros H. unfold DecodeDatagram in H. inv_ok. bool_facts. unfold datagramHeaderBytes in *.
  do 24 (destruct data as [|? data]; [cbn in *; lia |]).
  unfold byte_at, slice in *. cbn [nth firstn skipn Nat.sub] in *.
  change (drop 0 data) with data in *. change (take 0 data) with (@nil ascii) in *.
  match goal with H : validateDatagramHeader _ = Ok ?u |- _ => destruct u end.
  split_and!; [| | done | cbn [List.length] in *; lia].
  - unfold datagram_frame. cbn [Flags FlowID Sequence FragmentIndex FragmentCount].
    rewrite byte_of_Z_val, !be_put_get_n by reflexivity. cbn [app].
    repeat match goal with
    | H : byte_val ?c = Version |- _ => rewrite <- H, byte_of_Z_val; clear H
    | H : be_get _ = 24 |- _ => unfold datagramHeaderBytes; rewrite <- H, be_put_get_n by reflexivity; clear H
    | H : be_get ?l = 0 |- context [be_put 2 0] => rewrite <- H, be_put_get_n by reflexivity; clear H
    | H : be_get ?l = _ - 24 |- _ =>
        replace (llen data) with (be_get l) by (cbn [List.length] in *; lia); rewrite be_put_get_n by reflexivity; clear H
    end.
    reflexivity.
  - unfold header_widths. cbn [Flags FlowID Sequence FragmentIndex FragmentCount].
    split_and!; try apply byte_val_range;
      match goal with |- context [be_get ?l] => pose proof (be_get_range l) as Hr; cbn in Hr |- *; lia end.
Qed.

(** C36: a datagram that [EncodeDatagram] produced decodes, under the same payload
    limit, to the header and payload it was made from. *)
Theorem datagram_roundtrip h payload maxPayload data :
  header_widths h -> EncodeDatagram h payload maxPayload = Ok data ->
  DecodeDatagram data maxPayload = Ok (h, payload).
Proof. intros Hw (Hv & Hp & ->)%EncodeDatagram_Ok. by apply DecodeDatagram_frame. Qed.

Definition sample_header : DatagramHeader := MkHeader 3 77 5 1 2.
Definition sample_frame : bytes := datagram_frame sample_header (bytes_of "payload").

Lemma datagram_roundtrip_witness :
  EncodeDatagram sample_header (bytes_of "payload") 100 = Ok sample_frame
  /\ DecodeDatagram sample_frame 100 = Ok (sample_header, bytes_of "payload").
Proof.
  split; [vm_compute; reflexivity |].
  apply datagram_roundtrip; [cbv; intuition congruence | vm_compute; reflexivity].
Defined.

(** The wire format is canonical: bytes that [DecodeDatagram] accepts are
    exactly the encoding of the decoded header and payload, whose header obeys the
    header rules; two different byte strings never decode to the same datagram. *)
Theorem datagram_canonical data maxPayload h payload :
  DecodeDatagram data maxPayload = Ok (h, payload) ->
  EncodeDatagram h payload maxPayload = Ok data /\ header_valid h
  /\ llen data = datagramHeaderBytes + llen payload.
Proof.
  intros (-> & Hw & Hv & Hp)%DecodeDatagram_inv. split_and!.
  - by apply EncodeDatagram_Ok.
  - by apply validateDatagramHeader_spec.
  - apply datagram_frame_length.
Qed.

Lemma datagram_canonical_witness :
  DecodeDatagram sample_frame 100 = Ok (sample_header, bytes_of "payload")
  /\ EncodeDatagram sample_header (bytes_of "payload") 100 = Ok sample_frame.
Proof.
  assert (H : DecodeDatagram sample_frame 100 = Ok (sample_header, bytes_of "payload")) by (vm_compute; reflexivity).
  split; [exact H |]. apply (datagram_canonical _ _ _ _ H).
Defined.
