(* ===== verification/Reassembly.v ===== *)
(** * Fragmentation and reassembly (src/internal/afdp/protocol_reassembly.go)

    [Fragments] cuts a payload into datagrams, the [Reassembler] collects them
    under a flow, byte and time budget and remembers completed flows to reject
    replays.  The two are inverse to each other in every delivery order. *)
From S2P Require Import Prelude GoStd Datagram.

(** ** Fragments *)
Definition fragment_count (len partSize : Z) : Z :=
  let count := (len + partSize - 1) / partSize in
  if count =? 0 then 1 else count.

Definition fragment_flags (index count : Z) : Z :=
  let flags := 0 in
  let flags := if count >? 1 then Z.lor flags DatagramFlagFragmented else flags in
  if index =? count - 1 then Z.lor flags DatagramFlagFin else flags.

(** [payload\[start:end\]] of one fragment. *)
Definition fragment_part (payload : bytes) (partSize index : Z) : bytes :=
  let start := index * partSize in
  let stop := start + partSize in
  let stop := if stop >? llen payload then llen payload else stop in
  slice (Z.to_nat start) (Z.to_nat stop) payload.

Definition Fragments (flowID sequence : Z) (payload : bytes) (mtu : Z) : result (list bytes) :=
  _ ← reject_if (flowID =? 0) ErrMalformedFrame;
  _ ← reject_if (mtu <=? datagramHeaderBytes) (ENew "datagram MTU is too small");
  let partSize := mtu - datagramHeaderBytes in
  let count := fragment_count (llen payload) partSize in
  _ ← reject_if (count >? maxDatagramFragments) ErrFrameTooLarge;
  for_each (fun index (_ : unit) result =>
      frame ← EncodeDatagram (MkHeader (fragment_flags index count) flowID sequence index count)
                (fragment_part payload partSize index) partSize;
      Ok (result ++ [frame]))
    0 (repeat tt (Z.to_nat count)) [].

(** ** The completion heap ([container/heap] over [completedHeap]) *)
Definition flowKey : Type := (Z * Z)%type.

Record completedEntry := MkEntry { entry_key : flowKey; entry_at : Z }.

Section Heap.
Implicit Types h : list completedEntry.

(** [Less(i, j)]. *)
Definition heap_less h (i j : nat) : bool :=
  match h !! i, h !! j with
  | Some a, Some b => entry_at a <? entry_at b
  | _, _ => false
  end.

Definition heap_swap h (i j : nat) : list completedEntry :=
  match h !! i, h !! j with
  | Some a, Some b => <[i := b]> (<[j := a]> h)
  | _, _ => h
  end.

(** Sift up from [j]; the index halves in each round. *)
Fixpoint heap_up (fuel : nat) h (j : nat) : list completedEntry :=
  match fuel with
  | O => h
  | S fuel =>
      let i := ((j - 1) / 2)%nat in
      if (i =? j)%nat || negb (heap_less h j i) then h else heap_up fuel (heap_swap h i j) i
  end.

(** Sift down from [i] below [n]; the index grows in each round. *)
Fixpoint heap_down (fuel : nat) h (i n : nat) : list completedEntry :=
  match fuel with
  | O => h
  | S fuel =>
      let j1 := (2 * i + 1)%nat in
      if (n <=? j1)%nat then h else
      let j2 := S j1 in
      let j := if (j2 <? n)%nat && heap_less h j2 j1 then j2 else j1 in
      if negb (heap_less h j i) then h else heap_down fuel (heap_swap h i j) j n
  end.

Definition heap_push h (x : completedEntry) : list completedEntry :=
  heap_up (S (List.length h)) (h ++ [x]) (List.length h).

Definition heap_pop h : option (completedEntry * list completedEntry) :=
  let n := (List.length h - 1)%nat in
  let h' := heap_down (S n) (heap_swap h 0 n) 0 n in
  x ← last h'; Some (x, take n h').
End Heap.

(** ** The reassembler *)
Record fragmentSet := MkFragmentSet {
  set_created : Z; set_count : Z; set_parts : gmap Z bytes; set_bytes : Z
}.

Record Reassembler := MkReassembler {
  flows : gmap flowKey fragmentSet;
  completed : gmap flowKey Z;
  completedOrder : list completedEntry;
  maxFlows : Z; maxBytes : Z; maxPayload : Z; timeout : Z;
  held : Z
}.

Definition with_flows (r : Reassembler) fl b :=
  MkReassembler fl (completed r) (completedOrder r) (maxFlows r) (maxBytes r) (maxPayload r) (timeout r) b.
Definition with_completed (r : Reassembler) c o :=
  MkReassembler (flows r) c o (maxFlows r) (maxBytes r) (maxPayload r) (timeout r) (held r).

Definition NewReassembler (mf mb mp to : Z) : result Reassembler :=
  _ ← reject_if ((mf <=? 0) || (mb <=? 0) || (mp <=? 0) || (to <=? 0)) (ENew "reassembler limits must be positive");
  _ ← reject_if ((mf >? 1048576) || (mb >? 67108864) || (mp >? maxDatagramPayload) || (to >? 24 * 3600 * 1000000000))
        (ENew "reassembler limits exceed the supported maximum");
  Ok (MkReassembler ∅ ∅ [] mf mb mp to 0).

(** The flow loop of [expireLocked]. *)
Definition expire_flow (now : Z) (r : Reassembler) (kv : flowKey * fragmentSet) : Reassembler :=
  let '(key, set) := kv in
  if time_sub now (set_created set) >=? timeout r
  then with_flows r (delete key (flows r)) (held r - set_bytes set) else r.

(** [delete(r.completed, key)] if the remembered time is the entry's. *)
Definition forget (c : gmap flowKey Z) (e : completedEntry) : option (gmap flowKey Z) :=
  match c !! entry_key e with
  | Some at_ => if at_ =? entry_at e then Some (delete (entry_key e) c) else None
  | None => None
  end.

(** The completion loop of [expireLocked]: each round pops one entry, so the
    length of the heap is enough fuel. *)
Fixpoint expire_completed (fuel : nat) (now : Z) (r : Reassembler) : Reassembler :=
  match fuel with
  | O => r
  | S fuel =>
      match completedOrder r with
      | [] => r
      | entry :: _ =>
          if time_sub now (entry_at entry) <? timeout r then r else
          match heap_pop (completedOrder r) with
          | None => r
          | Some (_, order) =>
              expire_completed fuel now (with_completed r (default (completed r) (forget (completed r) entry)) order)
          end
      end
  end.

Definition expireLocked (r : Reassembler) (now : Z) : Reassembler :=
  let r := foldl (expire_flow now) r (map_to_list (flows r)) in
  expire_completed (List.length (completedOrder r)) now r.

Definition Expire := expireLocked.

Definition InFlight (r : Reassembler) : Z * Z := (Z.of_nat (size (flows r)), held r).

(** The eviction loop of [Add]: pops until an entry was forgotten. *)
Fixpoint evict (fuel : nat) (r : Reassembler) : Reassembler :=
  match fuel with
  | O => r
  | S fuel =>
      if (Z.of_nat (size (completed r)) <? maxFlows r * 2) || (llen (completedOrder r) =? 0) then r else
      match heap_pop (completedOrder r) with
      | None => r
      | Some (entry, order) =>
          match forget (completed r) entry with
          | Some c => with_completed r c order
          | None => evict fuel (with_completed r (completed r) order)
          end
      end
  end.

(** The parts in index order; [None] if one is missing. *)
Fixpoint collect_parts (n : nat) (index : Z) (parts : gmap Z bytes) : option bytes :=
  match n with
  | O => Some []
  | S n => part ← parts !! index; rest ← collect_parts n (index + 1) parts; Some (part ++ rest)
  end.

Definition drop_set (r : Reassembler) (key : flowKey) (set : fragmentSet) : Reassembler :=
  with_flows r (delete key (flows r)) (held r - set_bytes set).

(** The completed branch of [Add]: hand out the payload, free the flow, make
    room in the replay memory and remember the key. *)
Definition complete_set (r : Reassembler) (key : flowKey) (set : fragmentSet) (now : Z)
    : Reassembler * result (option bytes) :=
  match collect_parts (Z.to_nat (set_count set)) 0 (set_parts set) with
  | None => (r, Ok None)
  | Some result =>
      let r := drop_set r key set in
      let r := evict (List.length (completedOrder r)) r in
      (with_completed r (<[key := now]> (completed r)) (heap_push (completedOrder r) (MkEntry key now)),
       Ok (Some result))
  end.

(** [Add] from the point where the flow's set is known. *)
Definition add_part (r : Reassembler) (key : flowKey) (set : fragmentSet) (header : DatagramHeader)
    (payload : bytes) (now : Z) : Reassembler * result (option bytes) :=
  if negb (set_count set =? FragmentCount header) then (drop_set r key set, Err ErrMalformedFrame)
  else if bool_decide (is_Some (set_parts set !! FragmentIndex header))
  then (drop_set r key set, Err ErrMalformedFrame)
  else if held r + llen payload >? maxBytes r
  then (drop_set r key set, Err (EWrap "%w: reassembler byte limit reached" [] ErrTransient))
  else
  let set := MkFragmentSet (set_created set) (set_count set)
               (<[FragmentIndex header := payload]> (set_parts set)) (set_bytes set + llen payload) in
  let r := with_flows r (<[key := set]> (flows r)) (held r + llen payload) in
  if negb (Z.of_nat (size (set_parts set)) =? set_count set) then (r, Ok None)
  else complete_set r key set now.

(** [Add(data, now)] with [wall] the wall clock read when [now] is the zero
    time.  [Ok None] is [(nil, false, nil)], [Ok (Some p)] is [(p, true, nil)]. *)
Definition Add (r : Reassembler) (data : bytes) (now wall : Z) : Reassembler * result (option bytes) :=
  match DecodeDatagram data (maxPayload r) with
  | Err e => (r, Err e)
  | Ok (header, payload) =>
      let now := if is_zero_time now then wall else now in
      let r := expireLocked r now in
      let key : flowKey := (FlowID header, Sequence header) in
      if bool_decide (is_Some (completed r !! key)) then (r, Err ErrMalformedFrame) else
      match flows r !! key with
      | Some set => add_part r key set header payload now
      | None =>
          if Z.of_nat (size (flows r)) >=? maxFlows r
          then (r, Err (EWrap "%w: reassembler flow limit reached" [] ErrTransient))
          else let set := MkFragmentSet now (FragmentCount header) ∅ 0 in
               add_part (with_flows r (<[key := set]> (flows r)) (held r)) key set header payload now
      end
  end.
