(* ===== verification/ReassemblyFacts.v ===== *)
(** * Facts about fragmentation and reassembly

    The heap operations permute their entries, expiry drops exactly the timed-out
    flows, and every operation preserves the budget invariant [wf]. *)
From S2P Require Import Prelude GoStd Datagram Reassembly.

(** ** The heap keeps its entries *)
Section HeapFacts.
Implicit Types h : list completedEntry.

Lemma heap_swap_length h i j : List.length (heap_swap h i j) = List.length h.
Proof. unfold heap_swap. repeat case_match; by rewrite ?length_insert. Qed.

Lemma heap_swap_perm h i j : heap_swap h i j ≡ₚ h.
Proof.
  unfold heap_swap. destruct (h !! i) as [a|] eqn:Hi; [|done]. destruct (h !! j) as [b|] eqn:Hj; [|done].
  apply Permutation_inj. rewrite !length_insert. split; [done|].
  exists (fun k => if decide (k = i) then j else if decide (k = j) then i else k). split.
  - intros x y. repeat case_decide; congruence.
  - intros k. pose proof (lookup_lt_Some _ _ _ Hi). pose proof (lookup_lt_Some _ _ _ Hj).
    destruct (decide (k = i)) as [->|].
    { rewrite list_lookup_insert_eq by (by rewrite length_insert). congruence. }
    rewrite list_lookup_insert_ne by done.
    destruct (decide (k = j)) as [->|]; [rewrite list_lookup_insert_eq by done; congruence |].
    by rewrite list_lookup_insert_ne.
Qed.

Lemma heap_up_perm fuel h j : heap_up fuel h j ≡ₚ h.
Proof.
  revert h j. induction fuel as [|fuel IH]; intros h j; cbn [heap_up]; [done|].
  case_match; [done|]. by rewrite IH, heap_swap_perm.
Qed.

Lemma heap_down_perm fuel h i n : heap_down fuel h i n ≡ₚ h.
Proof.
  revert h i. induction fuel as [|fuel IH]; intros h i; cbn [heap_down]; [done|].
  repeat case_match; try done; by rewrite IH, heap_swap_perm.
Qed.

Lemma heap_push_perm h x : heap_push h x ≡ₚ x :: h.
Proof. unfold heap_push. rewrite heap_up_perm. by rewrite Permutation_app_comm. Qed.

Lemma heap_swap_other h i j k : k <> i -> k <> j -> heap_swap h i j !! k = h !! k.
Proof. intros. unfold heap_swap. repeat case_match; [| done ..]. by rewrite !list_lookup_insert_ne. Qed.

(** Sifting below [n] leaves position [n] alone. *)
Lemma heap_down_frame fuel h i n : heap_down fuel h i n !! n = h !! n.
Proof.
  revert h i. induction fuel as [|fuel IH]; intros h i; cbn [heap_down]; [done|].
  destruct (n <=? 2 * i + 1)%nat eqn:E; [done|]. apply Nat.leb_gt in E.
  set (j := if (S (2 * i + 1) <? n)%nat && heap_less h (S (2 * i + 1)) (2 * i + 1) then S (2 * i + 1) else (2 * i + 1)%nat).
  assert (j < n)%nat.
  { unfold j. destruct (S (2 * i + 1) <? n)%nat eqn:E2; cbn [andb]; [apply Nat.ltb_lt in E2; case_match; lia | lia]. }
  case_match; [done|]. rewrite IH. apply heap_swap_other; lia.
Qed.

Lemma heap_pop_cons x h :
  exists h', heap_pop (x :: h) = Some (x, h') /\ h' ≡ₚ h.
Proof.
  unfold heap_pop. set (n := (List.length (x :: h) - 1)%nat).
  set (h' := heap_down (S n) (heap_swap (x :: h) 0 n) 0 n).
  assert (Hlen : List.length h' = S n).
  { unfold h'. rewrite (Permutation_length (heap_down_perm _ _ _ _)), heap_swap_length. cbn. lia. }
  assert (Hn : h' !! n = Some x).
  { unfold h'. rewrite heap_down_frame. unfold heap_swap. cbn [lookup list_lookup].
    destruct ((x :: h) !! n) as [b|] eqn:E.
    - destruct (decide (n = 0%nat)) as [->|].
      + rewrite list_lookup_insert_eq; [| rewrite length_insert; cbn; lia]. cbn in E. done.
      + rewrite list_lookup_insert_ne by done. apply list_lookup_insert_eq. unfold n. cbn. lia.
    - apply lookup_ge_None in E. unfold n in E. cbn in E. lia. }
  assert (Hl : last h' = Some x) by (rewrite last_lookup, Hlen; exact Hn).
  rewrite Hl. exists (take n h'). split; [done|].
  assert (h' ≡ₚ x :: h) as Hp by (unfold h'; by rewrite heap_down_perm, heap_swap_perm).
  apply (Permutation_cons_inv (a := x)). rewrite <- Hp.
  rewrite <- (take_drop n h') at 2. rewrite (drop_S _ _ _ Hn), drop_ge by lia.
  by rewrite Permutation_app_comm.
Qed.
End HeapFacts.

(** ** Expiry of flows *)
Definition expired (r : Reassembler) (now : Z) (set : fragmentSet) : bool :=
  time_sub now (set_created set) >=? timeout r.

Definition same_limits (r r' : Reassembler) : Prop :=
  maxFlows r = maxFlows r' /\ maxBytes r = maxBytes r' /\ maxPayload r = maxPayload r' /\ timeout r = timeout r'.

Lemma expire_flow_fold now l r :
  NoDup l.*1 -> (forall k s, (k, s) ∈ l -> flows r !! k = Some s) ->
  let r' := foldl (expire_flow now) r l in
  same_limits r r' /\ completed r' = completed r /\ completedOrder r' = completedOrder r
  /\ held r' - msum set_bytes (flows r') = held r - msum set_bytes (flows r)
  /\ forall k, flows r' !! k = (if bool_decide (k ∈ l.*1) then
       s ← flows r !! k; if expired r now s then None else Some s else flows r !! k).
Proof.
  revert r. induction l as [|[k s] l IH]; intros r Hnd Hin r'.
  { unfold r'. cbn. unfold same_limits. done. }
  cbn in Hnd. apply NoDup_cons in Hnd as [Hk Hnd]. unfold r'. cbn [foldl].
  assert (Hks : flows r !! k = Some s) by (apply Hin; constructor).
  set (r1 := expire_flow now r (k, s)).
  assert (Hr1 : same_limits r r1 /\ completed r1 = completed r /\ completedOrder r1 = completedOrder r
    /\ held r1 - msum set_bytes (flows r1) = held r - msum set_bytes (flows r)
    /\ flows r1 = if expired r now s then delete k (flows r) else flows r).
  { unfold r1, expire_flow. fold (expired r now s). destruct (expired r now s); cbn; [| done].
    rewrite (msum_delete _ _ _ _ Hks). split_and!; try done. lia. }
  destruct Hr1 as (Hl1 & Hc1 & Ho1 & Hh1 & Hf1).
  destruct (IH r1 Hnd) as (Hl & Hc & Ho & Hh & Hf).
  { intros k' s' Hin'. rewrite Hf1. assert (k' <> k) by (intros ->; apply Hk; apply list_elem_of_fmap; by exists (k, s')).
    case_match; [rewrite lookup_delete_ne by done |]; apply Hin; by constructor. }
  destruct Hl1 as (L1 & L2 & L3 & L4), Hl as (L1' & L2' & L3' & L4').
  split; [split_and!; congruence|]. split; [congruence|]. split; [congruence|]. split; [lia|].
  intros k'. rewrite Hf. assert (Hex : forall x, expired r1 now x = expired r now x) by (intros; unfold expired; by rewrite L4).
  destruct (decide (k' = k)) as [->|Hne].
  - rewrite bool_decide_eq_false_2 by done. rewrite bool_decide_eq_true_2 by (cbn; constructor).
    rewrite Hf1, Hks. cbn. case_match; [apply lookup_delete_eq | done].
  - assert (flows r1 !! k' = flows r !! k') as -> by (rewrite Hf1; case_match; [by rewrite lookup_delete_ne | done]).
    assert (bool_decide (k' ∈ (k :: l.*1)) = bool_decide (k' ∈ l.*1)) as He
      by (apply bool_decide_ext; rewrite elem_of_cons; intuition congruence).
    change (((k, s) :: l).*1) with (k :: l.*1). rewrite He.
    destruct (decide (k' ∈ l.*1)); [rewrite !bool_decide_eq_true_2 by done | rewrite !bool_decide_eq_false_2 by done; done].
    destruct (flows r !! k'); cbn; [by rewrite Hex | done].
Qed.

Lemma expire_flows_spec now r :
  let r' := foldl (expire_flow now) r (map_to_list (flows r)) in
  same_limits r r' /\ completed r' = completed r /\ completedOrder r' = completedOrder r
  /\ held r' - msum set_bytes (flows r') = held r - msum set_bytes (flows r)
  /\ flows r' = filter (fun kv => expired r now kv.2 = false) (flows r).
Proof.
  destruct (expire_flow_fold now (map_to_list (flows r)) r) as (H1 & H2 & H3 & H4 & H5).
  { apply NoDup_fst_map_to_list. }
  { intros k s. apply elem_of_map_to_list. }
  split_and!; try done. apply map_eq. intros k. rewrite H5.
  case_bool_decide as Hk.
  - destruct (flows r !! k) as [s|] eqn:E; cbn.
    + destruct (expired r now s) eqn:Ex; symmetry.
      * apply map_lookup_filter_None. right. intros x Hx Hp. rewrite E in Hx. injection Hx as <-. cbn in Hp. congruence.
      * apply map_lookup_filter_Some. done.
    + symmetry. apply map_lookup_filter_None. by left.
  - destruct (flows r !! k) as [s|] eqn:E.
    + exfalso. apply Hk, list_elem_of_fmap. exists (k, s). split; [done | by apply elem_of_map_to_list].
    + symmetry. apply map_lookup_filter_None. by left.
Qed.

(** ** The budget invariant *)
Record set_ok (s : fragmentSet) : Prop := {
  so_bytes : set_bytes s = msum (fun p => llen p) (set_parts s);
  so_index : forall i p, set_parts s !! i = Some p -> 0 <= i < set_count s;
  so_open : Z.of_nat (size (set_parts s)) < set_count s
}.

(** The heap holds one entry for every remembered flow. *)
Record memory_ok (c : gmap flowKey Z) (o : list completedEntry) : Prop := {
  mo_nodup : NoDup (entry_key <$> o);
  mo_entries : forall k t, c !! k = Some t <-> MkEntry k t ∈ o
}.

Record wf (r : Reassembler) : Prop := {
  wf_limits : 0 < maxFlows r /\ 0 < maxBytes r /\ 0 < timeout r <= 24 * 3600 * 1000000000;
  wf_sets : forall k s, flows r !! k = Some s -> set_ok s;
  wf_held : held r = msum set_bytes (flows r);
  wf_bytes : held r <= maxBytes r;
  wf_flows : Z.of_nat (size (flows r)) <= maxFlows r;
  wf_memory : memory_ok (completed r) (completedOrder r);
  wf_completed : Z.of_nat (size (completed r)) <= 2 * maxFlows r;
  wf_disjoint : forall k, is_Some (flows r !! k) -> completed r !! k = None
}.

Lemma set_ok_bytes_nonneg s : set_ok s -> 0 <= set_bytes s.
Proof. intros H. rewrite (so_bytes _ H). apply msum_nonneg. intros. lia. Qed.

Lemma memory_pop c e o :
  memory_ok c (e :: o) ->
  exists o', heap_pop (e :: o) = Some (e, o') /\ o' ≡ₚ o
    /\ forget c e = Some (delete (entry_key e) c) /\ memory_ok (delete (entry_key e) c) o'.
Proof.
  intros [Hnd Hent]. destruct (heap_pop_cons e o) as (o' & Hpop & Hp). exists o'.
  change (NoDup (entry_key e :: (entry_key <$> o))) in Hnd. apply NoDup_cons in Hnd as [Hk Hnd].
  assert (He : c !! entry_key e = Some (entry_at e)) by (apply Hent; destruct e; constructor).
  split_and!; [done | done | |].
  - unfold forget. rewrite He, Z.eqb_refl. done.
  - constructor; [by rewrite Hp|]. intros k t. rewrite Hp.
    destruct (decide (k = entry_key e)) as [->|Hne].
    + rewrite lookup_delete_eq. split; [done|]. intros Hin. exfalso. apply Hk.
      apply list_elem_of_fmap. by exists (MkEntry (entry_key e) t).
    + rewrite lookup_delete_ne by done. rewrite Hent, elem_of_cons.
      split; [| by right]. intros [<-|?]; done.
Qed.

Lemma wf_with_completed r c o :
  wf r -> memory_ok c o -> Z.of_nat (size c) <= 2 * maxFlows r -> c ⊆ completed r -> wf (with_completed r c o).
Proof.
  intros [] Hm Hs Hsub. constructor; try done. cbn. intros k Hk.
  destruct (c !! k) as [t|] eqn:E; [| done]. exfalso.
  pose proof (lookup_weaken _ _ _ _ E Hsub). rewrite wf_disjoint0 in *; done.
Qed.

Lemma wf_pop r e o :
  wf r -> completedOrder r = e :: o ->
  exists o', heap_pop (completedOrder r) = Some (e, o')
    /\ o' ≡ₚ o
    /\ forget (completed r) e = Some (delete (entry_key e) (completed r))
    /\ Z.of_nat (size (delete (entry_key e) (completed r))) = Z.of_nat (size (completed r)) - 1
    /\ wf (with_completed r (delete (entry_key e) (completed r)) o').
Proof.
  intros Hwf Ho. pose proof (wf_memory _ Hwf) as Hm. rewrite Ho in Hm |- *.
  destruct (memory_pop _ _ _ Hm) as (o' & H1 & H2 & H3 & H4). exists o'. split_and!; try done.
  - assert (completed r !! entry_key e = Some (entry_at e)) as He
      by (apply Hm; destruct e; constructor).
    rewrite map_size_delete_Some by (by rewrite He).
    assert (size (completed r) <> 0%nat); [| lia].
    intros Hz%map_size_empty_inv. by rewrite Hz, lookup_empty in He.
  - apply wf_with_completed; try done; [| apply delete_subseteq].
    pose proof (wf_completed _ Hwf).
    pose proof (map_subseteq_size _ _ (delete_subseteq (completed r) (entry_key e))). lia.
Qed.

Lemma expire_completed_facts fuel now r :
  wf r -> let r' := expire_completed fuel now r in
  wf r' /\ same_limits r r' /\ flows r' = flows r /\ held r' = held r /\ completed r' ⊆ completed r
  /\ (forall k t, completed r !! k = Some t -> time_sub now t < timeout r -> completed r' !! k = Some t).
Proof.
  revert r. induction fuel as [|fuel IH]; intros r Hwf; cbn [expire_completed].
  { unfold same_limits. split_and!; done. }
  destruct (completedOrder r) as [|e o] eqn:Ho; [unfold same_limits; split_and!; done |].
  destruct (time_sub now (entry_at e) <? timeout r) eqn:Et; [unfold same_limits; split_and!; done |].
  destruct (wf_pop _ _ _ Hwf Ho) as (o' & Hpop & _ & Hf & _ & Hwf'). rewrite Ho in Hpop. rewrite Hpop, Hf. cbn [default].
  destruct (IH _ Hwf') as (H1 & H2 & H3 & H4 & H5 & H6). cbn in H3, H4, H5, H6 |- *.
  split_and!; try done.
  - etrans; [exact H5 | apply delete_subseteq].
  - intros k t Hk Ht. apply H6; [| done]. rewrite lookup_delete_ne; [done|]. intros <-.
    apply Z.ltb_ge in Et.
    pose proof (proj2 (mo_entries _ _ (wf_memory _ Hwf) (entry_key e) (entry_at e))) as He.
    rewrite Ho in He. rewrite He in Hk by (destruct e; constructor). injection Hk as <-. lia.
Qed.

(** Without its flows expired, [r] keeps its invariant. *)
Lemma wf_with_flows r fl b :
  wf r -> (forall k s, fl !! k = Some s -> set_ok s) -> b = msum set_bytes fl -> b <= maxBytes r ->
  Z.of_nat (size fl) <= maxFlows r -> (forall k, is_Some (fl !! k) -> completed r !! k = None) ->
  wf (with_flows r fl b).
Proof. intros [] ? ? ? ? ?. by constructor. Qed.

Lemma msum_filter_le (P : flowKey * fragmentSet -> Prop) `{!forall x, Decision (P x)} (m : gmap flowKey fragmentSet) :
  (forall k s, m !! k = Some s -> 0 <= set_bytes s) -> msum set_bytes (filter P m) <= msum set_bytes m.
Proof.
  induction m as [|k s m Hk IH] using map_ind; intros Hpos; [by rewrite map_filter_empty|].
  rewrite msum_insert by done.
  assert (0 <= set_bytes s) by (apply (Hpos k); apply lookup_insert_eq).
  assert (msum set_bytes (filter P m) <= msum set_bytes m).
  { apply IH. intros k' s' Hs'. apply (Hpos k'). rewrite lookup_insert_ne; congruence. }
  destruct (decide (P (k, s))).
  - rewrite map_filter_insert_True by done. rewrite msum_insert; [lia|].
    apply map_lookup_filter_None. by left.
  - rewrite map_filter_insert_False by done. rewrite delete_id by done. lia.
Qed.

(** [expireLocked]: exactly the expired flows go, the rest is untouched. *)
Lemma expireLocked_facts now r :
  wf r -> let r' := expireLocked r now in
  wf r' /\ same_limits r r' /\ held r' <= held r
  /\ flows r' = filter (fun kv => expired r now kv.2 = false) (flows r)
  /\ completed r' ⊆ completed r
  /\ (forall k t, completed r !! k = Some t -> time_sub now t < timeout r -> completed r' !! k = Some t).
Proof.
  intros Hwf. unfold expireLocked.
  destruct (expire_flows_spec now r) as (Hl & Hc & Ho & Hh & Hf).
  set (r1 := foldl (expire_flow now) r (map_to_list (flows r))) in *.
  assert (Hheld : held r1 = msum set_bytes (flows r1)) by (rewrite (wf_held _ Hwf) in Hh; lia).
  assert (Hle : held r1 <= held r).
  { rewrite Hheld, Hf, (wf_held _ Hwf). apply msum_filter_le.
    intros k s Hs. apply set_ok_bytes_nonneg. by apply (wf_sets _ Hwf k). }
  assert (Hwf1 : wf r1).
  { destruct Hl as (L1 & L2 & L3 & L4).
    replace r1 with (with_flows r (flows r1) (held r1))
      by (destruct r, r1; cbn in *; unfold with_flows; cbn; congruence).
    pose proof (wf_bytes _ Hwf). pose proof (wf_flows _ Hwf).
    apply wf_with_flows; [done | | done | lia | |].
    - intros k s. rewrite Hf. intros [Hs _]%map_lookup_filter_Some. by apply (wf_sets _ Hwf k).
    - rewrite Hf. pose proof (map_subseteq_size _ _ (map_filter_subseteq (fun kv => expired r now kv.2 = false) (flows r))). lia.
    - intros k [s Hs]. rewrite Hf in Hs. apply map_lookup_filter_Some in Hs as [Hs _].
      apply (wf_disjoint _ Hwf). by exists s. }
  destruct (expire_completed_facts (List.length (completedOrder r1)) now r1 Hwf1) as (H1 & H2 & H3 & H4 & H5 & H6).
  destruct Hl as (L1 & L2 & L3 & L4), H2 as (L1' & L2' & L3' & L4'). rewrite <- Hc.
  split; [done|]. split; [split_and!; congruence|]. split; [lia|]. split; [congruence|]. split; [done|].
  intros k t Hk Ht. apply H6; [done|]. by rewrite <- L4.
Qed.

(** ** Every operation preserves the invariant *)
Lemma wf_drop_set r key set : wf r -> flows r !! key = Some set -> wf (drop_set r key set).
Proof.
  intros Hwf Hk. pose proof (msum_delete set_bytes _ _ _ Hk) as Hm.
  pose proof (set_ok_bytes_nonneg _ (wf_sets _ Hwf _ _ Hk)). pose proof (wf_held _ Hwf).
  pose proof (wf_bytes _ Hwf). pose proof (wf_flows _ Hwf).
  pose proof (map_subseteq_size _ _ (delete_subseteq (flows r) key)).
  apply wf_with_flows; [done | | lia | lia | lia |].
  - intros k s [_ Hs]%lookup_delete_Some. by apply (wf_sets _ Hwf k).
  - intros k [s [_ Hs]%lookup_delete_Some]. apply (wf_disjoint _ Hwf). by exists s.
Qed.

Lemma wf_open_set r key now count :
  wf r -> flows r !! key = None -> completed r !! key = None -> 0 < count ->
  Z.of_nat (size (flows r)) < maxFlows r ->
  wf (with_flows r (<[key := MkFragmentSet now count ∅ 0]> (flows r)) (held r)).
Proof.
  intros Hwf Hk Hc Hcount Hsize. pose proof (wf_bytes _ Hwf).
  apply wf_with_flows; [done | | | done | |].
  - intros k s. destruct (decide (k = key)) as [->|Hne].
    + rewrite lookup_insert_eq. intros [= <-]. constructor; cbn; [done | by intros ? ? ?%lookup_empty_Some | by rewrite map_size_empty].
    + rewrite lookup_insert_ne by done. apply (wf_sets _ Hwf).
  - rewrite msum_insert by done. cbn. apply (wf_held _ Hwf).
  - rewrite map_size_insert_None by done. lia.
  - intros k. destruct (decide (k = key)) as [->|Hne]; [done|].
    rewrite lookup_insert_ne by done. apply (wf_disjoint _ Hwf).
Qed.

Lemma map_indices_total (m : gmap Z bytes) (n : nat) :
  (forall i p, m !! i = Some p -> 0 <= i < Z.of_nat n) -> size m = n ->
  forall i, 0 <= i < Z.of_nat n -> is_Some (m !! i).
Proof.
  intros Hdom Hsize i Hi. apply elem_of_dom.
  assert (dom m = (list_to_set (seqZ 0 (Z.of_nat n)) : gset Z)) as ->.
  { apply set_subseteq_size_eq.
    - intros j [p Hp]%elem_of_dom. apply elem_of_list_to_set, elem_of_seqZ. specialize (Hdom j p Hp). lia.
    - rewrite size_dom, size_list_to_set by apply NoDup_seqZ. rewrite length_seqZ. lia. }
  apply elem_of_list_to_set, elem_of_seqZ. lia.
Qed.

Lemma collect_parts_total n i (m : gmap Z bytes) :
  (forall j, i <= j < i + Z.of_nat n -> is_Some (m !! j)) -> is_Some (collect_parts n i m).
Proof.
  revert i. induction n as [|n IH]; intros i H; cbn; [done|].
  destruct (H i) as [p ->]; [lia|]. cbn. destruct (IH (i + 1)) as [q ->]; [intros; apply H; lia|]. done.
Qed.

Lemma evict_facts r :
  wf r -> let r' := evict (List.length (completedOrder r)) r in
  wf r' /\ same_limits r r' /\ flows r' = flows r /\ held r' = held r
  /\ completed r' ⊆ completed r /\ Z.of_nat (size (completed r')) < 2 * maxFlows r.
Proof.
  intros Hwf. pose proof (wf_limits _ Hwf) as (Hmf & _). destruct (completedOrder r) as [|e o] eqn:Ho; cbn [List.length evict].
  - assert (completed r = ∅) as ->.
    { apply map_empty. intros k. destruct (completed r !! k) as [t|] eqn:E; [| done].
      apply (mo_entries _ _ (wf_memory _ Hwf)) in E. rewrite Ho in E. by apply elem_of_nil in E. }
    unfold same_limits. rewrite map_size_empty. split_and!; try done; lia.
  - assert (Hne : (llen (completedOrder r) =? 0) = false) by (rewrite Ho; apply Z.eqb_neq; cbn [List.length]; lia).
    rewrite Hne, orb_false_r. destruct (Z.ltb_spec (Z.of_nat (size (completed r))) (maxFlows r * 2)) as [E|E].
    + unfold same_limits. split_and!; try done. lia.
    + destruct (wf_pop _ _ _ Hwf Ho) as (o' & -> & _ & -> & Hs & Hwf'). pose proof (wf_completed _ Hwf).
      unfold same_limits. split_and!; try done; cbn; [apply delete_subseteq | lia].
Qed.

Lemma memory_push c o k t :
  memory_ok c o -> c !! k = None -> memory_ok (<[k := t]> c) (heap_push o (MkEntry k t)).
Proof.
  intros [Hnd Hent] Hk. constructor.
  - rewrite heap_push_perm. change (NoDup (k :: (entry_key <$> o))). apply NoDup_cons. split; [| done].
    intros ((k' & t') & -> & Hin)%list_elem_of_fmap. apply Hent in Hin. cbn in Hk. congruence.
  - intros k' t'. rewrite heap_push_perm, elem_of_cons. destruct (decide (k' = k)) as [->|Hne].
    + rewrite lookup_insert_eq. split.
      * intros [= ->]. by left.
      * intros [[= ->]|Hin]; [done|]. apply Hent in Hin. congruence.
    + rewrite lookup_insert_ne by done. rewrite Hent. split; [by right|]. intros [[= -> ->]|?]; done.
Qed.

(** The set with one more part. *)
Definition with_part (set : fragmentSet) (index : Z) (payload : bytes) : fragmentSet :=
  MkFragmentSet (set_created set) (set_count set) (<[index := payload]> (set_parts set))
    (set_bytes set + llen payload).

Lemma with_part_sum set index payload :
  set_ok set -> set_parts set !! index = None ->
  set_bytes (with_part set index payload) = msum (fun p => llen p) (set_parts (with_part set index payload)).
Proof. intros Hs Hi. cbn. rewrite msum_insert by done. rewrite (so_bytes _ Hs). lia. Qed.

Lemma with_part_index set index payload :
  set_ok set -> 0 <= index < set_count set ->
  forall i p, set_parts (with_part set index payload) !! i = Some p -> 0 <= i < set_count set.
Proof.
  intros Hs Hi i p Hip. cbn in Hip. apply lookup_insert_Some in Hip as [[<- _]|[_ Hp]]; [done | by apply (so_index _ Hs i p)].
Qed.

Lemma wf_store_part r key set index payload :
  wf r -> flows r !! key = Some set -> set_parts set !! index = None -> 0 <= index < set_count set ->
  held r + llen payload <= maxBytes r ->
  Z.of_nat (size (set_parts (with_part set index payload))) <> set_count set ->
  wf (with_flows r (<[key := with_part set index payload]> (flows r)) (held r + llen payload)).
Proof.
  intros Hwf Hk Hp Hi Hb Hsize. pose proof (wf_sets _ Hwf _ _ Hk) as Hs. pose proof (wf_flows _ Hwf).
  pose proof (so_open _ Hs). cbn in Hsize. rewrite map_size_insert_None in Hsize by done.
  apply wf_with_flows; [done | | | done | |].
  - intros k s [[<- <-]|[_ Hks]]%lookup_insert_Some; [| by apply (wf_sets _ Hwf k)].
    constructor; [by apply with_part_sum | exact (with_part_index _ _ _ Hs Hi) |].
    cbn. rewrite map_size_insert_None by done. lia.
  - rewrite (msum_update _ _ _ _ _ Hk), (wf_held _ Hwf). cbn. lia.
  - rewrite map_size_insert_Some by (by rewrite Hk). done.
  - intros k [s [[<- _]|[_ Hks]]%lookup_insert_Some]; apply (wf_disjoint _ Hwf); eauto.
Qed.

(** A full set always yields its payload, and the completed state is well-formed. *)
Lemma drop_stored r key set s :
  drop_set (with_flows r (<[key := s]> (flows r)) (held r + (set_bytes s - set_bytes set))) key s
  = drop_set r key set.
Proof.
  unfold drop_set, with_flows. cbn. f_equal; [| lia]. apply map_eq. intros k.
  destruct (decide (k = key)) as [->|]; [by rewrite !lookup_delete_eq |].
  by rewrite !lookup_delete_ne, lookup_insert_ne by done.
Qed.

Lemma wf_complete r key now :
  wf r -> flows r !! key = None -> completed r !! key = None ->
  Z.of_nat (size (completed r)) < 2 * maxFlows r ->
  wf (with_completed r (<[key := now]> (completed r)) (heap_push (completedOrder r) (MkEntry key now))).
Proof.
  intros [] Hf Hc Hs. constructor; try done; cbn.
  - by apply memory_push.
  - rewrite map_size_insert_None by done. lia.
  - intros k Hk. assert (k <> key) by (intros ->; rewrite Hf in Hk; by destruct Hk).
    rewrite lookup_insert_ne by done. by apply wf_disjoint0.
Qed.

Lemma complete_set_wf r key set index payload now :
  wf r -> flows r !! key = Some set -> completed r !! key = None -> set_parts set !! index = None ->
  0 <= index < set_count set ->
  Z.of_nat (size (set_parts (with_part set index payload))) = set_count set ->
  let s := with_part set index payload in
  let r' := with_flows r (<[key := s]> (flows r)) (held r + llen payload) in
  exists result, collect_parts (Z.to_nat (set_count set)) 0 (set_parts s) = Some result
    /\ (complete_set r' key s now).2 = Ok (Some result) /\ wf (complete_set r' key s now).1.
Proof.
  intros Hwf Hk Hc Hp Hi Hsize s r'. pose proof (wf_sets _ Hwf _ _ Hk) as Hs.
  destruct (collect_parts_total (Z.to_nat (set_count set)) 0 (set_parts s)) as [result Hres].
  { intros j Hj. apply (map_indices_total _ (Z.to_nat (set_count set))); [| unfold s; lia | lia].
    intros i p Hip. pose proof (with_part_index set index payload Hs Hi i p Hip). lia. }
  exists result. split; [done|]. unfold complete_set. change (set_count s) with (set_count set). rewrite Hres.
  cbn [fst snd]. split; [done|].
  assert (drop_set r' key s = drop_set r key set) as ->.
  { rewrite <- (drop_stored r key set s). unfold r'. f_equal. f_equal. cbn. lia. }
  destruct (evict_facts _ (wf_drop_set _ _ _ Hwf Hk)) as (H1 & (L1 & _) & H3 & H4 & H5 & H6).
  apply wf_complete; [done | rewrite H3; apply lookup_delete_eq | | by rewrite <- L1].
  destruct (completed (evict _ _) !! key) as [t|] eqn:E; [| done].
  pose proof (lookup_weaken _ _ _ _ E H5) as Hk'. cbn in Hk'. congruence.
Qed.

Lemma add_part_wf r key set header payload now :
  wf r -> flows r !! key = Some set -> completed r !! key = None -> header_valid header ->
  wf (add_part r key set header payload now).1.
Proof.
  intros Hwf Hk Hc Hv. unfold add_part.
  destruct (set_count set =? FragmentCount header) eqn:E1; cbn [negb]; [| by apply wf_drop_set].
  case_bool_decide as E2; [by apply wf_drop_set|].
  destruct (held r + llen payload >? maxBytes r) eqn:E3; [by apply wf_drop_set|].
  apply Z.eqb_eq in E1. rewrite <- eq_None_not_Some in E2. rewrite Z.gtb_ltb in E3. apply Z.ltb_ge in E3.
  assert (0 <= FragmentIndex header < set_count set) by (rewrite E1; apply Hv).
  fold (with_part set (FragmentIndex header) payload).
  destruct (Z.of_nat (size (set_parts (with_part set (FragmentIndex header) payload))) =? set_count (with_part set (FragmentIndex header) payload)) eqn:E4; cbn [negb].
  - apply Z.eqb_eq in E4. by destruct (complete_set_wf r key set (FragmentIndex header) payload now) as (? & _ & _ & ?).
  - apply Z.eqb_neq in E4. by apply wf_store_part.
Qed.

Lemma Add_wf r data now wall : wf r -> wf (Add r data now wall).1.
Proof.
  intros Hwf. unfold Add. destruct (DecodeDatagram data (maxPayload r)) as [[header payload]|e] eqn:Hd; [| done].
  apply DecodeDatagram_inv in Hd as (_ & Hw & Hv & _). apply validateDatagramHeader_spec in Hv; [| done].
  set (t := if is_zero_time now then wall else now).
  destruct (expireLocked_facts t r Hwf) as (Hwf' & _). set (r1 := expireLocked r t) in *.
  case_bool_decide as Hc; [done|]. rewrite <- eq_None_not_Some in Hc.
  destruct (flows r1 !! _) as [set|] eqn:Hf; [by apply add_part_wf|].
  rewrite Z.geb_leb. destruct (maxFlows r1 <=? Z.of_nat (size (flows r1))) eqn:E; [done|]. apply Z.leb_gt in E.
  apply add_part_wf; [apply wf_open_set; try done | apply lookup_insert_eq | done | done].
  destruct Hv. lia.
Qed.

(** The states a reassembler goes through. *)
Inductive reassembler_reachable : Reassembler -> Prop :=
| reach_new mf mb mp to r : NewReassembler mf mb mp to = Ok r -> reassembler_reachable r
| reach_add r data now wall : reassembler_reachable r -> reassembler_reachable (Add r data now wall).1
| reach_expire r now : reassembler_reachable r -> reassembler_reachable (Expire r now).

Lemma NewReassembler_wf mf mb mp to r : NewReassembler mf mb mp to = Ok r -> wf r.
Proof.
  intros H. unfold NewReassembler in H. inv_ok. bool_facts.
  assert (memory_ok ∅ []).
  { constructor; [constructor|]. intros k t. split; [by intros ?%lookup_empty_Some | by intros ?%elem_of_nil]. }
  constructor; cbn; rewrite ?map_size_empty; try done; try lia.
Qed.

Lemma reachable_wf r : reassembler_reachable r -> wf r.
Proof.
  induction 1; [by eapply NewReassembler_wf | by apply Add_wf | by apply expireLocked_facts].
Qed.

(** C6: in every state a reassembler can reach, its byte counter is exactly the
    number of fragment bytes it holds, and the bytes held, the flows open and the
    completed flows remembered stay within the configured limits; no open flow is
    also remembered as completed. *)
Theorem reassembler_budget r :
  reassembler_reachable r ->
  held r = msum (fun s => msum (fun p => llen p) (set_parts s)) (flows r)
  /\ held r <= maxBytes r /\ (InFlight r).1 <= maxFlows r
  /\ Z.of_nat (size (completed r)) <= 2 * maxFlows r
  /\ (forall k, is_Some (flows r !! k) -> completed r !! k = None).
Proof.
  intros Hr%reachable_wf. destruct Hr as [? Hsets Hheld ? ? ? ? ?]. split_and!; try done.
  rewrite Hheld. clear - Hsets. revert Hsets. induction (flows r) as [|k s m Hk IH] using map_ind; intros Hs.
  - by rewrite !msum_empty.
  - rewrite !msum_insert by done. rewrite (so_bytes s) by (apply (Hs k), lookup_insert_eq).
    rewrite IH; [done|]. intros k' s' Hk'. apply (Hs k'). rewrite lookup_insert_ne; congruence.
Qed.

Definition sample_reassembler : Reassembler := MkReassembler ∅ ∅ [] 2 100 100 1000 0.

Lemma reassembler_budget_witness :
  reassembler_reachable (Add sample_reassembler sample_frame 5 5).1
  /\ held (Add sample_reassembler sample_frame 5 5).1 = 7.
Proof.
  assert (H : reassembler_reachable (Add sample_reassembler sample_frame 5 5).1)
    by (apply reach_add, (reach_new 2 100 100 1000); reflexivity).
  split; [exact H|]. rewrite (proj1 (reassembler_budget _ H)). vm_compute. reflexivity.
Defined.
