(* ===== verification/ReassemblyOrder.v ===== *)
(** * Fragments reassemble in every delivery order

    [Fragments] produces the frames of consecutive parts of the payload, and a
    reassembler with room for the payload that receives those frames in any order
    within its timeout returns the payload at the last one. *)
From S2P Require Import Prelude GoStd Datagram Reassembly ReassemblyFacts.

Section Parts.
Context (payload : bytes) (partSize : Z).
Hypothesis part_pos : 0 < partSize.

Let part := fragment_part payload partSize.
Let count := fragment_count (llen payload) partSize.

Lemma part_take i : 0 <= i -> part i = take (Z.to_nat partSize) (drop (Z.to_nat (i * partSize)) payload).
Proof.
  intros Hi. unfold part, fragment_part, slice. rewrite Z.gtb_ltb.
  destruct (Z.ltb_spec (llen payload) (i * partSize + partSize)) as [H|H].
  - rewrite !take_ge; [done | rewrite length_drop; nia ..].
  - f_equal. nia.
Qed.

Lemma part_length i : 0 <= i -> llen (part i) <= partSize.
Proof. intros Hi. rewrite part_take, length_take by done. lia. Qed.

Lemma parts_concat n i :
  0 <= i ->
  concat (part <$> seqZ i (Z.of_nat n)) = take (n * Z.to_nat partSize) (drop (Z.to_nat (i * partSize)) payload).
Proof.
  revert i. induction n as [|n IH]; intros i Hi; [done|].
  rewrite Nat2Z.inj_succ, seqZ_cons by lia. rewrite Z.pred_succ, fmap_cons. cbn [concat].
  rewrite IH, part_take by lia.
  replace (Z.to_nat (Z.succ i * partSize)) with (Z.to_nat (i * partSize) + Z.to_nat partSize)%nat by nia.
  by rewrite <- drop_drop, take_take_drop.
Qed.

Lemma count_pos : 1 <= count.
Proof.
  unfold count, fragment_count. case_match eqn:E; [lia|]. apply Z.eqb_neq in E.
  pose proof (Z.div_pos (llen payload + partSize - 1) partSize). lia.
Qed.

Lemma count_covers : llen payload <= count * partSize.
Proof.
  unfold count, fragment_count.
  pose proof (Z.mul_succ_div_gt (llen payload + partSize - 1) partSize).
  case_match eqn:E; [apply Z.eqb_eq in E|]; nia.
Qed.

Lemma parts_all : concat (part <$> seqZ 0 count) = payload.
Proof.
  pose proof count_pos. pose proof count_covers.
  rewrite <- (Z2Nat.id count) by lia. rewrite parts_concat by lia.
  rewrite Z.mul_0_l, drop_0, take_ge; [done | nia].
Qed.

Lemma parts_bytes : foldr Z.add 0 ((fun i => llen (part i)) <$> seqZ 0 count) = llen payload.
Proof.
  transitivity (llen (concat (part <$> seqZ 0 count))); [| by rewrite parts_all].
  induction (seqZ 0 count) as [|i l IH]; [done|].
  rewrite !fmap_cons. cbn [foldr concat]. rewrite length_app, IH. lia.
Qed.

(** The frame of part [i] and the loop that makes all of them. *)
Context (flow sequence : Z).
Hypothesis flow_range : 0 < flow < 2 ^ 64.
Hypothesis sequence_range : 0 <= sequence < 2 ^ 32.
Hypothesis count_limit : count <= maxDatagramFragments.
Hypothesis part_limit : partSize <= maxDatagramPayload.

Definition fragment_header (i : Z) : DatagramHeader :=
  MkHeader (fragment_flags i count) flow sequence i count.
Definition fragment_frame (i : Z) : bytes := datagram_frame (fragment_header i) (part i).

Lemma fragment_header_valid i :
  0 <= i < count -> header_widths (fragment_header i) /\ header_valid (fragment_header i).
Proof.
  intros Hi. unfold maxDatagramFragments in count_limit.
  assert (Hfl : fragment_flags i count = (if count =? 1 then 0 else DatagramFlagFragmented)
            + (if i =? count - 1 then DatagramFlagFin else 0)).
  { unfold fragment_flags. rewrite Z.gtb_ltb.
    destruct (Z.ltb_spec 1 count), (Z.eqb_spec count 1), (i =? count - 1); try lia; reflexivity. }
  split.
  - unfold header_widths. cbn. rewrite Hfl. unfold DatagramFlagFragmented, DatagramFlagFin.
    split_and!; try lia; repeat case_match; lia.
  - constructor; cbn; [lia | lia | unfold maxDatagramFragments; lia | done].
Qed.

Lemma fragment_header_checked i : 0 <= i < count -> validateDatagramHeader (fragment_header i) = Ok tt.
Proof. intros Hi. destruct (fragment_header_valid i Hi). by apply validateDatagramHeader_spec. Qed.

Lemma part_fits i limit :
  0 <= i -> partSize <= limit -> llen (part i) <= normalizeDatagramPayloadLimit limit.
Proof.
  intros Hi Hl. pose proof (part_length i Hi). unfold normalizeDatagramPayloadLimit, maxDatagramPayload in *.
  case_match; lia.
Qed.

Lemma fragment_loop n i acc :
  0 <= i -> i + Z.of_nat n <= count ->
  for_each (fun index (_ : unit) result =>
      frame ← EncodeDatagram (MkHeader (fragment_flags index count) flow sequence index count)
                (fragment_part payload partSize index) partSize;
      Ok (result ++ [frame])) i (repeat tt n) acc
  = Ok (acc ++ (fragment_frame <$> seqZ i (Z.of_nat n))).
Proof.
  revert i acc. induction n as [|n IH]; intros i acc Hi Hn; cbn [repeat for_each]; [by rewrite app_nil_r|].
  assert (EncodeDatagram (fragment_header i) (part i) partSize = Ok (fragment_frame i)) as He.
  { apply EncodeDatagram_Ok. split_and!; [apply fragment_header_checked; lia | by apply part_fits | done]. }
  unfold fragment_header, part in He. rewrite He. cbn [mbind result_bind]. rewrite IH by lia.
  rewrite Nat2Z.inj_succ, (seqZ_cons i) by lia. rewrite Z.pred_succ, <- app_assoc. done.
Qed.

Lemma Fragments_frames :
  Fragments flow sequence payload (partSize + datagramHeaderBytes) = Ok (fragment_frame <$> seqZ 0 count).
Proof.
  unfold Fragments, datagramHeaderBytes. pose proof count_pos.
  replace (flow =? 0) with false by lia.
  replace (partSize + 24 <=? 24) with false by lia. cbn [reject_if mbind result_bind].
  replace (partSize + 24 - 24) with partSize by lia. fold count.
  replace (count >? maxDatagramFragments) with false by lia. cbn [reject_if mbind result_bind].
  rewrite fragment_loop by lia. cbn [app]. by rewrite Z2Nat.id by lia.
Qed.
End Parts.

(** For a payload that fits, [Fragments] returns frames that each fit the MTU,
    decode to consecutive parts of the payload with the same flow, sequence and
    count, and whose parts concatenate to the payload. *)
Theorem Fragments_spec flow sequence payload mtu :
  0 < flow < 2 ^ 64 -> 0 <= sequence < 2 ^ 32 -> datagramHeaderBytes < mtu <= datagramHeaderBytes + maxDatagramPayload ->
  fragment_count (llen payload) (mtu - datagramHeaderBytes) <= maxDatagramFragments ->
  exists frames parts,
    Fragments flow sequence payload mtu = Ok frames
    /\ concat parts = payload
    /\ llen frames = fragment_count (llen payload) (mtu - datagramHeaderBytes)
    /\ forall i frame, frames !! i = Some frame ->
         llen frame <= mtu
         /\ exists h p, DecodeDatagram frame (mtu - datagramHeaderBytes) = Ok (h, p) /\ parts !! i = Some p
            /\ FlowID h = flow /\ Sequence h = sequence /\ FragmentIndex h = Z.of_nat i
            /\ FragmentCount h = llen frames.
Proof.
  intros Hf Hs Hm Hc. set (P := mtu - datagramHeaderBytes) in *. unfold datagramHeaderBytes in Hm.
  assert (HP : 0 < P) by (unfold P, datagramHeaderBytes; lia).
  assert (HPl : P <= maxDatagramPayload) by (unfold P, datagramHeaderBytes; lia).
  pose proof (count_pos payload P HP) as Hpos. set (count := fragment_count (llen payload) P) in *.
  exists (fragment_frame payload P flow sequence <$> seqZ 0 count), (fragment_part payload P <$> seqZ 0 count).
  assert (Hlen : llen (fragment_frame payload P flow sequence <$> seqZ 0 count) = count)
    by (rewrite length_fmap, length_seqZ; lia).
  split_and!; [| by apply parts_all | done |].
  - replace mtu with (P + datagramHeaderBytes) by (unfold P; lia). by apply Fragments_frames.
  - intros i frame Hi. apply list_lookup_fmap_Some in Hi as (j & -> & [-> Hj]%lookup_seqZ). rewrite Hlen.
    pose proof (part_length payload P HP (0 + Z.of_nat i)).
    split.
    { unfold fragment_frame. rewrite datagram_frame_length. unfold P, datagramHeaderBytes in *. lia. }
    exists (fragment_header payload P flow sequence (0 + Z.of_nat i)), (fragment_part payload P (0 + Z.of_nat i)).
    split_and!; try done.
    + apply DecodeDatagram_frame.
      * apply fragment_header_valid; try done; fold count; lia.
      * apply fragment_header_checked; try done; fold count; lia.
      * apply part_fits; lia || done.
    + rewrite list_lookup_fmap, (lookup_seqZ_lt 0 count i) by lia. done.
Qed.

Lemma Fragments_spec_witness :
  exists frames, Fragments 9 4 (bytes_of "hello world") 28 = Ok frames /\ llen frames = 3.
Proof.
  destruct (Fragments_spec 9 4 (bytes_of "hello world") 28) as (frames & _ & H1 & _ & H3 & _);
    [cbv; intuition congruence .. |].
  exists frames. split; [exact H1 | rewrite H3; reflexivity].
Defined.

(** ** Delivery in any order *)

(** A sequence of arrivals: frame and time. *)
Fixpoint deliver (r : Reassembler) (arrivals : list (bytes * Z)) : Reassembler * list (result (option bytes)) :=
  match arrivals with
  | [] => (r, [])
  | (data, now) :: arrivals =>
      let '(r, out) := Add r data now now in
      let '(r, outs) := deliver r arrivals in (r, out :: outs)
  end.

Section Delivery.
Context (payload : bytes) (partSize flow sequence start : Z).
Hypothesis part_pos : 0 < partSize.
Hypothesis flow_range : 0 < flow < 2 ^ 64.
Hypothesis sequence_range : 0 <= sequence < 2 ^ 32.
Let part := fragment_part payload partSize.
Let count := fragment_count (llen payload) partSize.
Let frame := fragment_frame payload partSize flow sequence.
Let header := fragment_header payload partSize flow sequence.
Let key : flowKey := (flow, sequence).
Hypothesis count_limit : count <= maxDatagramFragments.
Hypothesis part_limit : partSize <= maxDatagramPayload.

Definition bytes_left (R : list Z) : Z := foldr Z.add 0 ((fun i => llen (part i)) <$> R).

(** The flow is open, holds exactly the parts delivered so far, and the rest fits. *)
Record collecting (D R : list Z) (r : Reassembler) : Prop := {
  co_wf : wf r;
  co_split : D ++ R ≡ₚ seqZ 0 count;
  co_limit : partSize <= normalizeDatagramPayloadLimit (maxPayload r);
  co_open : exists set, flows r !! key = Some set /\ set_created set = start /\ set_count set = count
            /\ forall j, set_parts set !! j = (if decide (j ∈ D) then Some (part j) else None);
  co_fresh : completed r !! key = None;
  co_room : held r + bytes_left R <= maxBytes r
}.

Lemma collecting_range D R r i : collecting D R r -> i ∈ D ++ R -> 0 <= i < count.
Proof. intros H Hi. rewrite (co_split _ _ _ H) in Hi. apply elem_of_seqZ in Hi. lia. Qed.

Lemma collecting_nodup D R r : collecting D R r -> NoDup (D ++ R).
Proof. intros H. rewrite (co_split _ _ _ H). apply NoDup_seqZ. Qed.

Lemma parts_size (m : gmap Z bytes) D :
  NoDup D -> (forall j, m !! j = (if decide (j ∈ D) then Some (part j) else None)) -> size m = List.length D.
Proof.
  intros Hnd Hm. rewrite <- size_dom, <- (size_list_to_set (C := gset Z) D) by done.
  f_equal. apply set_eq. intros j. rewrite elem_of_dom, elem_of_list_to_set, Hm. by case_decide; split.
Qed.

Lemma collect_parts_eq (m : gmap Z bytes) n i :
  (forall j, i <= j < i + Z.of_nat n -> m !! j = Some (part j)) ->
  collect_parts n i m = Some (concat (part <$> seqZ i (Z.of_nat n))).
Proof.
  revert i. induction n as [|n IH]; intros i Hm; [done|]. cbn [collect_parts].
  rewrite Hm by lia. cbn [mbind option_bind]. rewrite IH by (intros; apply Hm; lia).
  by rewrite Nat2Z.inj_succ, (seqZ_cons i), Z.pred_succ, fmap_cons by lia.
Qed.

(** Time passes without the flow timing out. *)
Lemma collecting_expire D R r now :
  collecting D R r -> time_sub now start < timeout r ->
  collecting D R (expireLocked r now) /\ timeout (expireLocked r now) = timeout r.
Proof.
  intros H Ht. pose proof (co_wf _ _ _ H) as Hwf.
  destruct (expireLocked_facts now r Hwf) as (H1 & (L1 & L2 & L3 & L4) & H3 & H4 & H5 & _).
  split; [| done]. destruct (co_open _ _ _ H) as (set & Hs & Hc & Hn & Hp). constructor; [done | apply H | rewrite <- L3; apply H | | |].
  - exists set. split_and!; try done. rewrite H4. apply map_lookup_filter_Some. split; [done|].
    cbn. unfold expired. rewrite Hc, Z.geb_leb. lia.
  - destruct (completed (expireLocked r now) !! key) eqn:E; [| done].
    pose proof (lookup_weaken _ _ _ _ E H5) as Hk. rewrite (co_fresh _ _ _ H) in Hk. done.
  - rewrite <- L2. pose proof (co_room _ _ _ H). lia.
Qed.

(** One more part arrives. *)
Lemma collecting_part D R i r set now :
  collecting D (i :: R) r -> flows r !! key = Some set ->
  (R = [] -> (add_part r key set (header i) (part i) now).2 = Ok (Some payload))
  /\ (R <> [] -> (add_part r key set (header i) (part i) now).2 = Ok None
                 /\ collecting (D ++ [i]) R (add_part r key set (header i) (part i) now).1
                 /\ timeout (add_part r key set (header i) (part i) now).1 = timeout r).
Proof.
  intros H Hk. pose proof (collecting_nodup _ _ _ H) as Hnd. pose proof (co_wf _ _ _ H) as Hwf.
  destruct (co_open _ _ _ H) as (set' & Hs & Hc & Hn & Hp).
  rewrite Hk in Hs. injection Hs as <-. pose proof (co_room _ _ _ H) as Hroom.
  assert (Hi : 0 <= i < count) by (apply (collecting_range _ _ _ _ H); set_solver).
  assert (HiD : i ∉ D).
  { intros HD. apply NoDup_app in Hnd as (_ & Hd & _). apply (Hd i HD). set_solver. }
  assert (Hnone : set_parts set !! i = None) by (by rewrite Hp, decide_False).
  assert (Hleft : 0 <= bytes_left R) by (unfold bytes_left; clear; induction R; cbn; lia).
  unfold bytes_left in Hroom. rewrite fmap_cons in Hroom. cbn [foldr] in Hroom. fold (bytes_left R) in Hroom.
  unfold add_part. cbn [FragmentCount FragmentIndex header fragment_header].
  rewrite Hn. fold count. rewrite Z.eqb_refl. cbn [negb].
  rewrite bool_decide_eq_false_2 by (rewrite Hnone; by intros [? ?]).
  replace (held r + llen (part i) >? maxBytes r) with false by lia.
  fold count. rewrite <- Hn. fold (with_part set i (part i)).
  assert (HpD : forall j, set_parts (with_part set i (part i)) !! j = if decide (j ∈ D ++ [i]) then Some (part j) else None).
  { intros j. cbn. destruct (decide (j = i)) as [->|Hne].
    - rewrite lookup_insert_eq, decide_True; [done | set_solver].
    - rewrite lookup_insert_ne, Hp by done. repeat case_decide; set_solver. }
  assert (HndD : NoDup (D ++ [i])).
  { apply (NoDup_app (D ++ [i]) R). by rewrite <- app_assoc. }
  pose proof (parts_size _ _ HndD HpD) as Hsize. rewrite length_app in Hsize. cbn [List.length] in Hsize.
  pose proof (Permutation_length (co_split _ _ _ H)) as Hlen.
  rewrite length_app, length_seqZ in Hlen. cbn [List.length] in Hlen.
  change (set_count (with_part set i (part i))) with (set_count set). rewrite Hsize. split; intros HR.
  - subst R. cbn [List.length] in Hlen.
    assert (Z.of_nat (List.length D + 1) = set_count set) as Hfull by (rewrite Hn, Hlen, Z2Nat.id; lia).
    rewrite Hfull, Z.eqb_refl. cbn [negb].
    destruct (complete_set_wf r key set i (part i) now) as (result & Hres & Hout & _);
      [done | done | exact (co_fresh _ _ _ H) | done | lia | rewrite Hsize; lia |].
    rewrite Hout. f_equal. f_equal. rewrite Hn, collect_parts_eq in Hres.
    + injection Hres as <-. rewrite Z2Nat.id by lia. by apply parts_all.
    + intros j Hj. rewrite HpD, decide_True; [done|].
      rewrite (co_split _ _ _ H). apply elem_of_seqZ. lia.
  - assert (List.length R <> 0%nat) by (by destruct R).
    assert (Z.of_nat (List.length D + 1) <> set_count set) as Hopen by (rewrite Hn; clear -Hlen H0; lia).
    apply Z.eqb_neq in Hopen. rewrite Hopen. cbn [negb fst snd].
    split; [done|]. split; [| done]. constructor; [| | exact (co_limit _ _ _ H) | | exact (co_fresh _ _ _ H) |].
    + apply wf_store_part; try done; [lia | lia | rewrite Hsize; lia].
    + rewrite <- app_assoc. apply H.
    + exists (with_part set i (part i)). cbn. rewrite lookup_insert_eq. done.
    + cbn. lia.
Qed.
End Delivery.

Section Arrivals.
Context (payload : bytes) (partSize flow sequence start : Z).
Hypothesis part_pos : 0 < partSize.
Hypothesis flow_range : 0 < flow < 2 ^ 64.
Hypothesis sequence_range : 0 <= sequence < 2 ^ 32.
Let part := fragment_part payload partSize.
Let count := fragment_count (llen payload) partSize.
Let frame := fragment_frame payload partSize flow sequence.
Let header := fragment_header payload partSize flow sequence.
Let key : flowKey := (flow, sequence).
Let gathering := collecting payload partSize flow sequence start.
Hypothesis count_limit : count <= maxDatagramFragments.
Hypothesis part_limit : partSize <= maxDatagramPayload.

Lemma frame_decodes r i :
  partSize <= normalizeDatagramPayloadLimit (maxPayload r) -> 0 <= i < count ->
  DecodeDatagram (frame i) (maxPayload r) = Ok (header i, part i).
Proof.
  intros Hl Hi. apply DecodeDatagram_frame.
  - by apply fragment_header_valid.
  - by apply fragment_header_checked.
  - unfold part. pose proof (part_length payload partSize part_pos i). lia.
Qed.

(** What one arriving part returns and leaves behind. *)
Definition part_step (D : list Z) (i : Z) (R : list Z) (r : Reassembler) (out : Reassembler * result (option bytes)) : Prop :=
  (R = [] -> out.2 = Ok (Some payload))
  /\ (R <> [] -> out.2 = Ok None /\ gathering (D ++ [i]) R out.1 /\ timeout out.1 = timeout r).

Lemma arrival_open D i R r now :
  gathering D (i :: R) r -> time_sub now start < timeout r ->
  part_step D i R r (Add r (frame i) now now).
Proof.
  intros H Ht. assert (0 <= i < count) as Hi by (eapply collecting_range; [exact H | set_solver]).
  unfold Add. rewrite frame_decodes; [| by apply H | done].
  assert ((if is_zero_time now then now else now) = now) as -> by (by case_match).
  destruct (collecting_expire _ _ _ _ _ _ _ _ _ H Ht) as [H' Hto].
  destruct (co_open _ _ _ _ _ _ _ _ H') as (set & Hs & _). cbn [FlowID Sequence header fragment_header].
  pose proof (co_fresh _ _ _ _ _ _ _ _ H') as Hc. fold key in Hs, Hc |- *.
  rewrite Hc, Hs, bool_decide_eq_false_2 by (by intros [? ?]). unfold part_step. rewrite <- Hto.
  by apply collecting_part.
Qed.

Lemma arrival_first i R r :
  wf r -> i :: R ≡ₚ seqZ 0 count -> partSize <= normalizeDatagramPayloadLimit (maxPayload r) ->
  flows r !! key = None -> completed r !! key = None -> Z.of_nat (size (flows r)) < maxFlows r ->
  held r + llen payload <= maxBytes r ->
  part_step [] i R r (Add r (frame i) start start).
Proof.
  intros Hwf Hp Hl Hk Hc Hsize Hroom.
  assert (0 <= i < count) as Hi by (assert (i ∈ seqZ 0 count) as ?%elem_of_seqZ by (rewrite <- Hp; set_solver); lia).
  unfold Add. rewrite frame_decodes by done.
  assert ((if is_zero_time start then start else start) = start) as -> by (by case_match).
  destruct (expireLocked_facts start r Hwf) as (H1 & (L1 & L2 & L3 & L4) & H3 & H4 & H5 & _).
  set (r1 := expireLocked r start) in *. cbn [FlowID Sequence header fragment_header]. fold key.
  assert (completed r1 !! key = None) as Hc1 by (by eapply lookup_weaken_None).
  assert (flows r1 ⊆ flows r) as Hsub by (rewrite H4; apply map_filter_subseteq).
  assert (flows r1 !! key = None) as Hk1 by (by eapply lookup_weaken_None).
  pose proof (map_subseteq_size _ _ Hsub).
  rewrite Hc1, Hk1, bool_decide_eq_false_2 by (by intros [? ?]).
  rewrite Z.geb_leb. replace (maxFlows r1 <=? Z.of_nat (size (flows r1))) with false by lia.
  unfold part_step. rewrite L4. cbn [FragmentCount header fragment_header]. fold count.
  match goal with |- context [add_part ?x _ _ _ _ _] => change (timeout r1) with (timeout x) end.
  apply (collecting_part payload partSize flow sequence start); try done.
  2: { cbn. apply lookup_insert_eq. }
  pose proof (count_pos payload partSize part_pos) as Hcp. fold count in Hcp.
  assert (bytes_left payload partSize (i :: R) = llen payload) as Hbl.
  { rewrite <- (parts_bytes payload partSize part_pos). unfold bytes_left.
    generalize (fmap_Permutation (fun j => llen (fragment_part payload partSize j)) _ _ Hp).
    generalize ((fun j => llen (fragment_part payload partSize j)) <$> i :: R). intros l HP.
    fold count. induction HP; cbn; lia. }
  constructor; [by apply wf_open_set; try lia | done | cbn; by rewrite <- L3 | | done | rewrite Hbl; cbn; lia].
  eexists. cbn. rewrite lookup_insert_eq. split_and!; [done .. |]. intros j. cbn.
  by rewrite lookup_empty, decide_False by set_solver.
Qed.

Lemma deliver_rest R D r times :
  gathering D R r -> R <> [] -> List.length times = List.length R ->
  Forall (fun t => time_sub t start < timeout r) times ->
  (deliver r (zip (frame <$> R) times)).2 = repeat (Ok None) (List.length R - 1) ++ [Ok (Some payload)].
Proof.
  revert D r times. induction R as [|i R IH]; intros D r times H HR Hlen Ht; [done|].
  destruct times as [|t times]; [done|]. apply Forall_cons in Ht as [Ht Hts].
  destruct (arrival_open D i R r t H Ht) as [Hlast Hmore]. rewrite fmap_cons. cbn [zip zip_with deliver].
  destruct (Add r (frame i) t t) as [r' out]. cbn [fst snd] in *. injection Hlen as Hlen.
  destruct (decide (R = [])) as [->|HR'].
  - destruct times; [| done]. cbn. by rewrite Hlast.
  - destruct (Hmore HR') as (-> & H' & Hto). rewrite <- Hto in Hts.
    specialize (IH _ _ times H' HR' Hlen Hts).
    destruct (deliver r' _) as [r'' outs]. cbn [fst snd] in *. rewrite IH.
    destruct R; [done|]. cbn. by rewrite Nat.sub_0_r.
Qed.
End Arrivals.

(** C7: a reassembler with room for the payload that receives the frames of
    [Fragments] in any order, the later ones within the timeout of the first,
    answers incomplete to all but the last and returns exactly the payload at the
    last. *)
Theorem delivery_any_order flow sequence payload mtu r frames arrivals start :
  0 < flow < 2 ^ 64 -> 0 <= sequence < 2 ^ 32 -> datagramHeaderBytes < mtu <= datagramHeaderBytes + maxDatagramPayload ->
  Fragments flow sequence payload mtu = Ok frames ->
  arrivals.*1 ≡ₚ frames -> head arrivals.*2 = Some start ->
  Forall (fun t => time_sub t start < timeout r) arrivals.*2 ->
  reassembler_reachable r -> flows r !! (flow, sequence) = None -> completed r !! (flow, sequence) = None ->
  (InFlight r).1 < maxFlows r -> (InFlight r).2 + llen payload <= maxBytes r ->
  mtu - datagramHeaderBytes <= normalizeDatagramPayloadLimit (maxPayload r) ->
  (deliver r arrivals).2 = repeat (Ok None) (List.length frames - 1) ++ [Ok (Some payload)].
Proof.
  intros Hf Hs Hm HF Hperm Hstart Ht Hr%reachable_wf Hk Hc Hflows Hbytes Hl.
  set (P := mtu - datagramHeaderBytes) in *. assert (0 < P) by (unfold P; lia).
  assert (HP : P <= maxDatagramPayload) by (unfold P; lia).
  assert (Hcount : fragment_count (llen payload) P <= maxDatagramFragments).
  { unfold Fragments in HF. inv_ok. bool_facts. unfold P. lia. }
  replace mtu with (P + datagramHeaderBytes) in HF by (unfold P; lia).
  rewrite Fragments_frames in HF by done. injection HF as <-.
  apply Permutation_map_inv in Hperm as (R & HR & Hperm). symmetry in Hperm.
  rewrite length_fmap, <- (Permutation_length Hperm).
  assert (arrivals = zip (fragment_frame payload P flow sequence <$> R) arrivals.*2) as ->.
  { change (list_fmap _ _ ?f ?l) with (map f l) in HR. rewrite <- (zip_fst_snd arrivals) at 1. f_equal. exact HR. }
  assert (Hlen : List.length arrivals.*2 = List.length R).
  { rewrite length_fmap, <- (length_fmap fst arrivals). etransitivity; [exact (f_equal (@List.length _) HR) | apply length_map]. }
  revert Hlen Ht Hstart. generalize (arrivals.*2). clear HR arrivals. intros times Hlen Ht Hstart.
  destruct times as [|t times]; [done|]. injection Hstart as ->. apply Forall_cons in Ht as [_ Ht].
  destruct R as [|i R]; [done|]. injection Hlen as Hlen.
  destruct (arrival_first payload P flow sequence start) with (i := i) (R := R) (r := r) as [Hlast Hmore]; try done.
  rewrite fmap_cons. cbn [zip zip_with deliver].
  destruct (Add r (fragment_frame payload P flow sequence i) start start) as [r' out]. cbn [fst snd] in *.
  destruct (decide (R = [])) as [->|HR].
  - destruct times; [| done]. cbn. by rewrite Hlast.
  - destruct (Hmore HR) as (-> & H' & Hto). rewrite <- Hto in Ht.
    assert (Hrest : (deliver r' (zip (fragment_frame payload P flow sequence <$> R) times)).2
                    = repeat (Ok None) (List.length R - 1) ++ [Ok (Some payload)]) by (by eapply deliver_rest).
    destruct (deliver r' _) as [r'' outs]. cbn [fst snd] in *. rewrite Hrest.
    destruct R; [done|]. cbn. by rewrite Nat.sub_0_r.
Qed.

Lemma delivery_any_order_witness :
  (deliver sample_reassembler
     (zip (reverse (fragment_frame (bytes_of "hello world") 4 9 4 <$> [0; 1; 2])) [5; 6; 7])).2
  = [Ok None; Ok None; Ok (Some (bytes_of "hello world"))].
Proof.
  eapply eq_trans; [eapply (delivery_any_order 9 4 (bytes_of "hello world") 28 sample_reassembler
           (fragment_frame (bytes_of "hello world") 4 9 4 <$> [0; 1; 2]) _ 5) | reflexivity];
    try (vm_compute; intuition congruence).
  - rewrite fst_zip by (cbn; lia). apply reverse_Permutation.
  - repeat constructor.
  - apply (reach_new 2 100 100 1000). reflexivity.
Defined.

(** ** Replays *)

Lemma complete_set_memory r key set now result :
  collect_parts (Z.to_nat (set_count set)) 0 (set_parts set) = Some result ->
  completed (complete_set r key set now).1 !! key = Some now
  /\ timeout (complete_set r key set now).1 = timeout (evict (List.length (completedOrder r)) (drop_set r key set)).
Proof. intros H. unfold complete_set. rewrite H. split; [apply lookup_insert_eq | done]. Qed.

Lemma evict_timeout fuel r : timeout (evict fuel r) = timeout r.
Proof.
  revert r. induction fuel as [|fuel IH]; intros r; cbn [evict]; [done|].
  repeat case_match; try done. by rewrite IH.
Qed.

Lemma complete_set_result r key set now out :
  (complete_set r key set now).2 = Ok (Some out) ->
  completed (complete_set r key set now).1 !! key = Some now /\ timeout (complete_set r key set now).1 = timeout r.
Proof.
  intros H. destruct (collect_parts (Z.to_nat (set_count set)) 0 (set_parts set)) as [p|] eqn:E.
  - destruct (complete_set_memory r key set now p E) as [H1 H2]. split; [exact H1|]. by rewrite H2, evict_timeout.
  - unfold complete_set in H. rewrite E in H. done.
Qed.

Lemma add_part_completed r key set header payload now out :
  (add_part r key set header payload now).2 = Ok (Some out) ->
  completed (add_part r key set header payload now).1 !! key = Some now
  /\ timeout (add_part r key set header payload now).1 = timeout r.
Proof.
  unfold add_part. repeat case_match; try done. intros H'.
  match goal with |- context [complete_set ?x _ _ _] => change (timeout r) with (timeout x) end.
  by eapply complete_set_result.
Qed.

(** Once a datagram completes a payload, every frame of the same flow and
    sequence that arrives within the timeout is refused as malformed, whatever it
    carries, and neither opens a flow nor changes the memory of that key. *)
Theorem replay_rejected r data now out h p data' h' p' now' :
  reassembler_reachable r -> is_zero_time now = false -> is_zero_time now' = false ->
  (Add r data now now).2 = Ok (Some out) -> DecodeDatagram data (maxPayload r) = Ok (h, p) ->
  let r1 := (Add r data now now).1 in
  DecodeDatagram data' (maxPayload r1) = Ok (h', p') ->
  FlowID h' = FlowID h -> Sequence h' = Sequence h -> time_sub now' now < timeout r ->
  (Add r1 data' now' now').2 = Err ErrMalformedFrame
  /\ completed (Add r1 data' now' now').1 !! (FlowID h, Sequence h) = Some now
  /\ flows (Add r1 data' now' now').1 !! (FlowID h, Sequence h) = None.
Proof.
  intros Hr Hz Hz' Hout Hd r1 Hd' HF HS Ht.
  assert (Hr1 : reassembler_reachable r1) by (by apply reach_add). apply reachable_wf in Hr1. apply reachable_wf in Hr.
  assert (Hmem : completed r1 !! (FlowID h, Sequence h) = Some now /\ timeout r1 = timeout r).
  { destruct (expireLocked_facts now r Hr) as (_ & (_ & _ & _ & L4) & _).
    unfold r1. unfold Add in Hout |- *. rewrite Hd, Hz in *. rewrite L4.
    destruct (bool_decide _); [done|].
    destruct (flows _ !! _); [by eapply add_part_completed|].
    destruct (_ >=? _); [done|].
    match type of Hout with context [add_part ?x _ _ _ _ _] =>
      change (timeout (expireLocked r now)) with (timeout x) end.
    by eapply add_part_completed. }
  destruct Hmem as [Hmem Hto]. clearbody r1. clear Hout Hd Hr.
  destruct (expireLocked_facts now' r1 Hr1) as (Hwf & _ & _ & _ & _ & Hkeep).
  assert (Hk : completed (expireLocked r1 now') !! (FlowID h, Sequence h) = Some now) by (apply Hkeep; [done | by rewrite Hto]).
  assert (Add r1 data' now' now' = (expireLocked r1 now', Err ErrMalformedFrame)) as ->.
  { unfold Add. rewrite Hd', Hz', HF, HS. rewrite bool_decide_eq_true_2; [done | by eexists]. }
  cbn [fst snd]. split_and!; [done .. |]. apply eq_None_not_Some. intros Hop.
  pose proof (wf_disjoint _ Hwf _ Hop) as Hd. pose proof (eq_trans (eq_sym Hd) Hk) as Hbad. done.
Qed.

Lemma replay_rejected_witness :
  let frame := datagram_frame (MkHeader 2 9 0 0 1) (bytes_of "once") in
  (Add (Add sample_reassembler frame 5 5).1 frame 7 7).2 = Err ErrMalformedFrame.
Proof.
  apply (replay_rejected sample_reassembler _ 5 (bytes_of "once") (MkHeader 2 9 0 0 1) (bytes_of "once") _
           (MkHeader 2 9 0 0 1) (bytes_of "once") 7); try (vm_compute; reflexivity).
  apply (reach_new 2 100 100 1000). reflexivity.
Defined.
