(* ===== verification/Control.v ===== *)
(** * The AFDP/1 control frames (src/internal/afdp: protocol_control.go,
    protocol_capabilities.go, stream.go; src/internal/wireio)

    Session and open messages are protobuf messages behind a six-byte prefix.
    The protobuf runtime is the class [Proto]; everything the program checks
    around it (prefix, limits, unknown fields, validation, canonical form) is
    modelled. *)
From S2P Require Import Prelude GoStd GoNet Domain Validation Datagram.

Definition SessionHelloKind : Z := 1.
Definition SessionAcceptKind : Z := 2.
Definition OpenKind : Z := 3.
Definition maxSessionCapabilities : Z := 64.
Definition maxSessionServiceIDs : Z := 4096.
Definition maxAssignmentIDBytes : Z := 128.
Definition maxServiceIDBytes : Z := 128.
Definition maxTargetBytes : Z := 2048.
Definition defaultCapabilities : list string := ["http"; "socks5"; "tcp"; "udp"].

(** ** Messages *)
Record AssignmentView := MkView {
  View_ID : string; View_AgentID : string; View_Generation : Z; View_State : string;
  View_ServiceIDs : gset string; View_MaxStreams : Z
}.

Definition AssignmentFromDomain (value : Assignment) (maxStreams : Z) : AssignmentView :=
  let services := foldl (fun services id => {[id]} ∪ services) ∅ (Assignment_ServiceIDs value) in
  MkView (Assignment_ID value) (Assignment_AgentID value) (Assignment_Generation value)
    (Assignment_State value) services maxStreams.

Record SessionHello := MkHello {
  Hello_AssignmentID : string; Hello_Generation : Z; Hello_AgentID : string; Hello_Capabilities : list string
}.
Record SessionAccept := MkAccept {
  Accept_AssignmentID : string; Accept_Generation : Z; Accept_Capabilities : list string;
  Accept_ServiceIDs : list string
}.
Record OpenMetadata := MkOpen {
  Open_Protocol : string; Open_ServiceID : string; Open_Target : string; Open_FlowID : Z; Open_Egress : bool
}.

#[global] Instance SessionHello_eq_dec : EqDecision SessionHello.
Proof. solve_decision. Defined.
#[global] Instance SessionAccept_eq_dec : EqDecision SessionAccept.
Proof. solve_decision. Defined.
#[global] Instance OpenMetadata_eq_dec : EqDecision OpenMetadata.
Proof. solve_decision. Defined.

(** ** Capabilities *)
Definition CanonicalCapabilities (values : list string) : list string := sort_strings values.
Definition CanonicalServiceIDs (values : list string) : list string := sort_strings values.

Definition NegotiateCapabilities (local peer : list string) : list string :=
  let local := if llen local =? 0 then defaultCapabilities else local in
  let peerSet : gset string := list_to_set peer in
  let '(result, _) :=
    foldl (fun '(result, seen) capability =>
        if bool_decide (capability ∉ peerSet) then (result, seen)
        else if bool_decide (capability ∈ seen) then (result, seen)
        else (result ++ [capability], {[capability]} ∪ seen))
      ([], ∅ : gset string) local in
  CanonicalCapabilities result.

(** ** Validation *)
Definition validWireID (value : string) (max : Z) : bool :=
  negb (String.eqb value "" || (slen value >? max) || negb (is_Ok (ValidateID value (TLit "wire_id")))).

(** One round of the capability loop; the state is [seen]. *)
Definition capability_check (_ : Z) (capability : string) (seen : gset string) : result (gset string) :=
  if String.eqb capability "" || (slen capability >? 64) || strings.ContainsAny capability nul_cr_lf
  then Err ErrMalformedFrame
  else if bool_decide (capability ∈ seen) then Err ErrMalformedFrame
  else Ok ({[capability]} ∪ seen).

Definition service_id_check (_ : Z) (serviceID : string) (seen : gset string) : result (gset string) :=
  if negb (validWireID serviceID maxServiceIDBytes) then Err ErrMalformedFrame
  else if bool_decide (serviceID ∈ seen) then Err ErrMalformedFrame
  else Ok ({[serviceID]} ∪ seen).

Definition validateSession (value : SessionHello) : result unit :=
  _ ← reject_if (negb (validWireID (Hello_AssignmentID value) maxAssignmentIDBytes)
                 || (Hello_Generation value =? 0)
                 || negb (validWireID (Hello_AgentID value) maxAssignmentIDBytes)) ErrMalformedFrame;
  _ ← reject_if (llen (Hello_Capabilities value) >? maxSessionCapabilities) ErrFrameTooLarge;
  _ ← for_each capability_check 0 (Hello_Capabilities value) ∅;
  Ok tt.

Definition validateSessionAccept (value : SessionAccept) : result unit :=
  _ ← reject_if (negb (validWireID (Accept_AssignmentID value) maxAssignmentIDBytes)
                 || (Accept_Generation value =? 0)) ErrMalformedFrame;
  _ ← reject_if (llen (Accept_Capabilities value) >? maxSessionCapabilities) ErrFrameTooLarge;
  _ ← for_each capability_check 0 (Accept_Capabilities value) ∅;
  _ ← reject_if (llen (Accept_ServiceIDs value) >? maxSessionServiceIDs) ErrFrameTooLarge;
  _ ← for_each service_id_check 0 (Accept_ServiceIDs value) ∅;
  Ok tt.

(** The port of a target. *)
Definition valid_port_text (portText : string) : bool :=
  match strconv.Atoi portText with
  | Ok port => negb ((port <? 1) || (port >? 65535))
  | Err _ => false
  end.

Definition EncodeOpenValidation (value : OpenMetadata) : result unit :=
  _ ← reject_if (negb (String.eqb (Open_Protocol value) "tcp") && negb (String.eqb (Open_Protocol value) "udp"))
        ErrMalformedFrame;
  _ ← (if Open_Egress value
       then reject_if (negb (String.eqb (Open_ServiceID value) "")) ErrMalformedFrame
       else reject_if (negb (validWireID (Open_ServiceID value) maxServiceIDBytes)) ErrMalformedFrame);
  _ ← reject_if ((slen (Open_Target value) =? 0) || (slen (Open_Target value) >? maxTargetBytes)
                 || strings.ContainsAny (Open_Target value) nul_cr_lf) ErrMalformedFrame;
  _ ← match net.SplitHostPort (Open_Target value) with
      | Err _ => Err ErrMalformedFrame
      | Ok (host, portText) =>
          if String.eqb (strings.TrimSpace host) "" || negb (String.eqb host (strings.TrimSpace host))
             || strings.ContainsAny portText tab_space
          then Err ErrMalformedFrame
          else reject_if (negb (valid_port_text portText)) ErrMalformedFrame
      end;
  _ ← reject_if (String.eqb (Open_Protocol value) "udp" && (Open_FlowID value =? 0)) ErrMalformedFrame;
  reject_if (String.eqb (Open_Protocol value) "tcp" && negb (Open_FlowID value =? 0)) ErrMalformedFrame.

(** ** Authorization *)
Definition blocked_state (state : string) : bool :=
  String.eqb state AssignmentPending || String.eqb state AssignmentDraining || String.eqb state AssignmentDegraded.

Definition AuthorizeSession (hello : SessionHello) (assignment : AssignmentView) : result unit :=
  _ ← validateSession hello;
  _ ← reject_if (negb (String.eqb (Hello_AssignmentID hello) (View_ID assignment))
                 || negb (String.eqb (Hello_AgentID hello) (View_AgentID assignment))
                 || negb (Hello_Generation hello =? View_Generation assignment)) ErrUnauthorizedAgent;
  reject_if (blocked_state (View_State assignment)) ErrUnauthorizedAgent.

Definition AuthorizeOpen (open : OpenMetadata) (assignment : AssignmentView) : result unit :=
  _ ← EncodeOpenValidation open;
  _ ← reject_if (blocked_state (View_State assignment)) ErrUnauthorizedAgent;
  if Open_Egress open then Ok tt
  else reject_if (bool_decide (Open_ServiceID open ∉ View_ServiceIDs assignment)) ErrUnauthorizedAgent.

(** ** Frames *)

(** The protobuf runtime for one message type: [proto_unmarshal] also returns the
    unknown fields it retained.  The law is the documented one: unmarshalling what
    was marshalled gives the message back, without unknown fields. *)
Class Proto (M : Type) := {
  proto_marshal : M -> result bytes;
  proto_unmarshal : bytes -> result (M * bytes);
  proto_marshal_unmarshal : forall m b, proto_marshal m = Ok b -> proto_unmarshal b = Ok (m, [])
}.

Definition normalizeFrameLimit (max : Z) : Z :=
  if (max <=? 0) || (max >? maxSessionFrame) then maxSessionFrame else max.

Definition encodeControl `{Proto M} (kind : Z) (value : M) (max : Z) : result bytes :=
  let max := normalizeFrameLimit max in
  b ← proto_marshal value;
  _ ← reject_if ((llen b >? max) || (llen b >? 2 ^ 32 - 1)) ErrFrameTooLarge;
  Ok (byte_of_Z Version :: byte_of_Z kind :: be_put 4 (llen b) ++ b).

Definition decodeControl `{Proto M} (data : bytes) (kind : Z) (max : Z) : result M :=
  let max := normalizeFrameLimit max in
  let byte_is i v := match data !! i with Some c => byte_val c =? v | None => false end in
  if (llen data <? 6) || (llen data >? max + 6) || negb (byte_is 0%nat Version) || negb (byte_is 1%nat kind)
  then if (llen data >=? 1) && negb (byte_is 0%nat Version) then Err ErrInvalidVersion else Err ErrMalformedFrame
  else
  let length := be_get (slice 2 6 data) in
  _ ← reject_if ((length >? max) || negb (length =? llen data - 6)) ErrMalformedFrame;
  '(message, unknown) ← map_err (fun _ => ErrMalformedFrame) (proto_unmarshal (drop 6 data));
  _ ← reject_if (negb (llen unknown =? 0)) ErrMalformedFrame;
  Ok message.

(** The generated message types carry the fields of the Go structs. *)
Section Messages.
Context `{!Proto SessionHello, !Proto SessionAccept, !Proto OpenMetadata}.

Definition EncodeSessionHello (value : SessionHello) (max : Z) : result bytes :=
  _ ← validateSession value;
  encodeControl SessionHelloKind
    (MkHello (Hello_AssignmentID value) (Hello_Generation value) (Hello_AgentID value)
       (CanonicalCapabilities (Hello_Capabilities value))) max.

Definition DecodeSessionHello (data : bytes) (max : Z) : result SessionHello :=
  wire ← decodeControl data SessionHelloKind max;
  let value := MkHello (Hello_AssignmentID wire) (Hello_Generation wire) (Hello_AgentID wire) (Hello_Capabilities wire) in
  _ ← validateSession value;
  match EncodeSessionHello value max with
  | Ok canonical => if bool_decide (canonical = data) then Ok value else Err ErrMalformedFrame
  | Err _ => Err ErrMalformedFrame
  end.

Definition EncodeSessionAccept (value : SessionAccept) (max : Z) : result bytes :=
  _ ← validateSessionAccept value;
  encodeControl SessionAcceptKind
    (MkAccept (Accept_AssignmentID value) (Accept_Generation value)
       (CanonicalCapabilities (Accept_Capabilities value)) (CanonicalServiceIDs (Accept_ServiceIDs value))) max.

Definition DecodeSessionAccept (data : bytes) (max : Z) : result SessionAccept :=
  wire ← decodeControl data SessionAcceptKind max;
  let value := MkAccept (Accept_AssignmentID wire) (Accept_Generation wire) (Accept_Capabilities wire) (Accept_ServiceIDs wire) in
  _ ← validateSessionAccept value;
  match EncodeSessionAccept value max with
  | Ok canonical => if bool_decide (canonical = data) then Ok value else Err ErrMalformedFrame
  | Err _ => Err ErrMalformedFrame
  end.

Definition EncodeOpen (value : OpenMetadata) (max : Z) : result bytes :=
  _ ← EncodeOpenValidation value;
  encodeControl OpenKind
    (MkOpen (Open_Protocol value) (Open_ServiceID value) (Open_Target value) (Open_FlowID value) (Open_Egress value)) max.

Definition DecodeOpen (data : bytes) (max : Z) : result OpenMetadata :=
  wire ← decodeControl data OpenKind max;
  let value := MkOpen (Open_Protocol wire) (Open_ServiceID wire) (Open_Target wire) (Open_FlowID wire) (Open_Egress wire) in
  encoded ← EncodeOpen value max;
  _ ← reject_if (negb (bool_decide (encoded = data))) ErrMalformedFrame;
  Ok value.
End Messages.

(** ** wireio.WriteFull

    A writer is a state and a [Write] that returns the bytes written and an
    error.  The contract is that of [io.Writer]: the count is between 0 and the
    length, and those bytes were appended to the stream. *)
Definition ErrClosedPipe := EExternal "io.ErrClosedPipe".
Definition ErrShortWrite := EExternal "io.ErrShortWrite".

Class Writer (W : Type) := {
  Write : W -> bytes -> W * Z * option error;
  stream : W -> bytes;
  Write_count : forall w data, 0 <= (Write w data).1.2 <= llen data;
  Write_appends : forall w data,
    stream (Write w data).1.1 = stream w ++ take (Z.to_nat (Write w data).1.2) data
}.

(** Every round that does not return makes progress, so one more round than
    bytes is enough; [None] is running out of fuel. *)
Fixpoint WriteFull_loop `{Writer W} (fuel : nat) (w : W) (data : bytes) : option (W * option error) :=
  match fuel with
  | O => None
  | S fuel =>
      if llen data >? 0 then
        let '(w, n, err) := Write w data in
        let data := if n >? 0 then drop (Z.to_nat n) data else data in
        match err with
        | Some e => Some (w, Some e)
        | None => if n =? 0 then Some (w, Some ErrShortWrite) else WriteFull_loop fuel w data
        end
      else Some (w, None)
  end.

Definition WriteFull `{Writer W} (w : option W) (data : bytes) : option (option W * option error) :=
  match w with
  | None => Some (None, Some ErrClosedPipe)
  | Some w => '(w, err) ← WriteFull_loop (S (List.length data)) w data; Some (Some w, err)
  end.

(** ** stream.go: the open message in front of a raw stream *)
Section Stream.
Context `{!Proto OpenMetadata} `{Writer W}.

Definition WriteOpen (w : option W) (metadata : OpenMetadata) (max : Z) : option (option W * option error) :=
  match EncodeOpen metadata max with
  | Err e => Some (w, Some e)
  | Ok frame =>
      if llen frame >? 2 ^ 32 - 1 then Some (w, Some ErrFrameTooLarge) else
      '(w, err) ← WriteFull w (be_put 4 (llen frame));
      match err with
      | Some e => Some (w, Some e)
      | None => WriteFull w frame
      end
  end.

(** [io.ReadFull] of [n] bytes from a stream that ends where the list does. *)
Definition ReadFull (r : bytes) (n : nat) : result (bytes * bytes) :=
  if (n <=? List.length r)%nat then Ok (take n r, drop n r)
  else Err (EExternal (if (List.length r =? 0)%nat then "io.EOF" else "io.ErrUnexpectedEOF")).

(** Returns the metadata and the rest of the stream. *)
Definition ReadOpen (r : bytes) (max : Z) : result (OpenMetadata * bytes) :=
  let max := if max <=? 0 then maxSessionFrame else max in
  let max := normalizeFrameLimit max in
  '(size, r) ← ReadFull r 4;
  let length := be_get size in
  _ ← reject_if ((length =? 0) || (length >? max + 6)) ErrFrameTooLarge;
  '(frame, r) ← ReadFull r (Z.to_nat length);
  metadata ← DecodeOpen frame max;
  Ok (metadata, r).
End Stream.
