(* ===== verification/ControlFacts.v ===== *)
(** * The control frames are exact

    Encoding and decoding are inverse, decoding accepts only the canonical form,
    the writer loop terminates and delivers the whole frame, and the two
    authorization functions admit exactly the sessions and streams of an applied
    assignment. *)
From S2P Require Import Prelude GoStd GoNet Domain Validation Datagram Control.

(** ** A codec to run examples with: any countable message, bit by bit *)
Section BitCodec.
Context `{Countable M}.

Fixpoint bits_of (p : positive) : bytes :=
  match p with
  | xH => []
  | xO p => "0"%char :: bits_of p
  | xI p => "1"%char :: bits_of p
  end.

Fixpoint of_bits (l : bytes) : option positive :=
  match l with
  | [] => Some xH
  | c :: l =>
      p ← of_bits l;
      if Ascii.eqb c "0" then Some (xO p) else if Ascii.eqb c "1" then Some (xI p) else None
  end.

Lemma of_bits_of p : of_bits (bits_of p) = Some p.
Proof. induction p; cbn; by rewrite ?IHp. Qed.

Definition bit_marshal (m : M) : result bytes := Ok (bits_of (encode m)).
Definition bit_unmarshal (b : bytes) : result (M * bytes) :=
  match of_bits b ≫= decode with Some m => Ok (m, []) | None => Err (EExternal "proto") end.

Lemma bit_marshal_unmarshal m b : bit_marshal m = Ok b -> bit_unmarshal b = Ok (m, []).
Proof. intros [= <-]. unfold bit_unmarshal. rewrite of_bits_of. cbn. by rewrite decode_encode. Qed.

Definition bit_codec : Proto M :=
  {| proto_marshal := bit_marshal; proto_unmarshal := bit_unmarshal;
     proto_marshal_unmarshal := bit_marshal_unmarshal |}.
End BitCodec.

#[global] Instance SessionHello_countable : Countable SessionHello :=
  inj_countable' (fun v => (Hello_AssignmentID v, Hello_Generation v, Hello_AgentID v, Hello_Capabilities v))
    (fun '(a, g, i, c) => MkHello a g i c) (fun v => match v with MkHello _ _ _ _ => eq_refl end).
#[global] Instance OpenMetadata_countable : Countable OpenMetadata :=
  inj_countable' (fun v => (Open_Protocol v, Open_ServiceID v, Open_Target v, Open_FlowID v, Open_Egress v))
    (fun '(p, s, t, f, e) => MkOpen p s t f e) (fun v => match v with MkOpen _ _ _ _ _ => eq_refl end).

(** ** Frames *)
Lemma normalizeFrameLimit_range max : 0 < normalizeFrameLimit max <= maxSessionFrame.
Proof. unfold normalizeFrameLimit, maxSessionFrame. case_match; bool_facts; lia. Qed.

Lemma normalizeFrameLimit_idem max : normalizeFrameLimit (normalizeFrameLimit max) = normalizeFrameLimit max.
Proof.
  pose proof (normalizeFrameLimit_range max). unfold normalizeFrameLimit at 1.
  replace (normalizeFrameLimit max <=? 0) with false by lia. rewrite Z.gtb_ltb.
  by replace (maxSessionFrame <? normalizeFrameLimit max) with false by lia.
Qed.

Lemma encodeControl_inv `{Proto M} kind (m : M) max d :
  encodeControl kind m max = Ok d ->
  exists b, proto_marshal m = Ok b /\ llen b <= normalizeFrameLimit max
    /\ d = byte_of_Z Version :: byte_of_Z kind :: be_put 4 (llen b) ++ b /\ llen d = 6 + llen b.
Proof.
  intros He. unfold encodeControl in He. inv_ok. bool_facts. eexists. split_and!; try done.
  cbn [List.length]. lia.
Qed.

Lemma frame_parts (x y : ascii) (l b : bytes) :
  List.length l = 4%nat -> slice 2 6 (x :: y :: l ++ b) = l /\ drop 6 (x :: y :: l ++ b) = b.
Proof. intros H. by destruct l as [|? [|? [|? [|? [|? ?]]]]]. Qed.

Lemma encodeControl_decode `{Proto M} kind (m : M) max d :
  0 <= kind < 256 -> encodeControl kind m max = Ok d -> decodeControl d kind max = Ok m.
Proof.
  intros Hk He. apply encodeControl_inv in He as (b & Hm & Hl & -> & Hlen).
  pose proof (normalizeFrameLimit_range max) as Hr. unfold maxSessionFrame in Hr.
  unfold decodeControl. rewrite Hlen. cbn [lookup list_lookup]. rewrite !byte_val_of_Z.
  replace (6 + llen b <? 6) with false by lia.
  replace (6 + llen b >? normalizeFrameLimit max + 6) with false by lia.
  rewrite (Z.mod_small kind) by done. rewrite (Z.eqb_refl kind). cbn [orb negb Version Z.modulo Z.eqb].
  destruct (frame_parts (byte_of_Z Version) (byte_of_Z kind) (be_put 4 (llen b)) b) as [-> ->];
    [apply be_put_length |].
  change (byte_val (byte_of_Z Version) =? 1) with true. 
  rewrite be_get_put_small by (change (256 ^ Z.of_nat 4) with 4294967296; lia).
  replace (llen b >? normalizeFrameLimit max) with false by lia.
  replace (llen b =? 6 + llen b - 6) with true by lia. cbn.
  rewrite (proto_marshal_unmarshal _ _ Hm). done.
Qed.

(** ** Validation *)
Section DistinctLoop.
Context (bad : string -> bool) (e : error).
Let body (_ : Z) (x : string) (seen : gset string) : result (gset string) :=
  if bad x then Err e else if bool_decide (x ∈ seen) then Err e else Ok ({[x]} ∪ seen).

(** A loop that refuses bad and repeated elements. *)
Lemma distinct_loop xs i seen :
  (exists s, for_each body i xs seen = Ok s)
  <-> Forall (fun x => bad x = false) xs /\ NoDup xs /\ Forall (fun x => x ∉ seen) xs.
Proof.
  revert i seen. induction xs as [|x xs IH]; intros i seen; cbn [for_each].
  - split; [intros _; repeat split; constructor | by eexists].
  - change (body i x seen) with (if bad x then Err e else if bool_decide (x ∈ seen) then Err e else Ok ({[x]} ∪ seen)).
    destruct (bad x) eqn:Hb; cbn [mbind result_bind].
    { split; [intros [? [=]] | intros (Hf & _)]. apply Forall_cons in Hf as [? _]. congruence. }
    case_bool_decide as Hx; cbn [mbind result_bind].
    { split; [intros [? [=]] | intros (_ & _ & Hf)]. by apply Forall_cons in Hf as [? _]. }
    rewrite IH, !Forall_cons, NoDup_cons. split.
    + intros (H1 & H2 & H3). rewrite Forall_forall in H3. split_and!; try done.
      * intros Hin. apply (H3 _ Hin). set_solver.
      * apply Forall_forall. intros y Hy. specialize (H3 y Hy). set_solver.
    + intros ([_ H1] & [H2 H3] & [_ H4]). split_and!; try done.
      rewrite Forall_forall in *. intros y Hy. specialize (H4 y Hy).
      assert (y <> x) by congruence. set_solver.
Qed.
End DistinctLoop.

Definition bad_capability (c : string) : bool :=
  String.eqb c "" || (slen c >? 64) || strings.ContainsAny c nul_cr_lf.

Definition good_capabilities (l : list string) : Prop :=
  llen l <= maxSessionCapabilities /\ Forall (fun c => bad_capability c = false) l /\ NoDup l.
Definition good_service_ids (l : list string) : Prop :=
  llen l <= maxSessionServiceIDs /\ Forall (fun c => validWireID c maxServiceIDBytes = true) l /\ NoDup l.

#[export] Instance good_capabilities_perm : Proper ((≡ₚ) ==> iff) good_capabilities.
Proof. intros l1 l2 H. unfold good_capabilities. by rewrite H. Qed.
#[export] Instance good_service_ids_perm : Proper ((≡ₚ) ==> iff) good_service_ids.
Proof. intros l1 l2 H. unfold good_service_ids. by rewrite H. Qed.

Lemma unit_bind_Ok {A} (m : result A) : (exists s, m = Ok s) <-> (_ ← m; Ok tt) = Ok tt.
Proof. destruct m; cbn; split; try done; [by eexists | by intros [? ?]]. Qed.

Lemma capability_loop l : (_ ← for_each capability_check 0 l ∅; Ok tt) = Ok tt
  <-> Forall (fun c => bad_capability c = false) l /\ NoDup l.
Proof.
  rewrite <- unit_bind_Ok. change capability_check with (fun (_ : Z) c (seen : gset string) =>
    if bad_capability c then Err ErrMalformedFrame
    else if bool_decide (c ∈ seen) then Err ErrMalformedFrame else Ok ({[c]} ∪ seen)).
  rewrite distinct_loop. split; [tauto|]. intros [? ?]. split_and!; try done. apply Forall_forall. set_solver.
Qed.

Lemma service_id_loop l : (_ ← for_each service_id_check 0 l ∅; Ok tt) = Ok tt
  <-> Forall (fun c => validWireID c maxServiceIDBytes = true) l /\ NoDup l.
Proof.
  rewrite <- unit_bind_Ok. change service_id_check with (fun (_ : Z) c (seen : gset string) =>
    if negb (validWireID c maxServiceIDBytes) then Err ErrMalformedFrame
    else if bool_decide (c ∈ seen) then Err ErrMalformedFrame else Ok ({[c]} ∪ seen)).
  rewrite distinct_loop. setoid_rewrite negb_false_iff.
  split; [tauto|]. intros [? ?]. split_and!; try done. apply Forall_forall. set_solver.
Qed.

Lemma validateSession_spec v :
  validateSession v = Ok tt <->
  (validWireID (Hello_AssignmentID v) maxAssignmentIDBytes = true /\ Hello_Generation v <> 0
   /\ validWireID (Hello_AgentID v) maxAssignmentIDBytes = true) /\ good_capabilities (Hello_Capabilities v).
Proof.
  unfold validateSession, good_capabilities. rewrite <- capability_loop.
  destruct (validWireID (Hello_AssignmentID v) _), (Z.eqb_spec (Hello_Generation v) 0), (validWireID (Hello_AgentID v) _);
    cbn [negb orb reject_if mbind result_bind]; try (split; [done | intuition congruence]).
  rewrite Z.gtb_ltb. destruct (Z.ltb_spec maxSessionCapabilities (llen (Hello_Capabilities v)));
    cbn [reject_if mbind result_bind]; [split; [done | lia] | tauto].
Qed.

Lemma validateSessionAccept_spec v :
  validateSessionAccept v = Ok tt <->
  (validWireID (Accept_AssignmentID v) maxAssignmentIDBytes = true /\ Accept_Generation v <> 0)
  /\ good_capabilities (Accept_Capabilities v) /\ good_service_ids (Accept_ServiceIDs v).
Proof.
  unfold validateSessionAccept, good_capabilities, good_service_ids. rewrite <- capability_loop, <- service_id_loop.
  destruct (validWireID (Accept_AssignmentID v) _), (Z.eqb_spec (Accept_Generation v) 0);
    cbn [negb orb reject_if mbind result_bind]; try (split; [done | intuition congruence]).
  rewrite !Z.gtb_ltb. destruct (Z.ltb_spec maxSessionCapabilities (llen (Accept_Capabilities v)));
    cbn [reject_if mbind result_bind]; [split; [done | lia] |].
  destruct (for_each capability_check 0 _ ∅); cbn [mbind result_bind]; [| split; [done | tauto]].
  destruct (Z.ltb_spec maxSessionServiceIDs (llen (Accept_ServiceIDs v)));
    cbn [reject_if mbind result_bind]; [split; [done | lia] | tauto].
Qed.

(** ** Codecs *)
Section Codecs.
Context `{!Proto SessionHello, !Proto SessionAccept, !Proto OpenMetadata}.

Definition canonical_hello (v : SessionHello) : SessionHello :=
  MkHello (Hello_AssignmentID v) (Hello_Generation v) (Hello_AgentID v) (CanonicalCapabilities (Hello_Capabilities v)).
Definition canonical_accept (v : SessionAccept) : SessionAccept :=
  MkAccept (Accept_AssignmentID v) (Accept_Generation v) (CanonicalCapabilities (Accept_Capabilities v))
    (CanonicalServiceIDs (Accept_ServiceIDs v)).

Lemma sort_strings_idem l : sort_strings (sort_strings l) = sort_strings l.
Proof. apply sort_strings_unique, sort_strings_perm. Qed.

Lemma canonical_hello_valid v : validateSession v = Ok tt -> validateSession (canonical_hello v) = Ok tt.
Proof. rewrite !validateSession_spec. cbn. unfold CanonicalCapabilities. by rewrite sort_strings_perm. Qed.

Lemma EncodeSessionHello_decode v max d :
  EncodeSessionHello v max = Ok d -> DecodeSessionHello d max = Ok (canonical_hello v).
Proof.
  intros He. unfold EncodeSessionHello in He. inv_ok. destruct x.
  fold (canonical_hello v) in He. unfold DecodeSessionHello.
  pose proof (fun Hk => encodeControl_decode _ _ _ _ Hk He) as Hd. rewrite Hd by done. cbn [mbind result_bind].
  change (MkHello _ _ _ _) with (canonical_hello v). rewrite canonical_hello_valid by done. cbn [mbind result_bind].
  assert (EncodeSessionHello (canonical_hello v) max = Ok d) as ->; [| by rewrite bool_decide_eq_true_2].
  unfold EncodeSessionHello. rewrite canonical_hello_valid by done. cbn [mbind result_bind].
  rewrite <- He. cbn. unfold CanonicalCapabilities. by rewrite sort_strings_idem.
Qed.

Lemma DecodeSessionHello_encode d max v :
  DecodeSessionHello d max = Ok v -> EncodeSessionHello v max = Ok d.
Proof.
  intros H. unfold DecodeSessionHello in H. inv_ok. case_match; [| done]. case_bool_decide; [| done].
  by simplify_eq.
Qed.

(** The session codec is exact. [DecodeSessionHello] accepts a frame with
    result [v] if and only if [v] has sorted capabilities and the frame is what
    [EncodeSessionHello] produces for [v]; so every valid hello has one frame. *)
Theorem session_hello_exact d max v :
  DecodeSessionHello d max = Ok v
  <-> EncodeSessionHello v max = Ok d /\ CanonicalCapabilities (Hello_Capabilities v) = Hello_Capabilities v.
Proof.
  split.
  - intros H. pose proof (DecodeSessionHello_encode _ _ _ H) as He. split; [done|].
    pose proof (EncodeSessionHello_decode _ _ _ He) as Hd. rewrite H in Hd. injection Hd as Hd.
    apply (f_equal Hello_Capabilities) in Hd. symmetry. exact Hd.
  - intros [He Hs]. rewrite (EncodeSessionHello_decode _ _ _ He). f_equal.
    unfold canonical_hello. rewrite Hs. by destruct v.
Qed.

(** The open codec is exact: [DecodeOpen] inverts [EncodeOpen], and accepts
    nothing else. *)
Theorem open_exact d max v : DecodeOpen d max = Ok v <-> EncodeOpen v max = Ok d.
Proof.
  split.
  - intros H. unfold DecodeOpen in H. inv_ok. bool_facts. by subst.
  - intros He. pose proof He as He'. unfold EncodeOpen in He. inv_ok. unfold DecodeOpen.
    pose proof (fun Hk => encodeControl_decode _ _ _ _ Hk He) as Hd. rewrite Hd by done. cbn [mbind result_bind].
    destruct v. cbn in *. rewrite He'. cbn. by rewrite bool_decide_eq_true_2.
Qed.

Lemma EncodeOpen_length v max d : EncodeOpen v max = Ok d -> 6 <= llen d <= normalizeFrameLimit max + 6.
Proof. intros He. unfold EncodeOpen in He. inv_ok. apply encodeControl_inv in He as (? & _ & ? & _ & ?). lia. Qed.
End Codecs.

(** ** Negotiation *)
Lemma negotiate_loop (peer : gset string) l acc (sn : gset string) :
  NoDup acc -> (forall x, x ∈ acc <-> x ∈ sn) ->
  let step := fun '(result, seen) capability =>
        if bool_decide (capability ∉ peer) then (result, seen)
        else if bool_decide (capability ∈ seen) then (result, seen)
        else (result ++ [capability], {[capability]} ∪ seen) in
  NoDup (foldl step (acc, sn) l).1
  /\ forall x, x ∈ (foldl step (acc, sn) l).1 <-> x ∈ acc \/ (x ∈ l /\ x ∈ peer).
Proof.
  intros Hnd Hsn step. revert acc sn Hnd Hsn. induction l as [|c l IH]; intros acc sn Hnd Hsn; cbn [foldl].
  { cbn. split; [done|]. set_solver. }
  assert (c ∉ peer \/ c ∈ sn \/ (c ∈ peer /\ c ∉ sn)) as Hcases by (destruct (decide (c ∈ peer)), (decide (c ∈ sn)); tauto).
  assert (step (acc, sn) c = if decide (c ∈ peer /\ c ∉ sn) then (acc ++ [c], {[c]} ∪ sn) else (acc, sn)) as ->.
  { cbn. repeat case_bool_decide; case_decide; tauto. }
  case_decide as Hd.
  - destruct (IH (acc ++ [c]) ({[c]} ∪ sn)) as [H1 H2].
    + apply NoDup_app. split_and!; [done | | by apply NoDup_singleton]. intros x Hx. apply Hsn in Hx. set_solver.
    + intros x. rewrite elem_of_app, Hsn. set_solver.
    + split; [exact H1|]. intros x. rewrite H2. set_solver.
  - destruct (IH acc sn Hnd Hsn) as [H1 H2]. split; [exact H1|]. intros x. rewrite H2.
    split; [set_solver|]. intros [?|[[->|?]%elem_of_cons ?]]; [tauto | | tauto].
    left. apply Hsn. destruct Hcases as [?|[?|?]]; tauto.
Qed.

(** Negotiation returns the sorted list, without repetitions, of exactly the
    capabilities both peers offer (the defaults standing for an empty offer); so
    no capability is claimed that the peer did not offer. *)
Theorem NegotiateCapabilities_spec local peer :
  let offered := match local with [] => defaultCapabilities | _ => local end in
  NoDup (NegotiateCapabilities local peer)
  /\ StronglySorted (not_after string_less) (NegotiateCapabilities local peer)
  /\ forall c, c ∈ NegotiateCapabilities local peer <-> c ∈ offered /\ c ∈ peer.
Proof.
  intros offered. unfold NegotiateCapabilities.
  assert ((if llen local =? 0 then defaultCapabilities else local) = offered) as -> by (by destruct local).
  destruct (negotiate_loop (list_to_set peer) offered [] ∅ ltac:(constructor) ltac:(set_solver)) as [H1 H2].
  destruct (foldl _ _ _) as [result sn]. cbn [fst] in *. unfold CanonicalCapabilities. split_and!.
  - by rewrite sort_strings_perm.
  - apply sort_stable_sorted, string_less_weak.
  - intros c. rewrite sort_strings_perm, H2, elem_of_list_to_set. set_solver.
Qed.

Section AcceptCodec.
Context `{!Proto SessionAccept}.

Lemma canonical_accept_valid v :
  validateSessionAccept v = Ok tt -> validateSessionAccept (canonical_accept v) = Ok tt.
Proof.
  rewrite !validateSessionAccept_spec. cbn. unfold CanonicalCapabilities, CanonicalServiceIDs.
  by rewrite !sort_strings_perm.
Qed.

Lemma EncodeSessionAccept_decode v max d :
  EncodeSessionAccept v max = Ok d -> DecodeSessionAccept d max = Ok (canonical_accept v).
Proof.
  intros He. unfold EncodeSessionAccept in He. inv_ok. destruct x.
  fold (canonical_accept v) in He. unfold DecodeSessionAccept.
  pose proof (fun Hk => encodeControl_decode _ _ _ _ Hk He) as Hd. rewrite Hd by done. cbn [mbind result_bind].
  change (MkAccept _ _ _ _) with (canonical_accept v). rewrite canonical_accept_valid by done. cbn [mbind result_bind].
  assert (EncodeSessionAccept (canonical_accept v) max = Ok d) as ->; [| by rewrite bool_decide_eq_true_2].
  unfold EncodeSessionAccept. rewrite canonical_accept_valid by done. cbn [mbind result_bind].
  rewrite <- He. cbn. unfold CanonicalCapabilities, CanonicalServiceIDs. by rewrite !sort_strings_idem.
Qed.

(** The accept codec is exact in the same sense: one frame per accepted
    message, with both lists sorted. *)
Theorem session_accept_exact d max v :
  DecodeSessionAccept d max = Ok v
  <-> EncodeSessionAccept v max = Ok d /\ canonical_accept v = v.
Proof.
  split.
  - intros H. assert (EncodeSessionAccept v max = Ok d) as He.
    { unfold DecodeSessionAccept in H. inv_ok. case_match; [| done]. case_bool_decide; [| done]. by simplify_eq. }
    split; [done|]. pose proof (EncodeSessionAccept_decode _ _ _ He) as Hd. rewrite H in Hd. by injection Hd.
  - intros [He Hs]. by rewrite (EncodeSessionAccept_decode _ _ _ He), Hs.
Qed.
End AcceptCodec.

(** ** Writing and reading streams *)
Section Streams.
Context `{Writer W}.

(** The loop always returns, and without error it has written everything. *)
Lemma WriteFull_loop_total fuel w data :
  (List.length data < fuel)%nat ->
  exists w' err, WriteFull_loop fuel w data = Some (w', err)
    /\ (err = None -> stream w' = stream w ++ data).
Proof.
  revert w data. induction fuel as [|fuel IH]; intros w data Hf; [lia|]. cbn [WriteFull_loop].
  rewrite Z.gtb_ltb. destruct (Z.ltb_spec 0 (llen data)) as [Hd|Hd].
  2: { destruct data; [| cbn in Hd; lia]. exists w, None. split; [done|]. intros _. by rewrite app_nil_r. }
  pose proof (Write_count w data) as Hc. pose proof (Write_appends w data) as Ha.
  destruct (Write w data) as [[w' n] err]. cbn [fst snd] in *. rewrite Z.gtb_ltb.
  destruct err as [e|]; [by exists w', (Some e)|].
  destruct (Z.eqb_spec n 0) as [->|Hn]; [by exists w', (Some ErrShortWrite)|].
  replace (0 <? n) with true by lia.
  destruct (IH w' (drop (Z.to_nat n) data)) as (w'' & err & Hrun & Hok); [rewrite length_drop; lia|].
  exists w'', err. split; [done|]. intros ->. rewrite Hok, Ha by done.
  by rewrite <- app_assoc, take_drop.
Qed.

Lemma WriteFull_total w data :
  exists w' err, WriteFull (Some w) data = Some (Some w', err)
    /\ (err = None -> stream w' = stream w ++ data).
Proof.
  destruct (WriteFull_loop_total (S (List.length data)) w data) as (w' & err & Hrun & Hok); [lia|].
  exists w', err. unfold WriteFull. by rewrite Hrun.
Qed.

(** [WriteFull] terminates on every writer that keeps the [io.Writer]
    contract, and returns no error only when the whole buffer is on the stream. *)
Theorem WriteFull_complete w data :
  exists w' err, WriteFull (Some w) data = Some (Some w', err)
    /\ (err = None -> stream w' = stream w ++ data).
Proof. apply WriteFull_total. Qed.

Context `{!Proto OpenMetadata}.

Lemma ReadFull_app (a b : bytes) n : List.length a = n -> ReadFull (a ++ b) n = Ok (a, b).
Proof.
  intros <-. unfold ReadFull. rewrite length_app, take_app_length, drop_app_length.
  by replace (List.length a <=? List.length a + List.length b)%nat with true by (symmetry; apply Nat.leb_le; lia).
Qed.

Lemma ReadOpen_frame v max d rest :
  EncodeOpen v (normalizeFrameLimit max) = Ok d ->
  ReadOpen (be_put 4 (llen d) ++ d ++ rest) max = Ok (v, rest).
Proof.
  intros He. pose proof (EncodeOpen_length _ _ _ He) as Hl. rewrite normalizeFrameLimit_idem in Hl.
  pose proof (normalizeFrameLimit_range max) as Hr. unfold maxSessionFrame in Hr. unfold ReadOpen.
  assert ((if max <=? 0 then maxSessionFrame else max) = max \/ normalizeFrameLimit (if max <=? 0 then maxSessionFrame else max) = normalizeFrameLimit max) as Hm.
  { unfold normalizeFrameLimit, maxSessionFrame. destruct (max <=? 0); [by right | by left]. }
  assert (normalizeFrameLimit (if max <=? 0 then maxSessionFrame else max) = normalizeFrameLimit max) as ->
    by (destruct Hm as [-> | ->]; done).
  rewrite ReadFull_app by apply be_put_length. cbn [mbind result_bind].
  rewrite be_get_put_small by (change (256 ^ Z.of_nat 4) with 4294967296; lia).
  replace (llen d =? 0) with false by lia. rewrite Z.gtb_ltb.
  replace (normalizeFrameLimit max + 6 <? llen d) with false by lia. cbn [orb reject_if mbind result_bind].
  rewrite Nat2Z.id, ReadFull_app by done. cbn [mbind result_bind].
  assert (DecodeOpen d (normalizeFrameLimit max) = Ok v) as ->; [| done].
  unfold DecodeOpen. pose proof He as He'. unfold EncodeOpen in He. inv_ok.
  pose proof (fun Hk => encodeControl_decode _ _ _ _ Hk He) as Hd. rewrite Hd by done. cbn [mbind result_bind].
  destruct v. cbn in *. rewrite He'. cbn. by rewrite bool_decide_eq_true_2.
Qed.

(** An open message that [WriteOpen] wrote without error is what [ReadOpen]
    reads back, and the raw stream behind it starts exactly after it. *)
Theorem open_stream_roundtrip (w : W) v max w' rest :
  WriteOpen (Some w) v max = Some (Some w', None) ->
  exists sent, stream w' = stream w ++ sent /\ ReadOpen (sent ++ rest) max = Ok (v, rest).
Proof.
  unfold WriteOpen. destruct (EncodeOpen v max) as [d|e] eqn:He; [| done].
  destruct (llen d >? 2 ^ 32 - 1); [done|].
  destruct (WriteFull_total w (be_put 4 (llen d))) as (w1 & err & Hrun & Hok). rewrite Hrun. cbn [mbind option_bind].
  destruct err; [done|]. specialize (Hok eq_refl).
  destruct (WriteFull_total w1 d) as (w2 & err & Hrun2 & Hok2). rewrite Hrun2. intros [= <- ->]. specialize (Hok2 eq_refl).
  exists (be_put 4 (llen d) ++ d). split; [by rewrite Hok2, Hok, <- app_assoc|].
  rewrite <- app_assoc. apply ReadOpen_frame. unfold EncodeOpen, encodeControl in *.
  by rewrite normalizeFrameLimit_idem.
Qed.
End Streams.

(** ** Authorization *)

(** A session is admitted exactly when its hello is well-formed, names the
    assignment, its agent and its generation, and the assignment is not pending,
    draining or degraded. *)
Theorem AuthorizeSession_spec hello a :
  AuthorizeSession hello a = Ok tt <->
  validateSession hello = Ok tt
  /\ Hello_AssignmentID hello = View_ID a /\ Hello_AgentID hello = View_AgentID a
  /\ Hello_Generation hello = View_Generation a
  /\ View_State a <> AssignmentPending /\ View_State a <> AssignmentDraining /\ View_State a <> AssignmentDegraded.
Proof.
  unfold AuthorizeSession, blocked_state. destruct (validateSession hello) as [[]|]; cbn [mbind result_bind]; [| split; [done | by intros [[=] _]]].
  destruct (String.eqb_spec (Hello_AssignmentID hello) (View_ID a)),
    (String.eqb_spec (Hello_AgentID hello) (View_AgentID a)), (Z.eqb_spec (Hello_Generation hello) (View_Generation a));
    cbn [negb orb reject_if mbind result_bind]; try (split; [done | tauto]).
  destruct (String.eqb_spec (View_State a) AssignmentPending), (String.eqb_spec (View_State a) AssignmentDraining),
    (String.eqb_spec (View_State a) AssignmentDegraded); cbn; split; first [done | tauto].
Qed.

(** An open is admitted exactly when it is well-formed, the assignment is not
    pending, draining or degraded, and it is an egress open (which carries no
    service) or names a service of the assignment. *)
Theorem AuthorizeOpen_spec open a services :
  View_ServiceIDs (AssignmentFromDomain a services) = list_to_set (Assignment_ServiceIDs a) /\
  (AuthorizeOpen open (AssignmentFromDomain a services) = Ok tt <->
   EncodeOpenValidation open = Ok tt
   /\ Assignment_State a <> AssignmentPending /\ Assignment_State a <> AssignmentDraining
   /\ Assignment_State a <> AssignmentDegraded
   /\ (Open_Egress open = true \/ Open_ServiceID open ∈ Assignment_ServiceIDs a)).
Proof.
  assert (View_ServiceIDs (AssignmentFromDomain a services) = list_to_set (Assignment_ServiceIDs a)) as Hids.
  { cbn. apply set_eq. intros x. rewrite elem_of_list_to_set.
    enough (forall l (acc : gset string), x ∈ foldl (fun services id => {[id]} ∪ services) acc l <-> x ∈ acc \/ x ∈ l) as ->
      by set_solver.
    induction l as [|y l IH]; intros acc; cbn [foldl]; [set_solver|]. rewrite IH. set_solver. }
  split; [exact Hids|]. unfold AuthorizeOpen, blocked_state. rewrite Hids. cbn [View_State AssignmentFromDomain].
  destruct (EncodeOpenValidation open) as [[]|]; cbn [mbind result_bind]; [| split; [done | by intros [[=] _]]].
  destruct (String.eqb_spec (Assignment_State a) AssignmentPending), (String.eqb_spec (Assignment_State a) AssignmentDraining),
    (String.eqb_spec (Assignment_State a) AssignmentDegraded); cbn [orb reject_if mbind result_bind]; try (split; [done | tauto]).
  destruct (Open_Egress open); [split; tauto|]. rewrite reject_if_Ok, bool_decide_eq_false, elem_of_list_to_set.
  destruct (decide (Open_ServiceID open ∈ Assignment_ServiceIDs a)); intuition congruence.
Qed.

(** A writer that takes at most three bytes at a time. *)
Definition chunk_write (w data : bytes) : bytes * Z * option error := (w ++ take 3 data, Z.min 3 (llen data), None).

Lemma chunk_write_count (w data : bytes) : 0 <= (chunk_write w data).1.2 <= llen data.
Proof. cbn. lia. Qed.
Lemma chunk_write_appends (w data : bytes) :
  (chunk_write w data).1.1 = w ++ take (Z.to_nat (chunk_write w data).1.2) data.
Proof.
  cbn. f_equal. destruct (decide (List.length data <= 3)%nat); [| f_equal; lia].
  rewrite !take_ge; [done | lia | lia].
Qed.

Definition chunk_writer : Writer bytes :=
  {| Write := chunk_write; stream := id; Write_count := chunk_write_count; Write_appends := chunk_write_appends |}.

Definition sample_open : OpenMetadata := MkOpen "tcp" "svc-1" "[2001:db8::1]:443" 0 false.

Lemma open_stream_roundtrip_witness :
  exists w' sent, @WriteOpen bit_codec bytes chunk_writer (Some []) sample_open 0 = Some (Some w', None)
    /\ w' = sent /\ @ReadOpen bit_codec (sent ++ bytes_of "raw") 0 = Ok (sample_open, bytes_of "raw").
Proof.
  destruct (@WriteOpen bit_codec bytes chunk_writer (Some []) sample_open 0) as [[[w'|] [e|]]|] eqn:E; vm_compute in E; try discriminate E.
  assert (H : @WriteOpen bit_codec bytes chunk_writer (Some []) sample_open 0 = Some (Some w', None))
    by (rewrite <- E; vm_compute; reflexivity).
  destruct (@open_stream_roundtrip bytes chunk_writer bit_codec [] sample_open 0 w' (bytes_of "raw") H) as (sent & Hs & Hr).
  exists w', sent. split; [reflexivity | split; [exact Hs | exact Hr]].
Defined.
