(* ===== verification/Engine.v ===== *)
(** * The data-plane engine (src/internal/dataplane: engine_types.go,
    engine_authorize.go, engine_clone.go, engine_snapshot.go)

    [Engine] is the struct; each method is a function on it, with the value it
    returns.  A method that loops on a compare-and-swap is given here by the
    iteration that succeeds; [EngineSteps] interleaves the single atomic
    operations of these methods. *)
From S2P Require Import Prelude GoStd GoNet Domain Checksum Validation Snapshot Datagram Control.

Record Options := MkOptions {
  Options_Kind : string; Options_NodeID : string; Options_MaxStreams : Z; Options_MaxSessions : Z
}.

(** [mu], the lock, is part of the interleaving model only. *)
Record Engine := MkEngine {
  kind : string;
  nodeID : string;
  maxStreams : Z;
  maxSessions : Z;
  draining : bool;
  closed : bool;
  generation : Z;
  epoch : Z;
  gatewaySpec : option GatewaySpec;
  agentSpec : option AgentSpec;
  assignments : gmap string AssignmentView;
  services : gmap string Service;
  active : gmap string Z;
  baseMaxStreams : Z;
  connectionLimit : Z;
  bufferLimit : Z;
  streams : Z;
  sessions : Z;
  egress : EgressPolicy;
  egressOpen : Z
}.

(** The reservation, with its [once] flag. *)
Record OpenLease := MkLease { lease_assignmentID : string; lease_epoch : Z; lease_once : bool }.

(** ** Field updates *)
Definition with_streams (e : Engine) (n : Z) : Engine :=
  MkEngine (kind e) (nodeID e) (maxStreams e) (maxSessions e) (draining e) (closed e) (generation e) (epoch e)
    (gatewaySpec e) (agentSpec e) (assignments e) (services e) (active e) (baseMaxStreams e) (connectionLimit e)
    (bufferLimit e) n (sessions e) (egress e) (egressOpen e).
Definition with_sessions (e : Engine) (n : Z) : Engine :=
  MkEngine (kind e) (nodeID e) (maxStreams e) (maxSessions e) (draining e) (closed e) (generation e) (epoch e)
    (gatewaySpec e) (agentSpec e) (assignments e) (services e) (active e) (baseMaxStreams e) (connectionLimit e)
    (bufferLimit e) (streams e) n (egress e) (egressOpen e).
Definition with_active (e : Engine) (m : gmap string Z) : Engine :=
  MkEngine (kind e) (nodeID e) (maxStreams e) (maxSessions e) (draining e) (closed e) (generation e) (epoch e)
    (gatewaySpec e) (agentSpec e) (assignments e) (services e) m (baseMaxStreams e) (connectionLimit e)
    (bufferLimit e) (streams e) (sessions e) (egress e) (egressOpen e).
Definition with_egressOpen (e : Engine) (n : Z) : Engine :=
  MkEngine (kind e) (nodeID e) (maxStreams e) (maxSessions e) (draining e) (closed e) (generation e) (epoch e)
    (gatewaySpec e) (agentSpec e) (assignments e) (services e) (active e) (baseMaxStreams e) (connectionLimit e)
    (bufferLimit e) (streams e) (sessions e) (egress e) n.
Definition with_flags (e : Engine) (d c : bool) : Engine :=
  MkEngine (kind e) (nodeID e) (maxStreams e) (maxSessions e) d c (generation e) (epoch e)
    (gatewaySpec e) (agentSpec e) (assignments e) (services e) (active e) (baseMaxStreams e) (connectionLimit e)
    (bufferLimit e) (streams e) (sessions e) (egress e) (egressOpen e).

(** ** Construction and accessors (engine_types.go) *)
Definition New (options : Options) : result Engine :=
  _ ← reject_if (negb (String.eqb (Options_Kind options) NodeSpecGateway) && negb (String.eqb (Options_Kind options) NodeSpecAgent))
        (ENew "data-plane kind must be gateway or agent");
  _ ← ValidateID (Options_NodeID options) (TLit "node_id");
  let streams := if Options_MaxStreams options <=? 0 then 256 else Options_MaxStreams options in
  _ ← reject_if (streams >? 1048576) (ENew "data-plane stream limit exceeds the supported maximum");
  let sessions := if Options_MaxSessions options <=? 0 then 256 else Options_MaxSessions options in
  _ ← reject_if (sessions >? 1048576) (ENew "data-plane session limit exceeds the supported maximum");
  Ok (MkEngine (Options_Kind options) (Options_NodeID options) streams sessions false false 0 0 None None ∅ ∅ ∅
        streams 0 0 0 0 default_Egress 0).

Definition MaxBufferBytes (e : option Engine) : Z := match e with None => 0 | Some e => bufferLimit e end.

(** [e.active\[id\]]: an absent key reads as 0. *)
Definition active_count (e : Engine) (assignmentID : string) : Z := default 0 (active e !! assignmentID).
Definition ActiveStreamsForAssignment := active_count.

(** engine_clone.go. *)
Definition cloneStringMap (source : gomap string) : gomap string :=
  match source with
  | None => None
  | Some m => Some (foldr (fun '(key, value) result => <[key := value]> result) ∅ (map_to_list m))
  end.

Definition cloneEgressPolicy (value : EgressPolicy) : EgressPolicy :=
  MkEgressPolicy (Egress_Enabled value) (append_nil (Egress_TCPPorts value)) (append_nil (Egress_UDPPorts value))
    (append_nil (Egress_AllowCIDRs value)) (append_nil (Egress_AllowSpecialCIDRs value)) (Egress_MaxConnections value).

Definition cloneGatewaySpec (value : GatewaySpec) : GatewaySpec :=
  let pool := Gateway_PortPool value in
  MkGatewaySpec (Gateway_NodeID value) (append_nil (Gateway_PublicEndpoints value)) (append_nil (Gateway_Listeners value))
    (cloneStringMap (Gateway_Labels value)) (Gateway_Capacity value)
    (MkPortPool (append_nil (PortPool_TCP pool)) (append_nil (PortPool_UDP pool)))
    (Gateway_Transport value) (cloneObfuscation (Gateway_Obfuscation value))
    (cloneEgressPolicy (Gateway_Egress value)) (Gateway_Revision value).

Definition cloneAgentSpec (value : AgentSpec) : AgentSpec :=
  let egress := Agent_Egress value in
  MkAgentSpec (Agent_NodeID value) (Agent_GatewayID value)
    (MkSelector (cloneStringMap (Selector_MatchLabels (Agent_GatewaySelector value))))
    (append_nil (Agent_Proxies value))
    ((fun r => MkRouteRule (Route_Name r) (append_nil (Route_CIDRs r)) (append_nil (Route_Domains r))
                 (append_nil (Route_GeoIP r)) (Route_Destination r) (Route_Enabled r)) <$> append_nil (Agent_Routes value))
    (Agent_Limits value)
    (MkEgressPolicy (Egress_Enabled egress) (append_nil (Egress_TCPPorts egress)) (append_nil (Egress_UDPPorts egress))
       (append_nil (Egress_AllowCIDRs egress)) (append_nil (Egress_AllowSpecialCIDRs egress)) (Egress_MaxConnections egress))
    (Agent_Logging value) (Agent_Revision value).

(** [AssignmentView.Clone]. *)
Definition View_Clone (a : AssignmentView) : AssignmentView :=
  MkView (View_ID a) (View_AgentID a) (View_Generation a) (View_State a)
    (foldr (fun id services => {[id]} ∪ services) ∅ (elements (View_ServiceIDs a))) (View_MaxStreams a).

Definition GatewaySpec_of (e : Engine) : option GatewaySpec := cloneGatewaySpec <$> gatewaySpec e.
Definition AgentSpec_of (e : Engine) : option AgentSpec := cloneAgentSpec <$> agentSpec e.

(** The first proxy with the id. *)
Definition Proxy (e : Engine) (id : string) : option ProxySpec :=
  agent ← agentSpec e; List.find (fun proxy => String.eqb (Proxy_ID proxy) id) (Agent_Proxies agent).

Definition Service_of (e : Engine) (id : string) : option Service :=
  service ← services e !! id;
  Some (MkService (Service_ID service) (Service_AgentID service) (Service_Protocol service) (Service_LocalTarget service)
          (Service_PublicBind service) (Service_PublicPort service)
          (MkSelector (cloneStringMap (Selector_MatchLabels (Service_GatewaySelector service))))
          (Service_Enabled service) (Service_Revision service) (Service_UpdatedAt service)).

Definition Assignment_of (e : Engine) (id : string) : option AssignmentView := View_Clone <$> assignments e !! id.

Definition AssignmentForSession (e : Engine) (hello : SessionHello) : option AssignmentView :=
  assignment ← assignments e !! Hello_AssignmentID hello;
  if negb (String.eqb (View_AgentID assignment) (Hello_AgentID hello))
     || negb (View_Generation assignment =? Hello_Generation hello) then None
  else Some (View_Clone assignment).

(** ** Admission (engine_authorize.go) *)
Definition refusing (e : Engine) : bool := closed e || draining e.

(** Everything [AuthorizeSession] decides before its counter loop. *)
Definition session_checks (e : Engine) (hello : SessionHello) : result unit :=
  _ ← reject_if (refusing e) (ENew "data-plane engine is not accepting sessions");
  match assignments e !! Hello_AssignmentID hello with
  | None => Err ErrUnauthorizedAgent
  | Some assignment => Control.AuthorizeSession hello assignment
  end.

(** The decision of one round of the loop on the loaded count. *)
Definition session_limit (e : Engine) (current : Z) : result unit :=
  reject_if (current >=? maxSessions e) (EWrap "%w: session limit reached" [] ErrTransient).

Definition AuthorizeSession (e : Engine) (hello : SessionHello) : Engine * result unit :=
  match session_checks e hello with
  | Err err => (e, Err err)
  | Ok _ =>
      match session_limit e (sessions e) with
      | Err err => (e, Err err)
      | Ok _ => (with_sessions e (sessions e + 1), Ok tt)
      end
  end.

Definition ReleaseSession (e : Engine) : Engine :=
  if sessions e <=? 0 then e else with_sessions e (sessions e - 1).

(** The stream ceiling of an assignment. *)
Definition assignment_limit (e : Engine) (assignment : AssignmentView) : Z :=
  if (View_MaxStreams assignment >? 0) && (View_MaxStreams assignment <? maxStreams e)
  then View_MaxStreams assignment else maxStreams e.

(** Everything [ReserveOpen] decides before its counter loop. *)
Definition open_checks (e : Engine) (assignmentID : string) (open : OpenMetadata) : result unit :=
  _ ← reject_if (refusing e) (ENew "data-plane engine is not accepting opens");
  match assignments e !! assignmentID with
  | None => Err ErrUnauthorizedAgent
  | Some assignment =>
      _ ← AuthorizeOpen open assignment;
      _ ← (if Open_Egress open then Ok tt else
             match services e !! Open_ServiceID open with
             | None => Err ErrUnauthorizedAgent
             | Some service =>
                 _ ← reject_if (negb (Service_Enabled service)) ErrUnauthorizedAgent;
                 reject_if (negb (String.eqb (Service_Protocol service) (Open_Protocol open))
                            || negb (String.eqb (Service_LocalTarget service) (Open_Target open))) ErrUnauthorizedAgent
             end);
      reject_if (active_count e assignmentID >=? assignment_limit e assignment)
        (EWrap "%w: assignment stream limit reached" [] ErrTransient)
  end.

(** The decision of one round of the stream loop on the loaded count. *)
Definition stream_limit (e : Engine) (current : Z) : result unit :=
  _ ← reject_if (current >=? maxStreams e) (EWrap "%w: stream limit reached" [] ErrTransient);
  reject_if ((connectionLimit e >? 0) && (current >=? connectionLimit e))
    (EWrap "%w: connection limit reached" [] ErrTransient).

(** [e.active\[id\]++]. *)
Definition count_open (e : Engine) (assignmentID : string) : Engine :=
  with_active e (<[assignmentID := active_count e assignmentID + 1]> (active e)).

Definition ReserveOpen (e : Engine) (assignmentID : string) (open : OpenMetadata) : Engine * result OpenLease :=
  match open_checks e assignmentID open with
  | Err err => (e, Err err)
  | Ok _ =>
      match stream_limit e (streams e) with
      | Err err => (e, Err err)
      | Ok _ =>
          let e := with_streams e (streams e + 1) in
          (count_open e assignmentID, Ok (MkLease assignmentID (epoch e) false))
      end
  end.

Definition local_checks (e : Engine) : result unit :=
  reject_if (refusing e) (ENew "data-plane engine is not accepting local opens").

(** On a non-nil engine. *)
Definition ReserveLocalOpen (e : Engine) : Engine * result OpenLease :=
  match local_checks e with
  | Err err => (e, Err err)
  | Ok _ =>
      match stream_limit e (streams e) with
      | Err err => (e, Err err)
      | Ok _ => (with_streams e (streams e + 1), Ok (MkLease "" (epoch e) false))
      end
  end.

Definition AuthorizeOpen (e : Engine) (assignmentID : string) (open : OpenMetadata) : Engine * result unit :=
  let '(e, r) := ReserveOpen e assignmentID open in (e, _ ← r; Ok tt).

Definition AuthorizeLocalOpen (e : Engine) : Engine * result unit :=
  let '(e, r) := ReserveLocalOpen e in (e, _ ← r; Ok tt).

Definition releaseStreamReservation (e : Engine) : Engine :=
  if streams e <=? 0 then e else with_streams e (streams e - 1).

Definition ReleaseLocalOpen := releaseStreamReservation.

(** The [active] entry loses one open; the last one is deleted. *)
Definition uncount_open (e : Engine) (assignmentID : string) : Engine :=
  let count := active_count e assignmentID in
  if count <=? 1 then with_active e (delete assignmentID (active e))
  else with_active e (<[assignmentID := count - 1]> (active e)).

Definition ReleaseOpen (e : Engine) (assignmentID : string) : Engine :=
  uncount_open (releaseStreamReservation e) assignmentID.

(** The locked part of [releaseLease]. *)
Definition release_active (e : Engine) (assignmentID : string) (ep : Z) : Engine :=
  if String.eqb assignmentID "" then e
  else if negb (ep =? epoch e) then e
  else uncount_open e assignmentID.

Definition releaseLease (e : Engine) (assignmentID : string) (ep : Z) : Engine :=
  release_active (releaseStreamReservation e) assignmentID ep.

(** [OpenLease.Release] on the engine of the lease. *)
Definition Release (e : Engine) (l : OpenLease) : Engine * OpenLease :=
  if lease_once l then (e, l)
  else (releaseLease e (lease_assignmentID l) (lease_epoch l), MkLease (lease_assignmentID l) (lease_epoch l) true).

(** ** Drain and close (engine_clone.go) *)
Definition BeginDrain (e : Engine) : Engine := with_flags e true (closed e).
Definition EndDrain (e : Engine) : Engine := if closed e then e else with_flags e false (closed e).
Definition IsDraining (e : Engine) : bool := draining e.
Definition Close (e : Engine) : Engine := with_flags e true true.

(** ** Snapshots (engine_snapshot.go) *)
Section Snapshots.
Context `{!MapOrder, !SliceSort, !Crypto, !Unicode, !DocumentJSON}.

(** What [ApplySnapshot] has built when it takes the lock. *)
Record Plan := MkPlan {
  plan_snapshot : DesiredSnapshot;
  plan_previous : option DesiredSnapshot;
  plan_rollback : bool;
  plan_sameGeneration : bool;
  plan_assignments : gmap string AssignmentView;
  plan_services : gmap string Service;
  plan_gateway : option GatewaySpec;
  plan_agent : option AgentSpec
}.

Definition index_service (e : Engine) (service : Service) (services : gmap string Service) : result (gmap string Service) :=
  _ ← Service_Validate service;
  if negb (String.eqb (Service_AgentID service) (nodeID e)) && String.eqb (kind e) NodeSpecAgent then Ok services
  else
    let service := MkService (Service_ID service) (Service_AgentID service) (Service_Protocol service)
                     (Service_LocalTarget service) (Service_PublicBind service) (Service_PublicPort service)
                     (MkSelector (cloneStringMap (Selector_MatchLabels (Service_GatewaySelector service))))
                     (Service_Enabled service) (Service_Revision service) (Service_UpdatedAt service) in
    Ok (<[Service_ID service := service]> services).

(** The ceiling of every assignment of the snapshot. *)
Definition snapshot_stream_limit (e : Engine) (snapshot : DesiredSnapshot) : Z :=
  let limit := baseMaxStreams e in
  let tighter value limit := if (value >? 0) && (value <? limit) then value else limit in
  let limit := match Snapshot_Agent snapshot with Some a => tighter (Limits_MaxStreams (Agent_Limits a)) limit | None => limit end in
  match Snapshot_Gateway snapshot with Some g => tighter (Transport_MaxStreams (Gateway_Transport g)) limit | None => limit end.

Definition index_assignment (e : Engine) (snapshot : DesiredSnapshot) (services : gmap string Service)
    (assignment : Assignment) (assignments : gmap string AssignmentView) : result (gmap string AssignmentView) :=
  _ ← reject_if (Assignment_Generation assignment >? Snapshot_Generation snapshot)
        (EFmt "assignment %s generation is newer than snapshot" [AStr (Assignment_ID assignment)]);
  if String.eqb (kind e) NodeSpecGateway && negb (String.eqb (Assignment_GatewayID assignment) (nodeID e)) then Ok assignments
  else if String.eqb (kind e) NodeSpecAgent && negb (String.eqb (Assignment_AgentID assignment) (nodeID e)) then Ok assignments
  else
    _ ← check_each (fun _ serviceID =>
          match services !! serviceID with
          | None => Err (EFmt "assignment %s references service %s not present in snapshot"
                           [AStr (Assignment_ID assignment); AStr serviceID])
          | Some service =>
              reject_if (negb (String.eqb (Service_AgentID service) (Assignment_AgentID assignment)))
                (EFmt "assignment %s references service %s owned by another agent"
                   [AStr (Assignment_ID assignment); AStr serviceID])
          end) (Assignment_ServiceIDs assignment);
    Ok (<[Assignment_ID assignment := AssignmentFromDomain assignment (snapshot_stream_limit e snapshot)]> assignments).

(** [ApplySnapshot] up to [e.mu.Lock()], with [currentGeneration] the value
    of [e.Generation()] it read and [ctx] the error of a cancelled context. *)
Definition prepare (e : Engine) (ctx : option error) (currentGeneration : Z) (snapshot : DesiredSnapshot)
    (previous : option DesiredSnapshot) : result Plan :=
  _ ← match ctx with Some err => Err err | None => Ok tt end;
  _ ← reject_if (closed e) (ENew "data-plane engine is closed");
  _ ← Snapshot_Validate snapshot;
  _ ← reject_if (String.eqb (Snapshot_Checksum snapshot) "")
        (apply_error "missing_checksum" "checksum" "data-plane snapshots must include a checksum");
  _ ← reject_if (negb (String.eqb (Snapshot_NodeID snapshot) (nodeID e))) (ENew "snapshot node id does not match engine");
  _ ← reject_if (String.eqb (kind e) NodeSpecGateway && bool_decide (Snapshot_Gateway snapshot = None))
        (ENew "gateway snapshot is required");
  _ ← reject_if (String.eqb (kind e) NodeSpecAgent && bool_decide (Snapshot_Agent snapshot = None))
        (ENew "agent snapshot is required");
  let generation := Snapshot_Generation snapshot in
  let rollback := match previous with
                  | Some p => (generation <? Snapshot_Generation p) && (currentGeneration =? Snapshot_Generation p)
                  | None => false end in
  let sameGeneration := match previous with
                        | Some p => (generation =? currentGeneration) && (Snapshot_Generation p =? generation)
                        | None => false end in
  _ ← reject_if (negb rollback && negb sameGeneration && (generation <=? currentGeneration))
        (ENew "snapshot generation is stale");
  services ← for_each (fun _ => index_service e) 0 (Snapshot_Services snapshot) ∅;
  assignments ← for_each (fun _ => index_assignment e snapshot services) 0 (Snapshot_Assignments snapshot) ∅;
  Ok (MkPlan snapshot previous rollback sameGeneration assignments services
        (cloneGatewaySpec <$> Snapshot_Gateway snapshot) (cloneAgentSpec <$> Snapshot_Agent snapshot)).

(** The limits the snapshot's spec sets: egress, connection, buffer and stream
    limit. *)
Definition spec_limits (base : Z) (agent : option AgentSpec) (gateway : option GatewaySpec) : EgressPolicy * Z * Z * Z :=
  let tighter value := if (value >? 0) && (value <? base) then value else base in
  match agent, gateway with
  | Some a, _ => (cloneEgressPolicy (Agent_Egress a), Limits_MaxConnections (Agent_Limits a),
                  Limits_MaxBufferBytes (Agent_Limits a), tighter (Limits_MaxStreams (Agent_Limits a)))
  | None, Some g => (cloneEgressPolicy (Gateway_Egress g), Capacity_MaxConnections (Gateway_Capacity g), 0,
                     tighter (Transport_MaxStreams (Gateway_Transport g)))
  | None, None => (default_Egress, 0, 0, base)
  end.

(** [e.epoch++] on a [uint64]. *)
Definition next_epoch (ep : Z) : Z := (ep + 1) mod 2 ^ 64.

(** The locked part of [ApplySnapshot]. *)
Definition commit (e : Engine) (p : Plan) : Engine * result unit :=
  let generation' := Snapshot_Generation (plan_snapshot p) in
  let check :=
    _ ← reject_if (closed e) (ENew "data-plane engine is closed");
    _ ← reject_if (plan_rollback p && match plan_previous p with
                                      | None => true
                                      | Some previous => negb (generation e =? Snapshot_Generation previous) end)
          (ENew "snapshot generation changed during rollback");
    _ ← reject_if (plan_sameGeneration p && negb (generation e =? generation'))
          (ENew "snapshot generation changed during resync");
    reject_if (negb (plan_rollback p) && negb (plan_sameGeneration p) && (generation' <=? generation e))
      (ENew "snapshot generation is stale") in
  match check with
  | Err err => (e, Err err)
  | Ok _ =>
      let '(egress', connections, buffers, streams') := spec_limits (baseMaxStreams e) (plan_agent p) (plan_gateway p) in
      (MkEngine (kind e) (nodeID e) streams' (maxSessions e) (draining e) (closed e) generation'
         (next_epoch (epoch e)) (plan_gateway p) (plan_agent p) (plan_assignments p) (plan_services p) ∅
         (baseMaxStreams e) connections buffers (streams e) (sessions e) egress' (egressOpen e), Ok tt)
  end.

(** [ApplySnapshot] without interference between its two parts. *)
Definition ApplySnapshot (e : Engine) (ctx : option error) (snapshot : DesiredSnapshot)
    (previous : option DesiredSnapshot) : Engine * result unit :=
  match prepare e ctx (generation e) snapshot previous with
  | Err err => (e, Err err)
  | Ok plan => commit e plan
  end.

Definition ResetSnapshot (e : Engine) (expectedGeneration : Z) : Engine * result unit :=
  if negb (expectedGeneration =? 0) && negb (generation e =? expectedGeneration)
  then (e, Err (ENew "data-plane snapshot generation changed during reset"))
  else
    (MkEngine (kind e) (nodeID e) (baseMaxStreams e) (maxSessions e) true (closed e) 0 (next_epoch (epoch e))
       None None ∅ ∅ ∅ (baseMaxStreams e) 0 0 (streams e) (sessions e) default_Egress (egressOpen e), Ok tt).
End Snapshots.
