(* ===== verification/EngineSteps.v ===== *)
(** * Interleavings of the data-plane engine

    The methods of [Engine] as threads that interleave at every atomic operation:
    a critical section of [mu], a load of a counter, a compare-and-swap.  The
    counters account for every open lease and session, the limits hold in every
    interleaving, and a lease of an older snapshot never touches the counts of
    the current one. *)
From S2P Require Import Prelude GoStd GoNet Domain Checksum Validation Snapshot Datagram Control Engine.

(** ** Threads *)
Inductive thread :=
| ReserveStart (a : string) (local : bool)               (* holds [mu], before a load of [streams] *)
| ReserveLoaded (a : string) (local : bool) (current : Z) (* holds [mu], before the compare-and-swap *)
| ReserveWon (a : string)                                 (* holds [mu], before [active\[a\]++] *)
| LeaseHeld (a : string) (ep : Z)
| ReleaseStart (a : string) (ep : Z)                      (* [once] swapped, before a load *)
| ReleaseLoaded (a : string) (ep : Z) (current : Z)
| ReleaseDone (a : string) (ep : Z)                       (* stream given back, before the locked part *)
| SessionStart
| SessionLoaded (current : Z)
| SessionHeld
| SessionReleaseStart
| SessionReleaseLoaded (current : Z).

(** The lock is [Some t] while thread [t] is inside a critical section that
    other operations can interleave with. *)
Record state := MkState { eng : Engine; lock : option nat; pool : gmap nat thread }.

Definition with_eng (s : state) (e : Engine) : state := MkState e (lock s) (pool s).
Definition with_thread (s : state) (t : nat) (th : thread) : state := MkState (eng s) (lock s) (<[t := th]> (pool s)).
Definition without_thread (s : state) (t : nat) : state := MkState (eng s) (lock s) (delete t (pool s)).
Definition with_lock (s : state) (l : option nat) : state := MkState (eng s) l (pool s).

Section Steps.
Context `{!MapOrder, !SliceSort, !Crypto, !Unicode, !DocumentJSON}.

(** One atomic operation; the number is how many snapshots it activates. *)
Inductive step (s : state) : Z -> state -> Prop :=
(* ReserveOpen *)
| step_reserve t a open :
    pool s !! t = None -> lock s = None -> open_checks (eng s) a open = Ok tt ->
    step s 0 (with_lock (with_thread s t (ReserveStart a false)) (Some t))
| step_local t :
    pool s !! t = None -> lock s = None -> local_checks (eng s) = Ok tt ->
    step s 0 (with_lock (with_thread s t (ReserveStart "" true)) (Some t))
| step_load t a l :
    pool s !! t = Some (ReserveStart a l) -> stream_limit (eng s) (streams (eng s)) = Ok tt ->
    step s 0 (with_thread s t (ReserveLoaded a l (streams (eng s))))
| step_refuse t a l err :
    pool s !! t = Some (ReserveStart a l) -> stream_limit (eng s) (streams (eng s)) = Err err ->
    step s 0 (with_lock (without_thread s t) None)
| step_cas_open t a :
    pool s !! t = Some (ReserveLoaded a false (streams (eng s))) ->
    step s 0 (with_thread (with_eng s (with_streams (eng s) (streams (eng s) + 1))) t (ReserveWon a))
| step_cas_local t a :
    pool s !! t = Some (ReserveLoaded a true (streams (eng s))) ->
    step s 0 (with_lock (with_thread (with_eng s (with_streams (eng s) (streams (eng s) + 1))) t
                (LeaseHeld "" (epoch (eng s)))) None)
| step_cas_lost t a l current :
    pool s !! t = Some (ReserveLoaded a l current) -> current <> streams (eng s) ->
    step s 0 (with_thread s t (ReserveStart a l))
| step_count t a :
    pool s !! t = Some (ReserveWon a) ->
    step s 0 (with_lock (with_thread (with_eng s (count_open (eng s) a)) t (LeaseHeld a (epoch (eng s)))) None)
(* OpenLease.Release *)
| step_release t a ep :
    pool s !! t = Some (LeaseHeld a ep) -> step s 0 (with_thread s t (ReleaseStart a ep))
| step_release_load t a ep :
    pool s !! t = Some (ReleaseStart a ep) -> 0 < streams (eng s) ->
    step s 0 (with_thread s t (ReleaseLoaded a ep (streams (eng s))))
| step_release_none t a ep :
    pool s !! t = Some (ReleaseStart a ep) -> streams (eng s) <= 0 ->
    step s 0 (with_thread s t (ReleaseDone a ep))
| step_release_cas t a ep :
    pool s !! t = Some (ReleaseLoaded a ep (streams (eng s))) ->
    step s 0 (with_thread (with_eng s (with_streams (eng s) (streams (eng s) - 1))) t (ReleaseDone a ep))
| step_release_lost t a ep current :
    pool s !! t = Some (ReleaseLoaded a ep current) -> current <> streams (eng s) ->
    step s 0 (with_thread s t (ReleaseStart a ep))
| step_release_active t a ep :
    pool s !! t = Some (ReleaseDone a ep) -> a = "" \/ lock s = None ->
    step s 0 (without_thread (with_eng s (release_active (eng s) a ep)) t)
(* AuthorizeSession and ReleaseSession *)
| step_session t hello :
    pool s !! t = None -> lock s = None -> session_checks (eng s) hello = Ok tt ->
    step s 0 (with_thread s t SessionStart)
| step_session_load t :
    pool s !! t = Some SessionStart -> session_limit (eng s) (sessions (eng s)) = Ok tt ->
    step s 0 (with_thread s t (SessionLoaded (sessions (eng s))))
| step_session_refuse t err :
    pool s !! t = Some SessionStart -> session_limit (eng s) (sessions (eng s)) = Err err ->
    step s 0 (without_thread s t)
| step_session_cas t :
    pool s !! t = Some (SessionLoaded (sessions (eng s))) ->
    step s 0 (with_thread (with_eng s (with_sessions (eng s) (sessions (eng s) + 1))) t SessionHeld)
| step_session_lost t current :
    pool s !! t = Some (SessionLoaded current) -> current <> sessions (eng s) ->
    step s 0 (with_thread s t SessionStart)
| step_session_release t :
    pool s !! t = Some SessionHeld -> step s 0 (with_thread s t SessionReleaseStart)
| step_session_release_load t :
    pool s !! t = Some SessionReleaseStart -> 0 < sessions (eng s) ->
    step s 0 (with_thread s t (SessionReleaseLoaded (sessions (eng s))))
| step_session_release_none t :
    pool s !! t = Some SessionReleaseStart -> sessions (eng s) <= 0 ->
    step s 0 (without_thread s t)
| step_session_release_cas t :
    pool s !! t = Some (SessionReleaseLoaded (sessions (eng s))) ->
    step s 0 (without_thread (with_eng s (with_sessions (eng s) (sessions (eng s) - 1))) t)
| step_session_release_lost t current :
    pool s !! t = Some (SessionReleaseLoaded current) -> current <> sessions (eng s) ->
    step s 0 (with_thread s t SessionReleaseStart)
(* snapshots: the plan was prepared at some earlier moment, against whatever
   generation and closed flag the engine had then *)
| step_commit before ctx g snapshot previous plan e :
    lock s = None -> nodeID before = nodeID (eng s) -> kind before = kind (eng s) ->
    baseMaxStreams before = baseMaxStreams (eng s) ->
    prepare before ctx g snapshot previous = Ok plan -> commit (eng s) plan = (e, Ok tt) ->
    step s 1 (with_eng s e)
| step_reset g e :
    lock s = None -> ResetSnapshot (eng s) g = (e, Ok tt) -> step s 1 (with_eng s e)
(* atomic flags *)
| step_begin_drain : step s 0 (with_eng s (BeginDrain (eng s)))
| step_end_drain : step s 0 (with_eng s (EndDrain (eng s)))
| step_close : step s 0 (with_eng s (Close (eng s))).

(** The states reachable with [n] activations. *)
Inductive reachable : Z -> state -> Prop :=
| reach_init options e : New options = Ok e -> reachable 0 (MkState e None ∅)
| reach_step n s d s' : reachable n s -> step s d s' -> reachable (n + d) s'.

End Steps.

Section Invariant.
(** ** What the threads hold *)
Definition in_section (th : thread) : bool :=
  match th with ReserveStart _ _ | ReserveLoaded _ _ _ | ReserveWon _ => true | _ => false end.

Definition holds_stream (th : thread) : Z :=
  match th with ReserveWon _ | LeaseHeld _ _ | ReleaseStart _ _ | ReleaseLoaded _ _ _ => 1 | _ => 0 end.

Definition holds_session (th : thread) : Z :=
  match th with SessionHeld | SessionReleaseStart | SessionReleaseLoaded _ => 1 | _ => 0 end.

(** A lease of assignment [a] and epoch [ep] whose open is still counted. *)
Definition holds_active (ep : Z) (a : string) (th : thread) : Z :=
  match th with
  | LeaseHeld a' ep' | ReleaseStart a' ep' | ReleaseLoaded a' ep' _ | ReleaseDone a' ep' =>
      if bool_decide (a' = a /\ ep' = ep) then 1 else 0
  | _ => 0
  end.

(** ** The invariant *)
Definition may_open (e : Engine) (a : string) : Prop :=
  a <> "" /\ exists v, assignments e !! a = Some v /\ active_count e a < assignment_limit e v.

Definition thread_fact (n : Z) (e : Engine) (th : thread) : Prop :=
  match th with
  | ReserveStart a l => l = true \/ may_open e a
  | ReserveLoaded a l current => stream_limit e current = Ok tt /\ (l = true \/ may_open e a)
  | ReserveWon a => may_open e a
  | LeaseHeld _ ep | ReleaseStart _ ep | ReleaseLoaded _ ep _ | ReleaseDone _ ep => ep <= n
  | SessionLoaded current => current < maxSessions e
  | _ => True
  end.

Definition thread_ok (n : Z) (e : Engine) (l : option nat) (t : nat) (th : thread) : Prop :=
  in_section th = bool_decide (l = Some t) /\ thread_fact n e th.

Record engine_ok (n : Z) (e : Engine) : Prop := {
  ok_epoch : epoch e = n;
  ok_limits : 0 < maxStreams e <= baseMaxStreams e;
  ok_streams : streams e <= baseMaxStreams e;
  ok_sessions : sessions e <= maxSessions e;
  ok_named : assignments e !! "" = None;
  ok_active : forall a v, assignments e !! a = Some v -> active_count e a <= assignment_limit e v
}.

Record Inv (n : Z) (s : state) : Prop := {
  inv_engine : engine_ok n (eng s);
  inv_threads : map_Forall (thread_ok n (eng s) (lock s)) (pool s);
  inv_streams : streams (eng s) = msum holds_stream (pool s);
  inv_sessions : sessions (eng s) = msum holds_session (pool s);
  inv_active : forall a, a <> "" -> active_count (eng s) a = msum (holds_active n a) (pool s)
}.

(** ** Replacing one thread *)
Definition set_thread (p : gmap nat thread) (t : nat) (o : option thread) : gmap nat thread :=
  match o with Some th => <[t := th]> p | None => delete t p end.
Definition held_by (f : thread -> Z) (o : option thread) : Z := match o with Some th => f th | None => 0 end.

Lemma msum_set_thread f p t o : msum f (set_thread p t o) = msum f p - held_by f (p !! t) + held_by f o.
Proof.
  destruct (p !! t) as [th|] eqn:E, o as [th'|]; cbn.
  - by rewrite (msum_update _ _ _ _ _ E).
  - rewrite (msum_delete _ _ _ _ E). lia.
  - rewrite msum_insert by done. lia.
  - rewrite delete_id by done. lia.
Qed.

(** What other threads rely on. *)
Definition same_tables (e e' : Engine) : Prop :=
  maxStreams e = maxStreams e' /\ connectionLimit e = connectionLimit e' /\ assignments e = assignments e'
  /\ active e = active e' /\ maxSessions e = maxSessions e' /\ baseMaxStreams e = baseMaxStreams e'
  /\ epoch e = epoch e'.

Lemma thread_fact_same n e e' th : same_tables e e' -> thread_fact n e th -> thread_fact n e' th.
Proof.
  intros (H1 & H2 & H3 & H4 & H5 & _). unfold thread_fact, may_open, stream_limit, active_count, assignment_limit.
  by rewrite H1, H2, H3, H4, H5.
Qed.

Lemma thread_fact_outside n n' e e' th :
  in_section th = false -> maxSessions e = maxSessions e' -> n <= n' -> thread_fact n e th -> thread_fact n' e' th.
Proof. intros Hs Hm Hn. destruct th; cbn in *; try done; lia. Qed.

Lemma engine_ok_same n e e' :
  same_tables e e' -> streams e' <= baseMaxStreams e' -> sessions e' <= maxSessions e' ->
  engine_ok n e -> engine_ok n e'.
Proof.
  intros (H1 & H2 & H3 & H4 & H5 & H6 & H7) Hs Hss [K1 K2 K3 K4 K5 K6].
  unfold active_count, assignment_limit in K6.
  constructor; unfold active_count, assignment_limit; rewrite <- ?H1, <- ?H3, <- ?H4, <- ?H6, <- ?H7; try done; congruence || lia.
Qed.

(** A step of thread [t] that leaves the tables alone. *)
Lemma Inv_same n s t o e' l' :
  Inv n s -> same_tables (eng s) e' -> streams e' <= baseMaxStreams e' -> sessions e' <= maxSessions e' ->
  (l' = lock s \/ (lock s = None \/ lock s = Some t) /\ (l' = None \/ l' = Some t)) ->
  (forall th, o = Some th -> thread_ok n e' l' t th) ->
  streams e' = streams (eng s) - held_by holds_stream (pool s !! t) + held_by holds_stream o ->
  sessions e' = sessions (eng s) - held_by holds_session (pool s !! t) + held_by holds_session o ->
  (forall a, a <> "" -> held_by (holds_active n a) (pool s !! t) = held_by (holds_active n a) o) ->
  Inv n (MkState e' l' (set_thread (pool s) t o)).
Proof.
  intros H Hsame Hb Hsb Hl Ho Hst Hss Hac. destruct H as [H1 H2 H3 H4 H5]. constructor; cbn [eng lock pool].
  - by apply (engine_ok_same n (eng s)).
  - intros u th Hu. destruct (decide (u = t)) as [->|Hne].
    + destruct o as [th'|]; cbn in Hu; [rewrite lookup_insert_eq in Hu | by rewrite lookup_delete_eq in Hu].
      injection Hu as <-. by apply Ho.
    + assert (pool s !! u = Some th) as Hpu
        by (destruct o; cbn in Hu; [by rewrite lookup_insert_ne in Hu | by rewrite lookup_delete_ne in Hu]).
      destruct (H2 u th Hpu) as [Hs Hf]. split; [| by apply (thread_fact_same n (eng s))].
      rewrite Hs. apply bool_decide_ext. destruct Hl as [-> | [[-> | ->] [-> | ->]]]; split; congruence.
  - by rewrite msum_set_thread, <- H3.
  - by rewrite msum_set_thread, <- H4.
  - intros a Ha. rewrite msum_set_thread, <- (H5 a Ha), (Hac a Ha).
    destruct Hsame as (_ & _ & _ & Hact & _). unfold active_count. rewrite Hact. lia.
Qed.

Lemma same_tables_refl e : same_tables e e.
Proof. unfold same_tables. done. Qed.

Lemma Inv_thread n s t th : Inv n s -> pool s !! t = Some th -> thread_ok n (eng s) (lock s) t th.
Proof. intros H. apply (inv_threads _ _ H). Qed.

Lemma in_section_lock n s t th :
  Inv n s -> pool s !! t = Some th -> in_section th = true -> lock s = Some t.
Proof. intros H Ht Hs. destruct (Inv_thread _ _ _ _ H Ht) as [Hl _]. rewrite Hs in Hl. symmetry in Hl. by apply bool_decide_eq_true in Hl. Qed.

Lemma out_section_lock n s t th :
  Inv n s -> pool s !! t = Some th -> in_section th = false -> lock s <> Some t.
Proof. intros H Ht Hs. destruct (Inv_thread _ _ _ _ H Ht) as [Hl _]. rewrite Hs in Hl. symmetry in Hl. by apply bool_decide_eq_false in Hl. Qed.

Lemma stream_limit_Ok e c : stream_limit e c = Ok tt <->
  c < maxStreams e /\ (0 < connectionLimit e -> c < connectionLimit e).
Proof.
  unfold stream_limit. rewrite !Z.geb_leb, Z.gtb_ltb.
  destruct (Z.leb_spec (maxStreams e) c); cbn [reject_if mbind result_bind]; [split; [done | lia] |].
  rewrite reject_if_Ok, andb_false_iff, Z.ltb_ge, Z.leb_gt. lia.
Qed.

(** A thread that moves without touching the engine. *)
Lemma Inv_move n s t o l' :
  Inv n s ->
  (l' = lock s \/ (lock s = None \/ lock s = Some t) /\ (l' = None \/ l' = Some t)) ->
  (forall th, o = Some th -> thread_ok n (eng s) l' t th) ->
  held_by holds_stream (pool s !! t) = held_by holds_stream o ->
  held_by holds_session (pool s !! t) = held_by holds_session o ->
  (forall a, a <> "" -> held_by (holds_active n a) (pool s !! t) = held_by (holds_active n a) o) ->
  Inv n (MkState (eng s) l' (set_thread (pool s) t o)).
Proof.
  intros H Hl Ho H1 H2 H3. destruct (inv_engine _ _ H). apply Inv_same; try done; try lia.
Qed.
End Invariant.

(** A thread outside the critical section that moves without the lock. *)
Ltac stay_outside H Ht :=
  split; [cbn; symmetry; apply bool_decide_eq_false; exact (out_section_lock _ _ _ _ H Ht eq_refl) |].

Section Preservation.
Context `{MO : !MapOrder, SS : !SliceSort, CR : !Crypto, UN : !Unicode, DJ : !DocumentJSON}.
Implicit Types (s : state) (t : nat).

Lemma Inv_reserve n s t a open :
  Inv n s -> pool s !! t = None -> lock s = None -> open_checks (eng s) a open = Ok tt ->
  Inv n (with_lock (with_thread s t (ReserveStart a false)) (Some t)).
Proof.
  intros H Ht Hl Hc. apply (Inv_move n s t (Some (ReserveStart a false)) (Some t)); rewrite ?Ht; try done; [by right; split; [left | right] |].
  intros th [= <-]. split; [cbn; symmetry; by apply bool_decide_eq_true |]. right.
  unfold open_checks in Hc. inv_ok. destruct (assignments (eng s) !! a) as [v|] eqn:Hv; [| done]. inv_ok. bool_facts.
  split; [intros ->; by rewrite (ok_named _ _ (inv_engine _ _ H)) in Hv | by exists v].
Qed.

Lemma Inv_load n s t a l :
  Inv n s -> pool s !! t = Some (ReserveStart a l) -> stream_limit (eng s) (streams (eng s)) = Ok tt ->
  Inv n (with_thread s t (ReserveLoaded a l (streams (eng s)))).
Proof.
  intros H Ht Hc. pose proof (Inv_thread _ _ _ _ H Ht) as [Hs Hf].
  apply (Inv_move n s t (Some (ReserveLoaded a l (streams (eng s)))) (lock s)); rewrite ?Ht; try done; [by left |].
  intros th [= <-]. split; [exact Hs|]. split; [exact Hc | exact Hf].
Qed.

Lemma Inv_cas n s t a l th' l' :
  Inv n s -> pool s !! t = Some (ReserveLoaded a l (streams (eng s))) ->
  l' = None \/ l' = Some t -> holds_stream th' = 1 -> holds_session th' = 0 ->
  (forall b, b <> "" -> holds_active n b th' = 0) ->
  thread_ok n (with_streams (eng s) (streams (eng s) + 1)) l' t th' ->
  Inv n (MkState (with_streams (eng s) (streams (eng s) + 1)) l' (<[t := th']> (pool s))).
Proof.
  intros H Ht Hl H1 H2 H3 Hok. pose proof (Inv_thread _ _ _ _ H Ht) as [_ [Hlim _]].
  apply stream_limit_Ok in Hlim as [Hlim _]. pose proof (ok_limits _ _ (inv_engine _ _ H)).
  apply (Inv_same n s t (Some th') _ l'); rewrite ?Ht; cbn; try done; try lia; try apply (ok_sessions _ _ (inv_engine _ _ H)).
  - right. split; [right; by apply (in_section_lock n s t _ H Ht) | done].
  - by intros th [= <-].
  - intros b Hb. symmetry. by apply H3.
Qed.

Lemma Inv_release_cas n s t a ep :
  Inv n s -> pool s !! t = Some (ReleaseLoaded a ep (streams (eng s))) ->
  Inv n (with_thread (with_eng s (with_streams (eng s) (streams (eng s) - 1))) t (ReleaseDone a ep)).
Proof.
  intros H Ht. pose proof (Inv_thread _ _ _ _ H Ht) as [_ Hf]. pose proof (ok_streams _ _ (inv_engine _ _ H)).
  apply (Inv_same n s t (Some (ReleaseDone a ep)) (with_streams (eng s) (streams (eng s) - 1)) (lock s));
    rewrite ?Ht; cbn; try done; try lia; try apply (ok_sessions _ _ (inv_engine _ _ H)).
  - by left.
  - intros th [= <-]. stay_outside H Ht. exact Hf.
Qed.

Lemma msum_member (f : thread -> Z) (p : gmap nat thread) t th :
  (forall x, 0 <= f x) -> p !! t = Some th -> f th <= msum f p.
Proof.
  intros Hf Ht. rewrite (msum_delete _ _ _ _ Ht). enough (0 <= msum f (delete t p)) by lia.
  apply msum_nonneg. intros. apply Hf.
Qed.

Lemma holds_stream_range x : 0 <= holds_stream x <= 1. Proof. destruct x; cbn; lia. Qed.
Lemma holds_session_range x : 0 <= holds_session x <= 1. Proof. destruct x; cbn; lia. Qed.
Lemma holds_active_range ep a x : 0 <= holds_active ep a x <= 1.
Proof. destruct x; cbn; try lia; case_bool_decide; lia. Qed.

(** The count of an assignment after its open is counted or given back. *)
Lemma active_count_insert e a c b :
  active_count (with_active e (<[a := c]> (active e))) b = if decide (b = a) then c else active_count e b.
Proof.
  unfold active_count. cbn. case_decide as E; [subst; by rewrite lookup_insert_eq | by rewrite lookup_insert_ne].
Qed.
Lemma active_count_delete e a b :
  active_count (with_active e (delete a (active e))) b = if decide (b = a) then 0 else active_count e b.
Proof.
  unfold active_count. cbn. case_decide as E; [subst; by rewrite lookup_delete_eq | by rewrite lookup_delete_ne].
Qed.

(** A step of [t] that changes only the open counts, by what [t] holds. *)
Lemma Inv_active n s t o m l' :
  let e' := with_active (eng s) m in
  Inv n s -> (lock s = None \/ lock s = Some t) -> (l' = None) ->
  (forall a v, assignments (eng s) !! a = Some v -> active_count e' a <= assignment_limit (eng s) v) ->
  (forall th, o = Some th -> thread_ok n e' l' t th) ->
  held_by holds_stream (pool s !! t) = held_by holds_stream o ->
  held_by holds_session (pool s !! t) = held_by holds_session o ->
  (forall a, a <> "" -> active_count e' a
     = active_count (eng s) a - held_by (holds_active n a) (pool s !! t) + held_by (holds_active n a) o) ->
  Inv n (MkState e' l' (set_thread (pool s) t o)).
Proof.
  intros e' [[K1 K2 K3 K4 K5 K6] H2 H3 H4 H5] Hl -> Hlim Ho Hst Hss Hac. constructor; cbn [eng lock pool].
  - by constructor.
  - intros u th Hu. destruct (decide (u = t)) as [->|Hne].
    + destruct o as [th'|]; cbn in Hu; [rewrite lookup_insert_eq in Hu | by rewrite lookup_delete_eq in Hu].
      injection Hu as <-. by apply Ho.
    + assert (pool s !! u = Some th) as Hpu
        by (destruct o; cbn in Hu; [by rewrite lookup_insert_ne in Hu | by rewrite lookup_delete_ne in Hu]).
      destruct (H2 u th Hpu) as [Hs Hf].
      assert (in_section th = false) as Hout by (rewrite Hs; apply bool_decide_eq_false; destruct Hl as [-> | ->]; congruence).
      split; [rewrite Hout; symmetry; by apply bool_decide_eq_false |].
      by apply (thread_fact_outside n n (eng s)).
  - rewrite msum_set_thread. cbn. lia.
  - rewrite msum_set_thread. cbn. lia.
  - intros a Ha. rewrite msum_set_thread, <- (H5 a Ha), (Hac a Ha). lia.
Qed.

Lemma Inv_count n s t a :
  Inv n s -> pool s !! t = Some (ReserveWon a) ->
  Inv n (with_lock (with_thread (with_eng s (count_open (eng s) a)) t (LeaseHeld a (epoch (eng s)))) None).
Proof.
  intros H Ht. pose proof (Inv_thread _ _ _ _ H Ht) as [_ (Hne & v & Hv & Hlt)].
  pose proof (ok_epoch _ _ (inv_engine _ _ H)) as He.
  apply (Inv_active n s t (Some (LeaseHeld a (epoch (eng s))))
           (<[a := active_count (eng s) a + 1]> (active (eng s))) None H); rewrite ?Ht; try done.
  - right. by apply (in_section_lock n s t _ H Ht).
  - intros b w Hw. rewrite active_count_insert. case_decide as E.
    + subst. rewrite Hv in Hw. injection Hw as <-. lia.
    + by apply (ok_active _ _ (inv_engine _ _ H)).
  - intros th [= <-]. split; [done|]. cbn. lia.
  - intros b Hb. rewrite active_count_insert. cbn [held_by holds_active].
    case_decide as E; [subst b; rewrite bool_decide_eq_true_2 by done; lia|].
    rewrite bool_decide_eq_false_2 by (intros [? _]; congruence). lia.
Qed.

(** The current lease of an assignment is counted. *)
Lemma counted n s t a ep :
  Inv n s -> pool s !! t = Some (ReleaseDone a ep) -> a <> "" -> ep = n -> 1 <= active_count (eng s) a.
Proof.
  intros H Ht Ha ->. rewrite (inv_active _ _ H) by done.
  pose proof (msum_member (holds_active n a) _ _ _ (fun x => proj1 (holds_active_range n a x)) Ht) as Hm.
  cbn in Hm. rewrite bool_decide_eq_true_2 in Hm by done. exact Hm.
Qed.

Lemma uncount_active e a b :
  1 <= active_count e a ->
  active_count (uncount_open e a) b = if decide (b = a) then active_count e a - 1 else active_count e b.
Proof.
  intros Hc. unfold uncount_open. destruct (Z.leb_spec (active_count e a) 1).
  - rewrite active_count_delete. case_decide; lia.
  - apply active_count_insert.
Qed.

Lemma Inv_release_active n s t a ep :
  Inv n s -> pool s !! t = Some (ReleaseDone a ep) -> a = "" \/ lock s = None ->
  Inv n (without_thread (with_eng s (release_active (eng s) a ep)) t).
Proof.
  intros H Ht Hl. unfold release_active. rewrite (ok_epoch _ _ (inv_engine _ _ H)).
  assert (a = "" \/ ep <> n -> Inv n (MkState (eng s) (lock s) (set_thread (pool s) t None))) as Hdrop.
  { intros Hd. apply Inv_move; rewrite ?Ht; try done; [by left |]. intros b Hb. cbn.
    rewrite bool_decide_eq_false_2; [done|]. intros [-> ->]. tauto. }
  destruct (String.eqb_spec a "") as [->|Ha]; [by apply Hdrop; left|].
  destruct (Z.eqb_spec ep n) as [->|He]; cbn [negb]; [| by apply Hdrop; right].
  destruct Hl as [|Hl]; [done|]. pose proof (counted _ _ _ _ _ H Ht Ha eq_refl) as Hc.
  assert (exists m, uncount_open (eng s) a = with_active (eng s) m) as [m Hm]
    by (unfold uncount_open; case_match; by eexists).
  pose proof (fun b => uncount_active (eng s) a b Hc) as Hact. rewrite Hm in Hact |- *.
  assert (without_thread (with_eng s (with_active (eng s) m)) t = MkState (with_active (eng s) m) None (set_thread (pool s) t None)) as ->
    by (unfold without_thread; cbn; by rewrite Hl).
  apply (Inv_active n s t None m None H); rewrite ?Ht; try done; [by left | |].
  - intros b w Hw. rewrite Hact. pose proof (ok_active _ _ (inv_engine _ _ H) b w Hw). case_decide; [subst; lia | done].
  - intros b Hb. rewrite Hact. cbn [held_by holds_active].
    case_decide as E; [subst b; rewrite bool_decide_eq_true_2 by done; lia|].
    rewrite bool_decide_eq_false_2 by (intros [? _]; congruence). lia.
Qed.

(** ** Activations *)

(** A new set of tables with no open counted, installed while no thread is in
    the critical section. *)
Lemma Inv_activate n s e :
  Inv n s -> lock s = None -> n + 1 < 2 ^ 64 -> epoch e = next_epoch (epoch (eng s)) ->
  streams e = streams (eng s) -> sessions e = sessions (eng s) -> maxSessions e = maxSessions (eng s) ->
  baseMaxStreams e = baseMaxStreams (eng s) -> 0 < maxStreams e <= baseMaxStreams e ->
  assignments e !! "" = None -> active e = ∅ -> 0 <= n ->
  (forall a v, assignments e !! a = Some v -> 0 <= assignment_limit e v) ->
  Inv (n + 1) (with_eng s e).
Proof.
  intros [[K1 K2 K3 K4 K5 K6] H2 H3 H4 H5] Hl Hn He Hs Hss Hm Hb Hlim Hname Hact Hn0 Hpos.
  assert (epoch e = n + 1) as He' by (rewrite He, K1; unfold next_epoch; apply Z.mod_small; lia).
  assert (Hz : forall a, active_count e a = 0) by (intros a; unfold active_count; by rewrite Hact, lookup_empty).
  constructor; cbn [with_eng eng lock pool].
  - constructor; try done; try congruence; try lia. intros a v Hv. rewrite Hz. by apply (Hpos a).
  - intros t th Ht. destruct (H2 t th Ht) as [Hsec Hf]. split; [done|].
    rewrite Hl, bool_decide_eq_false_2 in Hsec by done.
    apply (thread_fact_outside n (n + 1) (eng s)); try done; lia.
  - by rewrite Hs.
  - by rewrite Hss.
  - intros a Ha. rewrite Hz. symmetry. clear H3 H4 H5. revert H2. generalize (pool s) as p. intros p.
    induction p as [|t th p Hp IH] using map_ind; intros H2; [apply msum_empty|].
    rewrite msum_insert, IH by (done || (eapply map_Forall_insert_1_2; eauto)).
    pose proof (map_Forall_insert_1_1 _ _ _ _ H2) as [_ Hf].
    destruct th; cbn in *; try done; rewrite bool_decide_eq_false_2; lia.
Qed.

Lemma ValidateID_nonempty id p u : ValidateID id p = Ok u -> id <> "".
Proof. intros H ->. by vm_compute in H. Qed.

Lemma Snapshot_Validate_ids (s : DesiredSnapshot) u :
  Snapshot_Validate s = Ok u -> Forall (fun a => Assignment_ID a <> "") (Snapshot_Assignments s).
Proof.
  intros H. unfold Snapshot_Validate in H.
  repeat match type of H with (reject_if _ _ ≫= _) = _ => apply bind_Ok in H as (? & _ & H) | (ValidateID _ _ ≫= _) = _ => apply bind_Ok in H as (? & _ & H) end.
  apply bind_Ok in H as (? & _ & H). apply bind_Ok in H as (? & _ & H). apply bind_Ok in H as (ix & _ & H).
  apply bind_Ok in H as (? & Ha & _). apply for_each_body in Ha. eapply Forall_impl; [exact Ha|].
  intros a (j & s1 & s2 & Hb). unfold assignment_check in Hb. apply bind_Ok in Hb as ([] & Hv & _).
  apply map_err_Ok in Hv. unfold Assignment_Validate in Hv. apply bind_Ok in Hv as (? & Hid & _).
  by eapply ValidateID_nonempty.
Qed.

Lemma prepare_named e ctx g snapshot previous plan :
  prepare e ctx g snapshot previous = Ok plan -> plan_assignments plan !! "" = None.
Proof.
  intros H. unfold prepare in H. apply bind_Ok in H as (? & _ & H). apply bind_Ok in H as (? & _ & H).
  apply bind_Ok in H as (? & Hv & H). apply Snapshot_Validate_ids in Hv.
  repeat match type of H with (reject_if _ _ ≫= _) = _ => apply bind_Ok in H as (? & _ & H) end.
  apply bind_Ok in H as (services & _ & H). apply bind_Ok in H as (assignments & Ha & H). injection H as <-. cbn.
  assert (forall l i m m', Forall (fun a => Assignment_ID a <> "") l -> m !! "" = None ->
    for_each (fun _ => index_assignment e snapshot services) i l m = Ok m' -> m' !! "" = None) as Hloop; [| eapply Hloop; [exact Hv | apply lookup_empty | exact Ha]].
  clear. induction l as [|a l IH]; intros i m m' Hf Hm Hrun; [cbn in Hrun; by simplify_eq|].
  apply Forall_cons in Hf as [Ha Hf]. cbn [for_each] in Hrun. apply bind_Ok in Hrun as (m1 & Hi & Hrun).
  eapply (IH _ m1); [done | | exact Hrun]. unfold index_assignment in Hi. apply bind_Ok in Hi as (? & _ & Hi).
  destruct (_ && _) in Hi; [by simplify_eq|]. destruct (_ && _) in Hi; [by simplify_eq|].
  apply bind_Ok in Hi as (? & _ & Hi). simplify_eq. by rewrite lookup_insert_ne.
Qed.

Lemma spec_limits_streams base agent gateway :
  0 < base -> 0 < (spec_limits base agent gateway).2 <= base.
Proof.
  intros Hb. unfold spec_limits. destruct agent as [a|], gateway as [g|]; cbn [snd]; try lia;
    destruct (_ && _) eqn:E; try lia; bool_facts; lia.
Qed.

Lemma commit_installs e plan e' :
  commit e plan = (e', Ok tt) ->
  exists egress' connections buffers streams',
    spec_limits (baseMaxStreams e) (plan_agent plan) (plan_gateway plan) = (egress', connections, buffers, streams')
    /\ e' = MkEngine (kind e) (nodeID e) streams' (maxSessions e) (draining e) (closed e)
             (Snapshot_Generation (plan_snapshot plan)) (next_epoch (epoch e)) (plan_gateway plan) (plan_agent plan)
             (plan_assignments plan) (plan_services plan) ∅ (baseMaxStreams e) connections buffers (streams e)
             (sessions e) egress' (egressOpen e).
Proof.
  unfold commit. destruct (_ ← reject_if (closed e) _; _) as [[]|]; [| done].
  destruct (spec_limits _ _ _) as [[[eg c] b] st]. intros [= <-]. by repeat eexists.
Qed.

Lemma Inv_commit n s before ctx g snapshot previous plan e :
  Inv n s -> lock s = None -> 0 <= n -> n + 1 < 2 ^ 64 ->
  prepare before ctx g snapshot previous = Ok plan -> commit (eng s) plan = (e, Ok tt) -> Inv (n + 1) (with_eng s e).
Proof.
  intros H Hl Hn0 Hn Hp Hc. apply commit_installs in Hc as (eg & c & b & st & Hsp & ->).
  pose proof (ok_limits _ _ (inv_engine _ _ H)) as Hlim.
  pose proof (spec_limits_streams (baseMaxStreams (eng s)) (plan_agent plan) (plan_gateway plan) ltac:(lia)) as Hst.
  rewrite Hsp in Hst. cbn in Hst.
  apply Inv_activate; cbn; try done; [by eapply prepare_named |].
  intros a v _. unfold assignment_limit. cbn. case_match; bool_facts; lia.
Qed.

Lemma Inv_reset n s g e :
  Inv n s -> lock s = None -> 0 <= n -> n + 1 < 2 ^ 64 ->
  ResetSnapshot (eng s) g = (e, Ok tt) -> Inv (n + 1) (with_eng s e).
Proof.
  intros H Hl Hn0 Hn Hr. unfold ResetSnapshot in Hr. destruct (_ && _); [done|]. injection Hr as <-.
  pose proof (ok_limits _ _ (inv_engine _ _ H)) as Hlim.
  apply Inv_activate; cbn; try done; lia.
Qed.

Lemma Inv_flags n s d c : Inv n s -> Inv n (with_eng s (with_flags (eng s) d c)).
Proof. intros [[K1 K2 K3 K4 K5 K6] H2 H3 H4 H5]. by constructor. Qed.

Lemma Inv_step n s d s' : Inv n s -> 0 <= n -> n + d < 2 ^ 64 -> step s d s' -> Inv (n + d) s'.
Proof.
  intros H Hn0 Hn Hstep. pose proof (inv_engine _ _ H) as Hok.
  destruct Hstep as
    [ t a open Ht Hl Hc | t Ht Hl Hc | t a l Ht Hc | t a l err Ht Hc | t a Ht | t a Ht | t a l current Ht Hcur | t a Ht
    | t a ep Ht | t a ep Ht Hpos | t a ep Ht Hpos | t a ep Ht | t a ep current Ht Hcur | t a ep Ht Hl
    | t hello Ht Hl Hc | t Ht Hc | t err Ht Hc | t Ht | t current Ht Hcur | t Ht | t Ht Hpos | t Ht Hpos | t Ht | t current Ht Hcur
    | before ctx g snapshot previous plan e Hl _ _ _ Hp Hc | g e Hl Hr | | | ];
    rewrite ?Z.add_0_r;
    try (destruct (Inv_thread _ _ _ _ H Ht) as [Hsec Hf]).
  - by eapply Inv_reserve.
  - apply (Inv_move n s t (Some (ReserveStart "" true)) (Some t) H); rewrite ?Ht; try done;
      [right; auto | intros th [= <-]; split; [cbn; symmetry; by apply bool_decide_eq_true | by left]].
  - by apply Inv_load.
  - apply (Inv_move n s t None None H); rewrite ?Ht; try done.
    right. split; [right; by apply (in_section_lock n s t _ H Ht) | by left].
  - eapply (Inv_cas n s t a false (ReserveWon a) (lock s)); try done.
    + right. by apply (in_section_lock n s t _ H Ht).
    + split; [done|]. cbn in Hf |- *. destruct Hf as [_ [?|Hf]]; [done | exact Hf].
  - apply (Inv_cas n s t a true (LeaseHeld "" (epoch (eng s))) None); try done; [by left | |].
    + intros b Hb. cbn. by rewrite bool_decide_eq_false_2 by (intros [? _]; congruence).
    + split; [done|]. cbn. rewrite (ok_epoch _ _ Hok). lia.
  - apply (Inv_move n s t (Some (ReserveStart a l)) (lock s) H); rewrite ?Ht; try done; [by left |].
    intros th [= <-]. split; [done | apply Hf].
  - by apply Inv_count.
  - apply (Inv_move n s t (Some (ReleaseStart a ep)) (lock s) H); rewrite ?Ht; try done; [by left |].
    intros th [= <-]. by split.
  - apply (Inv_move n s t (Some (ReleaseLoaded a ep (streams (eng s)))) (lock s) H); rewrite ?Ht; try done; [by left |].
    intros th [= <-]. by split.
  - exfalso. pose proof (msum_member holds_stream _ _ _ (fun x => proj1 (holds_stream_range x)) Ht) as Hm.
    rewrite <- (inv_streams _ _ H) in Hm. cbn in Hm. lia.
  - by apply Inv_release_cas.
  - apply (Inv_move n s t (Some (ReleaseStart a ep)) (lock s) H); rewrite ?Ht; try done; [by left |].
    intros th [= <-]. by split.
  - by apply Inv_release_active.
  - apply (Inv_move n s t (Some SessionStart) (lock s) H); rewrite ?Ht; try done; [by left |].
    intros th [= <-]. split; [cbn; by rewrite Hl | done].
  - apply (Inv_move n s t (Some (SessionLoaded (sessions (eng s)))) (lock s) H); rewrite ?Ht; try done; [by left |].
    intros th [= <-]. split; [done|]. unfold session_limit in Hc. apply reject_if_Ok in Hc. bool_facts. done.
  - apply (Inv_move n s t None (lock s) H); rewrite ?Ht; try done. by left.
  - cbn in Hf. apply (Inv_same n s t (Some SessionHeld) (with_sessions (eng s) (sessions (eng s) + 1)) (lock s) H);
      rewrite ?Ht; cbn; try done; try lia; try apply Hok; [by left |]. intros th [= <-]. by split.
  - apply (Inv_move n s t (Some SessionStart) (lock s) H); rewrite ?Ht; try done; [by left |].
    intros th [= <-]. by split.
  - apply (Inv_move n s t (Some SessionReleaseStart) (lock s) H); rewrite ?Ht; try done; [by left |].
    intros th [= <-]. by split.
  - apply (Inv_move n s t (Some (SessionReleaseLoaded (sessions (eng s)))) (lock s) H); rewrite ?Ht; try done; [by left |].
    intros th [= <-]. by split.
  - exfalso. pose proof (msum_member holds_session _ _ _ (fun x => proj1 (holds_session_range x)) Ht) as Hm.
    rewrite <- (inv_sessions _ _ H) in Hm. cbn in Hm. lia.
  - apply (Inv_same n s t None (with_sessions (eng s) (sessions (eng s) - 1)) (lock s) H);
      rewrite ?Ht; cbn; try done; try lia; try apply Hok; [| by left]. pose proof (ok_sessions _ _ Hok). lia.
  - apply (Inv_move n s t (Some SessionReleaseStart) (lock s) H); rewrite ?Ht; try done; [by left |].
    intros th [= <-]. by split.
  - by eapply Inv_commit.
  - by eapply Inv_reset.
  - by apply Inv_flags.
  - unfold EndDrain. destruct (closed (eng s)); [by destruct s | by apply Inv_flags].
  - by apply Inv_flags.
Qed.

Lemma Inv_init options e : New options = Ok e -> Inv 0 (MkState e None ∅).
Proof.
  intros H. unfold New in H. inv_ok. repeat case_match; bool_facts; constructor; cbn; rewrite ?msum_empty; try done;
    try (by intros a _; rewrite msum_empty); constructor; cbn; try done; try lia; intros ? ? Hv; by rewrite lookup_empty in Hv.
Qed.

Lemma reachable_Inv n s : reachable n s -> 0 <= n /\ (n < 2 ^ 64 -> Inv n s).
Proof.
  induction 1 as [options e Hnew | n s d s' Hr [Hn0 IH] Hstep]; [split; [done | intros _; by eapply Inv_init]|].
  assert (d = 0 \/ d = 1) as Hd by (destruct Hstep; auto).
  split; [lia|]. intros Hn. apply (Inv_step n s d s'); try done. apply IH. lia.
Qed.
End Preservation.
