(* ===== verification/EngineFacts.v ===== *)
(** * What the data-plane engine guarantees

    The theorems on [Engine] and its interleavings: accounting and limits in
    every reachable state, exact admission, atomic snapshot activation, and the
    methods of [Engine] as uninterrupted runs of the atomic steps. *)
From S2P Require Import Prelude GoStd GoNet Domain Checksum Validation Snapshot Datagram Control Engine EngineSteps Samples.

Section Facts.
Context `{MO : !MapOrder, SS : !SliceSort, CR : !Crypto, UN : !Unicode, DJ : !DocumentJSON}.
Implicit Types (e : Engine) (t : nat).

(** C1: in every interleaving of the engine's atomic operations with fewer than
    2^64 activations, the stream counter is the number of leases not yet given
    back and within the node's limit, the session counter is the number of open
    sessions and within its limit, and the open count of each assignment is the
    number of its unreleased leases of the current epoch and within its limit. *)
Theorem engine_accounting n s :
  reachable n s -> n < 2 ^ 64 ->
  (streams (eng s) = msum holds_stream (pool s) /\ 0 <= streams (eng s) <= baseMaxStreams (eng s))
  /\ (sessions (eng s) = msum holds_session (pool s) /\ 0 <= sessions (eng s) <= maxSessions (eng s))
  /\ forall a v, assignments (eng s) !! a = Some v ->
       active_count (eng s) a = msum (holds_active (epoch (eng s)) a) (pool s)
       /\ active_count (eng s) a <= assignment_limit (eng s) v.
Proof.
  intros Hr Hn. pose proof (proj2 (reachable_Inv _ _ Hr) Hn) as H. pose proof (inv_engine _ _ H) as Hok.
  split; [split; [apply H|] | split; [split; [apply H|] |]].
  - split; [| apply Hok]. rewrite (inv_streams _ _ H). apply msum_nonneg. intros. apply holds_stream_range.
  - split; [| apply Hok]. rewrite (inv_sessions _ _ H). apply msum_nonneg. intros. apply holds_session_range.
  - intros a v Hv. split; [| by apply Hok]. rewrite (ok_epoch _ _ Hok). apply (inv_active _ _ H).
    intros ->. by rewrite (ok_named _ _ Hok) in Hv.
Qed.

(** C2: whichever step lets one more stream in, the new count is within the
    stream limit and, when there is one, the connection limit of the snapshot
    active at that moment; and no step adds more than one. *)
Theorem opens_within_limits n s d s' :
  reachable n s -> n + d < 2 ^ 64 -> step s d s' -> streams (eng s) < streams (eng s') ->
  streams (eng s') = streams (eng s) + 1 /\ streams (eng s') <= maxStreams (eng s')
  /\ (0 < connectionLimit (eng s') -> streams (eng s') <= connectionLimit (eng s')).
Proof.
  intros Hr Hn Hstep Hlt. pose proof (reachable_Inv _ _ Hr) as [Hn0 H].
  assert (d = 0 \/ d = 1) as Hd by (destruct Hstep; auto). specialize (H ltac:(lia)).
  assert (forall t a l, pool s !! t = Some (ReserveLoaded a l (streams (eng s))) ->
    streams (eng s) + 1 <= maxStreams (eng s)
    /\ (0 < connectionLimit (eng s) -> streams (eng s) + 1 <= connectionLimit (eng s))) as Hcas.
  { intros t a l Ht. destruct (Inv_thread _ _ _ _ H Ht) as [_ [Hl _]]. apply stream_limit_Ok in Hl. lia. }
  destruct Hstep; cbn in Hlt |- *; try lia.
  - specialize (Hcas _ _ _ H0). lia.
  - specialize (Hcas _ _ _ H0). lia.
  - unfold release_active, uncount_open in Hlt. repeat case_match; cbn in Hlt; lia.
  - apply commit_installs in H5 as (? & ? & ? & ? & _ & ->). cbn in Hlt. lia.
  - unfold ResetSnapshot in H1. destruct (_ && _); [done|]. injection H1 as <-. cbn in Hlt. lia.
  - unfold EndDrain in Hlt. destruct (closed (eng s)); cbn in Hlt; lia.
Qed.

(** ** Admission *)
Definition open_matches e (open : OpenMetadata) : Prop :=
  Open_Egress open = true
  \/ exists service, services e !! Open_ServiceID open = Some service /\ Service_Enabled service = true
       /\ Service_Protocol service = Open_Protocol open /\ Service_LocalTarget service = Open_Target open.

Lemma open_checks_spec e a open :
  open_checks e a open = Ok tt <->
  closed e = false /\ draining e = false
  /\ exists v, assignments e !! a = Some v /\ Control.AuthorizeOpen open v = Ok tt
       /\ open_matches e open /\ active_count e a < assignment_limit e v.
Proof.
  unfold open_checks, refusing, open_matches.
  destruct (closed e), (draining e); cbn [orb reject_if mbind result_bind]; try (split; [done | by intros (? & ? & _)]).
  destruct (assignments e !! a) as [v|].
  2: { split; [done | intros (_ & _ & v & ? & _); done]. }
  assert (forall P, (exists v', Some v = Some v' /\ P v') <-> P v) as Hex.
  { intros P. split; [by intros (v' & [= <-] & HP) | by exists v]. }
  rewrite Hex. destruct (Control.AuthorizeOpen open v) as [[]|err]; cbn [mbind result_bind];
    [| split; [done | intros (_ & _ & ? & _); done]].
  rewrite Z.geb_leb.
  destruct (Open_Egress open); cbn [mbind result_bind].
  { rewrite reject_if_Ok, Z.leb_gt. intuition auto. }
  destruct (services e !! Open_ServiceID open) as [service|]; cbn [mbind result_bind].
  2: { split; [done | intros (_ & _ & _ & [?|(? & ? & _)] & _); done]. }
  destruct (Service_Enabled service) eqn:He; cbn [negb reject_if mbind result_bind].
  2: { split; [done | intros (_ & _ & _ & [?|(? & [= <-] & ? & _)] & _); congruence]. }
  destruct (String.eqb_spec (Service_Protocol service) (Open_Protocol open)),
    (String.eqb_spec (Service_LocalTarget service) (Open_Target open)); cbn [negb orb reject_if mbind result_bind];
    try (split; [done | intros (_ & _ & _ & [?|(? & [= <-] & _ & ? & ?)] & _); congruence]).
  rewrite reject_if_Ok, Z.leb_gt. split; [| tauto]. intros Hlt. split_and!; try done. right. by exists service.
Qed.

(** [ReserveOpen] admits an open exactly when the engine is neither closed
    nor draining, the assignment is known and authorizes it, the target is that
    of an enabled service of the snapshot (or an egress), and the assignment,
    stream and connection limits have room; it then counts it once in both
    counters, and changes nothing when it refuses. *)
Theorem ReserveOpen_spec e a open :
  ((exists l, (ReserveOpen e a open).2 = Ok l) <->
    (closed e = false /\ draining e = false
     /\ exists v, assignments e !! a = Some v /\ Control.AuthorizeOpen open v = Ok tt
          /\ open_matches e open /\ active_count e a < assignment_limit e v)
    /\ streams e < maxStreams e /\ (0 < connectionLimit e -> streams e < connectionLimit e))
  /\ (forall l, (ReserveOpen e a open).2 = Ok l ->
        l = MkLease a (epoch e) false
        /\ (ReserveOpen e a open).1 = with_active (with_streams e (streams e + 1)) (<[a := active_count e a + 1]> (active e)))
  /\ (forall err, (ReserveOpen e a open).2 = Err err -> (ReserveOpen e a open).1 = e).
Proof.
  rewrite <- open_checks_spec, <- stream_limit_Ok. unfold ReserveOpen.
  destruct (open_checks e a open) as [[]|err]; cbn [fst snd].
  2: { split_and!; [split; [by intros [? ?] | by intros [? _]] | done | done]. }
  destruct (stream_limit e (streams e)) as [[]|err]; cbn [fst snd].
  - split_and!; [split; [done | by eexists] | by intros l [= <-] | done].
  - split_and!; [split; [by intros [? ?] | by intros [_ ?]] | done | done].
Qed.

(** A drained or closed engine admits nothing, and a closed engine cannot
    be reopened: [EndDrain] leaves it draining and no snapshot is applied. *)
Theorem closed_admits_nothing e hello a open ctx snapshot previous :
  let e := Close e in
  EndDrain e = e
  /\ (exists err, AuthorizeSession e hello = (e, Err err))
  /\ (exists err, ReserveOpen e a open = (e, Err err))
  /\ (exists err, ReserveLocalOpen e = (e, Err err))
  /\ (exists err, ApplySnapshot e ctx snapshot previous = (e, Err err)).
Proof.
  intros e'. split; [done|]. split; [by eexists|]. split; [by eexists|]. split; [by eexists|].
  unfold ApplySnapshot, prepare. destruct ctx; by eexists.
Qed.

(** ** Leases *)
Lemma next_epoch_ne ep : 0 <= ep < 2 ^ 64 -> next_epoch ep <> ep.
Proof.
  unfold next_epoch. intros H Heq. destruct (decide (ep + 1 = 2 ^ 64)) as [E|E].
  - rewrite E, Z.mod_same in Heq by done. lia.
  - rewrite Z.mod_small in Heq; lia.
Qed.

(** A lease reserved before a snapshot is applied and released after it
    gives its stream back, exactly once, and leaves the open counts of the new
    snapshot untouched. *)
Theorem stale_lease_isolated e a open e1 l ctx snapshot previous e2 :
  0 <= epoch e < 2 ^ 64 ->
  ReserveOpen e a open = (e1, Ok l) -> ApplySnapshot e1 ctx snapshot previous = (e2, Ok tt) -> 0 < streams e2 ->
  active (Release e2 l).1 = active e2 /\ streams (Release e2 l).1 = streams e2 - 1
  /\ Release (Release e2 l).1 (Release e2 l).2 = Release e2 l.
Proof.
  intros Hep Hres Happ Hpos. unfold ReserveOpen in Hres.
  destruct (open_checks e a open); [| done]. destruct (stream_limit e (streams e)); [| done].
  injection Hres as <- <-. unfold ApplySnapshot in Happ. destruct (prepare _ _ _ _ _) as [plan|]; [| done].
  apply commit_installs in Happ as (eg & c & b & st & _ & ->). cbn in Hpos |- *.
  unfold releaseLease, releaseStreamReservation, release_active. cbn.
  replace (streams e + 1 <=? 0) with false by lia. cbn.
  replace (epoch e =? next_epoch (epoch e)) with false by (pose proof (next_epoch_ne _ Hep); lia).
  cbn. destruct (String.eqb a ""); split_and!; done.
Qed.

(** ** Snapshots *)
Definition belongs e (a : Assignment) : bool :=
  negb (String.eqb (kind e) NodeSpecGateway && negb (String.eqb (Assignment_GatewayID a) (nodeID e)))
  && negb (String.eqb (kind e) NodeSpecAgent && negb (String.eqb (Assignment_AgentID a) (nodeID e))).

Lemma index_assignment_Ok e snapshot svcs a m m' :
  index_assignment e snapshot svcs a m = Ok m' ->
  m' = if belongs e a then <[Assignment_ID a := AssignmentFromDomain a (snapshot_stream_limit e snapshot)]> m else m.
Proof.
  intros H. unfold index_assignment, belongs in *. apply bind_Ok in H as (? & _ & H).
  destruct (_ && _); cbn [negb andb]; [by simplify_eq|]. destruct (_ && _); cbn [negb]; [by simplify_eq|].
  apply bind_Ok in H as (? & _ & H). by simplify_eq.
Qed.

Lemma index_assignments_spec e snapshot svcs l i m m' :
  for_each (fun _ => index_assignment e snapshot svcs) i l m = Ok m' ->
  (forall id v, m' !! id = Some v -> m !! id = Some v \/ exists a, a ∈ l /\ Assignment_ID a = id
     /\ belongs e a = true /\ v = AssignmentFromDomain a (snapshot_stream_limit e snapshot))
  /\ (forall a, a ∈ l -> belongs e a = true -> is_Some (m' !! Assignment_ID a))
  /\ (forall id, is_Some (m !! id) -> is_Some (m' !! id)).
Proof.
  revert i m. induction l as [|a l IH]; intros i m H; cbn [for_each] in H.
  { simplify_eq. split_and!; [by left | by intros a ?%elem_of_nil | done]. }
  apply bind_Ok in H as (m1 & Hi & H). apply index_assignment_Ok in Hi.
  destruct (IH _ _ H) as (H1 & H2 & H3). subst m1. split_and!.
  - intros id v Hv. destruct (H1 id v Hv) as [Hm | (b & Hb & ?)]; [| right; exists b; split; [by right | done]].
    destruct (belongs e a) eqn:Hb; [| by left].
    apply lookup_insert_Some in Hm as [[<- <-]|[_ Hm]]; [right; exists a; split; [left | done] | by left].
  - intros b Hb Hbel. apply elem_of_cons in Hb as [->|Hb]; [| by apply H2].
    apply H3. rewrite Hbel, lookup_insert_eq. by eexists.
  - intros id Hid. apply H3. destruct (belongs e a); [| done].
    destruct (decide (id = Assignment_ID a)) as [->|]; [rewrite lookup_insert_eq; by eexists | by rewrite lookup_insert_ne].
Qed.

(** C10: applying a snapshot is all or nothing. On an error the engine is
    unchanged. On success the snapshot is valid and for this node, the engine is
    at its generation, which is newer than the old one unless the caller passed
    the active generation as [previous] (rollback or resync); the assignments
    are exactly those of the snapshot that belong to this node, their open
    counts start at zero, and the streams and sessions still open stay counted. *)
Theorem ApplySnapshot_atomic e ctx snapshot previous e' r :
  ApplySnapshot e ctx snapshot previous = (e', r) ->
  (r <> Ok tt -> e' = e)
  /\ (r = Ok tt ->
      Snapshot_Validate snapshot = Ok tt /\ Snapshot_NodeID snapshot = nodeID e /\ closed e = false
      /\ generation e' = Snapshot_Generation snapshot
      /\ (generation e < generation e'
          \/ exists p, previous = Some p /\ Snapshot_Generation p = generation e /\ generation e' <= generation e)
      /\ (forall id v, assignments e' !! id = Some v -> exists a, a ∈ Snapshot_Assignments snapshot /\ Assignment_ID a = id
            /\ belongs e a = true /\ v = AssignmentFromDomain a (snapshot_stream_limit e snapshot))
      /\ (forall a, a ∈ Snapshot_Assignments snapshot -> belongs e a = true -> is_Some (assignments e' !! Assignment_ID a))
      /\ active e' = ∅ /\ epoch e' = next_epoch (epoch e) /\ streams e' = streams e /\ sessions e' = sessions e).
Proof.
  unfold ApplySnapshot. intros H. destruct (prepare e ctx (generation e) snapshot previous) as [plan|err] eqn:Hp.
  2: { injection H as <- <-. split; done. }
  split.
  { intros Hr. unfold commit in H. destruct (_ ← reject_if (closed e) _; _); [| by simplify_eq].
    destruct (spec_limits _ _ _) as [[[? ?] ?] ?]. by simplify_eq. }
  intros ->. apply commit_installs in H as (eg & c & b & st & _ & ->). cbn.
  unfold prepare in Hp. apply bind_Ok in Hp as (? & _ & Hp).
  apply bind_Ok in Hp as (? & Hcl & Hp). apply reject_if_Ok in Hcl.
  apply bind_Ok in Hp as ([] & Hv & Hp). apply bind_Ok in Hp as (? & _ & Hp).
  apply bind_Ok in Hp as (? & Hid & Hp). apply bind_Ok in Hp as (? & _ & Hp). apply bind_Ok in Hp as (? & _ & Hp).
  apply bind_Ok in Hp as (? & Hgen & Hp). apply bind_Ok in Hp as (svcs & _ & Hp). apply bind_Ok in Hp as (asg & Ha & Hp).
  simplify_eq. cbn. apply index_assignments_spec in Ha as (H1 & H2 & _). apply reject_if_Ok in Hid, Hgen. bool_facts.
  split_and!; try done.
  - destruct previous as [p|]; [| bool_facts; cbn in Hgen; bool_facts; left; lia].
    destruct (Z.ltb_spec (generation e) (Snapshot_Generation snapshot)); [by left|]. right. exists p.
    rewrite <- !andb_assoc, !andb_false_iff, !negb_false_iff, !andb_true_iff, Z.leb_gt, !Z.eqb_eq, Z.ltb_lt in Hgen.
    split; [done | lia].
  - intros id v Hv'. destruct (H1 id v Hv') as [Hemp|?]; [by rewrite lookup_empty in Hemp | done].
Qed.

(** ** The methods as uninterrupted runs *)
Definition runs : state -> state -> Prop := rtc (fun s s' => exists d, step s d s').

Lemma runs_step s d s' s'' : step s d s' -> runs s' s'' -> runs s s''.
Proof. intros H1 H2. eapply rtc_l; [by exists d | exact H2]. Qed.

(** The acquisition of a stream by thread [t] and the giving back of a lease. *)
Lemma ReserveOpen_runs e p t a open e' l :
  ReserveOpen e a open = (e', Ok l) -> p !! t = None ->
  runs (MkState e None p) (MkState e' None (<[t := LeaseHeld a (lease_epoch l)]> p)).
Proof.
  intros H Ht. unfold ReserveOpen in H. destruct (open_checks e a open) as [[]|] eqn:Hc; [| done].
  destruct (stream_limit e (streams e)) as [[]|] eqn:Hl; [| done]. injection H as <- <-.
  eapply runs_step; [by apply (step_reserve _ t a open)|].
  eapply runs_step; [apply (step_load _ t a false); cbn; [apply lookup_insert_eq | done]|].
  eapply runs_step; [apply (step_cas_open _ t a); cbn; apply lookup_insert_eq|].
  eapply runs_step; [apply (step_count _ t a); cbn; apply lookup_insert_eq|].
  cbn. unfold with_thread, with_lock, with_eng. cbn. rewrite !insert_insert_eq. apply rtc_refl.
Qed.

Lemma releaseLease_runs e p t a ep :
  p !! t = None -> runs (MkState e None (<[t := LeaseHeld a ep]> p)) (MkState (releaseLease e a ep) None p).
Proof.
  intros Ht. unfold releaseLease, releaseStreamReservation.
  eapply runs_step; [apply (step_release _ t a ep); cbn; apply lookup_insert_eq|].
  assert (forall e', runs (MkState e' None (<[t := ReleaseDone a ep]> p)) (MkState (release_active e' a ep) None p)) as Hend.
  { intros e'. eapply runs_step; [apply (step_release_active _ t a ep); cbn; [apply lookup_insert_eq | by right]|].
    unfold without_thread, with_eng. cbn. rewrite delete_insert_id by done. apply rtc_refl. }
  destruct (Z.leb_spec (streams e) 0) as [Hs|Hs].
  - eapply runs_step; [apply (step_release_none _ t a ep); cbn; [apply lookup_insert_eq | done]|].
    unfold with_thread. cbn. rewrite !insert_insert_eq. apply Hend.
  - eapply runs_step; [apply (step_release_load _ t a ep); cbn; [apply lookup_insert_eq | done]|].
    eapply runs_step; [apply (step_release_cas _ t a ep); cbn; apply lookup_insert_eq|].
    unfold with_thread, with_eng. cbn. rewrite !insert_insert_eq. apply Hend.
Qed.

Lemma AuthorizeSession_runs e p t hello e' :
  AuthorizeSession e hello = (e', Ok tt) -> p !! t = None ->
  runs (MkState e None p) (MkState e' None (<[t := SessionHeld]> p)).
Proof.
  intros H Ht. unfold AuthorizeSession in H. destruct (session_checks e hello) as [[]|] eqn:Hc; [| done].
  destruct (session_limit e (sessions e)) as [[]|] eqn:Hl; [| done]. injection H as <-.
  eapply runs_step; [by apply (step_session _ t hello)|].
  eapply runs_step; [apply (step_session_load _ t); cbn; [apply lookup_insert_eq | done]|].
  eapply runs_step; [apply (step_session_cas _ t); cbn; apply lookup_insert_eq|].
  unfold with_thread, with_eng. cbn. rewrite !insert_insert_eq. apply rtc_refl.
Qed.

Lemma ApplySnapshot_runs e p ctx snapshot previous e' :
  ApplySnapshot e ctx snapshot previous = (e', Ok tt) -> runs (MkState e None p) (MkState e' None p).
Proof.
  intros H. unfold ApplySnapshot in H. destruct (prepare e ctx (generation e) snapshot previous) as [plan|] eqn:Hp; [| done].
  eapply runs_step; [| apply rtc_refl]. by apply (step_commit (MkState e None p) e ctx (generation e) snapshot previous plan).
Qed.

(** The methods refine the atomic steps. Whenever [ReserveOpen],
    [AuthorizeSession] or [ApplySnapshot] succeeds on an engine whose lock is
    free, and whenever a lease is released, some run of the atomic steps of one
    fresh thread takes the engine to exactly the state the method computes. *)
Theorem methods_refine_steps e p t :
  p !! t = None ->
  (forall a open e' l, ReserveOpen e a open = (e', Ok l) ->
     runs (MkState e None p) (MkState e' None (<[t := LeaseHeld (lease_assignmentID l) (lease_epoch l)]> p)))
  /\ (forall l, lease_once l = false ->
     runs (MkState e None (<[t := LeaseHeld (lease_assignmentID l) (lease_epoch l)]> p)) (MkState (Release e l).1 None p))
  /\ (forall hello e', AuthorizeSession e hello = (e', Ok tt) ->
     runs (MkState e None p) (MkState e' None (<[t := SessionHeld]> p)))
  /\ (forall ctx snapshot previous e', ApplySnapshot e ctx snapshot previous = (e', Ok tt) ->
     runs (MkState e None p) (MkState e' None p)).
Proof.
  intros Ht. split_and!.
  - intros a open e' l H. assert (lease_assignmentID l = a) as ->; [| by eapply ReserveOpen_runs].
    unfold ReserveOpen in H. repeat case_match; by simplify_eq.
  - intros l Hl. unfold Release. rewrite Hl. by apply releaseLease_runs.
  - intros hello e' H. by eapply AuthorizeSession_runs.
  - intros ctx snapshot previous e' H. by eapply ApplySnapshot_runs.
Qed.
End Facts.

(** ** Witnesses *)
Definition fresh_engine : Engine :=
  match New (MkOptions "gateway" "gw-1" 8 2) with Ok e => e | Err _ => MkEngine "" "" 0 0 true true 0 0 None None ∅ ∅ ∅ 0 0 0 0 0 default_Egress 0 end.

Definition apply_sample (e : Engine) (generation : Z) : Engine * result unit :=
  @ApplySnapshot go_order insertion_slice_sort toy_crypto ascii_unicode toy_json e None (sealed (sample_snapshot generation)) None.

Definition web_open : OpenMetadata := MkOpen "tcp" "web" "127.0.0.1:80" 0 false.

(** An engine with one lease of a reverse stream. *)
Definition leased_state : state :=
  MkState (ReserveOpen (apply_sample fresh_engine 1).1 "asg-1" web_open).1 None {[ 7%nat := LeaseHeld "asg-1" 1 ]}.

Lemma engine_accounting_witness :
  exists s, @reachable go_order insertion_slice_sort toy_crypto ascii_unicode toy_json 0 s
    /\ streams (eng s) = 1 /\ streams (eng s) = msum holds_stream (pool s).
Proof.
  set (s0 := MkState fresh_engine None ∅).
  set (s1 := with_lock (with_thread s0 3 (ReserveStart "" true)) (Some 3%nat)).
  set (s2 := with_thread s1 3 (ReserveLoaded "" true (streams (eng s1)))).
  set (s3 := with_lock (with_thread (with_eng s2 (with_streams (eng s2) (streams (eng s2) + 1))) 3 (LeaseHeld "" (epoch (eng s2)))) None).
  assert (H : @reachable go_order insertion_slice_sort toy_crypto ascii_unicode toy_json 0 s3).
  { apply (reach_step 0 s2 0). apply (reach_step 0 s1 0). apply (reach_step 0 s0 0).
    - apply (reach_init (MkOptions "gateway" "gw-1" 8 2)). reflexivity.
    - by apply step_local.
    - by apply (step_load _ 3 "" true).
    - by apply (step_cas_local _ 3 ""). }
  exists s3. split; [exact H|]. split; [reflexivity|].
  exact (proj1 (proj1 (@engine_accounting go_order insertion_slice_sort toy_crypto ascii_unicode toy_json 0 s3 H ltac:(done)))).
Defined.

Lemma opens_within_limits_witness :
  exists s s', @step go_order insertion_slice_sort toy_crypto ascii_unicode toy_json s 0 s'
    /\ streams (eng s') = 1 /\ streams (eng s') <= maxStreams (eng s').
Proof.
  set (s0 := MkState fresh_engine None ∅).
  set (s1 := with_lock (with_thread s0 3 (ReserveStart "" true)) (Some 3%nat)).
  set (s2 := with_thread s1 3 (ReserveLoaded "" true (streams (eng s1)))).
  set (s3 := with_lock (with_thread (with_eng s2 (with_streams (eng s2) (streams (eng s2) + 1))) 3 (LeaseHeld "" (epoch (eng s2)))) None).
  assert (H : @reachable go_order insertion_slice_sort toy_crypto ascii_unicode toy_json 0 s2).
  { apply (reach_step 0 s1 0). apply (reach_step 0 s0 0).
    - apply (reach_init (MkOptions "gateway" "gw-1" 8 2)). reflexivity.
    - by apply step_local.
    - by apply (step_load _ 3 "" true). }
  assert (Hs : @step go_order insertion_slice_sort toy_crypto ascii_unicode toy_json s2 0 s3) by (by apply (step_cas_local _ 3 "")).
  exists s2, s3. split; [exact Hs|].
  destruct (@opens_within_limits go_order insertion_slice_sort toy_crypto ascii_unicode toy_json 0 s2 0 s3 H ltac:(done) Hs ltac:(done))
    as (_ & Hmax & _).
  split; [reflexivity | exact Hmax].
Defined.

Lemma stale_lease_isolated_witness :
  let e0 := (apply_sample fresh_engine 1).1 in
  let e1 := (ReserveOpen e0 "asg-1" web_open).1 in
  let e2 := (apply_sample e1 2).1 in
  active (Release e2 (MkLease "asg-1" 1 false)).1 = active e2
  /\ streams (Release e2 (MkLease "asg-1" 1 false)).1 = 0.
Proof.
  intros e0 e1 e2.
  destruct (@stale_lease_isolated go_order insertion_slice_sort toy_crypto ascii_unicode toy_json
              e0 "asg-1" web_open e1 (MkLease "asg-1" 1 false) None (sealed (sample_snapshot 2)) None e2) as (H1 & H2 & _).
  - vm_compute. split; discriminate || reflexivity.
  - vm_compute. reflexivity.
  - vm_compute. reflexivity.
  - vm_compute. reflexivity.
  - split; [exact H1 | rewrite H2; vm_compute; reflexivity].
Defined.

Lemma ApplySnapshot_atomic_witness :
  generation (apply_sample fresh_engine 1).1 = 1 /\ active (apply_sample fresh_engine 1).1 = ∅.
Proof.
  destruct (@ApplySnapshot_atomic go_order insertion_slice_sort toy_crypto ascii_unicode toy_json
              fresh_engine None (sealed (sample_snapshot 1)) None (apply_sample fresh_engine 1).1 (Ok tt)) as [_ H].
  - vm_compute. reflexivity.
  - destruct (H eq_refl) as (_ & _ & _ & Hg & _ & _ & _ & Ha & _). split; [rewrite Hg; reflexivity | exact Ha].
Defined.

Lemma methods_refine_steps_witness :
  @runs go_order insertion_slice_sort toy_crypto ascii_unicode toy_json
    (MkState (apply_sample fresh_engine 1).1 None ∅) leased_state.
Proof.
  destruct (@methods_refine_steps go_order insertion_slice_sort toy_crypto ascii_unicode toy_json
              (apply_sample fresh_engine 1).1 ∅ 7 (lookup_empty _)) as (H & _).
  exact (H "asg-1" web_open _ (MkLease "asg-1" 1 false) ltac:(vm_compute; reflexivity)).
Defined.
