(* ===== verification/Egress.v ===== *)
(** * The egress policy (src/internal/dataplane/egress.go)

    [AcquireEgress] checks an outbound target against the policy of the applied
    snapshot and reserves a connection slot.  Name resolution is a parameter. *)
From S2P Require Import Prelude GoStd GoNet Address Domain Checksum Validation Datagram Control Engine.
Import netip.

(** [net.DefaultResolver.LookupNetIP(ctx, "ip", host)]. *)
Class Resolver := { LookupNetIP : string -> result (list Addr) }.

Definition egress_space : list ascii := ["000"; "013"; "010"; "032"; "009"]%char.

Definition normalizeEgressTarget (network target : string) : result (string * string * Z) :=
  _ ← reject_if (negb (String.eqb network ProtocolTCP) && negb (String.eqb network ProtocolUDP))
        (EFmt "unsupported egress network %q" [AStr network]);
  _ ← reject_if (negb (String.eqb (strings.TrimSpace target) target) || (slen target =? 0) || (slen target >? 2048)
                 || strings.ContainsAny target nul_cr_lf) (ENew "egress target must be host:port");
  match net.SplitHostPort target with
  | Err _ => Err (ENew "egress target must be host:port")
  | Ok (host, portText) =>
      _ ← reject_if (String.eqb (strings.TrimSpace host) "" || negb (String.eqb host (strings.TrimSpace host))
                     || strings.ContainsAny host egress_space || strings.ContainsAny portText egress_space)
            (ENew "egress target must be host:port");
      match strconv.Atoi portText with
      | Err _ => Err (ENew "egress target port is invalid")
      | Ok port =>
          _ ← reject_if ((port <? 1) || (port >? 65535)) (ENew "egress target port is invalid");
          Ok (net.JoinHostPort host (strconv.Itoa port), host, port)
      end
  end.

(** [strconv.Atoi] as the pair of the value and whether there was no error: on a
    syntax error the value is 0, and a range error saturates, but the value is
    then not used. *)
Definition atoi_or_zero (s : string) : Z * bool :=
  match strconv.Atoi s with Ok v => (v, true) | Err _ => (0, false) end.

(** One entry of the policy against a port; [continue] is [false].  An entry
    whose first number does not parse has minimum 0 or, out of range, a saturated
    one, which the comparisons refuse. *)
Definition port_entry_allows (value : string) (port : Z) : bool :=
  match strings.Split (strings.TrimSpace value) "-"%char with
  | [first] =>
      let '(min, ok) := atoi_or_zero (strings.TrimSpace first) in
      ok && (min >=? 1) && (min <=? 65535) && (min <=? min) && (port >=? min) && (port <=? min)
  | [first; second] =>
      let '(min, _) := atoi_or_zero (strings.TrimSpace first) in
      let '(max, ok) := atoi_or_zero (strings.TrimSpace second) in
      ok && (min >=? 1) && (max <=? 65535) && (min <=? max) && (port >=? min) && (port <=? max)
  | _ => false
  end.

Definition egressPortAllowed (policy : EgressPolicy) (network : string) (port : Z) : bool :=
  let values := if String.eqb network ProtocolUDP then Egress_UDPPorts policy else Egress_TCPPorts policy in
  existsb (fun value => port_entry_allows value port) values.

Definition containsEgressPrefix (values : list string) (address : Addr) : bool :=
  existsb (fun value => match ParsePrefix (strings.TrimSpace value) with
                        | Ok prefix => Contains prefix address
                        | Err _ => false end) values.

Definition egressIPAllowed (policy : EgressPolicy) (address : Addr) : bool :=
  let address := Unmap address in
  if IsSpecial address && negb (containsEgressPrefix (Egress_AllowSpecialCIDRs policy) address) then false
  else if llen (Egress_AllowCIDRs policy) =? 0 then true
  else existsb (fun value => match ParsePrefix (strings.TrimSpace value) with
                             | Ok prefix => Contains prefix address
                             | Err _ => false end) (Egress_AllowCIDRs policy).

Definition brackets : list ascii := ["["; "]"]%char.

Section Acquire.
Context `{!Resolver}.

(** The candidate addresses of a host. *)
Definition egress_addresses (host : string) : result (list Addr) :=
  match ParseAddr (strings.Trim host brackets) with
  | Ok literal => Ok [Unmap literal]
  | Err _ =>
      ips ← map_err (EWrap "resolve egress destination: %w" []) (LookupNetIP (strings.TrimSuffix host "."));
      _ ← reject_if (llen ips >? 64) (ENew "egress destination resolves to too many addresses");
      Ok (Unmap <$> ips)
  end.

Definition resolveAllowedEgress (policy : EgressPolicy) (network host : string) (port : Z) : result string :=
  _ ← reject_if (negb (egressPortAllowed policy network port))
        (EFmt "egress %s port %d is not allowed" [AStr network; AInt port]);
  addresses ← egress_addresses host;
  match List.find (egressIPAllowed policy) addresses with
  | Some address => Ok (net.JoinHostPort (addr_string address) (strconv.Itoa port))
  | None => Err (ENew "egress destination is denied by policy")
  end.

(** The release callback: whether it holds a slot, and its [sync.Once]. *)
Record EgressRelease := MkRelease { holds_slot : bool; released : bool }.

Definition reserve_egress (e : Engine) (policy : EgressPolicy) : Engine * result EgressRelease :=
  if Egress_MaxConnections policy <=? 0 then (e, Ok (MkRelease false false))
  else if egressOpen e >=? Egress_MaxConnections policy
  then (e, Err (EWrap "%w: egress connection limit reached" [] ErrTransient))
  else (with_egressOpen e (egressOpen e + 1), Ok (MkRelease true false)).

Definition releaseEgress (e : Engine) : Engine :=
  if egressOpen e <=? 0 then e else with_egressOpen e (egressOpen e - 1).

(** Calling the callback. *)
Definition run_release (e : Engine) (r : EgressRelease) : Engine * EgressRelease :=
  if holds_slot r && negb (released r) then (releaseEgress e, MkRelease true true) else (e, r).

(** On a non-nil engine, without a concurrent change of its state. *)
Definition AcquireEgress (e : Engine) (network target : string) : Engine * result (string * EgressRelease) :=
  if refusing e then (e, Err (ENew "data-plane engine is not accepting egress")) else
  match normalizeEgressTarget network target with
  | Err err => (e, Err err)
  | Ok (normalizedTarget, host, port) =>
      let policy := cloneEgressPolicy (egress e) in
      if negb (Egress_Enabled policy) then
        let '(e, release) := reserve_egress e policy in
        (e, release ← release; Ok (normalizedTarget, release))
      else
        match resolveAllowedEgress policy network host port with
        | Err err => (e, Err err)
        | Ok address =>
            let '(e, release) := reserve_egress e policy in
            (e, release ← release; Ok (address, release))
        end
  end.
End Acquire.
