(* ===== verification/EgressFacts.v ===== *)
(** * What the egress policy enforces

    Enforcement agrees with validation on port ranges; an enabled policy lets a
    connection reach only the addresses it allows, special-use addresses only by a
    validated exception, except that an address with an IPv6 zone escapes the
    special-use check; the connection slots are bounded and given back once. *)
From S2P Require Import Prelude GoStd GoNet Address Domain Checksum Validation Snapshot SnapshotFacts Datagram Control Engine Egress.
Import netip.

(** ** Ports *)
Section Ports.
Lemma digits_value_digits l acc v : strconv.digits_value l acc = Some v -> Forall (fun c => is_digit c = true) l.
Proof.
  revert acc. induction l as [|c l IH]; intros acc H; [constructor|]. cbn in H.
  destruct (is_digit c) eqn:E; [| done]. constructor; [done | by eapply IH].
Qed.

Lemma digit_solid c : is_digit c = true -> solid c.
Proof. intros H. apply is_alnum_below. unfold is_alnum. by rewrite H. Qed.

Lemma Atoi_solid s v : strconv.Atoi s = Ok v -> Forall solid (bytes_of s).
Proof.
  unfold strconv.Atoi. destruct (bytes_of s) as [|c l]; [done|].
  assert (forall neg l v', (match l with [] => Err strconv.ErrSyntax
     | _ => match strconv.digits_value l 0 with Some v => let v := if neg : bool then - v else v in
            if strconv.signed_range v then Ok v else Err strconv.ErrSyntax | None => Err strconv.ErrSyntax end end) = Ok v' -> Forall solid l) as Hd.
  { intros neg l' v' H. destruct l' as [|x l']; [constructor|]. destruct (strconv.digits_value (x :: l') 0) eqn:E; [| done].
    apply digits_value_digits in E. eapply Forall_impl; [exact E | apply digit_solid]. }
  destruct (Ascii.eqb_spec c "-") as [->|]; [intros H; constructor; [done | exact (Hd true l v H)] |].
  destruct (Ascii.eqb_spec c "+") as [->|]; [intros H; constructor; [done | exact (Hd false l v H)] |].
  intros H. exact (Hd false (c :: l) v H).
Qed.

Lemma Atoi_trim s v : strconv.Atoi s = Ok v -> strings.TrimSpace s = s.
Proof. intros H. eapply TrimSpace_all_solid, Atoi_solid, H. Qed.

Lemma port_entry_agrees value path mn mx port :
  parse_port_range value path = Ok (mn, mx) ->
  port_entry_allows value port = (mn <=? port) && (port <=? mx).
Proof.
  unfold parse_port_range, port_entry_allows. intros H.
  apply bind_Ok in H as ([] & _ & H).
  destruct (strings.Split (strings.TrimSpace value) "-") as [|first rest]; [done|].
  apply bind_Ok in H as ([] & Hn & H). apply reject_if_Ok in Hn.
  apply bind_Ok in H as (m & Hm & H). apply map_err_Ok in Hm.
  apply bind_Ok in H as ([] & Hr & H). apply reject_if_Ok in Hr.
  apply bind_Ok in H as (x & Hx & H). apply bind_Ok in H as ([] & Ho & H). apply reject_if_Ok in Ho.
  injection H as -> ->. unfold atoi_or_zero. rewrite (Atoi_trim _ _ Hm), Hm. bool_facts.
  rewrite !Z.geb_leb.
  destruct rest as [|second [|? ?]].
  - injection Hx as <-. cbv beta iota. lia.
  - apply bind_Ok in Hx as (y & Hy & Hx). apply map_err_Ok in Hy. apply bind_Ok in Hx as ([] & Hle & Hx).
    apply reject_if_Ok in Hle. injection Hx as <-. bool_facts. rewrite (Atoi_trim _ _ Hy), Hy. cbv beta iota. lia.
  - exfalso. cbn [List.length] in *. lia.
Qed.

(** On the port ranges that validation accepts, the runtime check lets a
    port through exactly when it lies in one of the ranges validation read. *)
Theorem egress_ports_agree policy network port path :
  let values := if String.eqb network ProtocolUDP then Egress_UDPPorts policy else Egress_TCPPorts policy in
  validateEgressPortRanges values path = Ok tt ->
  egressPortAllowed policy network port = true <->
  exists value mn mx, value ∈ values /\ parse_port_range value path = Ok (mn, mx) /\ mn <= port <= mx.
Proof.
  intros values Hv. unfold validateEgressPortRanges in Hv.
  rewrite (check_each_Forall (fun value => _ ← parse_port_range value path; Ok tt)), Forall_forall in Hv.
  unfold egressPortAllowed. fold values. rewrite existsb_exists. split.
  - intros (value & Hin%list_elem_of_In & Ha). specialize (Hv value Hin).
    apply bind_Ok in Hv as ([mn mx] & Hp & _). exists value, mn, mx. split_and!; try done;
      rewrite (port_entry_agrees _ _ _ _ _ Hp) in Ha; bool_facts; lia.
  - intros (value & mn & mx & Hin & Hp & Hr). exists value. split; [by apply list_elem_of_In|].
    rewrite (port_entry_agrees _ _ _ _ _ Hp). apply andb_true_iff. lia.
Qed.
End Ports.

Lemma egress_ports_agree_witness :
  egressPortAllowed (MkEgressPolicy true ["443"; "8000-8100"] [] [] [] 0) "tcp" 8080 = true.
Proof.
  apply (egress_ports_agree (MkEgressPolicy true ["443"; "8000-8100"] [] [] [] 0) "tcp" 8080 "p").
  - vm_compute. reflexivity.
  - exists "8000-8100", 8000, 8100. split; [apply list_elem_of_In; cbn; tauto|]. split; [vm_compute; reflexivity | lia].
Defined.

(** ** Addresses *)
(** The special-use addresses of the registries (with the address of the Azure host), as
    intervals. *)
Definition ipv4 (a b c d : Z) : Z := ((a * 256 + b) * 256 + c) * 256 + d.
Definition special_ranges4 : list (Z * Z) :=
  [(ipv4 0 0 0 0, ipv4 0 255 255 255); (ipv4 10 0 0 0, ipv4 10 255 255 255); (ipv4 100 64 0 0, ipv4 100 127 255 255);
   (ipv4 127 0 0 0, ipv4 127 255 255 255); (ipv4 168 63 129 16, ipv4 168 63 129 16); (ipv4 169 254 0 0, ipv4 169 254 255 255);
   (ipv4 172 16 0 0, ipv4 172 31 255 255); (ipv4 192 0 0 0, ipv4 192 0 0 255); (ipv4 192 0 2 0, ipv4 192 0 2 255);
   (ipv4 192 88 99 0, ipv4 192 88 99 255); (ipv4 192 168 0 0, ipv4 192 168 255 255); (ipv4 198 18 0 0, ipv4 198 19 255 255);
   (ipv4 198 51 100 0, ipv4 198 51 100 255); (ipv4 203 0 113 0, ipv4 203 0 113 255); (ipv4 224 0 0 0, ipv4 239 255 255 255);
   (ipv4 240 0 0 0, ipv4 255 255 255 255)].
Definition special_ranges6 : list (Z * Z) :=
  [(0, 0); (1, 1); (0x100 * 2 ^ 112, 0x100 * 2 ^ 112 + 2 ^ 64 - 1); (0x20010002 * 2 ^ 96, 0x20010002 * 2 ^ 96 + 2 ^ 80 - 1);
   (0x20010010 * 2 ^ 96, 0x20010020 * 2 ^ 96 - 1); (0x20010db8 * 2 ^ 96, 0x20010db9 * 2 ^ 96 - 1); (0xfc00 * 2 ^ 112, 0xfe00 * 2 ^ 112 - 1);
   (0xfe80 * 2 ^ 112, 0xfec0 * 2 ^ 112 - 1); (0xff00 * 2 ^ 112, 2 ^ 128 - 1)].
Definition special_ranges (a : Addr) : list (Z * Z) := match a with AddrZero => [] | Addr4 _ => special_ranges4 | Addr6 _ _ => special_ranges6 end.
Definition special_use (a : Addr) : Prop := Exists (fun r => r.1 <= bits_of a <= r.2) (special_ranges a).

Definition prefix_range (p : Prefix) : Z * Z := (bits_of (Addr_of p), bits_of (Addr_of p) + 2 ^ host_bits p - 1).
Definition aligned_prefix (p : Prefix) : bool := valid_prefix p && (bits_of (Addr_of p) mod 2 ^ host_bits p =? 0) && (0 <=? host_bits p).

Lemma Contains_range p a : aligned_prefix p = true -> has_zone a = false -> BitLen (Addr_of p) = BitLen a -> BitLen a <> 0 ->
  (prefix_range p).1 <= bits_of a <= (prefix_range p).2 -> Contains p a = true.
Proof.
  unfold aligned_prefix, prefix_range. intros H Hz Hl Hn Hr. bool_facts. cbn [fst snd] in Hr. apply Contains_spec. split_and!; try done.
  rewrite !Z.shiftr_div_pow2 by lia. assert (0 < 2 ^ host_bits p) by (apply Z.pow_pos_nonneg; lia).
  symmetry. apply Z.div_unique with (bits_of a - bits_of (Addr_of p)); [left; lia|].
  pose proof (Z.div_mod (bits_of (Addr_of p)) (2 ^ host_bits p) ltac:(lia)). lia.
Qed.

Lemma special_table_aligned : forallb aligned_prefix specialUsePrefixes = true.
Proof. vm_compute. reflexivity. Qed.
Lemma special_table_ranges :
  special_ranges4 = prefix_range <$> List.filter (fun p => BitLen (Addr_of p) =? 32) specialUsePrefixes
  /\ special_ranges6 = prefix_range <$> List.filter (fun p => BitLen (Addr_of p) =? 128) specialUsePrefixes.
Proof. split; vm_compute; reflexivity. Qed.

#[local] Opaque special_ranges4 special_ranges6 specialUsePrefixes.
(** The table of the program has all of them, without their zones. *)
Lemma special_use_IsSpecial a : Unmap a = a -> has_zone a = false -> special_use a -> IsSpecial a = true.
Proof.
  intros Hu Hz H. unfold IsSpecial. rewrite Hu. apply existsb_exists. unfold special_use in H. apply Exists_exists in H as (r & Hr & Hb).
  assert (Hn : BitLen a <> 0) by (destruct a; [by apply elem_of_nil in Hr | done..]).
  assert (Hp : exists p, p ∈ specialUsePrefixes /\ BitLen (Addr_of p) = BitLen a /\ r = prefix_range p).
  { destruct special_table_ranges as [H4 H6]. revert Hr. assert (Hin : forall n, r ∈ prefix_range <$> List.filter (fun p => BitLen (Addr_of p) =? n) specialUsePrefixes ->
      exists p, p ∈ specialUsePrefixes /\ BitLen (Addr_of p) = n /\ r = prefix_range p).
    { intros n (p & -> & Hp)%list_elem_of_fmap. apply list_elem_of_In, filter_In in Hp as [Hp Hl%Z.eqb_eq]. exists p. rewrite list_elem_of_In. split_and!; [exact Hp | exact Hl | reflexivity]. }
    destruct a as [|b|b z]; unfold special_ranges; [intros []%elem_of_nil | rewrite H4; apply (Hin 32) | rewrite H6; apply (Hin 128)]. }
  destruct Hp as (p & Hp & Hl & ->). exists p. split; [by apply list_elem_of_In|]. apply Contains_range; try done.
  pose proof special_table_aligned as Ha. rewrite forallb_forall in Ha. by apply Ha, list_elem_of_In.
Qed.

#[local] Transparent specialUsePrefixes.

Section Addresses.
Context `{R : !Resolver}.

(** What an enabled policy promises of an address. *)
Definition address_permitted (policy : EgressPolicy) (a : Addr) : Prop :=
  (special_use a -> has_zone a = false -> containsEgressPrefix (Egress_AllowSpecialCIDRs policy) a = true)
  /\ (Egress_AllowCIDRs policy <> [] -> exists value prefix, value ∈ Egress_AllowCIDRs policy
        /\ ParsePrefix (strings.TrimSpace value) = Ok prefix /\ Contains prefix a = true).

Lemma Unmap_idem a : Unmap (Unmap a) = Unmap a.
Proof. unfold Unmap. destruct (Is4In6 a) eqn:E; [done | by rewrite E]. Qed.

Lemma egressIPAllowed_permitted policy a :
  Unmap a = a -> egressIPAllowed policy a = true -> address_permitted policy a.
Proof.
  intros Hu H. unfold egressIPAllowed in H. rewrite Hu in H. split.
  - intros Hs Hz. apply special_use_IsSpecial in Hs; [|done..]. rewrite Hs in H. destruct (containsEgressPrefix _ a); [done | cbn in H; done].
  - intros Hne. destruct (IsSpecial a && _); [done|].
    destruct (Egress_AllowCIDRs policy) as [|x l]; [done|]. 
    assert ((llen (x :: l) =? 0) = false) as Hlen by done. rewrite Hlen in H.
    apply existsb_exists in H as (value & Hin & Hv). apply list_elem_of_In in Hin.
    destruct (ParsePrefix (strings.TrimSpace value)) as [prefix|] eqn:Hp; [| done]. by exists value, prefix.
Qed.

Lemma egress_addresses_unmapped host l : egress_addresses host = Ok l -> Forall (fun a => Unmap a = a) l.
Proof.
  unfold egress_addresses. destruct (ParseAddr _) as [a|]; intros H.
  - injection H as <-. constructor; [apply Unmap_idem | constructor].
  - apply bind_Ok in H as (ips & _ & H). apply bind_Ok in H as ([] & _ & H). injection H as <-.
    apply Forall_fmap, Forall_forall. intros a _. apply Unmap_idem.
Qed.

Lemma reserve_egress_spec e policy e' release :
  reserve_egress e policy = (e', Ok release) ->
  released release = false
  /\ (holds_slot release = true -> 0 < Egress_MaxConnections policy /\ egressOpen e < Egress_MaxConnections policy
        /\ e' = with_egressOpen e (egressOpen e + 1))
  /\ (holds_slot release = false -> Egress_MaxConnections policy <= 0 /\ e' = e).
Proof.
  unfold reserve_egress. rewrite Z.geb_leb.
  destruct (Z.leb_spec (Egress_MaxConnections policy) 0); [by intros [= <- <-]|].
  destruct (Z.leb_spec (Egress_MaxConnections policy) (egressOpen e)); [done | by intros [= <- <-]].
Qed.

(** C5: when an enabled policy lets a connection through, the address handed to
    the dialer is one that the policy permits: inside the allow list when there is
    one, and, when it lies in one of the special-use ranges and is written without an
    IPv6 zone, inside the special exceptions (an address with a zone, such as
    ::1%lo, escapes the special-use check; this is recorded as a finding); its port
    is allowed, and the number of open egress connections is within the policy's
    limit; a refusal leaves the engine unchanged. *)
Theorem AcquireEgress_safe e network target :
  (forall e' address release, AcquireEgress e network target = (e', Ok (address, release)) ->
     Egress_Enabled (egress e) = true ->
     closed e = false /\ draining e = false
     /\ (exists a port, address = net.JoinHostPort (addr_string a) (strconv.Itoa port)
           /\ address_permitted (egress e) a /\ egressPortAllowed (egress e) network port = true
           /\ 1 <= port <= 65535)
     /\ (0 < Egress_MaxConnections (egress e) -> egressOpen e' = egressOpen e + 1
           /\ egressOpen e' <= Egress_MaxConnections (egress e)))
  /\ (forall e' err, AcquireEgress e network target = (e', Err err) -> e' = e).
Proof.
  assert (cloneEgressPolicy (egress e) = egress e) as Hclone by (by destruct (egress e)).
  unfold AcquireEgress. rewrite Hclone. split.
  - intros e' address release H Hen. unfold refusing in H. destruct (closed e), (draining e); try done. cbn [orb] in H.
    destruct (normalizeEgressTarget network target) as [[[t host] port]|] eqn:Hn; [| done].
    rewrite Hen in H. cbn [negb] in H.
    destruct (resolveAllowedEgress (egress e) network host port) as [addr|] eqn:Hr; [| done].
    destruct (reserve_egress e (egress e)) as [e1 [rel|]] eqn:Hres; [| done]. cbn in H. injection H as <- <- <-.
    apply reserve_egress_spec in Hres as (_ & Hslot & Hno).
    unfold resolveAllowedEgress in Hr. apply bind_Ok in Hr as ([] & Hport & Hr). apply reject_if_Ok in Hport.
    apply bind_Ok in Hr as (l & Hl & Hr). apply egress_addresses_unmapped in Hl.
    destruct (List.find _ l) as [a|] eqn:Hf; [| done]. injection Hr as <-.
    apply find_some in Hf as [Hin Ha]. apply list_elem_of_In in Hin. rewrite Forall_forall in Hl.
    split_and!; try done.
    + exists a, port. split_and!; try done.
      * apply egressIPAllowed_permitted; [by apply Hl | done].
      * by apply negb_false_iff.
      * unfold normalizeEgressTarget in Hn. inv_ok. destruct (net.SplitHostPort target) as [[h pt]|]; [| done].
        inv_ok. destruct (strconv.Atoi pt); [| done]. inv_ok. bool_facts. lia.
      * unfold normalizeEgressTarget in Hn. inv_ok. destruct (net.SplitHostPort target) as [[h pt]|]; [| done].
        inv_ok. destruct (strconv.Atoi pt); [| done]. inv_ok. bool_facts. lia.
    + intros Hmax. destruct (holds_slot rel); [| destruct (Hno eq_refl); lia].
      destruct (Hslot eq_refl) as (_ & Hlt & ->). cbn. lia.
  - intros e' err H. destruct (refusing e); [by simplify_eq|].
    destruct (normalizeEgressTarget network target) as [[[t host] port]|]; [| by simplify_eq].
    assert (forall A (x : A) e1 r, reserve_egress e (egress e) = (e1, r) -> (release ← r; Ok (x, release)) = Err err -> e1 = e) as Hres.
    { intros A x e1 r Hre Hr. unfold reserve_egress in Hre. repeat case_match; simplify_eq; done. }
    destruct (negb (Egress_Enabled (egress e))).
    + destruct (reserve_egress e (egress e)) as [e1 r] eqn:E. injection H as <- H. by eapply Hres.
    + destruct (resolveAllowedEgress _ _ _ _); [| by simplify_eq].
      destruct (reserve_egress e (egress e)) as [e1 r] eqn:E. injection H as <- H. by eapply Hres.
Qed.

(** The release callback gives its slot back exactly once. *)
Theorem egress_release_once e policy e1 release :
  0 <= egressOpen e -> reserve_egress e policy = (e1, Ok release) ->
  egressOpen (run_release e1 release).1 = egressOpen e
  /\ run_release (run_release e1 release).1 (run_release e1 release).2 = run_release e1 release.
Proof.
  intros Hpos H. apply reserve_egress_spec in H as (Hr & Hslot & Hno). unfold run_release.
  destruct (holds_slot release) eqn:Hh.
  - destruct (Hslot eq_refl) as (_ & _ & ->). rewrite Hr. cbn. unfold releaseEgress. cbn.
    replace (egressOpen e + 1 <=? 0) with false by lia. cbn. split; [lia | done].
  - destruct (Hno eq_refl) as (_ & ->). cbn. rewrite Hh. done.
Qed.
End Addresses.

(** ** The zone hole *)
Definition no_resolver : Resolver := {| LookupNetIP := fun _ => Err (EExternal "net.DNSError") |}.

Definition strict_policy : EgressPolicy := MkEgressPolicy true ["1-65535"] [] [] [] 0.
Definition egress_engine (policy : EgressPolicy) : Engine :=
  MkEngine "agent" "agent-1" 8 8 false false 1 1 None None ∅ ∅ ∅ 8 0 0 0 0 policy 0.

Lemma zoned_not_contained p a : has_zone a = true -> Contains p a = false.
Proof. intros H. unfold Contains. rewrite H. cbn. by rewrite andb_false_r. Qed.

(** The loopback address is refused by an enabled policy without exceptions,
    but the same address written with an IPv6 zone is let through: no prefix
    contains an address with a zone, so [IsSpecial] is false for every such
    address. *)
Theorem zoned_address_escapes_policy :
  let acquire target := (@AcquireEgress no_resolver (egress_engine strict_policy) "tcp" target).2 in
  @Egress_Validate strict_policy "agent.egress" = Ok tt
  /\ acquire "[::1]:22" = Err (ENew "egress destination is denied by policy")
  /\ acquire "[::1%lo]:22" = Ok ("[::1%lo]:22", MkRelease false false)
  /\ forall a, has_zone (Unmap a) = true -> IsSpecial a = false.
Proof.
  split; [vm_compute; reflexivity|]. split; [vm_compute; reflexivity|]. split; [vm_compute; reflexivity|].
  intros a Ha. unfold IsSpecial. induction specialUsePrefixes as [|p l IH]; [done|]. cbn [existsb].
  by rewrite zoned_not_contained.
Qed.

Lemma egress_release_once_witness :
  let e := egress_engine strict_policy in
  let policy := MkEgressPolicy true ["1-65535"] [] [] [] 3 in
  egressOpen (run_release (with_egressOpen e 1) (MkRelease true false)).1 = 0.
Proof.
  apply (egress_release_once (egress_engine strict_policy) (MkEgressPolicy true ["1-65535"] [] [] [] 3)).
  - vm_compute. discriminate.
  - vm_compute. reflexivity.
Defined.

Lemma AcquireEgress_safe_witness :
  let policy := MkEgressPolicy true ["443"] [] ["192.0.2.0/24"] ["192.0.2.0/24"] 2 in
  exists e', @AcquireEgress no_resolver (egress_engine policy) "tcp" "192.0.2.7:443" = (e', Ok ("192.0.2.7:443", MkRelease true false))
    /\ egressOpen e' = 1 /\ egressOpen e' <= 2.
Proof.
  intros policy.
  set (e' := (@AcquireEgress no_resolver (egress_engine policy) "tcp" "192.0.2.7:443").1).
  assert (H : @AcquireEgress no_resolver (egress_engine policy) "tcp" "192.0.2.7:443" = (e', Ok ("192.0.2.7:443", MkRelease true false)))
    by (vm_compute; reflexivity).
  exists e'. split; [exact H|].
  destruct (proj1 (@AcquireEgress_safe no_resolver (egress_engine policy) "tcp" "192.0.2.7:443") e' _ _ H eq_refl) as (_ & _ & _ & Hn).
  split; [vm_compute; reflexivity | apply Hn; reflexivity].
Defined.
