(* ===== verification/Placement.v ===== *)
(** * Placement (src/internal/controller: scheduler_ports.go, scheduler_placement.go)

    [Schedule] picks a gateway for the services of an agent and allocates a public
    port for each of them.  A set of binding keys is a [gset]; the nil set is the
    empty one. *)
From S2P Require Import Prelude GoStd GoNet Domain Checksum Validation Snapshot.
Import netip.

Record GatewayCandidate := MkCandidate {
  Candidate_Node : Node;
  Candidate_Spec : GatewaySpec;
  Candidate_Healthy : bool;
  Candidate_Assignments : list Assignment;
  Candidate_UsedBindings : gset string
}.

Record ScheduleRequest := MkRequest {
  Request_Agent : Node;
  Request_AgentSpec : AgentSpec;
  Request_Services : list Service;
  Request_Existing : option Assignment;
  Request_Generation : Z
}.

Definition ErrNoHealthyGateway :=
  ENew "no healthy gateway satisfies the fixed binding, selector, and capacity constraints".

(** ** Ports (scheduler_ports.go) *)
Definition bindingKey (protocol bind : string) (port : Z) : string :=
  let bind := strings.TrimSpace bind in
  let bind := match ParseAddr bind with Ok address => addr_string (Unmap address) | Err _ => bind end in
  protocol +:+ "|" +:+ bind +:+ "|" +:+ strconv.Itoa port.

Definition binding_key_of (b : Binding) : string := bindingKey (Binding_Protocol b) (Binding_Bind b) (Binding_Port b).

(** [normalizeBind] (store_helpers.go). *)
Definition normalizeBind (value : string) : string :=
  let value := strings.TrimSpace value in
  match ParseAddr value with Ok address => addr_string (Unmap address) | Err _ => value end.

Definition pool_ranges (pool : PortPool) (protocol : string) : list PortRange :=
  if String.eqb protocol ProtocolTCP then PortPool_TCP pool else PortPool_UDP pool.

Definition portInPool (pool : PortPool) (protocol : string) (port : Z) : bool :=
  let ranges := pool_ranges pool protocol in
  if llen ranges =? 0 then true
  else existsb (fun r => (port >=? PortRange_Min r) && (port <=? PortRange_Max r)) ranges.

(** The inner loop: the first free port among [n] from [port]. *)
Fixpoint scan_range (protocol bind : string) (used : gset string) (n : nat) (port : Z) : option Z :=
  match n with
  | O => None
  | S n => if bool_decide (bindingKey protocol bind port ∈ used) then scan_range protocol bind used n (port + 1)
           else Some port
  end.

(** The outer loop. *)
Fixpoint scan_ranges (protocol bind : string) (used : gset string) (ranges : list PortRange) : option Z :=
  match ranges with
  | [] => None
  | r :: ranges =>
      match scan_range protocol bind used (Z.to_nat (PortRange_Max r - PortRange_Min r + 1)) (PortRange_Min r) with
      | Some port => Some port
      | None => scan_ranges protocol bind used ranges
      end
  end.

Definition allocatePort (pool : PortPool) (protocol bind : string) (requested : Z) (used : gset string) : result Z :=
  if negb (requested =? 0) then
    _ ← reject_if (bool_decide (bindingKey protocol bind requested ∈ used)) (EPortConflict "" protocol bind requested);
    _ ← reject_if (negb (portInPool pool protocol requested))
          (EFmt "requested port %d is not in gateway %s port pool" [AInt requested; AStr protocol]);
    Ok requested
  else
    match scan_ranges protocol bind used (pool_ranges pool protocol) with
    | Some port => Ok port
    | None => Err (ENew "gateway port pool is exhausted")
    end.

(** ** Occupancy *)

(** A placement that has relinquished its listeners. *)
Definition relinquished (a : Assignment) : bool :=
  String.eqb (Assignment_State a) AssignmentDegraded || String.eqb (Assignment_State a) AssignmentDraining.

Definition activeAssignmentAgents (values : list Assignment) : gset string :=
  foldl (fun result a => if relinquished a then result else {[Assignment_AgentID a]} ∪ result) ∅ values.

Definition activeAssignmentServiceCount (values : list Assignment) : Z :=
  foldl (fun count a => if relinquished a then count else count + llen (Assignment_ServiceIDs a)) 0 values.

Definition filterEnabledServices (values : list Service) : list Service :=
  foldl (fun result service => if Service_Enabled service then result ++ [service] else result) [] values.

(** The certificate states that make a node unusable. *)
Definition certificate_unusable (n : Node) : bool :=
  String.eqb (Node_CertificateState n) CertificateRevoked || String.eqb (Node_CertificateState n) CertificateExpired
  || String.eqb (Node_CertificateState n) CertificateDecommissioned.

(** ** Schedule *)
Definition candidate_load (c : GatewayCandidate) : Z :=
  Z.of_nat (size (activeAssignmentAgents (Candidate_Assignments c))) * 1000
  + activeAssignmentServiceCount (Candidate_Assignments c).

(** The comparison of [sort.SliceStable]: the current gateway first, then by load,
    then by id. *)
Definition candidate_less (existing : option Assignment) (left right : GatewayCandidate) : bool :=
  let by_load :=
    let leftLoad := candidate_load left in
    let rightLoad := candidate_load right in
    if negb (leftLoad =? rightLoad) then leftLoad <? rightLoad
    else string_less (Node_ID (Candidate_Node left)) (Node_ID (Candidate_Node right)) in
  match existing with
  | Some e =>
      let leftExisting := String.eqb (Node_ID (Candidate_Node left)) (Assignment_GatewayID e) in
      let rightExisting := String.eqb (Node_ID (Candidate_Node right)) (Assignment_GatewayID e) in
      if negb (Bool.eqb leftExisting rightExisting) then leftExisting else by_load
  | None => by_load
  end.

(** What trying a candidate gives: an assignment, or an explicit port conflict
    and a placement error to remember. *)
Inductive attempt (A : Type) := Placed (a : A) | Skipped (conflict placement : option error).
Arguments Placed {A} _.
Arguments Skipped {A} _ _.

Record ServicePlacement := MkServicePlacement {
  place_serviceIDs : list string;
  place_bindings : list Binding;
  place_used : gset string;
  place_endpoint : string
}.

Section Schedule.
Context `{!MapOrder, !SliceSort, !Crypto, !Unicode, !DocumentJSON}.

(** The port the service already has on this gateway, if it can keep it; 0 is
    none. *)
Definition sticky_port (existingBindings : gmap string Binding) (service : Service) (used : gset string) : Z :=
  match existingBindings !! Service_ID service with
  | Some b =>
      if String.eqb (Binding_Protocol b) (Service_Protocol service)
         && String.eqb (normalizeBind (Binding_Bind b)) (normalizeBind (Service_PublicBind service))
         && ((Service_PublicPort service =? 0) || (Service_PublicPort service =? Binding_Port b))
      then if bool_decide (binding_key_of b ∈ used) then 0 else Binding_Port b
      else 0
  | None => 0
  end.

(** One round of the service loop. *)
Definition place_service (c : GatewayCandidate) (existingBindings : gmap string Binding) (service : Service)
    (st : ServicePlacement) : result (attempt ServicePlacement) :=
  _ ← map_err (EWrap "service %s: %w" [AStr (Service_ID service)]) (Service_Validate service);
  let gateway := Node_ID (Candidate_Node c) in
  if negb (Selector_Matches (Service_GatewaySelector service) (Node_Labels (Candidate_Node c)))
  then Ok (Skipped None (Some (EFmt "gateway %s does not match service %s selector" [AStr gateway; AStr (Service_ID service)])))
  else
    let port := sticky_port existingBindings service (place_used st) in
    let allocated := if port =? 0
      then allocatePort (Gateway_PortPool (Candidate_Spec c)) (Service_Protocol service) (Service_PublicBind service)
             (Service_PublicPort service) (place_used st)
      else Ok port in
    match allocated with
    | Err (EPortConflict _ protocol _ p) =>
        let conflict := EPortConflict gateway protocol (Service_PublicBind service) p in
        Ok (Skipped (if negb (Service_PublicPort service =? 0) then Some conflict else None) None)
    | Err err => Ok (Skipped None (Some err))
    | Ok port =>
        let endpoint := if String.eqb (place_endpoint st) ""
          then default "" (head (Gateway_PublicEndpoints (Candidate_Spec c))) else place_endpoint st in
        Ok (Placed (MkServicePlacement (place_serviceIDs st ++ [Service_ID service])
              (place_bindings st ++ [MkBinding (Service_ID service) (Service_Protocol service) (Service_PublicBind service) port])
              ({[bindingKey (Service_Protocol service) (Service_PublicBind service) port]} ∪ place_used st) endpoint))
    end.

Fixpoint place_services (c : GatewayCandidate) (existingBindings : gmap string Binding) (services : list Service)
    (st : ServicePlacement) : result (attempt ServicePlacement) :=
  match services with
  | [] => Ok (Placed st)
  | service :: services =>
      placed ← place_service c existingBindings service st;
      match placed with
      | Placed st => place_services c existingBindings services st
      | Skipped conflict placement => Ok (Skipped conflict placement)
      end
  end.

Definition candidate_eligible (request : ScheduleRequest) (c : GatewayCandidate) : bool :=
  let node := Candidate_Node c in
  let spec := Request_AgentSpec request in
  negb (negb (Node_Enabled node) || certificate_unusable node
        || negb (String.eqb (Node_SpecKind node) NodeSpecGateway) || negb (Candidate_Healthy c))
  && negb (negb (String.eqb (Agent_GatewayID spec) "") && negb (String.eqb (Node_ID node) (Agent_GatewayID spec)))
  && negb (String.eqb (Agent_GatewayID spec) "" && negb (Selector_Matches (Agent_GatewaySelector spec) (Node_Labels node))).

(** The request's own assignment, when this candidate is its gateway. *)
Definition own_existing (request : ScheduleRequest) (c : GatewayCandidate) : option Assignment :=
  match Request_Existing request with
  | Some e => if String.eqb (Assignment_GatewayID e) (Node_ID (Candidate_Node c))
                 && String.eqb (Assignment_AgentID e) (Node_ID (Request_Agent request)) then Some e else None
  | None => None
  end.

Definition within_capacity (request : ScheduleRequest) (c : GatewayCandidate) : bool :=
  let usedAgents := Z.of_nat (size (activeAssignmentAgents (Candidate_Assignments c))) in
  let usedServices := activeAssignmentServiceCount (Candidate_Assignments c) in
  let '(usedAgents, usedServices) :=
    match own_existing request c with
    | Some e => (if usedAgents >? 0 then usedAgents - 1 else usedAgents,
                 if usedServices >=? llen (Assignment_ServiceIDs e) then usedServices - llen (Assignment_ServiceIDs e) else 0)
    | None => (usedAgents, usedServices)
    end in
  let capacity := Gateway_Capacity (Candidate_Spec c) in
  negb ((Capacity_MaxAgents capacity >? 0) && (usedAgents >=? Capacity_MaxAgents capacity))
  && negb ((Capacity_MaxServices capacity >? 0)
           && (usedServices + llen (Request_Services request) >? Capacity_MaxServices capacity)).

(** The bindings of the request's own assignment, by service. *)
Definition existing_bindings (request : ScheduleRequest) (c : GatewayCandidate) : gmap string Binding :=
  match own_existing request c with
  | Some e => foldl (fun m b => <[Binding_ServiceID b := b]> m) ∅ (Assignment_Bindings e)
  | None => ∅
  end.

(** The occupied binding keys of the candidate, without the request's own. *)
Definition occupied_bindings (request : ScheduleRequest) (c : GatewayCandidate) : gset string :=
  let used := match own_existing request c with
              | Some e => foldl (fun used b => used ∖ {[binding_key_of b]}) (Candidate_UsedBindings c) (Assignment_Bindings e)
              | None => Candidate_UsedBindings c
              end in
  foldl (fun bindings existing =>
      if relinquished existing then bindings
      else if match Request_Existing request with
              | Some e => String.eqb (Assignment_ID existing) (Assignment_ID e) | None => false end then bindings
      else foldl (fun bindings b => {[binding_key_of b]} ∪ bindings) bindings (Assignment_Bindings existing))
    used (Candidate_Assignments c).

(** One round of the candidate loop, at time [now]. *)
Definition try_candidate (request : ScheduleRequest) (now : Z) (c : GatewayCandidate) : result (attempt Assignment) :=
  if negb (candidate_eligible request c) then Ok (Skipped None None)
  else if negb (within_capacity request c) then Ok (Skipped None None)
  else
    placed ← place_services c (existing_bindings request c) (Request_Services request)
               (MkServicePlacement [] [] (occupied_bindings request c) "");
    match placed with
    | Skipped conflict placement => Ok (Skipped conflict placement)
    | Placed st =>
        let agent := Node_ID (Request_Agent request) in
        let gateway := Node_ID (Candidate_Node c) in
        let id := match own_existing request c with Some e => Assignment_ID e | None => agent +:+ "-" +:+ gateway end in
        Ok (Placed (MkAssignment id gateway agent (place_serviceIDs st) (place_bindings st) (Request_Generation request)
              AssignmentPending (place_endpoint st) (Gateway_Obfuscation (Candidate_Spec c)) 0 now))
    end.

(** The candidate loop with [explicitConflict] and [placementErr]. *)
Fixpoint try_candidates (request : ScheduleRequest) (now : Z) (ordered : list GatewayCandidate)
    (explicitConflict placementErr : option error) : result Assignment :=
  match ordered with
  | [] =>
      match explicitConflict, placementErr with
      | Some e, _ => Err e
      | None, Some e => Err e
      | None, None => Err ErrNoHealthyGateway
      end
  | c :: ordered =>
      tried ← try_candidate request now c;
      match tried with
      | Placed assignment => Ok assignment
      | Skipped conflict placement =>
          try_candidates request now ordered
            (match conflict with Some e => Some e | None => explicitConflict end)
            (match placementErr with Some e => Some e | None => placement end)
      end
  end.

(** The checks and defaults in front of the candidate loop. *)
Definition prepare_request (request : ScheduleRequest) : result ScheduleRequest :=
  let agent := Node_ID (Request_Agent request) in
  _ ← ValidateID agent (TLit "agent.id");
  _ ← reject_if (Request_Generation request =? 0) (ENew "agent and positive generation are required");
  let spec := Request_AgentSpec request in
  let spec := if String.eqb (Agent_NodeID spec) ""
    then MkAgentSpec agent (Agent_GatewayID spec) (Agent_GatewaySelector spec) (Agent_Proxies spec) (Agent_Routes spec)
           (Agent_Limits spec) (Agent_Egress spec) (Agent_Logging spec) (Agent_Revision spec)
    else spec in
  _ ← Agent_Validate spec;
  _ ← reject_if (negb (String.eqb (Agent_NodeID spec) agent)) (ENew "agent spec does not belong to agent");
  _ ← reject_if (llen (Request_Services request) =? 0) (ENew "at least one service is required");
  let existing := match Request_Existing request with
                  | Some e => if relinquished e then None else Some e
                  | None => None end in
  _ ← for_each (fun _ service (seenServiceIDs : seen_set) =>
        _ ← reject_if (seen (Service_ID service) seenServiceIDs) (EFmt "service %s is duplicated" [AStr (Service_ID service)]);
        _ ← reject_if (negb (String.eqb (Service_AgentID service) agent))
              (EFmt "service %s belongs to another agent" [AStr (Service_ID service)]);
        Ok ({[Service_ID service]} ∪ seenServiceIDs)) 0 (Request_Services request) ∅;
  Ok (MkRequest (Request_Agent request) spec (Request_Services request) existing (Request_Generation request)).

Definition Schedule (request : ScheduleRequest) (now : Z) (candidates : list GatewayCandidate) : result Assignment :=
  request ← prepare_request request;
  let ordered := sort_stable (candidate_less (Request_Existing request)) (append_nil candidates) in
  try_candidates request now ordered None None.

(** ** sameAssignmentPlacement *)
Definition sameObfuscationPolicy (left right : ObfuscationPolicy) : bool :=
  let mode o := if String.eqb (Obfuscation_Mode o) "" then "standard" else Obfuscation_Mode o in
  String.eqb (mode left) (mode right)
  && String.eqb (Obfuscation_KeyID left) (Obfuscation_KeyID right)
  && String.eqb (Obfuscation_PreviousKeyID left) (Obfuscation_PreviousKeyID right)
  && (Obfuscation_MaxPaddingBytes left =? Obfuscation_MaxPaddingBytes right)
  && Bool.eqb (Obfuscation_HandshakeShaping left) (Obfuscation_HandshakeShaping right).

Definition same_binding (left right : Binding) : bool :=
  negb (negb (String.eqb (Binding_ServiceID left) (Binding_ServiceID right))
        || negb (String.eqb (Binding_Protocol left) (Binding_Protocol right))
        || negb (String.eqb (normalizeBind (Binding_Bind left)) (normalizeBind (Binding_Bind right)))
        || negb (Binding_Port left =? Binding_Port right)).

Definition sameAssignmentPlacement (left right : Assignment) : bool :=
  if negb (String.eqb (Assignment_ID left) (Assignment_ID right))
     || negb (String.eqb (Assignment_GatewayID left) (Assignment_GatewayID right))
     || negb (String.eqb (Assignment_AgentID left) (Assignment_AgentID right))
     || negb (String.eqb (Assignment_PublicEndpoint left) (Assignment_PublicEndpoint right))
     || negb (sameObfuscationPolicy (Assignment_Obfuscation left) (Assignment_Obfuscation right))
     || negb (llen (Assignment_ServiceIDs left) =? llen (Assignment_ServiceIDs right))
     || negb (llen (Assignment_Bindings left) =? llen (Assignment_Bindings right))
  then false else
  let leftServices := sort_strings (append_nil (Assignment_ServiceIDs left)) in
  let rightServices := sort_strings (append_nil (Assignment_ServiceIDs right)) in
  if negb (forallb (fun '(l, r) => String.eqb l r) (zip leftServices rightServices)) then false else
  let leftBindings := sort_slice (key_less binding_key_of) (append_nil (Assignment_Bindings left)) in
  let rightBindings := sort_slice (key_less binding_key_of) (append_nil (Assignment_Bindings right)) in
  forallb (fun '(l, r) => same_binding l r) (zip leftBindings rightBindings).
End Schedule.
