(* ===== verification/PlacementFacts.v ===== *)
(** * What the scheduler's placement guarantees

    A port is allocated only if it is free and in the pool; an assignment returned
    by [Schedule] is placed on an eligible candidate with room for it, on public
    bindings nobody else holds, and no better candidate could have taken it. *)
From S2P Require Import Prelude GoStd GoNet Domain Checksum Validation Snapshot SnapshotFacts Samples Placement.
Import netip.

(** ** Ports *)
Section Ports.
Lemma scan_range_Some protocol bind used n port p :
  scan_range protocol bind used n port = Some p ->
  port <= p < port + Z.of_nat n /\ bindingKey protocol bind p ∉ used.
Proof.
  revert port. induction n as [|n IH]; intros port H; [done|]. cbn [scan_range] in H.
  case_bool_decide; [apply IH in H; lia || (destruct H; split; [lia | done]) |]. injection H as <-. split; [lia | done].
Qed.

Lemma scan_range_None protocol bind used n port :
  scan_range protocol bind used n port = None ->
  forall p, port <= p < port + Z.of_nat n -> bindingKey protocol bind p ∈ used.
Proof.
  revert port. induction n as [|n IH]; intros port H p Hp; [lia|]. cbn [scan_range] in H.
  case_bool_decide as Hin; [| done]. destruct (decide (p = port)) as [->|]; [done|]. apply (IH (port + 1) H). lia.
Qed.

Definition in_range (r : PortRange) (p : Z) : Prop := PortRange_Min r <= p <= PortRange_Max r.

Lemma scan_ranges_Some protocol bind used ranges p :
  scan_ranges protocol bind used ranges = Some p ->
  bindingKey protocol bind p ∉ used /\ exists r, r ∈ ranges /\ in_range r p.
Proof.
  induction ranges as [|r ranges IH]; intros H; [done|]. cbn [scan_ranges] in H.
  destruct (scan_range _ _ _ _ _) as [q|] eqn:E.
  - injection H as ->. apply scan_range_Some in E as [Hr Hu]. split; [done|]. exists r. split; [left | unfold in_range; lia].
  - destruct (IH H) as (Hu & r' & Hin & Hr). split; [done|]. exists r'. split; [by right | done].
Qed.

Lemma scan_ranges_None protocol bind used ranges :
  scan_ranges protocol bind used ranges = None ->
  forall r p, r ∈ ranges -> in_range r p -> bindingKey protocol bind p ∈ used.
Proof.
  induction ranges as [|r ranges IH]; intros H r' p Hin Hp; [by apply elem_of_nil in Hin|]. cbn [scan_ranges] in H.
  destruct (scan_range _ _ _ _ _) as [q|] eqn:E; [done|].
  apply elem_of_cons in Hin as [->|Hin]; [| by eapply IH].
  apply (scan_range_None _ _ _ _ _ E). unfold in_range in Hp. lia.
Qed.

Lemma portInPool_range pool protocol r p :
  r ∈ pool_ranges pool protocol -> in_range r p -> portInPool pool protocol p = true.
Proof.
  intros Hin Hr. unfold portInPool. destruct (pool_ranges pool protocol) as [|x l] eqn:E; [by apply elem_of_nil in Hin|].
  assert ((llen (x :: l) =? 0) = false) as -> by done. apply existsb_exists. exists r.
  split; [by apply list_elem_of_In|]. unfold in_range in Hr. rewrite Z.geb_leb. lia.
Qed.

Lemma allocatePort_Ok pool protocol bind requested used p :
  allocatePort pool protocol bind requested used = Ok p ->
  bindingKey protocol bind p ∉ used /\ portInPool pool protocol p = true /\ (requested <> 0 -> p = requested).
Proof.
  intros H. unfold allocatePort in H. destruct (Z.eqb_spec requested 0) as [->|Hr]; cbn [negb] in H.
  - destruct (scan_ranges _ _ _ _) eqn:E; [| done]. injection H as <-.
    apply scan_ranges_Some in E as (Hu & r & Hin & Hr). split_and!; [done | by eapply portInPool_range | done].
  - inv_ok. bool_facts. split_and!; done.
Qed.

(** An allocated port is free and in the gateway's pool, and is the
    requested one if one was requested; a requested port that is taken is a
    port conflict; a request for any port fails only when every port of every
    range of the pool is taken. *)
Theorem allocatePort_spec pool protocol bind requested used :
  (forall p, allocatePort pool protocol bind requested used = Ok p ->
     bindingKey protocol bind p ∉ used /\ portInPool pool protocol p = true /\ (requested <> 0 -> p = requested))
  /\ (requested <> 0 -> bindingKey protocol bind requested ∈ used ->
      allocatePort pool protocol bind requested used = Err (EPortConflict "" protocol bind requested))
  /\ (requested = 0 ->
      ((exists p, allocatePort pool protocol bind requested used = Ok p)
       <-> exists r p, r ∈ pool_ranges pool protocol /\ in_range r p /\ bindingKey protocol bind p ∉ used)).
Proof.
  split; [apply allocatePort_Ok|]. split.
  - intros Hr Hin. unfold allocatePort. apply Z.eqb_neq in Hr. rewrite Hr. cbn [negb].
    by rewrite bool_decide_eq_true_2.
  - intros ->. unfold allocatePort. cbn [Z.eqb negb]. destruct (scan_ranges _ _ _ _) as [p|] eqn:E.
    + split; [intros _ | by eexists]. apply scan_ranges_Some in E as (Hu & r & Hin & Hr). by exists r, p.
    + split; [by intros [? ?] |]. intros (r & p & Hin & Hr & Hu). exfalso. apply Hu. by eapply scan_ranges_None.
Qed.
End Ports.

(** ** Services *)
Section Services.
Context `{MO : !MapOrder, SS : !SliceSort, CR : !Crypto, UN : !Unicode, DJ : !DocumentJSON}.

Lemma bindingKey_normalize protocol bind1 bind2 port :
  normalizeBind bind1 = normalizeBind bind2 -> bindingKey protocol bind1 port = bindingKey protocol bind2 port.
Proof. unfold bindingKey, normalizeBind. by intros ->. Qed.

(** A binding that serves a service on a candidate. *)
Record serves (c : GatewayCandidate) (existing : gmap string Binding) (sv : Service) (b : Binding) : Prop := {
  sv_id : Binding_ServiceID b = Service_ID sv;
  sv_protocol : Binding_Protocol b = Service_Protocol sv;
  sv_bind : Binding_Bind b = Service_PublicBind sv;
  sv_port : Service_PublicPort sv <> 0 -> Binding_Port b = Service_PublicPort sv;
  sv_pool : portInPool (Gateway_PortPool (Candidate_Spec c)) (Service_Protocol sv) (Binding_Port b) = true
            \/ exists own, existing !! Service_ID sv = Some own /\ Binding_Port own = Binding_Port b;
  sv_valid : Service_Validate sv = Ok tt;
  sv_selected : Selector_Matches (Service_GatewaySelector sv) (Node_Labels (Candidate_Node c)) = true
}.

Lemma sticky_port_spec existing sv used p :
  sticky_port existing sv used = p -> p <> 0 ->
  exists b, existing !! Service_ID sv = Some b /\ Binding_Port b = p
    /\ bindingKey (Service_Protocol sv) (Service_PublicBind sv) p ∉ used
    /\ (Service_PublicPort sv <> 0 -> p = Service_PublicPort sv).
Proof.
  unfold sticky_port. destruct (existing !! Service_ID sv) as [b|]; [| by intros <-].
  destruct (String.eqb_spec (Binding_Protocol b) (Service_Protocol sv)) as [Hp|]; cbn [andb]; [| by intros <-].
  destruct (String.eqb_spec (normalizeBind (Binding_Bind b)) (normalizeBind (Service_PublicBind sv))) as [Hb|]; cbn [andb]; [| by intros <-].
  destruct ((Service_PublicPort sv =? 0) || _) eqn:E; [| by intros <-].
  case_bool_decide as Hin; [by intros <-|]. intros <- Hne. exists b. split_and!; try done.
  - unfold binding_key_of in Hin. rewrite Hp in Hin. by rewrite <- (bindingKey_normalize _ _ _ _ Hb).
  - intros Hpp. apply orb_true_iff in E as [E|E]; bool_facts; [done | by rewrite E].
Qed.

Lemma place_service_Placed c existing sv st st' :
  place_service c existing sv st = Ok (Placed st') ->
  exists b, serves c existing sv b /\ binding_key_of b ∉ place_used st
    /\ place_serviceIDs st' = place_serviceIDs st ++ [Service_ID sv]
    /\ place_bindings st' = place_bindings st ++ [b]
    /\ place_used st' = {[binding_key_of b]} ∪ place_used st.
Proof.
  intros H. unfold place_service in H. apply bind_Ok in H as ([] & Hv & H). apply map_err_Ok in Hv.
  destruct (Selector_Matches _ _) eqn:Hs; cbn [negb] in H; [| done].
  set (sticky := sticky_port existing sv (place_used st)) in *.
  assert (forall p, (if sticky =? 0 then allocatePort (Gateway_PortPool (Candidate_Spec c)) (Service_Protocol sv)
      (Service_PublicBind sv) (Service_PublicPort sv) (place_used st) else Ok sticky) = Ok p ->
    serves c existing sv (MkBinding (Service_ID sv) (Service_Protocol sv) (Service_PublicBind sv) p)
    /\ bindingKey (Service_Protocol sv) (Service_PublicBind sv) p ∉ place_used st) as Hport.
  { intros p Hp. destruct (Z.eqb_spec sticky 0) as [_|Hne].
    - apply allocatePort_Ok in Hp as (Hu & Hpool & Hreq). split; [| done]. constructor; try done. by left.
    - injection Hp as <-. destruct (sticky_port_spec _ _ _ _ eq_refl Hne) as (b & Hb & Hbp & Hu & Hreq).
      split; [| done]. constructor; try done. right. by exists b. }
  destruct (if sticky =? 0 then _ else _) as [p|err]; [| by destruct err].
  destruct (Hport p eq_refl) as [Hserves Hu]. injection H as <-.
  exists (MkBinding (Service_ID sv) (Service_Protocol sv) (Service_PublicBind sv) p). done.
Qed.

Lemma place_services_Placed c existing svcs st st' :
  place_services c existing svcs st = Ok (Placed st') ->
  exists bs, place_bindings st' = place_bindings st ++ bs
    /\ place_serviceIDs st' = place_serviceIDs st ++ (Service_ID <$> svcs)
    /\ Forall2 (serves c existing) svcs bs
    /\ NoDup (binding_key_of <$> bs) /\ Forall (fun b => binding_key_of b ∉ place_used st) bs.
Proof.
  revert st. induction svcs as [|sv svcs IH]; intros st H; cbn [place_services] in H.
  { injection H as <-. exists []. cbn. rewrite !app_nil_r. repeat split; constructor. }
  apply bind_Ok in H as (placed & Hp & H). destruct placed as [st1|]; [| done].
  apply place_service_Placed in Hp as (b & Hs & Hu & H1 & H2 & H3).
  destruct (IH _ H) as (bs & B1 & B2 & B3 & B4 & B5). exists (b :: bs). rewrite H3 in B5.
  split_and!.
  - by rewrite B1, H2, <- app_assoc.
  - by rewrite B2, H1, <- app_assoc.
  - by constructor.
  - change (NoDup (binding_key_of b :: (binding_key_of <$> bs))). apply NoDup_cons. split; [| done].
    intros (b' & Hk & Hin)%list_elem_of_fmap. rewrite Forall_forall in B5. specialize (B5 b' Hin). set_solver.
  - constructor; [done|]. eapply Forall_impl; [exact B5|]. intros b' Hb'. set_solver.
Qed.

(** ** Candidates *)
Lemma try_candidate_Placed request now c a :
  try_candidate request now c = Ok (Placed a) ->
  candidate_eligible request c = true /\ within_capacity request c = true
  /\ Assignment_GatewayID a = Node_ID (Candidate_Node c) /\ Assignment_AgentID a = Node_ID (Request_Agent request)
  /\ Assignment_ServiceIDs a = (Service_ID <$> Request_Services request)
  /\ Assignment_Generation a = Request_Generation request /\ Assignment_State a = AssignmentPending
  /\ Forall2 (serves c (existing_bindings request c)) (Request_Services request) (Assignment_Bindings a)
  /\ NoDup (binding_key_of <$> Assignment_Bindings a)
  /\ Forall (fun b => binding_key_of b ∉ occupied_bindings request c) (Assignment_Bindings a).
Proof.
  intros H. unfold try_candidate in H. destruct (candidate_eligible request c); cbn [negb] in H; [| done].
  destruct (within_capacity request c); cbn [negb] in H; [| done].
  apply bind_Ok in H as (placed & Hp & H). destruct placed as [st|]; [| done]. injection H as <-.
  apply place_services_Placed in Hp as (bs & B1 & B2 & B3 & B4 & B5). cbn in *. rewrite B1, B2. split_and!; done.
Qed.

Lemma try_candidates_Ok request now ordered ce pe a :
  try_candidates request now ordered ce pe = Ok a ->
  exists before c after, ordered = before ++ c :: after /\ try_candidate request now c = Ok (Placed a)
    /\ Forall (fun b => exists x y, try_candidate request now b = Ok (Skipped x y)) before.
Proof.
  revert ce pe. induction ordered as [|c ordered IH]; intros ce pe H; cbn [try_candidates] in H.
  { destruct ce; [done|]. by destruct pe. }
  apply bind_Ok in H as (tried & Ht & H). destruct tried as [a'|x y].
  - injection H as ->. exists [], c, ordered. done.
  - destruct (IH _ _ H) as (before & c' & after & -> & Hc & Hb). exists (c :: before), c', after.
    split_and!; [done | done | constructor; [by exists x, y | done]].
Qed.

Lemma candidate_less_weak existing : weak_order (candidate_less existing).
Proof.
  destruct string_less_weak as (S1 & S2 & S3). unfold weak_order.
  assert (forall e x y, candidate_less e x y =
    let ex c := match e with Some e => String.eqb (Node_ID (Candidate_Node c)) (Assignment_GatewayID e) | None => true end in
    if ex x then (if ex y then (if candidate_load x =? candidate_load y then string_less (Node_ID (Candidate_Node x)) (Node_ID (Candidate_Node y))
                                else candidate_load x <? candidate_load y) else true)
    else (if ex y then false else (if candidate_load x =? candidate_load y then string_less (Node_ID (Candidate_Node x)) (Node_ID (Candidate_Node y))
                                else candidate_load x <? candidate_load y))) as Heq.
  { intros e x y. unfold candidate_less. destruct e as [e|]; cbn; repeat (case_match; cbn in *; try done). }
  split_and!; intros *; rewrite !Heq; cbn zeta.
  - rewrite Z.eqb_refl, S1. by case_match.
  - repeat case_match; try done; bool_facts; try (intros; lia); try congruence; eauto.
  - repeat case_match; try done; bool_facts; try (intros; lia); try congruence; eauto.
Qed.

Lemma prepare_request_Ok request request' :
  prepare_request request = Ok request' ->
  Request_Agent request' = Request_Agent request /\ Request_Services request' = Request_Services request
  /\ Request_Generation request' = Request_Generation request /\ Request_Generation request <> 0
  /\ Request_Services request <> []
  /\ Agent_GatewayID (Request_AgentSpec request') = Agent_GatewayID (Request_AgentSpec request)
  /\ Agent_GatewaySelector (Request_AgentSpec request') = Agent_GatewaySelector (Request_AgentSpec request)
  /\ NoDup (Service_ID <$> Request_Services request)
  /\ Forall (fun sv => Service_AgentID sv = Node_ID (Request_Agent request)) (Request_Services request)
  /\ Request_Existing request' = (e ← Request_Existing request; if relinquished e then None else Some e).
Proof.
  intros H. unfold prepare_request in H. do 3 (apply bind_Ok in H as ([] & ?H & H)).
  do 2 (apply bind_Ok in H as ([] & ?H & H)). apply bind_Ok in H as (sn & Hl & H). injection H as <-.
  apply reject_if_Ok in H1, H3, H4. bool_facts.
  assert (forall l i (acc : gset string) sn', for_each (fun _ service (seenServiceIDs : seen_set) =>
        _ ← reject_if (seen (Service_ID service) seenServiceIDs) (EFmt "service %s is duplicated" [AStr (Service_ID service)]);
        _ ← reject_if (negb (String.eqb (Service_AgentID service) (Node_ID (Request_Agent request))))
              (EFmt "service %s belongs to another agent" [AStr (Service_ID service)]);
        Ok ({[Service_ID service]} ∪ seenServiceIDs)) i l acc = Ok sn' ->
      NoDup (Service_ID <$> l) /\ Forall (fun sv => Service_AgentID sv = Node_ID (Request_Agent request)) l
      /\ Forall (fun sv => Service_ID sv ∉ acc) l) as Hloop.
  { clear. induction l as [|sv l IH]; intros i acc sn' H; cbn [for_each] in H; [repeat split; constructor|].
    apply bind_Ok in H as (acc' & Hb & H). destruct (IH _ _ _ H) as (I1 & I2 & I3).
    apply bind_Ok in Hb as ([] & Hs & Hb). apply bind_Ok in Hb as ([] & Ha & Hb). apply reject_if_Ok in Hs, Ha.
    unfold seen in Hs. bool_facts. injection Hb as <-. rewrite Forall_forall in I3. split_and!.
    - change (NoDup (Service_ID sv :: (Service_ID <$> l))). apply NoDup_cons. split; [| done].
      intros (sv' & Hk & Hin)%list_elem_of_fmap. specialize (I3 sv' Hin). set_solver.
    - by constructor.
    - constructor; [done|]. apply Forall_forall. intros sv' Hin. specialize (I3 sv' Hin). set_solver. }
  apply Hloop in Hl as (L1 & L2 & _). cbn.
  assert (Request_Services request <> []) by (intros E; rewrite E in H4; done).
  split_and!; try done; by case_match.
Qed.

(** C4: an assignment that [Schedule] returns is placed on a candidate that is
    enabled, healthy, with a usable certificate, and the fixed gateway of the
    agent or one its selector matches; it carries exactly the requested services,
    one binding each in order, on the service's protocol, address and (if set)
    port, from the gateway's pool or kept from the current assignment; the
    bindings are pairwise distinct and none of them is occupied on the gateway. *)
Theorem Schedule_sound request now candidates a :
  Schedule request now candidates = Ok a ->
  exists request' c, prepare_request request = Ok request' /\ c ∈ candidates
    /\ (Node_Enabled (Candidate_Node c) = true /\ Candidate_Healthy c = true /\ certificate_unusable (Candidate_Node c) = false
        /\ (Agent_GatewayID (Request_AgentSpec request) <> "" -> Node_ID (Candidate_Node c) = Agent_GatewayID (Request_AgentSpec request))
        /\ (Agent_GatewayID (Request_AgentSpec request) = "" ->
            Selector_Matches (Agent_GatewaySelector (Request_AgentSpec request)) (Node_Labels (Candidate_Node c)) = true))
    /\ within_capacity request' c = true
    /\ (Assignment_GatewayID a = Node_ID (Candidate_Node c) /\ Assignment_AgentID a = Node_ID (Request_Agent request)
        /\ Assignment_ServiceIDs a = (Service_ID <$> Request_Services request)
        /\ Assignment_Generation a = Request_Generation request /\ Assignment_State a = AssignmentPending)
    /\ Forall2 (serves c (existing_bindings request' c)) (Request_Services request) (Assignment_Bindings a)
    /\ NoDup (binding_key_of <$> Assignment_Bindings a)
    /\ Forall (fun b => binding_key_of b ∉ occupied_bindings request' c) (Assignment_Bindings a).
Proof.
  intros H. unfold Schedule in H. apply bind_Ok in H as (request' & Hp & H).
  destruct (prepare_request_Ok _ _ Hp) as (P1 & P2 & P3 & _ & _ & P4 & P5 & _).
  apply try_candidates_Ok in H as (before & c & after & Ho & Hc & _).
  apply try_candidate_Placed in Hc as (T1 & T2 & T3 & T4 & T5 & T6 & T7 & T8 & T9 & T10).
  rewrite P1, P2, P3 in *. exists request', c. split; [done|]. split.
  { rewrite <- (sort_stable_perm (candidate_less (Request_Existing request')) candidates).
    change (append_nil candidates) with candidates in Ho. rewrite Ho. set_solver. }
  split; [| split_and!; done].
  unfold candidate_eligible in T1. rewrite P4, P5 in T1. bool_facts.
  repeat match goal with Hx : (_ || _) = false |- _ => apply orb_false_iff in Hx as [? ?] end. bool_facts.
  split_and!; try done.
  - intros Hne. match goal with Hx : negb _ && negb _ = false |- _ => apply andb_false_iff in Hx as [Hx|Hx] end; bool_facts; done.
  - intros He. rewrite He in *. cbn in *. bool_facts. done.
Qed.

(** [Schedule] returns the best placement: no candidate on which the
    services could have been placed comes before the chosen one in the order
    current gateway first, then lower load, then smaller id. *)
Theorem Schedule_best request request' now candidates a :
  Schedule request now candidates = Ok a -> prepare_request request = Ok request' ->
  exists c, c ∈ candidates /\ try_candidate request' now c = Ok (Placed a)
    /\ forall c' a', c' ∈ candidates -> try_candidate request' now c' = Ok (Placed a') ->
         candidate_less (Request_Existing request') c' c = false.
Proof.
  intros H Hp. unfold Schedule in H. rewrite Hp in H. cbn [mbind result_bind] in H.
  change (append_nil candidates) with candidates in H. set (less := candidate_less (Request_Existing request')) in *.
  pose proof (sort_stable_perm less candidates) as Hperm.
  pose proof (sort_stable_sorted less candidates (candidate_less_weak _)) as Hsorted.
  apply try_candidates_Ok in H as (before & c & after & Ho & Hc & Hb). rewrite Ho in Hperm, Hsorted.
  exists c. split; [rewrite <- Hperm; set_solver|]. split; [done|]. intros c' a' Hin Hc'. rewrite <- Hperm in Hin.
  apply elem_of_app in Hin as [Hin|Hin].
  { rewrite Forall_forall in Hb. destruct (Hb c' Hin) as (x & y & Hs). by rewrite Hs in Hc'. }
  apply elem_of_cons in Hin as [->|Hin]; [apply (candidate_less_weak (Request_Existing request'))|].
  clear - Hsorted Hin. induction before as [|b before IH]; cbn in Hsorted; apply StronglySorted_inv in Hsorted as [H1 H2].
  - rewrite Forall_forall in H2. by apply H2.
  - by apply IH.
Qed.

Lemma place_services_no_error c existing svcs st :
  Forall (fun sv => Service_Validate sv = Ok tt) svcs -> exists r, place_services c existing svcs st = Ok r.
Proof.
  revert st. induction svcs as [|sv svcs IH]; intros st Hv; cbn [place_services]; [by eexists|].
  apply Forall_cons in Hv as [Hv Hvs]. assert (exists r, place_service c existing sv st = Ok r) as [r ->].
  { unfold place_service. rewrite Hv. cbn [map_err mbind result_bind]. repeat case_match; by eexists. }
  cbn [mbind result_bind]. destruct r; [by apply IH | by eexists].
Qed.

(** [Schedule] finds a placement whenever there is one: if the request is
    well-formed, its services are valid and they can be placed on some candidate,
    the result is an assignment. *)
Theorem Schedule_complete request request' now candidates c a' :
  prepare_request request = Ok request' -> Forall (fun sv => Service_Validate sv = Ok tt) (Request_Services request) ->
  c ∈ candidates -> try_candidate request' now c = Ok (Placed a') ->
  exists a, Schedule request now candidates = Ok a.
Proof.
  intros Hp Hv Hin Hc. unfold Schedule. rewrite Hp. cbn [mbind result_bind].
  destruct (prepare_request_Ok _ _ Hp) as (_ & P2 & _). rewrite <- P2 in Hv.
  assert (forall b, exists r, try_candidate request' now b = Ok r) as Hno.
  { intros b. unfold try_candidate. destruct (candidate_eligible request' b); cbn [negb]; [| by eexists].
    destruct (within_capacity request' b); cbn [negb]; [| by eexists].
    destruct (place_services_no_error b (existing_bindings request' b) (Request_Services request')
      (MkServicePlacement [] [] (occupied_bindings request' b) "") Hv) as [[st|x y] ->]; by eexists. }
  rewrite <- (sort_stable_perm (candidate_less (Request_Existing request')) candidates) in Hin.
  change (append_nil candidates) with candidates.
  generalize dependent (sort_stable (candidate_less (Request_Existing request')) candidates).
  intros l Hin. generalize (@None error) at 1 as ce. generalize (@None error) as pe.
  induction l as [|b l IH]; intros pe ce; [by apply elem_of_nil in Hin|]. cbn [try_candidates].
  destruct (Hno b) as [r Hr]. rewrite Hr. cbn [mbind result_bind]. destruct r as [a|x y]; [by eexists|].
  apply elem_of_cons in Hin as [->|Hin]; [congruence | by apply IH].
Qed.

(** ** Unchanged placements *)
Lemma forallb_zip_fmap {A} (f : A -> A -> bool) (key : A -> string) l1 l2 :
  (forall x y, f x y = true -> key x = key y) -> List.length l1 = List.length l2 ->
  forallb (fun '(x, y) => f x y) (zip l1 l2) = true -> key <$> l1 = key <$> l2.
Proof.
  intros Hf. revert l2. induction l1 as [|x l1 IH]; intros [|y l2] Hlen H; try done.
  cbn in H. apply andb_true_iff in H as [Hxy H]. rewrite !fmap_cons. f_equal; [by apply Hf | by apply IH; [injection Hlen|]].
Qed.

(** Two assignments that [sameAssignmentPlacement] calls the same have the
    same identity, gateway, agent and endpoint, the same services and the same
    public bindings, up to order and the spelling of addresses. *)
Theorem sameAssignmentPlacement_sound left right :
  sameAssignmentPlacement left right = true ->
  Assignment_ID left = Assignment_ID right /\ Assignment_GatewayID left = Assignment_GatewayID right
  /\ Assignment_AgentID left = Assignment_AgentID right /\ Assignment_PublicEndpoint left = Assignment_PublicEndpoint right
  /\ Assignment_ServiceIDs left ≡ₚ Assignment_ServiceIDs right
  /\ (binding_key_of <$> Assignment_Bindings left) ≡ₚ (binding_key_of <$> Assignment_Bindings right).
Proof.
  intros H. unfold sameAssignmentPlacement in H. destruct (_ || _) eqn:E1 in H; [done|].
  destruct (negb _) eqn:E2 in H; [done|]. bool_facts.
  repeat match goal with Hx : (_ || _) = false |- _ => apply orb_false_iff in Hx as [? ?] end. bool_facts.
  unfold append_nil in *. cbn [app] in *.
  split_and!; try done.
  - apply (forallb_zip_fmap String.eqb id) in E2.
    + rewrite !list_fmap_id in E2. rewrite <- (sort_strings_perm (Assignment_ServiceIDs left)), E2. apply sort_strings_perm.
    + intros x y Hxy. by apply String.eqb_eq.
    + rewrite !(Permutation_length (sort_strings_perm _)). lia.
  - apply (forallb_zip_fmap same_binding binding_key_of) in H.
    + rewrite <- (sort_slice_perm (key_less binding_key_of) (Assignment_Bindings left)), H. by rewrite sort_slice_perm.
    + intros x y Hxy. unfold same_binding in Hxy. bool_facts.
      repeat match goal with Hx : (_ || _) = false |- _ => apply orb_false_iff in Hx as [? ?] end. bool_facts.
      unfold binding_key_of. match goal with Hp : Binding_Protocol _ = _, Hq : Binding_Port _ = _ |- _ => rewrite Hp, Hq end.
      by apply bindingKey_normalize.
    + rewrite !(Permutation_length (sort_slice_perm _ _)). lia.
Qed.
End Services.

(** ** Long identifiers *)

Lemma ValidateID_ends value path :
  ValidateID value path = Ok tt ->
  (exists c, head (bytes_of value) = Some c /\ solid c) /\ (exists c, last (bytes_of value) = Some c /\ solid c).
Proof.
  intros H. unfold ValidateID in H. apply bind_Ok in H as ([] & Ht & H). apply reject_if_Ok in Ht. bool_facts.
  rewrite Ht in H. apply bind_Ok in H as ([] & Hl & H). apply bind_Ok in H as ([] & Hc & H).
  rewrite check_each_iff in Hc. apply reject_if_Ok in Hl. bool_facts.
  assert (forall i c, bytes_of value !! i = Some c -> solid c \/ id_punct c = true) as Hch.
  { intros i c Hi. specialize (Hc i c Hi). apply reject_if_Ok in Hc. apply orb_false_iff in Hc as [Hc _].
    apply negb_false_iff in Hc. rewrite !orb_true_iff in Hc. destruct Hc as [[[Hc|Hc]|Hc]|Hc]; [by right | left ..];
      apply is_alnum_below; unfold is_alnum; rewrite Hc, ?orb_true_r; done. }
  destruct (last (bytes_of value)) as [d|] eqn:Hd; [| apply last_None in Hd; pose proof (length_bytes_of value) as L; rewrite Hd in L; cbn in L; lia].
  apply reject_if_Ok in H. split.
  - destruct (bytes_of value) as [|c l] eqn:E; [done|]. exists c. split; [done|].
    specialize (Hc 0%nat c eq_refl). apply reject_if_Ok in Hc. apply orb_false_iff in Hc as [_ Hc]. change (id_punct c = false) in Hc.
    destruct (Hch 0%nat c eq_refl); [done | congruence].
  - exists d. split; [done|]. rewrite last_lookup in Hd. destruct (Hch _ _ Hd); [done | congruence].
Qed.

(** [Schedule] names a new assignment by the agent and gateway ids joined with a
    dash; valid ids whose lengths add up to more than 127 bytes give a name that
    [ValidateID] refuses. *)
Lemma long_ids_give_invalid_assignment agent gateway path1 path2 path3 :
  ValidateID agent path1 = Ok tt -> ValidateID gateway path2 = Ok tt -> slen agent + slen gateway > 127 ->
  ValidateID (agent +:+ "-" +:+ gateway) path3
  = Err (EApply "invalid_id" path3 (TLit "id must contain 1 to 128 characters")).
Proof.
  intros Ha%ValidateID_ends Hg%ValidateID_ends Hlen.
  destruct Ha as [(c & Hc & Hcs) _], Hg as [_ (d & Hd & Hds)].
  assert (bytes_of (agent +:+ "-" +:+ gateway) = bytes_of agent ++ "-"%char :: bytes_of gateway) as Hb
    by (by rewrite !bytes_of_app).
  assert (strings.TrimSpace (agent +:+ "-" +:+ gateway) = agent +:+ "-" +:+ gateway) as Ht.
  { apply (TrimSpace_solid _ c d); try done; rewrite Hb.
    - by destruct (bytes_of agent).
    - rewrite last_app_cons. by destruct (bytes_of gateway). }
  assert (slen (agent +:+ "-" +:+ gateway) = slen agent + 1 + slen gateway) as Hl.
  { rewrite <- !length_bytes_of, Hb, length_app. cbn [List.length]. lia. }
  unfold ValidateID. rewrite Ht, String.eqb_refl, Hl. cbn [negb reject_if mbind result_bind].
  rewrite Z.gtb_ltb. replace (128 <? slen agent + 1 + slen gateway) with true by lia. by rewrite orb_true_r.
Qed.

(** ** A concrete request *)
#[local] Existing Instances go_order insertion_slice_sort toy_crypto ascii_unicode.
Definition sample_node (id kind : string) : Node := MkNode id kind id None true CertificateActive "" 1 0 0.
Definition sample_agent_spec : AgentSpec :=
  MkAgentSpec "agent-1" "" (MkSelector None) [] [] (MkAgentLimits 0 0 0) default_Egress (MkLoggingPolicy "" "") 1.
Definition sample_request : ScheduleRequest :=
  MkRequest (sample_node "agent-1" "agent") sample_agent_spec [sample_service "api" 0; sample_service "web" 20001] None 2.
Definition sample_candidate (id : string) (assignments : list Assignment) : GatewayCandidate :=
  MkCandidate (sample_node id "gateway") sample_gateway true assignments {["tcp|0.0.0.0|443"]}.

(** The first gateway already carries an assignment, so the second is preferred. *)
Definition sample_candidates : list GatewayCandidate :=
  [sample_candidate "gw-1" [sample_assignment "asg-1" ["x"] [MkBinding "x" "tcp" "0.0.0.0" 20000]]; sample_candidate "gw-2" []].

Definition sample_placement : Assignment :=
  MkAssignment "agent-1-gw-2" "gw-2" "agent-1" ["api"; "web"]
    [MkBinding "api" "tcp" "0.0.0.0" 20000; MkBinding "web" "tcp" "0.0.0.0" 20001] 2 AssignmentPending
    "gw.example.org:443" default_Obfuscation 0 77.

Definition run_schedule := Schedule sample_request 77 sample_candidates.

Example schedule_runs : run_schedule = Ok sample_placement.
Proof. vm_compute. reflexivity. Qed.

Lemma Schedule_sound_witness :
  exists c, c ∈ sample_candidates /\ Assignment_GatewayID sample_placement = Node_ID (Candidate_Node c).
Proof.
  assert (H : run_schedule = Ok sample_placement) by (vm_compute; reflexivity).
  destruct (Schedule_sound sample_request 77 sample_candidates sample_placement H)
    as (r & c & _ & Hin & _ & _ & (Hg & _) & _).
  exists c. split; [exact Hin | exact Hg].
Defined.

Lemma Schedule_best_witness :
  exists request' c, prepare_request sample_request = Ok request'
    /\ c ∈ sample_candidates
    /\ try_candidate request' 77 c = Ok (Placed sample_placement).
Proof.
  assert (H : run_schedule = Ok sample_placement) by (vm_compute; reflexivity).
  assert (Hp : prepare_request sample_request = Ok sample_request)
    by (vm_compute; reflexivity).
  destruct (Schedule_best sample_request sample_request 77 sample_candidates
              sample_placement H Hp) as (c & Hin & Hc & _).
  exists sample_request, c. split; [exact Hp | split; [exact Hin | exact Hc]].
Defined.

Lemma Schedule_complete_witness : exists a, run_schedule = Ok a.
Proof.
  apply (Schedule_complete sample_request sample_request 77 sample_candidates
           (sample_candidate "gw-2" []) sample_placement).
  - vm_compute. reflexivity.
  - repeat constructor; vm_compute; reflexivity.
  - right. left.
  - vm_compute. reflexivity.
Defined.

Lemma sameAssignmentPlacement_sound_witness :
  let other := MkAssignment "agent-1-gw-2" "gw-2" "agent-1" ["web"; "api"]
    [MkBinding "web" "tcp" "::ffff:0.0.0.0" 20001; MkBinding "api" "tcp" "0.0.0.0" 20000] 9 AssignmentApplied
    "gw.example.org:443" default_Obfuscation 4 0 in
  Assignment_ServiceIDs sample_placement ≡ₚ Assignment_ServiceIDs other.
Proof.
  intros other.
  assert (H : @sameAssignmentPlacement insertion_slice_sort sample_placement other = true) by (vm_compute; reflexivity).
  exact (proj1 (proj2 (proj2 (proj2 (proj2 (@sameAssignmentPlacement_sound insertion_slice_sort sample_placement other H)))))).
Defined.
