(* ===== verification/Reconcile.v ===== *)
(** * Scheduling and reconciliation (src/internal/controller: scheduler.go,
    scheduler_reconcile.go, scheduler_placement.go)

    The orchestration around [Schedule].  The persistence port
    [SchedulingRepository] is the class [Repository] over an abstract state [R]:
    every call may change [R], because other controllers work on the same
    database.  The metrics hooks, which only observe the result, are left out, and so
    is the partial result that [ReconcilePendingServices] returns beside an error. *)
From S2P Require Import Prelude GoStd GoNet Effects Domain Checksum Validation Snapshot Placement.

(** ** Errors of the database layer *)
Definition ErrNoRows := EExternal "sql.ErrNoRows".
Definition ErrRevisionConflict := EExternal "RevisionConflictError".
Definition ErrStorageFailure : error := ENew "controller storage failure".

(** The innermost error of a chain of [%w]. *)
Fixpoint root_error (e : error) : error := match e with EWrap _ _ inner => root_error inner | _ => e end.

Definition is_external (origin : string) (e : error) : bool :=
  match root_error e with EExternal o => String.eqb o origin | _ => false end.

(** [errors.Is(err, sql.ErrNoRows)], [IsRevisionConflict], [errors.As(err, &conflict)]. *)
Definition is_no_rows := is_external "sql.ErrNoRows".
Definition IsRevisionConflict := is_external "RevisionConflictError".
Definition is_port_conflict (e : error) : bool :=
  match root_error e with EPortConflict _ _ _ _ => true | _ => false end.
Definition is_no_healthy_gateway (e : error) : bool :=
  error_is e "no healthy gateway satisfies the fixed binding, selector, and capacity constraints".

(** ** The persistence port *)
Record WriteOptions := MkWriteOptions { IfMatch : Z; IdempotencyKey : string; Actor : string }.
Definition no_options := MkWriteOptions 0 "" "".
Definition system_options := MkWriteOptions 0 "" "system".

Record SnapshotRecord := MkSnapshotRecord {
  Record_NodeID : string; Record_Generation : Z; Record_Checksum : string; Record_Document : string; Record_CreatedAt : Z
}.

Class Repository (R : Type) := {
  GetNode : string -> M R Node;
  GetNodeSpec : string -> M R NodeSpec;
  ListNodes : string -> M R (list Node);
  ListServices : string -> M R (list Service);
  ListAssignments : string -> string -> M R (list Assignment);
  GetAssignment : string -> M R Assignment;
  GetObserved : string -> M R ObservedState;
  LoadSnapshot : string -> M R SnapshotRecord;
  EnsureDesiredSnapshot : string -> M R SnapshotRecord;
  UpdateAssignmentState : string -> string -> WriteOptions -> M R Assignment;
  PutAssignment : Assignment -> WriteOptions -> M R unit;
  LoadGatewayCandidates : M R (list GatewayCandidate);
  AllocateAssignmentID : Assignment -> M R string;
  (* the clock and the context *)
  Now : M R Z;
  ContextErr : M R (option error)
}.

Definition max_uint64 : Z := 2 ^ 64 - 1.
Definition maxScheduleAttempts : nat := 2.
Definition DefaultGatewayOfflineAfter : Z := 30 * 1000000000.

Definition validateIdempotencyKey (key : string) : result unit :=
  reject_if ((slen key >? 128) || strings.ContainsAny key nul_cr_lf) (ENew "idempotency key is invalid").

Definition servicesForAssignment (assignment : Assignment) (serviceByID : gmap string Service) : list Service :=
  let services := foldl (fun services serviceID =>
      match serviceByID !! serviceID with Some service => services ++ [service] | None => services end)
    [] (Assignment_ServiceIDs assignment) in
  sort_stable (key_less Service_ID) services.

Definition services_by_id (services : list Service) : gmap string Service :=
  foldl (fun m service => <[Service_ID service := service]> m) ∅ services.

Section Scheduler.
Context `{!MapOrder, !SliceSort, !Crypto, !Unicode, !DocumentJSON} `{Repository R}.

Definition scopedScheduleWriteOptions (options : WriteOptions) (assignmentID : string) : WriteOptions :=
  let key := strings.TrimSpace (IdempotencyKey options) in
  if String.eqb key "" then options
  else MkWriteOptions (IfMatch options)
         ("schedule-" +:+ hex_encode (sha256 (bytes_of key ++ "000"%char :: bytes_of assignmentID))) (Actor options).

(** An [EnsureDesiredSnapshot] whose missing row is ignored. *)
Definition ensure_snapshot (id : string) : M R unit :=
  r ← try (EnsureDesiredSnapshot id);
  match r with
  | Ok _ => mret tt
  | Err e => if is_no_rows e then mret tt else fail e
  end.

(** The generation of the next placement: one more than the agent's snapshot
    and than the current assignment. *)
Definition next_generation (previous : result SnapshotRecord) (existing : option Assignment) : result Z :=
  generation ← (match previous with
                | Ok record =>
                    _ ← reject_if (Record_Generation record =? max_uint64) (ENew "desired snapshot generation is exhausted");
                    Ok (Record_Generation record + 1)
                | Err e => if is_no_rows e then Ok 1 else Err e
                end);
  match existing with
  | Some e =>
      if Assignment_Generation e >=? generation then
        _ ← reject_if (Assignment_Generation e =? max_uint64) (ENew "assignment generation is exhausted");
        Ok (Assignment_Generation e + 1)
      else Ok generation
  | None => Ok generation
  end.

(** The existing assignment, when the new placement does not change it. *)
Definition unchanged (existing : option Assignment) (assignment : Assignment) : option Assignment :=
  match existing with
  | Some e => if negb (relinquished e) && sameAssignmentPlacement e assignment then Some e else None
  | None => None
  end.

Definition with_assignment_id (a : Assignment) (id : string) : Assignment :=
  MkAssignment id (Assignment_GatewayID a) (Assignment_AgentID a) (Assignment_ServiceIDs a) (Assignment_Bindings a)
    (Assignment_Generation a) (Assignment_State a) (Assignment_PublicEndpoint a) (Assignment_Obfuscation a)
    (Assignment_Revision a) (Assignment_UpdatedAt a).

Definition scheduleAgentAssignmentAttempt (agent : Node) (agentSpec : AgentSpec) (services : list Service)
    (existing : option Assignment) (options : WriteOptions) : M R Assignment :=
  candidates ← LoadGatewayCandidates;
  previous ← try (LoadSnapshot (Node_ID agent));
  generation ← lift (next_generation previous existing);
  now ← Now;
  assignment ← lift (Schedule (MkRequest agent agentSpec services existing generation) now candidates);
  match unchanged existing assignment with
  | Some e =>
      _ ← ensure_snapshot (Assignment_GatewayID e);
      _ ← ensure_snapshot (Assignment_AgentID e);
      mret e
  | None =>
      '(assignment, writeOptions) ←
        (match existing with
         | Some e => mret (with_assignment_id assignment (Assignment_ID e),
                           MkWriteOptions (Assignment_Revision e) (IdempotencyKey options) (Actor options))
         | None =>
             id ← AllocateAssignmentID assignment;
             mret (with_assignment_id assignment id, MkWriteOptions 0 (IdempotencyKey options) (Actor options))
         end);
      _ ← PutAssignment assignment (scopedScheduleWriteOptions writeOptions (Assignment_ID assignment));
      _ ← (match existing with
           | Some e => if negb (String.eqb (Assignment_GatewayID e) (Assignment_GatewayID assignment))
                       then ensure_snapshot (Assignment_GatewayID e) else mret tt
           | None => mret tt
           end);
      _ ← ensure_snapshot (Assignment_GatewayID assignment);
      _ ← ensure_snapshot (Assignment_AgentID assignment);
      GetAssignment (Assignment_ID assignment)
  end.

(** The retry loop; [remaining] counts the attempts left after this one. *)
Fixpoint schedule_attempts (remaining : nat) (first : bool) (agent : Node) (agentSpec : AgentSpec) (services : list Service)
    (existing : option Assignment) (options : WriteOptions) : M R Assignment :=
  attemptExisting ←
    (match existing with
     | Some e =>
         if first then mret (Some e) else
         refreshed ← try (GetAssignment (Assignment_ID e));
         match refreshed with
         | Ok refreshed => mret (Some refreshed)
         | Err err => if is_no_rows err then mret None else fail err
         end
     | None => mret None
     end);
  r ← try (scheduleAgentAssignmentAttempt agent agentSpec services attemptExisting options);
  match r with
  | Ok assignment => mret assignment
  | Err err =>
      match remaining with
      | O => fail err
      | S remaining =>
          if negb (is_port_conflict err) then fail err else
          ctxErr ← ContextErr;
          match ctxErr with
          | Some e => fail e
          | None => schedule_attempts remaining false agent agentSpec services existing options
          end
      end
  end.

Definition scheduleAgentAssignment (agent : Node) (agentSpec : AgentSpec) (services : list Service)
    (existing : option Assignment) (options : WriteOptions) : M R Assignment :=
  schedule_attempts (maxScheduleAttempts - 1) true agent agentSpec services existing options.

(** The agent's typed configuration at the revision of its node spec. *)
Definition agent_spec_of (nodeSpec : NodeSpec) : result AgentSpec :=
  match NodeSpec_Agent nodeSpec with
  | Some a =>
      if String.eqb (NodeSpec_Kind nodeSpec) NodeSpecAgent then
        Ok (MkAgentSpec (Agent_NodeID a) (Agent_GatewayID a) (Agent_GatewaySelector a) (Agent_Proxies a) (Agent_Routes a)
              (Agent_Limits a) (Agent_Egress a) (Agent_Logging a) (NodeSpec_Revision nodeSpec))
      else Err (ENew "node is not configured as an agent")
  | None => Err (ENew "node is not configured as an agent")
  end.

(** The targets of [ScheduleAgent]: the current assignments with the enabled
    services they still have, then the services of no assignment. *)
Definition schedule_targets (services : list Service) (currentAssignments : list Assignment)
    : list (option Assignment * list Service) :=
  let serviceByID := services_by_id services in
  let '(targets, assigned) :=
    foldl (fun '(targets, assigned) current =>
        let candidateServices := servicesForAssignment current serviceByID in
        if llen candidateServices =? 0 then (targets, assigned)
        else (targets ++ [(Some current, candidateServices)],
              foldl (fun assigned service => {[Service_ID service]} ∪ assigned) assigned candidateServices))
      ([], ∅ : gset string) currentAssignments in
  let unassigned := foldl (fun unassigned service =>
      if bool_decide (Service_ID service ∈ assigned) then unassigned else unassigned ++ [service]) [] services in
  if llen unassigned >? 0 then targets ++ [(None, unassigned)] else targets.

Definition ScheduleAgent (agentID : string) (options : WriteOptions) : M R (list Assignment) :=
  _ ← lift (validateIdempotencyKey (strings.TrimSpace (IdempotencyKey options)));
  agent ← GetNode agentID;
  _ ← lift (reject_if (negb (Node_Enabled agent)) (ENew "agent is disabled"));
  nodeSpec ← GetNodeSpec agentID;
  agentSpec ← lift (agent_spec_of nodeSpec);
  services ← ListServices agentID;
  let services := filterEnabledServices services in
  _ ← lift (reject_if (llen services =? 0) (ENew "agent has no services to schedule"));
  currentAssignments ← ListAssignments "" agentID;
  _ ← for_each_m (fun '(existing, services) (_ : unit) =>
        _ ← scheduleAgentAssignment agent agentSpec services existing options; mret tt)
        (schedule_targets services currentAssignments) tt;
  ListAssignments "" agentID.

Definition scheduleExistingAssignment (existing : Assignment) (options : WriteOptions) : M R Assignment :=
  agent ← GetNode (Assignment_AgentID existing);
  nodeSpec ← GetNodeSpec (Assignment_AgentID existing);
  agentSpec ← lift (agent_spec_of nodeSpec);
  services ← ListServices (Assignment_AgentID existing);
  let selected := servicesForAssignment existing (services_by_id (filterEnabledServices services)) in
  _ ← lift (reject_if (llen selected =? 0) (ENew "assignment has no enabled services to schedule"));
  scheduleAgentAssignment agent agentSpec selected (Some existing) options.

(** One agent of [ReconcileAssignmentsForAgents]; the state is the set of agents
    seen and the result so far. *)
Definition reconcile_agent (agentID : string) (st : gset string * list Assignment) : M R (gset string * list Assignment) :=
  let '(seen, result) := st in
  let agentID := strings.TrimSpace agentID in
  if String.eqb agentID "" then mret (seen, result)
  else if bool_decide (agentID ∈ seen) then mret (seen, result)
  else
    let seen := {[agentID]} ∪ seen in
    node ← try (GetNode agentID);
    match node with
    | Err err => if is_no_rows err then mret (seen, result) else fail err
    | Ok node =>
        nodeSpec ← try (GetNodeSpec agentID);
        match nodeSpec with
        | Err err => if is_no_rows err then mret (seen, result) else fail err
        | Ok nodeSpec =>
            if negb (String.eqb (NodeSpec_Kind nodeSpec) NodeSpecAgent) || negb (Node_Enabled node)
            then mret (seen, result) else
            services ← ListServices agentID;
            if llen (filterEnabledServices services) =? 0 then mret (seen, result) else
            assignments ← try (ScheduleAgent agentID system_options);
            match assignments with
            | Ok assignments => mret (seen, result ++ assignments)
            | Err err => if is_no_healthy_gateway err then mret (seen, result) else fail err
            end
        end
    end.

Definition ReconcileAssignmentsForAgents (agentIDs : list string) : M R (list Assignment) :=
  '(_, result) ← for_each_m reconcile_agent agentIDs (∅, []);
  mret result.

Definition ReconcilePendingServices : M R (list Assignment) :=
  nodes ← ListNodes NodeSpecAgent;
  for_each_m (fun node result =>
      if negb (Node_Enabled node) then mret result else
      assignments ← ReconcileAssignmentsForAgents [Node_ID node];
      mret (result ++ assignments)) nodes [].

(** ** Failover *)
Definition node_unavailable (gateway : Node) : bool := negb (Node_Enabled gateway) || certificate_unusable gateway.

(** Whether the gateway of an assignment has stopped serving it; [None] skips
    the assignment. *)
Definition gateway_stale (gateway : Node) (observed : result ObservedState) (now offlineAfter : Z) : result (option bool) :=
  let judge o := node_unavailable gateway || Observed_Degraded o || negb (Observed_Healthy o)
                 || is_zero_time (Observed_ObservedAt o) || (time_sub now (Observed_ObservedAt o) >=? offlineAfter) in
  match observed with
  | Ok o => Ok (Some (judge o))
  | Err err =>
      if is_no_rows err then
        if Node_Enabled gateway && negb (certificate_unusable gateway) then Ok None
        else Ok (Some (judge (MkObservedState 0 "" 0 false true None [] [] default_Metrics None 0)))
      else Err err
  end.

(** The degraded mark and its two snapshots; [None] when another writer was
    first. *)
Definition degrade (assignment : Assignment) : M R (option Assignment) :=
  if String.eqb (Assignment_State assignment) AssignmentDegraded then mret (Some assignment) else
  updated ← try (UpdateAssignmentState (Assignment_ID assignment) AssignmentDegraded
                   (MkWriteOptions (Assignment_Revision assignment) "" "system"));
  match updated with
  | Err err => if IsRevisionConflict err then mret None else fail err
  | Ok assignment =>
      _ ← ensure_snapshot (Assignment_GatewayID assignment);
      _ ← ensure_snapshot (Assignment_AgentID assignment);
      mret (Some assignment)
  end.

Definition reconcile_assignment (now offlineAfter : Z) (assignment : Assignment) (result : list Assignment)
    : M R (list Assignment) :=
  if String.eqb (Assignment_State assignment) AssignmentDraining then mret result else
  gateway ← try (GetNode (Assignment_GatewayID assignment));
  match gateway with
  | Err err => if is_no_rows err then mret result else fail err
  | Ok gateway =>
      observed ← try (GetObserved (Assignment_GatewayID assignment));
      stale ← lift (gateway_stale gateway observed now offlineAfter);
      match stale with
      | None | Some false => mret result
      | Some true =>
          degraded ← degrade assignment;
          match degraded with
          | None => mret result
          | Some assignment =>
              failedOver ← try (scheduleExistingAssignment assignment system_options);
              match failedOver with
              | Ok a => mret (result ++ [a])
              | Err _ => mret result
              end
          end
      end
  end.

Definition reconcileAssignmentSet (assignments : list Assignment) (offlineAfter : Z) : M R (list Assignment) :=
  now ← Now;
  for_each_m (reconcile_assignment now offlineAfter) assignments [].

Definition offline_after (offlineAfter : Z) : Z := if offlineAfter <=? 0 then DefaultGatewayOfflineAfter else offlineAfter.

Definition ReconcileAssignments (offlineAfter : Z) : M R (list Assignment) :=
  assignments ← ListAssignments "" "";
  reconcileAssignmentSet assignments (offline_after offlineAfter).

Definition ReconcileAssignmentsForGateways (offlineAfter : Z) (gatewayIDs : list string) : M R (list Assignment) :=
  '(_, assignments) ← for_each_m (fun gatewayID '(seen, assignments) =>
      let gatewayID := strings.TrimSpace gatewayID in
      if String.eqb gatewayID "" then mret (seen, assignments)
      else if bool_decide (gatewayID ∈ seen) then mret (seen, assignments)
      else items ← ListAssignments gatewayID ""; mret ({[gatewayID]} ∪ seen, assignments ++ items))
    gatewayIDs ((∅ : gset string), []);
  reconcileAssignmentSet assignments (offline_after offlineAfter).
End Scheduler.
