(* ===== verification/Candidates.v ===== *)
(** * Candidates and assignment ids (src/internal/controller/scheduler_placement.go)

    The two operations of the scheduling port that the resource repository
    computes from its tables.  The queries are the class [Database] over an
    abstract state: each may fail and may change the state, because other writers
    are at work between two queries. *)
From S2P Require Import Prelude GoStd GoNet Effects Domain Checksum Validation Snapshot Placement Reconcile.

Class Database (R : Type) := {
  db_ListNodes : string -> M R (list Node);
  loadGatewaySpecsBatch : list Node -> M R (gmap string NodeSpec);
  loadGatewayAssignmentsBatch : list Node -> M R (gmap string (list Assignment));
  loadGatewayObservedBatch : list Node -> M R (gmap string ObservedState);
  (* SELECT 1 FROM assignments WHERE id=?: an error that is sql.ErrNoRows when
     there is no such row *)
  assignment_row : string -> M R unit;
  (* the clock of [time.Since] *)
  db_Now : M R Z
}.

Section Candidates.
Context `{Database R}.

(** ** LoadGatewayCandidates *)
Definition eligible_gateways (nodes : list Node) : list Node :=
  foldl (fun eligible gateway =>
      if Node_Enabled gateway && negb (certificate_unusable gateway) then eligible ++ [gateway] else eligible) [] nodes.

(** The binding keys held by the gateway's listeners and by its assignments that
    have not given theirs up. *)
Definition used_bindings (spec : GatewaySpec) (gatewayAssignments : list Assignment) : gset string :=
  let used := foldl (fun used l => {[bindingKey (Listener_Protocol l) (Listener_Bind l) (Listener_Port l)]} ∪ used)
                ∅ (Gateway_Listeners spec) in
  foldl (fun used a => if relinquished a then used
                       else foldl (fun used b => {[binding_key_of b]} ∪ used) used (Assignment_Bindings a))
    used gatewayAssignments.

(** [time.Since] is only called when the other conditions leave the answer open. *)
Definition candidate_healthy (state : option ObservedState) : M R bool :=
  match state with
  | None => mret true
  | Some state =>
      if negb (Observed_Healthy state) || Observed_Degraded state then mret false
      else if is_zero_time (Observed_ObservedAt state) then mret true
      else now ← db_Now; mret (time_sub now (Observed_ObservedAt state) <? DefaultGatewayOfflineAfter)
  end.

(** The gateway's specification at the revision of its node spec. *)
Definition gateway_spec_of (nodeSpec : option NodeSpec) : option GatewaySpec :=
  nodeSpec ← nodeSpec;
  g ← NodeSpec_Gateway nodeSpec;
  if String.eqb (NodeSpec_Kind nodeSpec) NodeSpecGateway then
    Some (MkGatewaySpec (Gateway_NodeID g) (Gateway_PublicEndpoints g) (Gateway_Listeners g) (Gateway_Labels g)
            (Gateway_Capacity g) (Gateway_PortPool g) (Gateway_Transport g) (Gateway_Obfuscation g) (Gateway_Egress g)
            (NodeSpec_Revision nodeSpec))
  else None.

Definition load_candidate (specs : gmap string NodeSpec) (assignments : gmap string (list Assignment))
    (observed : gmap string ObservedState) (gateway : Node) (candidates : list GatewayCandidate) : M R (list GatewayCandidate) :=
  match gateway_spec_of (specs !! Node_ID gateway) with
  | None => mret candidates
  | Some spec =>
      let gatewayAssignments := default [] (assignments !! Node_ID gateway) in
      let used := used_bindings spec gatewayAssignments in
      healthy ← candidate_healthy (observed !! Node_ID gateway);
      mret (candidates ++ [MkCandidate gateway spec healthy gatewayAssignments used])
  end.

Definition LoadGatewayCandidates : M R (list GatewayCandidate) :=
  nodes ← db_ListNodes NodeSpecGateway;
  let eligible := eligible_gateways nodes in
  if llen eligible =? 0 then mret [] else
  specs ← loadGatewaySpecsBatch eligible;
  assignments ← loadGatewayAssignmentsBatch eligible;
  observed ← loadGatewayObservedBatch eligible;
  for_each_m (load_candidate specs assignments observed) eligible [].

(** ** AllocateAssignmentID *)
(** [strings.Join(values, "\x00")]. *)
Fixpoint join_nul (values : list string) : list ascii :=
  match values with
  | [] => []
  | [v] => bytes_of v
  | v :: values => bytes_of v ++ "000"%char :: join_nul values
  end.

(** [for suffix := 6; suffix <= n; suffix += 2]. *)
Definition suffix_lengths (n : nat) : list nat :=
  List.filter (fun suffix => (suffix <=? n)%nat) ((fun i => 6 + 2 * i)%nat <$> seq 0 n).

Definition suffixed_id (base : string) (digest : list ascii) (suffix : nat) : string :=
  let hexSuffix := hex_encode (firstn suffix digest) in
  let maxBaseLength := 128 - 1 - slen hexSuffix in
  let candidateBase := if slen base >? maxBaseLength then strings.take (Z.to_nat maxBaseLength) base else base in
  candidateBase +:+ "-" +:+ hexSuffix.

Fixpoint try_suffixes (base : string) (digest : list ascii) (suffixes : list nat) : M R string :=
  match suffixes with
  | [] => fail (ENew "could not allocate a unique assignment id")
  | suffix :: suffixes =>
      let candidate := suffixed_id base digest suffix in
      _ ← lift (ValidateID candidate (TLit "assignment.id"));
      row ← try (assignment_row candidate);
      match row with
      | Ok _ => try_suffixes base digest suffixes
      | Err err => if is_no_rows err then mret candidate else fail err
      end
  end.

Definition AllocateAssignmentID `{!Crypto} (assignment : Assignment) : M R string :=
  let base := Assignment_ID assignment in
  _ ← lift (ValidateID base (TLit "assignment.id"));
  row ← try (assignment_row base);
  match row with
  | Err err => if is_no_rows err then mret base else fail err
  | Ok _ =>
      let serviceIDs := sort_strings (append_nil (Assignment_ServiceIDs assignment)) in
      let digest := sha256 (join_nul serviceIDs) in
      try_suffixes base digest (suffix_lengths (List.length digest))
  end.
End Candidates.
