(* ===== verification/CandidatesFacts.v ===== *)
(** * Candidates are up to date and assignment ids are fresh

    The candidates that the repository loads carry every endpoint that listeners
    and live assignments hold, so a placement on them collides with none; an
    allocated id is valid and was unused when it was chosen. *)
From S2P Require Import Prelude GoStd GoNet Effects Domain Checksum Validation Snapshot Samples SnapshotFacts Placement PlacementFacts.
From S2P Require Import Reconcile Candidates.

(** ** Allocated ids *)
Lemma suffix_lengths_range n suffix : suffix ∈ suffix_lengths n -> (6 <= suffix <= n)%nat.
Proof.
  unfold suffix_lengths. intros H. apply list_elem_of_In, filter_In in H as [H Hle%Nat.leb_le]. split; [| done].
  apply list_elem_of_In, list_elem_of_fmap in H as (i & -> & _). lia.
Qed.

(** The first part of a valid id followed by a dash and a suffix of the digest. *)
Lemma suffixed_id_valid base digest suffix :
  valid_id base -> (6 <= suffix <= 32)%nat -> List.length digest = 32%nat -> valid_id (suffixed_id base digest suffix).
Proof.
  intros (Hlen & Hall & (h & Hh & Hha) & _) Hs Hd. unfold suffixed_id. set (hex := hex_encode (firstn suffix digest)).
  assert (Hhex : List.length (bytes_of hex) = (2 * suffix)%nat) by (unfold hex; rewrite hex_encode_length, length_firstn; lia).
  assert (slen hex = 2 * Z.of_nat suffix) as Hsl by (rewrite slen_bytes, Hhex; lia). rewrite Hsl.
  match goal with |- context [if ?c then ?a else base] => set (part := if c then a else base) end.
  assert (exists n, (1 <= n)%nat /\ Z.of_nat n <= 127 - 2 * Z.of_nat suffix /\ bytes_of part = firstn n (bytes_of base)
            /\ List.length (bytes_of part) = n) as (n & Hn1 & Hn2 & Hpart & Hpl).
  { unfold part. destruct (slen base >? 128 - 1 - 2 * Z.of_nat suffix) eqn:E; bool_facts; rewrite slen_bytes in *.
    - exists (Z.to_nat (128 - 1 - 2 * Z.of_nat suffix)). unfold strings.take. rewrite bytes_of_of_bytes, length_firstn. split_and!; try done; lia.
    - exists (List.length (bytes_of base)). rewrite firstn_all. split_and!; try done; lia. }
  assert (Hb : bytes_of (part +:+ "-" +:+ hex) = bytes_of part ++ "-"%char :: bytes_of hex) by (by rewrite !bytes_of_app).
  pose proof (hex_encode_alnum (firstn suffix digest)) as Hhexa. fold hex in Hhexa.
  unfold valid_id. rewrite slen_bytes, Hb, length_app. cbn [List.length]. rewrite Hpl, Hhex. split_and!; [lia | lia | | |].
  - apply Forall_app. split; [rewrite Hpart; by apply Forall_take|]. constructor; [by right|]. eapply Forall_impl; [exact Hhexa | by left].
  - exists h. split; [| done]. rewrite Hpart. destruct (bytes_of base); [done|]. by destruct n; [lia|].
  - rewrite last_app_cons. destruct (last (bytes_of hex)) as [c|] eqn:El; [| apply last_None in El; rewrite El in Hhex; cbn in Hhex; lia].
    exists c. split; [by destruct (bytes_of hex)|]. rewrite Forall_forall in Hhexa. apply Hhexa.
    rewrite last_lookup in El. by eapply list_elem_of_lookup_2.
Qed.

Section Allocation.
Context `{CR : !Crypto} `{DB : Database R}.

(** The last query found no row for the id. *)
Definition unused (id : string) (s' : R) : Prop := exists s e, assignment_row id s = (s', Err e) /\ is_no_rows e = true.
(** The query for an id failed. *)
Definition query_failed (id : string) (s' : R) (e : error) : Prop := exists s, assignment_row id s = (s', Err e) /\ is_no_rows e = false.
(** Some query found a row for the id. *)
Definition taken (id : string) : Prop := exists s s', assignment_row id s = (s', Ok tt).

Lemma try_suffixes_spec base digest suffixes s s' r :
  valid_id base -> List.length digest = 32%nat -> (forall n, n ∈ suffixes -> (6 <= n <= 32)%nat) ->
  try_suffixes base digest suffixes s = (s', r) ->
  match r with
  | Ok id => unused id s' /\ exists n, n ∈ suffixes /\ id = suffixed_id base digest n
  | Err e => (exists n, n ∈ suffixes /\ query_failed (suffixed_id base digest n) s' e)
             \/ forall n, n ∈ suffixes -> taken (suffixed_id base digest n)
  end.
Proof.
  intros Hb Hd. revert s. induction suffixes as [|n suffixes IH]; intros s Hr H; cbn [try_suffixes] in H.
  { injection H as _ <-. right. by intros n Hn%elem_of_nil. }
  assert (ValidateID (suffixed_id base digest n) (TLit "assignment.id") = Ok tt) as Hv.
  { apply ValidateID_iff, suffixed_id_valid; [done | apply Hr; left | done]. }
  cbv [mbind M_bind lift try mret M_ret fail] in H. rewrite Hv in H.
  destruct (assignment_row (suffixed_id base digest n) s) as [s1 [[]|e]] eqn:E.
  - assert (forall m, m ∈ suffixes -> (6 <= m <= 32)%nat) as Hr' by (intros m Hm; apply Hr; by right).
    specialize (IH s1 Hr' H). destruct r as [id|e].
    + destruct IH as (Hu & m & Hm & ->). split; [done|]. exists m. split; [by right | done].
    + destruct IH as [(m & Hm & Hq)|Ht]; [left; exists m; split; [by right | done]|]. right.
      intros m [->|Hm]%elem_of_cons; [by exists s, s1 | by apply Ht].
  - destruct (is_no_rows e) eqn:En; injection H as <- <-.
    + split; [by exists s, e|]. exists n. split; [left | done].
    + left. exists n. split; [left | by exists s].
Qed.

(** The names that are tried after the assignment's own. *)
Definition suffixed_name (a : Assignment) (n : nat) : string :=
  suffixed_id (Assignment_ID a) (sha256 (join_nul (sort_strings (Assignment_ServiceIDs a)))) n.

(** An allocated id is a valid id that had no row when it was chosen: the
    assignment's own, or, when that is taken, the same shortened and followed by
    part of the digest of its services; allocation fails only on an invalid name,
    a failed query, or when every such name is taken. *)
Theorem AllocateAssignmentID_spec a s :
  let '(s', r) := AllocateAssignmentID a s in
  match r with
  | Ok id => valid_id id /\ unused id s'
             /\ (id = Assignment_ID a \/ taken (Assignment_ID a) /\ exists n, n ∈ suffix_lengths 32 /\ id = suffixed_name a n)
  | Err e => (s' = s /\ ValidateID (Assignment_ID a) (TLit "assignment.id") = Err e)
             \/ (exists id, query_failed id s' e)
             \/ (taken (Assignment_ID a) /\ forall n, n ∈ suffix_lengths 32 -> taken (suffixed_name a n))
  end.
Proof.
  destruct (AllocateAssignmentID a s) as [s' r] eqn:H. unfold AllocateAssignmentID in H. cbv [mbind M_bind lift try mret M_ret fail] in H.
  destruct (ValidateID (Assignment_ID a) (TLit "assignment.id")) as [[]|e] eqn:Hv; [| injection H as <- <-; by left].
  assert (valid_id (Assignment_ID a)) as Hid by by eapply ValidateID_iff.
  destruct (assignment_row (Assignment_ID a) s) as [s1 [[]|e]] eqn:E.
  2:{ destruct (is_no_rows e) eqn:En; injection H as <- <-; [split_and!; [done | by exists s, e | by left]|].
      right. left. exists (Assignment_ID a). by exists s. }
  assert (taken (Assignment_ID a)) as Ht by (by exists s, s1).
  assert (Hr : forall n, n ∈ suffix_lengths 32 -> (6 <= n <= 32)%nat) by (intros n; apply suffix_lengths_range).
  change (append_nil (Assignment_ServiceIDs a)) with (Assignment_ServiceIDs a) in H. rewrite sha256_length in H.
  apply try_suffixes_spec in H; [| done | apply sha256_length | done]. destruct r as [id|e].
  - destruct H as (Hu & n & Hn & ->). split_and!; [| done | right; split; [done | by exists n]].
    apply suffixed_id_valid; [done | by apply Hr | apply sha256_length].
  - right. destruct H as [(n & _ & Hq)|Hall]; [left; by eexists | by right].
Qed.

(** The first assignment of an agent on a gateway is named by their
    ids joined with a dash; when the two valid ids have more than 127 bytes
    together, allocating an id for it fails before any query, so the agent can
    never be placed on that gateway, although the ids are shortened when the
    name is merely taken. *)
Theorem long_ids_never_assigned agent gateway a s :
  valid_id agent -> valid_id gateway -> slen agent + slen gateway > 127 ->
  Assignment_ID a = agent +:+ "-" +:+ gateway ->
  AllocateAssignmentID a s = (s, Err (EApply "invalid_id" (TLit "assignment.id") (TLit "id must contain 1 to 128 characters"))).
Proof.
  intros Ha Hg Hlen Hid. unfold AllocateAssignmentID. cbv [mbind M_bind lift]. rewrite Hid.
  rewrite (long_ids_give_invalid_assignment agent gateway (TLit "") (TLit "")); [done | by apply ValidateID_iff.. | done].
Qed.
End Allocation.

(** ** Loaded candidates *)
Section Loading.
Context `{DB : Database R}.

(** The endpoint keys a gateway's listeners and live assignments hold. *)
Definition held_keys (spec : GatewaySpec) (assignments : list Assignment) (k : string) : Prop :=
  (exists l, l ∈ Gateway_Listeners spec /\ k = bindingKey (Listener_Protocol l) (Listener_Bind l) (Listener_Port l))
  \/ exists a b, a ∈ assignments /\ relinquished a = false /\ b ∈ Assignment_Bindings a /\ k = binding_key_of b.

Lemma elem_of_foldl_keys {A} (key : A -> string) xs (used : gset string) k :
  k ∈ foldl (fun used x => {[key x]} ∪ used) used xs <-> k ∈ used \/ exists x, x ∈ xs /\ k = key x.
Proof.
  revert used. induction xs as [|x xs IH]; intros used; cbn [foldl].
  { split; [by left | by intros [?|(? & ?%elem_of_nil & _)]]. }
  rewrite IH, elem_of_union, elem_of_singleton. setoid_rewrite elem_of_cons. split.
  - intros [[->|Hk]|(y & Hy & ->)]; [right; by exists x; auto | by left | right; by exists y; auto].
  - intros [Hk|(y & [->|Hy] & ->)]; [by auto | by auto | right; by exists y].
Qed.

Lemma used_bindings_spec spec assignments k : k ∈ used_bindings spec assignments <-> held_keys spec assignments k.
Proof.
  unfold used_bindings, held_keys. set (base := foldl _ ∅ _).
  assert (forall (used : gset string), k ∈ foldl (fun used a => if relinquished a then used
                       else foldl (fun used b => {[binding_key_of b]} ∪ used) used (Assignment_Bindings a)) used assignments
    <-> k ∈ used \/ exists a b, a ∈ assignments /\ relinquished a = false /\ b ∈ Assignment_Bindings a /\ k = binding_key_of b) as ->.
  { induction assignments as [|a assignments IH]; intros used; cbn [foldl].
    { split; [by left | by intros [?|(? & ? & ?%elem_of_nil & _)]]. }
    rewrite IH. setoid_rewrite elem_of_cons. destruct (relinquished a) eqn:Er.
    - split; [intros [?|(x & b & ? & ?)]; [by left | right; by exists x, b; auto]|].
      intros [?|(x & b & [->|?] & Hx & ?)]; [by left | congruence | right; by exists x, b].
    - rewrite elem_of_foldl_keys. split.
      + intros [[?|(b & ? & ->)]|(x & b & ? & ? & ? & ->)]; [by left | right; exists a, b; auto | right; exists x, b; auto].
      + intros [?|(x & b & [->|?] & ? & ? & ->)]; [by auto | left; right; by exists b | right; by exists x, b]. }
  unfold base. rewrite (elem_of_foldl_keys (fun l => bindingKey (Listener_Protocol l) (Listener_Bind l) (Listener_Port l))).
  split; [intros [[[]%elem_of_empty|?]|?]; by auto | intros [?|?]; by auto].
Qed.

Definition candidate_ok (c : GatewayCandidate) : Prop :=
  Node_Enabled (Candidate_Node c) = true /\ certificate_unusable (Candidate_Node c) = false
  /\ forall k, k ∈ Candidate_UsedBindings c <-> held_keys (Candidate_Spec c) (Candidate_Assignments c) k.

Lemma eligible_gateways_spec nodes g :
  g ∈ eligible_gateways nodes <-> g ∈ nodes /\ Node_Enabled g = true /\ certificate_unusable g = false.
Proof.
  unfold eligible_gateways. enough (forall acc, g ∈ foldl (fun eligible gateway =>
      if Node_Enabled gateway && negb (certificate_unusable gateway) then eligible ++ [gateway] else eligible) acc nodes
    <-> g ∈ acc \/ g ∈ nodes /\ Node_Enabled g = true /\ certificate_unusable g = false) as ->.
  { rewrite elem_of_nil. tauto. }
  induction nodes as [|n nodes IH]; intros acc; cbn [foldl]; [rewrite elem_of_nil; tauto|].
  rewrite IH, elem_of_cons. destruct (Node_Enabled n) eqn:E1, (certificate_unusable n) eqn:E2; cbn [negb andb];
    rewrite ?elem_of_app, ?list_elem_of_singleton; intuition (subst; congruence || auto).
Qed.

Lemma LoadGatewayCandidates_ok s s' cs : LoadGatewayCandidates s = (s', Ok cs) -> Forall candidate_ok cs.
Proof.
  unfold LoadGatewayCandidates. intros H. apply M_bind_run in H as [(nodes & s1 & _ & H)|(e & _ & [=])].
  destruct (llen (eligible_gateways nodes) =? 0); [injection H as _ <-; constructor|].
  apply M_bind_run in H as [(specs & s2 & _ & H)|(e & _ & [=])].
  apply M_bind_run in H as [(assignments & s3 & _ & H)|(e & _ & [=])].
  apply M_bind_run in H as [(observed & s4 & _ & H)|(e & _ & [=])].
  eapply (for_each_m_inv (Forall candidate_ok)); [| constructor | exact H].
  intros g cs0 t t' cs1 (_ & Hen & Hcert)%eligible_gateways_spec Hcs Hb. unfold load_candidate in Hb.
  destruct (gateway_spec_of _) as [spec|]; [| injection Hb as _ <-; done].
  apply M_bind_run in Hb as [(healthy & t1 & _ & Hb)|(e & _ & [=])]. injection Hb as _ <-.
  apply Forall_app. split; [done|]. constructor; [| constructor]. split_and!; [done | done | apply used_bindings_spec].
Qed.
End Loading.

Section Placing.
Context `{MO : !MapOrder, SS : !SliceSort, CR : !Crypto, UN : !Unicode, DJ : !DocumentJSON} `{DB : Database R}.

Lemma occupied_fresh request c k :
  Request_Existing request = None -> k ∈ Candidate_UsedBindings c -> k ∈ occupied_bindings request c.
Proof.
  unfold occupied_bindings, own_existing. intros -> Hk. generalize dependent (Candidate_UsedBindings c).
  induction (Candidate_Assignments c) as [|a assignments IH]; intros used Hk; cbn [foldl]; [done|].
  apply IH. case_match; [done|]. apply elem_of_foldl_keys. by left.
Qed.

(** A new assignment that [Schedule] places on loaded candidates goes to an
    enabled gateway with a usable certificate, and none of its public bindings is
    an endpoint that a listener or a live assignment of that gateway holds,
    whatever the spelling of the addresses. *)
Theorem placement_avoids_held_endpoints request now s s' candidates a :
  LoadGatewayCandidates s = (s', Ok candidates) -> Schedule request now candidates = Ok a -> Request_Existing request = None ->
  exists c, c ∈ candidates /\ Assignment_GatewayID a = Node_ID (Candidate_Node c)
    /\ Node_Enabled (Candidate_Node c) = true /\ certificate_unusable (Candidate_Node c) = false
    /\ forall b, b ∈ Assignment_Bindings a -> ~ held_keys (Candidate_Spec c) (Candidate_Assignments c) (binding_key_of b).
Proof.
  intros Hl%LoadGatewayCandidates_ok H He. unfold Schedule in H. apply bind_Ok in H as (request' & Hp & H).
  assert (Request_Existing request' = None) as He'.
  { unfold prepare_request in Hp. rewrite He in Hp. inv_ok. done. }
  apply try_candidates_Ok in H as (before & c & after & Ho & Hc & _).
  apply try_candidate_Placed in Hc as (_ & _ & Hg & _ & _ & _ & _ & _ & _ & Hfree).
  assert (c ∈ candidates) as Hin.
  { rewrite <- (sort_stable_perm (candidate_less (Request_Existing request')) candidates).
    change (append_nil candidates) with candidates in Ho. rewrite Ho. set_solver. }
  rewrite Forall_forall in Hl. destruct (Hl c Hin) as (H1 & H2 & H3). exists c. split_and!; try done.
  intros b Hb Hheld%H3. rewrite Forall_forall in Hfree. apply (Hfree b Hb). by apply occupied_fresh.
Qed.
End Placing.

(** ** A concrete database: one gateway whose listener holds a port *)
#[local] Existing Instances go_order insertion_slice_sort toy_crypto ascii_unicode.

Definition sample_database : Database unit := {|
  db_ListNodes _ := mret [sample_node "gw-2" "gateway"];
  loadGatewaySpecsBatch _ := mret {[ "gw-2" := NewGatewayNodeSpec sample_gateway ]};
  loadGatewayAssignmentsBatch _ := mret ∅;
  loadGatewayObservedBatch _ := mret ∅;
  assignment_row _ := fail ErrNoRows;
  db_Now := mret 100
|}.

Definition loaded_candidates : list GatewayCandidate :=
  match (@LoadGatewayCandidates unit sample_database tt).2 with Ok cs => cs | Err _ => [] end.

Definition loaded_placement : result Assignment := Schedule sample_request 77 loaded_candidates.

Lemma placement_avoids_held_endpoints_witness :
  loaded_placement = Ok sample_placement
  /\ exists c, c ∈ loaded_candidates
       /\ forall b, b ∈ Assignment_Bindings sample_placement -> ~ held_keys (Candidate_Spec c) (Candidate_Assignments c) (binding_key_of b).
Proof.
  assert (H : loaded_placement = Ok sample_placement) by (vm_compute; reflexivity). split; [exact H|].
  destruct (placement_avoids_held_endpoints (DB := sample_database)
              sample_request 77 tt tt loaded_candidates sample_placement) as (c & Hin & _ & _ & _ & Hb).
  - vm_compute. reflexivity.
  - exact H.
  - reflexivity.
  - exists c. split; [exact Hin | exact Hb].
Defined.

Lemma long_ids_never_assigned_witness :
  let agent := of_bytes (replicate 64 "a"%char) in
  let gateway := of_bytes (replicate 64 "g"%char) in
  is_Ok (AllocateAssignmentID (H := sample_database) (sample_assignment (agent +:+ "-" +:+ gateway) ["api"] []) tt).2 = false.
Proof.
  intros agent gateway.
  rewrite (long_ids_never_assigned (DB := sample_database) agent gateway
             (sample_assignment (agent +:+ "-" +:+ gateway) ["api"] []) tt).
  - reflexivity.
  - apply (ValidateID_iff agent (TLit "")). vm_compute. reflexivity.
  - apply (ValidateID_iff gateway (TLit "")). vm_compute. reflexivity.
  - vm_compute. reflexivity.
  - reflexivity.
Defined.
