(* ===== verification/ReconcileFacts.v ===== *)
(** * Correctness of the scheduling orchestration (Reconcile)

    The theorems hold for every repository, and so for every interleaving with
    other writers: a repository is instrumented to record the calls made on it
    with their results ([traced]), and [runs m Q] says that whatever the
    repository answers, the calls [m] makes and its result satisfy [Q]. *)
From S2P Require Import Prelude GoStd GoNet Effects Domain Checksum Validation Snapshot Samples Placement PlacementFacts Reconcile.

(** ** Calls on the repository *)
Inductive call :=
| CGetNode (id : string) (r : result Node)
| CGetObserved (id : string) (r : result ObservedState)
| CLoadSnapshot (id : string) (r : result SnapshotRecord)
| CEnsureSnapshot (id : string) (r : result SnapshotRecord)
| CGetAssignment (id : string) (r : result Assignment)
| CAllocateID (r : result string)
| CUpdateState (id state : string) (options : WriteOptions) (r : result Assignment)
| CPutAssignment (a : Assignment) (options : WriteOptions) (r : result unit)
| CRead.

Definition is_write (c : call) : bool :=
  match c with CUpdateState _ _ _ _ | CPutAssignment _ _ _ => true | _ => false end.
Definition is_put (c : call) : bool := match c with CPutAssignment _ _ _ => true | _ => false end.

(** A repository state with the calls made so far. *)
Definition Traced (R : Type) : Type := list call * R.

Definition trace {R A} (c : result A -> call) (m : M R A) : M (Traced R) A := fun '(calls, s) =>
  let '(s', r) := m s in ((calls ++ [c r], s'), r).

#[export] Instance traced `{Repository R} : Repository (Traced R) := {|
  GetNode id := trace (CGetNode id) (GetNode id);
  GetNodeSpec id := trace (fun _ => CRead) (GetNodeSpec id);
  ListNodes kind := trace (fun _ => CRead) (ListNodes kind);
  ListServices id := trace (fun _ => CRead) (ListServices id);
  ListAssignments gateway agent := trace (fun _ => CRead) (ListAssignments gateway agent);
  GetAssignment id := trace (CGetAssignment id) (GetAssignment id);
  GetObserved id := trace (CGetObserved id) (GetObserved id);
  LoadSnapshot id := trace (CLoadSnapshot id) (LoadSnapshot id);
  EnsureDesiredSnapshot id := trace (CEnsureSnapshot id) (EnsureDesiredSnapshot id);
  UpdateAssignmentState id state options := trace (CUpdateState id state options) (UpdateAssignmentState id state options);
  PutAssignment a options := trace (CPutAssignment a options) (PutAssignment a options);
  LoadGatewayCandidates := trace (fun _ => CRead) LoadGatewayCandidates;
  AllocateAssignmentID a := trace CAllocateID (AllocateAssignmentID a);
  Now := trace (fun _ => CRead) Now;
  ContextErr := trace (fun _ => CRead) ContextErr
|}.

(** ** The logic of traces *)
Section Logic.
Context {R : Type}.

Definition runs {A} (m : M (Traced R) A) (Q : list call -> result A -> Prop) : Prop :=
  forall before s, exists calls s' r, m (before, s) = ((before ++ calls, s'), r) /\ Q calls r.

Lemma runs_weaken {A} (m : M (Traced R) A) (P Q : list call -> result A -> Prop) :
  runs m P -> (forall calls r, P calls r -> Q calls r) -> runs m Q.
Proof. intros H HPQ before s. destruct (H before s) as (l & s' & r & Hm & HP). by eauto 6. Qed.

Lemma runs_pure {A} (r : result A) (Q : list call -> result A -> Prop) : Q [] r -> runs (lift r) Q.
Proof. intros HQ before s. exists [], s, r. by rewrite app_nil_r. Qed.

Lemma runs_ret {A} (a : A) (Q : list call -> result A -> Prop) : Q [] (Ok a) -> runs (mret a) Q.
Proof. exact (runs_pure (Ok a) Q). Qed.

Lemma runs_fail {A} e (Q : list call -> result A -> Prop) : Q [] (Err e) -> runs (fail e) Q.
Proof. exact (runs_pure (Err e) Q). Qed.

Lemma runs_bind {A B} (m : M (Traced R) A) (f : A -> M (Traced R) B) (Q : list call -> result B -> Prop) :
  runs m (fun calls r => match r with
                         | Ok a => runs (f a) (fun calls' r' => Q (calls ++ calls') r')
                         | Err e => Q calls (Err e) end) ->
  runs (m ≫= f) Q.
Proof.
  intros H before s. destruct (H before s) as (l & s' & [a|e] & Hm & HQ); cbv [mbind M_bind]; rewrite Hm; [| by eauto 6].
  destruct (HQ (before ++ l) s') as (l' & s'' & r & Hf & HQ'). exists (l ++ l'), s'', r. by rewrite app_assoc.
Qed.

Lemma runs_try {A} (m : M (Traced R) A) (Q : list call -> result (result A) -> Prop) :
  runs m (fun calls r => Q calls (Ok r)) -> runs (try m) Q.
Proof.
  intros H before s. destruct (H before s) as (l & s' & r & Hm & HQ). unfold try. rewrite Hm. by eauto 6.
Qed.

Lemma runs_trace {A} (c : result A -> call) (m : M R A) (Q : list call -> result A -> Prop) :
  (forall r, Q [c r] r) -> runs (trace c m) Q.
Proof. intros HQ before s. unfold trace. destruct (m s) as [s' r]. by eauto 6. Qed.

(** Computations that make no write. *)
Definition quiet {A} (m : M (Traced R) A) : Prop := runs m (fun calls _ => forall c, c ∈ calls -> is_write c = false).
End Logic.

(** One step of a proof of [runs]: the rule of the outermost construct. *)
Ltac run_step :=
  match goal with
  | |- runs (mret _) _ => apply runs_ret
  | |- runs (fail _) _ => apply runs_fail
  | |- runs (lift _) _ => apply runs_pure
  | |- runs (mbind _ _) _ => apply runs_bind
  | |- runs (try _) _ => apply runs_try
  | |- runs (trace _ _) _ => apply runs_trace
  end.

(** Membership in a concrete trace. *)
Ltac in_trace H := repeat (apply elem_of_cons in H as [H|H]); try by apply elem_of_nil in H.

(** No write in a concrete trace. *)
Ltac quiet_trace := let c := fresh "c" in let Hc := fresh "Hc" in intros c Hc; in_trace Hc; by subst.

Section Attempt.
Context `{MO : !MapOrder, SS : !SliceSort, CR : !Crypto, UN : !Unicode, DJ : !DocumentJSON} `{RP : Repository R}.
Implicit Types calls : list call.

(** The snapshot was materialised, or the node has no desired state. *)
Definition settled (r : result SnapshotRecord) : bool := match r with Ok _ => true | Err e => is_no_rows e end.
Definition ensured (id : string) (calls : list call) : Prop := exists r, CEnsureSnapshot id r ∈ calls /\ settled r = true.

Lemma runs_ensure id (Q : list call -> result unit -> Prop) :
  (forall e r, is_Ok r = settled e -> Q [CEnsureSnapshot id e] r) -> runs (R := R) (ensure_snapshot id) Q.
Proof.
  intros HQ. unfold ensure_snapshot. do 2 run_step. cbn [EnsureDesiredSnapshot traced]. run_step.
  intros [rec|e]; [run_step; by apply HQ | case_match eqn:E; run_step; apply HQ; cbn; by rewrite E].
Qed.

Lemma next_generation_Ok previous existing g :
  next_generation previous existing = Ok g ->
  (forall rec, previous = Ok rec -> Record_Generation rec < g)
  /\ (forall e, existing = Some e -> Assignment_Generation e < g)
  /\ ((forall rec, previous = Ok rec -> Record_Generation rec <= max_uint64) ->
      (forall e, existing = Some e -> Assignment_Generation e <= max_uint64) -> g <= max_uint64).
Proof.
  unfold next_generation. intros (g0 & H0 & H)%bind_Ok.
  assert ((forall rec, previous = Ok rec -> Record_Generation rec < g0)
          /\ ((forall rec, previous = Ok rec -> Record_Generation rec <= max_uint64) -> g0 <= max_uint64)) as [G1 G2].
  { destruct previous as [rec|err].
    - apply bind_Ok in H0 as (u & Hx%reject_if_Ok & [= <-]). bool_facts.
      split; [intros ? [= <-]; lia | intros Hr; specialize (Hr rec eq_refl); lia].
    - destruct (is_no_rows err); [| done]. assert (g0 = 1) as -> by congruence. split; [done | unfold max_uint64; lia]. }
  destruct existing as [e|]; [| injection H as <-; by split_and!; [| | intros ? _; apply G2]].
  destruct (Assignment_Generation e >=? g0) eqn:E.
  - apply bind_Ok in H as (u & Hx%reject_if_Ok & [= <-]). bool_facts.
    split_and!; [intros rec Hr; specialize (G1 rec Hr); lia | intros ? [= <-]; lia | intros _ He; specialize (He e eq_refl); lia].
  - injection H as <-. bool_facts. split_and!; [done | intros ? [= <-]; lia | intros Hr _; by apply G2].
Qed.

Lemma Schedule_fields request now candidates a :
  Schedule request now candidates = Ok a ->
  Assignment_AgentID a = Node_ID (Request_Agent request) /\ Assignment_ServiceIDs a = (Service_ID <$> Request_Services request)
  /\ Assignment_Generation a = Request_Generation request /\ Assignment_State a = AssignmentPending.
Proof.
  unfold Schedule. intros (request' & Hp & H)%bind_Ok. apply prepare_request_Ok in Hp as (P1 & P2 & P3 & _).
  apply try_candidates_Ok in H as (? & c & ? & _ & Hc & _). apply try_candidate_Placed in Hc as (_ & _ & _ & H1 & H2 & H3 & H4 & _).
  by rewrite <- P1, <- P2, <- P3.
Qed.

Lemma ensured_left id l1 l2 : ensured id l1 -> ensured id (l1 ++ l2).
Proof. intros (r & Hr & Hs). exists r. split; [apply elem_of_app; by left | done]. Qed.
Lemma ensured_right id l1 l2 : ensured id l2 -> ensured id (l1 ++ l2).
Proof. intros (r & Hr & Hs). exists r. split; [apply elem_of_app; by right | done]. Qed.

(** The assignment a placement attempt may write. *)
Record put_ok (agent : Node) (services : list Service) (existing : option Assignment) (calls : list call)
    (a : Assignment) (o : WriteOptions) : Prop := {
  pk_agent : Assignment_AgentID a = Node_ID agent;
  pk_services : Assignment_ServiceIDs a = (Service_ID <$> services);
  pk_pending : Assignment_State a = AssignmentPending;
  pk_identity : match existing with
                | Some e => Assignment_ID a = Assignment_ID e /\ IfMatch o = Assignment_Revision e
                            /\ Assignment_Generation e < Assignment_Generation a
                | None => CAllocateID (Ok (Assignment_ID a)) ∈ calls /\ IfMatch o = 0
                end;
  pk_newer : exists previous, CLoadSnapshot (Node_ID agent) previous ∈ calls
             /\ (forall rec, previous = Ok rec -> Record_Generation rec < Assignment_Generation a)
             /\ ((forall rec, previous = Ok rec -> Record_Generation rec <= max_uint64) ->
                 (forall e, existing = Some e -> Assignment_Generation e <= max_uint64) ->
                 Assignment_Generation a <= max_uint64)
}.

(** What the calls of one attempt look like. *)
Definition attempt_calls (agent : Node) (services : list Service) (existing : option Assignment)
    (calls : list call) (r : result Assignment) : Prop :=
  (forall c, c ∈ calls -> is_write c = false)
  \/ exists before a o written after, calls = before ++ CPutAssignment a o written :: after
       /\ (forall c, c ∈ before ++ after -> is_write c = false)
       /\ put_ok agent services existing before a o
       /\ match written with
          | Err e => after = [] /\ r = Err e
          | Ok _ => is_Ok r = true ->
              ensured (Assignment_GatewayID a) after /\ ensured (Node_ID agent) after
              /\ forall e, existing = Some e -> Assignment_GatewayID e <> Assignment_GatewayID a ->
                   ensured (Assignment_GatewayID e) after
          end.

Lemma scoped_IfMatch o id : IfMatch (scopedScheduleWriteOptions o id) = IfMatch o.
Proof. unfold scopedScheduleWriteOptions. by case_match. Qed.

(** The part of an attempt that writes: [PutAssignment] and what follows it. *)
Lemma runs_put agent services existing before a (o : WriteOptions) :
  put_ok agent services existing before a o -> (forall c, c ∈ before -> is_write c = false) ->
  runs (R := R)
    (_ ← PutAssignment a o;
     _ ← (match existing with
          | Some e => if negb (String.eqb (Assignment_GatewayID e) (Assignment_GatewayID a))
                      then ensure_snapshot (Assignment_GatewayID e) else mret tt
          | None => mret tt
          end);
     _ ← ensure_snapshot (Assignment_GatewayID a);
     _ ← ensure_snapshot (Assignment_AgentID a);
     GetAssignment (Assignment_ID a))
    (fun calls r => attempt_calls agent services existing (before ++ calls) r).
Proof.
  intros Hok Hquiet. pose proof (pk_agent _ _ _ _ _ _ Hok) as Hagent.
  apply runs_bind. cbn [PutAssignment traced]. apply runs_trace. intros [[]|e]; cbn beta iota.
  2:{ right. exists before, a, o, (Err e), []. rewrite app_nil_r. by split_and!. }
  assert (Hrest : forall old, (forall c, c ∈ old -> is_write c = false) ->
    (forall e, existing = Some e -> Assignment_GatewayID e <> Assignment_GatewayID a -> ensured (Assignment_GatewayID e) old) ->
    runs (R := R) (_ ← ensure_snapshot (Assignment_GatewayID a); _ ← ensure_snapshot (Assignment_AgentID a); GetAssignment (Assignment_ID a))
      (fun calls r => attempt_calls agent services existing (before ++ [CPutAssignment a o (Ok ())] ++ old ++ calls) r)
    /\ forall e, attempt_calls agent services existing (before ++ [CPutAssignment a o (Ok ())] ++ old) (Err e)).
  { intros old Hold He.
    assert (Hcase : forall l r, (forall c, c ∈ l -> is_write c = false) ->
      (is_Ok r = true -> ensured (Assignment_GatewayID a) l /\ ensured (Node_ID agent) l) ->
      attempt_calls agent services existing (before ++ [CPutAssignment a o (Ok ())] ++ old ++ l) r).
    { intros l r Hl Hr. right. exists before, a, o, (Ok tt), (old ++ l). split; [done|]. split.
      { intros c [Hc|[Hc|Hc]%elem_of_app]%elem_of_app; auto. }
      split; [done|]. intros Hok'. destruct (Hr Hok'). split_and!; [by apply ensured_right | by apply ensured_right |].
      intros e E1 E2. apply ensured_left. by apply He. }
    split; [| intros e; rewrite <- (app_nil_r old); by apply (Hcase []); [intros c Hc%elem_of_nil |]].
    apply runs_bind, runs_ensure. intros e1 [u|e] E1; cbn beta iota.
    2:{ apply Hcase; [quiet_trace | done]. }
    apply runs_bind, runs_ensure. rewrite Hagent. intros e2 [u'|e] E2; cbn beta iota.
    2:{ apply Hcase; [quiet_trace | done]. }
    cbn [GetAssignment traced]. run_step. intros r. apply Hcase; [quiet_trace |].
    intros _. split; [exists e1; split; [set_solver | done] | exists e2; split; [set_solver | done]]. }
  apply runs_bind. destruct existing as [e|].
  - destruct (String.eqb_spec (Assignment_GatewayID e) (Assignment_GatewayID a)) as [E|E]; cbn [negb].
    + run_step. destruct (Hrest []) as [H _]; [by intros c Hc%elem_of_nil | by intros ? [= <-] |]. exact H.
    + apply runs_ensure. intros e1 [u|err] E1; cbn beta iota.
      * destruct (Hrest [CEnsureSnapshot (Assignment_GatewayID e) e1]) as [H1 _]; [quiet_trace | | exact H1].
        intros ? [= <-] _. exists e1. split; [left | done].
      * right. exists before, a, o, (Ok tt), [CEnsureSnapshot (Assignment_GatewayID e) e1]. split_and!; [done | | done | done].
        intros c [Hc|Hc]%elem_of_app; [by apply Hquiet | in_trace Hc; by subst].
  - run_step. destruct (Hrest []) as [H _]; [by intros c Hc%elem_of_nil | done |]. exact H.
Qed.

Lemma runs_attempt agent agentSpec services existing options :
  runs (R := R) (scheduleAgentAssignmentAttempt agent agentSpec services existing options)
    (attempt_calls agent services existing).
Proof.
  assert (Hq : forall calls (r : result Assignment), (forall c, c ∈ calls -> is_write c = false) -> attempt_calls agent services existing calls r)
    by (intros; by left).
  unfold scheduleAgentAssignmentAttempt. cbn [LoadGatewayCandidates LoadSnapshot Now traced].
  run_step. run_step. intros [candidates|e]; [| apply Hq; quiet_trace].
  run_step. run_step. run_step. intros previous. cbn beta iota.
  run_step. run_step. destruct (next_generation previous existing) as [generation|e] eqn:Eg;
    [| apply Hq; quiet_trace].
  run_step. run_step. intros [now|e]; [| apply Hq; quiet_trace].
  run_step. run_step. destruct (Schedule _ _ _) as [a|e] eqn:Es; [| apply Hq; quiet_trace].
  destruct (Schedule_fields _ _ _ _ Es) as (A1 & A2 & A3 & A4). cbn [Request_Agent Request_Services Request_Generation] in A1, A2, A3.
  destruct (next_generation_Ok _ _ _ Eg) as (N1 & N2 & N3). rewrite <- A3 in N1, N2, N3.
  destruct (unchanged existing a) as [e|].
  { do 2 (run_step; apply runs_ensure; intros ? [?|err] ?; [| apply Hq; quiet_trace]).
    run_step. apply Hq. intros c Hc. in_trace Hc; by subst. }
  run_step. destruct existing as [e|].
  - run_step. cbn beta iota. set (a' := with_assignment_id _ _).
    apply (runs_put agent services (Some e) ([CRead] ++ [CLoadSnapshot (Node_ID agent) previous] ++ [] ++ [CRead] ++ [] ++ [])).
    + constructor; try done.
      * rewrite scoped_IfMatch. split_and!; [done | done | by apply N2].
      * exists previous. split_and!; [right; left | exact N1 | exact N3].
    + intros c Hc. in_trace Hc; by subst.
  - run_step. cbn [AllocateAssignmentID traced]. run_step. intros [id|err];
      [| apply Hq; quiet_trace].
    run_step. cbn beta iota. set (a' := with_assignment_id _ _).
    apply (runs_put agent services None ([CRead] ++ [CLoadSnapshot (Node_ID agent) previous] ++ [] ++ [CRead] ++ [] ++ [CAllocateID (Ok id)] ++ [])).
    + constructor; try done.
      * rewrite scoped_IfMatch. split; [do 3 right; left | done].
      * exists previous. split_and!; [right; left | exact N1 | exact N3].
    + intros c Hc. in_trace Hc; by subst.
Qed.

(** The assignment a retry starts from, and the call that read it. *)
Definition refreshed (existing existing' : option Assignment) (middle : list call) : Prop :=
  match existing with
  | None => existing' = None
  | Some e => match existing' with
              | Some e' => CGetAssignment (Assignment_ID e) (Ok e') ∈ middle
              | None => exists err, CGetAssignment (Assignment_ID e) (Err err) ∈ middle /\ is_no_rows err = true
              end
  end.

(** One attempt, or a second one after a port conflict. *)
Definition attempts_calls (agent : Node) (services : list Service) (existing : option Assignment)
    (calls : list call) (r : result Assignment) : Prop :=
  attempt_calls agent services existing calls r
  \/ exists first conflict middle, attempt_calls agent services existing first (Err conflict) /\ is_port_conflict conflict = true
       /\ (forall c, c ∈ middle -> is_write c = false)
       /\ (calls = first ++ middle /\ is_Ok r = false
           \/ exists existing' second, refreshed existing existing' middle /\ calls = first ++ middle ++ second
                /\ attempt_calls agent services existing' second r).

Lemma filter_put_quiet calls : (forall c, c ∈ calls -> is_write c = false) -> List.filter is_put calls = [].
Proof.
  induction calls as [|c calls IH]; intros H; [done|]. cbn.
  rewrite IH by (intros; apply H; by right). specialize (H c (list_elem_of_here _ _)). by destruct c.
Qed.

Lemma attempt_calls_puts agent services existing calls r :
  attempt_calls agent services existing calls r -> (List.length (List.filter is_put calls) <= 1)%nat.
Proof.
  intros [H|(before & a & o & w & after & -> & H & _)]; [rewrite (filter_put_quiet calls H); cbn; lia|].
  rewrite List.filter_app, length_app. cbn.
  rewrite !filter_put_quiet; [cbn; lia | |]; intros c Hc; apply H, elem_of_app; auto.
Qed.

Lemma attempts_calls_puts agent services existing calls r :
  attempts_calls agent services existing calls r -> (List.length (List.filter is_put calls) <= 2)%nat.
Proof.
  intros [H|(first & e & middle & H1 & _ & Hm & [[-> _]|(e' & second & _ & -> & H2)])].
  - apply attempt_calls_puts in H. lia.
  - apply attempt_calls_puts in H1. rewrite List.filter_app, length_app, (filter_put_quiet middle) by done. cbn. lia.
  - apply attempt_calls_puts in H1, H2. rewrite !List.filter_app, !length_app, (filter_put_quiet middle) by done. cbn. lia.
Qed.

Lemma runs_attempts agent agentSpec services existing options :
  runs (R := R) (scheduleAgentAssignment agent agentSpec services existing options) (attempts_calls agent services existing).
Proof.
  unfold scheduleAgentAssignment. cbn [maxScheduleAttempts Nat.sub schedule_attempts].
  assert (Hex : (match existing with Some e => mret (Some e) | None => mret None end : M (Traced R) (option Assignment))
                = mret existing) by by destruct existing.
  rewrite Hex. clear Hex. run_step. run_step. run_step. run_step.
  eapply runs_weaken; [apply runs_attempt|]. intros first [a|conflict] Hfirst; cbn beta iota.
  { run_step. left. by rewrite app_nil_r. }
  destruct (is_port_conflict conflict) eqn:Hc; cbn [negb]; [| run_step; left; by rewrite app_nil_r].
  assert (Hstop : forall middle e, (forall c, c ∈ middle -> is_write c = false) ->
    attempts_calls agent services existing ([] ++ first ++ middle) (Err e)).
  { intros middle e Hm. right. exists first, conflict, middle. split_and!; try done. by left. }
  run_step. cbn [ContextErr traced]. run_step. intros [[e|]|e]; cbn beta iota.
  1,3: run_step || idtac; rewrite ?app_nil_r; apply (Hstop [CRead]); quiet_trace.
  assert (Hsecond : forall middle existing', refreshed existing existing' middle -> (forall c, c ∈ middle -> is_write c = false) ->
    runs (R := R)
      (r ← try (scheduleAgentAssignmentAttempt agent agentSpec services existing' options);
       match r with Ok assignment => mret assignment | Err err => fail err end)
      (fun calls r => attempts_calls agent services existing ([] ++ first ++ middle ++ calls) r)).
  { intros middle existing' Hr Hm. run_step. run_step. eapply runs_weaken; [apply runs_attempt|].
    intros second r Hs. assert (attempts_calls agent services existing ([] ++ first ++ middle ++ second) r).
    { right. exists first, conflict, middle. split_and!; try done. right. by exists existing', second. }
    destruct r; run_step; by rewrite app_nil_r. }
  run_step. destruct existing as [e|].
  - run_step. run_step. cbn [GetAssignment traced]. run_step. intros [e'|err]; cbn beta iota.
    + run_step. apply (Hsecond ([CRead] ++ [CGetAssignment (Assignment_ID e) (Ok e')]) (Some e')); [right; left |].
      quiet_trace.
    + destruct (is_no_rows err) eqn:En; run_step.
      * apply (Hsecond ([CRead] ++ [CGetAssignment (Assignment_ID e) (Err err)]) None);
          [exists err; split; [right; left | done] |]. quiet_trace.
      * apply (Hstop ([CRead] ++ [CGetAssignment (Assignment_ID e) (Err err)])). quiet_trace.
  - run_step. apply (Hsecond [CRead] None); [done|]. quiet_trace.
Qed.
End Attempt.

(** ** Theorems on the calls *)
Section Calls.
Context `{MO : !MapOrder, SS : !SliceSort, CR : !Crypto, UN : !Unicode, DJ : !DocumentJSON} `{RP : Repository R}.

(** The gateway no longer serves its assignments. *)
Definition gateway_lost (g : Node) (observed : result ObservedState) (now offlineAfter : Z) : Prop :=
  Node_Enabled g = false \/ certificate_unusable g = true
  \/ exists o, observed = Ok o /\ (Observed_Degraded o = true \/ Observed_Healthy o = false
       \/ is_zero_time (Observed_ObservedAt o) = true \/ offlineAfter <= time_sub now (Observed_ObservedAt o)).

Lemma gateway_stale_lost g observed now offlineAfter :
  gateway_stale g observed now offlineAfter = Ok (Some true) -> gateway_lost g observed now offlineAfter.
Proof.
  unfold gateway_stale, gateway_lost, node_unavailable. destruct observed as [o|err].
  - intros [= H]. destruct (Node_Enabled g), (certificate_unusable g); [by auto | | by auto | by auto].
    cbn [negb orb] in H. right. right. exists o. split; [done|].
    destruct (Observed_Degraded o); [by left|]. destruct (Observed_Healthy o); [| by auto]. cbn [negb orb] in H.
    destruct (is_zero_time _); [by auto|]. cbn [orb] in H. bool_facts. auto.
  - destruct (is_no_rows err); [| done]. destruct (Node_Enabled g), (certificate_unusable g); by auto.
Qed.

(** The degraded mark of an assignment with the two snapshots it publishes. *)
Definition marked_degraded (a : Assignment) (calls : list call) : Prop :=
  (Assignment_State a = AssignmentDegraded /\ calls = [])
  \/ exists updated gateway agent, calls = [CUpdateState (Assignment_ID a) AssignmentDegraded (MkWriteOptions (Assignment_Revision a) "" "system") (Ok updated);
                              CEnsureSnapshot (Assignment_GatewayID updated) gateway; CEnsureSnapshot (Assignment_AgentID updated) agent]
                 /\ settled gateway = true /\ settled agent = true.

(** The calls of a pass over one assignment. *)
Definition failover_calls (a : Assignment) (now offlineAfter : Z) (calls : list call) : Prop :=
  (forall c, c ∈ calls -> is_write c = false)
  \/ Assignment_State a <> AssignmentDraining /\ exists g observed rest,
       calls = CGetNode (Assignment_GatewayID a) (Ok g) :: CGetObserved (Assignment_GatewayID a) observed :: rest
       /\ gateway_lost g observed now offlineAfter
       /\ ((exists marks placement, rest = marks ++ placement /\ marked_degraded a marks /\ forall c, c ∈ placement -> is_write c = is_put c)
           \/ exists outcome tail, rest = CUpdateState (Assignment_ID a) AssignmentDegraded (MkWriteOptions (Assignment_Revision a) "" "system") outcome :: tail
                /\ forall c, c ∈ tail -> is_write c = false).

Lemma attempt_calls_kind agent services existing calls r :
  attempt_calls agent services existing calls r -> forall c, c ∈ calls -> is_write c = is_put c.
Proof.
  intros H c Hc. assert (is_write c = false -> is_write c = is_put c) as Hq by by destruct c.
  destruct H as [H|(before & a & o & w & after & -> & H & _)]; [by auto|].
  apply elem_of_app in Hc as [Hc|[->|Hc]%elem_of_cons]; [| done |]; apply Hq, H, elem_of_app; auto.
Qed.

Lemma attempts_calls_kind agent services existing calls r :
  attempts_calls agent services existing calls r -> forall c, c ∈ calls -> is_write c = is_put c.
Proof.
  intros [H|(first & e & middle & H1 & _ & Hm & Hcase)] c Hc; [by eapply attempt_calls_kind|].
  assert (Hfm : c ∈ first \/ c ∈ middle -> is_write c = is_put c).
  { intros [Hc'|Hc']; [by eapply attempt_calls_kind|]. specialize (Hm c Hc'). by destruct c. }
  destruct Hcase as [[-> _]|(e' & second & _ & -> & H2)]; rewrite !elem_of_app in Hc; [by auto|].
  destruct Hc as [Hc|[Hc|Hc]]; [by auto | by auto | by eapply attempt_calls_kind].
Qed.

Lemma runs_existing e options :
  runs (R := R) (scheduleExistingAssignment e options) (fun calls _ => forall c, c ∈ calls -> is_write c = is_put c).
Proof.
  unfold scheduleExistingAssignment. cbn [GetNode GetNodeSpec ListServices traced].
  run_step. run_step. intros [agent|err]; [| quiet_trace].
  run_step. run_step. intros [nodeSpec|err]; [| quiet_trace].
  run_step. run_step. destruct (agent_spec_of nodeSpec) as [agentSpec|err]; [| quiet_trace].
  run_step. run_step. intros [services|err]; [| quiet_trace]. cbn zeta.
  run_step. run_step. case_match; [| quiet_trace].
  eapply runs_weaken; [apply runs_attempts|]. intros calls r Hcalls c Hc. cbn [app] in Hc.
  do 3 (apply elem_of_cons in Hc as [->|Hc]; [done|]). by eapply attempts_calls_kind.
Qed.

Lemma runs_degrade a (Q : list call -> result (option Assignment) -> Prop) :
  (forall calls updated, marked_degraded a calls -> Q calls (Ok (Some updated))) ->
  (forall outcome tail r, (forall c, c ∈ tail -> is_write c = false) -> (forall updated, r <> Ok (Some updated)) ->
     Q (CUpdateState (Assignment_ID a) AssignmentDegraded (MkWriteOptions (Assignment_Revision a) "" "system") outcome :: tail) r) ->
  runs (R := R) (degrade a) Q.
Proof.
  intros H1 H2. unfold degrade. destruct (String.eqb_spec (Assignment_State a) AssignmentDegraded) as [E|E].
  { run_step. apply H1. by left. }
  cbn [UpdateAssignmentState traced]. run_step. run_step. run_step. intros [updated|err]; cbn beta iota.
  2:{ case_match; run_step; apply H2; done || (intros c Hc; in_trace Hc). }
  run_step. apply runs_ensure. intros e1 [u|err] E1; [| apply H2; [quiet_trace | done]].
  run_step. apply runs_ensure. intros e2 [u'|err] E2; [| apply H2; [quiet_trace | done]].
  run_step. apply H1. right. by exists updated, e1, e2.
Qed.

(** C8: a placement makes at most [maxScheduleAttempts] = 2 writes, the second
    only after a port conflict and from a freshly read assignment; every write is
    a pending assignment of exactly the given services of the agent that keeps
    the identity of the existing assignment, is conditional on its revision, has a
    generation above it and above the agent's snapshot that does not wrap, and is
    followed on success by the snapshots of every gateway and agent concerned. *)
Theorem placement_calls agent agentSpec services existing options :
  runs (R := R) (scheduleAgentAssignment agent agentSpec services existing options)
    (fun calls r => attempts_calls agent services existing calls r
                    /\ (List.length (List.filter is_put calls) <= maxScheduleAttempts)%nat).
Proof.
  eapply runs_weaken; [apply runs_attempts|]. intros calls r H. split; [done|]. by eapply attempts_calls_puts.
Qed.

(** C9: a reconciliation pass writes an assignment only when it is not draining
    and its gateway was read as disabled, without a usable certificate, or
    reporting unhealthy, degraded or too old.  A replacement is placed only for an
    assignment that was read as degraded, or that the pass has just marked degraded at
    the revision it read, and then the snapshots of both its nodes have been materialised
    since without an error, a node without a desired state apart. *)
Theorem failover_is_justified now offlineAfter a placed :
  runs (R := R) (reconcile_assignment now offlineAfter a placed)
    (fun calls r => failover_calls a now offlineAfter calls
       /\ forall placed', r = Ok placed' -> placed' = placed \/ exists a', placed' = placed ++ [a']).
Proof.
  assert (Hq : forall calls r, (forall c, c ∈ calls -> is_write c = false) ->
    (forall placed', r = Ok placed' -> placed' = placed) ->
    failover_calls a now offlineAfter calls
    /\ forall placed', r = Ok placed' -> placed' = placed \/ exists a', placed' = placed ++ [a']).
  { intros calls r Hc Hr. split; [by left | intros p Hp; left; by apply Hr]. }
  unfold reconcile_assignment. destruct (String.eqb_spec (Assignment_State a) AssignmentDraining) as [E|E].
  { run_step. apply Hq; [intros c Hc; in_trace Hc | by intros ? [= ->]]. }
  cbn [GetNode GetObserved traced]. do 3 run_step. intros [g|err]; cbn beta iota.
  2:{ case_match; run_step; apply Hq; try done; try (quiet_trace). by intros ? [= ->]. }
  do 3 run_step. intros observed. cbn beta iota. do 2 run_step.
  destruct (gateway_stale g observed now offlineAfter) as [[[]|]|err] eqn:Es; cbn beta iota.
  2,3: run_step; apply Hq; [quiet_trace | by intros ? [= ->]].
  2: apply Hq; [quiet_trace | done].
  apply gateway_stale_lost in Es. run_step. apply runs_degrade.
  - intros marks updated Hm. run_step. run_step. eapply runs_weaken; [apply runs_existing|].
    intros placement r Hp. cbn beta in Hp.
    assert (failover_calls a now offlineAfter ([CGetNode (Assignment_GatewayID a) (Ok g)] ++ [CGetObserved (Assignment_GatewayID a) observed]
              ++ [] ++ marks ++ placement ++ [])) as Hf.
    { right. split; [done|]. exists g, observed, (marks ++ placement). rewrite app_nil_r. split_and!; [done | done |].
      left. by exists marks, placement. }
    destruct r; run_step; (split; [exact Hf|]); intros p [= <-]; [right; by eexists | by left].
  - intros outcome tail r Htail Hr.
    assert (forall t, t = tail ++ [] \/ t = tail -> failover_calls a now offlineAfter ([CGetNode (Assignment_GatewayID a) (Ok g)]
              ++ [CGetObserved (Assignment_GatewayID a) observed] ++ []
              ++ CUpdateState (Assignment_ID a) AssignmentDegraded (MkWriteOptions (Assignment_Revision a) "" "system") outcome :: t)) as Hf.
    { intros t Ht. assert (t = tail) as -> by (rewrite app_nil_r in Ht; by destruct Ht). right. split; [done|].
      eexists g, observed, _. split; [done|]. split; [done|]. right. by exists outcome, tail. }
    destruct r as [[updated|]|err]; [by destruct (Hr updated) | run_step |];
      (split; [apply Hf; by auto | intros p Hp; try discriminate Hp]). injection Hp as <-. by left.
Qed.
End Calls.

(** ** Agents and targets *)
Section Targets.
Context `{MO : !MapOrder, SS : !SliceSort, CR : !Crypto, UN : !Unicode, DJ : !DocumentJSON} `{RP : Repository R}.

(** The first mention of every named agent. *)
Fixpoint first_mentions (seen : gset string) (ids : list string) : list string :=
  match ids with
  | [] => []
  | id :: ids =>
      let name := strings.TrimSpace id in
      if String.eqb name "" || bool_decide (name ∈ seen) then first_mentions seen ids
      else id :: first_mentions ({[name]} ∪ seen) ids
  end.

Lemma first_mentions_spec seen ids :
  NoDup (strings.TrimSpace <$> first_mentions seen ids)
  /\ forall id, id ∈ first_mentions seen ids ->
       id ∈ ids /\ strings.TrimSpace id <> "" /\ strings.TrimSpace id ∉ seen.
Proof.
  revert seen. induction ids as [|id ids IH]; intros seen; cbn [first_mentions]; [split; [constructor | by intros ? ?%elem_of_nil]|].
  destruct (String.eqb_spec (strings.TrimSpace id) "") as [E|E]; cbn [orb].
  { destruct (IH seen) as [H1 H2]. split; [done|]. intros x Hx. destruct (H2 x Hx). split; [by right | done]. }
  case_bool_decide as Hin.
  { destruct (IH seen) as [H1 H2]. split; [done|]. intros x Hx. destruct (H2 x Hx). split; [by right | done]. }
  destruct (IH ({[strings.TrimSpace id]} ∪ seen)) as [H1 H2]. split.
  - rewrite fmap_cons. constructor; [| done]. intros (x & Hx & Hin')%list_elem_of_fmap. destruct (H2 x Hin') as (_ & _ & Hn). set_solver.
  - intros x [->|Hx]%elem_of_cons; [split_and!; [left | done | done]|].
    destruct (H2 x Hx) as (? & ? & ?). split_and!; [by right | done | set_solver].
Qed.

Lemma reconcile_agent_seen id seen placed s s' seen' placed' :
  reconcile_agent id (seen, placed) s = (s', Ok (seen', placed')) ->
  String.eqb (strings.TrimSpace id) "" || bool_decide (strings.TrimSpace id ∈ seen) = false ->
  seen' = {[strings.TrimSpace id]} ∪ seen.
Proof.
  unfold reconcile_agent. intros H [E1 E2]%orb_false_iff. rewrite E1, E2 in H.
  cbv [mbind M_bind try mret M_ret fail] in H. repeat case_match; by simplify_eq.
Qed.

Lemma for_each_first_mentions ids seen placed s :
  for_each_m reconcile_agent ids (seen, placed) s = for_each_m reconcile_agent (first_mentions seen ids) (seen, placed) s.
Proof.
  revert seen placed s. induction ids as [|id ids IH]; intros seen placed s; [done|]. cbn [for_each_m first_mentions].
  destruct (String.eqb (strings.TrimSpace id) "" || bool_decide (strings.TrimSpace id ∈ seen)) eqn:E.
  - rewrite <- IH. unfold reconcile_agent. apply orb_true_iff in E as [E|E]; rewrite ?E; [done|]. by case_match.
  - cbn [for_each_m]. cbv [mbind M_bind]. destruct (reconcile_agent id (seen, placed) s) as [s' [[seen' placed']|err]] eqn:Er; [| done].
    rewrite (reconcile_agent_seen _ _ _ _ _ _ _ Er E). apply IH.
Qed.

(** Reconciling a list of agents is reconciling the first mention of each:
    blank names and names repeated up to surrounding space do nothing, and the
    agents that are processed are pairwise distinct. *)
Theorem agents_reconciled_once ids s :
  ReconcileAssignmentsForAgents ids s = ReconcileAssignmentsForAgents (first_mentions ∅ ids) s
  /\ NoDup (strings.TrimSpace <$> first_mentions ∅ ids)
  /\ forall id, id ∈ first_mentions ∅ ids -> id ∈ ids /\ strings.TrimSpace id <> "".
Proof.
  split; [| destruct (first_mentions_spec ∅ ids) as [H1 H2]; split; [done | intros id Hid; by destruct (H2 id Hid) as (? & ? & _)]].
  unfold ReconcileAssignmentsForAgents. cbv [mbind M_bind]. by rewrite for_each_first_mentions.
Qed.

Lemma services_by_id_lookup services id sv :
  NoDup (Service_ID <$> services) -> services_by_id services !! id = Some sv <-> sv ∈ services /\ Service_ID sv = id.
Proof.
  unfold services_by_id. intros Hnd.
  assert (forall l (m : gmap string Service), NoDup (Service_ID <$> l) ->
    foldl (fun m service => <[Service_ID service := service]> m) m l !! id = Some sv
    <-> (sv ∈ l /\ Service_ID sv = id) \/ ((forall x, x ∈ l -> Service_ID x <> id) /\ m !! id = Some sv)) as H.
  2:{ rewrite H by done. rewrite lookup_empty. split; [by intros [?|[_ Hx]] | by left]. }
  clear Hnd. induction l as [|x l IH]; intros m Hnd; cbn [foldl].
  { split; [intros; right; split; [by intros ? ?%elem_of_nil | done] | by intros [[?%elem_of_nil _]|[_ ?]]]. }
  apply NoDup_cons in Hnd as [Hx Hnd]. rewrite (IH _ Hnd).
  assert (Hx' : forall y, y ∈ l -> Service_ID y <> Service_ID x).
  { intros y Hy He. apply Hx. rewrite <- He. by apply list_elem_of_fmap_2. }
  setoid_rewrite elem_of_cons. destruct (decide (Service_ID x = id)) as [<-|Hne].
  - rewrite lookup_insert_eq. split.
    + intros [[Hin He]|[_ Hx0]]; [by left; auto | left; split; congruence || left; congruence].
    + intros [[[->|Hin] He]|[Hn _]]; [by right | by left | by destruct (Hn x (or_introl eq_refl))].
  - rewrite lookup_insert_ne by done. split.
    + intros [[Hin He]|[Hn Hm]]; [by left; auto | right; split; [by intros y [->|Hy]; auto | done]].
    + intros [[[->|Hin] He]|[Hn Hm]]; [done | by left | right; split; [by intros y Hy; apply Hn; right | done]].
Qed.

Lemma servicesForAssignment_elem a services sv :
  NoDup (Service_ID <$> services) ->
  sv ∈ servicesForAssignment a (services_by_id services) <-> sv ∈ services /\ Service_ID sv ∈ Assignment_ServiceIDs a.
Proof.
  intros Hnd. unfold servicesForAssignment. rewrite sort_stable_perm.
  assert (forall ids acc, sv ∈ foldl (fun services0 serviceID => match services_by_id services !! serviceID with
                                   | Some service => services0 ++ [service] | None => services0 end) acc ids
            <-> sv ∈ acc \/ exists id, id ∈ ids /\ services_by_id services !! id = Some sv) as ->.
  { induction ids as [|id ids IH]; intros acc; cbn [foldl]; [split; [by left | intros [?|(? & ?%elem_of_nil & _)]; done]|].
    rewrite IH. setoid_rewrite elem_of_cons. destruct (services_by_id services !! id) as [x|] eqn:E.
    - rewrite elem_of_app, list_elem_of_singleton. split.
      + intros [[?| ->] | (i & ? & ?)]; [by left | right; by exists id; auto | right; by exists i; auto].
      + intros [?|(i & [->|?] & Hi)]; [by auto | left; right; congruence | right; by exists i].
    - split; [intros [?|(i & ? & ?)]; [by left | right; by exists i; auto]|].
      intros [?|(i & [->|?] & Hi)]; [by left | congruence | right; by exists i]. }
  rewrite elem_of_nil. setoid_rewrite services_by_id_lookup; [| done]. split.
  - intros [[] | (id & Hid & Hsv & <-)]. done.
  - intros [Hsv Hid]. right. by exists (Service_ID sv).
Qed.

(** What the loop over the current assignments has collected. *)
Record targets_ok (services : list Service) (visited : list Assignment)
    (targets : list (option Assignment * list Service)) (assigned : gset string) : Prop := {
  tg_targets : forall existing svcs, (existing, svcs) ∈ targets -> svcs <> [] /\ exists a, existing = Some a /\ a ∈ visited
                 /\ forall sv, sv ∈ svcs <-> sv ∈ services /\ Service_ID sv ∈ Assignment_ServiceIDs a;
  tg_assigned : forall sv, sv ∈ services -> Service_ID sv ∈ assigned ->
                 exists existing svcs, (existing, svcs) ∈ targets /\ sv ∈ svcs;
  tg_complete : forall sv a, sv ∈ services -> a ∈ visited -> Service_ID sv ∈ Assignment_ServiceIDs a -> Service_ID sv ∈ assigned
}.

Lemma elem_of_marks svcs (assigned : gset string) x :
  x ∈ foldl (fun assigned service => {[Service_ID service]} ∪ assigned) assigned svcs
  <-> x ∈ assigned \/ exists sv, sv ∈ svcs /\ Service_ID sv = x.
Proof.
  revert assigned. induction svcs as [|sv svcs IH]; intros assigned; cbn [foldl].
  { split; [by left | by intros [?|(? & ?%elem_of_nil & _)]]. }
  rewrite IH. setoid_rewrite elem_of_cons. split; [intros [Hx|(y & Hy & <-)] | intros [Hx|(y & [->|Hy] & <-)]].
  - apply elem_of_union in Hx as [->%elem_of_singleton|Hx]; [right; by exists sv; auto | by left].
  - right. exists y. auto.
  - left. set_solver.
  - left. set_solver.
  - right. by exists y.
Qed.

Lemma targets_step services visited targets assigned a :
  NoDup (Service_ID <$> services) -> targets_ok services visited targets assigned ->
  let svcs := servicesForAssignment a (services_by_id services) in
  let '(targets', assigned') :=
    if llen svcs =? 0 then (targets, assigned)
    else (targets ++ [(Some a, svcs)], foldl (fun assigned service => {[Service_ID service]} ∪ assigned) assigned svcs) in
  targets_ok services (visited ++ [a]) targets' assigned'.
Proof.
  intros Hnd [T1 T2 T3] svcs. pose proof (fun sv => servicesForAssignment_elem a services sv Hnd) as Hel. fold svcs in Hel.
  assert (Hv : forall x, x ∈ visited -> x ∈ visited ++ [a]) by (intros; apply elem_of_app; auto).
  destruct svcs as [|sv0 svcs'] eqn:Es.
  - cbn [llen List.length Z.of_nat Z.eqb]. constructor.
    + intros existing l Hin. destruct (T1 _ _ Hin) as (Hne & x & -> & Hx & Hl). split; [done|]. exists x. auto.
    + done.
    + intros sv x Hsv [Hx| ->%list_elem_of_singleton]%elem_of_app Hid; [by eapply T3|].
      assert (sv ∈ []) as Hf%elem_of_nil by by apply Hel. done.
  - rewrite <- Es in *. assert (llen svcs =? 0 = false) as -> by by rewrite Es.
    constructor.
    + intros existing l [Hin|[= -> ->]%list_elem_of_singleton]%elem_of_app.
      * destruct (T1 _ _ Hin) as (Hne & x & -> & Hx & Hl). split; [done|]. exists x. auto.
      * split; [by rewrite Es|]. exists a. split_and!; [done | apply elem_of_app; right; left | by apply Hel].
    + intros sv Hsv [Hid|(sv' & Hin & Hid)]%elem_of_marks.
      * destruct (T2 sv Hsv Hid) as (e & l & ? & ?). exists e, l. split; [apply elem_of_app; by left | done].
      * exists (Some a), svcs. split; [apply elem_of_app; right; left|]. apply Hel. split; [done|]. rewrite <- Hid. by apply Hel.
    + intros sv x Hsv [Hx| ->%list_elem_of_singleton]%elem_of_app Hid; apply elem_of_marks; [left; by eapply T3|].
      right. exists sv. split; [by apply Hel | done].
Qed.

(** The targets of scheduling an agent cover every service of it; each
    target is non-empty; a current assignment keeps exactly the services it
    lists, and the new assignment gets exactly the services of no assignment. *)
Theorem schedule_targets_spec services assignments :
  NoDup (Service_ID <$> services) ->
  (forall sv, sv ∈ services -> exists existing svcs, (existing, svcs) ∈ schedule_targets services assignments /\ sv ∈ svcs)
  /\ forall existing svcs, (existing, svcs) ∈ schedule_targets services assignments ->
       svcs <> []
       /\ match existing with
          | Some a => a ∈ assignments /\ forall sv, sv ∈ svcs <-> sv ∈ services /\ Service_ID sv ∈ Assignment_ServiceIDs a
          | None => forall sv, sv ∈ svcs <-> sv ∈ services /\ forall a, a ∈ assignments -> Service_ID sv ∉ Assignment_ServiceIDs a
          end.
Proof.
  intros Hnd. unfold schedule_targets. cbv zeta. set (step := fun '(targets, assigned) current => _).
  assert (Hloop : forall todo visited targets assigned, targets_ok services visited targets assigned ->
    let '(targets', assigned') := foldl step (targets, assigned) todo in targets_ok services (visited ++ todo) targets' assigned').
  { induction todo as [|a todo IH]; intros visited targets assigned Hok; cbn [foldl]; [by rewrite app_nil_r|].
    pose proof (targets_step services visited targets assigned a Hnd Hok) as Hstep. cbv zeta in Hstep. cbn [step].
    destruct (llen _ =? 0); rewrite (cons_middle a visited todo), (app_assoc visited); by apply IH. }
  specialize (Hloop assignments [] [] ∅). destruct (foldl step ([], ∅) assignments) as [targets assigned].
  destruct Hloop as [T1 T2 T3]; [constructor; [by intros ? ? ?%elem_of_nil | set_solver | by intros ? ? ? ?%elem_of_nil]|].
  assert (forall todo acc sv, sv ∈ foldl (fun unassigned service =>
      if bool_decide (Service_ID service ∈ assigned) then unassigned else unassigned ++ [service]) acc todo
    <-> sv ∈ acc \/ sv ∈ todo /\ Service_ID sv ∉ assigned) as Hun.
  { induction todo as [|x todo IH]; intros acc sv; cbn [foldl]; [split; [by left | by intros [?|[?%elem_of_nil _]]]|].
    rewrite IH, elem_of_cons. case_bool_decide; [| rewrite elem_of_app, list_elem_of_singleton];
      (split; [intros [?|[? ?]] | intros [?|[[->|?] ?]]]); tauto || (destruct_or?; subst; tauto). }
  specialize (Hun services []). set (unassigned := foldl _ [] services) in *.
  assert (Hfree : forall sv, sv ∈ unassigned <-> sv ∈ services /\ forall a, a ∈ assignments -> Service_ID sv ∉ Assignment_ServiceIDs a).
  { intros sv. rewrite Hun, elem_of_nil. split; [intros [[]|[Hsv Hid]] | intros [Hsv Hall]; right]; (split; [done|]).
    - intros a Ha Hin. apply Hid. by eapply T3.
    - intros Hid. destruct (T2 sv Hsv Hid) as (e & l & Hin & Hl). destruct (T1 _ _ Hin) as (_ & a & _ & Ha & Hel).
      by apply (Hall a Ha), Hel. }
  destruct (llen unassigned >? 0) eqn:E.
  - split.
    + intros sv Hsv. destruct (decide (Service_ID sv ∈ assigned)) as [Hid|Hid].
      * destruct (T2 sv Hsv Hid) as (e & l & ? & ?). exists e, l. split; [apply elem_of_app; by left | done].
      * exists None, unassigned. split; [apply elem_of_app; right; left|]. apply Hun. by right.
    + intros existing svcs [Hin|[= -> ->]%list_elem_of_singleton]%elem_of_app.
      * destruct (T1 _ _ Hin) as (Hne & a & -> & Ha & Hel). by split_and!.
      * split; [by intros -> | done].
  - assert (unassigned = []) as Hnil by by destruct unassigned. split.
    + intros sv Hsv. apply (T2 sv Hsv). destruct (decide (Service_ID sv ∈ assigned)) as [|Hid]; [done|].
      assert (sv ∈ unassigned) as Hin by (apply Hun; by right). rewrite Hnil in Hin. by apply elem_of_nil in Hin.
    + intros existing svcs Hin. destruct (T1 _ _ Hin) as (Hne & a & -> & Ha & Hel). by split_and!.
Qed.
End Targets.

Lemma schedule_targets_spec_witness :
  let services := [sample_service "api" 0; sample_service "web" 20001] in
  let current := sample_assignment "asg-1" ["web"; "gone"] [] in
  NoDup (Service_ID <$> services)
  /\ exists existing svcs, (existing, svcs) ∈ schedule_targets services [current] /\ sample_service "api" 0 ∈ svcs.
Proof.
  intros services current. assert (H : NoDup (Service_ID <$> services)) by (apply (bool_decide_unpack _); vm_compute; exact I).
  split; [exact H|]. destruct (schedule_targets_spec services [current] H) as [Hc _]. apply Hc. left.
Defined.
