(* ===== verification/Leadership.v ===== *)
(** * Leadership of the controllers (src/internal/controller/leadership.go)

    Controllers that share a PostgreSQL database elect a leader through one row of
    [controller_leases].  The local methods are functions on the process's cached
    view; the statements are functions on the row, parametrised by the
    CURRENT_TIMESTAMP of their transaction, which is the time the transaction
    began.  [step] runs any number of processes and write transactions on one
    database: an UPDATE and a SELECT ... FOR UPDATE wait for the row's lock and keep
    it until their transaction ends.  The metrics and log hooks are left out. *)
From S2P Require Import Prelude GoStd.

Definition controllerLeaseTTL : Z := 15 * 1000000000.
Definition controllerLeaseRenewEvery : Z := 5 * 1000000000.
Definition controllerLeaseRetryEvery : Z := 1000000000.

Definition ErrControllerNotLeader := ENew "controller is not the active leader".
Definition ErrLeadershipLost := ENew "controller leadership was lost during the operation".

(** ** The process-local view *)
Record leadershipEvent := MkLeadershipEvent { Event_Leader : bool; Event_Epoch : Z; Event_Err : option error }.

(** An observer is the name of its callback. *)
Record leadership := MkLeadership {
  L_enabled : bool; L_ownerID : string; L_active : bool; L_epoch : Z;
  L_observers : gmap Z string; L_nextObserver : Z
}.

(** The 16 bytes of crypto/rand. *)
Definition randomLeadershipOwnerID (value : list ascii) : string := hex_encode value.

Definition newLeadership (enabled : bool) (value : list ascii) : leadership :=
  MkLeadership enabled (randomLeadershipOwnerID value) (negb enabled) 0 ∅ 0.

Definition Enabled (l : option leadership) : bool := match l with Some l => L_enabled l | None => false end.
Definition IsLeader (l : option leadership) : bool := match l with Some l => L_active l | None => false end.
Definition Epoch (l : option leadership) : Z := match l with Some l => L_epoch l | None => 0 end.
Definition OwnerID (l : option leadership) : string := match l with Some l => L_ownerID l | None => "" end.

Definition RequireLeader (l : option leadership) : result unit := reject_if (negb (IsLeader l)) ErrControllerNotLeader.

(** The id is what the returned function removes. *)
Definition observe (l : leadership) (callback : string) : leadership * Z :=
  let id := (L_nextObserver l + 1) mod 2 ^ 64 in
  (MkLeadership (L_enabled l) (L_ownerID l) (L_active l) (L_epoch l) (<[id := callback]> (L_observers l)) id, id).

Definition unobserve (l : leadership) (id : Z) : leadership :=
  MkLeadership (L_enabled l) (L_ownerID l) (L_active l) (L_epoch l) (delete id (L_observers l)) (L_nextObserver l).

(** The calls that [notify] makes; the order of iteration is over keys as text. *)
Definition notify `{!MapOrder} (l : leadership) (event : leadershipEvent) : list (string * leadershipEvent) :=
  (fun kv => (kv.2, event)) <$> range_order ((fun kv => (pretty kv.1, kv.2)) <$> map_to_list (L_observers l)).

Definition with_view (l : leadership) (active : bool) (epoch : Z) : leadership :=
  MkLeadership (L_enabled l) (L_ownerID l) active epoch (L_observers l) (L_nextObserver l).

Definition setLeader `{!MapOrder} (l : leadership) (epoch : Z) : leadership * list (string * leadershipEvent) :=
  if L_active l && (L_epoch l =? epoch) then (l, [])
  else let l' := with_view l true epoch in (l', notify l' (MkLeadershipEvent true epoch None)).

Definition setStandby `{!MapOrder} (l : leadership) (err : option error) : leadership * list (string * leadershipEvent) :=
  let wasActive := L_active l in
  let l' := with_view l false 0 in
  (l', if wasActive then notify l' (MkLeadershipEvent false 0 err) else []).

(** The pause of [Run] before its next iteration. *)
Definition run_delay (l : leadership) : Z :=
  if L_active l then controllerLeaseRenewEvery else controllerLeaseRetryEvery.

(** ** The row and its statements *)
Record Lease := MkLease { owner_id : string; fencing_epoch : Z; lease_until : Z }.

Definition initial_lease : Lease := MkLease "" 0 0.

Definition bigint_error := EExternal "bigint out of range".

(** A statement gives the number of affected rows and the row it leaves. *)
Definition acquire_statement (ownerID : string) (ts : Z) (row : Lease) : result (Z * Lease) :=
  if String.eqb (owner_id row) "" || (lease_until row <=? ts) then
    if fencing_epoch row + 1 <? 2 ^ 63 then
      Ok (1, MkLease ownerID (fencing_epoch row + 1) (ts + controllerLeaseTTL))
    else Err bigint_error
  else Ok (0, row).

Definition renew_statement (ownerID : string) (epoch ts : Z) (row : Lease) : Z * Lease :=
  if String.eqb (owner_id row) ownerID && (fencing_epoch row =? epoch) && (lease_until row >? ts) then
    (1, MkLease (owner_id row) (fencing_epoch row) (ts + controllerLeaseTTL))
  else (0, row).

Definition release_statement (ownerID : string) (epoch ts : Z) (row : Lease) : Lease :=
  if String.eqb (owner_id row) ownerID && (fencing_epoch row =? epoch) then
    MkLease "" (fencing_epoch row) ts
  else row.

(** The statement that a restore runs on the row of the database it has put in place; the
    epoch is in range, or it fails.  That database is the backup: in [step] it is one of the
    present row, no write having been made since.  The row of an older backup may have a
    lower epoch; what it has in common with the writes made after the backup, which are
    not in it, is not modelled. *)
Definition restore_statement (row : Lease) : Lease := MkLease "" (fencing_epoch row + 1) 0.

(** ** [acquire], [renew] and [assertWrite] around their statements *)
(** The row an acquiring transaction may commit, and the epoch it returns. *)
Definition acquire (ownerID : string) (ts : Z) (row : Lease) : result (Lease * Z) :=
  '(affected, row') ← acquire_statement ownerID ts row;
  _ ← reject_if (negb (affected =? 1)) ErrControllerNotLeader;
  let epoch := fencing_epoch row' in
  _ ← reject_if (epoch <=? 0) (ENew "controller lease returned an invalid fencing epoch");
  Ok (row', epoch).

Definition renew (ownerID : string) (epoch ts : Z) (row : Lease) : Lease * result unit :=
  let '(affected, row') := renew_statement ownerID epoch ts row in
  (row', reject_if (negb (affected =? 1)) ErrLeadershipLost).

(** [assertWrite] after its query; [valid] is [lease_until > CURRENT_TIMESTAMP]. *)
Definition assert_lease (l : leadership) (owner : string) (epoch : Z) (valid : bool) : result unit :=
  reject_if ((epoch <=? 0) || negb (String.eqb owner (L_ownerID l)) || negb (epoch =? L_epoch l) || negb valid)
    ErrLeadershipLost.

(** The whole of [assertWrite] when nothing happens in between. *)
Definition assertWrite (l : option leadership) (ts : Z) (row : Lease) : result unit :=
  match l with
  | None => Ok tt
  | Some v =>
      if negb (L_enabled v) then Ok tt else
      _ ← RequireLeader l;
      assert_lease v (owner_id row) (fencing_epoch row) (lease_until row >? ts)
  end.

(** [beginWriteTx] and [commitWriteTx] of both repositories; the transaction is
    committed or rolled back. *)
Definition beginWriteTx (l : option leadership) : result unit :=
  match l with None => Ok tt | Some _ => RequireLeader l end.

Definition commitWriteTx (l : option leadership) (ts : Z) (row : Lease) (tx_commit : result unit) : bool * result unit :=
  match assertWrite l ts row with
  | Err err => (false, Err err)
  | Ok _ => (is_Ok tx_commit, tx_commit)
  end.

(** ** Processes on one database *)

(** Where a process is in [Run]. *)
Inductive runner :=
| RunIdle
| RunAcquire (ts : Z)                (* before the UPDATE *)
| RunAcquired (row : Lease) (epoch : Z) (* before the COMMIT; holds the lock *)
| RunElected (epoch : Z)             (* before [setLeader] *)
| RunRenew (epoch ts : Z)            (* before the UPDATE *)
| RunRenewed (res : result unit)     (* before the decision *)
| RunRelease (epoch ts : Z)          (* before the UPDATE *)
| RunReleased                        (* before [setStandby] *)
| RunStopped.

(** Where a write transaction is. *)
Inductive tx_phase :=
| TxAdmitted                         (* [RequireLeader] passed, before BEGIN *)
| TxWriting (ts : Z)
| TxAsserting (ts : Z)               (* [RequireLeader] passed again, before the SELECT *)
| TxQueried (row : Lease) (valid : bool) (* holds the lock *)
| TxFenced (epoch : Z).              (* may commit; holds the lock *)

Record write_tx := MkTx { tx_owner : string; tx_phase_of : tx_phase }.

Inductive holder := HeldByRun (id : string) | HeldByTx (t : nat).

#[global] Instance holder_eq_dec : EqDecision holder.
Proof. solve_decision. Defined.

(** [journal] records the committed writes: who committed and the epoch it had. *)
Record cluster := MkCluster {
  lease : Lease; clock : Z; row_lock : option holder;
  procs : gmap string (leadership * runner); txs : gmap nat write_tx;
  journal : list (string * Z)
}.

Definition with_lease (s : cluster) (row : Lease) (lk : option holder) : cluster :=
  MkCluster row (clock s) lk (procs s) (txs s) (journal s).
Definition with_proc (s : cluster) (id : string) (l : leadership) (r : runner) : cluster :=
  MkCluster (lease s) (clock s) (row_lock s) (<[id := (l, r)]> (procs s)) (txs s) (journal s).
Definition with_tx (s : cluster) (t : nat) (x : write_tx) : cluster :=
  MkCluster (lease s) (clock s) (row_lock s) (procs s) (<[t := x]> (txs s)) (journal s).
Definition without_tx (s : cluster) (t : nat) : cluster :=
  MkCluster (lease s) (clock s) (row_lock s) (procs s) (delete t (txs s)) (journal s).
Definition with_journal (s : cluster) (e : string * Z) : cluster :=
  MkCluster (lease s) (clock s) (row_lock s) (procs s) (txs s) (journal s ++ [e]).
Definition with_clock (s : cluster) (now : Z) : cluster :=
  MkCluster (lease s) now (row_lock s) (procs s) (txs s) (journal s).

Definition after_renew `{!MapOrder} (l : leadership) (res : result unit) : leadership :=
  match res with Ok _ => l | Err err => fst (setStandby l (Some err)) end.

Section Steps.
Context `{!MapOrder}.

Inductive step (s : cluster) : cluster -> Prop :=
| step_clock now : clock s <= now -> step s (with_clock s now)
(* a process starts; its random id is fresh *)
| step_start value :
    List.length value = 16%nat -> procs s !! randomLeadershipOwnerID value = None ->
    step s (with_proc s (randomLeadershipOwnerID value) (newLeadership true value) RunIdle)
(* acquire *)
| step_acquire id l :
    procs s !! id = Some (l, RunIdle) -> IsLeader (Some l) = false ->
    step s (with_proc s id l (RunAcquire (clock s)))
| step_acquire_update id l ts row epoch :
    procs s !! id = Some (l, RunAcquire ts) -> row_lock s = None ->
    acquire (L_ownerID l) ts (lease s) = Ok (row, epoch) ->
    step s (with_lease (with_proc s id l (RunAcquired row epoch)) (lease s) (Some (HeldByRun id)))
| step_acquire_fail id l ts :
    (* refused by the statement, or any error before the COMMIT *)
    procs s !! id = Some (l, RunAcquire ts) -> step s (with_proc s id l RunIdle)
| step_acquire_commit id l row epoch :
    procs s !! id = Some (l, RunAcquired row epoch) ->
    step s (with_lease (with_proc s id l (RunElected epoch)) row None)
| step_acquire_commit_lost id l row epoch :
    (* committed, but the answer is lost *)
    procs s !! id = Some (l, RunAcquired row epoch) ->
    step s (with_lease (with_proc s id l RunIdle) row None)
| step_acquire_rollback id l row epoch :
    procs s !! id = Some (l, RunAcquired row epoch) ->
    step s (with_lease (with_proc s id l RunIdle) (lease s) None)
| step_elected id l epoch :
    procs s !! id = Some (l, RunElected epoch) ->
    step s (with_proc s id (fst (setLeader l epoch)) RunIdle)
(* renew *)
| step_renew id l :
    procs s !! id = Some (l, RunIdle) -> IsLeader (Some l) = true ->
    step s (with_proc s id l (RunRenew (Epoch (Some l)) (clock s)))
| step_renew_update id l epoch ts :
    procs s !! id = Some (l, RunRenew epoch ts) -> row_lock s = None ->
    step s (with_lease (with_proc s id l (RunRenewed (snd (renew (L_ownerID l) epoch ts (lease s)))))
              (fst (renew (L_ownerID l) epoch ts (lease s))) None)
| step_renew_error id l epoch ts err :
    procs s !! id = Some (l, RunRenew epoch ts) -> step s (with_proc s id l (RunRenewed (Err err)))
| step_renew_lost id l epoch ts err :
    (* the UPDATE happened, but the answer is lost *)
    procs s !! id = Some (l, RunRenew epoch ts) -> row_lock s = None ->
    step s (with_lease (with_proc s id l (RunRenewed (Err err)))
              (fst (renew (L_ownerID l) epoch ts (lease s))) None)
| step_renewed id l res :
    procs s !! id = Some (l, RunRenewed res) -> step s (with_proc s id (after_renew l res) RunIdle)
(* the context is done: release *)
| step_release id l :
    procs s !! id = Some (l, RunIdle) -> IsLeader (Some l) = true ->
    step s (with_proc s id l (RunRelease (Epoch (Some l)) (clock s)))
| step_release_update id l epoch ts :
    procs s !! id = Some (l, RunRelease epoch ts) -> row_lock s = None ->
    step s (with_lease (with_proc s id l RunReleased) (release_statement (L_ownerID l) epoch ts (lease s)) None)
| step_release_error id l epoch ts :
    procs s !! id = Some (l, RunRelease epoch ts) -> step s (with_proc s id l RunReleased)
| step_released id l err :
    procs s !! id = Some (l, RunReleased) -> step s (with_proc s id (fst (setStandby l err)) RunStopped)
| step_stop id l :
    procs s !! id = Some (l, RunIdle) -> IsLeader (Some l) = false -> step s (with_proc s id l RunStopped)
(* write transactions *)
| step_tx_admit id l r t :
    procs s !! id = Some (l, r) -> txs s !! t = None -> beginWriteTx (Some l) = Ok tt ->
    step s (with_tx s t (MkTx id TxAdmitted))
| step_tx_begin id t :
    txs s !! t = Some (MkTx id TxAdmitted) -> step s (with_tx s t (MkTx id (TxWriting (clock s))))
| step_tx_require id l r t ts :
    txs s !! t = Some (MkTx id (TxWriting ts)) -> procs s !! id = Some (l, r) -> RequireLeader (Some l) = Ok tt ->
    step s (with_tx s t (MkTx id (TxAsserting ts)))
| step_tx_query id t ts :
    txs s !! t = Some (MkTx id (TxAsserting ts)) -> row_lock s = None ->
    step s (with_lease (with_tx s t (MkTx id (TxQueried (lease s) (lease_until (lease s) >? ts))))
              (lease s) (Some (HeldByTx t)))
| step_tx_compare id l r t row valid :
    txs s !! t = Some (MkTx id (TxQueried row valid)) -> procs s !! id = Some (l, r) ->
    assert_lease l (owner_id row) (fencing_epoch row) valid = Ok tt ->
    step s (with_tx s t (MkTx id (TxFenced (Epoch (Some l)))))
| step_tx_commit id t epoch :
    txs s !! t = Some (MkTx id (TxFenced epoch)) ->
    step s (with_journal (with_lease (without_tx s t) (lease s) None) (id, epoch))
| step_tx_rollback x t :
    (* a refusal or any other error *)
    txs s !! t = Some x ->
    step s (with_lease (without_tx s t) (lease s)
              (if decide (row_lock s = Some (HeldByTx t)) then None else row_lock s))
(* a backup of the present row is restored *)
| step_restore :
    row_lock s = None -> fencing_epoch (lease s) + 1 < 2 ^ 63 ->
    step s (with_lease s (restore_statement (lease s)) None).

Definition initial_cluster : cluster := MkCluster initial_lease 0 None ∅ ∅ [].

Inductive reachable : cluster -> Prop :=
| reach_initial : reachable initial_cluster
| reach_step s s' : reachable s -> step s s' -> reachable s'.

End Steps.

(** ** Runs by computation *)
(** The moves of a run, each with the identity of its process or transaction. *)
Inductive move :=
| Tick (now : Z) | Start (value : list ascii)
| Acquire (id : string) | Update (id : string) | Commit (id : string) | SetLeader (id : string)
| Renew (id : string) (err : error) | Release (id : string)
| Admit (id : string) (t : nat) | Begin (t : nat) | Require (t : nat) | Query (t : nat) | Compare (t : nat) | CommitTx (t : nat).

Section Runs.
Context `{!MapOrder}.

Definition run_move (s : cluster) (m : move) : option cluster :=
  match m with
  | Tick now => if clock s <=? now then Some (with_clock s now) else None
  | Start value =>
      match List.length value, procs s !! randomLeadershipOwnerID value with
      | 16%nat, None => Some (with_proc s (randomLeadershipOwnerID value) (newLeadership true value) RunIdle)
      | _, _ => None
      end
  | Acquire id =>
      match procs s !! id with
      | Some (l, RunIdle) => if L_active l then None else Some (with_proc s id l (RunAcquire (clock s)))
      | _ => None
      end
  | Update id =>
      match procs s !! id, row_lock s with
      | Some (l, RunAcquire ts), None =>
          match acquire (L_ownerID l) ts (lease s) with
          | Ok (row, epoch) => Some (with_lease (with_proc s id l (RunAcquired row epoch)) (lease s) (Some (HeldByRun id)))
          | Err _ => None
          end
      | Some (l, RunRelease epoch ts), None =>
          Some (with_lease (with_proc s id l RunReleased) (release_statement (L_ownerID l) epoch ts (lease s)) None)
      | _, _ => None
      end
  | Commit id =>
      match procs s !! id with
      | Some (l, RunAcquired row epoch) => Some (with_lease (with_proc s id l (RunElected epoch)) row None)
      | _ => None
      end
  | SetLeader id =>
      match procs s !! id with
      | Some (l, RunElected epoch) => Some (with_proc s id (fst (setLeader l epoch)) RunIdle)
      | Some (l, RunRenewed res) => Some (with_proc s id (after_renew l res) RunIdle)
      | _ => None
      end
  | Renew id err =>
      match procs s !! id with
      | Some (l, RunIdle) => if L_active l then Some (with_proc s id l (RunRenew (Epoch (Some l)) (clock s))) else None
      | Some (l, RunRenew epoch ts) => Some (with_proc s id l (RunRenewed (Err err)))
      | _ => None
      end
  | Release id =>
      match procs s !! id with
      | Some (l, RunIdle) => if L_active l then Some (with_proc s id l (RunRelease (Epoch (Some l)) (clock s))) else None
      | _ => None
      end
  | Admit id t =>
      match procs s !! id, txs s !! t with
      | Some (l, _), None => if is_Ok (beginWriteTx (Some l)) then Some (with_tx s t (MkTx id TxAdmitted)) else None
      | _, _ => None
      end
  | Begin t =>
      match txs s !! t with
      | Some (MkTx id TxAdmitted) => Some (with_tx s t (MkTx id (TxWriting (clock s))))
      | _ => None
      end
  | Require t =>
      match txs s !! t with
      | Some (MkTx id (TxWriting ts)) =>
          match procs s !! id with
          | Some (l, _) => if L_active l then Some (with_tx s t (MkTx id (TxAsserting ts))) else None
          | None => None
          end
      | _ => None
      end
  | Query t =>
      match txs s !! t, row_lock s with
      | Some (MkTx id (TxAsserting ts)), None =>
          Some (with_lease (with_tx s t (MkTx id (TxQueried (lease s) (lease_until (lease s) >? ts)))) (lease s) (Some (HeldByTx t)))
      | _, _ => None
      end
  | Compare t =>
      match txs s !! t with
      | Some (MkTx id (TxQueried row valid)) =>
          match procs s !! id with
          | Some (l, _) =>
              if is_Ok (assert_lease l (owner_id row) (fencing_epoch row) valid)
              then Some (with_tx s t (MkTx id (TxFenced (Epoch (Some l))))) else None
          | None => None
          end
      | _ => None
      end
  | CommitTx t =>
      match txs s !! t with
      | Some (MkTx id (TxFenced epoch)) =>
          Some (with_journal (with_lease (without_tx s t) (lease s) None) (id, epoch))
      | _ => None
      end
  end.

Fixpoint run (s : cluster) (ms : list move) : option cluster :=
  match ms with [] => Some s | m :: ms => s' ← run_move s m; run s' ms end.
End Runs.

(** ** What the lease promises: a fence *)
(** At any time at most one owner, every election has a new epoch, and a write is
    recorded under the owner and epoch of its moment. *)
Record fence := MkFence { fence_owner : string; fence_epoch : Z; fence_log : list (string * Z) }.

Inductive fence_step (f : fence) : fence -> Prop :=
| fence_same : fence_step f f
| fence_elect owner : owner <> "" -> fence_step f (MkFence owner (fence_epoch f + 1) (fence_log f))
| fence_retire : fence_step f (MkFence "" (fence_epoch f) (fence_log f))
| fence_void : fence_step f (MkFence "" (fence_epoch f + 1) (fence_log f))
| fence_write : fence_owner f <> "" ->
    fence_step f (MkFence (fence_owner f) (fence_epoch f) (fence_log f ++ [(fence_owner f, fence_epoch f)])).

Definition fence_of (s : cluster) : fence := MkFence (owner_id (lease s)) (fencing_epoch (lease s)) (journal s).

(** Writes are ordered by epoch, and one process makes all the writes of an epoch. *)
Definition fenced (log : list (string * Z)) : Prop :=
  StronglySorted (fun a b => snd a <= snd b /\ (snd a = snd b -> fst a = fst b)) log.
