(* ===== verification/LeadershipFacts.v ===== *)
(** * Leadership is fenced

    The cluster refines the fence of [Leadership], so the writes of an epoch come
    from one process and no write follows a write of a later epoch, whatever the
    clocks, failures and interleavings; and an unexpired lease is not taken over. *)
From S2P Require Import Prelude GoStd Samples Leadership.

(** ** The fence *)
Definition fence_inv (f : fence) : Prop :=
  fenced (fence_log f) /\
  Forall (fun e => snd e <= fence_epoch f /\
                   (snd e = fence_epoch f -> fence_owner f <> "" -> fst e = fence_owner f)) (fence_log f).

Lemma StronglySorted_snoc {A} (R : A -> A -> Prop) l x :
  StronglySorted R (l ++ [x]) <-> StronglySorted R l /\ Forall (fun y => R y x) l.
Proof.
  induction l as [|y l IH]; cbn.
  - split; intros; [split|]; repeat constructor.
  - split.
    + intros [H1 H2]%StronglySorted_inv. apply IH in H1 as [H1 H3].
      apply Forall_app in H2 as [H2 H4%Forall_inv]. split; constructor; assumption.
    + intros [[H1 H2]%StronglySorted_inv [H3 H4]%Forall_cons]. constructor; [by apply IH|].
      apply Forall_app. split; [done|by apply Forall_singleton].
Qed.

Lemma fence_step_inv f f' : fence_inv f -> fence_step f f' -> fence_inv f'.
Proof.
  intros [S H] Hs. destruct Hs; split; cbn; try done.
  - eapply Forall_impl; [exact H|]. cbn. intros [o e] [? _]; cbn in *. lia.
  - eapply Forall_impl; [exact H|]. cbn. intros [o e] [? _]; cbn in *. done.
  - eapply Forall_impl; [exact H|]. cbn. intros [o e] [? _]; cbn in *. lia.
  - apply StronglySorted_snoc. split; [done|]. eapply Forall_impl; [exact H|]. cbn. naive_solver.
  - apply Forall_app. split; [done|]. apply Forall_singleton. cbn. split; [lia|done].
Qed.

(** ** The invariant *)
(** The epochs a process holds or was granted. *)
Definition claims (p : leadership * runner) (e : Z) : Prop :=
  (L_active p.1 = true /\ L_epoch p.1 = e) \/ p.2 = RunElected e.

Definition proc_ok (row : Lease) (lk : option holder) (id : string) (p : leadership * runner) : Prop :=
  L_ownerID p.1 = id /\ id <> "" /\ (forall e, claims p e -> e <= fencing_epoch row) /\
  match p.2 with
  | RunAcquired row' e =>
      lk = Some (HeldByRun id) /\ owner_id row' = id /\ fencing_epoch row' = e /\ e = fencing_epoch row + 1
  | _ => True
  end.

Definition tx_ok (row : Lease) (lk : option holder) (t : nat) (x : write_tx) : Prop :=
  match tx_phase_of x with
  | TxQueried row' _ => lk = Some (HeldByTx t) /\ row' = row
  | TxFenced e => lk = Some (HeldByTx t) /\ owner_id row = tx_owner x /\ tx_owner x <> "" /\ fencing_epoch row = e
  | _ => True
  end.

Record Inv (s : cluster) : Prop := {
  inv_procs : map_Forall (proc_ok (lease s) (row_lock s)) (procs s);
  inv_txs : map_Forall (tx_ok (lease s) (row_lock s)) (txs s);
  inv_unique : forall i j p q e, procs s !! i = Some p -> procs s !! j = Some q -> claims p e -> claims q e -> i = j
}.

(** The row or the lock changes: those who do not hold the lock do not notice. *)
Lemma proc_ok_other row lk row' lk' id p :
  lk <> Some (HeldByRun id) -> fencing_epoch row <= fencing_epoch row' -> proc_ok row lk id p -> proc_ok row' lk' id p.
Proof.
  intros Hl He (H1 & H2 & H3 & H4). split_and!; try done.
  - intros e Hc%H3. lia.
  - destruct p as [l []]; naive_solver.
Qed.

Lemma tx_ok_other row lk row' lk' t x :
  lk <> Some (HeldByTx t) -> tx_ok row lk t x -> tx_ok row' lk' t x.
Proof. intros Hl. unfold tx_ok. destruct (tx_phase_of x); naive_solver. Qed.

(** What a step may do to the row and the lock: the lock is free or held by [h],
    who alone moves. *)
Definition only_holder (h : holder) (lk : option holder) : Prop := lk = None \/ lk = Some h.

Lemma only_holder_other h lk h' : only_holder h lk -> h' <> h -> lk <> Some h'.
Proof. unfold only_holder. naive_solver. Qed.

(** A process with its new entry; the claims it has are old ones or exceed all. *)
Lemma Inv_proc s id l r row lk :
  Inv s ->
  only_holder (HeldByRun id) (row_lock s) \/ (lk = row_lock s /\ row = lease s) ->
  fencing_epoch (lease s) <= fencing_epoch row ->
  proc_ok row lk id (l, r) ->
  (forall e, claims (l, r) e -> e <= fencing_epoch (lease s) ->
     exists p, procs s !! id = Some p /\ claims p e) ->
  Inv (MkCluster row (clock s) lk (<[id := (l, r)]> (procs s)) (txs s) (journal s)).
Proof.
  intros [Hp Ht Hu] Hh He Hok Hold. split; cbn.
  - intros i p [[<- <-]|[Hne Hi]]%lookup_insert_Some; [done|]. specialize (Hp _ _ Hi).
    destruct Hh as [Hh|[-> ->]]; [|done].
    eapply proc_ok_other; [|exact He|exact Hp]. eapply only_holder_other; [exact Hh|]. congruence.
  - intros t x Hx. specialize (Ht _ _ Hx). destruct Hh as [Hh|[-> ->]]; [|done].
    eapply tx_ok_other; [|exact Ht]. by eapply only_holder_other.
  - assert (Hnew : forall e j q, procs s !! j = Some q -> claims (l, r) e -> claims q e -> id = j).
    { intros e j q Hj Hc Hq. destruct (Hold e Hc) as (p & Hp' & Hc').
      - specialize (Hp _ _ Hj). apply Hp in Hq. lia.
      - eauto. }
    intros i j p q e [[<- <-]|[Hne Hi]]%lookup_insert_Some [[<- <-]|[Hne' Hj]]%lookup_insert_Some Hcp Hcq; eauto.
    symmetry; eauto.
Qed.

(** A transaction with its new entry ([None]: it is over). *)
Definition set_tx (m : gmap nat write_tx) (t : nat) (o : option write_tx) : gmap nat write_tx :=
  match o with Some x => <[t := x]> m | None => delete t m end.

Lemma Inv_tx s t o lk log :
  Inv s ->
  only_holder (HeldByTx t) (row_lock s) \/ lk = row_lock s ->
  (forall x, o = Some x -> tx_ok (lease s) lk t x) ->
  Inv (MkCluster (lease s) (clock s) lk (procs s) (set_tx (txs s) t o) log).
Proof.
  intros [Hp Ht Hu] Hh Hok. split; cbn; [| |done].
  - intros i p Hi. specialize (Hp _ _ Hi). destruct Hh as [Hh| ->]; [|done].
    eapply proc_ok_other; [|reflexivity|exact Hp]. by eapply only_holder_other.
  - intros i x Hi. assert (i = t /\ o = Some x \/ i <> t /\ txs s !! i = Some x) as [[-> ->]|[Hne Hi']].
    { destruct o as [y|]; cbn in Hi.
      - apply lookup_insert_Some in Hi. naive_solver.
      - apply lookup_delete_Some in Hi. naive_solver. }
    + by apply Hok.
    + specialize (Ht _ _ Hi'). destruct Hh as [Hh| ->]; [|done].
      eapply tx_ok_other; [|exact Ht]. eapply only_holder_other; [exact Hh|congruence].
Qed.

Lemma hex_encode_nonempty l : l <> [] -> hex_encode l <> "".
Proof. destruct l as [|c l]; [done|]. intros _. done. Qed.

Lemma setLeader_view `{!MapOrder} l e :
  L_active (fst (setLeader l e)) = true /\ L_epoch (fst (setLeader l e)) = e /\ L_ownerID (fst (setLeader l e)) = L_ownerID l.
Proof.
  unfold setLeader. destruct (L_active l && (L_epoch l =? e)) eqn:E; [|done].
  apply andb_true_iff in E as [E1 E2%Z.eqb_eq]. done.
Qed.

Lemma acquire_Ok ownerID ts row row' e :
  acquire ownerID ts row = Ok (row', e) ->
  owner_id row' = ownerID /\ fencing_epoch row' = e /\ e = fencing_epoch row + 1 /\ 0 < e < 2 ^ 63 /\
  (owner_id row = "" \/ lease_until row <= ts) /\ lease_until row' = ts + controllerLeaseTTL.
Proof.
  unfold acquire, acquire_statement.
  destruct (String.eqb (owner_id row) "" || (lease_until row <=? ts)) eqn:E; [|done].
  destruct (Z.ltb_spec (fencing_epoch row + 1) (2 ^ 63)); [|done]. cbn.
  destruct (Z.leb_spec (fencing_epoch row + 1) 0); [done|]. cbn. intros [= <- <-]. cbn.
  split_and!; try done; try lia.
  apply orb_true_iff in E as [E%String.eqb_eq|E%Z.leb_le]; auto.
Qed.

Lemma renew_row ownerID e ts row :
  owner_id (fst (renew ownerID e ts row)) = owner_id row /\
  fencing_epoch (fst (renew ownerID e ts row)) = fencing_epoch row.
Proof. unfold renew, renew_statement. destruct (_ && _); done. Qed.

Lemma release_row ownerID e ts row :
  fencing_epoch (release_statement ownerID e ts row) = fencing_epoch row /\
  (owner_id (release_statement ownerID e ts row) = owner_id row \/ owner_id (release_statement ownerID e ts row) = "").
Proof. unfold release_statement. destruct (_ && _); auto. Qed.

(** Moving on without a new claim, the row's epoch unchanged or grown. *)
Lemma proc_ok_next row lk row' lk' id l r l' r' :
  proc_ok row lk id (l, r) -> fencing_epoch row <= fencing_epoch row' ->
  L_ownerID l' = L_ownerID l ->
  (forall e, claims (l', r') e -> claims (l, r) e) ->
  (forall row1 e, r' <> RunAcquired row1 e) ->
  proc_ok row' lk' id (l', r').
Proof.
  intros (H1 & H2 & H3 & _) He Ho Hc Hr. split_and!; cbn in *; try congruence.
  - intros e Hclaim%Hc%H3. lia.
  - destruct r'; try done. by destruct (Hr row0 epoch).
Qed.

Lemma Inv_quiet s id l r l' r' row lk :
  Inv s -> procs s !! id = Some (l, r) ->
  only_holder (HeldByRun id) (row_lock s) \/ (lk = row_lock s /\ row = lease s) ->
  fencing_epoch (lease s) <= fencing_epoch row ->
  L_ownerID l' = L_ownerID l ->
  (forall e, claims (l', r') e -> claims (l, r) e) ->
  (forall row1 e, r' <> RunAcquired row1 e) ->
  Inv (MkCluster row (clock s) lk (<[id := (l', r')]> (procs s)) (txs s) (journal s)).
Proof.
  intros Hi Hp Hh He Ho Hc Hr. apply Inv_proc; try done.
  - eapply proc_ok_next; [apply (inv_procs _ Hi), Hp|done..].
  - eauto.
Qed.

(** The process of [Hp] moves without a new claim. *)
Ltac quiet_step :=
  match goal with
  | Hi : Inv ?s, Hp : procs ?s !! ?id = Some (?l, ?r) |- Inv (with_proc ?s ?id ?l' ?r') =>
      apply (Inv_quiet s id l r l' r' (lease s) (row_lock s) Hi Hp); [by right|reflexivity|try done|..|done]
  | Hi : Inv ?s, Hp : procs ?s !! ?id = Some (?l, ?r), Hl : row_lock ?s = None
      |- Inv (with_lease (with_proc ?s ?id ?l' ?r') ?row None) =>
      apply (Inv_quiet s id l r l' r' row None Hi Hp); [by left; left| |try done|..|done]
  end;
  try (intros ? [[? ?]|?]; [by left|done]).

Section Preservation.
Context `{!MapOrder}.

Lemma Inv_acquired s id l r row lk epoch :
  Inv s -> procs s !! id = Some (l, RunAcquired row epoch) ->
  (forall e, claims (l, r) e -> L_active l = true /\ L_epoch l = e \/ e = epoch) ->
  (forall row1 e, r <> RunAcquired row1 e) ->
  Inv (MkCluster row (clock s) lk (<[id := (l, r)]> (procs s)) (txs s) (journal s)).
Proof.
  intros Hi Hp Hc Hr. destruct (inv_procs _ Hi _ _ Hp) as (H1 & H2 & H3 & H4 & H5 & H6 & H7); cbn in *.
  apply Inv_proc; try done.
  - left. by right.
  - lia.
  - split_and!; cbn; try done.
    + intros e [[Ha He]| ->]%Hc; [|lia]. assert (e <= fencing_epoch (lease s)); [|lia]. apply H3. by left.
    + destruct r; try done. by destruct (Hr row0 epoch0).
  - intros e [[Ha He]| ->]%Hc Hle; [|lia]. eexists; split; [exact Hp|]. by left.
Qed.

Lemma Inv_run_step s id l r l' r' row lk :
  Inv s -> procs s !! id = Some (l, r) -> row_lock s = None ->
  fencing_epoch row = fencing_epoch (lease s) -> L_ownerID l' = L_ownerID l ->
  (forall e, claims (l', r') e -> claims (l, r) e) ->
  match r' with RunAcquired _ _ => False | _ => True end ->
  Inv (with_lease (with_proc s id l' r') row lk).
Proof.
  intros Hi Hp Hl He Ho Hc Hr. apply (Inv_quiet s id l r); try done.
  - left. by left.
  - lia.
  - intros row1 e ->. done.
Qed.

Lemma after_renew_view l res :
  L_ownerID (after_renew l res) = L_ownerID l /\
  (L_active (after_renew l res) = true -> after_renew l res = l).
Proof. destruct res; cbn; [done|]. split; [done|]. discriminate. Qed.

Lemma setLeader_claims l epoch e : claims (fst (setLeader l epoch), RunIdle) e -> claims (l, RunElected epoch) e.
Proof.
  pose proof (setLeader_view l epoch) as (H1 & H2 & H3).
  intros [[? ?]|?]; [|done]. right. cbn in *. congruence.
Qed.

Lemma after_renew_claims l res e : claims (after_renew l res, RunIdle) e -> claims (l, RunRenewed res) e.
Proof.
  pose proof (after_renew_view l res) as [H1 H2]. intros [[Ha He]|?]; [|done].
  cbn in *. pose proof (H2 Ha) as Heq. rewrite Heq in Ha, He. by left.
Qed.

Lemma tx_compare_ok s id l r t row valid :
  Inv s -> txs s !! t = Some (MkTx id (TxQueried row valid)) -> procs s !! id = Some (l, r) ->
  assert_lease l (owner_id row) (fencing_epoch row) valid = Ok tt ->
  tx_ok (lease s) (row_lock s) t (MkTx id (TxFenced (L_epoch l))).
Proof.
  intros Hi Ht Hp Ha. destruct (inv_procs _ Hi _ _ Hp) as (H1 & H2 & _).
  destruct (inv_txs _ Hi _ _ Ht) as [Hl ->]. unfold assert_lease in Ha. apply reject_if_Ok in Ha. bool_facts.
  unfold tx_ok; cbn in *. split_and!; congruence.
Qed.

Lemma lease_Inv_step s s' : Inv s -> step s s' -> Inv s'.
Proof.
  intros Hi Hs. destruct Hs; try quiet_step.
  - by destruct Hi.
  - apply Inv_proc; cbn; try done.
    + by right.
    + split_and!; cbn; try done.
      * apply hex_encode_nonempty. by intros ->.
      * intros e [[? ?]|?]; done.
    + intros e [[? ?]|?]; done.
  - apply acquire_Ok in H2 as (Ho & He1 & He2 & Hb & _). destruct (inv_procs _ Hi _ _ H0) as (H3 & H4 & H5 & _).
    apply (Inv_proc s id l (RunAcquired row epoch) (lease s) (Some (HeldByRun id))); cbn; try done.
    + left. by left.
    + split_and!; cbn in *; try done; [|split_and!; congruence].
      intros e [Hc|Hc]; [|done]. apply H5. by left.
    + intros e [Hc|Hc] _; [|done]. eexists; split; [exact H0|]. by left.
  - apply (Inv_acquired s id l _ row None epoch); try done. intros e [?|[= ->]]; auto.
  - apply (Inv_acquired s id l _ row None epoch); try done. intros e [?|?]; [auto|done].
  - apply (Inv_quiet s id l (RunAcquired row epoch)); try done.
    + left. right. apply (inv_procs _ Hi _ _ H0).
    + intros e [Hc|Hc]; [by left|done].
  - apply setLeader_view.
  - apply setLeader_claims.
  - rewrite (proj2 (renew_row _ _ _ _)). reflexivity.
  - rewrite (proj2 (renew_row _ _ _ _)). reflexivity.
  - apply after_renew_view.
  - apply after_renew_claims.
  - rewrite (proj1 (release_row _ _ _ _)). reflexivity.
  - by apply (Inv_tx s t (Some _)); [|right|intros ? [= <-]].
  - by apply (Inv_tx s t (Some _)); [|right|intros ? [= <-]].
  - by apply (Inv_tx s t (Some _)); [|right|intros ? [= <-]].
  - apply (Inv_tx s t (Some _)); [done|by left; left|by intros ? [= <-]].
  - apply (Inv_tx s t (Some _)); [done|by right|]. intros ? [= <-]. by eapply tx_compare_ok.
  - apply (Inv_tx s t None); [done| |done]. left. right. apply (inv_txs _ Hi _ _ H0).
  - apply (Inv_tx s t None); [done| |done]. destruct (decide _) as [E|]; [left; by right|by right].
  - destruct Hi as [Hp Ht Hu]. split; cbn; [| |done].
    + intros i p Hl. eapply (proc_ok_other (lease s)); [|cbn; lia|exact (Hp _ _ Hl)]. rewrite H0. done.
    + intros i x Hl. eapply tx_ok_other; [|exact (Ht _ _ Hl)]. rewrite H0. done.
Qed.

Lemma lease_reachable_Inv s : reachable s -> Inv s.
Proof.
  induction 1 as [|s s' _ IH Hs]; [|by eapply lease_Inv_step].
  split; cbn; [apply map_Forall_empty..|]. intros i j p q e Hp. by rewrite lookup_empty in Hp.
Qed.

End Preservation.

(** ** Refinement *)
Section Refinement.
Context `{!MapOrder}.

(** Every step of the cluster is a step of the fence. *)
Lemma step_refines s s' : Inv s -> step s s' -> fence_step (fence_of s) (fence_of s').
Proof.
  intros Hi Hs. destruct Hs; unfold fence_of; cbn; try apply fence_same.
  - destruct (inv_procs _ Hi _ _ H0) as (_ & H2 & _ & _ & <- & <- & ->). by apply fence_elect.
  - destruct (inv_procs _ Hi _ _ H0) as (_ & H2 & _ & _ & <- & <- & ->). by apply fence_elect.
  - destruct (renew_row (L_ownerID l) epoch ts (lease s)) as [-> ->]. apply fence_same.
  - destruct (renew_row (L_ownerID l) epoch ts (lease s)) as [-> ->]. apply fence_same.
  - destruct (release_row (L_ownerID l) epoch ts (lease s)) as [-> [-> | ->]]; [apply fence_same|apply fence_retire].
  - destruct (inv_txs _ Hi _ _ H0) as (_ & H2 & H3 & <-). cbn in *. rewrite <- H2. apply fence_write. by rewrite H2.
  - apply fence_void.
Qed.

Lemma fence_steps_reachable s : reachable s -> rtc fence_step (fence_of initial_cluster) (fence_of s).
Proof.
  induction 1 as [|s s' Hr IH Hs]; [reflexivity|].
  eapply rtc_r; [exact IH|]. apply step_refines; [by apply lease_reachable_Inv|done].
Qed.

Lemma fence_steps_inv f f' : fence_inv f -> rtc fence_step f f' -> fence_inv f'.
Proof. intros Hi Hr. induction Hr; eauto using fence_step_inv. Qed.

Lemma reachable_fence_inv s : reachable s -> fence_inv (fence_of s).
Proof.
  intros Hr%fence_steps_reachable. eapply fence_steps_inv; [|exact Hr]. split; constructor.
Qed.

(** C12: in every interleaving of any number of controllers and write transactions,
    with statements and commits that fail or whose answers are lost, the cluster
    implements the fence of the specification: it starts as a fresh fence, and
    every step is an election with a new epoch, a retirement, a write of the
    present owner under the present epoch, or invisible. *)
Theorem leadership_refines_fence s s' :
  reachable s -> step s s' ->
  rtc fence_step (MkFence "" 0 []) (fence_of s) /\ fence_step (fence_of s) (fence_of s').
Proof.
  intros Hr Hs. split; [exact (fence_steps_reachable s Hr)|]. apply step_refines; [by apply lease_reachable_Inv|done].
Qed.

(** C11: committed writes are fenced: no write is committed after one of a later
    epoch, and the writes of one epoch come from one controller; a transaction
    that has passed [assertWrite] is of the current owner and epoch, and no other
    transaction has passed at the same time. *)
Theorem writes_fenced s :
  reachable s ->
  fenced (journal s) /\
  forall t id epoch, txs s !! t = Some (MkTx id (TxFenced epoch)) ->
    owner_id (lease s) = id /\ fencing_epoch (lease s) = epoch /\
    Forall (fun e => snd e <= epoch) (journal s) /\
    forall t' id' epoch', txs s !! t' = Some (MkTx id' (TxFenced epoch')) -> t' = t.
Proof.
  intros Hr. destruct (reachable_fence_inv s Hr) as [Hf Hb]. split; [exact Hf|].
  intros t id epoch Ht. apply lease_reachable_Inv in Hr as Hi.
  destruct (inv_txs _ Hi _ _ Ht) as (Hl & Ho & _ & He). split_and!; try done.
  - eapply Forall_impl; [exact Hb|]. cbn. intros e [Hle _]. lia.
  - intros t' id' epoch' (Hl' & _)%(inv_txs _ Hi). congruence.
Qed.

(** No two controllers that take themselves for the leader have the same epoch,
    and no epoch is ahead of the row's. *)
Theorem one_leader_per_epoch s :
  reachable s ->
  (forall i j p q, procs s !! i = Some p -> procs s !! j = Some q ->
     IsLeader (Some p.1) = true -> IsLeader (Some q.1) = true -> Epoch (Some p.1) = Epoch (Some q.1) -> i = j) /\
  (forall i l r, procs s !! i = Some (l, r) -> IsLeader (Some l) = true -> Epoch (Some l) <= fencing_epoch (lease s)).
Proof.
  intros Hi%lease_reachable_Inv. split.
  - intros i j p q Hp Hq Lp Lq He. eapply (inv_unique _ Hi _ _ p q (Epoch (Some q.1)) Hp Hq); by left.
  - intros i l r Hp Hl. apply (inv_procs _ Hi _ _ Hp). by left.
Qed.

(** ** Time *)
(** An acquiring process read the clock earlier, and found the lease free or expired. *)
Definition time_ok (row : Lease) (now : Z) (p : leadership * runner) : Prop :=
  match p.2 with
  | RunAcquire ts => ts <= now
  | RunAcquired _ _ => owner_id row = "" \/ lease_until row <= now
  | _ => True
  end.

Definition timely (s : cluster) : Prop := forall id p, procs s !! id = Some p -> time_ok (lease s) (clock s) p.

(** A process moves, and the row changes only if no other process has acquired it. *)
Lemma timely_proc s s' id l r :
  Inv s -> timely s -> procs s' = <[id := (l, r)]> (procs s) -> clock s' = clock s ->
  only_holder (HeldByRun id) (row_lock s) \/ lease s' = lease s -> time_ok (lease s') (clock s) (l, r) ->
  timely s'.
Proof.
  intros Hi Ht Hm Hc Hh Hok i p Hp. rewrite Hm in Hp. rewrite Hc.
  apply lookup_insert_Some in Hp as [[<- <-]|[Hne Hp]]; [done|]. specialize (Ht _ _ Hp); cbn in *.
  destruct Hh as [Hh|Hrow]; [|by rewrite Hrow]. pose proof (inv_procs _ Hi _ _ Hp) as (_ & _ & _ & Hlock).
  destruct p as [l' []]; try done. destruct Hlock as [Hlock _]. destruct Hh; congruence.
Qed.

Lemma timely_same s s' :
  timely s -> procs s' = procs s -> clock s' = clock s -> lease s' = lease s -> timely s'.
Proof. intros Ht Hp Hc Hl i p. rewrite Hp, Hc, Hl. apply Ht. Qed.

Lemma timely_step s s' : Inv s -> timely s -> step s s' -> timely s'.
Proof.
  intros Hi Ht Hs.
  destruct Hs; try (by apply (timely_same s)); try (by eapply (timely_proc s); eauto).
  - intros i p Hp. specialize (Ht _ _ Hp). unfold time_ok in *. destruct p as [l []]; cbn in *; try lia.
    destruct Ht; [by left|right; lia].
  - eapply (timely_proc s); [done..|by right|]. cbn. lia.
  - eapply (timely_proc s); [done..|by right|]. apply acquire_Ok in H2 as (_ & _ & _ & _ & Hfree & _).
    pose proof (Ht _ _ H0) as Hts. cbn in *. destruct Hfree; [by left|right; lia].
  - eapply (timely_proc s); [done..| |done]. left; right. apply (inv_procs _ Hi _ _ H0).
  - eapply (timely_proc s); [done..| |done]. left; right. apply (inv_procs _ Hi _ _ H0).
  - eapply (timely_proc s); [done..| |done]. left; by left.
  - eapply (timely_proc s); [done..| |done]. left; by left.
  - eapply (timely_proc s); [done..| |done]. left; by left.
  - intros i p Hp. pose proof (inv_procs _ Hi _ _ Hp) as (_ & _ & _ & Hlock).
    destruct p as [l []]; try done; cbn in *; [by apply (Ht _ _ Hp)|]. destruct Hlock as [Hlock _]. congruence.
Qed.

Lemma reachable_timely s : reachable s -> timely s.
Proof.
  induction 1 as [|s s' Hr IH Hs]; [by intros i p Hp|].
  eapply timely_step; [by apply lease_reachable_Inv|done|done].
Qed.

(** A lease that has an owner and has not expired is not taken over: a step
    leaves it with its owner, or the owner's release or the restoration of a
    backup leaves it without one. *)
Theorem unexpired_lease_not_stolen s s' :
  reachable s -> step s s' -> owner_id (lease s) <> "" -> clock s < lease_until (lease s) ->
  owner_id (lease s') = owner_id (lease s) \/ owner_id (lease s') = "".
Proof.
  intros Hr Hs Ho Hc. pose proof (reachable_timely s Hr) as Ht.
  destruct Hs; cbn; auto.
  - destruct (Ht _ _ H0); [done|cbn in *; lia].
  - destruct (Ht _ _ H0); [done|cbn in *; lia].
  - left. apply renew_row.
  - left. apply renew_row.
  - apply release_row.
Qed.

End Refinement.

(** ** Runs by computation *)
Section Runs.
Context `{!MapOrder}.

Lemma is_Ok_unit (r : result unit) : is_Ok r = true -> r = Ok tt.
Proof. by destruct r as [[]|]. Qed.

Lemma run_move_step s m s' : run_move s m = Some s' -> step s s'.
Proof.
  destruct m; cbn; intros Hm.
  all: repeat match type of Hm with
    | match ?x with _ => _ end = _ => destruct x eqn:?; try discriminate Hm
    end.
  all: injection Hm as <-; simplify_eq.
  all: try (econstructor; try eassumption; try reflexivity; try (by apply Z.leb_le); try (by apply is_Ok_unit); fail).
  eapply step_tx_require; [done..|]. unfold RequireLeader; cbn. by rewrite Heqb.
Qed.

Lemma run_reachable s ms s' : reachable s -> run s ms = Some s' -> reachable s'.
Proof.
  revert s. induction ms as [|m ms IH]; cbn; intros s Hr Hm; [by injection Hm as <-|].
  destruct (run_move s m) as [s1|] eqn:E; [|done]. apply (IH s1); [|done].
  eapply reach_step; [exact Hr|]. by eapply run_move_step.
Qed.

Lemma run_app s ms ms' : run s (ms ++ ms') = (s' ← run s ms; run s' ms').
Proof. revert s. induction ms as [|m ms IH]; cbn; intros s; [done|]. by destruct (run_move s m); cbn. Qed.
End Runs.

(** ** A run of two controllers *)
#[local] Existing Instance go_order.

Definition value_a : list ascii := replicate 16 "a"%char.
Definition value_b : list ascii := replicate 16 "b"%char.
Definition id_a : string := randomLeadershipOwnerID value_a.
Definition id_b : string := randomLeadershipOwnerID value_b.

Definition elect (id : string) : list move := [Acquire id; Update id; Commit id; SetLeader id].
Definition open_tx (id : string) (t : nat) : list move := [Admit id t; Begin t].
Definition check_tx (t : nat) : list move := [Require t; Query t; Compare t].

(** The first controller is elected, begins two writes and commits one; its lease
    runs out, and the second controller takes over and is about to commit. *)
Definition takeover : list move :=
  [Start value_a; Start value_b] ++ elect id_a ++ open_tx id_a 0 ++ open_tx id_a 1 ++ check_tx 0 ++ [CommitTx 0; Tick 16000000000]
  ++ elect id_b ++ open_tx id_b 2 ++ check_tx 2.

Definition after (ms : list move) : cluster := default initial_cluster (run initial_cluster ms).

Lemma after_reachable ms : is_Some (run initial_cluster ms) -> reachable (after ms).
Proof.
  intros [s Hs]. unfold after. rewrite Hs. cbn. eapply run_reachable; [apply reach_initial|exact Hs].
Qed.

Example takeover_example :
  let s := after takeover in
  is_Some (run initial_cluster takeover) /\ lease s = MkLease id_b 2 31000000000 /\ journal s = [(id_a, 1)] /\
  txs s !! 1%nat = Some (MkTx id_a (TxWriting 0)) /\ txs s !! 2%nat = Some (MkTx id_b (TxFenced 2)) /\
  (* the first controller still takes itself for the leader, but its write is refused *)
  run s [CommitTx 2; Require 1; Query 1; Compare 1] = None /\
  is_Some (run s [CommitTx 2; Require 1; Query 1]).
Proof. vm_compute. split_and!; eauto. Qed.

(** A write transaction that began in epoch 1 commits in epoch 3, after another
    controller wrote in epoch 2: [assertWrite] compares the row with the epoch of
    the moment, not with the epoch in which the transaction began. *)
Definition crossing : list move :=
  [Start value_a; Start value_b] ++ elect id_a ++ open_tx id_a 1.
Definition crossed : list move :=
  [Renew id_a ErrLeadershipLost; Renew id_a ErrLeadershipLost; SetLeader id_a; Tick 16000000000]
  ++ elect id_b ++ open_tx id_b 2 ++ check_tx 2 ++ [CommitTx 2; Release id_b; Update id_b]
  ++ elect id_a ++ check_tx 1.

Example write_begun_in_old_epoch :
  let s := after crossing in
  let s' := after (crossing ++ crossed) in
  is_Some (run initial_cluster (crossing ++ crossed)) /\
  txs s !! 1%nat = Some (MkTx id_a (TxWriting 0)) /\ procs s !! id_a = Some (MkLeadership true id_a true 1 ∅ 0, RunIdle) /\
  journal s' = [(id_b, 2)] /\ txs s' !! 1%nat = Some (MkTx id_a (TxFenced 3)).
Proof. vm_compute. split_and!; eauto. Qed.

(** ** Witnesses *)
Lemma leadership_refines_fence_witness :
  let s := after takeover in
  reachable s /\ fence_step (fence_of s) (fence_of (default s (run s [CommitTx 2]))).
Proof.
  assert (Hr : reachable (after takeover)) by (apply after_reachable; vm_compute; eauto).
  split; [exact Hr|]. apply (leadership_refines_fence (after takeover)); [exact Hr|].
  apply (run_move_step _ (CommitTx 2)). vm_compute. reflexivity.
Defined.

Lemma writes_fenced_witness :
  let s := after takeover in
  reachable s /\ txs s !! 2%nat = Some (MkTx id_b (TxFenced 2)) /\
  fenced (journal s) /\ Forall (fun e => snd e <= 2) (journal s).
Proof.
  assert (Hr : reachable (after takeover)) by (apply after_reachable; vm_compute; eauto).
  assert (Ht : txs (after takeover) !! 2%nat = Some (MkTx id_b (TxFenced 2))) by (vm_compute; reflexivity).
  destruct (writes_fenced _ Hr) as [Hf H2]. destruct (H2 _ _ _ Ht) as (_ & _ & Hle & _).
  split_and!; [exact Hr|exact Ht|exact Hf|exact Hle].
Defined.

Lemma one_leader_per_epoch_witness :
  reachable (after takeover) /\
  forall i j p q, procs (after takeover) !! i = Some p -> procs (after takeover) !! j = Some q ->
    IsLeader (Some p.1) = true -> IsLeader (Some q.1) = true -> Epoch (Some p.1) = Epoch (Some q.1) -> i = j.
Proof.
  assert (Hr : reachable (after takeover)) by (apply after_reachable; vm_compute; eauto).
  split; [exact Hr|]. apply (one_leader_per_epoch _ Hr).
Defined.

Lemma unexpired_lease_not_stolen_witness :
  let s := after crossing in let s' := default s (run s [Renew id_a ErrLeadershipLost]) in
  reachable s /\ owner_id (lease s) <> "" /\ clock s < lease_until (lease s) /\
  (owner_id (lease s') = owner_id (lease s) \/ owner_id (lease s') = "").
Proof.
  assert (Hr : reachable (after crossing)) by (apply after_reachable; vm_compute; eauto).
  assert (Ho : owner_id (lease (after crossing)) <> "") by (vm_compute; discriminate).
  assert (Hc : clock (after crossing) < lease_until (lease (after crossing))) by (vm_compute; reflexivity).
  split_and!; [exact Hr|exact Ho|exact Hc|].
  apply unexpired_lease_not_stolen; [exact Hr| |exact Ho|exact Hc].
  apply (run_move_step _ (Renew id_a ErrLeadershipLost)). vm_compute. reflexivity.
Defined.
