(* ===== verification/Files.v ===== *)
(** * Files (the calls of package os; src/internal/atomicfile/write.go)

    The calls on regular files, over a map from paths to contents.  Each call asks
    an oracle whether it succeeds, so a theorem for every oracle covers every
    failing call.  [history] collects the states a crash of the process can leave:
    the files after each call, and after each byte of a copy.  Directories always
    exist; modes, links and loss of unsynced data by the system are not modelled. *)
From S2P Require Import Prelude GoStd Effects.

Abbreviation files := (gmap string (list ascii)).

(** What the system does with a call: [Stops n] ends a write after [n] bytes. *)
Inductive outcome := Done | Fails | Stops (n : nat).

(** What a process asks of the system besides files. *)
Inductive event :=
| Killed (pid : Z) | Started (path : string) (args : list string)
(* an update's outcome told to the Controller, or stored by it *)
| Reported (action state version message : string).

Record world := MkWorld { disk : files; oracle : list outcome; history : list files; happened : list event }.

Abbreviation IO A := (M world A).

Definition ErrNotExist := EExternal "os.ErrNotExist".
Definition is_not_exist (e : error) : bool := match e with EExternal o => String.eqb o "os.ErrNotExist" | _ => false end.
(** Any other [PathError]. *)
Definition os_error (call : string) : error := EWrap call [] (EExternal "errno").

(** The next answer of the oracle; an exhausted oracle lets every call succeed. *)
Definition ask : IO outcome := fun w =>
  match oracle w with
  | [] => (w, Ok Done)
  | o :: os => (MkWorld (disk w) os (history w) (happened w), Ok o)
  end.

Definition get_disk : IO files := fun w => (w, Ok (disk w)).
(** A crash between this call and the next leaves [d]. *)
Definition put_disk (d : files) : IO unit := fun w => (MkWorld d (oracle w) (history w ++ [d]) (happened w), Ok tt).
Definition log_event (e : event) : IO unit := fun w => (MkWorld (disk w) (oracle w) (history w) (happened w ++ [e]), Ok tt).

(** A call that the system may refuse. *)
Definition syscall {A} (call : string) (m : IO A) : IO A :=
  o ← ask; match o with Done => m | _ => fail (os_error call) end.

Module os.
Definition MkdirAll (path : string) : IO unit := syscall "MkdirAll" (mret tt).

Definition Remove (path : string) : IO unit := syscall "Remove" (
  d ← get_disk;
  match d !! path with Some _ => put_disk (delete path d) | None => fail ErrNotExist end).

Definition Rename (oldpath newpath : string) : IO unit := syscall "Rename" (
  d ← get_disk;
  match d !! oldpath with
  | Some data => put_disk (<[newpath := data]> (delete oldpath d))
  | None => fail ErrNotExist
  end).

Definition Chmod (path : string) : IO unit := syscall "Chmod" (
  d ← get_disk;
  match d !! path with Some _ => mret tt | None => fail ErrNotExist end).

Definition Open (path : string) : IO unit := syscall "Open" (
  d ← get_disk;
  match d !! path with Some _ => mret tt | None => fail ErrNotExist end).

(** Also reading an open file to the end. *)
Definition ReadFile (path : string) : IO (list ascii) := syscall "ReadFile" (
  d ← get_disk;
  match d !! path with Some data => mret data | None => fail ErrNotExist end).

Definition Stat (path : string) : IO unit := syscall "Stat" (
  d ← get_disk;
  match d !! path with Some _ => mret tt | None => fail ErrNotExist end).

(** Open for writing, with truncation. *)
Definition Create (path : string) : IO unit := syscall "OpenFile" (d ← get_disk; put_disk (<[path := []]> d)).

(** Append byte by byte to the open file. *)
Fixpoint append_bytes (path : string) (data : list ascii) : IO unit :=
  match data with
  | [] => mret tt
  | c :: data => d ← get_disk; _ ← put_disk (<[path := default [] (d !! path) ++ [c]]> d); append_bytes path data
  end.

Definition Write (path : string) (data : list ascii) : IO unit :=
  o ← ask;
  match o with
  | Done => append_bytes path data
  | Fails => fail (os_error "Write")
  | Stops n => _ ← append_bytes path (firstn n data); fail (os_error "Write")
  end.

Definition Sync (path : string) : IO unit := syscall "Sync" (mret tt).
Definition Close (path : string) : IO unit := syscall "Close" (mret tt).

Definition WriteFile (path : string) (data : list ascii) : IO unit :=
  _ ← Create path; _ ← Write path data; Close path.
End os.

(** [os.CreateTemp] picks a name that no file has. *)
Class TempNames := {
  temp_name : string -> string -> files -> string;
  temp_name_fresh : forall path pattern d, d !! temp_name path pattern d = None
}.

(** ** internal/atomicfile *)
Section Atomic.
Context `{TN : !TempNames}.

Definition CreateTemp (path pattern : string) : IO string := syscall "CreateTemp" (
  d ← get_disk;
  let name := temp_name path pattern d in
  _ ← put_disk (<[name := []]> d);
  mret name).

Definition tempPrefix := ".asterferry-atomic-*".

Definition ensureParent (path : string) : IO unit := os.MkdirAll path.

(** Run the body; when it fails, run the clean-up, whose own error is dropped. *)
Definition on_error {A} (body : IO A) (cleanup : IO unit) : IO A :=
  r ← try body;
  match r with Ok a => mret a | Err e => _ ← try cleanup; fail e end.

(** After the body, whatever its outcome. *)
Definition finally {A} (body : IO A) (cleanup : IO unit) : IO A :=
  r ← try body; _ ← try cleanup; lift r.

Definition WriteTemp (path pattern : string) (data : list ascii) : IO string :=
  _ ← ensureParent path;
  tmpPath ← CreateTemp path pattern;
  on_error (
    _ ← os.Chmod tmpPath;
    _ ← os.Write tmpPath data;
    _ ← os.Sync tmpPath;
    _ ← os.Close tmpPath;
    mret tmpPath) (os.Remove tmpPath).

Definition reservePath (path pattern : string) : IO string :=
  reserved ← CreateTemp path pattern;
  _ ← on_error (os.Close reserved) (os.Remove reserved);
  _ ← os.Remove reserved;
  mret reserved.

Definition publish_fallback (path tmpPath : string) (firstErr : error) : IO unit :=
  stat ← try (os.Stat path);
  match stat with
  | Err statErr => fail (EJoin firstErr statErr)
  | Ok _ =>
      reserve ← try (reservePath path ".asterferry-backup-*");
      match reserve with
      | Err reserveErr => fail (EJoin firstErr reserveErr)
      | Ok backupPath =>
          moved ← try (os.Rename path backupPath);
          match moved with
          | Err backupErr => _ ← try (os.Remove backupPath); fail (EJoin firstErr backupErr)
          | Ok _ =>
              published ← try (os.Rename tmpPath path);
              match published with
              | Err publishErr =>
                  restored ← try (os.Rename backupPath path);
                  fail (EJoin firstErr (match restored with Err e => EJoin publishErr e | Ok _ => publishErr end))
              | Ok _ => _ ← try (os.Remove backupPath); mret tt
              end
          end
      end
  end.

Definition AtomicWrite (path : string) (data : list ascii) : IO unit :=
  tmpPath ← WriteTemp path tempPrefix data;
  finally (
    renamed ← try (os.Rename tmpPath path);
    match renamed with
    | Ok _ => mret tt
    | Err firstErr => publish_fallback path tmpPath firstErr
    end) (os.Remove tmpPath).

Definition Write (path : string) (data : list ascii) : IO unit :=
  _ ← ensureParent path; _ ← os.WriteFile path data; os.Chmod path.
End Atomic.
