(* ===== verification/FilesFacts.v ===== *)
(** * Crash reasoning for files

    [keeps C P m Q]: from files of [P] the operation ends in files of [Q] of its
    result, and every state in which the process can stop on the way is in [C].
    The theorem on [AtomicWrite] is the first use. *)
From S2P Require Import Prelude GoStd Effects Files.

Definition keeps {A} (C P : files -> Prop) (m : IO A) (Q : result A -> files -> Prop) : Prop :=
  hoare (fun w => Forall C (history w) /\ P (disk w)) m (fun r w => Forall C (history w) /\ Q r (disk w)).

Section Rules.
Implicit Types C P F : files -> Prop.

Lemma keeps_weaken {A} C P P' (m : IO A) (Q Q' : result A -> files -> Prop) :
  keeps C P' m Q' -> (forall d, P d -> P' d) -> (forall r d, Q' r d -> Q r d) -> keeps C P m Q.
Proof. intros H HP HQ. eapply hoare_weaken; [exact H|naive_solver..]. Qed.

Lemma keeps_pure {A} C P (X : Prop) (m : IO A) Q : (X -> keeps C P m Q) -> keeps C (fun d => P d /\ X) m Q.
Proof. intros Hm w (Hh & Hp & Hx). exact (Hm Hx w (conj Hh Hp)). Qed.

Lemma keeps_ret {A} C P (a : A) (Q : result A -> files -> Prop) : (forall d, P d -> Q (Ok a) d) -> keeps C P (mret a) Q.
Proof. intros H. apply hoare_ret. naive_solver. Qed.

Lemma keeps_fail {A} C P e (Q : result A -> files -> Prop) : (forall d, P d -> Q (Err e) d) -> keeps C P (fail e) Q.
Proof. intros H. apply hoare_fail. naive_solver. Qed.

Lemma keeps_lift {A} C P (r : result A) (Q : result A -> files -> Prop) : (forall d, P d -> Q r d) -> keeps C P (lift r) Q.
Proof. intros H. apply hoare_lift. naive_solver. Qed.

Lemma keeps_bind {A B} C P (m : IO A) (f : A -> IO B) (K : A -> files -> Prop) Q :
  keeps C P m (fun r d => match r with Ok a => K a d | Err e => Q (Err e) d end) ->
  (forall a, keeps C (K a) (f a) Q) -> keeps C P (m ≫= f) Q.
Proof.
  intros Hm Hf. eapply (hoare_bind _ _ _ (fun a w => Forall C (history w) /\ K a (disk w))); [|exact Hf].
  eapply hoare_weaken; [exact Hm|done|]. intros [a|e] w; naive_solver.
Qed.

Lemma keeps_try {A} C P (m : IO A) (Q : result (result A) -> files -> Prop) :
  keeps C P m (fun r d => Q (Ok r) d) -> keeps C P (try m) Q.
Proof. intros H. by apply hoare_try. Qed.

Lemma keeps_ask C P : keeps C P ask (fun r d => is_Ok r = true /\ P d).
Proof. intros w [Hh Hp]. unfold ask. by destruct (oracle w). Qed.

Lemma keeps_syscall {A} C P call (m : IO A) Q :
  keeps C P m Q -> (forall d, P d -> Q (Err (os_error call)) d) -> keeps C P (syscall call m) Q.
Proof.
  intros Hm Hf. eapply keeps_bind with (K := fun _ => P).
  - eapply keeps_weaken; [apply (keeps_ask C P)|intros ? Hd; exact Hd|]. intros [o|e] d; intros [He Hd]; [exact Hd|done].
  - intros [| |n]; [exact Hm|by apply keeps_fail..].
Qed.

(** The rest of an operation that reads the files. *)
Lemma keeps_get {A} C P (f : files -> IO A) Q :
  (forall d, P d -> keeps C (eq d) (f d) Q) -> keeps C P (d ← get_disk; f d) Q.
Proof. intros H w [Hh Hp]. exact (H (disk w) Hp w (conj Hh eq_refl)). Qed.

Lemma keeps_put C P d' (Q : result unit -> files -> Prop) :
  C d' -> Q (Ok tt) d' -> keeps C P (put_disk d') Q.
Proof. intros HC HQ w [Hh _]. cbn. split; [|done]. apply Forall_app. split; [done|]. by constructor. Qed.

(** ** The calls *)
Lemma not_exist_os_error call : is_not_exist (os_error call) = false.
Proof. done. Qed.

Lemma keeps_Remove C P path Q :
  (forall d, P d -> is_Some (d !! path) -> C (delete path d) /\ Q (Ok tt) (delete path d)) ->
  (forall d, P d -> d !! path = None -> Q (Err ErrNotExist) d) ->
  (forall d, P d -> Q (Err (os_error "Remove")) d) ->
  keeps C P (os.Remove path) Q.
Proof.
  intros H1 H2 H3. apply keeps_syscall; [|exact H3]. apply keeps_get. intros d Hd.
  destruct (d !! path) eqn:E.
  - destruct (H1 d Hd) as [HC HQ]; [done|]. by apply keeps_put.
  - apply keeps_fail. intros ? <-. by apply H2.
Qed.

Lemma keeps_Rename C P a b Q :
  (forall d data, P d -> d !! a = Some data -> C (<[b := data]> (delete a d)) /\ Q (Ok tt) (<[b := data]> (delete a d))) ->
  (forall d e, P d -> Q (Err e) d) ->
  keeps C P (os.Rename a b) Q.
Proof.
  intros H1 H2. apply keeps_syscall; [|by intros; apply H2]. apply keeps_get. intros d Hd.
  destruct (d !! a) eqn:E.
  - destruct (H1 d _ Hd E) as [HC HQ]. by apply keeps_put.
  - apply keeps_fail. intros ? <-. by apply H2.
Qed.

(** A call that reads, or only checks that the file exists. *)
Lemma keeps_Chmod C P path Q :
  (forall r d, P d -> Q r d) -> keeps C P (os.Chmod path) Q.
Proof.
  intros H. apply keeps_syscall; [|by auto]. apply keeps_get. intros d Hd.
  destruct (d !! path); [apply keeps_ret|apply keeps_fail]; intros ? <-; auto.
Qed.

Lemma keeps_Stat C P path Q :
  (forall d, P d -> is_Some (d !! path) -> Q (Ok tt) d) -> (forall d e, P d -> Q (Err e) d) -> keeps C P (os.Stat path) Q.
Proof.
  intros H1 H2. apply keeps_syscall; [|by auto]. apply keeps_get. intros d Hd.
  destruct (d !! path) eqn:E; [apply keeps_ret|apply keeps_fail]; intros ? <-; eauto.
Qed.

Lemma keeps_Open C P path Q :
  (forall d, P d -> is_Some (d !! path) -> Q (Ok tt) d) -> (forall d e, P d -> Q (Err e) d) -> keeps C P (os.Open path) Q.
Proof.
  intros H1 H2. apply keeps_syscall; [|by auto]. apply keeps_get. intros d Hd.
  destruct (d !! path) eqn:E; [apply keeps_ret|apply keeps_fail]; intros ? <-; eauto.
Qed.

Lemma keeps_ReadFile C P path Q :
  (forall d data, P d -> d !! path = Some data -> Q (Ok data) d) ->
  (forall d e, P d -> Q (Err e) d) ->
  keeps C P (os.ReadFile path) Q.
Proof.
  intros H1 H2. apply keeps_syscall; [|by auto]. apply keeps_get. intros d Hd.
  destruct (d !! path) eqn:E; [apply keeps_ret|apply keeps_fail]; intros ? <-; auto.
Qed.

Lemma keeps_trivial {A} C P call (a : A) Q :
  (forall r d, P d -> Q r d) -> keeps C P (syscall call (mret a)) Q.
Proof. intros H. apply keeps_syscall; [|by auto]. apply keeps_ret. auto. Qed.

(** ** Writing one file, the others untouched *)
(** [F] does not look at [path]. *)
Definition ignores (path : string) F : Prop := forall d x, F d -> F (<[path := x]> d).

Lemma keeps_append C F path data : forall pre,
  ignores path F -> (forall d, F d -> C d) ->
  keeps C (fun d => F d /\ d !! path = Some pre) (os.append_bytes path data)
    (fun r d => r = Ok tt /\ F d /\ d !! path = Some (pre ++ data)).
Proof.
  induction data as [|c data IH]; intros pre Hi HC.
  - apply keeps_ret. intros d [HF Hd]. by rewrite app_nil_r.
  - cbn. apply keeps_get. intros d [HF Hd]. rewrite Hd. cbn.
    eapply keeps_bind with (K := fun _ d => F d /\ d !! path = Some (pre ++ [c])).
    + apply keeps_put; [by apply HC, Hi|]. split; [by apply Hi|apply lookup_insert_eq].
    + intros _. eapply keeps_weaken; [by apply (IH (pre ++ [c]))|done|].
      intros r d'. by rewrite <- app_assoc.
Qed.

Lemma keeps_Write C F path data :
  ignores path F -> (forall d, F d -> C d) ->
  keeps C (fun d => F d /\ d !! path = Some []) (os.Write path data)
    (fun r d => F d /\ is_Some (d !! path) /\ (is_Ok r = true -> d !! path = Some data)).
Proof.
  intros Hi HC. eapply keeps_bind with (K := fun _ d => F d /\ d !! path = Some []).
  - eapply keeps_weaken; [apply (keeps_ask C (fun d => F d /\ d !! path = Some []))|intros ? Hd; exact Hd|]. intros [o|e] d; naive_solver.
  - intros [| |n].
    + eapply keeps_weaken; [by apply (keeps_append C F path data [])|done|].
      cbn. intros r d (-> & HF & Hd). split_and!; eauto.
    + apply keeps_fail. intros d [HF Hd]. split_and!; [done|eauto|done].
    + eapply keeps_bind with (K := fun _ d => F d /\ is_Some (d !! path)).
      * eapply keeps_weaken; [by apply (keeps_append C F path (firstn n data) [])|done|].
        cbn. intros r d (-> & HF & Hd). split; eauto.
      * intros []. apply keeps_fail. intros d [HF Hd]. split_and!; [done..|]. done.
Qed.

Lemma keeps_Create C F path :
  ignores path F -> (forall d, F d -> C d) ->
  keeps C F (os.Create path) (fun r d => F d /\ (is_Ok r = true -> d !! path = Some [])).
Proof.
  intros Hi HC. apply keeps_syscall; [|by intros; split].
  apply keeps_get. intros d HF. apply keeps_put; [by apply HC, Hi|]. split; [by apply Hi|intros _; apply lookup_insert_eq].
Qed.
End Rules.

(** ** The calls when the system grants them all *)
Section Granted.
Context (d : files) (h : list files) (ev : list event).

Lemma run_bind {A B} (m : IO A) (f : A -> IO B) w w' r :
  m w = (w', r) -> (m ≫= f) w = match r with Ok a => f a w' | Err e => (w', Err e) end.
Proof. intros Hm. cbv [mbind M_bind]. by rewrite Hm. Qed.

Lemma run_try {A} (m : IO A) w w' r : m w = (w', r) -> try m w = (w', Ok r).
Proof. intros Hm. unfold try. by rewrite Hm. Qed.

Lemma run_MkdirAll p : os.MkdirAll p (MkWorld d [] h ev) = (MkWorld d [] h ev, Ok tt).
Proof. done. Qed.

Lemma run_ReadFile p : os.ReadFile p (MkWorld d [] h ev) =
  (MkWorld d [] h ev, match d !! p with Some c => Ok c | None => Err ErrNotExist end).
Proof. cbv [os.ReadFile syscall mbind M_bind ask oracle get_disk disk]. by destruct (d !! p). Qed.

Lemma run_Remove p : os.Remove p (MkWorld d [] h ev) =
  match d !! p with
  | Some _ => (MkWorld (delete p d) [] (h ++ [delete p d]) ev, Ok tt)
  | None => (MkWorld d [] h ev, Err ErrNotExist)
  end.
Proof. cbv [os.Remove syscall mbind M_bind ask oracle get_disk disk]. by destruct (d !! p). Qed.

Lemma run_Rename a b : os.Rename a b (MkWorld d [] h ev) =
  match d !! a with
  | Some c => (MkWorld (<[b := c]> (delete a d)) [] (h ++ [<[b := c]> (delete a d)]) ev, Ok tt)
  | None => (MkWorld d [] h ev, Err ErrNotExist)
  end.
Proof. cbv [os.Rename syscall mbind M_bind ask oracle get_disk disk]. by destruct (d !! a). Qed.

Lemma run_Chmod p : os.Chmod p (MkWorld d [] h ev) =
  (MkWorld d [] h ev, match d !! p with Some _ => Ok tt | None => Err ErrNotExist end).
Proof. cbv [os.Chmod syscall mbind M_bind ask oracle get_disk disk]. by destruct (d !! p). Qed.
End Granted.

(** ** Clean-up *)
Section Cleanup.
Implicit Types C P F : files -> Prop.

Lemma keeps_on_error {A} C P K (body : IO A) cleanup Q :
  keeps C P body (fun r d => match r with Ok a => Q (Ok a) d | Err _ => K d end) ->
  keeps C K cleanup (fun _ d => forall e, Q (Err e) d) ->
  keeps C P (on_error body cleanup) Q.
Proof.
  intros Hb Hc. eapply keeps_bind with (K := fun r d => match r with Ok a => Q (Ok a) d | Err _ => K d end).
  - by apply keeps_try.
  - intros [a|e]; [by apply keeps_ret|].
    eapply keeps_bind with (K := fun _ d => forall e, Q (Err e) d).
    + apply keeps_try. exact Hc.
    + intros _. apply keeps_fail. auto.
Qed.

Lemma keeps_finally {A} C P (K : result A -> files -> Prop) (body : IO A) cleanup Q :
  keeps C P body K -> (forall r, keeps C (K r) cleanup (fun _ d => Q r d)) ->
  keeps C P (finally body cleanup) Q.
Proof.
  intros Hb Hc. eapply keeps_bind with (K := K); [by apply keeps_try|]. intros r.
  eapply keeps_bind with (K := fun _ d => Q r d); [apply keeps_try, Hc|].
  intros _. by apply keeps_lift.
Qed.

(** A call whose outcome is dropped. *)
Lemma keeps_ignored {A} C P (m : IO A) (Q : result unit -> files -> Prop) :
  keeps C P m (fun _ d => Q (Ok tt) d) -> keeps C P (_ ← try m; mret tt) Q.
Proof.
  intros Hm. eapply keeps_bind with (K := fun _ d => Q (Ok tt) d); [by apply keeps_try|].
  intros _. by apply keeps_ret.
Qed.

(** Removing a file that [F] does not look at. *)
Lemma keeps_Remove_other C F path :
  (forall d, F d -> F (delete path d)) -> (forall d, F d -> C d) -> keeps C F (os.Remove path) (fun _ => F).
Proof. intros Hd HC. apply keeps_Remove; [|done..]. intros d HF _. split; auto. Qed.
End Cleanup.

Lemma ignores_lookup path p x : path <> p -> ignores path (fun d => d !! p = x).
Proof. intros Hne d y Hd. by rewrite lookup_insert_ne. Qed.

Lemma delete_lookup (path p : string) x (d : files) : path <> p -> d !! p = x -> delete path d !! p = x.
Proof. intros Hne Hd. by rewrite lookup_delete_ne. Qed.

(** ** AtomicWrite *)
Section AtomicWriteFacts.
Context `{TN : !TempNames} (path : string) (data : list ascii) (old : option (list ascii)).
Hypothesis temp_other : forall pattern d, temp_name path pattern d <> path.

(** What a crash may leave: the old contents, the new ones, or, where the fallback
    had to move the old file aside, the old contents under another name. *)
Definition not_torn (d : files) : Prop :=
  d !! path = old \/ d !! path = Some data \/
  (d !! path = None /\ exists backup x, old = Some x /\ d !! backup = Some x).

(** Every operation below stays in a set that allows those states. *)
Context (C : files -> Prop) (allowed : forall d, not_torn d -> C d).

Lemma keeps_CreateTemp pattern :
  keeps C (fun d => d !! path = old) (CreateTemp path pattern)
    (fun r d => d !! path = old /\ match r with Ok tmp => tmp <> path /\ d !! tmp = Some [] | Err _ => True end).
Proof.
  apply keeps_syscall; [|done]. apply keeps_get. intros d Hd.
  eapply keeps_bind with (K := fun _ d => d !! path = old /\ d !! temp_name path pattern _ = Some []).
  - apply keeps_put.
    + apply allowed. left. by rewrite lookup_insert_ne.
    + split; [by rewrite lookup_insert_ne|apply lookup_insert_eq].
  - intros _. apply keeps_ret. intros d' [H1 H2]. eauto.
Qed.

Lemma keeps_WriteTemp pattern :
  keeps C (fun d => d !! path = old) (WriteTemp path pattern data)
    (fun r d => d !! path = old /\ match r with Ok tmp => tmp <> path /\ d !! tmp = Some data | Err _ => True end).
Proof.
  eapply keeps_bind with (K := fun _ d => d !! path = old).
  { apply keeps_trivial. intros [] d Hd; [done|split; done]. }
  intros _. eapply keeps_bind with (K := fun tmp d => d !! path = old /\ tmp <> path /\ d !! tmp = Some []).
  { eapply keeps_weaken; [apply keeps_CreateTemp|done|]. intros [tmp|e] d; naive_solver. }
  intros tmp. apply (keeps_on_error _ _ (fun d => tmp <> path /\ d !! path = old)).
  - eapply keeps_bind with (K := fun _ d => (tmp <> path /\ d !! path = old) /\ d !! tmp = Some []).
    { apply keeps_Chmod. intros [] d; naive_solver. }
    intros _. eapply keeps_bind with (K := fun _ d => (tmp <> path /\ d !! path = old) /\ d !! tmp = Some data).
    { eapply keeps_weaken; [apply (keeps_Write C (fun d => tmp <> path /\ d !! path = old) tmp data)| |].
      - intros d x [Hne Hd]. by rewrite lookup_insert_ne.
      - intros d [_ Hd]. apply allowed. by left.
      - done.
      - intros [[]|e] d; naive_solver. }
    intros _. eapply keeps_bind with (K := fun _ d => (tmp <> path /\ d !! path = old) /\ d !! tmp = Some data).
    { apply keeps_trivial. intros [] d; naive_solver. }
    intros _. eapply keeps_bind with (K := fun _ d => (tmp <> path /\ d !! path = old) /\ d !! tmp = Some data).
    { apply keeps_trivial. intros [] d; naive_solver. }
    intros _. apply keeps_ret. naive_solver.
  - eapply keeps_weaken; [apply (keeps_Remove_other C (fun d => tmp <> path /\ d !! path = old))|done|].
    + intros d [Hne Hd]. by rewrite lookup_delete_ne.
    + intros d [_ Hd]. apply allowed. by left.
    + intros r d [_ Hd] e. done.
Qed.
(** Where [AtomicWrite] stands before it publishes [tmp], and what it ends in. *)
Definition staged_at (tmp : string) (d : files) : Prop := d !! path = old /\ tmp <> path /\ d !! tmp = Some data.
Definition moved_aside (tmp backup : string) (d : files) : Prop :=
  d !! path = None /\ backup <> tmp /\ backup <> path /\ tmp <> path /\ d !! tmp = Some data /\
  exists x, old = Some x /\ d !! backup = Some x.
(** A failed publication. *)
Definition not_published (d : files) : Prop :=
  d !! path = old \/ (d !! path = None /\ exists backup x, old = Some x /\ d !! backup = Some x).
(** With the temporary file out of the way. *)
Definition ended (tmp : string) (r : result unit) (d : files) : Prop :=
  tmp <> path /\
  match r with
  | Ok _ => d !! path = Some data
  | Err _ => d !! path = old \/ (d !! path = None /\ exists backup x, backup <> tmp /\ old = Some x /\ d !! backup = Some x)
  end.

Lemma staged_not_torn tmp d : staged_at tmp d -> not_torn d.
Proof. intros [Hd _]. by left. Qed.
Lemma staged_failed tmp d e : staged_at tmp d -> ended tmp (Err e) d.
Proof. intros (Hd & ? & _). split; [done|by left]. Qed.
Lemma moved_not_torn tmp b d : moved_aside tmp b d -> not_torn d.
Proof. intros (Hd & _ & _ & _ & _ & x & ? & ?). right. right. eauto. Qed.
Lemma moved_failed tmp b d e : moved_aside tmp b d -> ended tmp (Err e) d.
Proof. intros (Hd & ? & _ & ? & _ & x & ? & ?). split; [done|]. right. eauto 6. Qed.

Lemma keeps_reservePath tmp pattern :
  keeps C (staged_at tmp) (reservePath path pattern)
    (fun r d => staged_at tmp d /\ match r with Ok b => b <> path /\ b <> tmp | Err _ => True end).
Proof.
  eapply keeps_bind with (K := fun b d => staged_at tmp d /\ b <> path /\ b <> tmp).
  { apply keeps_syscall; [|done]. apply keeps_get. intros d (H1 & H2 & H3).
    assert (temp_name path pattern d <> tmp) as Hne.
    { intros E. pose proof (temp_name_fresh path pattern d). congruence. }
    eapply keeps_bind with (K := fun _ d => staged_at tmp d).
    - apply keeps_put.
      + apply allowed. left. by rewrite lookup_insert_ne.
      + split_and!; [by rewrite lookup_insert_ne|done|by rewrite lookup_insert_ne].
    - intros _. apply keeps_ret. eauto. }
  assert (Hrem : forall b, keeps C (fun d => staged_at tmp d /\ b <> path /\ b <> tmp) (os.Remove b)
                   (fun _ d => staged_at tmp d /\ b <> path /\ b <> tmp)).
  { intros b. apply keeps_Remove_other.
    - intros d ((H1 & H2 & H3) & H4 & H5). split_and!; try done. split_and!; [|done|]; by rewrite lookup_delete_ne.
    - intros d (Hd & _). by eapply allowed, staged_not_torn. }
  intros b. eapply keeps_bind with (K := fun _ d => staged_at tmp d /\ b <> path /\ b <> tmp).
  { apply (keeps_on_error _ _ (fun d => staged_at tmp d /\ b <> path /\ b <> tmp)).
    - apply keeps_trivial. intros [] d Hd; done.
    - eapply keeps_weaken; [apply Hrem|done|]. naive_solver. }
  intros _. eapply keeps_bind with (K := fun _ d => staged_at tmp d /\ b <> path /\ b <> tmp).
  { eapply keeps_weaken; [apply Hrem|done|]. intros [] d; naive_solver. }
  intros _. apply keeps_ret. naive_solver.
Qed.

(** The old file is aside: publish, or move it back. *)
Lemma keeps_publish_aside tmp backup firstErr :
  keeps C (moved_aside tmp backup)
    (published ← try (os.Rename tmp path);
     match published with
     | Err publishErr =>
         restored ← try (os.Rename backup path);
         fail (EJoin firstErr (match restored with Err e => EJoin publishErr e | Ok _ => publishErr end))
     | Ok _ => _ ← try (os.Remove backup); mret tt
     end) (ended tmp).
Proof.
  eapply keeps_bind with (K := fun r d => match r with
    | Ok _ => tmp <> path /\ backup <> path /\ d !! path = Some data
    | Err _ => moved_aside tmp backup d end).
  { apply keeps_try, keeps_Rename; [|done]. intros d x (H1 & H2 & H3 & H4 & H5 & _) Hx.
    assert (x = data) as -> by congruence. split.
    - apply allowed. right. left. apply lookup_insert_eq.
    - split_and!; [done..|apply lookup_insert_eq]. }
  intros [[]|publishErr].
  - apply keeps_ignored. eapply keeps_weaken; [apply (keeps_Remove_other C (fun d => tmp <> path /\ backup <> path /\ d !! path = Some data))|done|].
    + intros d (H1 & H2 & H3). by rewrite lookup_delete_ne.
    + intros d (H1 & H2 & H3). apply allowed. right. by left.
    + intros r d (H1 & H2 & H3). by split.
  - eapply keeps_bind with (K := fun _ d => forall e, ended tmp (Err e) d).
    + apply keeps_try, keeps_Rename.
      * intros d x (H1 & H2 & H3 & H4 & H5 & y & Ho & Hy) Hx. assert (x = y) as -> by congruence. split.
        -- apply allowed. left. by rewrite lookup_insert_eq.
        -- intros e. split; [done|]. left. by rewrite lookup_insert_eq.
      * intros d e Hd e'. by eapply moved_failed.
    + intros r. apply keeps_fail. auto.
Qed.

Lemma keeps_publish_fallback tmp firstErr :
  keeps C (staged_at tmp) (publish_fallback path tmp firstErr) (ended tmp).
Proof.
  eapply keeps_bind with (K := fun r d => staged_at tmp d /\ (is_Ok r = true -> is_Some old)).
  { apply keeps_try, keeps_Stat.
    - intros d Hd Hs. split; [done|]. destruct Hd as [<- _]. done.
    - done. }
  intros [[]|statErr]; [|apply keeps_fail; intros d [Hd _]; by apply staged_failed].
  eapply keeps_bind with (K := fun r d => (staged_at tmp d /\ match r with Ok b => b <> path /\ b <> tmp | Err _ => True end) /\ is_Some old).
  { apply keeps_try. intros w [Hh [Hd Ho]]. pose proof (keeps_reservePath tmp ".asterferry-backup-*" w (conj Hh Hd)) as [? ?].
    split_and!; auto; naive_solver. }
  intros [b|reserveErr]; [|apply keeps_fail; intros d [[Hd _] _]; by apply staged_failed].
  eapply keeps_bind with (K := fun r d => b <> path /\ b <> tmp /\ match r with Ok _ => moved_aside tmp b d | Err _ => staged_at tmp d end).
  { apply keeps_try, keeps_Rename.
    - intros d x (((H1 & H2 & H3) & H4 & H5) & _) Hx. rewrite Hx in H1.
      assert (moved_aside tmp b (<[b := x]> (delete path d))) as Hm.
      { split_and!; try done; [by rewrite lookup_insert_ne, lookup_delete_eq|by rewrite lookup_insert_ne, lookup_delete_ne|].
        exists x. split; [done|apply lookup_insert_eq]. }
      split; [by eapply allowed, moved_not_torn|done].
    - intros d e ((Hd & ? & ?) & _). done. }
  intros [[]|backupErr].
  - eapply keeps_weaken; [apply keeps_publish_aside|naive_solver|done].
  - eapply keeps_bind with (K := fun _ d => staged_at tmp d).
    + apply keeps_try. eapply keeps_weaken; [apply (keeps_Remove_other C (fun d => b <> path /\ b <> tmp /\ staged_at tmp d))|done|naive_solver].
      * intros d (H1 & H2 & H3 & H4 & H5). split_and!; try done. split_and!; [by rewrite lookup_delete_ne|done|by rewrite lookup_delete_ne].
      * intros d (_ & _ & Hd). by eapply allowed, staged_not_torn.
    + intros _. apply keeps_fail. intros d Hd. by apply staged_failed.
Qed.

Lemma keeps_AtomicWrite :
  keeps C (fun d => d !! path = old) (AtomicWrite path data)
    (fun r d => match r with Ok _ => d !! path = Some data | Err _ => not_published d end).
Proof.
  eapply keeps_bind with (K := staged_at).
  { eapply keeps_weaken; [apply keeps_WriteTemp|done|]. intros [tmp|e] d [Hd Ht]; [done|by left]. }
  intros tmp. apply keeps_finally with (K := ended tmp).
  - eapply keeps_bind with (K := fun r d => match r with Ok _ => ended tmp (Ok tt) d | Err _ => staged_at tmp d end).
    + apply keeps_try, keeps_Rename; [|done]. intros d x (H1 & H2 & H3) Hx. assert (x = data) as -> by congruence.
      split; [apply allowed; right; left; apply lookup_insert_eq|]. split; [done|apply lookup_insert_eq].
    + intros [[]|firstErr]; [by apply keeps_ret|apply keeps_publish_fallback].
  - intros r. eapply keeps_weaken; [apply (keeps_Remove_other C (ended tmp r))|done|].
    + intros d [Hne Hd]. split; [done|]. rewrite lookup_delete_ne by done.
      destruct r as [u|e]; [done|]. destruct Hd as [Hd|(Hd & b & x & Hb & Ho & Hx)]; [by left|right].
      split; [done|]. exists b, x. by rewrite lookup_delete_ne.
    + intros d [Hne Hd]. apply allowed. destruct r as [u|e]; [right; by left|]. destruct Hd as [Hd|(Hd & b & x & _ & Ho & Hx)]; [by left|].
      right. right. eauto.
    + intros _ d [Hne Hd]. destruct r as [u|e]; [done|]. destruct Hd as [Hd|(Hd & b & x & _ & Ho & Hx)]; [by left|].
      right. eauto.
Qed.

Lemma not_published_not_torn d : not_published d -> not_torn d.
Proof. intros [Hd|Hd]; [by left | right; by right]. Qed.
End AtomicWriteFacts.

Section AtomicWriteCrash.
Context `{TN : !TempNames} (path : string) (data : list ascii) (old : option (list ascii)).
Hypothesis temp_other : forall pattern d, temp_name path pattern d <> path.

(** C33: [AtomicWrite] is atomic for a crash at any point and for any failing call:
    the path holds the whole old or the whole new contents, or the fallback for
    systems that refuse to rename over a file left the whole old contents under
    another name; a nil error means the new contents are in place. *)
Theorem AtomicWrite_atomic (d : files) (os : list outcome) :
  d !! path = old ->
  let '(w, r) := AtomicWrite path data (MkWorld d os [] []) in
  Forall (not_torn path data old) (history w) /\ not_torn path data old (disk w) /\ (r = Ok tt -> disk w !! path = Some data).
Proof.
  intros Hd. pose proof (keeps_AtomicWrite path data old temp_other (not_torn path data old) (fun _ H => H) (MkWorld d os [] []) (conj (Forall_nil_2 _) Hd)) as [Hh Hr].
  destruct (AtomicWrite path data _) as [w r]; cbn in *. split_and!; [done| |].
  - destruct r as [u|e]; [right; by left | by apply not_published_not_torn].
  - by intros ->.
Qed.
End AtomicWriteCrash.

(** ** Success: what the calls do when the system grants them all *)
Definition grants {A} (P : files -> Prop) (m : IO A) (Q : A -> files -> Prop) : Prop :=
  forall w, oracle w = [] -> P (disk w) -> exists a w', m w = (w', Ok a) /\ oracle w' = [] /\ happened w' = happened w /\ Q a (disk w').

Lemma grants_ret {A} P (a : A) Q : (forall d, P d -> Q a d) -> grants P (mret a) Q.
Proof. intros H w Ho Hp. exists a, w. auto. Qed.

Lemma grants_bind {A B} P (m : IO A) (f : A -> IO B) K Q : grants P m K -> (forall a, grants (K a) (f a) Q) -> grants P (m ≫= f) Q.
Proof.
  intros Hm Hf w Ho Hp. destruct (Hm w Ho Hp) as (a & w1 & H1 & Ho1 & He1 & Hk). destruct (Hf a w1 Ho1 Hk) as (b & w2 & H2 & Ho2 & He2 & Hq).
  exists b, w2. cbv [mbind M_bind]. rewrite H1. split_and!; try done. by rewrite He2.
Qed.

Lemma grants_try {A} P (m : IO A) Q : grants P m Q -> grants P (try m) (fun r d => exists a, r = Ok a /\ Q a d).
Proof. intros Hm w Ho Hp. destruct (Hm w Ho Hp) as (a & w1 & H1 & ? & ? & ?). exists (Ok a), w1. unfold try. rewrite H1. split_and!; eauto. Qed.

Lemma grants_weaken {A} P P' (m : IO A) Q Q' : grants P' m Q' -> (forall d, P d -> P' d) -> (forall a d, Q' a d -> Q a d) -> grants P m Q.
Proof. intros H HP HQ w Ho Hp. destruct (H w Ho (HP _ Hp)) as (a & w1 & ? & ? & ? & ?). exists a, w1. auto. Qed.

Lemma grants_on_error {A} P (body : IO A) cleanup Q : grants P body Q -> grants P (on_error body cleanup) Q.
Proof.
  intros Hb w Ho Hp. destruct (Hb w Ho Hp) as (a & w1 & H1 & ? & ? & ?). exists a, w1. unfold on_error, try. cbv [mbind M_bind]. by rewrite H1.
Qed.

(** The clean-up may find nothing to do. *)
Definition settles {A} (P : files -> Prop) (m : IO A) (Q : files -> Prop) : Prop :=
  forall w, oracle w = [] -> P (disk w) -> exists r w', m w = (w', r) /\ oracle w' = [] /\ happened w' = happened w /\ Q (disk w').

Lemma grants_finally {A} P (body : IO A) cleanup K (Q : A -> files -> Prop) :
  grants P body K -> (forall a, settles (K a) cleanup (Q a)) -> grants P (finally body cleanup) Q.
Proof.
  intros Hb Hc w Ho Hp. destruct (Hb w Ho Hp) as (a & w1 & H1 & Ho1 & He1 & Hk). destruct (Hc a w1 Ho1 Hk) as (r & w2 & H2 & Ho2 & He2 & Hq).
  exists a, w2. unfold finally, try, lift. cbv [mbind M_bind]. rewrite H1, H2. split_and!; try done. by rewrite He2.
Qed.

Lemma grants_syscall {A} P call (m : IO A) Q : grants P m Q -> grants P (syscall call m) Q.
Proof.
  intros Hm w Ho Hp. destruct (Hm w Ho Hp) as (a & w1 & H1 & ? & ? & ?). exists a, w1. unfold syscall, ask. cbv [mbind M_bind]. rewrite Ho. by rewrite H1.
Qed.

Lemma grants_get {A} P (f : files -> IO A) Q : (forall d, P d -> grants (eq d) (f d) Q) -> grants P (d ← get_disk; f d) Q.
Proof. intros H w Ho Hp. exact (H (disk w) Hp w Ho eq_refl). Qed.

Lemma grants_put P d' (Q : unit -> files -> Prop) : Q tt d' -> grants P (put_disk d') Q.
Proof. intros HQ w Ho Hp. exists tt, (MkWorld d' (oracle w) (history w ++ [d']) (happened w)). by split_and!. Qed.

Lemma settles_Remove P Q path : (forall d, P d -> Q d /\ Q (delete path d)) -> settles P (os.Remove path) Q.
Proof.
  intros H w Ho Hp. destruct (H _ Hp) as [H1 H2]. unfold os.Remove, syscall, ask, get_disk. cbv [mbind M_bind]. rewrite Ho.
  destruct (disk w !! path); repeat eexists; cbn; done.
Qed.

Lemma grants_append P path data : forall pre, (forall d x, P d -> P (<[path := x]> d)) ->
  grants (fun d => P d /\ d !! path = Some pre) (os.append_bytes path data) (fun _ d => P d /\ d !! path = Some (pre ++ data)).
Proof.
  induction data as [|x data IH]; intros pre HP; cbn [os.append_bytes].
  { apply grants_ret. intros d. by rewrite app_nil_r. }
  apply grants_get. intros d [Hd Hp]. eapply grants_bind.
  - apply (grants_put _ _ (fun _ d => P d /\ d !! path = Some (pre ++ [x]))). rewrite Hp. split; [by apply HP | apply lookup_insert_eq].
  - intros []. eapply grants_weaken; [apply (IH (pre ++ [x]) HP) | done |]. intros [] d'. by rewrite <- app_assoc.
Qed.

Lemma grants_trivial {A} P call (a : A) Q : (forall d, P d -> Q a d) -> grants P (syscall call (mret a)) Q.
Proof. intros H. by apply grants_syscall, grants_ret. Qed.

Section AtomicWriteSucceeds.
Context `{TN : !TempNames} (path : string) (data : list ascii).

Lemma grants_WriteTemp pattern (F : files -> Prop) :
  (forall d d' x, F d -> temp_name path pattern d' <> path -> F (<[temp_name path pattern d' := x]> d)) ->
  (forall d, temp_name path pattern d <> path) ->
  grants F (WriteTemp path pattern data) (fun tmp d => F d /\ tmp <> path /\ d !! tmp = Some data).
Proof.
  intros HF Hne. unfold WriteTemp, ensureParent. eapply (grants_bind _ _ _ (fun _ => F)); [by apply grants_trivial|intros []].
  eapply (grants_bind _ _ _ (fun tmp d => F d /\ (exists d', tmp = temp_name path pattern d') /\ d !! tmp = Some [])).
  { apply grants_syscall, grants_get. intros d Hd. eapply (grants_bind _ _ _ (fun _ d0 => F d0 /\ d0 !! temp_name path pattern d = Some [])).
    - apply grants_put. split; [by apply HF | apply lookup_insert_eq].
    - intros []. apply grants_ret. intros d0 [? ?]. split_and!; eauto. }
  intros tmp. apply grants_on_error. intros w Ho (Hd & (d' & ->) & Htmp). revert w Ho Hd Htmp. set (tmp := temp_name path pattern d').
  enough (grants (fun d => F d /\ d !! tmp = Some []) (_ ← os.Chmod tmp; _ ← os.Write tmp data; _ ← os.Sync tmp; _ ← os.Close tmp; mret tmp)
            (fun tmp d => F d /\ tmp <> path /\ d !! tmp = Some data)) as Hg by (intros w Ho Hd Htmp; by apply Hg).
  eapply (grants_bind _ _ _ (fun _ d => F d /\ d !! tmp = Some [])).
  { apply grants_syscall, grants_get. intros d [Hd Ht]. rewrite Ht. apply grants_ret. by intros ? <-. }
  intros []. eapply (grants_bind _ _ _ (fun _ d => F d /\ d !! tmp = Some data)).
  { unfold os.Write. intros w Ho Hp. destruct (grants_append F tmp data [] ltac:(intros d x Hd; apply HF; [done | apply Hne]) w Ho Hp) as (a & w1 & H1 & Ho1 & He1 & Hq).
    exists a, w1. unfold ask. cbv [mbind M_bind]. rewrite Ho. by rewrite H1. }
  intros []. eapply (grants_bind _ _ _ (fun _ d => F d /\ d !! tmp = Some data)); [by apply grants_trivial|intros []].
  eapply (grants_bind _ _ _ (fun _ d => F d /\ d !! tmp = Some data)); [by apply grants_trivial|intros []].
  apply grants_ret. intros d [? ?]. split_and!; [done | apply Hne | done].
Qed.

Lemma grants_Rename a b F :
  grants (fun d => F d /\ d !! a = Some data) (os.Rename a b) (fun _ d => d !! b = Some data).
Proof. apply grants_syscall, grants_get. intros d [Hd Ha]. rewrite Ha. apply grants_put, lookup_insert_eq. Qed.

(** Whole and in place, when nothing fails. *)
Lemma grants_AtomicWrite : (forall d, temp_name path tempPrefix d <> path) ->
  grants (fun _ => True) (AtomicWrite path data) (fun _ d => d !! path = Some data).
Proof.
  intros Hne. unfold AtomicWrite. eapply grants_bind; [by apply (grants_WriteTemp tempPrefix (fun _ => True))|].
  intros tmp. apply (grants_finally _ _ _ (fun _ d => tmp <> path /\ d !! path = Some data)).
  - intros w Ho (_ & Hne' & Htmp). revert w Ho Htmp.
    enough (grants (fun d => True /\ d !! tmp = Some data) (renamed ← try (os.Rename tmp path); match renamed with Ok _ => mret tt | Err firstErr => publish_fallback path tmp firstErr end)
              (fun _ d => d !! path = Some data)) as Hg.
    { intros w Ho Htmp. destruct (Hg w Ho (conj I Htmp)) as (a & w1 & ? & ? & ? & ?). exists a, w1. by split_and!. }
    eapply grants_bind; [apply grants_try, (grants_Rename tmp path (fun _ => True))|]. intros r w Ho (a & -> & Hd). exists tt, w. by split_and!.
  - intros []. eapply settles_Remove. intros d [H1 H2]. split; [done|]. by rewrite lookup_delete_ne.
Qed.
End AtomicWriteSucceeds.

(** Temporary files with a name that no file has. *)
Definition fresh_names : TempNames := {|
  temp_name := fun _ _ d => fresh (dom d ∪ {["/status.json"]});
  temp_name_fresh := fun _ _ d => proj1 (not_elem_of_dom d _) (fun H => is_fresh (dom d ∪ {["/status.json"]}) (elem_of_union_l _ _ _ H))
|}.

(** The rename is refused, and so is the one that publishes the new file. *)
Lemma AtomicWrite_atomic_witness :
  let d : files := {["/status.json" := ["1"%char]]} in
  d !! "/status.json" = Some ["1"%char] /\
  let '(w, r) := AtomicWrite (TN := fresh_names) "/status.json" ["2"; "3"]%char
                   (MkWorld d (replicate 6 Done ++ [Fails; Done; Done; Done; Done; Done; Fails; Fails]) [] []) in
  Forall (not_torn "/status.json" ["2"; "3"]%char (Some ["1"%char])) (history w) /\
  not_torn "/status.json" ["2"; "3"]%char (Some ["1"%char]) (disk w) /\
  (r = Ok tt -> disk w !! "/status.json" = Some ["2"; "3"]%char).
Proof.
  split; [reflexivity|]. apply (AtomicWrite_atomic (TN := fresh_names)); [|reflexivity].
  intros pattern d. cbn. pose proof (is_fresh (dom d ∪ {["/status.json"]})) as Hf. intros E. rewrite E in Hf. set_solver.
Defined.
