(* ===== verification/Replacement.v ===== *)
(** * Replacing the running executable (src/internal/update/process.go,
    replacement_journal.go; the recovery of node/runtime_update.go and
    controller/update_recovery.go)

    The update helper moves the live executable aside, installs the staged one and
    journals where it is; after a crash the next start compares the files with the
    journal.  Processes, clocks and the health probe over HTTPS are parameters. *)
From S2P Require Import Prelude GoStd Effects Files.

(** ** Data *)
Definition ReplacementResultSchemaVersion : Z := 1.
Definition ReplacementStatePrepared := "prepared".
Definition ReplacementStateReplacing := "replacing".
Definition ReplacementStateWaiting := "waiting".
Definition ReplacementStateRecovering := "recovering".

Record ReplacementOptions := MkOptions {
  ParentPID : Z; Opt_BinaryPath : string; Opt_StagedPath : string; Opt_BackupPath : string; HealthURL : string;
  ReadyPath : string; TargetState : string; Target : string; Opt_ActionID : string; Mode : string;
  RestartArgs : list string; StatusPath : string; PIDFile : string
}.

Record ReplacementResult := MkResult {
  SchemaVersion : Z; ActionID : string; Version : string; State : string; Error : string;
  BinaryPath : string; StagedPath : string; BackupPath : string;
  OriginalSHA256 : string; TargetSHA256 : string; UpdatedAt : Z
}.

Definition with_outcome (r : ReplacementResult) (state message : string) : ReplacementResult :=
  MkResult (SchemaVersion r) (ActionID r) (Version r) state message (BinaryPath r) (StagedPath r) (BackupPath r)
    (OriginalSHA256 r) (TargetSHA256 r) (UpdatedAt r).
Definition with_schema (r : ReplacementResult) (v : Z) : ReplacementResult :=
  MkResult v (ActionID r) (Version r) (State r) (Error r) (BinaryPath r) (StagedPath r) (BackupPath r)
    (OriginalSHA256 r) (TargetSHA256 r) (UpdatedAt r).
Definition with_time (r : ReplacementResult) (t : Z) : ReplacementResult :=
  MkResult (SchemaVersion r) (ActionID r) (Version r) (State r) (Error r) (BinaryPath r) (StagedPath r) (BackupPath r)
    (OriginalSHA256 r) (TargetSHA256 r) t.

Inductive ReplacementDiskState :=
| ReplacementDiskStateTargetInstalled | ReplacementDiskStateOriginalIntact
| ReplacementDiskStatePartial | ReplacementDiskStateIndeterminate.

Definition disk_state_text (s : ReplacementDiskState) : string :=
  match s with
  | ReplacementDiskStateTargetInstalled => "target_installed"
  | ReplacementDiskStateOriginalIntact => "original_intact"
  | ReplacementDiskStatePartial => "partial"
  | ReplacementDiskStateIndeterminate => "indeterminate"
  end.

Record replacementFileState := MkFileState { file_digest : string; file_exists : bool }.
Record replacementDigests := MkDigests { originalSHA256 : string; targetSHA256 : string }.

Definition blank (s : string) : bool := String.eqb (strings.TrimSpace s) "".

Definition selfManagedMode (mode : string) : bool :=
  strings.equal_fold_ascii (strings.TrimSpace mode) "wsl" || strings.equal_fold_ascii (strings.TrimSpace mode) "foreground".

Definition ReplacementNeedsRecovery (state : string) : bool :=
  String.eqb state ReplacementStatePrepared || String.eqb state ReplacementStateReplacing
  || String.eqb state ReplacementStateWaiting || String.eqb state ReplacementStateRecovering.

(** ** Moving the files *)
(** [io.Copy]: a read that fails midway leaves what a write that stops leaves. *)
Definition io_Copy (destination source : string) : IO unit := input ← os.ReadFile source; os.Write destination input.

Definition copyFile (source destination : string) : IO unit :=
  _ ← os.Open source;
  _ ← os.Create destination;
  _ ← on_error (io_Copy destination source) (os.Close destination);
  os.Close destination.

(** An error that is not [os.ErrNotExist] stops the caller. *)
Definition remove_if_present (path : string) : IO unit :=
  r ← try (os.Remove path);
  match r with Err e => if is_not_exist e then mret tt else fail e | Ok _ => mret tt end.

Definition restoreExecutable (binaryPath backupPath : string) : IO unit :=
  _ ← remove_if_present binaryPath;
  r ← try (os.Rename backupPath binaryPath);
  _ ← match r with
      | Ok _ => mret tt
      | Err err =>
          c ← try (copyFile backupPath binaryPath);
          match c with Err _ => fail err | Ok _ => _ ← try (os.Remove backupPath); mret tt end
      end;
  os.Chmod binaryPath.

(** The live executable becomes the backup. *)
Definition backup_executable (binaryPath backupPath : string) : IO unit :=
  r ← try (os.Rename binaryPath backupPath);
  match r with
  | Ok _ => mret tt
  | Err err =>
      c ← try (copyFile binaryPath backupPath);
      match c with Err _ => fail (EWrap "backup executable: %w" [] err) | Ok _ => os.Remove binaryPath end
  end.

(** The staged executable becomes the live one. *)
Definition install_executable (binaryPath stagedPath backupPath : string) : IO unit :=
  r ← try (os.Rename stagedPath binaryPath);
  match r with
  | Ok _ => mret tt
  | Err err =>
      c ← try (copyFile stagedPath binaryPath);
      match c with
      | Err _ => _ ← try (restoreExecutable binaryPath backupPath); fail (EWrap "install staged executable: %w" [] err)
      | Ok _ => _ ← try (os.Remove stagedPath); mret tt
      end
  end.

Definition replaceExecutable (binaryPath stagedPath backupPath : string) : IO unit :=
  _ ← os.MkdirAll backupPath;
  _ ← remove_if_present backupPath;
  _ ← backup_executable binaryPath backupPath;
  _ ← install_executable binaryPath stagedPath backupPath;
  os.Chmod binaryPath.

(** ** Digests *)
Section Digests.
Context `{CR : !Crypto, UN : !Unicode}.

Definition digest_of (data : list ascii) : string := hex_encode (sha256 data).

Definition replacementFileSHA256 (path : string) : IO string := data ← os.ReadFile path; mret (digest_of data).

Definition replacementFileStateFor (path : string) : IO replacementFileState :=
  if blank path then mret (MkFileState "" false) else
  r ← try (replacementFileSHA256 path);
  match r with
  | Err e => if is_not_exist e then mret (MkFileState "" false) else fail e
  | Ok digest => mret (MkFileState digest true)
  end.

Definition replacementDigestsFor (binaryPath stagedPath : string) : IO replacementDigests :=
  o ← try (replacementFileSHA256 binaryPath);
  originalSHA256 ← lift (map_err (EWrap "hash current executable: %w" []) o);
  t ← try (replacementFileSHA256 stagedPath);
  targetSHA256 ← lift (map_err (EWrap "hash staged executable: %w" []) t);
  mret (MkDigests originalSHA256 targetSHA256).

Definition normalizeSHA256 (value : string) : string := to_lower (strings.TrimSpace value).

Definition is_hex (c : ascii) : bool := is_digit c || in_byte_range 97 102 c || in_byte_range 65 70 c.

(** The 64 digits that [hex.DecodeString] accepts. *)
Definition isSHA256 (value : string) : bool := (slen value =? 64) && forallb is_hex (bytes_of value).

(** The decision of [ClassifyReplacementFiles] on the three files. *)
Definition classify (original target : string) (binary backup staged : replacementFileState) : ReplacementDiskState :=
  if String.eqb (file_digest binary) target && String.eqb (file_digest backup) original
     && (negb (file_exists staged) || String.eqb (file_digest staged) target)
  then ReplacementDiskStateTargetInstalled
  else if String.eqb (file_digest binary) original && negb (file_exists backup) && String.eqb (file_digest staged) target
  then ReplacementDiskStateOriginalIntact
  else if negb (file_exists binary) && String.eqb (file_digest backup) original && String.eqb (file_digest staged) target
  then ReplacementDiskStatePartial
  else ReplacementDiskStateIndeterminate.

Definition ClassifyReplacementFiles (result : ReplacementResult) : IO ReplacementDiskState :=
  let original := normalizeSHA256 (OriginalSHA256 result) in
  let target := normalizeSHA256 (TargetSHA256 result) in
  if negb (isSHA256 original) || negb (isSHA256 target) then
    fail (ENew "replacement journal lacks valid executable identity metadata")
  else
  b ← try (replacementFileStateFor (BinaryPath result));
  binary ← lift (map_err (EWrap "inspect live executable: %w" []) b);
  p ← try (replacementFileStateFor (BackupPath result));
  backup ← lift (map_err (EWrap "inspect previous executable: %w" []) p);
  s ← try (replacementFileStateFor (StagedPath result));
  staged ← lift (map_err (EWrap "inspect staged executable: %w" []) s);
  mret (classify original target binary backup staged).
End Digests.

(** ** The journal *)
(** [encoding/json] of the journal record. *)
Class ResultJSON := {
  marshal_result : ReplacementResult -> list ascii;
  unmarshal_result : list ascii -> option ReplacementResult;
  unmarshal_marshal : forall r, unmarshal_result (marshal_result r) = Some r
}.

(** What the helper asks of the operating system besides files. *)
Class Processes := {
  time_now : list event -> Z;
  own_pid : Z;
  new_pid : list event -> Z;
  process_alive : list event -> Z -> bool;
  (* the health probe over HTTPS, one answer of the oracle each *)
  WaitForHTTPSHealth : string -> IO unit;
  (* what other processes do to the files while the helper waits *)
  interference : list event -> files -> files
}.

Section Helper.
Context `{CR : !Crypto, UN : !Unicode, TN : !TempNames, RJ : !ResultJSON, PR : !Processes}.

Definition happened_so_far : IO (list event) := fun w => (w, Ok (happened w)).

Definition writeReplacementResult (path : string) (result : ReplacementResult) : IO unit :=
  if blank path then mret tt else
  h ← happened_so_far;
  let result := with_time result (time_now h) in
  let result := if SchemaVersion result =? 0 then with_schema result ReplacementResultSchemaVersion else result in
  AtomicWrite path (marshal_result result).

Definition ReadReplacementResult (path : string) : IO ReplacementResult :=
  data ← os.ReadFile path;
  match unmarshal_result data with
  | None => fail (EExternal "json.Unmarshal")
  | Some result =>
      if SchemaVersion result =? 0 then fail (ENew "replacement result is missing schema version")
      else if negb (SchemaVersion result =? ReplacementResultSchemaVersion) then
        fail (EFmt "replacement result schema version %d is unsupported" [AInt (SchemaVersion result)])
      else mret result
  end.

(** Remove the staged and the previous file; errors are dropped. *)
Definition CleanupReplacementArtifacts (result : ReplacementResult) : IO unit :=
  for_each_m (fun path _ => if blank path then mret tt else _ ← try (os.Remove path); mret tt)
    [StagedPath result; BackupPath result] tt.

(** ** Processes *)
Definition writePIDFile (path : string) (pid : Z) : IO unit :=
  if blank path || (pid <=? 0) then mret tt
  else _ ← try (os.WriteFile path (bytes_of (strconv.Itoa pid) ++ ["010"%char])); mret tt.

Definition readPIDFile (path : string) : IO Z :=
  if blank path then mret 0 else
  r ← try (os.ReadFile path);
  match r with
  | Err _ => mret 0
  | Ok data =>
      match strconv.Atoi (strings.TrimSpace (of_bytes data)) with
      | Ok pid => mret (if pid <=? 0 then 0 else pid)
      | Err _ => mret 0
      end
  end.

Definition startReplacement (binaryPath : string) (args : list string) : IO Z :=
  match args with
  | [] => fail (ENew "update helper has no restart arguments")
  | _ => syscall "StartProcess" (h ← happened_so_far; _ ← log_event (Started binaryPath args); mret (new_pid h))
  end.

(** The oracle says whether the process is gone before the deadline. *)
Definition WaitForProcessExit (pid : Z) : IO unit :=
  o ← ask; match o with Done => mret tt | _ => fail (EExternal "context deadline exceeded") end.

Definition StopProcess (pid : Z) : IO unit :=
  h ← happened_so_far;
  if (pid <=? 0) || negb (process_alive h pid) then mret tt else
  o ← ask;
  _ ← match o with
      | Done => log_event (Killed pid)
      | _ => h ← happened_so_far; if process_alive h pid then fail (os_error "Kill") else mret tt
      end;
  WaitForProcessExit pid.

(** Poll until the file names the version and the state; the oracle says when the
    context is done, at the latest after [ticks]. *)
Fixpoint WaitForReadyState (ticks : nat) (path version expectedState : string) : IO unit :=
  h ← happened_so_far;
  d ← get_disk;
  _ ← put_disk (interference h d);
  r ← try (os.ReadFile path);
  let ready := match r with
    | Ok data => match unmarshal_result data with
                 | Some result => String.eqb (Version result) version && String.eqb (State result) expectedState
                 | None => false
                 end
    | Err _ => false
    end in
  if ready then mret tt else
  o ← ask;
  match ticks, o with
  | S ticks, Done => WaitForReadyState ticks path version expectedState
  | _, _ => fail (EWrap "health check failed: %w" [] (EExternal "context deadline exceeded"))
  end.

Definition waitForReplacementHealth (ticks : nat) (options : ReplacementOptions) : IO unit :=
  if negb (blank (HealthURL options)) then WaitForHTTPSHealth (HealthURL options)
  else if negb (blank (ReadyPath options)) then
    WaitForReadyState ticks (ReadyPath options) (Target options) (TargetState options)
  else fail (ENew "update helper has no health check").

(** ** The helper *)
(** The text of an error is not modelled: it is the error's presence that counts. *)
Definition error_text (err : option error) : string := match err with Some _ => "error" | None => "" end.

Definition replacementResult (options : ReplacementOptions) (state : string) (err : option error) (digests : replacementDigests) : ReplacementResult :=
  MkResult ReplacementResultSchemaVersion (Opt_ActionID options) (Target options) state (error_text err)
    (Opt_BinaryPath options) (Opt_StagedPath options) (Opt_BackupPath options)
    (originalSHA256 digests) (targetSHA256 digests) 0.

Definition with_target_state (o : ReplacementOptions) (state : string) : ReplacementOptions :=
  MkOptions (ParentPID o) (Opt_BinaryPath o) (Opt_StagedPath o) (Opt_BackupPath o) (HealthURL o) (ReadyPath o) state
    (Target o) (Opt_ActionID o) (Mode o) (RestartArgs o) (StatusPath o) (PIDFile o).

(** A journal write whose error is dropped. *)
Definition note (options : ReplacementOptions) (state : string) (err : option error) (digests : replacementDigests) : IO unit :=
  _ ← try (writeReplacementResult (StatusPath options) (replacementResult options state err digests)); mret tt.

(** [replaceExecutable] failed: start the previous executable again. *)
Definition after_failed_replace (options : ReplacementOptions) (digests : replacementDigests) (err : error) : IO unit :=
  _ ← note options "failed" (Some err) digests;
  if selfManagedMode (Mode options) then
    started ← try (startReplacement (Opt_BinaryPath options) (RestartArgs options));
    match started with
    | Ok _ => fail err
    | Err startErr =>
        let err := EJoin err (EWrap "restart previous executable: %w" [] startErr) in
        _ ← note options "failed" (Some err) digests; fail err
    end
  else fail err.

Definition restore_joined (options : ReplacementOptions) (err : error) : IO error :=
  restored ← try (restoreExecutable (Opt_BinaryPath options) (Opt_BackupPath options));
  mret (match restored with
        | Ok _ => err
        | Err restoreErr => EJoin err (EWrap "restore previous executable: %w" [] restoreErr)
        end).

(** The new executable does not start: roll back. *)
Definition after_failed_start (options : ReplacementOptions) (digests : replacementDigests) (err : error) : IO unit :=
  err ← restore_joined options err;
  _ ← note options "rolled_back" (Some err) digests;
  started ← try (startReplacement (Opt_BinaryPath options) (RestartArgs options));
  match started with
  | Ok oldPID => _ ← writePIDFile (PIDFile options) oldPID; fail err
  | Err startErr =>
      let err := EJoin err (EWrap "restart previous executable: %w" [] startErr) in
      _ ← note options "rolled_back" (Some err) digests; fail err
  end.

(** The new executable is not healthy in time: stop it and roll back. *)
Definition after_unhealthy (options : ReplacementOptions) (digests : replacementDigests) (healthErr : error) : IO unit :=
  replacementPID ← readPIDFile (PIDFile options);
  healthErr ← (if (replacementPID >? 0) && negb (replacementPID =? own_pid) && negb (replacementPID =? ParentPID options) then
                 stopped ← try (StopProcess replacementPID);
                 mret (match stopped with
                       | Ok _ => healthErr
                       | Err stopErr => EJoin healthErr (EWrap "stop unhealthy replacement process: %w" [] stopErr)
                       end)
               else mret healthErr);
  healthErr ← restore_joined options healthErr;
  _ ← note options "rolled_back" (Some healthErr) digests;
  _ ← (if selfManagedMode (Mode options) then
         started ← try (startReplacement (Opt_BinaryPath options) (RestartArgs options));
         match started with Ok pid => writePIDFile (PIDFile options) pid | Err _ => mret tt end
       else mret tt);
  fail healthErr.

(** From the moment the executable is replaced. *)
Definition await_replacement (ticks : nat) (options : ReplacementOptions) (digests : replacementDigests) : IO unit :=
  health ← try (waitForReplacementHealth ticks options);
  match health with
  | Err healthErr => after_unhealthy options digests healthErr
  | Ok _ =>
      let result := replacementResult options (TargetState options) None digests in
      written ← try (writeReplacementResult (StatusPath options) result);
      match written with
      | Err err => fail (EWrap "write terminal replacement journal: %w" [] err)
      | Ok _ => CleanupReplacementArtifacts result
      end
  end.

Definition RunReplacementHelper (ticks : nat) (options : ReplacementOptions) : IO unit :=
  if (ParentPID options <=? 0) || blank (Opt_BinaryPath options) || blank (Opt_StagedPath options) then
    fail (ENew "update helper requires parent pid, binary path and staged path")
  else
  let options := if String.eqb (TargetState options) "" then with_target_state options "healthy" else options in
  hashed ← try (replacementDigestsFor (Opt_BinaryPath options) (Opt_StagedPath options));
  match hashed with
  | Err err => _ ← note options "failed" (Some err) (MkDigests "" ""); fail err
  | Ok digests =>
      prepared ← try (writeReplacementResult (StatusPath options) (replacementResult options ReplacementStatePrepared None digests));
      _ ← lift (map_err (EWrap "write prepared replacement journal: %w" []) prepared);
      exited ← try (WaitForProcessExit (ParentPID options));
      match exited with
      | Err err => _ ← note options "failed" (Some err) digests; fail err
      | Ok _ =>
          replacing ← try (writeReplacementResult (StatusPath options) (replacementResult options ReplacementStateReplacing None digests));
          _ ← lift (map_err (EWrap "write replacing replacement journal: %w" []) replacing);
          replaced ← try (replaceExecutable (Opt_BinaryPath options) (Opt_StagedPath options) (Opt_BackupPath options));
          match replaced with
          | Err err => after_failed_replace options digests err
          | Ok _ =>
              _ ← note options ReplacementStateWaiting None digests;
              if selfManagedMode (Mode options) then
                started ← try (startReplacement (Opt_BinaryPath options) (RestartArgs options));
                match started with
                | Err err => after_failed_start options digests err
                | Ok pid => _ ← writePIDFile (PIDFile options) pid; await_replacement ticks options digests
                end
              else await_replacement ticks options digests
          end
      end
  end.

(** ** Recovery at the next start *)
Section Recovery.
(** [buildinfo.Current().Version]. *)
Variable current : string.

(** The state and message a pending journal ends in, and whether the artifacts are
    removed: node/runtime_update.go, [sendPendingNodeUpdate]. *)
Definition node_verdict (result : ReplacementResult) (inspected : Prelude.result ReplacementDiskState) : string * string * bool :=
  match inspected with
  | Err inspectErr => ("manual_required", "error", false)
  | Ok ReplacementDiskStateOriginalIntact =>
      ("failed", "replacement did not install the target executable; the previous executable remains active", true)
  | Ok diskState =>
      match diskState with
      | ReplacementDiskStateTargetInstalled =>
          if negb (String.eqb (Version result) "") && String.eqb (Version result) current then ("healthy", "", true)
          else ("manual_required", "replacement target does not match the running Node version", false)
      | _ => ("manual_required", "replacement files are in an indeterminate state (" +:+ disk_state_text diskState
                +:+ "); manual recovery is required", false)
      end
  end.

(** The event goes to the Controller's stream, which may refuse it; the result is
    the new [updateReportSent]. *)
Definition sendNodeUpgradeEvent (actionID state version failure : string) : IO unit :=
  syscall "send" (log_event (Reported actionID state version failure)).

Definition node_final_state (s : string) : bool :=
  String.eqb s "up_to_date" || String.eqb s "rolled_back" || String.eqb s "failed" || String.eqb s "manual_required".

Definition sendPendingNodeUpdate (updateReportSent : bool) (path : string) : IO bool :=
  if updateReportSent then mret updateReportSent else
  let path := strings.TrimSpace path in
  if String.eqb path "" then mret updateReportSent else
  read ← try (ReadReplacementResult path);
  match read with
  | Err _ => mret updateReportSent
  | Ok result =>
      if String.eqb (State result) "" then mret updateReportSent else
      let pending := ReplacementNeedsRecovery (State result) in
      '(result, cleanup) ←
        (if pending then
           inspected ← try (ClassifyReplacementFiles result);
           let '(state, message, cleanup) := node_verdict result inspected in
           let result := with_schema (with_outcome result state message) ReplacementResultSchemaVersion in
           _ ← writeReplacementResult path result;
           mret (result, cleanup)
         else mret (result, false));
      let state := if String.eqb (State result) "healthy" then "up_to_date" else State result in
      if negb (node_final_state state) then mret updateReportSent else
      _ ← sendNodeUpgradeEvent (ActionID result) state (Version result) (Error result);
      _ ← (if cleanup || (negb pending && negb (String.eqb state "manual_required"))
           then CleanupReplacementArtifacts result else mret tt);
      mret true
  end.

(** controller/update_recovery.go; storing the state in the database is an event,
    its own failure changes nothing here. *)
Definition isTerminalControllerReplacementState (state : string) : bool :=
  String.eqb state "up_to_date" || String.eqb state "rolled_back" || String.eqb state "failed" || String.eqb state "manual_required".

Definition persistControllerReplacementState (result : ReplacementResult) : IO unit :=
  _ ← try (syscall "SaveControllerUpdateState" (log_event (Reported "" (State result) (Version result) (Error result)))); mret tt.

Definition finishPendingControllerReplacement (statusPath : string) (result : ReplacementResult) (state message : string) (cleanup : bool) : IO unit :=
  let result := with_schema (with_outcome result state message) ReplacementResultSchemaVersion in
  written ← try (writeReplacementResult statusPath result);
  match written with
  | Err _ => mret tt
  | Ok _ =>
      _ ← (if cleanup then CleanupReplacementArtifacts result else mret tt);
      persistControllerReplacementState result
  end.

(** The decision before the health check: [None] goes on to it. *)
Definition controller_verdict (result : ReplacementResult) (inspected : Prelude.result ReplacementDiskState) : option (string * string * bool) :=
  match inspected with
  | Err inspectErr => Some ("manual_required", "error", false)
  | Ok ReplacementDiskStateOriginalIntact =>
      Some ("failed", "replacement did not install the target executable; the previous executable remains active", true)
  | Ok ReplacementDiskStateTargetInstalled =>
      if blank (Version result) then Some ("manual_required", "replacement journal has no target Controller version", false)
      else if negb (String.eqb current (Version result)) then
        Some ("manual_required", "replacement target does not match the running Controller version", false)
      else None
  | Ok diskState =>
      Some ("manual_required", "replacement files are in an indeterminate state (" +:+ disk_state_text diskState
              +:+ "); manual recovery is required", false)
  end.

Definition recoverPendingReplacement (statusPath : string) (healthURL : Prelude.result string) : IO unit :=
  read ← try (ReadReplacementResult statusPath);
  match read with
  | Err _ => mret tt
  | Ok result =>
      if String.eqb (State result) "up_to_date" && negb (String.eqb current (Version result)) then mret tt
      else if isTerminalControllerReplacementState (State result) then
        _ ← (if String.eqb (State result) "up_to_date" && String.eqb current (Version result)
             then CleanupReplacementArtifacts result else mret tt);
        persistControllerReplacementState result
      else if negb (ReplacementNeedsRecovery (State result)) then mret tt
      else
        inspected ← try (ClassifyReplacementFiles result);
        match controller_verdict result inspected with
        | Some (state, message, cleanup) => finishPendingControllerReplacement statusPath result state message cleanup
        | None =>
            let result := with_outcome result ReplacementStateRecovering "" in
            written ← try (writeReplacementResult statusPath result);
            match written with
            | Err _ => mret tt
            | Ok _ =>
                health ← match healthURL with Ok url => try (WaitForHTTPSHealth url) | Err err => mret (Err err) end;
                match health with
                | Err err => finishPendingControllerReplacement statusPath result "manual_required"
                               "replacement recovery could not prove Controller readiness" false
                | Ok _ => finishPendingControllerReplacement statusPath result "up_to_date" "" true
                end
            end
        end
  end.
End Recovery.
End Helper.
