(* ===== verification/ReplacementFacts.v ===== *)
(** * The executable survives its replacement

    As long as nobody else touches its files, a crash at any point, with any calls
    failing, leaves a whole executable: the original in place or as the backup, or the
    target in place.  The journal's
    classification tells the crash points of an undisturbed replacement apart, and
    recovery removes nothing that is still needed. *)
From S2P Require Import Prelude GoStd Effects Files FilesFacts Samples Replacement.

Section Safety.
Context (bin stg bak : string) (o t : list ascii).
Hypothesis bin_stg : bin <> stg.
Hypothesis bin_bak : bin <> bak.
Hypothesis stg_bak : stg <> bak.

Implicit Types C P F : files -> Prop.

(** Both executables are whole somewhere. *)
Definition original_safe (d : files) : Prop := d !! bin = Some o \/ d !! bak = Some o.
Definition target_safe (d : files) : Prop := d !! bin = Some t \/ d !! stg = Some t.
Definition both_safe (d : files) : Prop := original_safe d /\ target_safe d.

(** ** Moving the files *)
Ltac files_crush := repeat (first [rewrite lookup_insert_eq | rewrite lookup_delete_eq
                                  | rewrite lookup_insert_ne by done | rewrite lookup_delete_ne by done]); try done; try congruence.

Lemma keeps_copyFile C F src dst data :
  ignores dst F -> (forall d, F d -> C d) -> (forall d, F d -> d !! src = Some data) ->
  keeps C F (copyFile src dst) (fun r d => F d /\ (is_Ok r = true -> d !! dst = Some data)).
Proof.
  intros Hi HC Hs. eapply keeps_bind with (K := fun _ => F); [apply keeps_Open; [done|naive_solver]|].
  intros _. eapply keeps_bind with (K := fun _ d => F d /\ d !! dst = Some []).
  { eapply keeps_weaken; [by apply keeps_Create|done|]. intros [] d; naive_solver. }
  intros _. eapply keeps_bind with (K := fun _ d => F d /\ d !! dst = Some data).
  { apply (keeps_on_error _ _ F).
    - eapply keeps_bind with (K := fun a d => (F d /\ d !! dst = Some []) /\ a = data).
      + apply keeps_ReadFile; [|naive_solver]. intros d x [HF Hd] Hx. specialize (Hs d HF). split; [done | congruence].
      + intros a. apply keeps_pure. intros ->. eapply keeps_weaken; [by apply keeps_Write|done|]. intros [] d; naive_solver.
    - apply keeps_trivial. naive_solver. }
  intros _. apply keeps_trivial. naive_solver.
Qed.

Lemma keeps_remove_if_present C P path Q :
  (forall d, P d -> is_Some (d !! path) -> C (delete path d) /\ Q (Ok tt) (delete path d)) ->
  (forall d, P d -> d !! path = None -> Q (Ok tt) d) ->
  (forall d e, P d -> Q (Err e) d) ->
  keeps C P (remove_if_present path) Q.
Proof.
  intros H1 H2 H3. eapply keeps_bind with (K := fun r d => match r with
    | Ok _ => Q (Ok tt) d
    | Err e => if is_not_exist e then Q (Ok tt) d else Q (Err e) d end).
  - apply keeps_try, keeps_Remove; cbn; auto.
  - intros [[]|e]; [by apply keeps_ret|]. destruct (is_not_exist e); [by apply keeps_ret|by apply keeps_fail].
Qed.

Lemma keeps_backup C :
  (forall d, both_safe d -> C d) ->
  keeps C (fun d => d !! bin = Some o /\ d !! bak = None /\ d !! stg = Some t) (backup_executable bin bak)
    (fun r d => match r with
                | Ok _ => d !! bin = None /\ d !! bak = Some o /\ d !! stg = Some t
                | Err _ => both_safe d end).
Proof.
  intros HC. eapply keeps_bind with (K := fun r d => match r with
    | Ok _ => d !! bin = None /\ d !! bak = Some o /\ d !! stg = Some t
    | Err _ => d !! bin = Some o /\ d !! stg = Some t end).
  { apply keeps_try, keeps_Rename; [|naive_solver]. intros d x (H1 & H2 & H3) Hx.
    assert (x = o) as -> by congruence. split; [apply HC; split; [right|right]|split_and!]; files_crush. }
  intros [[]|err]; [by apply keeps_ret|].
  eapply keeps_bind with (K := fun r d => (d !! bin = Some o /\ d !! stg = Some t) /\ (is_Ok r = true -> d !! bak = Some o)).
  { apply keeps_try, (keeps_copyFile C (fun d => d !! bin = Some o /\ d !! stg = Some t)).
    - intros d x [H1 H2]. split; files_crush.
    - intros d [H1 H2]. apply HC. split; [by left|by right].
    - naive_solver. }
  intros [[]|e].
  - apply keeps_Remove.
    + intros d [[H1 H2] H3] _. specialize (H3 eq_refl). split; [apply HC; split; right|split_and!]; files_crush.
    + intros d [[H1 H2] H3] Hn. congruence.
    + intros d [[H1 H2] H3]. split; [by left|by right].
  - apply keeps_fail. intros d [[H1 H2] H3]. split; [by left|by right].
Qed.

(** Restoring loses neither: the backup is whole until the live file is. *)
Lemma keeps_restore C T :
  (forall d, d !! bak = Some o /\ d !! stg = T \/ d !! bin = Some o /\ d !! stg = T -> C d) ->
  keeps C (fun d => d !! bak = Some o /\ d !! stg = T) (restoreExecutable bin bak)
    (fun r d => d !! stg = T /\ match r with Ok _ => d !! bin = Some o | Err _ => original_safe d end).
Proof.
  intros HC. eapply keeps_bind with (K := fun _ d => d !! bak = Some o /\ d !! stg = T).
  { apply keeps_remove_if_present.
    - intros d [H1 H2] _. split; [apply HC; left|]; split; files_crush.
    - done.
    - intros d e [H1 H2]. split; [done|]. by right. }
  intros _. eapply keeps_bind with (K := fun r d => d !! stg = T /\ match r with Ok _ => d !! bin = Some o | Err _ => d !! bak = Some o end).
  { apply keeps_try, keeps_Rename; [|naive_solver]. intros d x [H1 H2] Hx. assert (x = o) as -> by congruence.
    split; [apply HC; right|]; split; files_crush. }
  intros r. eapply keeps_bind with (K := fun _ d => d !! stg = T /\ d !! bin = Some o).
  - destruct r as [[]|err]; [apply keeps_ret; naive_solver|].
    eapply keeps_bind with (K := fun r d => (d !! bak = Some o /\ d !! stg = T) /\ (is_Ok r = true -> d !! bin = Some o)).
    { apply keeps_try. eapply keeps_weaken; [apply (keeps_copyFile C (fun d => d !! bak = Some o /\ d !! stg = T) bak bin o)|naive_solver|done].
      - intros d x [H1 H2]. split; files_crush.
      - auto.
      - naive_solver. }
    intros [[]|e].
    + apply keeps_ignored, keeps_Remove.
      * intros d [[H1 H2] H3] _. specialize (H3 eq_refl). split; [apply HC; right|]; split; files_crush.
      * naive_solver.
      * naive_solver.
    + apply keeps_fail. intros d [[H1 H2] H3]. split; [done|]. by right.
  - intros _. apply keeps_Chmod. intros [u|e] d [H1 H2]; split; try done. by left.
Qed.

Lemma keeps_install C :
  (forall d, both_safe d -> C d) ->
  keeps C (fun d => d !! bin = None /\ d !! bak = Some o /\ d !! stg = Some t) (install_executable bin stg bak)
    (fun r d => match r with Ok _ => d !! bin = Some t /\ d !! bak = Some o | Err _ => both_safe d end).
Proof.
  intros HC. eapply keeps_bind with (K := fun r d => match r with
    | Ok _ => d !! bin = Some t /\ d !! bak = Some o
    | Err _ => d !! bak = Some o /\ d !! stg = Some t end).
  { apply keeps_try, keeps_Rename; [|naive_solver]. intros d x (H1 & H2 & H3) Hx.
    assert (x = t) as -> by congruence. split; [apply HC; split; [right|left]|split]; files_crush. }
  intros [[]|err]; [by apply keeps_ret|].
  eapply keeps_bind with (K := fun r d => (d !! bak = Some o /\ d !! stg = Some t) /\ (is_Ok r = true -> d !! bin = Some t)).
  { apply keeps_try, (keeps_copyFile C (fun d => d !! bak = Some o /\ d !! stg = Some t)).
    - intros d x [H1 H2]. split; files_crush.
    - intros d [H1 H2]. apply HC. split; by right.
    - naive_solver. }
  intros [[]|e].
  - apply keeps_ignored, keeps_Remove.
    + intros d [[H1 H2] H3] _. specialize (H3 eq_refl). split; [apply HC; split; [right|left]|split]; files_crush.
    + naive_solver.
    + naive_solver.
  - eapply keeps_bind with (K := fun _ d => both_safe d); [|intros _; by apply keeps_fail].
    apply keeps_try. eapply keeps_weaken; [apply (keeps_restore C (Some t))| |].
    + intros d [[H1 H2]|[H1 H2]]; apply HC; split; [by right|by right|by left|by right].
    + naive_solver.
    + intros [u|e'] d [H1 H2]; split; try done; [by left|by right|by right].
Qed.

Lemma keeps_replace C :
  (forall d, both_safe d -> C d) ->
  keeps C (fun d => d !! bin = Some o /\ d !! stg = Some t) (replaceExecutable bin stg bak)
    (fun r d => match r with Ok _ => d !! bin = Some t /\ d !! bak = Some o | Err _ => both_safe d end).
Proof.
  intros HC. assert (Hsafe : forall d, d !! bin = Some o /\ d !! stg = Some t -> both_safe d).
  { intros d [H1 H2]. split; [by left|by right]. }
  eapply keeps_bind with (K := fun _ d => d !! bin = Some o /\ d !! stg = Some t).
  { apply keeps_trivial. intros [] d Hd; [done|by apply Hsafe]. }
  intros _. eapply keeps_bind with (K := fun _ d => d !! bin = Some o /\ d !! bak = None /\ d !! stg = Some t).
  { apply keeps_remove_if_present.
    - intros d [H1 H2] _. split; [apply HC, Hsafe; split|split_and!]; files_crush.
    - naive_solver.
    - intros d e Hd. by apply Hsafe. }
  intros _. eapply keeps_bind with (K := fun _ d => d !! bin = None /\ d !! bak = Some o /\ d !! stg = Some t).
  { eapply keeps_weaken; [by apply keeps_backup|done|]. intros [] d; done. }
  intros _. eapply keeps_bind with (K := fun _ d => d !! bin = Some t /\ d !! bak = Some o).
  { eapply keeps_weaken; [by apply keeps_install|done|]. intros [] d; done. }
  intros _. apply keeps_Chmod. intros [u|e] d [H1 H2]; [done|]. split; [by right|by left].
Qed.

(** ** Operations that do not touch the three files *)
Definition other (p : string) : Prop := p <> bin /\ p <> stg /\ p <> bak.
Definition agree (d d' : files) : Prop := d' !! bin = d !! bin /\ d' !! stg = d !! stg /\ d' !! bak = d !! bak.
Definition frame F : Prop := forall d d', agree d d' -> F d -> F d'.

Lemma frame_insert F p d x : frame F -> other p -> F d -> F (<[p := x]> d).
Proof. intros HF (H1 & H2 & H3). apply HF. split_and!; by rewrite lookup_insert_ne. Qed.

Lemma frame_delete F p d : frame F -> other p -> F d -> F (delete p d).
Proof. intros HF (H1 & H2 & H3). apply HF. split_and!; by rewrite lookup_delete_ne. Qed.

(** The operation keeps whatever is said of the three files; its result is in [R]. *)
Definition harmless {A} (m : IO A) (R : A -> Prop) : Prop :=
  forall C F, frame F -> (forall d, F d -> C d) -> keeps C F m (fun r d => F d /\ forall a, r = Ok a -> R a).

Definition anything {A} (a : A) : Prop := True.

Lemma harmless_bind {A B} (m : IO A) (f : A -> IO B) R S :
  harmless m R -> (forall a, R a -> harmless (f a) S) -> harmless (m ≫= f) S.
Proof.
  intros Hm Hf C F HF HC. eapply keeps_bind with (K := fun a d => R a /\ F d).
  - eapply keeps_weaken; [by apply Hm|done|]. intros [a|e] d [Hd Hr]; [by split; [apply Hr|]|done].
  - intros a w (Hh & Ha & Hd). exact (Hf a Ha C F HF HC w (conj Hh Hd)).
Qed.

Lemma harmless_ret {A} (a : A) (R : A -> Prop) : R a -> harmless (mret a) R.
Proof. intros Hr C F HF HC. apply keeps_ret. intros d Hd. split; [done|]. by intros a' [= <-]. Qed.

Lemma harmless_fail {A} e (R : A -> Prop) : harmless (fail e) R.
Proof. intros C F HF HC. apply keeps_fail. intros d Hd. by split. Qed.

Lemma harmless_lift {A} (r : result A) (R : A -> Prop) : (forall a, r = Ok a -> R a) -> harmless (lift r) R.
Proof. intros Hr C F HF HC. apply keeps_lift. intros d Hd. by split. Qed.

Lemma harmless_try {A} (m : IO A) R : harmless m R -> harmless (try m) (fun r => forall a, r = Ok a -> R a).
Proof.
  intros Hm C F HF HC. apply keeps_try. eapply keeps_weaken; [by apply Hm|done|].
  intros r d [Hd Hr]. split; [done|]. by intros r' [= <-].
Qed.

Lemma harmless_weaken {A} (m : IO A) (R S : A -> Prop) : harmless m R -> (forall a, R a -> S a) -> harmless m S.
Proof. intros Hm HRS C F HF HC. eapply keeps_weaken; [by apply Hm|done|]. intros r d [Hd Hr]. split; [done|]. eauto. Qed.

Lemma harmless_syscall {A} call (m : IO A) R : harmless m R -> harmless (syscall call m) R.
Proof. intros Hm C F HF HC. apply keeps_syscall; [by apply Hm|]. intros d Hd. by split. Qed.

Lemma harmless_ask : harmless ask anything.
Proof. intros C F HF HC w [Hh Hd]. unfold ask. by destruct (oracle w). Qed.

Lemma harmless_log e : harmless (log_event e) anything.
Proof. intros C F HF HC w [Hh Hd]. by split. Qed.

Lemma harmless_happened : harmless happened_so_far anything.
Proof. intros C F HF HC w [Hh Hd]. by split. Qed.

(** Read the files and go on: what is written must keep every frame. *)
Lemma harmless_get {A} (f : files -> IO A) R :
  (forall d C F, frame F -> (forall d, F d -> C d) -> F d -> keeps C (eq d) (f d) (fun r d => F d /\ forall a, r = Ok a -> R a)) ->
  harmless (d ← get_disk; f d) R.
Proof. intros Hf C F HF HC. apply keeps_get. intros d Hd. by apply Hf. Qed.

Lemma harmless_Remove p : other p -> harmless (os.Remove p) anything.
Proof.
  intros Hp C F HF HC. eapply keeps_weaken; [apply (keeps_Remove_other C F p)|done|done]; [|done].
  intros d Hd. by apply frame_delete.
Qed.

Lemma harmless_Rename a b : other a -> other b -> harmless (os.Rename a b) anything.
Proof.
  intros Ha Hb C F HF HC. apply keeps_Rename; [|done]. intros d x Hd Hx.
  assert (F (<[b := x]> (delete a d))) by (by apply frame_insert, frame_delete). split; [by apply HC|done].
Qed.

Lemma harmless_ReadFile p : harmless (os.ReadFile p) anything.
Proof. intros C F HF HC. by apply keeps_ReadFile. Qed.

Lemma harmless_Stat p : harmless (os.Stat p) anything.
Proof. intros C F HF HC. by apply keeps_Stat. Qed.

Lemma harmless_Chmod p : harmless (os.Chmod p) anything.
Proof. intros C F HF HC. by apply keeps_Chmod. Qed.

Lemma harmless_Create p : other p -> harmless (os.Create p) anything.
Proof.
  intros Hp. apply harmless_syscall, harmless_get. intros d C F HF HC Hd.
  assert (F (<[p := []]> d)) by by apply frame_insert. apply keeps_put; [by apply HC|done].
Qed.

Lemma harmless_append p data : other p -> harmless (os.append_bytes p data) anything.
Proof.
  intros Hp. induction data as [|c data IH]; cbn; [by apply harmless_ret|].
  apply harmless_get. intros d C F HF HC Hd.
  assert (F (<[p := default [] (d !! p) ++ [c]]> d)) as Hd' by by apply frame_insert.
  eapply keeps_bind with (K := fun _ => F); [by apply keeps_put; [apply HC|]|]. intros _. by apply IH.
Qed.

Lemma harmless_trivial {A} call (a : A) : harmless (syscall call (mret a)) anything.
Proof. apply harmless_syscall. by apply harmless_ret. Qed.

Lemma harmless_on_error {A} (body : IO A) cleanup R :
  harmless body R -> harmless cleanup anything -> harmless (on_error body cleanup) R.
Proof.
  intros Hb Hc. eapply harmless_bind; [by apply harmless_try|]. intros [a|e] Ha; [by apply harmless_ret, Ha|].
  eapply harmless_bind; [by apply harmless_try|]. intros _ _. apply harmless_fail.
Qed.

Lemma harmless_finally {A} (body : IO A) cleanup R :
  harmless body R -> harmless cleanup anything -> harmless (finally body cleanup) R.
Proof.
  intros Hb Hc. eapply harmless_bind; [by apply harmless_try|]. intros r Hr.
  eapply harmless_bind; [by apply harmless_try|]. intros _ _. by apply harmless_lift.
Qed.

End Safety.

Create HintDb harmless.
#[export] Hint Resolve harmless_fail harmless_ask harmless_log harmless_happened harmless_Remove harmless_Rename
  harmless_ReadFile harmless_Stat harmless_Chmod harmless_Create harmless_append harmless_trivial : harmless.

(** Go through an operation call by call. *)
Ltac harmless_step :=
  first
    [ solve [auto with harmless]
    | lazymatch goal with
      | |- harmless _ _ _ (try ?m ≫= _) _ => eapply harmless_bind; [eapply harmless_try|]
      | |- harmless _ _ _ (_ ≫= _) _ => eapply harmless_bind
      | |- harmless _ _ _ (try _) _ => eapply harmless_try
      | |- harmless _ _ _ (mret _) _ => apply harmless_ret; done
      | |- harmless _ _ _ (lift _) _ => apply harmless_lift; done
      | |- harmless _ _ _ (on_error _ _) _ => apply harmless_on_error
      | |- harmless _ _ _ (finally _ _) _ => apply harmless_finally
      | |- harmless _ _ _ (match ?x with _ => _ end) _ => destruct x
      | |- forall a, ?R a -> _ => intros ? ?
      end ].

Section HelperSafety.
Context `{CR : !Crypto, UN : !Unicode, TN : !TempNames, RJ : !ResultJSON, PR : !Processes}.
Context (bin stg bak : string) (o t : list ascii).
Hypothesis bin_stg : bin <> stg.
Hypothesis bin_bak : bin <> bak.
Hypothesis stg_bak : stg <> bak.
Hypothesis temp_other : forall path pattern d, other bin stg bak (temp_name path pattern d).
(** Other processes and the probe leave the three files alone. *)
Hypothesis probe_harmless : forall url, harmless bin stg bak (WaitForHTTPSHealth url) anything.
Hypothesis interference_other : forall h d p, p = bin \/ p = stg \/ p = bak -> interference h d !! p = d !! p.

Abbreviation safe m R := (harmless bin stg bak m R).
Abbreviation other_file := (other bin stg bak).

Lemma harmless_Write p data : other_file p -> safe (os.Write p data) anything.
Proof.
  intros Hp. eapply harmless_bind; [apply harmless_ask|]. intros [| |n] _; [by apply harmless_append|apply harmless_fail|].
  eapply harmless_bind; [by apply harmless_append|]. intros; apply harmless_fail.
Qed.

Lemma harmless_CreateTemp p pattern : safe (CreateTemp p pattern) other_file.
Proof.
  apply harmless_syscall, harmless_get. intros d C F HF HC Hd.
  assert (F (<[temp_name p pattern d := []]> d)) by (eapply frame_insert; [done|apply temp_other|done]).
  eapply keeps_bind with (K := fun _ => F); [by apply keeps_put; [apply HC|]|]. intros _. apply keeps_ret.
  intros d' Hd'. split; [done|]. intros a [= <-]. apply temp_other.
Qed.

Lemma harmless_WriteTemp p pattern data : safe (WriteTemp p pattern data) other_file.
Proof.
  eapply harmless_bind; [apply harmless_trivial|]. intros _ _.
  eapply harmless_bind; [apply harmless_CreateTemp|]. intros tmp Htmp.
  apply harmless_on_error; [|by apply harmless_Remove].
  eapply harmless_bind; [apply harmless_Chmod|]. intros _ _.
  eapply harmless_bind; [by apply harmless_Write|]. intros _ _.
  eapply harmless_bind; [apply harmless_trivial|]. intros _ _.
  eapply harmless_bind; [apply harmless_trivial|]. intros _ _. by apply harmless_ret.
Qed.

Lemma harmless_reservePath p pattern : safe (reservePath p pattern) other_file.
Proof.
  eapply harmless_bind; [apply harmless_CreateTemp|]. intros b Hb.
  eapply harmless_bind; [apply harmless_on_error; [apply harmless_trivial|by apply harmless_Remove]|]. intros _ _.
  eapply harmless_bind; [by apply harmless_Remove|]. intros _ _. by apply harmless_ret.
Qed.

Lemma harmless_AtomicWrite p data : other_file p -> safe (AtomicWrite p data) anything.
Proof.
  intros Hp. eapply harmless_bind; [apply harmless_WriteTemp|]. intros tmp Htmp.
  apply harmless_finally; [|by apply harmless_Remove].
  eapply harmless_bind; [eapply harmless_try, harmless_Rename; done|]. intros [u|e] _; [by apply harmless_ret|].
  eapply harmless_bind; [eapply harmless_try, harmless_Stat|]. intros [u|e'] _; [|apply harmless_fail].
  eapply harmless_bind; [eapply harmless_try, harmless_reservePath|]. intros [b|e'] Hb; [|apply harmless_fail].
  specialize (Hb b eq_refl).
  eapply harmless_bind; [eapply harmless_try, harmless_Rename; done|]. intros [u'|e'] _.
  - eapply harmless_bind; [eapply harmless_try, harmless_Rename; done|]. intros [u''|e''] _.
    + eapply harmless_bind; [eapply harmless_try, harmless_Remove; done|]. intros. by apply harmless_ret.
    + eapply harmless_bind; [eapply harmless_try, harmless_Rename; done|]. intros. apply harmless_fail.
  - eapply harmless_bind; [eapply harmless_try, harmless_Remove; done|]. intros. apply harmless_fail.
Qed.

Lemma harmless_writeResult path r : other_file path -> safe (writeReplacementResult path r) anything.
Proof.
  intros Hp. unfold writeReplacementResult. case_match; [by apply harmless_ret|].
  eapply harmless_bind; [apply harmless_happened|]. intros h _. by apply harmless_AtomicWrite.
Qed.

Lemma harmless_readPIDFile path : safe (readPIDFile path) anything.
Proof.
  unfold readPIDFile. case_match; [by apply harmless_ret|].
  eapply harmless_bind; [eapply harmless_try, harmless_ReadFile|]. intros [data|e] _; [|by apply harmless_ret].
  case_match; by apply harmless_ret.
Qed.

Lemma harmless_writePIDFile path pid : other_file path -> safe (writePIDFile path pid) anything.
Proof.
  intros Hp. unfold writePIDFile. case_match; [by apply harmless_ret|].
  eapply harmless_bind; [eapply harmless_try with (R := anything)|intros; by apply harmless_ret].
  eapply harmless_bind; [by apply harmless_Create|]. intros _ _.
  eapply harmless_bind; [by apply harmless_Write|]. intros _ _. apply harmless_trivial.
Qed.

Lemma harmless_start path args : safe (startReplacement path args) anything.
Proof.
  destruct args; [apply harmless_fail|]. apply harmless_syscall.
  eapply harmless_bind; [apply harmless_happened|]. intros h _.
  eapply harmless_bind; [apply harmless_log|]. intros. by apply harmless_ret.
Qed.

Lemma harmless_WaitForProcessExit pid : safe (WaitForProcessExit pid) anything.
Proof. eapply harmless_bind; [apply harmless_ask|]. intros [| |n] _; [by apply harmless_ret|apply harmless_fail..]. Qed.

Lemma harmless_StopProcess pid : safe (StopProcess pid) anything.
Proof.
  eapply harmless_bind; [apply harmless_happened|]. intros h _. case_match; [by apply harmless_ret|].
  eapply harmless_bind; [apply harmless_ask|]. intros r _.
  eapply harmless_bind with (R := anything); [|intros; apply harmless_WaitForProcessExit].
  assert (safe (h ← happened_so_far; if process_alive h pid then fail (os_error "Kill") else mret tt) anything).
  { eapply harmless_bind; [apply harmless_happened|]. intros h' _. case_match; [apply harmless_fail|by apply harmless_ret]. }
  by destruct r; [apply harmless_log|..].
Qed.

Lemma harmless_interference h d0 :
  forall C F, frame bin stg bak F -> (forall d, F d -> C d) -> F d0 ->
  keeps C (eq d0) (put_disk (interference h d0)) (fun _ => F).
Proof.
  intros C F HF HC Hd. assert (F (interference h d0)).
  { eapply HF; [|exact Hd]. split_and!; apply interference_other; auto. }
  by apply keeps_put; [apply HC|].
Qed.

(** One poll, whatever comes after it. *)
Lemma harmless_poll {A} h (k : IO A) : safe k anything -> safe (d ← get_disk; _ ← put_disk (interference h d); k) anything.
Proof.
  intros Hk. apply harmless_get. intros d C F HF HC Hd.
  eapply keeps_bind with (K := fun _ => F); [|intros _; by apply Hk].
  eapply keeps_weaken; [apply (harmless_interference h d C F HF HC Hd)|done|]. by intros [u|e] d'.
Qed.

Lemma harmless_WaitForReadyState ticks path version state : safe (WaitForReadyState ticks path version state) anything.
Proof.
  induction ticks as [|ticks IH]; cbn [WaitForReadyState].
  all: eapply harmless_bind; [apply harmless_happened|]; intros h _; apply harmless_poll.
  all: eapply harmless_bind; [eapply harmless_try, harmless_ReadFile|]; intros r _.
  all: case_match; [by apply harmless_ret|].
  all: eapply harmless_bind; [apply harmless_ask|]; intros out _.
  - destruct out; apply harmless_fail.
  - destruct out; [apply IH|apply harmless_fail..].
Qed.

Lemma harmless_health ticks options : safe (waitForReplacementHealth ticks options) anything.
Proof.
  unfold waitForReplacementHealth. repeat case_match; [apply probe_harmless|apply harmless_WaitForReadyState|apply harmless_fail].
Qed.
(** ** The helper *)
Abbreviation orig_safe := (original_safe bin bak o).
(** A whole executable is in place, or the whole original is the backup. *)
Definition survives (d : files) : Prop := orig_safe d \/ d !! bin = Some t.
Definition installed (d : files) : Prop := d !! bin = Some t /\ d !! bak = Some o.
(** How the helper ends. *)
Definition helper_post (r : result unit) (d : files) : Prop :=
  match r with Ok _ => d !! bin = Some t | Err _ => orig_safe d end.

Lemma keeps_safe {A} C F (m : IO A) (Q : result A -> files -> Prop) :
  safe m anything -> frame bin stg bak F -> (forall d, F d -> C d) -> (forall r d, F d -> Q r d) -> keeps C F m Q.
Proof. intros Hm HF HC HQ. eapply keeps_weaken; [by apply Hm|done|]. intros r d [Hd _]. auto. Qed.

Lemma frame_orig : frame bin stg bak orig_safe.
Proof. intros d d' (H1 & H2 & H3) [Hd|Hd]; [left|right]; congruence. Qed.
Lemma frame_installed : frame bin stg bak installed.
Proof. intros d d' (H1 & H2 & H3) [? ?]; split; congruence. Qed.
Lemma frame_start : frame bin stg bak (fun d => d !! bin = Some o /\ d !! stg = Some t).
Proof. intros d d' (H1 & H2 & H3) [? ?]; split; congruence. Qed.

Lemma keeps_restore_any C :
  (forall d, orig_safe d -> C d) ->
  keeps C (fun d => d !! bak = Some o) (restoreExecutable bin bak) (fun _ => orig_safe).
Proof.
  intros HC w [Hh Hd].
  destruct (keeps_restore bin stg bak o bin_stg bin_bak stg_bak C (disk w !! stg)) with w as [H1 [_ H2]].
  - intros d [[? _]|[? _]]; apply HC; [by right|by left].
  - done.
  - split; [done|]. destruct (snd _); [by left|done].
Qed.

Lemma keeps_restore_joined options err :
  Opt_BinaryPath options = bin -> Opt_BackupPath options = bak ->
  keeps survives (fun d => d !! bak = Some o) (restore_joined options err) (fun r d => orig_safe d).
Proof.
  intros Hb Hk. unfold restore_joined. rewrite Hb, Hk. eapply keeps_bind with (K := fun _ => orig_safe).
  - apply keeps_try, keeps_restore_any. by left.
  - intros r. by apply keeps_ret.
Qed.

Lemma harmless_note options state err digests : other_file (StatusPath options) -> safe (note options state err digests) anything.
Proof.
  intros Hs. eapply harmless_bind; [eapply harmless_try, harmless_writeResult; done|]. intros. by apply harmless_ret.
Qed.

(** From here on the original stays safe, and the helper fails. *)
Lemma keeps_failing (m : IO unit) : safe m (fun _ => False) -> keeps survives orig_safe m helper_post.
Proof.
  intros Hm. eapply keeps_weaken; [apply (Hm survives orig_safe frame_orig)|done|]; [by left|].
  intros [u|e] d [Hd Hr]; [by destruct (Hr u)|done].
Qed.

Lemma harmless_after_failed_replace options digests err :
  other_file (StatusPath options) -> safe (after_failed_replace options digests err) (fun _ => False).
Proof.
  intros Hs. eapply harmless_bind; [by apply harmless_note|]. intros _ _. case_match; [|apply harmless_fail].
  eapply harmless_bind; [eapply harmless_try, harmless_start|]. intros [pid|e] _; [apply harmless_fail|].
  eapply harmless_bind; [by apply harmless_note|]. intros; apply harmless_fail.
Qed.

Section Options.
Context (options : ReplacementOptions) (digests : replacementDigests).
Hypothesis binary_is : Opt_BinaryPath options = bin.
Hypothesis backup_is : Opt_BackupPath options = bak.
Hypothesis staged_is : Opt_StagedPath options = stg.
Hypothesis status_other : other_file (StatusPath options).
Hypothesis pid_other : other_file (PIDFile options).

Lemma keeps_after_failed_start err : keeps survives installed (after_failed_start options digests err) helper_post.
Proof.
  eapply keeps_bind with (K := fun _ => orig_safe).
  { eapply keeps_weaken; [apply keeps_restore_joined; done|by intros d []|]. by intros [a|e] d. }
  intros err'. apply keeps_failing.
  eapply harmless_bind; [by apply harmless_note|]. intros _ _.
  eapply harmless_bind; [eapply harmless_try, harmless_start|]. intros [pid|e] _.
  - eapply harmless_bind; [by apply harmless_writePIDFile|]. intros; apply harmless_fail.
  - eapply harmless_bind; [by apply harmless_note|]. intros; apply harmless_fail.
Qed.

Lemma keeps_after_unhealthy err : keeps survives installed (after_unhealthy options digests err) helper_post.
Proof.
  assert (Hi : forall d, installed d -> survives d) by (intros d []; by right).
  assert (Ho : forall d, installed d -> orig_safe d) by (intros d []; by right).
  eapply keeps_bind with (K := fun _ => installed).
  { apply keeps_safe; [apply harmless_readPIDFile|apply frame_installed|done|]. intros [a|e] d Hd; [done|by apply Ho]. }
  intros pid. eapply keeps_bind with (K := fun _ => installed).
  { apply keeps_safe; [|apply frame_installed|done|intros [a|e] d Hd; [done|by apply Ho]].
    case_match; [|by apply harmless_ret]. eapply harmless_bind; [eapply harmless_try, harmless_StopProcess|].
    intros; by apply harmless_ret. }
  intros err1. eapply keeps_bind with (K := fun _ => orig_safe).
  { eapply keeps_weaken; [apply keeps_restore_joined; done|by intros d []|]. by intros [a|e] d. }
  intros err2. apply keeps_failing.
  eapply harmless_bind; [by apply harmless_note|]. intros _ _.
  eapply harmless_bind with (R := anything); [|intros; apply harmless_fail].
  case_match; [|by apply harmless_ret].
  eapply harmless_bind; [eapply harmless_try, harmless_start|]. intros [p|e] _; [by apply harmless_writePIDFile|by apply harmless_ret].
Qed.

(** The clean-up comes last: the target is live by then. *)
Lemma keeps_cleanup result : StagedPath result = stg -> BackupPath result = bak ->
  keeps survives (fun d => d !! bin = Some t) (CleanupReplacementArtifacts result) helper_post.
Proof.
  intros Hs Hb. unfold CleanupReplacementArtifacts. rewrite Hs, Hb.
  assert (Hrm : forall p, p <> bin -> keeps survives (fun d => d !! bin = Some t)
            (if blank p then mret tt else _ ← try (os.Remove p); mret tt) (fun r d => r = Ok tt /\ d !! bin = Some t)).
  { intros p Hp. case_match; [by apply keeps_ret|]. apply keeps_ignored.
    eapply keeps_weaken; [apply (keeps_Remove_other survives (fun d => d !! bin = Some t) p)|done|done].
    - intros d Hd. by rewrite lookup_delete_ne.
    - by right. }
  cbn [for_each_m]. eapply keeps_bind with (K := fun _ d => d !! bin = Some t).
  { eapply keeps_weaken; [by apply Hrm|done|]. by intros r d [-> Hd]. }
  intros _. eapply keeps_bind with (K := fun _ d => d !! bin = Some t).
  { eapply keeps_weaken; [by apply Hrm|done|]. by intros r d [-> Hd]. }
  intros []. by apply keeps_ret.
Qed.

Lemma keeps_await ticks : keeps survives installed (await_replacement ticks options digests) helper_post.
Proof.
  assert (Hi : forall d, installed d -> survives d) by (intros d []; by right).
  eapply keeps_bind with (K := fun _ => installed).
  { apply keeps_try, keeps_safe; [apply harmless_health|apply frame_installed|done|done]. }
  intros [[]|e]; [|apply keeps_after_unhealthy].
  eapply keeps_bind with (K := fun _ => installed).
  { apply keeps_try, keeps_safe; [by apply harmless_writeResult|apply frame_installed|done|done]. }
  intros [[]|e].
  - eapply keeps_weaken; [apply keeps_cleanup; done|by intros d []|done].
  - apply keeps_fail. intros d []. by right.
Qed.

End Options.

Lemma harmless_digests b s : safe (replacementDigestsFor b s) anything.
Proof.
  assert (Hd : forall p, safe (try (replacementFileSHA256 p)) anything).
  { intros p. eapply harmless_weaken; [apply (harmless_try _ _ _ (replacementFileSHA256 p) anything)|done].
    eapply harmless_bind; [apply harmless_ReadFile|]. intros; by apply harmless_ret. }
  eapply harmless_bind; [apply Hd|]. intros r _. eapply harmless_bind with (R := anything); [by apply harmless_lift|]. intros ob _.
  eapply harmless_bind; [apply Hd|]. intros r' _. eapply harmless_bind with (R := anything); [by apply harmless_lift|]. intros tb _.
  by apply harmless_ret.
Qed.

Abbreviation before := (fun d : files => d !! bin = Some o /\ d !! stg = Some t).

Lemma before_survives d : before d -> survives d.
Proof. intros []. left. by left. Qed.
Lemma before_failed e d : before d -> helper_post (Err e) d.
Proof. intros []. by left. Qed.

(** A harmless call in front of the replacement, its outcome as a value. *)
Lemma keeps_before_try {A} (m : IO A) (k : result A -> IO unit) :
  safe m anything -> (forall r, keeps survives before (k r) helper_post) ->
  keeps survives before (r ← try m; k r) helper_post.
Proof.
  intros Hm Hk. eapply keeps_bind with (K := fun _ => before); [|exact Hk].
  apply keeps_try, keeps_safe; [done|apply frame_start|apply before_survives|done].
Qed.

Lemma keeps_before_note options state err digests e :
  other_file (StatusPath options) -> keeps survives before (_ ← note options state err digests; fail e) helper_post.
Proof.
  intros Hs. eapply keeps_bind with (K := fun _ => before).
  - apply keeps_safe; [by apply harmless_note|apply frame_start|apply before_survives|].
    intros [u|e'] d Hd; [done|by apply before_failed].
  - intros _. apply keeps_fail, before_failed.
Qed.

Lemma keeps_before_lift f (r : result unit) (k : IO unit) :
  keeps survives before k helper_post -> keeps survives before (_ ← lift (map_err f r); k) helper_post.
Proof.
  intros Hk. eapply keeps_bind with (K := fun _ => before); [|by intros _].
  apply keeps_lift. intros d Hd. destruct r as [u|e]; [done|by apply before_failed].
Qed.

(** After a successful replacement. *)
Lemma keeps_replaced ticks options digests :
  Opt_BinaryPath options = bin -> Opt_StagedPath options = stg -> Opt_BackupPath options = bak ->
  other_file (StatusPath options) -> other_file (PIDFile options) ->
  keeps survives installed
    (_ ← note options ReplacementStateWaiting None digests;
     if selfManagedMode (Mode options) then
       started ← try (startReplacement (Opt_BinaryPath options) (RestartArgs options));
       match started with
       | Err err => after_failed_start options digests err
       | Ok pid => _ ← writePIDFile (PIDFile options) pid; await_replacement ticks options digests
       end
     else await_replacement ticks options digests) helper_post.
Proof.
  intros Hb Hs Hk Hst Hpid.
  assert (Hi : forall d, installed d -> survives d) by (intros d []; by right).
  assert (Ho : forall e d, installed d -> helper_post (Err e) d) by (intros e d []; by right).
  eapply keeps_bind with (K := fun _ => installed).
  { apply keeps_safe; [by apply harmless_note|apply frame_installed|done|]. intros [u|e] d Hd; [done|by apply Ho]. }
  intros _. case_match; [|by apply keeps_await].
  eapply keeps_bind with (K := fun _ => installed).
  { apply keeps_try, keeps_safe; [apply harmless_start|apply frame_installed|done|done]. }
  intros [pid|err]; [|by apply keeps_after_failed_start].
  eapply keeps_bind with (K := fun _ => installed); [|intros _; by apply keeps_await].
  apply keeps_safe; [by apply harmless_writePIDFile|apply frame_installed|done|]. intros [u|e] d Hd; [done|by apply Ho].
Qed.

Lemma keeps_helper ticks options :
  Opt_BinaryPath options = bin -> Opt_StagedPath options = stg -> Opt_BackupPath options = bak ->
  other_file (StatusPath options) -> other_file (PIDFile options) ->
  keeps survives before (RunReplacementHelper ticks options) helper_post.
Proof.
  intros Hb Hs Hk Hst Hpid. unfold RunReplacementHelper. case_match; [apply keeps_fail, before_failed|].
  set (opts := if String.eqb (TargetState options) "" then _ else options).
  assert (Hopts : Opt_BinaryPath opts = bin /\ Opt_StagedPath opts = stg /\ Opt_BackupPath opts = bak
                  /\ other_file (StatusPath opts) /\ other_file (PIDFile opts)) by (unfold opts; by case_match).
  clearbody opts. destruct Hopts as (Hb' & Hs' & Hk' & Hst' & Hpid').
  apply keeps_before_try; [apply harmless_digests|]. intros [digests|err]; [|by apply keeps_before_note].
  apply keeps_before_try; [by apply harmless_writeResult|]. intros prepared. apply keeps_before_lift.
  apply keeps_before_try; [apply harmless_WaitForProcessExit|]. intros [[]|err]; [|by apply keeps_before_note].
  apply keeps_before_try; [by apply harmless_writeResult|]. intros replacing. apply keeps_before_lift.
  eapply keeps_bind with (K := fun r d => match r with Ok _ => installed d | Err _ => orig_safe d end).
  { rewrite Hb', Hs', Hk'. apply keeps_try. eapply keeps_weaken; [apply (keeps_replace bin stg bak o t bin_stg bin_bak stg_bak)|done|].
    - intros d [Ho _]. by left.
    - intros [u|e] d Hd; [done|apply Hd]. }
  intros [[]|err]; [by apply keeps_replaced|].
  by apply keeps_failing, harmless_after_failed_replace.
Qed.

(** C29: as long as nobody but the update helper touches the live, the staged and the
    backup file (neither other processes while it waits nor the health probe, and with the
    journal and the PID file at other paths), and these are three: wherever the helper stops, at any call or byte
    of a copy and whichever calls fail, a whole executable is left: the original in place or
    as the backup, or the target in place.  When it reports success the target is in place,
    and when it reports an error the original is safe.  A restarted node does touch them: it
    removes the backup once it has found itself healthy, and a helper that runs into its
    timeout after that is not covered (see [restore_without_backup]). *)
Theorem replacement_survives_crashes ticks options (d : files) (answers : list outcome) :
  Opt_BinaryPath options = bin -> Opt_StagedPath options = stg -> Opt_BackupPath options = bak ->
  other_file (StatusPath options) -> other_file (PIDFile options) ->
  d !! bin = Some o -> d !! stg = Some t ->
  let '(w, r) := RunReplacementHelper ticks options (MkWorld d answers [] []) in
  Forall survives (history w) /\ survives (disk w) /\ (if is_Ok r then disk w !! bin = Some t else orig_safe (disk w)).
Proof.
  intros Hb Hs Hk Hst Hpid Ho Ht.
  destruct (keeps_helper ticks options Hb Hs Hk Hst Hpid (MkWorld d answers [] [])) as [Hh Hr]; [by split|].
  destruct (RunReplacementHelper ticks options _) as [w [u|e]]; cbn in *; (split_and!; [done| |done]); [by right|by left].
Qed.

End HelperSafety.

(** ** Classification and recovery *)
Section Recovering.
Context `{CR : !Crypto, UN : !Unicode, TN : !TempNames, RJ : !ResultJSON, PR : !Processes}.
Context (bin stg bak : string).
Hypothesis bin_stg : bin <> stg.
Hypothesis bin_bak : bin <> bak.
Hypothesis temp_other : forall path pattern d, other bin stg bak (temp_name path pattern d).
Hypothesis probe_harmless : forall url, harmless bin stg bak (WaitForHTTPSHealth url) anything.

Context (journal : ReplacementResult) (d0 : files).
Hypothesis binary_is : BinaryPath journal = bin.
Hypothesis staged_is : StagedPath journal = stg.
Hypothesis backup_is : BackupPath journal = bak.

(** The live executable is one of the two that the journal names. *)
Definition live_known : Prop :=
  exists c, d0 !! bin = Some c /\
    (digest_of c = normalizeSHA256 (OriginalSHA256 journal) \/ digest_of c = normalizeSHA256 (TargetSHA256 journal)).

(** The three files are as they were, or the live one is known and the others may go. *)
Definition unchanged (d : files) : Prop := agree bin stg bak d0 d.
Definition recoverable (d : files) : Prop := d !! bin = d0 !! bin /\ (unchanged d \/ live_known).

Lemma frame_unchanged : frame bin stg bak unchanged.
Proof. intros d d' (H1 & H2 & H3) (? & ? & ?). split_and!; congruence. Qed.
Lemma frame_recoverable : frame bin stg bak recoverable.
Proof. intros d d' Ha [Hb [Hu|Hl]]; split; try (destruct Ha; congruence); [left|by right]. by eapply frame_unchanged. Qed.
Lemma unchanged_recoverable d : unchanged d -> recoverable d.
Proof. intros Hu. split; [apply Hu|by left]. Qed.

Lemma isSHA256_nonempty s : isSHA256 s = true -> s <> "".
Proof. by intros Hs ->. Qed.

Lemma keeps_FileState C p :
  keeps C unchanged (replacementFileStateFor p)
    (fun r d => unchanged d /\ forall s, r = Ok s -> file_digest s <> "" -> p = bin ->
       exists c, d0 !! bin = Some c /\ digest_of c = file_digest s).
Proof.
  unfold replacementFileStateFor. case_match; [by apply keeps_ret; intros d Hd; split; [done|intros s [= <-]]|].
  eapply keeps_bind with (K := fun r d => unchanged d /\ forall s, r = Ok s -> p = bin -> exists c, d0 !! bin = Some c /\ digest_of c = s).
  { apply keeps_try. eapply keeps_bind with (K := fun data d => unchanged d /\ d !! p = Some data).
    - apply keeps_ReadFile; [done|]. intros d e Hd. by split.
    - intros data. apply keeps_ret. intros d [Hu Hd]. split; [done|]. intros s [= <-] ->.
      exists data. split; [|done]. destruct Hu as [Hu _]. congruence. }
  intros [digest|e].
  - apply keeps_ret. intros d [Hu Hd]. split; [done|]. intros s [= <-] _ Hp. by apply Hd.
  - case_match; [apply keeps_ret|apply keeps_fail]; intros d [Hu Hd]; (split; [done|]); intros s Hs Hne; [|done].
    by injection Hs as <-.
Qed.

Lemma keeps_Classify C :
  keeps C unchanged (ClassifyReplacementFiles journal)
    (fun r d => unchanged d /\ (r = Ok ReplacementDiskStateTargetInstalled \/ r = Ok ReplacementDiskStateOriginalIntact -> live_known)).
Proof.
  unfold ClassifyReplacementFiles. cbv zeta. case_match eqn:Hsha; [apply keeps_fail; intros d Hd; split; [done|]; intros [|]; discriminate|].
  apply orb_false_iff in Hsha as [Ho%negb_false_iff Ht%negb_false_iff].
  apply isSHA256_nonempty in Ho, Ht.
  assert (Hrest : forall p binary k,
    (forall s, keeps C unchanged (k s) (fun r d => unchanged d /\ (r = Ok ReplacementDiskStateTargetInstalled \/ r = Ok ReplacementDiskStateOriginalIntact -> live_known))) ->
    keeps C unchanged (b ← try (replacementFileStateFor p); x ← lift (map_err binary b); k x)
      (fun r d => unchanged d /\ (r = Ok ReplacementDiskStateTargetInstalled \/ r = Ok ReplacementDiskStateOriginalIntact -> live_known))).
  { intros p f k Hk. eapply keeps_bind with (K := fun _ => unchanged).
    - apply keeps_try. eapply keeps_weaken; [apply keeps_FileState|done|naive_solver].
    - intros b. eapply keeps_bind with (K := fun _ => unchanged); [|done].
      apply keeps_lift. intros d Hd. destruct b; [done|]. split; [done|]. intros [|]; discriminate. }
  eapply keeps_bind with (K := fun b d => unchanged d /\ forall s, b = Ok s -> file_digest s <> "" ->
    exists c, d0 !! bin = Some c /\ digest_of c = file_digest s).
  { apply keeps_try. eapply keeps_weaken; [apply keeps_FileState|done|]. rewrite binary_is. naive_solver. }
  intros b. eapply keeps_bind with (K := fun s d => unchanged d /\ (file_digest s <> "" ->
    exists c, d0 !! bin = Some c /\ digest_of c = file_digest s)).
  { apply keeps_lift. intros d [Hd Hs]. destruct b; [|split; [done|intros [|]; discriminate]]. cbn. split; [done|]. by apply Hs. }
  intros binary. apply keeps_pure. intros Hb. apply Hrest. intros backup. apply Hrest. intros staged. apply keeps_ret. intros d Hd. split; [done|].
  unfold classify. intros Hc.
  repeat case_match; repeat match goal with
    | H : _ && _ = true |- _ => apply andb_true_iff in H as []
    | H : String.eqb _ _ = true |- _ => apply String.eqb_eq in H
    end; try (destruct Hc; discriminate).
  - destruct Hb as (c & Hc1 & Hc2); [congruence|]. exists c. split; [done|]. right. congruence.
  - destruct Hb as (c & Hc1 & Hc2); [congruence|]. exists c. split; [done|]. left. congruence.
Qed.

(** *** The two recoveries *)
Context (path : string).
Hypothesis path_other : other bin stg bak path.
Hypothesis path_trimmed : strings.TrimSpace path = path.
Hypothesis on_disk : d0 !! path = Some (marshal_result journal).
Hypothesis pending : ReplacementNeedsRecovery (State journal) = true.

(** The journal with another outcome. *)
Definition same_paths (r : ReplacementResult) : Prop := StagedPath r = stg /\ BackupPath r = bak.

Lemma keeps_read_journal C :
  keeps C (eq d0) (try (ReadReplacementResult path)) (fun r d => unchanged d /\ forall j, r = Ok (Ok j) -> j = journal).
Proof.
  apply keeps_try. eapply keeps_bind with (K := fun data d => unchanged d /\ data = marshal_result journal).
  - apply keeps_ReadFile; [intros d data <- Hd|intros d e <-]; (split; [by split_and!|]); [congruence|done].
  - intros data. apply keeps_pure. intros ->. rewrite unmarshal_marshal.
    case_match; [apply keeps_fail; intros d Hd; split; [done|discriminate]|].
    case_match; [apply keeps_fail; intros d Hd; split; [done|discriminate]|].
    apply keeps_ret. intros d Hd. split; [done|]. by intros j [= <-].
Qed.

Lemma keeps_recoverable_cleanup r : live_known -> same_paths r ->
  keeps recoverable recoverable (CleanupReplacementArtifacts r) (fun _ => recoverable).
Proof.
  intros Hl [Hs Hb]. unfold CleanupReplacementArtifacts. rewrite Hs, Hb.
  assert (Hrm : forall p, p <> bin -> keeps recoverable recoverable
            (if blank p then mret tt else _ ← try (os.Remove p); mret tt) (fun _ => recoverable)).
  { intros p Hp. case_match; [by apply keeps_ret|]. apply keeps_ignored, keeps_Remove_other; [|done].
    intros d [Hd _]. split; [by rewrite lookup_delete_ne|by right]. }
  cbn [for_each_m]. eapply keeps_bind with (K := fun _ => recoverable).
  { eapply keeps_weaken; [by apply Hrm|done|]. by intros []. }
  intros _. eapply keeps_bind with (K := fun _ => recoverable).
  { eapply keeps_weaken; [by apply Hrm|done|]. by intros []. }
  intros []. by apply keeps_ret.
Qed.

(** A harmless call, for the rest of the recovery. *)
Lemma keeps_recoverable {A} (m : IO A) : harmless bin stg bak m anything -> keeps recoverable recoverable m (fun _ => recoverable).
Proof. intros Hm. eapply keeps_weaken; [apply (Hm recoverable recoverable frame_recoverable)|done|]; [done|]. by intros r d []. Qed.

Lemma keeps_recoverable_bind {A B} (m : IO A) (f : A -> IO B) :
  keeps recoverable recoverable m (fun _ => recoverable) ->
  (forall a, keeps recoverable recoverable (f a) (fun _ => recoverable)) ->
  keeps recoverable recoverable (m ≫= f) (fun _ => recoverable).
Proof. intros Hm Hf. eapply keeps_bind with (K := fun _ => recoverable); [|exact Hf]. eapply keeps_weaken; [exact Hm|done|]. by intros []. Qed.

Lemma keeps_write_journal r : keeps recoverable recoverable (writeReplacementResult path r) (fun _ => recoverable).
Proof. apply keeps_recoverable, (harmless_writeResult bin stg bak temp_other), path_other. Qed.

Lemma keeps_node_recovery current sent :
  keeps recoverable (eq d0) (sendPendingNodeUpdate current sent path) (fun _ => recoverable).
Proof.
  assert (Hstart : forall d, d0 = d -> recoverable d) by (intros d <-; by apply unchanged_recoverable; split_and!).
  unfold sendPendingNodeUpdate. destruct sent; [by apply keeps_ret|]. cbv zeta. rewrite path_trimmed.
  case_match; [by apply keeps_ret|].
  eapply keeps_bind; [eapply keeps_weaken; [apply keeps_read_journal|done|]; intros [r|e] d Hd; [exact Hd|by apply unchanged_recoverable, Hd]|].
  intros [r|e]; [|apply keeps_ret; intros d [Hd _]; by apply unchanged_recoverable].
  apply keeps_pure. intros Hj. rewrite (Hj r eq_refl). clear Hj.
  case_match; [apply keeps_ret; intros d Hd; by apply unchanged_recoverable|]. rewrite pending.
  eapply keeps_bind with (K := fun x d => recoverable d /\ (same_paths x.1 /\ (x.2 = true -> live_known))).
  - eapply keeps_bind with (K := fun i d => unchanged d /\ (i = Ok ReplacementDiskStateTargetInstalled \/ i = Ok ReplacementDiskStateOriginalIntact -> live_known)).
    { apply keeps_try. by apply keeps_Classify. }
    intros inspected. apply keeps_pure. intros Hl. destruct (node_verdict current journal inspected) as [[state message] cleanup] eqn:Ev.
    eapply keeps_bind with (K := fun _ => recoverable).
    + eapply keeps_weaken; [apply keeps_write_journal|apply unchanged_recoverable|]. by intros [].
    + intros _. apply keeps_ret. intros d Hd. split; [done|]. split; [by split|]. cbn. intros ->. apply Hl.
      unfold node_verdict in Ev. repeat case_match; simplify_eq; auto.
  - intros [r' cleanup]. apply keeps_pure. cbn. intros [Hp Hl]. case_match; [by apply keeps_ret|].
    apply keeps_recoverable_bind.
    { apply keeps_recoverable, harmless_syscall, harmless_log. }
    intros _. apply keeps_recoverable_bind; [|intros _; by apply keeps_ret].
    destruct cleanup; cbn [orb negb andb]; [|by apply keeps_ret]. by apply keeps_recoverable_cleanup; [apply Hl|].
Qed.

Lemma keeps_finish r state message cleanup : same_paths r -> (cleanup = true -> live_known) ->
  keeps recoverable recoverable (finishPendingControllerReplacement path r state message cleanup) (fun _ => recoverable).
Proof.
  intros Hp Hl. apply keeps_recoverable_bind; [by apply keeps_try, keeps_write_journal|]. intros [u|e]; [|by apply keeps_ret].
  apply keeps_recoverable_bind.
  - destruct cleanup; [|by apply keeps_ret]. by apply keeps_recoverable_cleanup; [apply Hl|].
  - intros _. apply keeps_recoverable. eapply harmless_bind; [eapply harmless_try, harmless_syscall, harmless_log|].
    intros; by apply harmless_ret.
Qed.

Lemma keeps_controller_recovery current healthURL :
  keeps recoverable (eq d0) (recoverPendingReplacement current path healthURL) (fun _ => recoverable).
Proof.
  unfold recoverPendingReplacement.
  eapply keeps_bind; [eapply keeps_weaken; [apply keeps_read_journal|done|]; intros [r|e] d Hd; [exact Hd|by apply unchanged_recoverable, Hd]|].
  intros [r|e]; [|apply keeps_ret; intros d [Hd _]; by apply unchanged_recoverable].
  apply keeps_pure. intros Hj. rewrite (Hj r eq_refl). clear Hj.
  assert (Hterm : isTerminalControllerReplacementState (State journal) = false /\ String.eqb (State journal) "up_to_date" = false).
  { pose proof pending as Hn. unfold ReplacementNeedsRecovery in Hn.
    repeat (apply orb_true_iff in Hn as [Hn|Hn]); apply String.eqb_eq in Hn; by rewrite Hn. }
  destruct Hterm as [Ht1 Ht2]. rewrite Ht1, Ht2, pending. cbn [andb negb].
  eapply keeps_bind with (K := fun i d => unchanged d /\ (i = Ok ReplacementDiskStateTargetInstalled \/ i = Ok ReplacementDiskStateOriginalIntact -> live_known)).
  { apply keeps_try. by apply keeps_Classify. }
  intros inspected. apply keeps_pure. intros Hl.
  eapply (keeps_weaken _ _ recoverable) with (Q' := fun _ => recoverable); [|apply unchanged_recoverable|done].
  destruct (controller_verdict current journal inspected) as [[[state message] cleanup]|] eqn:Ev.
  - apply keeps_finish; [by split|]. intros ->. apply Hl. unfold controller_verdict in Ev. repeat case_match; simplify_eq; auto.
  - assert (live_known) as Hk by (apply Hl; unfold controller_verdict in Ev; repeat case_match; simplify_eq; auto).
    apply keeps_recoverable_bind; [by apply keeps_try, keeps_write_journal|]. intros [u|e]; [|by apply keeps_ret].
    apply keeps_recoverable_bind.
    + destruct healthURL; [by apply keeps_try, keeps_recoverable|by apply keeps_ret].
    + intros [v|e]; by apply keeps_finish.
Qed.
(** Recovery from a pending journal, on the node and on the Controller, never
    touches the live executable, and it removes the staged or the previous file
    only when the live executable is one of the two the journal names; whatever
    the files are, whichever calls fail, and wherever it stops. *)
Theorem recovery_removes_nothing_needed current sent healthURL (answers : list outcome) :
  let '(w, _) := sendPendingNodeUpdate current sent path (MkWorld d0 answers [] []) in
  let '(w', _) := recoverPendingReplacement current path healthURL (MkWorld d0 answers [] []) in
  Forall recoverable (history w) /\ recoverable (disk w) /\ Forall recoverable (history w') /\ recoverable (disk w').
Proof.
  pose proof (keeps_node_recovery current sent (MkWorld d0 answers [] []) (conj (Forall_nil_2 _) eq_refl)) as [H1 H2].
  pose proof (keeps_controller_recovery current healthURL (MkWorld d0 answers [] []) (conj (Forall_nil_2 _) eq_refl)) as [H3 H4].
  destruct (sendPendingNodeUpdate _ _ _ _) as [w r], (recoverPendingReplacement _ _ _ _) as [w' r']. done.
Qed.
End Recovering.

(** ** The crash points of an undisturbed replacement *)
Section CrashPoints.
Context `{CR : !Crypto, UN : !Unicode}.

Lemma classify_files result (d : files) h ev :
  isSHA256 (normalizeSHA256 (OriginalSHA256 result)) = true -> isSHA256 (normalizeSHA256 (TargetSHA256 result)) = true ->
  blank (BinaryPath result) = false -> blank (BackupPath result) = false -> blank (StagedPath result) = false ->
  let state path := match d !! path with Some c => MkFileState (digest_of c) true | None => MkFileState "" false end in
  snd (ClassifyReplacementFiles result (MkWorld d [] h ev)) =
  Ok (classify (normalizeSHA256 (OriginalSHA256 result)) (normalizeSHA256 (TargetSHA256 result))
        (state (BinaryPath result)) (state (BackupPath result)) (state (StagedPath result))).
Proof.
  intros Ho Ht Hb Hk Hs. cbn zeta.
  assert (Hfile : forall p, blank p = false ->
    replacementFileStateFor p (MkWorld d [] h ev) =
    (MkWorld d [] h ev, Ok (match d !! p with Some c => MkFileState (digest_of c) true | None => MkFileState "" false end))).
  { intros p Hp. unfold replacementFileStateFor, replacementFileSHA256. rewrite Hp.
    cbv [mbind M_bind try]. rewrite run_ReadFile. by destruct (d !! p). }
  unfold ClassifyReplacementFiles. cbv zeta. rewrite Ho, Ht. cbn [negb orb].
  cbv [mbind M_bind try lift mret M_ret map_err]. by rewrite !Hfile.
Qed.

Lemma classify_intact original target b s :
  original <> target -> b = MkFileState original true -> s = MkFileState target true ->
  classify original target b (MkFileState "" false) s = ReplacementDiskStateOriginalIntact.
Proof.
  intros Hne -> ->. unfold classify. cbn [file_digest file_exists negb andb]. rewrite !String.eqb_refl. apply String.eqb_neq in Hne. by rewrite Hne.
Qed.

Lemma classify_partial original target k s :
  original <> "" -> target <> "" -> k = MkFileState original true -> s = MkFileState target true ->
  classify original target (MkFileState "" false) k s = ReplacementDiskStatePartial.
Proof.
  intros Ho Ht -> ->. unfold classify. cbn [file_digest file_exists negb andb]. rewrite !String.eqb_refl.
  destruct (String.eqb_spec "" target); [congruence|]. destruct (String.eqb_spec "" original); [congruence|]. done.
Qed.

Lemma classify_installed original target k b :
  b = MkFileState target true -> k = MkFileState original true ->
  classify original target b k (MkFileState "" false) = ReplacementDiskStateTargetInstalled.
Proof. intros -> ->. unfold classify. cbn [file_digest file_exists negb andb]. by rewrite !String.eqb_refl. Qed.

(** When no call fails, a replacement can be interrupted in three states, and
    the journal tells them apart: before the first rename the original is intact,
    between the renames the layout is partial, after the second the target is
    installed. *)
Theorem crash_points_classified bin stg bak o t (d : files) result h ev :
  bin <> stg -> bin <> bak -> stg <> bak ->
  blank bin = false -> blank stg = false -> blank bak = false ->
  BinaryPath result = bin -> StagedPath result = stg -> BackupPath result = bak ->
  normalizeSHA256 (OriginalSHA256 result) = digest_of o -> normalizeSHA256 (TargetSHA256 result) = digest_of t ->
  isSHA256 (digest_of o) = true -> isSHA256 (digest_of t) = true -> digest_of o <> digest_of t ->
  d !! bin = Some o -> d !! stg = Some t -> d !! bak = None ->
  exists d1 d2,
    replaceExecutable bin stg bak (MkWorld d [] [] []) = (MkWorld d2 [] [d1; d2] [], Ok tt) /\
    snd (ClassifyReplacementFiles result (MkWorld d [] h ev)) = Ok ReplacementDiskStateOriginalIntact /\
    snd (ClassifyReplacementFiles result (MkWorld d1 [] h ev)) = Ok ReplacementDiskStatePartial /\
    snd (ClassifyReplacementFiles result (MkWorld d2 [] h ev)) = Ok ReplacementDiskStateTargetInstalled.
Proof.
  intros N1 N2 N3 B1 B2 B3 <- <- <- Ho Ht So St Hne Hbin Hstg Hbak.
  exists (<[BackupPath result := o]> (delete (BinaryPath result) d)).
  exists (<[BinaryPath result := t]> (delete (StagedPath result) (<[BackupPath result := o]> (delete (BinaryPath result) d)))).
  assert (digest_of o <> "" /\ digest_of t <> "") as [Eo Et] by (split; by apply isSHA256_nonempty).
  split_and!.
  - unfold replaceExecutable, remove_if_present, backup_executable, install_executable.
    cbv [mbind M_bind try]. rewrite run_MkdirAll, run_Remove, Hbak. cbn.
    rewrite run_Rename, Hbin. cbn. rewrite run_Rename, lookup_insert_ne, lookup_delete_ne, Hstg by done. cbn.
    by rewrite run_Chmod, lookup_insert_eq.
  - rewrite classify_files by congruence. rewrite Hbin, Hbak, Hstg, Ho, Ht. f_equal. by apply classify_intact.
  - rewrite classify_files by congruence.
    rewrite lookup_insert_ne, lookup_delete_eq, lookup_insert_eq, lookup_insert_ne, lookup_delete_ne, Hstg, Ho, Ht by done.
    f_equal. by apply classify_partial.
  - rewrite classify_files by congruence.
    rewrite lookup_insert_eq, lookup_insert_ne, lookup_delete_ne, lookup_insert_eq, lookup_insert_ne, lookup_delete_eq, Ho, Ht by done.
    f_equal. by apply classify_installed.
Qed.

End CrashPoints.

(** ** Sample parameters and witnesses *)
(** A field: every byte after a mark, and another mark at the end. *)
Fixpoint put_field (l rest : list ascii) : list ascii :=
  match l with [] => "."%char :: rest | c :: l => "+"%char :: c :: put_field l rest end.
Fixpoint get_field (l : list ascii) : list ascii * list ascii :=
  match l with
  | "+"%char :: (c :: l) => let '(f, rest) := get_field l in (c :: f, rest)
  | _ :: rest => ([], rest)
  | [] => ([], [])
  end.
Lemma get_put_field l rest : get_field (put_field l rest) = (l, rest).
Proof. induction l as [|c l IH]; [done|]. cbn. by rewrite IH. Qed.

Fixpoint positive_bytes (p : positive) : list ascii :=
  match p with xH => [] | xO p => "0"%char :: positive_bytes p | xI p => "1"%char :: positive_bytes p end.
Fixpoint bytes_positive (l : list ascii) : positive :=
  match l with [] => xH | c :: l => if Ascii.eqb c "1" then xI (bytes_positive l) else xO (bytes_positive l) end.
Lemma bytes_positive_bytes p : bytes_positive (positive_bytes p) = p.
Proof. induction p as [p IH|p IH|]; cbn; by rewrite ?IH. Qed.

Definition z_bytes (z : Z) : list ascii := positive_bytes (encode z).
Definition bytes_z (l : list ascii) : Z := default 0 (decode (bytes_positive l)).
Lemma bytes_z_bytes z : bytes_z (z_bytes z) = z.
Proof. unfold bytes_z, z_bytes. by rewrite bytes_positive_bytes, decode_encode. Qed.

Definition put_result (r : ReplacementResult) : list ascii :=
  put_field (z_bytes (SchemaVersion r)) (put_field (bytes_of (ActionID r)) (put_field (bytes_of (Version r))
  (put_field (bytes_of (State r)) (put_field (bytes_of (Error r)) (put_field (bytes_of (BinaryPath r))
  (put_field (bytes_of (StagedPath r)) (put_field (bytes_of (BackupPath r)) (put_field (bytes_of (OriginalSHA256 r))
  (put_field (bytes_of (TargetSHA256 r)) (put_field (z_bytes (UpdatedAt r)) [])))))))))).

Definition get_result (l : list ascii) : option ReplacementResult :=
  let '(a, l) := get_field l in let '(b, l) := get_field l in let '(c, l) := get_field l in let '(d, l) := get_field l in
  let '(e, l) := get_field l in let '(f, l) := get_field l in let '(g, l) := get_field l in let '(h, l) := get_field l in
  let '(i, l) := get_field l in let '(j, l) := get_field l in let '(k, l) := get_field l in
  Some (MkResult (bytes_z a) (of_bytes b) (of_bytes c) (of_bytes d) (of_bytes e) (of_bytes f) (of_bytes g) (of_bytes h)
          (of_bytes i) (of_bytes j) (bytes_z k)).

Lemma get_put_result r : get_result (put_result r) = Some r.
Proof.
  unfold get_result, put_result. rewrite !get_put_field, !bytes_z_bytes, !of_bytes_bytes_of. by destruct r.
Qed.

Definition field_json : ResultJSON :=
  {| marshal_result := put_result; unmarshal_result := get_result; unmarshal_marshal := get_put_result |}.

Definition sample_bin := "/opt/asterferry".
Definition sample_stg := "/var/updates/staged".
Definition sample_bak := "/var/updates/previous".

Definition fresh_temp : TempNames := {|
  temp_name := fun _ _ d => fresh (dom d ∪ {[sample_bin; sample_stg; sample_bak]});
  temp_name_fresh := fun _ _ d => proj1 (not_elem_of_dom d _) (fun H => is_fresh (dom d ∪ {[sample_bin; sample_stg; sample_bak]}) (elem_of_union_l _ _ _ H))
|}.

(** Processes that always start, a probe that always answers, nobody else at work. *)
Definition quiet_processes : Processes := {|
  time_now := fun _ => 1; own_pid := 2; new_pid := fun _ => 3; process_alive := fun _ _ => false;
  WaitForHTTPSHealth := fun _ => mret tt; interference := fun _ d => d
|}.

Definition sample_options : ReplacementOptions :=
  MkOptions 1 sample_bin sample_stg sample_bak "https://127.0.0.1/readyz" "" "" "1.2.0" "act-1" "systemd" [] "/var/status.json" "".
Definition sample_old : list ascii := ["o"; "l"; "d"]%char.
Definition sample_new : list ascii := ["n"; "e"; "w"; "!"]%char.
Definition sample_disk : files := {[sample_bin := sample_old; sample_stg := sample_new]}.

Lemma fresh_temp_other path pattern d : other sample_bin sample_stg sample_bak (@temp_name fresh_temp path pattern d).
Proof.
  cbn. pose proof (is_fresh (dom d ∪ {[sample_bin; sample_stg; sample_bak]})) as Hf.
  generalize dependent (fresh (dom d ∪ {[sample_bin; sample_stg; sample_bak]})). intros x Hx.
  split_and!; intros ->; apply Hx; set_solver.
Qed.

Lemma quiet_probe url : harmless sample_bin sample_stg sample_bak (@WaitForHTTPSHealth quiet_processes url) anything.
Proof. cbn. by apply harmless_ret. Qed.

(** The rename of the staged file fails and its copy stops after two bytes. *)
Definition sample_failure : list outcome := replicate 22 Done ++ [Fails; Done; Done; Done; Stops 2].

Definition sample_run (answers : list outcome) : world * result unit :=
  RunReplacementHelper (CR := toy_crypto) (TN := fresh_temp) (RJ := field_json) (PR := quiet_processes)
    0%nat sample_options (MkWorld sample_disk answers [] []).

Example failed_replacement_rolls_back :
  let '(w, r) := sample_run sample_failure in
  is_Ok r = false /\ disk w !! sample_bin = Some sample_old /\
  existsb (fun d : files => bool_decide (d !! sample_bin = Some ["n"; "e"]%char /\ d !! sample_bak = Some sample_old)) (history w) = true.
Proof. vm_compute. done. Qed.

Lemma replacement_survives_crashes_witness :
  let '(w, r) := sample_run sample_failure in
  Forall (survives sample_bin sample_bak sample_old sample_new) (history w) /\
  survives sample_bin sample_bak sample_old sample_new (disk w) /\
  (if is_Ok r then disk w !! sample_bin = Some sample_new else original_safe sample_bin sample_bak sample_old (disk w)).
Proof.
  apply (replacement_survives_crashes (CR := toy_crypto) (TN := fresh_temp) (RJ := field_json) (PR := quiet_processes)
           sample_bin sample_stg sample_bak sample_old sample_new).
  1-3: discriminate.
  - apply fresh_temp_other.
  - apply quiet_probe.
  - done.
  - reflexivity.
  - reflexivity.
  - reflexivity.
  - repeat split; discriminate.
  - repeat split; discriminate.
  - vm_compute. reflexivity.
  - vm_compute. reflexivity.
Defined.

(** A journal that stopped between the renames. *)
Definition sample_hex (l : list ascii) : string := digest_of (CR := toy_crypto) l.
Definition sample_journal : ReplacementResult :=
  MkResult 1 "act-1" "1.2.0" "replacing" "" sample_bin sample_stg sample_bak (sample_hex sample_old) (sample_hex sample_new) 1.
Definition interrupted_disk : files :=
  {[sample_bak := sample_old; sample_stg := sample_new; "/var/status.json" := put_result sample_journal]}.

Lemma recovery_removes_nothing_needed_witness :
  let '(w, _) := sendPendingNodeUpdate (CR := toy_crypto) (UN := ascii_unicode) (TN := fresh_temp) (RJ := field_json)
                   (PR := quiet_processes) "1.2.0" false "/var/status.json" (MkWorld interrupted_disk [] [] []) in
  let '(w', _) := recoverPendingReplacement (CR := toy_crypto) (UN := ascii_unicode) (TN := fresh_temp) (RJ := field_json)
                   (PR := quiet_processes) "1.2.0" "/var/status.json" (Ok "https://127.0.0.1/readyz")
                   (MkWorld interrupted_disk [] [] []) in
  let ok := recoverable (CR := toy_crypto) (UN := ascii_unicode) sample_bin sample_stg sample_bak sample_journal interrupted_disk in
  Forall ok (history w) /\ ok (disk w) /\ Forall ok (history w') /\ ok (disk w').
Proof.
  apply (recovery_removes_nothing_needed (CR := toy_crypto) (UN := ascii_unicode) (TN := fresh_temp) (RJ := field_json)
           (PR := quiet_processes) sample_bin sample_stg sample_bak).
  1-2: discriminate.
  - apply fresh_temp_other.
  - apply quiet_probe.
  - reflexivity.
  - reflexivity.
  - reflexivity.
  - repeat split; discriminate.
  - vm_compute. reflexivity.
  - vm_compute. reflexivity.
  - vm_compute. reflexivity.
Defined.

Lemma crash_points_classified_witness :
  exists d1 d2,
    replaceExecutable sample_bin sample_stg sample_bak (MkWorld sample_disk [] [] []) = (MkWorld d2 [] [d1; d2] [], Ok tt) /\
    (forall d s, (d, s) ∈ [(sample_disk, ReplacementDiskStateOriginalIntact); (d1, ReplacementDiskStatePartial);
                           (d2, ReplacementDiskStateTargetInstalled)] ->
       snd (ClassifyReplacementFiles (CR := toy_crypto) (UN := ascii_unicode) sample_journal (MkWorld d [] [] [])) = Ok s).
Proof.
  destruct (crash_points_classified (CR := toy_crypto) (UN := ascii_unicode) sample_bin sample_stg sample_bak sample_old sample_new
              sample_disk sample_journal [] []) as (d1 & d2 & H1 & H2 & H3 & H4);
    [discriminate..|vm_compute; reflexivity|vm_compute; reflexivity|vm_compute; reflexivity|reflexivity|reflexivity|reflexivity
    |vm_compute; reflexivity|vm_compute; reflexivity|vm_compute; reflexivity|vm_compute; reflexivity|vm_compute; discriminate
    |vm_compute; reflexivity|vm_compute; reflexivity|vm_compute; reflexivity|].
  exists d1, d2. split; [exact H1|]. intros d s Hd.
  repeat (apply elem_of_cons in Hd as [[= -> ->]|Hd]; [assumption|]). by apply elem_of_nil in Hd.
Defined.

(** Restoring without a backup deletes the live executable first and leaves none. *)
Example restore_without_backup :
  let '(w, r) := restoreExecutable sample_bin sample_bak (MkWorld {[sample_bin := sample_new]} [] [] []) in
  is_Ok r = false /\ disk w = ∅.
Proof. vm_compute. done. Qed.
