(* ===== verification/Reconnect.v ===== *)
(** * Reconnection of an Agent (src/internal/node/reconnect_state.go and
    [runAgentAssignment] of data_runtime_agent.go)

    The phases of one assignment's connection, the exponential backoff, and the loop
    that drives them.  A round of the loop is described by what its calls return;
    the loop's visible actions are its trace. *)
From S2P Require Import Prelude GoStd.

Definition time_Second : Z := 1000000000.
Definition maxAgentReconnectBackoff : Z := 30 * time_Second.

Inductive agentReconnectPhase :=
| agentReconnectDisconnected | agentReconnectDialing | agentReconnectHandshaking
| agentReconnectAdmitting | agentReconnectServing | agentReconnectBackoff.

#[global] Instance phase_eq_dec : EqDecision agentReconnectPhase.
Proof. solve_decision. Defined.

Definition phase_String (p : agentReconnectPhase) : string :=
  match p with
  | agentReconnectDisconnected => "disconnected"
  | agentReconnectDialing => "dialing"
  | agentReconnectHandshaking => "handshaking"
  | agentReconnectAdmitting => "admitting"
  | agentReconnectServing => "serving"
  | agentReconnectBackoff => "backoff"
  end.

(** An event is a byte; the last constructor stands for the values without a name. *)
Inductive agentReconnectEvent :=
| agentReconnectStartDial | agentReconnectDialFailed | agentReconnectConnected | agentReconnectHandshakeFailed
| agentReconnectStartAdmission | agentReconnectAdmissionRejected | agentReconnectAdmitted
| agentReconnectServingEnded | agentReconnectCanceled | agentReconnectUnnamed (code : Z).

#[global] Instance event_eq_dec : EqDecision agentReconnectEvent.
Proof. solve_decision. Defined.

Definition event_String (e : agentReconnectEvent) : string :=
  match e with
  | agentReconnectStartDial => "start-dial"
  | agentReconnectDialFailed => "dial-failed"
  | agentReconnectConnected => "connected"
  | agentReconnectHandshakeFailed => "handshake-failed"
  | agentReconnectStartAdmission => "admitting"
  | agentReconnectAdmissionRejected => "admission-rejected"
  | agentReconnectAdmitted => "admitted"
  | agentReconnectServingEnded => "serving-ended"
  | agentReconnectCanceled => "canceled"
  | agentReconnectUnnamed _ => "unknown"
  end.

Record agentReconnectState := MkReconnect { phase : agentReconnectPhase; backoff : Z }.

Definition newAgentReconnectState : agentReconnectState := MkReconnect agentReconnectDisconnected time_Second.

Definition invalid (s : agentReconnectState) (event : agentReconnectEvent) : error :=
  EFmt "cannot apply reconnect event %s in phase %s" [AStr (event_String event); AStr (phase_String (phase s))].

(** The new state; an error leaves the state as it is. *)
Definition transition (s : option agentReconnectState) (event : agentReconnectEvent) : result agentReconnectState :=
  match s with
  | None => Err (ENew "reconnect state is nil")
  | Some s =>
      let go (from : list agentReconnectPhase) (to : agentReconnectPhase) :=
        if bool_decide (phase s ∈ from) then Ok (MkReconnect to (backoff s)) else Err (invalid s event) in
      match event with
      | agentReconnectStartDial => go [agentReconnectDisconnected; agentReconnectBackoff] agentReconnectDialing
      | agentReconnectDialFailed => go [agentReconnectDialing] agentReconnectBackoff
      | agentReconnectConnected => go [agentReconnectDialing] agentReconnectHandshaking
      | agentReconnectHandshakeFailed => go [agentReconnectHandshaking] agentReconnectBackoff
      | agentReconnectStartAdmission => go [agentReconnectHandshaking] agentReconnectAdmitting
      | agentReconnectAdmissionRejected => go [agentReconnectAdmitting] agentReconnectBackoff
      | agentReconnectAdmitted =>
          if bool_decide (phase s = agentReconnectAdmitting) then Ok (MkReconnect agentReconnectServing time_Second)
          else Err (invalid s event)
      | agentReconnectServingEnded => go [agentReconnectServing] agentReconnectBackoff
      | agentReconnectCanceled => Ok (MkReconnect agentReconnectDisconnected (backoff s))
      | agentReconnectUnnamed _ => Err (invalid s event)
      end
  end.

(** The delay before the next attempt, and the state with the following one. *)
Definition nextWait (s : option agentReconnectState) : Z * option agentReconnectState :=
  match s with
  | None => (time_Second, None)
  | Some v =>
      if backoff v <=? 0 then (time_Second, s) else
      let next := if backoff v <? maxAgentReconnectBackoff then
                    let doubled := backoff v * 2 in
                    if doubled >? maxAgentReconnectBackoff then maxAgentReconnectBackoff else doubled
                  else backoff v in
      (backoff v, Some (MkReconnect (phase v) next))
  end.

(** ** The loop *)
(** What the calls of one round return; [tracked] when [openRuntime] returns a
    handle and not nil. *)
Inductive attempt := DialFails | SessionFails | AdmissionFails | Serves (tracked : bool).

Record round := MkRound { done_before : bool; outcome_of : attempt; done_in_wait : bool }.

(** What the loop takes and gives back: the QUIC connection and its socket, the AFDP
    session, the engine's session count, the telemetry entry, the entry in the
    generation's table of agent sessions. *)
Inductive resource := QuicConnection | PacketConn | AfdpSession | SessionCount | RuntimeEntry | SessionEntry.
#[global] Instance resource_eq_dec : EqDecision resource.
Proof. solve_decision. Defined.

Inductive action :=
| Moved (event : agentReconnectEvent)   (* an accepted transition *)
| Refused (event : agentReconnectEvent) (* an invalid one: the loop logs it and ends *)
| Acquired (r : resource) | Released (r : resource)
| Served                                (* [serveAgentSession] ran and returned *)
| Waited (delay : Z).

(** Events in order until one is refused; the rest of the round goes on from there. *)
Definition move (s : agentReconnectState) (event : agentReconnectEvent)
    (k : agentReconnectState -> list action * option agentReconnectState) : list action * option agentReconnectState :=
  match transition (Some s) event with
  | Err _ => ([Refused event], None)
  | Ok s' => let '(trace, r) := k s' in (Moved event :: trace, r)
  end.

Definition acts (l : list action) (r : list action * option agentReconnectState) : list action * option agentReconnectState :=
  (l ++ fst r, snd r).

Definition then_close (l : list action) (r : list action * option agentReconnectState) : list action * option agentReconnectState :=
  match r with (trace, Some s) => (trace ++ l, Some s) | (trace, None) => (trace, None) end.

(** An admitted session, up to the end of its service. *)
Definition serve_session (s : agentReconnectState) (tracked : bool) : list action * option agentReconnectState :=
  move s agentReconnectAdmitted (fun s =>
    let entry (a : action) := if tracked then [a] else [] in
    acts (entry (Acquired RuntimeEntry) ++ [Acquired SessionEntry; Served; Released SessionEntry] ++
          entry (Released RuntimeEntry) ++ [Released SessionCount; Released AfdpSession])
      (move s agentReconnectServingEnded (fun s => ([], Some s)))).

(** The connection after a successful dial. *)
Definition use_connection (s : agentReconnectState) (o : attempt) : list action * option agentReconnectState :=
  match o with
  | DialFails | SessionFails =>
      move s agentReconnectHandshakeFailed (fun s => ([Released QuicConnection], Some s))
  | _ =>
      acts [Acquired AfdpSession] (move s agentReconnectStartAdmission (fun s =>
        match o with
        | Serves tracked => acts [Acquired SessionCount] (serve_session s tracked)
        | _ => move s agentReconnectAdmissionRejected (fun s => ([Released AfdpSession; Released QuicConnection], Some s))
        end))
  end.

(** One attempt up to its wait; [None] when the loop ended. *)
Definition attempt_once (s : agentReconnectState) (o : attempt) : list action * option agentReconnectState :=
  move s agentReconnectStartDial (fun s =>
    match o with
    | DialFails => move s agentReconnectDialFailed (fun s => ([], Some s))
    | _ =>
        acts [Acquired QuicConnection; Acquired PacketConn]
          (move s agentReconnectConnected (fun s =>
            then_close [Released QuicConnection; Released PacketConn] (use_connection s o)))
    end).

Fixpoint runAgentAssignment (s : agentReconnectState) (rounds : list round) : list action :=
  match rounds with
  | [] => []
  | r :: rounds =>
      if done_before r then [] else
      let '(trace, s') := attempt_once s (outcome_of r) in
      match s' with
      | None => trace
      | Some s =>
          let '(wait, s) := nextWait (Some s) in
          trace ++ Waited wait ::
            (if done_in_wait r then [Moved agentReconnectCanceled]
             else match s with Some s => runAgentAssignment s rounds | None => [] end)
      end
  end.

Definition agent_loop (rounds : list round) : list action := runAgentAssignment newAgentReconnectState rounds.

(** ** Any order of events *)
(** States reached by accepted events and waits; the events are listed backwards. *)
Inductive reached : list agentReconnectEvent -> agentReconnectState -> Prop :=
| reached_new : reached [] newAgentReconnectState
| reached_event h s e s' : reached h s -> transition (Some s) e = Ok s' -> reached (e :: h) s'
| reached_wait h s s' : reached h s -> snd (nextWait (Some s)) = Some s' -> reached h s'.

(** The events that lead to a phase, backwards. *)
Definition path_to (p : agentReconnectPhase) : list agentReconnectEvent :=
  match p with
  | agentReconnectDialing => [agentReconnectStartDial]
  | agentReconnectHandshaking => [agentReconnectConnected; agentReconnectStartDial]
  | agentReconnectAdmitting => [agentReconnectStartAdmission; agentReconnectConnected; agentReconnectStartDial]
  | agentReconnectServing => [agentReconnectAdmitted; agentReconnectStartAdmission; agentReconnectConnected; agentReconnectStartDial]
  | _ => []
  end.

Definition backoff_ok (s : agentReconnectState) : Prop := time_Second <= backoff s <= maxAgentReconnectBackoff.

Lemma transition_inv s e s' :
  transition (Some s) e = Ok s' ->
  (backoff s' = backoff s \/ backoff s' = time_Second) /\
  forall h, path_to (phase s) `prefix_of` h -> path_to (phase s') `prefix_of` (e :: h).
Proof.
  unfold transition. destruct e; cbn; try discriminate; try case_bool_decide as Hp; try discriminate; intros [= <-]; cbn.
  all: (split; [by auto|]); intros h Hh.
  all: try apply prefix_nil.
  all: try apply prefix_cons; try apply prefix_nil.
  all: repeat (apply elem_of_cons in Hp as [Hp|Hp]); try (by apply elem_of_nil in Hp); rewrite Hp in Hh; exact Hh.
Qed.

Lemma nextWait_ok s : backoff_ok s ->
  time_Second <= fst (nextWait (Some s)) <= maxAgentReconnectBackoff /\
  exists s', snd (nextWait (Some s)) = Some s' /\ backoff_ok s' /\ phase s' = phase s /\
             backoff s' = Z.min (2 * backoff s) maxAgentReconnectBackoff /\ fst (nextWait (Some s)) = backoff s.
Proof.
  unfold backoff_ok, nextWait, maxAgentReconnectBackoff, time_Second. intros Hb.
  destruct (Z.leb_spec (backoff s) 0); [lia|]. cbn [fst snd]. split; [lia|]. eexists. split; [done|]. cbn [phase backoff].
  destruct (Z.ltb_spec (backoff s) (30 * 1000000000)).
  - rewrite Z.gtb_ltb. destruct (Z.ltb_spec (30 * 1000000000) (backoff s * 2)); split_and!; try lia; done.
  - split_and!; try lia; done.
Qed.

Lemma reached_inv h s : reached h s -> backoff_ok s /\ path_to (phase s) `prefix_of` h.
Proof.
  induction 1 as [|h s e s' _ [Hb Hp] Ht|h s s' _ [Hb Hp] Hw].
  - split; [split; vm_compute; discriminate|]. apply prefix_nil.
  - apply transition_inv in Ht as [Hback Hpath]. split; [|by apply Hpath].
    unfold backoff_ok in *. destruct Hback as [-> | ->]; [done|]. split; vm_compute; discriminate.
  - destruct (nextWait_ok s Hb) as [_ (s1 & H1 & H2 & H3 & _)]. assert (s' = s1) as -> by congruence. by rewrite H3.
Qed.

(** In any sequence of accepted events and waits, the backoff stays between one
    and thirty seconds, a connection serves only right after dialling, connecting,
    the start of admission and admission, in this order, and every phase before it
    has the beginning of that path. *)
Theorem serving_needs_admission h s :
  reached h s ->
  time_Second <= backoff s <= maxAgentReconnectBackoff /\ path_to (phase s) `prefix_of` h /\
  (phase s = agentReconnectServing ->
   exists h', h = agentReconnectAdmitted :: agentReconnectStartAdmission :: agentReconnectConnected :: agentReconnectStartDial :: h').
Proof.
  intros [Hb Hp]%reached_inv. split_and!; [apply Hb..|done|]. intros Hs. rewrite Hs in Hp.
  destruct Hp as [h' ->]. by exists h'.
Qed.

(** ** The loop *)
Definition waits (trace : list action) : list Z :=
  omap (fun a => match a with Waited d => Some d | _ => None end) trace.

(** Nothing refused, no resource taken twice, none held while waiting or at the end. *)
Fixpoint tidy (held : list resource) (trace : list action) : bool :=
  match trace with
  | [] => bool_decide (held = [])
  | Acquired r :: trace => bool_decide (r ∉ held) && tidy (r :: held) trace
  | Released r :: trace => tidy (filter (fun x => x <> r) held) trace
  | Waited _ :: trace => bool_decide (held = []) && tidy held trace
  | Refused _ :: _ => false
  | (Moved _ | Served) :: trace => tidy held trace
  end.

Lemma tidy_app t2 t1 : forall held, tidy held t1 = true -> tidy [] t2 = true -> tidy held (t1 ++ t2) = true.
Proof.
  induction t1 as [|a t1 IH]; intros held H1 H2.
  - cbn in H1. apply bool_decide_eq_true in H1 as ->. exact H2.
  - destruct a; cbn in *; try discriminate; try (by apply IH); apply andb_true_iff in H1 as [-> H1]; by apply IH.
Qed.

(** The delays that the policy asks for: [k] failures in a row came before. *)
Fixpoint policy (k : nat) (rounds : list round) : list Z :=
  match rounds with
  | [] => []
  | r :: rounds =>
      if done_before r then [] else
      let k := match outcome_of r with Serves _ => O | _ => k end in
      Z.min (2 ^ Z.of_nat k * time_Second) maxAgentReconnectBackoff ::
        (if done_in_wait r then [] else policy (S k) rounds)
  end.

Lemma attempt_once_spec s o :
  phase s = agentReconnectDisconnected \/ phase s = agentReconnectBackoff ->
  exists trace s', attempt_once s o = (trace, Some s') /\ phase s' = agentReconnectBackoff /\
    backoff s' = match o with Serves _ => time_Second | _ => backoff s end /\
    waits trace = [] /\ tidy [] trace = true.
Proof.
  destruct s as [p b]; cbn. intros [-> | ->]; destruct o as [| | |[]]; eexists _, _;
    (split; [vm_compute; reflexivity|]); split_and!; reflexivity.
Qed.

Lemma agent_loop_spec rounds : forall k s,
  phase s = agentReconnectDisconnected \/ phase s = agentReconnectBackoff ->
  backoff s = Z.min (2 ^ Z.of_nat k * time_Second) maxAgentReconnectBackoff ->
  let trace := runAgentAssignment s rounds in
  waits trace = policy k rounds /\ tidy [] trace = true.
Proof.
  induction rounds as [|r rounds IH]; intros k s Hp Hb; cbn zeta; [done|].
  cbn [runAgentAssignment policy]. destruct (done_before r); [done|].
  destruct (attempt_once_spec s (outcome_of r) Hp) as (trace & s1 & -> & Hp1 & Hb1 & Hqw & Hc).
  set (k' := match outcome_of r with Serves _ => O | _ => k end).
  assert (Hb1' : backoff s1 = Z.min (2 ^ Z.of_nat k' * time_Second) maxAgentReconnectBackoff).
  { rewrite Hb1. unfold k'. by destruct (outcome_of r). }
  assert (Hpow : 1 <= 2 ^ Z.of_nat k') by (pose proof (Z.pow_pos_nonneg 2 (Z.of_nat k')); lia).
  destruct (nextWait_ok s1) as [_ (s2 & H1 & _ & H3 & H4 & H5)].
  { unfold backoff_ok, maxAgentReconnectBackoff, time_Second in *. lia. }
  destruct (nextWait (Some s1)) as [wait s3]. cbn [fst snd] in *. subst s3 wait.
  assert (Hnext : backoff s2 = Z.min (2 ^ Z.of_nat (S k') * time_Second) maxAgentReconnectBackoff).
  { rewrite H4, Hb1', Nat2Z.inj_succ, Z.pow_succ_r by lia. unfold maxAgentReconnectBackoff, time_Second. lia. }
  destruct (IH (S k') s2 ltac:(right; congruence) Hnext) as [I1 I2]. split.
  - unfold waits in *. rewrite omap_app, Hqw. cbn. rewrite Hb1'. f_equal. by destruct (done_in_wait r).
  - apply tidy_app; [done|]. cbn. by destruct (done_in_wait r).
Qed.

(** C37: whatever the attempts bring and whenever the context ends, the loop never
    makes an invalid transition (which would end it for good); every connection,
    socket, session, session count, telemetry entry and table entry it takes is given
    back before the next wait and before the loop ends, and none is taken twice; and
    it waits as the policy says: one second after a session or at first, doubling
    with every failure up to thirty seconds. *)
Theorem agent_loop_correct rounds :
  tidy [] (agent_loop rounds) = true /\ waits (agent_loop rounds) = policy 0 rounds.
Proof. apply and_comm, (agent_loop_spec rounds 0%nat); [by left|reflexivity]. Qed.

Example seven_failures_then_service :
  waits (agent_loop (replicate 7 (MkRound false DialFails false) ++ [MkRound false (Serves true) false; MkRound false SessionFails true])) =
  [1; 2; 4; 8; 16; 30; 30; 1; 2] ≫= (fun n => [n * time_Second]).
Proof. vm_compute. reflexivity. Qed.

Lemma serving_needs_admission_witness :
  exists s, reached [agentReconnectAdmitted; agentReconnectStartAdmission; agentReconnectConnected; agentReconnectStartDial] s /\
    phase s = agentReconnectServing /\ time_Second <= backoff s <= maxAgentReconnectBackoff.
Proof.
  assert (H : reached [agentReconnectAdmitted; agentReconnectStartAdmission; agentReconnectConnected; agentReconnectStartDial]
                (MkReconnect agentReconnectServing time_Second)).
  { apply (reached_event _ (MkReconnect agentReconnectAdmitting time_Second)); [|reflexivity].
    apply (reached_event _ (MkReconnect agentReconnectHandshaking time_Second)); [|reflexivity].
    apply (reached_event _ (MkReconnect agentReconnectDialing time_Second)); [|reflexivity].
    apply (reached_event _ newAgentReconnectState); [apply reached_new|reflexivity]. }
  eexists. split; [exact H|]. split; [reflexivity|]. exact (proj1 (serving_needs_admission _ _ H)).
Defined.
