(* ===== verification/RateLimit.v ===== *)
(** * Rate limits of the Controller (src/internal/controller/ratelimit.go, admission.go)

    The login limiter counts failures per peer address and per user name and blocks a
    key that reached its cap; the admission limiter counts connections per key in
    fixed windows.  Both are maps of bounded size.  A call is given the time its clock
    returned; the mutex makes each call one step. *)
From S2P Require Import Prelude GoStd GoNet.
Import strings netip.

(** ** Login attempts *)
Definition loginFailureLimit : Z := 5.
Definition time_Minute : Z := 60 * 1000000000.
Definition loginWindow : Z := time_Minute.
Definition loginBlock : Z := time_Minute.
Definition loginMaxEntries : Z := 10000.
Definition loginIdleExpiry : Z := 10 * time_Minute.
Definition loginPurgeBatch : nat := 64.

Record loginBucket := MkLoginBucket { failures : Z; windowStart : Z; blockedTill : Z; lastSeen : Z }.

(** The zero value, which an absent key reads as. *)
Definition zero_bucket : loginBucket := MkLoginBucket 0 0 0 0.

Record loginLimiter := MkLoginLimiter {
  entries : gmap string loginBucket;
  maxEntries : Z; failureCap : Z; window : Z; block : Z; idleExpiry : Z
}.

Definition with_entries (l : loginLimiter) (m : gmap string loginBucket) : loginLimiter :=
  MkLoginLimiter m (maxEntries l) (failureCap l) (window l) (block l) (idleExpiry l).

Definition newLoginLimiter : loginLimiter :=
  MkLoginLimiter ∅ loginMaxEntries loginFailureLimit loginWindow loginBlock loginIdleExpiry.

Definition uniqueKeys (keys : list string) : list string :=
  (foldl (fun '(seen, result) key =>
    if String.eqb key "" then (seen, result) else
    if bool_decide (key ∈ seen) then (seen, result) else ({[key]} ∪ seen, result ++ [key]))
    (∅ : gset string, []) keys).2.

(** [!bucket.blockedTill.After(now)]. *)
Definition not_blocked (b : loginBucket) (now : Z) : bool := blockedTill b <=? now.
Definition window_over (l : loginLimiter) (b : loginBucket) (now : Z) : bool :=
  negb (is_zero_time (windowStart b)) && (time_sub now (windowStart b) >=? window l).

Section Limiter.
Context `{MO : !MapOrder}.

(** One bucket of the purging loop: true when it is deleted. *)
Definition purgeable (l : loginLimiter) (now : Z) (b : loginBucket) : bool :=
  (negb (is_zero_time (lastSeen b)) && (time_sub now (lastSeen b) >=? idleExpiry l))
  || (not_blocked b now && window_over l b now).

Definition purgeSomeLocked (l : loginLimiter) (now : Z) : loginLimiter :=
  with_entries l
    (foldl (fun m '(key, bucket) => if purgeable l now bucket then delete key m else m) (entries l)
      (firstn loginPurgeBatch (range_order (map_to_list (entries l))))).

Definition evictForInsertLocked (l : loginLimiter) : loginLimiter :=
  if (maxEntries l <=? 0) || (Z.of_nat (size (entries l)) <? maxEntries l) then l else
  match range_order (map_to_list (entries l)) with
  | [] => l
  | (key, _) :: _ => with_entries l (delete key (entries l))
  end.

(** One key of [allow]: the limiter and the longest wait so far. *)
Definition allow_key (now : Z) '((l, retry) : loginLimiter * Z) (key : string) : loginLimiter * Z :=
  match entries l !! key with
  | None => (l, retry)
  | Some bucket =>
      if not_blocked bucket now then
        (if window_over l bucket now then with_entries l (delete key (entries l)) else l, retry)
      else
        let wait := time_sub (blockedTill bucket) now in
        (l, if wait >? retry then wait else retry)
  end.

Definition allow (l : option loginLimiter) (now : Z) (keys : list string) : option loginLimiter * (bool * Z) :=
  match l with
  | None => (l, (true, 0))
  | Some l =>
      let l := purgeSomeLocked l now in
      let '(l, retry) := foldl (allow_key now) (l, 0) (uniqueKeys keys) in
      (Some l, (retry =? 0, retry))
  end.

(** The bucket of a key after one more failure. *)
Definition failed_bucket (l : loginLimiter) (now : Z) (bucket : loginBucket) : loginBucket :=
  let bucket := if is_zero_time (windowStart bucket) || (time_sub now (windowStart bucket) >=? window l)
                then MkLoginBucket 0 now 0 0 else bucket in
  let count := failures bucket + 1 in
  MkLoginBucket count (windowStart bucket)
    (if count >=? failureCap l then now + block l else blockedTill bucket) now.

Definition failure_key (now : Z) (l : loginLimiter) (key : string) : loginLimiter :=
  let found := entries l !! key in
  let l := match found with None => evictForInsertLocked l | Some _ => l end in
  with_entries l (<[key := failed_bucket l now (default zero_bucket found)]> (entries l)).

Definition failure (l : option loginLimiter) (now : Z) (keys : list string) : option loginLimiter :=
  match l with
  | None => None
  | Some l => Some (foldl (failure_key now) (purgeSomeLocked l now) (uniqueKeys keys))
  end.

Definition success (l : option loginLimiter) (keys : list string) : option loginLimiter :=
  match l with
  | None => None
  | Some l => Some (foldl (fun l key => with_entries l (delete key (entries l))) l (uniqueKeys keys))
  end.
End Limiter.

(** ** The keys of a request *)
Section Keys.
Context `{UN : !Unicode}.

Definition directPeerAddress (remote : string) : string :=
  let remote := TrimSpace remote in
  if String.eqb remote "" then "" else
  match net.SplitHostPort remote with
  | Ok (host, _) => host
  | Err _ =>
      match net.ParseIP remote with
      | Some parsed => addr_string parsed
      | None => if (slen remote >? 256) || ContainsAny remote ["013"; "010"]%char then "" else remote
      end
  end.

(** The request is given by its RemoteAddr; [None] is a nil request. *)
Definition loginKeys (r : option string) (username : string) : list string :=
  let keys := match r with
              | None => []
              | Some remote => let address := directPeerAddress remote in
                               if String.eqb address "" then [] else ["ip:" +:+ address]
              end in
  let normalized := to_lower (TrimSpace username) in
  if String.eqb normalized "" then keys else keys ++ ["user:" +:+ normalized].
End Keys.

(** ** Admission of connections *)
Module Admission.
Record admissionBucket := MkBucket { windowStart : Z; count : Z; lastSeen : Z }.
Definition zero_bucket : admissionBucket := MkBucket 0 0 0.

Record admissionLimiter := MkLimiter { entries : gmap string admissionBucket; limit : Z; window : Z; maxEntries : Z }.

Definition newAdmissionLimiter (limit window maxEntries : Z) : admissionLimiter := MkLimiter ∅ limit window maxEntries.

Section Allow.
Context `{MO : !MapOrder}.

(** Room for one more key. *)
Definition make_room (l : admissionLimiter) (now : Z) : gmap string admissionBucket :=
  let m := entries l in
  if negb (Z.of_nat (size m) >=? maxEntries l) then m else
  let m := foldl (fun m '(key, b) => if time_sub now (lastSeen b) >=? window l then delete key m else m)
             m (range_order (map_to_list m)) in
  if negb (Z.of_nat (size m) >=? maxEntries l) then m else
  match range_order (map_to_list m) with [] => m | (key, _) :: _ => delete key m end.

Definition second : Z := 1000000000.

Definition allow (l : option admissionLimiter) (now : Z) (key : string) : option admissionLimiter * (bool * Z) :=
  match l with
  | None => (l, (true, 0))
  | Some v =>
      if (limit v <=? 0) || (window v <=? 0) then (l, (true, 0)) else
      let key := if String.eqb (TrimSpace key) "" then "unknown" else key in
      let m := make_room v now in
      let set b := Some (MkLimiter (<[key := b]> m) (limit v) (window v) (maxEntries v)) in
      let bucket := default zero_bucket (m !! key) in
      let bucket := if is_zero_time (windowStart bucket) || (time_sub now (windowStart bucket) >=? window v)
                    then MkBucket now 0 0 else bucket in
      if count bucket >=? limit v then
        let retry := window v - time_sub now (windowStart bucket) in
        (set (MkBucket (windowStart bucket) (count bucket) now), (false, if retry <? second then second else retry))
      else (set (MkBucket (windowStart bucket) (count bucket + 1) now), (true, 0))
  end.
End Allow.

(** [None]: no context, no peer in it, or a peer without address. *)
Definition peerAddressKey (address : option string) : string :=
  match address with
  | None => "unknown"
  | Some address => match net.SplitHostPort address with Ok (host, _) => host | Err _ => address end
  end.
End Admission.
