(* ===== verification/RateLimitFacts.v ===== *)
(** * What the rate limiters guarantee

    The bounded, purging login limiter answers like one that keeps every bucket for
    ever; its size stays bounded; while there is room for the keys, a guesser gets a
    bounded number of attempts, however his logins overlap (the check, the password and
    the recorded failure of api_auth.go are separate steps). *)
From S2P Require Import Prelude GoStd GoNet Samples RateLimit.

(** ** Loops that delete entries of the map they visit *)
Section Purging.
Context {B : Type} (p : B -> bool).

Definition delete_if (m : gmap string B) : string * B -> gmap string B :=
  fun '(key, b) => if p b then delete key m else m.

Lemma delete_if_lookup (M : gmap string B) k L : forall m,
  (forall key b, (key, b) ∈ L -> M !! key = Some b) ->
  let m' := foldl delete_if m L in
  m' !! k = m !! k \/ m' !! k = None /\ exists b, M !! k = Some b /\ p b = true.
Proof.
  induction L as [|[key b] L IH]; intros m HL; cbn zeta; [by left|]. cbn [foldl].
  destruct (IH (delete_if m (key, b))) as [H|H]; [intros ? ? ?; apply HL; by right| |by right].
  rewrite H. unfold delete_if. destruct (p b) eqn:Ep; [|by left]. destruct (decide (key = k)) as [->|Hne].
  - right. rewrite lookup_delete_eq. split; [done|]. exists b. split; [|done]. apply HL. by left.
  - left. by rewrite lookup_delete_ne.
Qed.

Lemma delete_if_subseteq L : forall m, foldl delete_if m L ⊆ m.
Proof.
  induction L as [|[key b] L IH]; intros m; [done|]. cbn [foldl]. etrans; [apply IH|].
  unfold delete_if. destruct (p b); [apply delete_subseteq|done].
Qed.
End Purging.

Lemma range_order_elem `{MO : !MapOrder} {B} (m : gmap string B) k b : (k, b) ∈ range_order (map_to_list m) -> m !! k = Some b.
Proof. rewrite range_order_perm. apply elem_of_map_to_list. Qed.

Lemma range_order_head `{MO : !MapOrder} {B} (m : gmap string B) :
  match range_order (map_to_list m) with [] => m = ∅ | (k, b) :: _ => m !! k = Some b end.
Proof.
  destruct (range_order _) as [|[k b] L] eqn:E.
  - apply map_to_list_empty_iff. apply Permutation_nil. by rewrite <- (range_order_perm (map_to_list m)), E.
  - apply range_order_elem. rewrite E. by left.
Qed.

Lemma foldl_inv {A S} (I : S -> Prop) (f : S -> A -> S) l : (forall s x, x ∈ l -> I s -> I (f s x)) -> forall s, I s -> I (foldl f s l).
Proof.
  induction l as [|x l IH]; intros Hf s HI; [done|]. cbn. apply IH; [intros ? ? ?; apply Hf; by right|]. apply Hf; [by left|done].
Qed.

(** ** The keys of a call *)
Lemma uniqueKeys_spec keys k : k ∈ uniqueKeys keys <-> k ∈ keys /\ k <> "".
Proof.
  unfold uniqueKeys.
  enough (forall seen result, (forall x, x ∈ (seen : gset string) <-> x ∈ result) ->
    k ∈ (foldl (fun '(seen, result) key => if String.eqb key "" then (seen, result) else
       if bool_decide (key ∈ seen) then (seen, result) else ({[key]} ∪ seen, result ++ [key])) (seen, result) keys).2 <->
    k ∈ result \/ k ∈ keys /\ k <> "") as H.
  { rewrite H; [|set_solver]. set_solver. }
  induction keys as [|key keys IH]; intros seen result Hs; cbn [foldl]; [set_solver|].
  destruct (String.eqb_spec key "") as [->|Hne]; [rewrite IH by done; set_solver|].
  case_bool_decide; (rewrite IH; [|set_solver]); set_solver.
Qed.

(** ** Calls in sequence *)
Inductive op := OAllow (now : Z) (keys : list string) | OFailure (now : Z) (keys : list string) | OSuccess (keys : list string).

Definition op_keys (o : op) : list string :=
  match o with OAllow _ keys | OFailure _ keys | OSuccess keys => uniqueKeys keys end.
Definition op_time (o : op) : option Z := match o with OAllow now _ | OFailure now _ => Some now | OSuccess _ => None end.

Section Facts.
Context `{MO : !MapOrder}.

Definition run_op (l : loginLimiter) (o : op) : loginLimiter * option (bool * Z) :=
  match o with
  | OAllow now keys => let '(l', r) := allow (Some l) now keys in (default l l', Some r)
  | OFailure now keys => (default l (failure (Some l) now keys), None)
  | OSuccess keys => (default l (success (Some l) keys), None)
  end.

Fixpoint answers (l : loginLimiter) (ops : list op) : list (option (bool * Z)) :=
  match ops with [] => [] | o :: ops => let '(l', r) := run_op l o in r :: answers l' ops end.

Definition after (l : loginLimiter) (ops : list op) : loginLimiter := foldl (fun l o => fst (run_op l o)) l ops.

(** ** Size *)
Definition sized (n : Z) (l : loginLimiter) : Prop := 0 < n /\ maxEntries l = n /\ Z.of_nat (size (entries l)) <= n.

Lemma sized_subseteq n l m : sized n l -> m ⊆ entries l -> sized n (with_entries l m).
Proof. intros (H0 & H1 & H) Hm. split_and!; [done..|]. cbn. apply map_subseteq_size in Hm. lia. Qed.

Lemma purge_subseteq l now : entries (purgeSomeLocked l now) ⊆ entries l.
Proof. apply (delete_if_subseteq (purgeable l now)). Qed.

Lemma evict_spec n l : sized n l ->
  entries (evictForInsertLocked l) ⊆ entries l /\ Z.of_nat (size (entries (evictForInsertLocked l))) < n /\
  maxEntries (evictForInsertLocked l) = n.
Proof.
  intros (H0 & H1 & H). unfold evictForInsertLocked. destruct (Z.leb_spec (maxEntries l) 0); [lia|]. cbn [orb].
  destruct (Z.ltb_spec (Z.of_nat (size (entries l))) (maxEntries l)); [split_and!; [done|lia|done]|].
  pose proof (range_order_head (entries l)) as Hh. destruct (range_order _) as [|[k b] L].
  - rewrite Hh in *. rewrite map_size_empty in *. lia.
  - cbn. split_and!; [apply delete_subseteq| |done]. rewrite map_size_delete_Some by (by eexists). lia.
Qed.

Lemma failure_key_sized n now l key : sized n l -> sized n (failure_key now l key).
Proof.
  intros Hs. unfold failure_key. destruct (entries l !! key) as [b|] eqn:E.
  - destruct Hs as (H0 & H1 & H). split_and!; [done..|]. cbn. by rewrite map_size_insert_Some by (by eexists).
  - destruct (evict_spec n l Hs) as (Hsub & Hlt & Hm). split_and!; [apply Hs|done|]. cbn.
    destruct (entries (evictForInsertLocked l) !! key) eqn:E2.
    + by rewrite (lookup_weaken _ _ _ _ E2 Hsub) in E.
    + rewrite map_size_insert_None by done. lia.
Qed.

Lemma allow_key_sized n now lr key : sized n lr.1 -> sized n (allow_key now lr key).1.
Proof.
  destruct lr as [l retry]. cbn [fst]. intros Hs. unfold allow_key. destruct (entries l !! key) as [b|]; [|done].
  destruct (not_blocked b now); [|done]. cbn. destruct (window_over l b now); [|done]. apply sized_subseteq; [done|apply delete_subseteq].
Qed.

Lemma run_op_sized n l o : sized n l -> sized n (fst (run_op l o)).
Proof.
  intros Hs. pose proof (fun now => sized_subseteq n l _ Hs (purge_subseteq l now)) as Hp. destruct o as [now keys|now keys|keys]; cbn [run_op allow failure success default fst].
  - specialize (Hp now). destruct (foldl _ _ _) as [l' r] eqn:E. cbn.
    change l' with (l', r).1. rewrite <- E. apply (foldl_inv (fun s => sized n s.1)); [|exact Hp]. intros; by apply allow_key_sized.
  - apply foldl_inv; [|exact (Hp now)]. intros; by apply failure_key_sized.
  - apply foldl_inv; [|done]. intros s x _ Hx. apply sized_subseteq; [done|apply delete_subseteq].
Qed.

(** Whatever calls are made, and in whatever order the map is iterated, the login
    limiter never holds more than its maximum of buckets. *)
Theorem login_limiter_bounded l ops :
  0 < maxEntries l -> entries l = ∅ ->
  Z.of_nat (size (entries (after l ops))) <= maxEntries l.
Proof.
  intros H0 He. enough (sized (maxEntries l) (after l ops)) by apply H.
  unfold after. apply (foldl_inv (sized (maxEntries l))); [intros; by apply run_op_sized|]. split_and!; [done..|]. rewrite He, map_size_empty. lia.
Qed.

(** ** The limiter that forgets nothing

    The specification: an unbounded map of buckets, read by [allow] and changed only by
    failures and successes. *)
Definition ref_wait (m : gmap string loginBucket) (now retry : Z) (key : string) : Z :=
  match m !! key with
  | Some b => if not_blocked b now then retry else Z.max retry (time_sub (blockedTill b) now)
  | None => retry
  end.

Definition ref_fail (l : loginLimiter) (now : Z) (m : gmap string loginBucket) (key : string) : gmap string loginBucket :=
  <[key := failed_bucket l now (default zero_bucket (m !! key))]> m.

Definition ref_op (l : loginLimiter) (m : gmap string loginBucket) (o : op) : gmap string loginBucket * option (bool * Z) :=
  match o with
  | OAllow now keys => let retry := foldl (ref_wait m now) 0 (uniqueKeys keys) in (m, Some (retry =? 0, retry))
  | OFailure now keys => (foldl (ref_fail l now) m (uniqueKeys keys), None)
  | OSuccess keys => (foldl (fun m key => delete key m) m (uniqueKeys keys), None)
  end.

Fixpoint ref_answers (l : loginLimiter) (m : gmap string loginBucket) (ops : list op) : list (option (bool * Z)) :=
  match ops with [] => [] | o :: ops => let '(m', r) := ref_op l m o in r :: ref_answers l m' ops end.

(** Parameters that make forgetting safe, as [newLoginLimiter] has them. *)
Definition config_ok (l : loginLimiter) : Prop :=
  0 < window l <= idleExpiry l /\ 0 <= block l <= idleExpiry l /\ idleExpiry l <= max_duration /\ 0 < maxEntries l.

Definition same_config (l l' : loginLimiter) : Prop :=
  window l' = window l /\ block l' = block l /\ idleExpiry l' = idleExpiry l /\ maxEntries l' = maxEntries l /\ failureCap l' = failureCap l.

(** A bucket that no later call can tell from an absent one. *)
Definition dead (l : loginLimiter) (now : Z) (b : option loginBucket) : Prop :=
  match b with
  | None => True
  | Some b => blockedTill b <= now /\ 0 < windowStart b /\ window l <= now - windowStart b
  end.

Definition bucket_ok (l : loginLimiter) (now : Z) (b : loginBucket) : Prop :=
  0 < windowStart b <= lastSeen b /\ lastSeen b <= now /\ blockedTill b <= lastSeen b + block l.

Definition agree (l : loginLimiter) (now : Z) (x y : option loginBucket) : Prop :=
  x = y \/ dead l now x /\ dead l now y.

(** The limiter [l] at time [now] stands for the reference [m]; [K] has the keys used. *)
Record sim (l0 : loginLimiter) (K : gset string) (now : Z) (l : loginLimiter) (m : gmap string loginBucket) : Prop := MkSim {
  sim_config : same_config l0 l;
  sim_agree : forall k, agree l0 now (entries l !! k) (m !! k);
  sim_bucket : forall k b, entries l !! k = Some b -> bucket_ok l0 now b;
  sim_keys : forall k b, entries l !! k = Some b -> k ∈ K
}.

Section Sim.
Context (l0 : loginLimiter) (K : gset string) (Hc : config_ok l0) (HK : Z.of_nat (size K) <= maxEntries l0).

Lemma dead_later now now' x : now <= now' -> dead l0 now x -> dead l0 now' x.
Proof. intros ?. destruct x; cbn; [lia|done]. Qed.

Lemma sim_later now now' l m : now <= now' -> sim l0 K now l m -> sim l0 K now' l m.
Proof.
  intros Hle [H1 H2 H3 H4]. split; [done| | |done].
  - intros k. destruct (H2 k) as [H|[Ha Hb]]; [by left|]. right. split; by eapply dead_later.
  - intros k b Hb. specialize (H3 k b Hb). unfold bucket_ok in *. lia.
Qed.

Lemma window_over_spec l b now : same_config l0 l -> 0 < windowStart b ->
  window_over l b now = true <-> window l0 <= now - windowStart b.
Proof.
  unfold window_over, is_zero_time. intros (-> & _) Hw. destruct (Z.eqb_spec (windowStart b) 0); [lia|].
  destruct Hc as (? & ? & Hd & ?). cbn [negb andb]. rewrite Z.geb_leb, Z.leb_le. apply time_sub_ge; unfold min_duration; lia.
Qed.

(** Deleting dead buckets keeps the simulation. *)
Lemma sim_forget now l m M :
  sim l0 K now l m -> (forall k, M !! k = entries l !! k \/ M !! k = None /\ dead l0 now (entries l !! k)) ->
  sim l0 K now (with_entries l M) m.
Proof.
  intros [H1 H2 H3 H4] HM. split; cbn [entries with_entries]; [done| | |].
  - intros k. destruct (HM k) as [-> | [-> Hd]]; [done|]. destruct (H2 k) as [He|[_ Hb]]; right; [rewrite <- He|]; done.
  - intros k b Hb. destruct (HM k) as [He | [He _]]; rewrite He in Hb; [eauto|done].
  - intros k b Hb. destruct (HM k) as [He | [He _]]; rewrite He in Hb; [eauto|done].
Qed.

Lemma purgeable_dead now l b : same_config l0 l -> bucket_ok l0 now b -> purgeable l now b = true -> dead l0 now (Some b).
Proof.
  intros Hl (Hw & Hs & Hb). pose proof Hc as (? & ? & Hd & ?). destruct Hl as (Hl1 & Hl2 & Hl3 & Hl4 & Hl5).
  unfold purgeable. rewrite orb_true_iff, !andb_true_iff. intros [[_ Hi]|[Hi1 Hi2]]; cbn.
  - rewrite Hl3, Z.geb_leb, Z.leb_le in Hi. apply time_sub_ge in Hi; unfold min_duration; lia.
  - unfold not_blocked in Hi1. apply Z.leb_le in Hi1. apply window_over_spec in Hi2; [lia|done|lia].
Qed.

Lemma sim_purge now l m : sim l0 K now l m -> sim l0 K now (purgeSomeLocked l now) m.
Proof.
  intros Hsim. apply sim_forget; [done|]. intros k.
  destruct (delete_if_lookup (purgeable l now) (entries l) k
    (firstn loginPurgeBatch (range_order (map_to_list (entries l)))) (entries l)) as [H|(H & b & Hb & Hp)].
  - intros key b Hin. apply range_order_elem. by eapply elem_of_take in Hin as (i & Hi & _); eapply list_elem_of_lookup_2.
  - by left.
  - right. split; [exact H|]. rewrite Hb. apply (purgeable_dead now l); [apply Hsim| |done]. by eapply (sim_bucket _ _ _ _ _ Hsim).
Qed.

Lemma foldl_pair {A S T} (R : S -> T -> Prop) (f : S -> A -> S) (g : T -> A -> T) xs :
  (forall s t x, x ∈ xs -> R s t -> R (f s x) (g t x)) -> forall s t, R s t -> R (foldl f s xs) (foldl g t xs).
Proof.
  induction xs as [|x xs IH]; intros Hf s t H; [done|]. cbn. apply IH; [intros ? ? ? ?; apply Hf; by right|].
  apply Hf; [by left|done].
Qed.

Lemma sim_allow_key now m l retry key :
  sim l0 K now l m -> let lr := allow_key now (l, retry) key in sim l0 K now lr.1 m /\ lr.2 = ref_wait m now retry key.
Proof.
  intros Hsim. pose proof (sim_agree _ _ _ _ _ Hsim key) as Ha. unfold allow_key, ref_wait. cbn zeta.
  destruct (entries l !! key) as [b|] eqn:E.
  - pose proof (sim_bucket _ _ _ _ _ Hsim key b E) as (Hw & Hs & _).
    destruct (not_blocked b now) eqn:Eb; cbn [fst snd].
    + split.
      * destruct (window_over l b now) eqn:Ew; [|done]. apply sim_forget; [done|]. intros k.
        destruct (decide (key = k)) as [<-|Hne]; [|left; by rewrite lookup_delete_ne].
        right. rewrite lookup_delete_eq, E. split; [done|]. cbn. unfold not_blocked in Eb. apply Z.leb_le in Eb.
        apply window_over_spec in Ew; [lia|apply Hsim|lia].
      * destruct Ha as [<- | [_ Hd]]; [by rewrite Eb|]. destruct (m !! key) as [c|]; [|done]. destruct Hd as [Hd _].
        unfold not_blocked. by destruct (Z.leb_spec (blockedTill c) now); [|lia].
    + split; [done|]. destruct Ha as [<- | [Hd _]].
      * rewrite Eb. destruct (Z.gtb_spec (time_sub (blockedTill b) now) retry); lia.
      * destruct Hd as [Hd _]. unfold not_blocked in Eb. apply Z.leb_gt in Eb. lia.
  - split; [done|]. cbn. destruct Ha as [<- | [_ Hd]]; [done|]. destruct (m !! key) as [c|]; [|done]. destruct Hd as [Hd _].
    unfold not_blocked. by destruct (Z.leb_spec (blockedTill c) now); [|lia].
Qed.

Lemma sim_allow now l m keys :
  sim l0 K now l m ->
  sim l0 K now (fst (run_op l (OAllow now keys))) (fst (ref_op l0 m (OAllow now keys))) /\
  snd (run_op l (OAllow now keys)) = snd (ref_op l0 m (OAllow now keys)).
Proof.
  intros Hsim. cbn [run_op ref_op allow fst snd].
  pose proof (foldl_pair (fun lr r => sim l0 K now lr.1 m /\ lr.2 = r) (allow_key now) (ref_wait m now) (uniqueKeys keys)) as Hf.
  destruct (Hf) with (s := (purgeSomeLocked l now, 0)) (t := 0) as [H1 H2].
  - intros [l1 r1] r x _ [Hs <-]. by apply sim_allow_key.
  - split; [|done]. by apply sim_purge.
  - destruct (foldl (allow_key now) _ _) as [l1 r1]. cbn in *. by rewrite H2.
Qed.

(** ** Failures *)
Lemma failed_bucket_dead l now b :
  same_config l0 l -> dead l0 now (Some b) -> failed_bucket l now b = failed_bucket l now zero_bucket.
Proof.
  intros (Hl & _) (_ & Hw & Ho). pose proof Hc as (? & ? & ? & ?). unfold failed_bucket.
  assert (time_sub now (windowStart b) >=? window l = true) as ->.
  { rewrite Hl, Z.geb_leb, Z.leb_le. apply time_sub_ge; unfold min_duration; lia. }
  by rewrite orb_true_r.
Qed.

Lemma failed_bucket_config l now b : same_config l0 l -> failed_bucket l now b = failed_bucket l0 now b.
Proof. intros (H1 & H2 & H3 & H4 & H5). unfold failed_bucket. by rewrite H1, H2, H5. Qed.

Lemma failed_bucket_ok now b : 0 < now -> b = zero_bucket \/ bucket_ok l0 now b -> bucket_ok l0 now (failed_bucket l0 now b).
Proof.
  intros Hn Hb. pose proof Hc as (? & ? & ? & ?). unfold failed_bucket, bucket_ok in *.
  destruct (is_zero_time (windowStart b) || (time_sub now (windowStart b) >=? window l0)) eqn:E.
  - cbn. destruct (0 + 1 >=? failureCap l0); lia.
  - destruct Hb as [->|Hb]; [done|]. cbn. destruct (failures b + 1 >=? failureCap l0); lia.
Qed.

Lemma sim_room now l m key : sim l0 K now l m -> key ∈ K -> entries l !! key = None -> evictForInsertLocked l = l.
Proof.
  intros Hsim Hk E. assert (Hlt : Z.of_nat (size (entries l)) < maxEntries l).
  { destruct (sim_config _ _ _ _ _ Hsim) as (_ & _ & _ & -> & _). rewrite <- size_dom.
    enough (size (dom (entries l)) < size K)%nat by lia. apply subset_size. split.
    - intros k [b Hb]%elem_of_dom. by eapply (sim_keys _ _ _ _ _ Hsim).
    - intros Hsub. apply Hsub, elem_of_dom in Hk as [b Hb]. congruence. }
  unfold evictForInsertLocked. destruct (Z.ltb_spec (Z.of_nat (size (entries l))) (maxEntries l)); [|lia]. by rewrite orb_true_r.
Qed.

Lemma sim_failure_key now l m key :
  0 < now -> key ∈ K -> sim l0 K now l m -> sim l0 K now (failure_key now l key) (ref_fail l0 now m key).
Proof.
  intros Hn Hk Hsim. unfold failure_key, ref_fail.
  assert ((match entries l !! key with None => evictForInsertLocked l | Some _ => l end) = l) as ->.
  { destruct (entries l !! key) eqn:E; [done|]. by eapply sim_room. }
  rewrite failed_bucket_config by apply Hsim.
  assert (failed_bucket l0 now (default zero_bucket (entries l !! key)) = failed_bucket l0 now (default zero_bucket (m !! key))) as Heq.
  { assert (Hd : forall x, dead l0 now x -> failed_bucket l0 now (default zero_bucket x) = failed_bucket l0 now zero_bucket).
    { intros [b|] Hb; [|done]. by apply failed_bucket_dead. }
    destruct (sim_agree _ _ _ _ _ Hsim key) as [->|[Ha Hb]]; [done|]. by rewrite !Hd. }
  rewrite <- Heq. destruct Hsim as [H1 H2 H3 H4]. split; cbn [entries with_entries]; [done| | |].
  - intros k. destruct (decide (key = k)) as [<-|Hne]; [|by rewrite !lookup_insert_ne]. rewrite !lookup_insert_eq. by left.
  - intros k b [[<- <-]|[Hne Hb]]%lookup_insert_Some; [|eauto]. apply failed_bucket_ok; [done|].
    destruct (entries l !! key) as [c|] eqn:E; [right|by left]. by eapply H3.
  - intros k b [[<- <-]|[Hne Hb]]%lookup_insert_Some; eauto.
Qed.

Lemma sim_delete now l m key : sim l0 K now l m -> sim l0 K now (with_entries l (delete key (entries l))) (delete key m).
Proof.
  intros [H1 H2 H3 H4]. split; cbn [entries with_entries]; [done| | |].
  - intros k. destruct (decide (key = k)) as [<-|Hne]; [|by rewrite !lookup_delete_ne]. rewrite !lookup_delete_eq. by left.
  - intros k b [Hne Hb]%lookup_delete_Some. eauto.
  - intros k b [Hne Hb]%lookup_delete_Some. eauto.
Qed.

(** Each call keeps the simulation and answers like the reference. *)
Lemma sim_op now l m o :
  sim l0 K now l m -> (forall t, op_time o = Some t -> 0 < t /\ t = now) -> (forall k, k ∈ op_keys o -> k ∈ K) ->
  sim l0 K now (fst (run_op l o)) (fst (ref_op l0 m o)) /\ snd (run_op l o) = snd (ref_op l0 m o).
Proof.
  intros Hsim Ht Hk. destruct o as [t keys|t keys|keys]; cbn [op_time op_keys] in *.
  - destruct (Ht t eq_refl) as [_ ->]. by apply sim_allow.
  - destruct (Ht t eq_refl) as [Hp ->]. cbn [run_op ref_op failure default fst snd]. split; [|done].
    apply (foldl_pair (sim l0 K now)); [|by apply sim_purge]. intros s m' k Hin Hs. apply sim_failure_key; auto.
  - cbn [run_op ref_op success default fst snd]. split; [|done].
    apply (foldl_pair (sim l0 K now)); [|done]. intros s m' k _ Hs. by apply sim_delete.
Qed.
End Sim.

(** The times of the calls do not go back. *)
Fixpoint timed (now : Z) (ops : list op) : Prop :=
  match ops with
  | [] => True
  | o :: ops => match op_time o with Some t => now <= t /\ timed t ops | None => timed now ops end
  end.

Lemma sim_answers l0 K ops : config_ok l0 -> Z.of_nat (size K) <= maxEntries l0 ->
  forall now l m, 0 < now -> timed now ops -> (forall o k, o ∈ ops -> k ∈ op_keys o -> k ∈ K) -> sim l0 K now l m ->
  answers l ops = ref_answers l0 m ops.
Proof.
  intros Hc HK. induction ops as [|o ops IH]; intros now l m Hn Ht Hk Hsim; [done|]. cbn [answers ref_answers].
  set (t := match op_time o with Some t => t | None => now end).
  assert (now <= t /\ timed t ops) as [Hle Ht'] by (unfold t; cbn in Ht; destruct (op_time o); [done|]; split; [lia|done]).
  destruct (sim_op l0 K Hc HK t l m o) as [H1 H2].
  - by eapply sim_later.
  - intros t' Eo. unfold t. rewrite Eo. split; [|done]. unfold t in Hle. rewrite Eo in Hle. lia.
  - intros k Hin. eapply Hk; [by left|done].
  - destruct (run_op l o) as [l' r], (ref_op l0 m o) as [m' r']. cbn in *. subst r'. f_equal.
    apply (IH t); [lia|done| |done]. intros o' k Ho. apply Hk. by right.
Qed.

Lemma sim_start l K now : entries l = ∅ -> sim l K now l ∅.
Proof. intros He. split; rewrite ?He; [done|by left|done..]. Qed.

(** As long as no more distinct keys are used than the limiter has room for, its
    purging and its idle expiry cannot be noticed: every call answers, with the same
    retry time, like the limiter that forgets nothing. *)
Theorem login_limiter_exact l K now ops :
  config_ok l -> entries l = ∅ -> Z.of_nat (size (K : gset string)) <= maxEntries l ->
  0 < now -> timed now ops -> (forall o k, o ∈ ops -> k ∈ op_keys o -> k ∈ K) ->
  answers l ops = ref_answers l ∅ ops.
Proof. intros Hc He HK Hn Ht Hk. eapply sim_answers; [done..|]. by apply sim_start. Qed.

(** ** Guessing

    A login asks the limiter first; it tells it the outcome after the password check, which
    runs without a lock, so logins overlap. *)
Inductive login_event :=
| Begin (now : Z) (keys : list string)
(* of a login in progress: the password was wrong, or right, or the storage failed *)
| Rejected (now : Z) (i : nat) | Accepted (i : nat) | Unavailable (i : nat).

Record logins := MkLogins { limiter : loginLimiter; in_progress : list (list string) }.

Definition login_begin (s : logins) (now : Z) (keys : list string) : logins :=
  let '(l, r) := run_op (limiter s) (OAllow now keys) in
  MkLogins l (match r with Some (true, _) => in_progress s ++ [keys] | _ => in_progress s end).

Definition login_end (s : logins) (i : nat) (outcome : option (list string -> op)) : logins :=
  match in_progress s !! i with
  | Some keys => MkLogins (match outcome with Some o => fst (run_op (limiter s) (o keys)) | None => limiter s end) (delete i (in_progress s))
  | None => s
  end.

Definition login_step (s : logins) (e : login_event) : logins :=
  match e with
  | Begin now keys => login_begin s now keys
  | Rejected now i => login_end s i (Some (OFailure now))
  | Accepted i => login_end s i (Some OSuccess)
  | Unavailable i => login_end s i None
  end.

(** The logins in progress that carry the key [k], and those that an event ends. *)
Definition pending (k : string) (s : logins) : Z := llen (filter (fun keys => k ∈ keys) (in_progress s)).
Definition ends_of (s : logins) (e : login_event) : list string :=
  match e with Rejected _ i | Accepted i | Unavailable i => default [] (in_progress s !! i) | Begin _ _ => [] end.

(** How many passwords were found wrong for the key [k]. *)
Fixpoint guesses (k : string) (s : logins) (events : list login_event) : Z :=
  match events with
  | [] => 0
  | e :: events =>
      match e with Rejected _ _ => if bool_decide (k ∈ ends_of s e) then 1 else 0 | _ => 0 end + guesses k (login_step s e) events
  end.

(** The clock does not go back, only keys of [K] are used, at most [P] logins with the key
    [k] are ever in progress, and none of those finds the right password. *)
Fixpoint guessing (K : gset string) (k : string) (P now t1 : Z) (s : logins) (events : list login_event) : Prop :=
  match events with
  | [] => True
  | e :: events =>
      let later := match e with Begin t _ | Rejected t _ => t | _ => now end in
      now <= later <= t1 /\ match e with Begin _ keys => Forall (fun x => x ∈ K) keys | Accepted _ => k ∉ ends_of s e | _ => True end
      /\ pending k (login_step s e) <= P /\ guessing K k P later t1 (login_step s e) events
  end.

Lemma uniqueKeys_NoDup keys : NoDup (uniqueKeys keys).
Proof.
  unfold uniqueKeys.
  apply (foldl_inv (fun sr : gset string * list string => NoDup sr.2 /\ forall x, x ∈ sr.2 -> x ∈ sr.1)); [|split; [constructor|set_solver]].
  intros [seen result] key _ [Hn Hs]. cbn [fst snd] in *. destruct (String.eqb key ""); [done|]. case_bool_decide as Hin; [done|].
  cbn. split; [|set_solver]. apply NoDup_app. split_and!; [done| |apply NoDup_singleton]. set_solver.
Qed.

Lemma ref_fail_lookup l now keys k : forall m, NoDup keys ->
  foldl (ref_fail l now) m keys !! k =
  if decide (k ∈ keys) then Some (failed_bucket l now (default zero_bucket (m !! k))) else m !! k.
Proof.
  induction keys as [|key keys IH]; intros m Hn; cbn [foldl].
  { destruct (decide _) as [[]%elem_of_nil|]; done. }
  apply NoDup_cons in Hn as [Hk Hn]. rewrite IH by done. unfold ref_fail. destruct (decide (key = k)) as [<-|Hne].
  - rewrite lookup_insert_eq. rewrite decide_False by done. by rewrite decide_True by left.
  - rewrite lookup_insert_ne by done. destruct (decide (k ∈ keys)) as [Hin|Hin].
    + by rewrite decide_True by (by right).
    + rewrite decide_False; [done|]. by intros [->|?]%elem_of_cons.
Qed.

Lemma deletes_lookup {B} keys k : forall (m : gmap string B), k ∉ keys -> foldl (fun m key => delete key m) m keys !! k = m !! k.
Proof.
  induction keys as [|key keys IH]; intros m Hk; [done|]. cbn. apply not_elem_of_cons in Hk as [Hne Hk]. by rewrite IH, lookup_delete_ne.
Qed.

(** A wait of zero: none of the keys is blocked. *)
Lemma ref_wait_zero m now keys k b :
  foldl (ref_wait m now) 0 keys = 0 -> k ∈ keys -> m !! k = Some b -> blockedTill b <= now.
Proof.
  intros Hz Hk Hb. destruct (Z.le_gt_cases (blockedTill b) now) as [|Hgt]; [done|exfalso].
  assert (Hup : forall ks r, r <= foldl (ref_wait m now) r ks).
  { intros ks. induction ks as [|x ks IH]; intros r; cbn; [lia|]. etrans; [|apply IH]. unfold ref_wait. repeat case_match; lia. }
  apply list_elem_of_split in Hk as (ks1 & ks2 & ->). rewrite foldl_app in Hz. cbn in Hz.
  pose proof (Hup ks2 (ref_wait m now (foldl (ref_wait m now) 0 ks1) k)) as H2. rewrite Hz in H2.
  unfold ref_wait in H2 at 1. rewrite Hb in H2. unfold not_blocked, time_sub, min_duration, max_duration in H2.
  destruct (Z.leb_spec (blockedTill b) now); lia.
Qed.

Section Guessing.
Context (l0 : loginLimiter) (K : gset string) (Hc : config_ok l0) (HK : Z.of_nat (size K) <= maxEntries l0).
Context (Hcap : 1 <= failureCap l0) (Hblock : window l0 <= block l0).
Context (k : string) (Hk : k <> "") (t0 P : Z) (HP : 1 <= P).

(** As many as one window sees: once the cap is reached nobody else is let in. *)
Definition per_window : Z := failureCap l0 + P - 1.

(** What the bucket of [k] says about the [n] guesses so far, [p] logins being in progress:
    [w] windows are over. *)
Definition counted (now n p : Z) (b : option loginBucket) : Prop :=
  match b with
  | None => n = 0
  | Some b => exists w, 0 <= w /\ 0 < windowStart b /\ t0 + window l0 * w <= windowStart b <= now /\ n <= per_window * w + failures b /\
      1 <= failures b <= per_window /\
      (failureCap l0 <= failures b -> windowStart b + window l0 <= blockedTill b /\ (now < windowStart b + window l0 -> failures b + p <= per_window))
  end.

Lemma counted_bound now n p b : t0 <= now -> counted now n p b -> n <= per_window * ((now - t0) / window l0 + 1).
Proof.
  pose proof Hc as ([? _] & _). intros Ht. unfold per_window. destruct b as [b|]; cbn.
  - intros (w & ? & ? & [? ?] & Hn & [? ?] & _). unfold per_window in *. assert (w <= (now - t0) / window l0) by (apply Z.div_le_lower_bound; lia). nia.
  - intros ->. assert (0 <= (now - t0) / window l0) by (apply Z.div_pos; lia). nia.
Qed.

Lemma counted_later now now' n p p' b : now <= now' -> p' <= p -> counted now n p b -> counted now' n p' b.
Proof.
  intros Hle Hp. destruct b as [b|]; cbn; [|done]. intros (w & H0 & H1 & H2 & H3 & H4 & H5). exists w. split_and!; lia.
Qed.

(** A login is let in: the key is not blocked, so its full windows are over. *)
Lemma counted_begin now n p p' b : (forall c, b = Some c -> blockedTill c <= now) -> counted now n p b -> counted now n p' b.
Proof.
  intros Hfree. destruct b as [b|]; cbn; [|done]. specialize (Hfree b eq_refl). intros (w & H0 & H1 & H2 & H3 & H4 & H5). exists w. split_and!; lia.
Qed.

Lemma counted_fail now n p b :
  0 < now -> t0 <= now -> 0 <= p -> p + 1 <= P -> counted now n (p + 1) b ->
  counted now (n + 1) p (Some (failed_bucket l0 now (default zero_bucket b))).
Proof.
  intros Hn Ht Hp HpP Hb. pose proof Hc as ([Hw ?] & ? & ? & _).
  assert (Hfirst : forall w n', 0 <= w -> t0 + window l0 * w <= now -> n' <= per_window * w ->
    counted now (n' + 1) p (Some (MkLoginBucket (0 + 1) now (if 0 + 1 >=? failureCap l0 then now + block l0 else 0) now))).
  { intros w n' Hw0 Hw1 Hw2. exists w. cbn. unfold per_window in *. destruct (Z.geb_spec (0 + 1) (failureCap l0)); split_and!; lia. }
  destruct b as [b|]; cbn [from_option id].
  - destruct Hb as (w & H0w & Hs & Hw1 & Hle & Hf & Hblk). unfold failed_bucket, is_zero_time.
    assert (Hz : (windowStart b =? 0) = false) by (apply Z.eqb_neq; lia).
    destruct (time_sub now (windowStart b) >=? window l0) eqn:Eo; rewrite Hz; cbn [orb failures windowStart blockedTill];
      rewrite Z.geb_leb in Eo; [apply Z.leb_le in Eo as Ho|apply Z.leb_gt in Eo as Ho].
    + apply time_sub_ge in Ho; [|lia|unfold min_duration; lia]. unfold per_window in *; apply (Hfirst (w + 1)); lia.
    + assert (~ window l0 <= now - windowStart b) as Ho'.
      { rewrite <- time_sub_ge; [lia| |unfold min_duration; lia]. lia. }
      exists w. cbn. unfold per_window in *. destruct (Z.geb_spec (failures b + 1) (failureCap l0)); split_and!; lia.
  - cbn in Hb. subst n. apply (Hfirst 0 0); lia.
Qed.

(** The invariant of a guesser's history. *)
Definition watched (now n : Z) (s : logins) : Prop :=
  exists m, sim l0 K now (limiter s) m /\ Forall (Forall (fun x => x ∈ K)) (in_progress s) /\ counted now n (pending k s) (m !! k).

Lemma pending_delete s i keys : in_progress s !! i = Some keys ->
  pending k s = llen (filter (fun keys => k ∈ keys) (delete i (in_progress s))) + (if bool_decide (k ∈ keys) then 1 else 0).
Proof.
  intros Hi. unfold pending. rewrite (delete_Permutation _ _ _ Hi) at 1. rewrite filter_cons. case_bool_decide; [rewrite decide_True by done; cbn | rewrite decide_False by done]; lia.
Qed.

Lemma watched_later now now' n s : now <= now' -> watched now n s -> watched now' n s.
Proof. intros Hle (m & H1 & H2 & H3). exists m. split_and!; [by eapply sim_later | done | by eapply counted_later]. Qed.

Lemma watched_begin now n s keys : watched now n s -> Forall (fun x => x ∈ K) keys -> watched now n (login_begin s now keys).
Proof.
  intros (m & Hsim & Hin & Hcount) Hkeys. destruct (sim_allow l0 K Hc now (limiter s) m keys Hsim) as [H1 H2]. unfold login_begin.
  destruct (run_op (limiter s) (OAllow now keys)) as [l1 r]. cbn [fst snd ref_op] in H1, H2. subst r. exists m.
  destruct (Z.eqb_spec (foldl (ref_wait m now) 0 (uniqueKeys keys)) 0) as [Hz|Hz]; [|done]. split; [done|]. split; [apply Forall_app; by repeat constructor|].
  unfold pending. cbn [in_progress]. rewrite filter_app, length_app. destruct (decide (k ∈ keys)) as [Hin'|Hin'].
  - eapply counted_begin; [|exact Hcount]. intros c Ec. eapply ref_wait_zero; [exact Hz | | exact Ec]. by apply uniqueKeys_spec.
  - rewrite filter_cons, decide_False by done. cbn. rewrite Nat.add_0_r. exact Hcount.
Qed.

(** A login that ended, with the limiter [l] after it. *)
Lemma watched_end now n m s i keys l : in_progress s !! i = Some keys -> Forall (Forall (fun x => x ∈ K)) (in_progress s) -> sim l0 K now l m ->
  let s' := MkLogins l (delete i (in_progress s)) in
  counted now n (pending k s') (m !! k) -> watched now n s'.
Proof.
  intros Hi Hin Hsim s' Hcount. exists m. split_and!; [done | | done]. rewrite Forall_forall in Hin |- *. intros x Hx.
  apply Hin. rewrite (delete_Permutation _ _ _ Hi). by right.
Qed.

Lemma watched_step now n s e t1 events : 0 < now -> t0 <= now -> watched now n s -> pending k s <= P -> guessing K k P now t1 s (e :: events) ->
  exists later, now <= later <= t1 /\ guessing K k P later t1 (login_step s e) events /\ pending k (login_step s e) <= P
    /\ watched later (n + match e with Rejected _ _ => if bool_decide (k ∈ ends_of s e) then 1 else 0 | _ => 0 end) (login_step s e).
Proof.
  intros Hn Ht Hw HpP (Hlater & He & Hp' & Hrest). eexists. split; [exact Hlater|]. split; [exact Hrest|]. split; [exact Hp'|]. clear Hrest Hp'.
  apply (watched_later now) with (now' := match e with Begin t _ | Rejected t _ => t | _ => now end) in Hw; [|lia].
  destruct e as [t keys|t i|i|i]; cbn [login_step ends_of] in *; [rewrite Z.add_0_r; by apply watched_begin | ..]; unfold login_end;
    (destruct (in_progress s !! i) as [keys|] eqn:Hi; cbn [default from_option] in *; [|try rewrite bool_decide_false by apply not_elem_of_nil; by rewrite Z.add_0_r]);
    pose proof (pending_delete s i keys Hi) as Hp; destruct Hw as (m & Hsim & Hin & Hcount);
    assert (HinK : forall x, x ∈ uniqueKeys keys -> x ∈ K)
      by (intros x [Hx _]%uniqueKeys_spec; rewrite Forall_forall in Hin; pose proof (Hin keys ltac:(by eapply list_elem_of_lookup_2)) as Hk'; rewrite Forall_forall in Hk'; by apply Hk').
  - destruct (sim_op l0 K Hc HK t (limiter s) m (OFailure t keys) Hsim) as [H1 _]; [cbn; intros ? [= <-]; lia | done|]. eapply watched_end; [done..|].
    cbn [ref_op fst]. rewrite ref_fail_lookup by apply uniqueKeys_NoDup. change (Datatypes.id keys) with keys. case_bool_decide as Hink.
    + rewrite decide_True by (by apply uniqueKeys_spec). apply counted_fail; [lia | lia | unfold pending; lia | |]; cbn [in_progress pending] in *; rewrite Hp in *; done.
    + rewrite decide_False by (by intros [? _]%uniqueKeys_spec). rewrite Z.add_0_r. refine (counted_later _ _ _ _ _ _ (Z.le_refl _) _ Hcount). rewrite Hp. unfold pending. cbn. lia.
  - destruct (sim_op l0 K Hc HK now (limiter s) m (OSuccess keys) Hsim) as [H1 _]; [done | done|]. eapply watched_end; [done..|].
    rewrite Z.add_0_r. cbn [ref_op fst]. rewrite deletes_lookup by (by intros [? _]%uniqueKeys_spec). refine (counted_later _ _ _ _ _ _ (Z.le_refl _) _ Hcount).
    rewrite Hp. unfold pending. cbn. case_bool_decide; lia.
  - eapply watched_end; [done..|]. rewrite Z.add_0_r. refine (counted_later _ _ _ _ _ _ (Z.le_refl _) _ Hcount). rewrite Hp. unfold pending. cbn. case_bool_decide; lia.
Qed.

Lemma guesses_counted t1 events : forall now s n,
  0 < now -> t0 <= now <= t1 -> watched now n s -> pending k s <= P -> guessing K k P now t1 s events ->
  n + guesses k s events <= per_window * ((t1 - t0) / window l0 + 1).
Proof.
  induction events as [|e events IH]; intros now s n Hn Ht Hw HpP Hg.
  { cbn. rewrite Z.add_0_r. destruct Hw as (m & _ & _ & Hcount). exact (counted_bound t1 n (pending k s) _ ltac:(lia) (counted_later now t1 n _ _ _ ltac:(lia) (Z.le_refl _) Hcount)). }
  destruct (watched_step now n s e t1 events) as (later & Hl & Hg' & HpP' & Hw'); [done | lia | done | done | done |].
  cbn [guesses]. rewrite Z.add_assoc. apply (IH later); [lia | lia | done | done | done].
Qed.
End Guessing.

End Facts.

(** ** Admission of connections *)
Module AdmissionFacts.
Import Admission.
Section Facts.
Context `{MO : !MapOrder}.

Lemma allow_size l now key l' r :
  0 < maxEntries l -> Z.of_nat (size (entries l)) <= maxEntries l -> allow (Some l) now key = (Some l', r) ->
  Z.of_nat (size (entries l')) <= maxEntries l /\ maxEntries l' = maxEntries l.
Proof.
  intros Hmax Hsize. unfold allow. destruct ((limit l <=? 0) || (window l <=? 0)); [by intros [= <- <-]|].
  set (key' := if String.eqb _ _ then _ else _).
  assert (Hroom : Z.of_nat (size (<[key' := zero_bucket]> (make_room l now))) <= maxEntries l).
  { assert (Hlt : Z.of_nat (size (make_room l now)) < maxEntries l).
    2: { destruct (make_room l now !! key') eqn:E; [rewrite map_size_insert_Some by (by eexists)|rewrite map_size_insert_None by done]; lia. }
    unfold make_room. set (m := foldl _ _ _).
    assert (Hm : (size m <= size (entries l))%nat) by (apply map_subseteq_size, (delete_if_subseteq (fun b => time_sub now (lastSeen b) >=? window l))).
    destruct (Z.geb_spec (Z.of_nat (size (entries l))) (maxEntries l)); cbn [negb]; [|done].
    destruct (Z.geb_spec (Z.of_nat (size m)) (maxEntries l)); cbn [negb]; [|done].
    pose proof (range_order_head m) as Hh. destruct (range_order (map_to_list m)) as [|[k b] L].
    - rewrite Hh, map_size_empty in *. lia.
    - rewrite map_size_delete_Some by (by eexists). lia. }
  assert (Hany : forall b, size (<[key' := b]> (make_room l now)) = size (<[key' := zero_bucket]> (make_room l now))).
  { intros b. destruct (make_room l now !! key') eqn:E; [rewrite !map_size_insert_Some by (by eexists)|rewrite !map_size_insert_None by done]; done. }
  cbv zeta. repeat case_match; intros [= <- <-]; cbn; by rewrite Hany.
Qed.

(** The answers of a limiter to calls in sequence: how many of key [k] were let in. *)
Fixpoint admitted (k : string) (l : admissionLimiter) (calls : list (Z * string)) : Z :=
  match calls with
  | [] => 0
  | (now, key) :: calls =>
      let '(l', (ok, _)) := allow (Some l) now key in
      (if ok && String.eqb key k then 1 else 0) + admitted k (default l l') calls
  end.

Section Counting.
Context (l0 : admissionLimiter) (K : gset string) (HK : Z.of_nat (size K) < maxEntries l0).
Context (Hlim : 0 < limit l0) (Hwin : 0 < window l0 <= max_duration) (k : string) (t0 : Z).

Definition keeps_room (l : admissionLimiter) : Prop :=
  limit l = limit l0 /\ window l = window l0 /\ maxEntries l = maxEntries l0 /\ dom (entries l) ⊆ K.

(** As for the login limiter: [w] windows are over, and [n] calls were let in. *)
Definition counted (now n : Z) (b : option admissionBucket) : Prop :=
  match b with
  | None => n = 0
  | Some b => exists w, 0 <= w /\ 0 < windowStart b /\ t0 + window l0 * w <= windowStart b <= now /\
      n <= limit l0 * w + count b /\ 0 <= count b <= limit l0
  end.

Lemma admission_bound now n b : t0 <= now -> counted now n b -> n <= limit l0 * ((now - t0) / window l0 + 1).
Proof.
  intros Ht. destruct b as [b|]; cbn.
  - intros (w & ? & ? & [? ?] & Hn & ?). assert (w <= (now - t0) / window l0) by (apply Z.div_le_lower_bound; lia). nia.
  - intros ->. assert (0 <= (now - t0) / window l0) by (apply Z.div_pos; lia). nia.
Qed.

Lemma room_enough l now : keeps_room l -> make_room l now = entries l.
Proof.
  intros (_ & _ & Hm & Hd). unfold make_room. apply subseteq_size in Hd. rewrite size_dom in Hd.
  destruct (Z.geb_spec (Z.of_nat (size (entries l))) (maxEntries l)); [lia|done].
Qed.

Lemma admission_step now n l key :
  keeps_room l -> 0 < now -> t0 <= now -> strings.TrimSpace key <> "" -> key ∈ K -> counted now n (entries l !! k) ->
  exists l' r, allow (Some l) now key = (Some l', r) /\ keeps_room l' /\
    counted now (n + if r.1 && String.eqb key k then 1 else 0) (entries l' !! k).
Proof.
  intros Hl Hn Ht Hkey Hin Hc. pose proof Hl as (Hl1 & Hl2 & Hl3 & Hl4). unfold allow. rewrite Hl1, Hl2, Hl3, (room_enough l now Hl).
  destruct (Z.leb_spec (limit l0) 0); [lia|]. destruct (Z.leb_spec (window l0) 0); [lia|]. cbn [orb].
  destruct (String.eqb_spec (strings.TrimSpace key) "") as [|_]; [done|]. cbv zeta.
  set (b0 := default zero_bucket (entries l !! key)).
  set (b := if _ || _ then MkBucket now 0 0 else b0).
  assert (Hb : key = k -> counted now n (Some b)).
  { intros ->. unfold b, b0. destruct (entries l !! k) as [c|]; cbn [from_option id].
    - destruct Hc as (w & ? & ? & ? & ? & ?). unfold is_zero_time. destruct (Z.eqb_spec (windowStart c) 0); [lia|]. cbn [orb].
      rewrite Z.geb_leb. destruct (Z.leb_spec (window l0) (time_sub now (windowStart c))) as [Ho|Ho]; cbn.
      + apply time_sub_ge in Ho; [|lia|unfold min_duration; lia]. exists (w + 1). cbn. split_and!; lia.
      + exists w. cbn. split_and!; lia.
    - cbn in Hc. subst n. cbn. exists 0. cbn. split_and!; lia. }
  assert (Hroom : forall c, keeps_room (MkLimiter (<[key := c]> (entries l)) (limit l0) (window l0) (maxEntries l0))).
  { intros c. split_and!; try done. cbn. rewrite dom_insert. set_solver. }
  assert (Hother : forall c, key <> k -> entries (MkLimiter (<[key := c]> (entries l)) (limit l0) (window l0) (maxEntries l0)) !! k = entries l !! k).
  { intros c Hne. cbn. by rewrite lookup_insert_ne. }
  destruct (Z.geb_spec (count b) (limit l0)) as [Hge|Hlt]; eexists _, _; (split; [reflexivity|]); (split; [apply Hroom|]); cbn [fst andb].
  - rewrite Z.add_0_r. destruct (decide (key = k)) as [E|Hne]; [|by rewrite Hother]. rewrite E. cbn [entries]. rewrite lookup_insert_eq.
    destruct (Hb E) as (w & ? & ? & ? & ? & ?). exists w. cbn. done.
  - destruct (String.eqb_spec key k) as [E|Hne]; [|rewrite Z.add_0_r; by rewrite Hother]. rewrite E. cbn [entries]. rewrite lookup_insert_eq.
    destruct (Hb E) as (w & ? & ? & ? & ? & ?). exists w. cbn. split_and!; lia.
Qed.

Lemma admission_later now now' n b : now <= now' -> counted now n b -> counted now' n b.
Proof. intros Hle. destruct b as [b|]; cbn; [|done]. intros (w & H). exists w. lia. Qed.

Lemma admitted_counted calls : forall now l n t1,
  keeps_room l -> 0 < now -> t0 <= now -> counted now n (entries l !! k) -> now <= t1 ->
  StronglySorted Z.le (now :: calls.*1) -> Forall (fun c => c.1 <= t1 /\ strings.TrimSpace c.2 <> "" /\ c.2 ∈ K) calls ->
  n + admitted k l calls <= limit l0 * ((t1 - t0) / window l0 + 1).
Proof.
  induction calls as [|[t key] calls IH]; intros now l n t1 Hl Hn Ht Hc Hle Hs Hf; cbn [admitted].
  { rewrite Z.add_0_r. eapply admission_bound; [|by eapply admission_later]. lia. }
  apply StronglySorted_inv in Hs as [Hs Hnow]. apply Forall_cons in Hf as [(Ht1 & Hkey & Hin) Hf]. cbn [fst snd fmap list_fmap] in *.
  assert (Hnt : now <= t) by (by apply Forall_inv in Hnow).
  destruct (admission_step t n l key) as (l' & [ok w] & -> & Hl' & Hc'); [done|lia|lia|done|done|by eapply admission_later|].
  cbn [from_option id fst] in *. rewrite Z.add_assoc. eapply (IH t); [done|lia|lia|done|lia|done|done].
Qed.
End Counting.

(** The admission limiter never holds more than its maximum of keys; and while
    fewer keys than that are in use, a key is let in at most [limit] times per window:
    in [t1 - t0] at most limit times one more than the whole windows in it. *)
Theorem admission_rate l K k t0 t1 calls :
  0 < limit l -> 0 < window l <= max_duration -> entries l = ∅ -> Z.of_nat (size (K : gset string)) < maxEntries l ->
  0 < t0 <= t1 -> StronglySorted Z.le (t0 :: calls.*1) ->
  Forall (fun c => c.1 <= t1 /\ strings.TrimSpace c.2 <> "" /\ c.2 ∈ K) calls ->
  admitted k l calls <= limit l * ((t1 - t0) / window l + 1) /\
  Z.of_nat (size (entries (foldl (fun l c => default l (fst (allow (Some l) c.1 c.2))) l calls))) <= maxEntries l.
Proof.
  intros Hlim Hwin He HK Ht Hs Hf. split.
  - change (admitted k l calls) with (0 + admitted k l calls).
    eapply (admitted_counted l K HK Hlim Hwin k t0 calls t0 l 0); try done; try lia; [|by rewrite He].
    split_and!; try done. rewrite He, dom_empty. set_solver.
  - apply (foldl_inv (fun l' => Z.of_nat (size (entries l')) <= maxEntries l /\ maxEntries l' = maxEntries l)).
    + intros l' c _ [H1 H2]. destruct (allow (Some l') c.1 c.2) as [[l2|] r] eqn:E; [|done]. cbn.
      apply allow_size in E; [|lia..]. lia.
    + split; [|done]. rewrite He, map_size_empty. lia.
Qed.
End Facts.

Lemma admission_rate_witness :
  @admitted Samples.go_order "10.0.0.1" (newAdmissionLimiter 2 60 3) [(5, "10.0.0.1"); (6, "10.0.0.1"); (7, "10.0.0.2"); (8, "10.0.0.1"); (70, "10.0.0.1")] = 3 /\
  3 <= 2 * ((70 - 5) / 60 + 1).
Proof.
  split; [vm_compute; reflexivity|].
  apply (@admission_rate Samples.go_order (newAdmissionLimiter 2 60 3) {["10.0.0.1"; "10.0.0.2"]} "10.0.0.1" 5 70
    [(5, "10.0.0.1"); (6, "10.0.0.1"); (7, "10.0.0.2"); (8, "10.0.0.1"); (70, "10.0.0.1")]); try reflexivity.
  - split; [reflexivity|vm_compute; discriminate].
  - split; [reflexivity|discriminate].
  - repeat constructor; vm_compute; discriminate.
  - repeat constructor; cbn; (discriminate || set_solver).
Defined.
End AdmissionFacts.

(** ** Concrete runs *)
#[local] Existing Instance Samples.go_order.

Definition at_second (n : Z) : Z := n * 1000000000.
Definition home_key : list string := ["ip:192.0.2.7"].
(** Two guessers at once: six tries until 60 s, then none before 120 s; the last of them
    starts the next window. *)
Definition overlapping : list login_event :=
  [Begin (at_second 10) home_key; Begin (at_second 11) home_key; Rejected (at_second 20) 0; Begin (at_second 20) home_key;
   Rejected (at_second 30) 0; Begin (at_second 30) home_key; Rejected (at_second 40) 0; Begin (at_second 40) home_key;
   Rejected (at_second 50) 0; Begin (at_second 50) home_key; Rejected (at_second 60) 0; Begin (at_second 61) home_key;
   Rejected (at_second 62) 0; Begin (at_second 100) home_key; Begin (at_second 130) home_key; Rejected (at_second 131) 0].


Lemma login_limiter_bounded_witness :
  let ops := (fun n => OFailure (at_second n) [pretty n]) <$> [1; 2; 3; 4] in
  Z.of_nat (size (entries (after (MkLoginLimiter ∅ 2 5 loginWindow loginBlock loginIdleExpiry) ops))) <= 2.
Proof. apply (login_limiter_bounded (MkLoginLimiter ∅ 2 5 loginWindow loginBlock loginIdleExpiry)); reflexivity. Defined.

Definition login_session : list op :=
  (fun n => OFailure (at_second n) home_key) <$> [10; 20; 30; 40; 50].

Lemma login_limiter_exact_witness :
  let ops := login_session ++ [OAllow (at_second 60) home_key; OAllow (at_second 111) home_key; OSuccess home_key] in
  answers newLoginLimiter ops = ref_answers newLoginLimiter ∅ ops /\
  last (List.firstn 6 (answers newLoginLimiter ops)) = Some (Some (false, at_second 50)).
Proof.
  split; [|vm_compute; reflexivity].
  apply (login_limiter_exact newLoginLimiter {["ip:192.0.2.7"]} (at_second 10)).
  - repeat split; vm_compute; discriminate.
  - reflexivity.
  - vm_compute; discriminate.
  - reflexivity.
  - repeat split; vm_compute; discriminate.
  - intros o k Ho Hk. assert (E : op_keys o = home_key).
    { cbn in Ho. rewrite !elem_of_cons, elem_of_nil in Ho. repeat destruct Ho as [->|Ho]; try done; vm_compute; reflexivity. }
    rewrite E in Hk. set_solver.
Defined.

(** A failure that is recorded after the window of the counted ones has ended, by a
    login that was let in before the block (its password check was slow), starts a
    new window and with it lifts the block that has 40 seconds to run. *)
Example late_failure_lifts_block :
  let l := after newLoginLimiter login_session in
  snd (run_op l (OAllow (at_second 60) home_key)) = Some (false, at_second 50) /\
  snd (run_op (after l [OFailure (at_second 70) home_key]) (OAllow (at_second 71) home_key)) = Some (true, 0).
Proof. vm_compute. split; reflexivity. Qed.
