(* ===== verification/Routing.v ===== *)
(** * Routes of an Agent (src/internal/dataplane/routing.go)

    The route of a target is the destination of the first enabled rule that matches
    its host; rules match by network, by domain, and by the country of a GeoIP
    database that is loaded once.  The database file and its format are parameters;
    the clock's reading is an argument. *)
From S2P Require Import Prelude GoStd GoNet Domain.
Import netip net.

Definition defaultGeoIPMaxAge : Z := 180 * 24 * 3600 * 1000000000.
Definition ErrGeoIPStale : error := ENew "geoip database is stale".

(** What the resolver asks of the operating system and of the geoip2 package:
    [os.Stat] (is it a regular file, and when was it modified), [os.ReadFile],
    [geoip2.FromBytes] and [Reader.Country]. *)
Class GeoSource := {
  Reader : Type;
  geo_Stat : string -> result (bool * Z);
  geo_ReadFile : string -> result (list ascii);
  geo_FromBytes : list ascii -> result Reader;
  geo_Country : Reader -> Addr -> result string
}.

Section Routing.
Context `{UN : !Unicode, GS : !GeoSource}.

(** [once] is done when [loaded] is not [None]. *)
Record GeoIPResolver := MkGeoIPResolver {
  geo_path : string; geo_maxAge : Z;
  geo_loaded : option (option Reader * option error);
  geo_warned : bool
}.

Definition NewGeoIPResolverWithMaxAge (path : string) (maxAge : Z) : GeoIPResolver :=
  MkGeoIPResolver (strings.TrimSpace path) (if maxAge <=? 0 then defaultGeoIPMaxAge else maxAge) None false.

Definition NewGeoIPResolver (path : string) : GeoIPResolver := NewGeoIPResolverWithMaxAge path defaultGeoIPMaxAge.

Definition load (r : GeoIPResolver) (now : Z) : option Reader * option error :=
  if String.eqb (geo_path r) "" then (None, None) else
  match geo_Stat (geo_path r) with
  | Err e => (None, Some (EWrap "stat GeoIP database %q: %w" [AStr (geo_path r)] e))
  | Ok (regular, modified) =>
      if negb regular then (None, Some (EFmt "GeoIP database %q is not a regular file" [AStr (geo_path r)])) else
      if time_sub now modified >? geo_maxAge r then
        (None, Some (EWrap "%w: %q modified at %s" [AStr (geo_path r); AInt modified] ErrGeoIPStale))
      else
      match geo_ReadFile (geo_path r) with
      | Err e => (None, Some (EWrap "read GeoIP database %q: %w" [AStr (geo_path r)] e))
      | Ok data =>
          match geo_FromBytes data with
          | Err e => (None, Some (EWrap "parse GeoIP database %q: %w" [AStr (geo_path r)] e))
          | Ok db => (Some db, None)
          end
      end
  end.

(** The first call loads; a failure is logged once. *)
Definition reader (r : option GeoIPResolver) (now : Z) : option GeoIPResolver * (option Reader * option error) :=
  match r with
  | None => (None, (None, None))
  | Some r =>
      let state := match geo_loaded r with Some state => state | None => load r now end in
      let warned := geo_warned r || match snd state with Some _ => true | None => false end in
      (Some (MkGeoIPResolver (geo_path r) (geo_maxAge r) (Some state) warned), state)
  end.

Definition disabled (r : option GeoIPResolver) : bool :=
  match r with None => true | Some r => String.eqb (geo_path r) "" end.

Definition Available (r : option GeoIPResolver) (now : Z) : option GeoIPResolver * bool :=
  if disabled r then (r, false) else
  let '(r, (db, err)) := reader r now in
  (r, match db, err with Some _, None => true | _, _ => false end).

Definition Error (r : option GeoIPResolver) (now : Z) : option GeoIPResolver * option error :=
  if disabled r then (r, None) else let '(r, (_, err)) := reader r now in (r, err).

(** ** Matching *)
Definition cidr_matches (value : string) (ip : option Addr) : bool :=
  match ParseCIDR (strings.TrimSpace value), ip with
  | Ok prefix, Some ip => IPNet_Contains prefix ip
  | _, _ => false
  end.

Definition domain_name (value : string) : string :=
  strings.TrimPrefix (to_lower (strings.TrimSuffix (strings.TrimSpace value) ".")) "*.".

Definition domain_matches (value host : string) : bool :=
  let name := domain_name value in String.eqb host name || strings.HasSuffix host ("." +:+ name).

Definition geoip_matches (value : string) (ip : option Addr) (db : option Reader) : bool :=
  let code := to_lower (strings.TrimSpace value) in
  match ip with
  | None => false
  | Some ip =>
      if String.eqb code "private" then IsPrivate ip || IsLoopback ip || IsLinkLocalUnicast ip
      else match db with
           | None => false
           | Some db => match geo_Country db ip with Ok country => strings.equal_fold_ascii country code | Err _ => false end
           end
  end.

Definition routeMatches (rule : RouteRule) (host : string) (ip : option Addr) (db : option Reader) : bool :=
  match Route_CIDRs rule, Route_Domains rule, Route_GeoIP rule with
  | [], [], [] => true
  | cidrs, domains, geoip =>
      existsb (fun value => cidr_matches value ip) cidrs
      || existsb (fun value => domain_matches value host) domains
      || existsb (fun value => geoip_matches value ip db) geoip
  end.

(** The rules in order. *)
Fixpoint first_route (rules : list RouteRule) (host : string) (ip : option Addr) (db : option Reader) : string :=
  match rules with
  | [] => "direct"
  | rule :: rules =>
      if Route_Enabled rule && routeMatches rule host ip db then to_lower (Route_Destination rule)
      else first_route rules host ip db
  end.

Definition brackets : list ascii := ["["; "]"]%char.

Definition target_host (host : string) : string := strings.TrimSuffix (to_lower (strings.TrimSpace host)) ".".

Definition SelectRouteWithResolver (spec : AgentSpec) (target : string) (resolver : option GeoIPResolver) (now : Z)
    : option GeoIPResolver * string :=
  match SplitHostPort target with
  | Err _ => (resolver, "direct")
  | Ok (host, _) =>
      let host := target_host host in
      let ip := ParseIP (strings.Trim host brackets) in
      let '(resolver, (db, _)) := reader resolver now in
      (resolver, first_route (Agent_Routes spec) host ip db)
  end.
End Routing.
