(* ===== verification/RoutingFacts.v ===== *)
(** * What routing guarantees

    For a validated Agent spec the route of a target is that of the first enabled rule
    that applies to it, where networks are read by the parser that validated them. *)
From S2P Require Import Prelude GoStd GoNet Address Domain Validation Snapshot SnapshotFacts Routing Samples ReportFacts.
Import netip net.

(** ** A slash is in no address *)
Lemma v4_slash l : "/"%char ∈ l -> forall d v f, parse_v4_fields l d v f = None.
Proof.
  induction l as [|c l IH]; intros Hl d v f; [by apply elem_of_nil in Hl|]. cbn [parse_v4_fields].
  apply elem_of_cons in Hl as [<-|Hl].
  - reflexivity.
  - repeat case_match; done || by apply IH.
Qed.

Lemma hex_run_slash l : forall off acc o a rest, hex_run l off acc = Some (o, a, rest) -> "/"%char ∈ l -> "/"%char ∈ rest.
Proof.
  induction l as [|c l IH]; intros off acc o a rest H Hin; cbn in H; [by injection H as _ _ <-|].
  destruct (hex_value c) as [v|] eqn:Ec; [|by injection H as _ _ <-]. destruct (off >? 3); [done|].
  apply elem_of_cons in Hin as [<-|Hin]; [discriminate Ec|]. by eapply IH.
Qed.

Lemma v6_slash fuel : forall s ip e, "/"%char ∈ s ->
  match v6_loop fuel s ip e with Some ([], _, _) => False | _ => True end.
Proof.
  induction fuel as [|fuel IH]; intros s ip e Hs; cbn [v6_loop].
  { destruct s; [by apply elem_of_nil in Hs|done]. }
  destruct (hex_run s 0 0) as [[[off acc] rest]|] eqn:Eh; [|done]. cbn [mbind option_bind].
  destruct (off =? 0); [done|]. pose proof (hex_run_slash _ _ _ _ _ _ Eh Hs) as Hr.
  destruct rest as [|c rest]; [by apply elem_of_nil in Hr|].
  destruct (Ascii.eqb_spec c "."%char) as [->|Hdot].
  { rewrite v4_slash by done. cbn. by repeat case_match. }
  apply elem_of_cons in Hr as [<-|Hr].
  { destruct rest; exact I. }
  destruct (Ascii.eqb_spec c ":"%char) as [->|Hcolon].
  - destruct rest as [|c2 rest]; [by apply elem_of_nil in Hr|].
    destruct (Ascii.eqb_spec c2 ":"%char) as [->|H2].
    + apply elem_of_cons in Hr as [|Hr]; [done|]. cbn. case_bool_decide; [done|]. destruct rest; [by apply elem_of_nil in Hr|by apply IH].
    + specialize (IH (c2 :: rest) (ip ++ [acc / 256; acc mod 256]) e Hr). clear -H2 IH.
      destruct c2 as [[] [] [] [] [] [] [] []]; try exact IH; by destruct H2.
  - clear -Hdot Hcolon. destruct c as [[] [] [] [] [] [] [] []]; try (by destruct Hdot); try (by destruct Hcolon); by destruct rest.
Qed.

(** The parts of the text of an IPv6 address, and the loop that reads them. *)
Definition v6_split (l : list ascii) : list ascii * option string :=
  match strings.index_byte l "%"%char with
  | Some i => (firstn i l, Some (of_bytes (skipn (S i) l)))
  | None => (l, None)
  end.

Definition v6_value (s : list ascii) (e : option nat) (zone : string) : option Addr :=
  '(rest, ip, ell) ← v6_loop 8 s [] e;
  match rest with _ :: _ => None | [] => ip ← expand_ellipsis ip ell; Some (Addr6 (bytes_value ip) zone) end.

Lemma parseIPv6_parts l a : parseIPv6 l = Some a ->
  let '(text, zone) := v6_split l in
  zone <> Some "" /\
  (text = [":"; ":"]%char /\ a = Addr6 0 (default "" zone) \/
   exists s e, (text = s \/ text = ":"%char :: ":"%char :: s) /\ v6_value s e (default "" zone) = Some a).
Proof.
  unfold parseIPv6. fold (v6_split l). destruct (v6_split l) as [text zone]. case_bool_decide as Hz; [done|].
  intros H. split; [done|]. generalize dependent (default "" zone). intros z H. destruct text as [|c1 [|c2 text]].
  - right. exists [], None. split; [by left|exact H].
  - right. exists [c1], None. split; [by left|]. destruct c1 as [[] [] [] [] [] [] [] []]; exact H.
  - destruct (decide (c1 = ":"%char /\ c2 = ":"%char)) as [[-> ->]|Hne].
    + destruct text as [|c3 text]; [left; split; [done|]; by injection H as <-|]. right.
      exists (c3 :: text), (Some 0%nat). split; [by right|exact H].
    + right. exists (c1 :: c2 :: text), None. split; [by left|]. clear -H Hne.
      destruct c1 as [[] [] [] [] [] [] [] []]; try exact H. destruct c2 as [[] [] [] [] [] [] [] []]; try exact H. by destruct Hne.
Qed.

Lemma v6_value_shape s e z a : v6_value s e z = Some a -> exists b, a = Addr6 b z.
Proof.
  unfold v6_value. destruct (v6_loop 8 s [] e) as [[[[|c rest] ip] ell]|]; [|done..]. cbn.
  destruct (expand_ellipsis ip ell); [|done]. intros [= <-]. by eexists.
Qed.

Lemma v6_value_slash s e z : "/"%char ∈ s -> v6_value s e z = None.
Proof.
  intros Hs. unfold v6_value. generalize (v6_slash 8 s [] e Hs). generalize (v6_loop 8 s [] e).
  by intros [[[[|c rest] ip] ell]|] H.
Qed.

Lemma parseIPv6_slash l a : "/"%char ∈ l -> parseIPv6 l = Some a -> has_zone a = true.
Proof.
  intros Hl H%parseIPv6_parts. unfold v6_split in H. destruct (strings.index_byte l "%"%char) as [i|].
  - destruct H as [Hz H]. assert (exists b, a = Addr6 b (of_bytes (skipn (S i) l))) as [b ->].
    { destruct H as [[_ ->]|(s & e & _ & H)]; [by eexists|by apply v6_value_shape in H]. }
    cbn. destruct (String.eqb_spec (of_bytes (skipn (S i) l)) "") as [E|]; [by rewrite E in Hz|done].
  - exfalso. destruct H as [_ [[-> _]|(s & e & Hs & H)]].
    + do 2 (apply elem_of_cons in Hl as [|Hl]; [done|]). by apply elem_of_nil in Hl.
    + assert (Hin : "/"%char ∈ s) by (destruct Hs as [<- | ->]; [done|]; by do 2 (apply elem_of_cons in Hl as [|Hl]; [done|])).
      by rewrite v6_value_slash in H.
Qed.

Lemma ParseAddr_slash s a : "/"%char ∈ bytes_of s -> ParseAddr s = Ok a -> has_zone a = true.
Proof.
  intros Hs H. unfold ParseAddr in H. destruct (parse_by_first_mark _ _) as [b|] eqn:E; [|done]. injection H as ->.
  revert E. generalize (bytes_of s) at 2. induction l as [|c l IH]; [done|]. cbn.
  destruct (Ascii.eqb_spec c "."%char) as [->|H1].
  { unfold parseIPv4. by rewrite v4_slash. }
  destruct (Ascii.eqb_spec c ":"%char) as [->|H2]; [by apply parseIPv6_slash|].
  destruct (Ascii.eqb_spec c "%"%char) as [->|H3]; [done|].
  intros H. apply IH. clear -H H1 H2 H3. destruct c as [[] [] [] [] [] [] [] []]; first [exact H|by destruct H1|by destruct H2|by destruct H3].
Qed.

Lemma ParseAddr_plain s a : ParseAddr s = Ok a -> a <> AddrZero.
Proof.
  unfold ParseAddr. destruct (parse_by_first_mark _ _) as [b|] eqn:E; [|done]. intros [= ->] ->.
  revert E. generalize (bytes_of s) at 2. induction l as [|c l IH]; [done|]. cbn.
  assert (H4 : parseIPv4 (bytes_of s) <> Some AddrZero) by (unfold parseIPv4; by destruct (parse_v4_fields _ _ _ _)).
  assert (H6 : parseIPv6 (bytes_of s) <> Some AddrZero).
  { intros H%parseIPv6_parts. destruct (v6_split _) as [text z]. destruct H as [_ [[_ [=]]|(t & e & _ & H)]].
    by apply v6_value_shape in H as [? ?]. }
  clear -IH H4 H6. destruct c as [[] [] [] [] [] [] [] []]; first [exact IH|exact H4|exact H6|done].
Qed.

Lemma ParseIP_plain s a : ParseIP s = Some a -> has_zone a = false /\ a <> AddrZero /\ Is4In6 a = false.
Proof.
  unfold ParseIP. destruct (ParseAddr s) as [b|] eqn:E; [|done]. destruct (has_zone b) eqn:Ez; [done|]. intros [= <-].
  apply ParseAddr_plain in E. unfold Unmap. destruct (Is4In6 b) eqn:E6; done.
Qed.

(** ** The two parsers of a network agree *)
Lemma index_of_last l c i : strings.last_index_byte l c = Some i -> c ∉ firstn i l -> strings.index_byte l c = Some i.
Proof.
  intros (a & b & -> & _ & <-)%strings.last_index_byte_Some Hn. apply strings.index_byte_app.
  by rewrite firstn_app, Nat.sub_diag, firstn_all, app_nil_r in Hn.
Qed.

Lemma digits_value_ge l : forall acc v, strconv.digits_value l acc = Some v -> 0 <= acc -> acc <= v.
Proof.
  induction l as [|c l IH]; intros acc v H Ha; cbn in H; [injection H; lia|].
  destruct (is_digit c) eqn:Ed; [|done]. unfold is_digit, in_byte_range in Ed. bool_facts. apply IH in H; lia.
Qed.

Lemma dtoi_digits l : forall acc i v,
  strconv.digits_value l acc = Some v -> 0 <= acc -> v < 16777215 -> 0 <= i -> (l = [] -> i <> 0) ->
  dtoi l acc i = Some (v, i + llen l).
Proof.
  induction l as [|c l IH]; intros acc i v H Ha Hv Hi Hl; cbn in *.
  - injection H as ->. destruct (Z.eqb_spec i 0); [by destruct (Hl eq_refl)|]. f_equal. f_equal. lia.
  - destruct (is_digit c) eqn:Ed; [|done]. unfold is_digit, in_byte_range in Ed. bool_facts.
    pose proof (digits_value_ge _ _ _ H ltac:(lia)) as Hge. rewrite Z.geb_leb.
    destruct (Z.leb_spec 16777215 (acc * 10 + (byte_val c - 48))); [lia|]. rewrite (IH _ _ v H); [|lia..]. f_equal. f_equal. lia.
Qed.

Lemma bytes_take i s : bytes_of (strings.take i s) = firstn i (bytes_of s).
Proof. apply list_ascii_of_string_of_list_ascii. Qed.
Lemma bytes_drop i s : bytes_of (strings.drop i s) = skipn i (bytes_of s).
Proof. apply list_ascii_of_string_of_list_ascii. Qed.

(** The network as routing sees it: an IPv4-mapped one is an IPv4 network. *)
Definition route_prefix (p : Prefix) : Prefix :=
  let number := Addr_of (Masked p) in
  if Is4In6 number then MkPrefix (Unmap number) (Bits p - 96) else MkPrefix number (Bits p).

(** The decimal digits that [ParsePrefix] lets through. *)
Definition plain_start (s : string) : bool :=
  (slen s >? 1) && negb (match bytes_of s with c :: _ => in_byte_range 49 57 c | [] => false end).

Lemma long_text {A} (x y : A) l b : (llen (x :: y :: l) >? 1) && b = false -> b = false.
Proof. cbn [List.length]. by destruct (Z.gtb_spec (Z.of_nat (S (S (List.length l)))) 1); [|lia]. Qed.

Lemma Atoi_digits s n : plain_start s = false -> strconv.Atoi s = Ok n ->
  bytes_of s <> [] /\ strconv.digits_value (bytes_of s) 0 = Some n.
Proof.
  unfold plain_start. rewrite <- (length_bytes_of s). unfold strconv.Atoi. destruct (bytes_of s) as [|c l] eqn:E; [done|]. intros Hp H. split; [done|].
  destruct (Ascii.eqb_spec c "-"%char) as [->|]; [destruct l; [done|]; by apply long_text in Hp|].
  destruct (Ascii.eqb_spec c "+"%char) as [->|]; [destruct l; [done|]; by apply long_text in Hp|].
  destruct (strconv.digits_value (c :: l) 0) as [v|]; [|done]. by destruct (strconv.signed_range v); [injection H as ->|].
Qed.

Lemma ParsePrefix_inv s p : ParsePrefix s = Ok p ->
  exists i n ip, strings.last_index_byte (bytes_of s) "/"%char = Some i /\ ParseAddr (strings.take i s) = Ok ip /\ has_zone ip = false /\
    plain_start (strings.drop (S i) s) = false /\ strconv.Atoi (strings.drop (S i) s) = Ok n /\ 0 <= n <= BitLen ip /\ p = MkPrefix ip n.
Proof.
  unfold ParsePrefix. destruct (strings.last_index_byte _ _) as [i|]; [|done]. intros H. inv_ok. bool_facts.
  eexists i, _, _. split_and!; try done; try lia.
  - unfold plain_start. by rewrite Z.gtb_ltb.
  - f_equal. destruct x as [| |b z]; try done. cbn in *. bool_facts. by subst.
Qed.

Lemma BitLen_cases a : BitLen a = 0 \/ BitLen a = 32 \/ BitLen a = 128.
Proof. destruct a; cbn; auto. Qed.

Lemma ParseCIDR_of_prefix s p : ParsePrefix s = Ok p ->
  ParseCIDR s = Ok (route_prefix p) /\ valid_prefix p = true /\ has_zone (Addr_of p) = false.
Proof.
  intros (i & n & ip & Hi & Hip & Hz & Hp & Hn & Hr & ->)%ParsePrefix_inv. pose proof (ParseAddr_plain _ _ Hip) as Hnz.
  split_and!; [|unfold valid_prefix; cbn; rewrite bool_decide_eq_false_2 by done; cbn; lia|done].
  unfold ParseCIDR. rewrite (index_of_last _ _ i Hi).
  - rewrite Hip. cbn [map_err mbind result_bind reject_if]. rewrite Hz. cbn [reject_if mbind result_bind].
    destruct (Atoi_digits _ _ Hp Hn) as [Hne Hd].
    rewrite (dtoi_digits _ 0 0 n Hd); [|lia|pose proof (BitLen_cases ip); lia|lia|done].
    rewrite <- length_bytes_of, Z.add_0_l, Z.eqb_refl. cbn [negb orb]. destruct (Z.gtb_spec n (BitLen ip)); [lia|]. done.
  - intros Hin. rewrite <- bytes_take in Hin. rewrite (ParseAddr_slash _ _ Hin Hip) in Hz. done.
Qed.

(** [p] covers [a]: as [Contains] says, after both are taken to IPv4 where they are
    IPv4-mapped. *)
Definition covers (p : Prefix) (a : Addr) : Prop :=
  Contains (if Is4In6 (Addr_of (Masked p)) then route_prefix p else p) a = true.

Lemma mapped_bits b n : 0 <= n <= 128 -> Is4In6 (Addr6 (mask b (128 - n)) "") = true -> 96 <= n.
Proof.
  cbn. unfold mask. intros Hn H%Z.eqb_eq. destruct (Z.le_gt_cases 96 n) as [|Hlt]; [done|exfalso].
  rewrite Z.shiftr_shiftl_l in H by lia. replace (128 - n - 32) with (Z.succ (95 - n)) in H by lia.
  assert (Ht : Z.testbit (Z.shiftl (Z.shiftr b (128 - n)) (Z.succ (95 - n))) 0 = Z.testbit 65535 0) by (by rewrite H).
  rewrite Z.shiftl_spec_low in Ht by lia. done.
Qed.

Lemma route_prefix_covers p a :
  valid_prefix p = true -> has_zone (Addr_of p) = false -> has_zone a = false -> a <> AddrZero ->
  IPNet_Contains (route_prefix p) a = true <-> covers p a.
Proof.
  intros Hv Hz Ha Hnz. apply valid_prefix_bits in Hv as [Hb Hp].
  assert (Hcore : forall q, valid_prefix q = true -> IPNet_Contains q a = true <-> Contains q a = true).
  { intros q Hq. rewrite Contains_spec. unfold IPNet_Contains. rewrite andb_true_iff, !Z.eqb_eq.
    assert (BitLen a <> 0) by (by destruct a). tauto. }
  unfold covers. destruct (Is4In6 (Addr_of (Masked p))) eqn:E6.
  - apply Hcore. unfold route_prefix. rewrite E6. destruct p as [[| |b z] n]; try done. cbn [Addr_of Bits Masked] in *.
    assert (z = "") as -> by (cbn in Hz; bool_facts; done).
    pose proof (mapped_bits b n) as Hm. unfold host_bits in E6. cbn in E6, Hm, Hb. specialize (Hm Hb E6).
    unfold Unmap, host_bits. cbn. rewrite E6. unfold valid_prefix. cbn. rewrite bool_decide_eq_false_2 by done. cbn. lia.
  - unfold route_prefix. rewrite E6. rewrite Contains_spec. unfold IPNet_Contains. rewrite andb_true_iff, !Z.eqb_eq.
    assert (Hl : BitLen a <> 0) by (by destruct a). cbn [Addr_of Bits].
    assert (He : host_bits (MkPrefix (Addr_of (Masked p)) (Bits p)) = host_bits p) by (unfold host_bits; cbn [Addr_of Bits]; by rewrite BitLen_Masked).
    rewrite He, BitLen_Masked, bits_of_Masked, decide_False by done.
    rewrite shiftr_mask by (unfold host_bits; lia).
    assert (Hvp : valid_prefix p = true) by (unfold valid_prefix; rewrite bool_decide_eq_false_2 by done; cbn; lia). tauto.
Qed.

(** ** Rules *)
Section Rules.
Context `{UN : !Unicode, GS : !GeoSource, MO : !MapOrder}.

(** [host] is [name] or one of its subdomains. *)
Definition within_domain (name host : string) : Prop := host = name \/ exists sub, host = sub +:+ "." +:+ name.

Definition from_country (code : string) (db : option Reader) (ip : Addr) : Prop :=
  if decide (code = "private") then IsPrivate ip = true \/ IsLoopback ip = true \/ IsLinkLocalUnicast ip = true
  else exists d country, db = Some d /\ geo_Country d ip = Ok country /\ strings.equal_fold_ascii country code = true.

(** When a rule is meant to apply to a host. *)
Definition applies (rule : RouteRule) (host : string) (ip : option Addr) (db : option Reader) : Prop :=
  Route_CIDRs rule = [] /\ Route_Domains rule = [] /\ Route_GeoIP rule = []
  \/ (exists v p a, v ∈ Route_CIDRs rule /\ ParsePrefix (strings.TrimSpace v) = Ok p /\ ip = Some a /\ covers p a)
  \/ (exists v, v ∈ Route_Domains rule /\ within_domain (domain_name v) host)
  \/ (exists v a, v ∈ Route_GeoIP rule /\ ip = Some a /\ from_country (strings.TrimSpace v) db a).

Lemma prefix_app a b : String.prefix a b = true <-> exists r, b = a +:+ r.
Proof.
  revert b. induction a as [|x a IH]; intros b.
  { split; [intros _; by exists b|intros _; by destruct b]. }
  destruct b as [|y b]; [by split; [|intros [r [=]]]|].
  change (String.prefix (String x a) (String y b)) with (if ascii_dec x y then String.prefix a b else false).
  destruct (ascii_dec x y) as [<-|Hne]; [|split; [discriminate|intros [r [=]]; by destruct Hne]].
  rewrite IH. split; intros [r Hr]; exists r; [by rewrite Hr|by injection Hr].
Qed.

Lemma HasSuffix_spec s p : strings.HasSuffix s p = true <-> exists r, s = r +:+ p.
Proof.
  unfold strings.HasSuffix. rewrite prefix_app. split.
  - intros [r Hr]. exists (of_bytes (rev (bytes_of r))).
    rewrite <- (string_of_list_ascii_of_string s), <- (string_of_list_ascii_of_string p), <- of_bytes_app. f_equal.
    rewrite <- (rev_involutive (bytes_of s)), <- (rev_involutive (bytes_of p)), <- rev_app_distr. f_equal.
    rewrite <- (list_ascii_of_string_of_list_ascii (rev (bytes_of s))), Hr, bytes_of_app. by rewrite list_ascii_of_string_of_list_ascii.
  - intros [r ->]. exists (of_bytes (rev (bytes_of r))). by rewrite bytes_of_app, rev_app_distr, of_bytes_app.
Qed.

Lemma domain_matches_spec v host : domain_matches v host = true <-> within_domain (domain_name v) host.
Proof. unfold domain_matches, within_domain. rewrite orb_true_iff, String.eqb_eq, HasSuffix_spec. done. Qed.

Lemma existsb_elem {A} (f : A -> bool) l : existsb f l = true <-> exists x, x ∈ l /\ f x = true.
Proof. rewrite existsb_exists. split; intros (x & Hx & Hf); exists x; (split; [by apply list_elem_of_In|done]). Qed.

(** A rule that validation let through. *)
Definition rule_ok (rule : RouteRule) : Prop := exists i seen seen', route_check i rule seen = Ok seen'.

Lemma rule_ok_facts rule : rule_ok rule ->
  Route_Destination rule ∈ ["direct"; "gateway"] /\
  (forall v, v ∈ Route_CIDRs rule -> exists p, ParsePrefix (strings.TrimSpace v) = Ok p) /\
  (forall v, v ∈ Route_GeoIP rule -> to_lower (strings.TrimSpace v) = strings.TrimSpace v).
Proof.
  intros (i & seen & seen' & H). unfold route_check in H. inv_ok.
  repeat match goal with Hc : check_each _ _ = Ok _ |- _ => rewrite unit_Ok, check_each_Forall, Forall_forall in Hc end.
  split_and!.
  - match goal with Hd : negb (in_strings _ _) = false |- _ => apply negb_false_iff, existsb_elem in Hd as (y & Hy & He) end.
    apply String.eqb_eq in He as ->. exact Hy.
  - intros v Hv.
    match goal with Hc : forall x, x ∈ Route_CIDRs rule -> _ |- _ => specialize (Hc v Hv) end. inv_ok. by eexists.
  - intros v Hv.
    match goal with Hc : forall x, x ∈ Route_GeoIP rule -> _ |- _ => specialize (Hc v Hv) end. inv_ok. bool_facts. done.
Qed.

Lemma cidr_matches_spec v p ip :
  ParsePrefix (strings.TrimSpace v) = Ok p -> (forall a, ip = Some a -> has_zone a = false /\ a <> AddrZero) ->
  cidr_matches v ip = true <-> exists a, ip = Some a /\ covers p a.
Proof.
  intros Hp Hip. unfold cidr_matches. destruct (ParseCIDR_of_prefix _ _ Hp) as (-> & Hv & Hz). destruct ip as [a|].
  - destruct (Hip a eq_refl) as [Ha Hnz]. rewrite route_prefix_covers by done. split; [by eexists|by intros (? & [= <-] & ?)].
  - split; [done|by intros (? & [=] & _)].
Qed.

Lemma geoip_matches_spec v ip db :
  to_lower (strings.TrimSpace v) = strings.TrimSpace v ->
  geoip_matches v ip db = true <-> exists a, ip = Some a /\ from_country (strings.TrimSpace v) db a.
Proof.
  intros Hv. unfold geoip_matches. rewrite Hv. destruct ip as [a|]; [|split; [done|by intros (? & [=] & _)]].
  transitivity (from_country (strings.TrimSpace v) db a); [|split; [by eexists|by intros (? & [= <-] & ?)]].
  unfold from_country. destruct (String.eqb_spec (strings.TrimSpace v) "private") as [E|E].
  - rewrite decide_True by done. rewrite !orb_true_iff. tauto.
  - rewrite decide_False by done. destruct db as [d|]; [|split; [done|by intros (? & ? & [=] & _)]].
    destruct (geo_Country d a) as [c|e] eqn:Ec.
    + split; [intros H; by exists d, c|]. intros (d' & c' & [= <-] & Hc & He). rewrite Hc in Ec. by simplify_eq.
    + split; [done|]. intros (d' & c' & [= <-] & Hc & He). rewrite Hc in Ec. by simplify_eq.
Qed.

Lemma routeMatches_spec rule host ip db :
  rule_ok rule -> (forall a, ip = Some a -> has_zone a = false /\ a <> AddrZero) ->
  routeMatches rule host ip db = true <-> applies rule host ip db.
Proof.
  intros (_ & Hc & Hg)%rule_ok_facts Hip.
  assert (Hm : existsb (fun value => cidr_matches value ip) (Route_CIDRs rule)
      || existsb (fun value => domain_matches value host) (Route_Domains rule)
      || existsb (fun value => geoip_matches value ip db) (Route_GeoIP rule) = true <->
    (exists v p a, v ∈ Route_CIDRs rule /\ ParsePrefix (strings.TrimSpace v) = Ok p /\ ip = Some a /\ covers p a)
    \/ (exists v, v ∈ Route_Domains rule /\ within_domain (domain_name v) host)
    \/ (exists v a, v ∈ Route_GeoIP rule /\ ip = Some a /\ from_country (strings.TrimSpace v) db a)).
  { assert (H1 : existsb (fun value => cidr_matches value ip) (Route_CIDRs rule) = true <->
      exists v p a, v ∈ Route_CIDRs rule /\ ParsePrefix (strings.TrimSpace v) = Ok p /\ ip = Some a /\ covers p a).
    { rewrite existsb_elem. split.
      - intros (v & Hv & H). destruct (Hc v Hv) as [p Hp]. destruct (proj1 (cidr_matches_spec v p ip Hp Hip) H) as (a & Ha & Hcov). by exists v, p, a.
      - intros (v & p & a & Hv & Hp & Ha & Hcov). exists v. split; [done|]. apply (cidr_matches_spec v p ip Hp Hip). by exists a. }
    assert (H2 : existsb (fun value => domain_matches value host) (Route_Domains rule) = true <->
      exists v, v ∈ Route_Domains rule /\ within_domain (domain_name v) host).
    { rewrite existsb_elem. by setoid_rewrite domain_matches_spec. }
    assert (H3 : existsb (fun value => geoip_matches value ip db) (Route_GeoIP rule) = true <->
      exists v a, v ∈ Route_GeoIP rule /\ ip = Some a /\ from_country (strings.TrimSpace v) db a).
    { rewrite existsb_elem. split.
      - intros (v & Hv & H). apply geoip_matches_spec in H as (a & Ha & Hf); [|by apply Hg]. by exists v, a.
      - intros (v & a & Hv & Ha & Hf). exists v. split; [done|]. apply geoip_matches_spec; [by apply Hg|]. by exists a. }
    rewrite !orb_true_iff. tauto. }
  unfold applies, routeMatches. rewrite <- Hm.
  destruct (Route_CIDRs rule), (Route_Domains rule), (Route_GeoIP rule); try (split; [by right|]; intros [(? & ? & ?)|H]; done).
  split; [by left|done].
Qed.

(** ** The selected route *)
Definition no_rule (rules : list RouteRule) (host : string) (ip : option Addr) (db : option Reader) : Prop :=
  Forall (fun r => Route_Enabled r = true -> ~ applies r host ip db) rules.

Lemma first_route_spec rules host ip db :
  Forall rule_ok rules -> (forall a, ip = Some a -> has_zone a = false /\ a <> AddrZero) ->
  (exists before rule after, rules = before ++ rule :: after /\ no_rule before host ip db /\
     Route_Enabled rule = true /\ applies rule host ip db /\ first_route rules host ip db = Route_Destination rule)
  \/ no_rule rules host ip db /\ first_route rules host ip db = "direct".
Proof.
  intros Hok Hip. induction Hok as [|rule rules Hr Hok IH]; [right; split; [constructor|done]|]. cbn [first_route].
  pose proof (routeMatches_spec rule host ip db Hr Hip) as Hm.
  destruct (Route_Enabled rule && routeMatches rule host ip db) eqn:E.
  - apply andb_true_iff in E as [He Ha%Hm]. left. exists [], rule, rules. split_and!; [done|constructor|done|done|].
    destruct (rule_ok_facts rule Hr) as (Hd & _). rewrite !elem_of_cons, elem_of_nil in Hd.
    destruct Hd as [->|[->|[]]]; by rewrite to_lower_ascii by reflexivity.
  - assert (Hno : Route_Enabled rule = true -> ~ applies rule host ip db) by (intros He Ha%Hm; by rewrite He, Ha in E).
    destruct IH as [(before & r & after & -> & Hb & He & Ha & Hf)|[Hn Hf]].
    + left. exists (rule :: before), r, after. split_and!; [done|by constructor|done|done|done].
    + right. split; [by constructor|done].
Qed.

Lemma Agent_Validate_rules spec : Agent_Validate spec = Ok tt -> Forall rule_ok (Agent_Routes spec).
Proof.
  unfold Agent_Validate. intros H. inv_ok.
  match goal with Hl : for_each route_check _ _ _ = Ok _ |- _ => apply for_each_body in Hl as Hf end.
  eapply Forall_impl; [exact Hf|]. intros rule (j & s1 & s2 & Hj). by exists j, s1, s2.
Qed.

(** For a spec that passed validation and a target with a host and a port, the
    selected route is the destination, direct or gateway, of the first enabled rule
    that applies to the host, and direct when none does.  Every network of such a rule
    is honoured: the parser used here reads it as the parser that validated it did. *)
Theorem route_selected spec target host port resolver now :
  Agent_Validate spec = Ok tt -> SplitHostPort target = Ok (host, port) ->
  let name := target_host host in
  let ip := ParseIP (strings.Trim name brackets) in
  let db := (snd (reader resolver now)).1 in
  let route := snd (SelectRouteWithResolver spec target resolver now) in
  (exists before rule after, Agent_Routes spec = before ++ rule :: after /\ no_rule before name ip db /\
     Route_Enabled rule = true /\ applies rule name ip db /\ route = Route_Destination rule /\
     route ∈ ["direct"; "gateway"])
  \/ no_rule (Agent_Routes spec) name ip db /\ route = "direct".
Proof.
  intros Hv%Agent_Validate_rules Ht. cbv zeta. unfold SelectRouteWithResolver. rewrite Ht.
  destruct (reader resolver now) as [r [db err]]. cbn [fst snd].
  destruct (first_route_spec (Agent_Routes spec) (target_host host) (ParseIP (strings.Trim (target_host host) brackets)) db Hv)
    as [(before & rule & after & E & Hb & He & Ha & Hf)|H]; [by intros a (? & ? & _)%ParseIP_plain| |by right].
  left. exists before, rule, after. split_and!; try done. rewrite Hf.
  rewrite E, Forall_app, Forall_cons in Hv. destruct Hv as (_ & Hr & _). by apply rule_ok_facts in Hr as [Hd _].
Qed.

(** The GeoIP database is read at most once, whatever time passes; one that is
    used was a regular file that was not older than the limit when it was read; and
    after a failure no database is used. *)
Theorem geoip_loaded_once path maxAge now later db err r :
  reader (Some (NewGeoIPResolverWithMaxAge path maxAge)) now = (r, (db, err)) ->
  reader r later = (r, (db, err)) /\
  (forall d, db = Some d -> err = None /\ exists modified data,
     geo_Stat (strings.TrimSpace path) = Ok (true, modified) /\ geo_ReadFile (strings.TrimSpace path) = Ok data /\
     geo_FromBytes data = Ok d /\ time_sub now modified <= (if maxAge <=? 0 then defaultGeoIPMaxAge else maxAge)) /\
  (err <> None -> db = None).
Proof.
  cbn. intros [= <- Hload]. cbn. rewrite Hload. cbn. split; [by rewrite orb_diag|].
  revert Hload. unfold load. cbn. destruct (String.eqb (strings.TrimSpace path) ""); [by intros [= <- <-]|].
  destruct (geo_Stat (strings.TrimSpace path)) as [[[] modified]|e]; cbn; [| by intros [= <- <-] ..].
  destruct (Z.gtb_spec (time_sub now modified) (if maxAge <=? 0 then defaultGeoIPMaxAge else maxAge)); [by intros [= <- <-]|].
  destruct (geo_ReadFile (strings.TrimSpace path)) as [data|e]; [|by intros [= <- <-]].
  destruct (geo_FromBytes data) as [d|e] eqn:Ed; intros [= <- <-]; [|done]. split; [|done].
  intros ? [= <-]. split; [done|]. by exists modified, data.
Qed.
End Rules.

(** ** A sample database and spec *)
Module RoutingSamples.
(** One database, dated second 1000, that knows 8.0.0.0/8. *)
Definition toy_geo : GeoSource := {|
  Reader := list ascii;
  geo_Stat := fun path => if String.eqb path "/geo.mmdb" then Ok (true, 1000000000000) else Err (EExternal "stat");
  geo_ReadFile := fun _ => Ok (bytes_of "US");
  geo_FromBytes := Ok;
  geo_Country := fun db ip => if in_block ip 32 8 8 then Ok (of_bytes db) else Err (EExternal "country")
|}.
#[local] Existing Instances toy_geo Samples.ascii_unicode Samples.go_order.

Definition rule (name : string) (cidrs domains geoip : list string) (destination : string) : RouteRule :=
  MkRouteRule name cidrs domains geoip destination true.

Definition routed_spec : AgentSpec :=
  MkAgentSpec "agent-1" "" (MkSelector None) []
    [rule "lab" ["10.0.0.0/8"; "::ffff:11.0.0.0/104"] [] [] "gateway"; rule "corp" [] ["corp.example"] [] "gateway"; rule "us" [] [] ["us"] "gateway"]
    (MkAgentLimits 0 0 0) (MkEgressPolicy false [] [] [] [] 0) (MkLoggingPolicy "" "") 1.

Definition routes (resolver : option GeoIPResolver) (targets : list string) : list string :=
  (fun t => snd (SelectRouteWithResolver routed_spec t resolver 2000000000000)) <$> targets.

Example routes_example :
  routes (Some (NewGeoIPResolver "/geo.mmdb")) ["10.1.2.3:80"; "11.1.2.3:80"; "12.1.2.3:80"; "Git.Corp.Example.:22"; "corp.example:22"; "notcorp.example:22"; "8.8.8.8:53"; "[::ffff:10.0.0.1]:1"; "[fe80::1%eth0]:1"] =
  ["gateway"; "gateway"; "direct"; "gateway"; "gateway"; "direct"; "gateway"; "gateway"; "direct"] /\
  routes (Some (NewGeoIPResolver "/missing")) ["8.8.8.8:53"] = ["direct"].
Proof. vm_compute. split; reflexivity. Qed.

Lemma route_selected_witness :
  exists r, r ∈ Agent_Routes routed_spec /\ applies r "10.1.2.3" (Some (Addr4 167838211)) None.
Proof.
  assert (Hv : Agent_Validate routed_spec = Ok tt) by (vm_compute; reflexivity).
  assert (Hip : ParseIP (strings.Trim (target_host "10.1.2.3") brackets) = Some (Addr4 167838211)) by (vm_compute; reflexivity).
  destruct (route_selected routed_spec "10.1.2.3:80" "10.1.2.3" "80" None 5 Hv eq_refl) as [(b & r & a & E & _ & _ & Ha & _)|[_ Hd]].
  - exists r. split; [rewrite E; set_solver|]. rewrite Hip in Ha. exact Ha.
  - vm_compute in Hd. discriminate.
Defined.

Lemma geoip_loaded_once_witness :
  let r := fst (reader (Some (NewGeoIPResolverWithMaxAge "/geo.mmdb" 0)) 2000000000000) in
  reader r (10 ^ 30) = (r, (Some (bytes_of "US"), None)).
Proof.
  cbv zeta. refine (proj1 (geoip_loaded_once "/geo.mmdb" 0 2000000000000 (10 ^ 30) (Some (bytes_of "US")) None _ _)).
  vm_compute. reflexivity.
Defined.
End RoutingSamples.
