(* ===== verification/Proxy.v ===== *)
(** * Local proxies of an Agent (src/internal/dataplane/proxy.go)

    The checks before a proxy entrance is served, and what is said on one client
    connection until its tunnel starts: SOCKS5, HTTP CONNECT and plain HTTP.  The
    client is the bytes it sends; the dialer, the HTTP parser and failing writes are
    parameters. *)
From S2P Require Import Prelude Effects GoStd GoNet Domain Validation Datagram Engine.
Import netip.

Definition proxyHandshakeLimit : Z := 65536.
Definition proxyTargetLimit : Z := 2048.

(** ** Admission of an entrance *)
Definition blank_tab_cr_lf : list ascii := ["032"; "009"; "013"; "010"]%char.

Definition validateProxyBind (value : string) : result unit :=
  let malformed := ENew "proxy bind must be host:port" in
  '(host, portText) ← map_err (fun _ => malformed) (net.SplitHostPort value);
  _ ← reject_if (String.eqb (strings.TrimSpace host) "" || negb (String.eqb (strings.TrimSpace host) host)
                 || strings.ContainsAny host blank_tab_cr_lf) malformed;
  let range := ENew "proxy bind port must be between 1 and 65535" in
  port ← map_err (fun _ => range) (strconv.Atoi portText);
  reject_if ((port <? 1) || (port >? 65535) || strings.ContainsAny portText blank_tab_cr_lf) range.

(** The entrance with the id of [proxy] among the configured ones. *)
Fixpoint check_configured (proxies : list ProxySpec) (proxy : ProxySpec) : result unit :=
  match proxies with
  | [] => Err (ENew "proxy is not present in the applied agent spec")
  | configured :: proxies =>
      if String.eqb (Proxy_ID configured) (Proxy_ID proxy) then
        _ ← reject_if (negb (String.eqb (Proxy_Protocol configured) (Proxy_Protocol proxy))
                       || negb (String.eqb (Proxy_Bind configured) (Proxy_Bind proxy)))
              (ENew "proxy does not match the applied agent spec");
        reject_if (negb (Proxy_Enabled configured)) (ENew "proxy is disabled")
      else check_configured proxies proxy
  end.

Definition validateProxyForEngine (engine : Engine) (proxy : ProxySpec) : result unit :=
  _ ← ValidateID (Proxy_ID proxy) (TLit "proxy.id");
  _ ← reject_if (negb (String.eqb (Proxy_Protocol proxy) "http") && negb (String.eqb (Proxy_Protocol proxy) "socks5"))
        (ENew "proxy protocol must be http or socks5");
  _ ← validateProxyBind (Proxy_Bind proxy);
  match AgentSpec_of engine with
  | None => Err (ENew "agent proxy spec is not applied")
  | Some spec => check_configured (Agent_Proxies spec) proxy
  end.

(** ** Targets *)
Definition space_tab : list ascii := ["032"; "009"]%char.

Definition normalizeHostPort (value : string) : result string :=
  let malformed := ENew "target must be host:port" in
  _ ← reject_if (negb (String.eqb (strings.TrimSpace value) value) || (slen value =? 0) || (slen value >? proxyTargetLimit)
                 || strings.ContainsAny value nul_cr_lf) malformed;
  '(host, portText) ← map_err (fun _ => malformed) (net.SplitHostPort value);
  _ ← reject_if (String.eqb (strings.TrimSpace host) "" || negb (String.eqb host (strings.TrimSpace host))
                 || strings.ContainsAny host space_tab || strings.ContainsAny portText space_tab) malformed;
  let invalid := ENew "target port is invalid" in
  port ← map_err (fun _ => invalid) (strconv.Atoi portText);
  _ ← reject_if ((port <? 1) || (port >? 65535)) invalid;
  Ok (net.JoinHostPort host (strconv.Itoa port)).

Definition normalizeHTTPConnectTarget (value : string) : result string :=
  _ ← reject_if ((slen value =? 0) || (slen value >? proxyTargetLimit) || strings.ContainsAny value nul_cr_lf)
        (ENew "HTTP CONNECT target is invalid");
  normalizeHostPort value.

(** The parts of a [url.URL] that are used; [Hostname] and [Port] split its host. *)
Record URL := MkURL { Scheme : string; URL_Host : string; URL_RequestURI : string }.

Definition validOptionalPort (l : list ascii) : bool :=
  match l with
  | [] => true
  | c :: l => Ascii.eqb c ":"%char && forallb is_digit l
  end.

Definition url_split (hostPort : string) : string * string :=
  let l := bytes_of hostPort in
  let '(host, port) :=
    match strings.last_index_byte l ":"%char with
    | Some colon => if validOptionalPort (skipn colon l) then (firstn colon l, skipn (S colon) l) else (l, [])
    | None => (l, [])
    end in
  let host := match host with
              | "["%char :: rest => if match last rest with Some c => Ascii.eqb c "]"%char | None => false end
                                    then removelast rest else host
              | _ => host
              end in
  (of_bytes host, of_bytes port).

Definition Hostname (u : URL) : string := (url_split (URL_Host u)).1.
Definition Port (u : URL) : string := (url_split (URL_Host u)).2.

Section Targets.
Context `{UN : !Unicode}.

Definition normalizeHTTPURLTarget (value : option URL) : result string :=
  let invalid := ENew "HTTP target is invalid" in
  match value with
  | None => Err invalid
  | Some value =>
      _ ← reject_if ((slen (URL_Host value) =? 0) || (slen (URL_Host value) >? proxyTargetLimit)
                     || strings.ContainsAny (URL_Host value) nul_cr_lf) invalid;
      let scheme := to_lower (strings.TrimSpace (Scheme value)) in
      _ ← reject_if (negb (String.eqb scheme "http") && negb (String.eqb scheme "https")) (ENew "HTTP scheme is unsupported");
      let port := Port value in
      let port := if String.eqb port "" then (if String.eqb scheme "http" then "80" else "443") else port in
      normalizeHostPort (net.JoinHostPort (Hostname value) port)
  end.
End Targets.

(** ** One client connection *)
Record wire := MkWire {
  input : list ascii;           (* what the client sends, to its end *)
  sent : list (list ascii);     (* what was written to the client *)
  dialed : list (string * string);
  deadline : bool;              (* the handshake deadline is set *)
  write_faults : list bool      (* whether the next writes fail; none after the list *)
}.
Abbreviation IO A := (M wire A).

Definition connection (bytes : list ascii) (faults : list bool) : wire := MkWire bytes [] [] false faults.

Definition set_input (l : list ascii) (w : wire) : wire := MkWire l (sent w) (dialed w) (deadline w) (write_faults w).

(** [conn.SetDeadline]. *)
Definition set_deadline (on : bool) : IO unit :=
  fun w => (MkWire (input w) (sent w) (dialed w) on (write_faults w), Ok tt).

Definition read_full (n : nat) : IO (list ascii) := fun w =>
  if (n <=? List.length (input w))%nat then (set_input (skipn n (input w)) w, Ok (firstn n (input w)))
  else (set_input [] w, Err (EExternal (if (List.length (input w) =? 0)%nat then "io.EOF" else "io.ErrUnexpectedEOF"))).

Definition write_bytes (l : list ascii) : IO unit := fun w =>
  let '(fault, faults) := match write_faults w with [] => (false, []) | f :: fs => (f, fs) end in
  if fault then (MkWire (input w) (sent w) (dialed w) (deadline w) faults, Err (EExternal "conn.Write"))
  else (MkWire (input w) (sent w ++ [l]) (dialed w) (deadline w) faults, Ok tt).

Section Handlers.
Context (dial : string -> string -> result unit).

Definition dial_upstream (target route : string) : IO unit := fun w =>
  (MkWire (input w) (sent w) (dialed w ++ [(target, route)]) (deadline w) (write_faults w), dial target route).

(** The bytes that the tunnel starts with: what was read ahead and what is still to
    come, in order. *)
Definition start_tunnel : IO (list ascii) := fun w => (w, Ok (input w)).

(** *** SOCKS5 *)
Definition byte (z : Z) : ascii := byte_of_Z z.

Definition writeSOCKS5Reply (code : Z) : IO unit := write_bytes (byte <$> [5; code; 0; 1; 0; 0; 0; 0; 0; 0]).

Definition domain_error : error := ENew "SOCKS5 domain is invalid".

Definition readSOCKS5Address (atyp : Z) : IO string :=
  if atyp =? 1 then value ← read_full 4; mret (addr_string (Addr4 (be_get value)))
  else if atyp =? 4 then value ← read_full 16; mret (addr_string (Unmap (Addr6 (be_get value) "")))
  else if atyp =? 3 then
    length ← read_full 1;
    let n := be_get length in
    if (n =? 0) || (n >? 253) then fail domain_error else
    value ← read_full (Z.to_nat n);
    if strings.ContainsAny (of_bytes value) (nul_cr_lf ++ space_tab) then fail domain_error else mret (of_bytes value)
  else fail (ENew "SOCKS5 address type is unsupported").

Definition nth_byte (l : list ascii) (i : nat) : Z := byte_val (nth i l "000"%char).

(** A reply, and the error that ends the handler. *)
Definition refuse {A} (code : Z) (e : error) : IO A := _ ← try (writeSOCKS5Reply code); fail e.

Definition read_greeting : IO unit :=
  header ← read_full 2;
  if negb (nth_byte header 0 =? 5) || (nth_byte header 1 =? 0) then fail (ENew "invalid SOCKS5 greeting") else
  methods ← read_full (Z.to_nat (nth_byte header 1));
  if negb (existsb (fun m => byte_val m =? 0) methods) then
    _ ← try (write_bytes (byte <$> [5; 255])); fail (ENew "SOCKS5 client does not offer no-auth")
  else write_bytes (byte <$> [5; 0]).

Definition read_request : IO string :=
  header ← read_full 4;
  if negb (nth_byte header 0 =? 5) then fail (ENew "invalid SOCKS5 request") else
  if negb (nth_byte header 1 =? 1) then refuse 7 (ENew "SOCKS5 command is unsupported") else
  if negb (nth_byte header 2 =? 0) then refuse 1 (ENew "SOCKS5 reserved byte is invalid") else
  a ← try (readSOCKS5Address (nth_byte header 3));
  match a with
  | Err e => refuse 8 e
  | Ok host =>
      portBytes ← read_full 2;
      let port := be_get portBytes in
      if port =? 0 then refuse 8 (ENew "SOCKS5 target port is zero")
      else mret (net.JoinHostPort host (strconv.Itoa port))
  end.

Definition handleSOCKS5WithBuffer (proxy : ProxySpec) : IO (list ascii) :=
  _ ← set_deadline true;
  _ ← read_greeting;
  target ← read_request;
  upstream ← try (dial_upstream target (Proxy_Route proxy));
  match upstream with
  | Err e => refuse 5 e
  | Ok _ => _ ← set_deadline false; _ ← writeSOCKS5Reply 0; start_tunnel
  end.

(** *** HTTP *)
Record Request := MkRequest { Method : string; Host : string; Req_URL : option URL; RequestURI : string; Header : gmap string (list string) }.

(** [http.ReadRequest] takes a request off the front of the input; [Request.Write]
    may fail.  Header keys are in canonical form. *)
Class HTTP := {
  ReadRequest : list ascii -> result (Request * list ascii);
  WriteRequest : Request -> result unit
}.
Context `{!HTTP, UN : !Unicode}.

Definition writeHTTPProxyError (code : Z) (message : string) : IO unit :=
  r ← try (write_bytes (bytes_of ("HTTP/1.1 " +:+ pretty code +:+ " " +:+ message +:+
    of_bytes ["013"; "010"]%char +:+ "Connection: close" +:+ of_bytes ["013"; "010"]%char +:+ "Content-Length: 0"
    +:+ of_bytes ["013"; "010"; "013"; "010"]%char)));
  mret tt.

Definition bad_request {A} (e : error) : IO A := _ ← writeHTTPProxyError 400 "Bad Request"; fail e.
Definition bad_gateway {A} (e : error) : IO A := _ ← writeHTTPProxyError 502 "Bad Gateway"; fail e.

Definition connection_established : list ascii :=
  bytes_of ("HTTP/1.1 200 Connection Established" +:+ of_bytes ["013"; "010"; "013"; "010"]%char).

(** The request as it goes upstream. *)
Definition forwarded (request : Request) (u : URL) : Request :=
  MkRequest (Method request) (Host request) (Some (MkURL "" "" (URL_RequestURI u))) (URL_RequestURI u)
    (delete "Proxy-Connection" (delete "Proxy-Authorization" (Header request))).

Definition read_http : IO Request := fun w =>
  match ReadRequest (input w) with
  | Ok (request, rest) => (set_input rest w, Ok request)
  | Err e => (set_input [] w, Err e)
  end.

(** The tunnel's first bytes, and the request written upstream before it. *)
Definition handleHTTPProxyWithBuffer (proxy : ProxySpec) : IO (list ascii * option Request) :=
  _ ← set_deadline true;
  r ← try read_http;
  match r with
  | Err e => bad_request e
  | Ok request =>
      if String.eqb (Method request) "CONNECT" then
        match normalizeHTTPConnectTarget (Host request) with
        | Err e => bad_request e
        | Ok target =>
            upstream ← try (dial_upstream target (Proxy_Route proxy));
            match upstream with
            | Err e => bad_gateway e
            | Ok _ =>
                _ ← set_deadline false; _ ← try (write_bytes connection_established);
                rest ← start_tunnel; mret (rest, None)
            end
        end
      else
      match Req_URL request with
      | None => bad_request (ENew "HTTP proxy requests must use an absolute URL")
      | Some u =>
          if String.eqb (Scheme u) "" || String.eqb (URL_Host u) "" then
            bad_request (ENew "HTTP proxy requests must use an absolute URL")
          else
          match normalizeHTTPURLTarget (Some u) with
          | Err e => bad_request e
          | Ok target =>
              upstream ← try (dial_upstream target (Proxy_Route proxy));
              match upstream with
              | Err e => bad_gateway e
              | Ok _ =>
                  _ ← set_deadline false;
                  _ ← lift (WriteRequest (forwarded request u));
                  rest ← start_tunnel; mret (rest, Some (forwarded request u))
              end
          end
      end
  end.
End Handlers.
