(* ===== verification/ProxyFacts.v ===== *)
(** * What the local proxies guarantee

    A SOCKS5 conversation leads to a dial exactly when it is a CONNECT request without
    authentication for a valid target, and the tunnel starts with the bytes that follow
    it; an HTTP proxy dials only well-formed targets and forwards no proxy headers. *)
From S2P Require Import Prelude Effects GoStd GoNet Domain Validation Snapshot SnapshotFacts Datagram Engine Proxy Samples.
Import netip.

(** ** SOCKS5 on the wire *)
(** The address of a request, and the host it names. *)
Inductive address_bytes : list ascii -> string -> Prop :=
| wire_ipv4 v : List.length v = 4%nat -> address_bytes (byte 1 :: v) (addr_string (Addr4 (be_get v)))
| wire_ipv6 v : List.length v = 16%nat -> address_bytes (byte 4 :: v) (addr_string (Unmap (Addr6 (be_get v) "")))
| wire_name v : (1 <= List.length v <= 253)%nat -> strings.ContainsAny (of_bytes v) (nul_cr_lf ++ space_tab) = false ->
    address_bytes (byte 3 :: byte (llen v) :: v) (of_bytes v).

(** A client that offers [methods], asks for [addr] and [port], and goes on with [rest]. *)
Definition conversation (methods addr : list ascii) (port : Z) (rest : list ascii) : list ascii :=
  byte 5 :: byte (llen methods) :: methods ++ [byte 5; byte 1; byte 0] ++ addr ++ be_put 2 port ++ rest.

Lemma read_full_Ok n w w' l : read_full n w = (w', Ok l) ->
  input w = l ++ input w' /\ List.length l = n /\ w' = set_input (input w') w.
Proof.
  unfold read_full. destruct (Nat.leb_spec n (List.length (input w))); [|done]. intros [= <- <-]. cbn.
  split_and!; [by rewrite take_drop|rewrite length_firstn; lia|done].
Qed.

Lemma read_full_app n l rest w : input w = l ++ rest -> List.length l = n -> read_full n w = (set_input rest w, Ok l).
Proof.
  intros Hw <-. unfold read_full. rewrite Hw, length_app. destruct (Nat.leb_spec (List.length l) (List.length l + List.length rest)); [|lia].
  by rewrite take_app_length, drop_app_length.
Qed.

Lemma set_input_twice a b w : set_input a (set_input b w) = set_input a w.
Proof. done. Qed.
Lemma set_input_same w : set_input (input w) w = w.
Proof. by destruct w. Qed.

Lemma byte_val_byte z : 0 <= z < 256 -> byte_val (byte z) = z.
Proof. intros Hz. unfold byte. rewrite byte_val_of_Z. by apply Z.mod_small. Qed.

Lemma byte_of_val c z : byte_val c = z -> c = byte z.
Proof. intros <-. symmetry. apply byte_of_Z_val. Qed.

Lemma be_get_single c : be_get [c] = byte_val c.
Proof. cbn. lia. Qed.

Lemma mret_Ok {R A} (a b : A) (w w' : R) : mret (M := M R) a w = (w', Ok b) -> w' = w /\ b = a.
Proof. by intros [= -> ->]. Qed.

Lemma readSOCKS5Address_Ok atyp w w' host :
  0 <= atyp < 256 -> readSOCKS5Address atyp w = (w', Ok host) ->
  exists addr, address_bytes (byte atyp :: addr) host /\ input w = addr ++ input w' /\ w' = set_input (input w') w.
Proof.
  intros Hr. unfold readSOCKS5Address.
  destruct (Z.eqb_spec atyp 1) as [->|_]; [|destruct (Z.eqb_spec atyp 4) as [->|_]; [|destruct (Z.eqb_spec atyp 3) as [->|_]; [|done]]].
  - intros [(v & w1 & (Hi & Hl & Hw)%read_full_Ok & [-> ->]%mret_Ok)|(e & _ & [=])]%M_bind_run.
    exists v. split_and!; [apply wire_ipv4; exact Hl|exact Hi|exact Hw].
  - intros [(v & w1 & (Hi & Hl & Hw)%read_full_Ok & [-> ->]%mret_Ok)|(e & _ & [=])]%M_bind_run.
    exists v. split_and!; [apply wire_ipv6; exact Hl|exact Hi|exact Hw].
  - intros [(c & w1 & (Hi & Hl & Hw)%read_full_Ok & H)|(e & _ & [=])]%M_bind_run.
    destruct c as [|c [|]]; try done. rewrite be_get_single in H. pose proof (byte_val_range c) as Hc.
    destruct (Z.eqb_spec (byte_val c) 0); [done|]. destruct (Z.gtb_spec (byte_val c) 253); [done|]. cbn [orb] in H.
    apply M_bind_run in H as [(v & w2 & (Hi2 & Hl2 & Hw2)%read_full_Ok & H)|(e & _ & [=])].
    destruct (strings.ContainsAny _ _) eqn:Ea; [done|]. apply mret_Ok in H as [-> ->].
    exists (byte (llen v) :: v). split_and!.
    + apply wire_name; [lia|exact Ea].
    + rewrite Hi, Hi2. cbn. do 2 f_equal. apply byte_of_val. lia.
    + rewrite Hw2, Hw. done.
Qed.

Lemma readSOCKS5Address_wire atyp addr host rest w :
  0 <= atyp < 256 -> address_bytes (byte atyp :: addr) host -> input w = addr ++ rest ->
  readSOCKS5Address atyp w = (set_input rest w, Ok host).
Proof.
  intros Hr Ha Hw. inversion Ha as [v Hl E|v Hl E|v Hl Hc E]; subst; apply (f_equal byte_val) in E; rewrite !byte_val_byte in E by lia; subst.
  - unfold readSOCKS5Address. cbn [Z.eqb Pos.eqb]. cbv [mbind M_bind]. by rewrite (read_full_app 4 addr rest).
  - unfold readSOCKS5Address. cbn [Z.eqb Pos.eqb]. cbv [mbind M_bind]. by rewrite (read_full_app 16 addr rest).
  - unfold readSOCKS5Address. cbn [Z.eqb Pos.eqb]. cbv [mbind M_bind].
    rewrite (read_full_app 1 [byte (llen v)] (v ++ rest)) by done. rewrite be_get_single, byte_val_byte by lia.
    destruct (Z.eqb_spec (llen v) 0); [lia|]. destruct (Z.gtb_spec (llen v) 253); [lia|]. cbn [orb].
    rewrite (read_full_app _ v rest) by (done || lia). by rewrite Hc, set_input_twice.
Qed.

(** ** No dial before the request is complete *)
Definition quiet {A} (m : IO A) : Prop := forall d, hoare (fun w => dialed w = d) m (fun _ w => dialed w = d).

Lemma quiet_bind {A B} (m : IO A) (f : A -> IO B) : quiet m -> (forall a, quiet (f a)) -> quiet (m ≫= f).
Proof. intros Hm Hf d. apply (hoare_bind _ _ _ (fun _ w => dialed w = d)); [|intros a; apply Hf]. intros w Hw. specialize (Hm d w Hw). by destruct (m w) as [? []]. Qed.
Lemma quiet_try {A} (m : IO A) : quiet m -> quiet (try m).
Proof. intros Hm d. apply hoare_try. apply Hm. Qed.
Lemma quiet_ret {A} (a : A) : quiet (mret a).
Proof. by intros d w. Qed.
Lemma quiet_fail {A} e : quiet (fail (A := A) e).
Proof. by intros d w. Qed.
Lemma quiet_lift {A} (r : result A) : quiet (lift r).
Proof. by intros d w. Qed.
Lemma quiet_read n : quiet (read_full n).
Proof. intros d w <-. unfold read_full. by case_match. Qed.
Lemma quiet_write l : quiet (write_bytes l).
Proof. intros d w <-. unfold write_bytes. by destruct (write_faults w) as [|[] fs]. Qed.
Lemma quiet_deadline b : quiet (set_deadline b).
Proof. by intros d w. Qed.
Lemma quiet_tunnel : quiet start_tunnel.
Proof. by intros d w. Qed.

#[local] Hint Resolve quiet_bind quiet_try quiet_ret quiet_fail quiet_lift quiet_read quiet_write quiet_deadline quiet_tunnel : quiet.
Ltac quiet := repeat first [progress (eauto 2 with quiet) | apply quiet_bind; [|intros ?] | apply quiet_try | case_match].

Lemma quiet_refuse {A} z e : quiet (refuse (A := A) z e).
Proof. unfold refuse, writeSOCKS5Reply. quiet. Qed.
#[local] Hint Resolve quiet_refuse : quiet.

Lemma quiet_greeting : quiet read_greeting.
Proof. unfold read_greeting. quiet. Qed.
Lemma quiet_address atyp : quiet (readSOCKS5Address atyp).
Proof. unfold readSOCKS5Address. quiet. Qed.
#[local] Hint Resolve quiet_address : quiet.
Lemma quiet_request : quiet read_request.
Proof. unfold read_request. quiet. Qed.

Lemma quiet_run {A} (m : IO A) w w' r : quiet m -> m w = (w', r) -> dialed w' = dialed w.
Proof. intros Hm H. specialize (Hm (dialed w) w eq_refl). by rewrite H in Hm. Qed.

(** ** The handshake *)
Lemma write_bytes_Ok l w w' u : write_bytes l w = (w', Ok u) -> input w' = input w.
Proof. unfold write_bytes. destruct (write_faults w) as [|[] fs]; [|done|]; by intros [= <- _]. Qed.

Lemma existsb_zero methods : existsb (fun m => byte_val m =? 0) methods = true <-> byte 0 ∈ methods.
Proof.
  rewrite existsb_exists. split.
  - intros (m & Hm & Hz%Z.eqb_eq%byte_of_val). apply list_elem_of_In in Hm. by rewrite <- Hz.
  - intros Hin. exists (byte 0). split; [by apply list_elem_of_In|]. by rewrite byte_val_byte by lia.
Qed.

Definition methods_ok (methods : list ascii) : Prop := 1 <= llen methods <= 255 /\ byte 0 ∈ methods.

Lemma read_greeting_Ok w w' u : read_greeting w = (w', Ok u) ->
  exists methods, methods_ok methods /\ input w = byte 5 :: byte (llen methods) :: methods ++ input w'.
Proof.
  unfold read_greeting. intros [(h & w1 & (Hi & Hl & _)%read_full_Ok & H)|(e & _ & [=])]%M_bind_run.
  destruct h as [|a [|b [|]]]; try done. cbn [nth_byte nth] in H. unfold nth_byte in H. cbn [nth] in H.
  destruct (Z.eqb_spec (byte_val a) 5) as [Ha%byte_of_val|]; [|done]. destruct (Z.eqb_spec (byte_val b) 0); [done|]. cbn [negb orb] in H.
  apply M_bind_run in H as [(methods & w2 & (Hi2 & Hl2 & _)%read_full_Ok & H)|(e & _ & [=])]. pose proof (byte_val_range b).
  destruct (existsb _ methods) eqn:Ez; cbn [negb] in H; [|by apply M_bind_run in H as [(? & ? & _ & [=])|(? & _ & [=])]].
  apply write_bytes_Ok in H. exists methods. split; [split; [lia|by apply existsb_zero]|].
  rewrite Hi, Hi2, H, Ha. cbn. do 2 f_equal. apply byte_of_val. lia.
Qed.

Lemma be_get_two v : List.length v = 2%nat -> 0 <= be_get v < 65536 /\ be_put 2 (be_get v) = v.
Proof. intros Hl. pose proof (be_get_range v) as Hr. rewrite Hl in Hr. split; [exact Hr|]. rewrite <- Hl. apply be_put_get. Qed.

Lemma read_request_Ok w w' target : read_request w = (w', Ok target) ->
  exists addr host port, address_bytes addr host /\ 1 <= port <= 65535 /\ target = net.JoinHostPort host (strconv.Itoa port) /\
    input w = [byte 5; byte 1; byte 0] ++ addr ++ be_put 2 port ++ input w'.
Proof.
  unfold read_request. intros [(h & w1 & (Hi & Hl & _)%read_full_Ok & H)|(e & _ & [=])]%M_bind_run.
  destruct h as [|a [|b [|c [|d [|]]]]]; try done. unfold nth_byte in H. cbn [nth] in H.
  assert (Href : forall z e w w2, refuse (A := string) z e w <> (w2, Ok target)).
  { intros z e w0 w2 Hx. unfold refuse in Hx. by apply M_bind_run in Hx as [(? & ? & _ & [=])|(? & _ & [=])]. }
  destruct (Z.eqb_spec (byte_val a) 5) as [Ha%byte_of_val|]; [cbn [negb] in H|done].
  destruct (Z.eqb_spec (byte_val b) 1) as [Hb%byte_of_val|]; [cbn [negb] in H|by apply Href in H].
  destruct (Z.eqb_spec (byte_val c) 0) as [Hc%byte_of_val|]; [cbn [negb] in H|by apply Href in H].
  pose proof (byte_val_range d) as Hd.
  apply M_bind_run in H as [(r & w2 & Hr & H)|(e & He & [=])]. unfold try in Hr.
  destruct (readSOCKS5Address (byte_val d) w1) as [w3 r3] eqn:Ea. injection Hr as <- <-. destruct r3 as [host|e]; [|by apply Href in H].
  apply (readSOCKS5Address_Ok _ _ _ _ Hd) in Ea as (addr & Ha2 & Hi2 & _).
  apply M_bind_run in H as [(p & w4 & (Hi3 & Hl3 & _)%read_full_Ok & H)|(e & _ & [=])].
  destruct (be_get_two p Hl3) as [Hp1 Hp2]. destruct (Z.eqb_spec (be_get p) 0); [by apply Href in H|].
  apply mret_Ok in H as [-> ->]. exists (byte (byte_val d) :: addr), host, (be_get p). split_and!; [done|lia|lia|done|].
  rewrite Hi, Hi2, Hi3, Hp2, Ha, Hb, Hc. cbn. by rewrite <- (byte_of_val d _ eq_refl).
Qed.

Lemma read_greeting_wire methods rest w :
  methods_ok methods -> write_faults w = [] -> input w = byte 5 :: byte (llen methods) :: methods ++ rest ->
  read_greeting w = (MkWire rest (sent w ++ [byte <$> [5; 0]]) (dialed w) (deadline w) [], Ok tt).
Proof.
  intros [Hl Hz] Hf Hw. unfold read_greeting. cbv [mbind M_bind].
  rewrite (read_full_app 2 [byte 5; byte (llen methods)] (methods ++ rest)) by done. unfold nth_byte. cbn [nth].
  rewrite !byte_val_byte by lia. cbn [Z.eqb Pos.eqb negb orb]. destruct (Z.eqb_spec (llen methods) 0); [lia|].
  rewrite (read_full_app _ methods rest) by (done || lia). rewrite (proj2 (existsb_zero methods) Hz). cbn [negb].
  unfold write_bytes. cbn. by rewrite Hf.
Qed.

Lemma read_request_wire addr host port rest w :
  address_bytes addr host -> 1 <= port <= 65535 ->
  input w = [byte 5; byte 1; byte 0] ++ addr ++ be_put 2 port ++ rest ->
  read_request w = (set_input rest w, Ok (net.JoinHostPort host (strconv.Itoa port))).
Proof.
  intros Ha Hp Hw. assert (exists a tl, addr = byte a :: tl /\ 0 <= a < 256) as (a & tl & -> & Hr).
  { inversion Ha; eexists _, _; (split; [reflexivity|lia]). }
  unfold read_request. cbv [mbind M_bind]. rewrite (read_full_app 4 [byte 5; byte 1; byte 0; byte a] (tl ++ be_put 2 port ++ rest)) by done.
  unfold nth_byte. cbn [nth]. rewrite !byte_val_byte by lia. cbn [Z.eqb Pos.eqb negb]. unfold try.
  rewrite (readSOCKS5Address_wire a tl host (be_put 2 port ++ rest)) by done.
  rewrite (read_full_app 2 (be_put 2 port) rest) by done. rewrite be_get_put_small by (cbn; lia).
  by destruct (Z.eqb_spec port 0); [lia|].
Qed.

Definition socks_reply (code : Z) : list ascii := byte <$> [5; code; 0; 1; 0; 0; 0; 0; 0; 0].

(** The SOCKS5 entrance dials for a client exactly when the client sends a
    greeting that offers no authentication and a CONNECT request for an address and a
    port other than zero.  The target is that address and port; after a dial that
    succeeds the client has been sent the two success replies, the handshake deadline
    is lifted, and the tunnel starts with every byte that followed the request; after
    one that fails the client is told so. *)
Theorem socks5_exact dial proxy :
  (forall methods addr host port rest,
     methods_ok methods -> address_bytes addr host -> 1 <= port <= 65535 ->
     let target := net.JoinHostPort host (strconv.Itoa port) in
     handleSOCKS5WithBuffer dial proxy (connection (conversation methods addr port rest) []) =
     match dial target (Proxy_Route proxy) with
     | Ok _ => (MkWire rest [byte <$> [5; 0]; socks_reply 0] [(target, Proxy_Route proxy)] false [], Ok rest)
     | Err e => (MkWire rest [byte <$> [5; 0]; socks_reply 5] [(target, Proxy_Route proxy)] true [], Err e)
     end) /\
  (forall l faults w out,
     handleSOCKS5WithBuffer dial proxy (connection l faults) = (w, out) ->
     dialed w = [] /\ is_Ok out = false \/
     exists methods addr host port rest,
       methods_ok methods /\ address_bytes addr host /\ 1 <= port <= 65535 /\ l = conversation methods addr port rest /\
       dialed w = [(net.JoinHostPort host (strconv.Itoa port), Proxy_Route proxy)]).
Proof.
  split.
  - intros methods addr host port rest Hm Ha Hp. cbv zeta. unfold handleSOCKS5WithBuffer, conversation. cbv [mbind M_bind]. cbn [set_deadline].
    rewrite (read_greeting_wire methods ([byte 5; byte 1; byte 0] ++ addr ++ be_put 2 port ++ rest)) by done.
    rewrite (read_request_wire addr host port rest) by done. unfold try, dial_upstream. cbn [dialed set_input].
    by destruct (dial _ _).
  - intros l faults w out H. unfold handleSOCKS5WithBuffer in H.
    apply M_bind_run in H as [([] & w0 & [= <-] & H)|(e & [=] & _)].
    apply M_bind_run in H as [([] & w1 & Hg & H)|(e & Hg & ->)].
    2: { left. apply quiet_run in Hg; [|apply quiet_greeting]. by rewrite Hg. }
    pose proof (quiet_run _ _ _ _ quiet_greeting Hg) as Hd1. apply read_greeting_Ok in Hg as (methods & Hm & Hl).
    apply M_bind_run in H as [(target & w2 & Hr & H)|(e & Hr & ->)].
    2: { left. apply quiet_run in Hr; [|apply quiet_request]. by rewrite Hr, Hd1. }
    pose proof (quiet_run _ _ _ _ quiet_request Hr) as Hd2. apply read_request_Ok in Hr as (addr & host & port & Ha & Hp & -> & Hi).
    right. exists methods, addr, host, port, (input w2). cbn in Hl. split_and!; [done|done|lia|lia|by rewrite Hl, Hi|].
    apply M_bind_run in H as [(r & w3 & [= <- <-] & H)|(e & [=] & _)].
    assert (Hq : quiet (match dial (net.JoinHostPort host (strconv.Itoa port)) (Proxy_Route proxy) with
      | Ok _ => _ ← set_deadline false; _ ← writeSOCKS5Reply 0; start_tunnel | Err e => refuse 5 e end)).
    { unfold writeSOCKS5Reply. quiet. }
    apply (quiet_run _ _ _ _ Hq) in H. rewrite H. cbn. by rewrite Hd2, Hd1.
Qed.

(** ** HTTP *)
Lemma Itoa_excludes z c : 0 <= z -> is_digit c = false -> c ∉ bytes_of (strconv.Itoa z).
Proof.
  intros Hz Hc Hin. destruct (strconv.Itoa_digits z Hz) as [Hd _]. rewrite forallb_forall in Hd.
  apply list_elem_of_In, Hd in Hin. congruence.
Qed.

(** A target as the dialer gets it. *)
Definition good_target (target host : string) (port : Z) : Prop :=
  target = net.JoinHostPort host (strconv.Itoa port) /\ 1 <= port <= 65535 /\
  net.SplitHostPort target = Ok (host, strconv.Itoa port) /\ host <> "" /\ strings.TrimSpace host = host /\
  (forall c, c ∈ nul_cr_lf ++ space_tab -> c ∉ bytes_of host).

Lemma SplitHostPort_Join host port p l :
  net.host_port_text l (bytes_of host) p -> 0 <= port ->
  net.SplitHostPort (net.JoinHostPort host (strconv.Itoa port)) = Ok (host, strconv.Itoa port).
Proof.
  intros (_ & H2 & H3 & _ & _ & _) Hp. unfold net.JoinHostPort, strings.IndexByte.
  set (q := bytes_of (strconv.Itoa port)).
  assert (Hq : forall c, is_digit c = false -> c ∉ q) by (intros c; by apply Itoa_excludes).
  assert (Hpq : strconv.Itoa port = of_bytes q) by (symmetry; apply string_of_list_ascii_of_string).
  assert (Hh : host = of_bytes (bytes_of host)) by (symmetry; apply string_of_list_ascii_of_string).
  assert (Htext : forall s, net.host_port_text (bytes_of s) (bytes_of host) q -> net.SplitHostPort s = Ok (host, strconv.Itoa port)).
  { intros s Hs%net.SplitHostPort_ok. rewrite Hpq, Hh. by rewrite string_of_list_ascii_of_string in Hs. }
  destruct (strings.index_byte (bytes_of host) ":"%char) as [i|] eqn:Ei; apply Htext; unfold net.host_port_text;
    (split_and!; [by apply Hq|done|done|by apply Hq|by apply Hq|]).
  - right. cbn. by rewrite !bytes_of_app.
  - left. split; [cbn; by rewrite !bytes_of_app|]. by apply strings.index_byte_None.
Qed.

Lemma normalizeHostPort_good value target :
  normalizeHostPort value = Ok target -> exists host port, good_target target host port.
Proof.
  unfold normalizeHostPort. intros H. inv_ok. destruct x0 as [host portText]. inv_ok. bool_facts.
  match goal with Hs : net.SplitHostPort value = Ok _ |- _ => rename Hs into Hsplit end.
  match goal with Hn : strings.ContainsAny value _ = false |- _ => rename Hn into Hnul end.
  match goal with Hn : strings.ContainsAny host _ = false |- _ => rename Hn into Hsp end.
  exists host. eexists. rewrite <- (string_of_list_ascii_of_string value), <- (string_of_list_ascii_of_string host), <- (string_of_list_ascii_of_string portText) in Hsplit.
  apply net.SplitHostPort_inv in Hsplit. split; [reflexivity|]. split_and!; try lia.
  - eapply SplitHostPort_Join; [exact Hsplit|lia].
  - intros ->. done.
  - congruence.
  - intros c [Hc|Hc]%elem_of_app Hin; [|by eapply (proj1 (ContainsAny_false _ _) Hsp)].
    eapply (proj1 (ContainsAny_false _ _) Hnul); [exact Hc|].
    destruct Hsplit as (_ & _ & _ & _ & _ & [[-> _]| ->]); set_solver.
Qed.

Section Http.
Context (dial : string -> string -> result unit) `{HT : !HTTP, UN : !Unicode}.

Lemma quiet_read_http : quiet read_http.
Proof. intros d w <-. unfold read_http. by destruct (ReadRequest (input w)) as [[]|]. Qed.
Lemma quiet_http_error code message : quiet (writeHTTPProxyError code message).
Proof. unfold writeHTTPProxyError. quiet. Qed.
#[local] Hint Resolve quiet_http_error : quiet.
Lemma quiet_bad_request {A} e : quiet (bad_request (A := A) e).
Proof. unfold bad_request. quiet. Qed.
Lemma quiet_bad_gateway {A} e : quiet (bad_gateway (A := A) e).
Proof. unfold bad_gateway. quiet. Qed.

Lemma normalizeHTTPURLTarget_good u target :
  normalizeHTTPURLTarget u = Ok target -> exists host port, good_target target host port.
Proof.
  unfold normalizeHTTPURLTarget. destruct u as [u|]; [|done]. intros H. inv_ok. by eapply normalizeHostPort_good.
Qed.

Lemma normalizeHTTPConnectTarget_good value target :
  normalizeHTTPConnectTarget value = Ok target -> exists host port, good_target target host port.
Proof. unfold normalizeHTTPConnectTarget. intros H. inv_ok. by eapply normalizeHostPort_good. Qed.

(** A request without the headers meant for the proxy itself, in origin form. *)
Definition clean_request (r : Request) : Prop :=
  Header r !! "Proxy-Authorization" = None /\ Header r !! "Proxy-Connection" = None /\
  exists u, Req_URL r = Some u /\ Scheme u = "" /\ URL_Host u = "".

(** How a handler may end: nothing was dialed and it failed, or one good target was
    dialed, and a tunnel starts without the deadline at the byte after the request. *)
Definition http_outcome (proxy : ProxySpec) (l : list ascii) (w : wire) (out : result (list ascii * option Request)) : Prop :=
  dialed w = [] /\ is_Ok out = false \/
  exists target host port, dialed w = [(target, Proxy_Route proxy)] /\ good_target target host port /\
    forall rest fw, out = Ok (rest, fw) -> deadline w = false /\
      exists request, ReadRequest l = Ok (request, rest) /\
        match fw with None => Method request = "CONNECT" | Some r => clean_request r /\ Method r = Method request /\ WriteRequest r = Ok tt end.

Lemma bad_request_outcome proxy l w w' e out :
  dialed w = [] -> bad_request e w = (w', out) -> http_outcome proxy l w' out.
Proof.
  intros Hd H. left. rewrite (quiet_run _ _ _ _ (quiet_bad_request e) H). split; [done|].
  unfold bad_request in H. apply M_bind_run in H as [(? & ? & _ & [= _ <-])|(? & _ & ->)]; done.
Qed.

(** What is left to show of a branch that dials: the tunnel it may start. *)
Lemma dial_outcome proxy l w w' target (k : IO (list ascii * option Request)) out :
  (exists host port, good_target target host port) -> dialed w = [] -> quiet k ->
  (forall w1 rest fw, input w1 = input w -> k w1 = (w', Ok (rest, fw)) -> deadline w' = false /\
     exists request, ReadRequest l = Ok (request, rest) /\
       match fw with None => Method request = "CONNECT" | Some r => clean_request r /\ Method r = Method request /\ WriteRequest r = Ok tt end) ->
  (upstream ← try (dial_upstream dial target (Proxy_Route proxy));
   match upstream with Err e => bad_gateway e | Ok _ => k end) w = (w', out) ->
  http_outcome proxy l w' out.
Proof.
  intros (host & port & Hg) Hd Hq Hk H. apply M_bind_run in H as [(u & w3 & [= <- <-] & H)|(e & [=] & _)].
  right. exists target, host, port. destruct (dial target (Proxy_Route proxy)) as [[]|e].
  - pose proof (quiet_run _ _ _ _ Hq H) as Hd3. cbn in Hd3. rewrite Hd in Hd3. split_and!; [done|done|].
    intros rest fw ->. by eapply Hk; [|exact H].
  - pose proof (quiet_run _ _ _ _ (quiet_bad_gateway e) H) as Hd3. cbn in Hd3. rewrite Hd in Hd3. split_and!; [done|done|].
    intros rest fw ->. unfold bad_gateway in H. by apply M_bind_run in H as [(? & ? & _ & [=])|(? & _ & [=])].
Qed.

(** The HTTP entrance dials at most one target per request, always a host and a
    port in canonical form without spaces, control characters or NUL; what it forwards
    has no Proxy-Authorization or Proxy-Connection header and no absolute URL; and the
    tunnel starts without the handshake deadline at the first byte after the request. *)
Theorem http_proxy_safe proxy l faults w out :
  handleHTTPProxyWithBuffer dial proxy (connection l faults) = (w, out) -> http_outcome proxy l w out.
Proof.
  unfold handleHTTPProxyWithBuffer. intros [([] & w0 & [= <-] & H)|(e & [=] & _)]%M_bind_run.
  apply M_bind_run in H as [(r & w1 & Hr & H)|(e & Hr & _)]; [|by unfold try in Hr; destruct (read_http _)].
  unfold try in Hr. destruct (read_http _) as [w2 r2] eqn:Er. injection Hr as <- <-.
  pose proof (quiet_run _ _ _ _ quiet_read_http Er) as Hd. cbn in Hd.
  destruct r2 as [request|e]; [|by eapply bad_request_outcome].
  assert (Hreq : ReadRequest l = Ok (request, input w2)).
  { unfold read_http in Er. cbn in Er. destruct (ReadRequest l) as [[request' rest]|]; [|done]. by injection Er as <- <-. }
  destruct (String.eqb_spec (Method request) "CONNECT") as [Hm|_].
  - destruct (normalizeHTTPConnectTarget (Host request)) as [target|e] eqn:Et; [|by eapply bad_request_outcome].
    eapply dial_outcome; [by eapply normalizeHTTPConnectTarget_good|exact Hd| |intros w1 rest fw Hi Hk|exact H]; [quiet|].
    cbv [mbind M_bind set_deadline try start_tunnel mret M_ret] in Hk. unfold write_bytes in Hk. cbn in Hk. rewrite Hi in Hk.
    destruct (write_faults w1) as [|[] fs]; cbn in Hk; injection Hk as <- <- <-; cbn; (split; [done|]); by exists request.
  - destruct (Req_URL request) as [u|]; [|by eapply bad_request_outcome].
    destruct (_ || _); [by eapply bad_request_outcome|].
    destruct (normalizeHTTPURLTarget (Some u)) as [target|e] eqn:Et; [|by eapply bad_request_outcome].
    eapply dial_outcome; [by eapply normalizeHTTPURLTarget_good|exact Hd| |intros w1 rest fw Hi Hk|exact H]; [quiet|].
    cbv [mbind M_bind set_deadline lift start_tunnel mret M_ret] in Hk. cbn in Hk. rewrite Hi in Hk.
    destruct (WriteRequest (forwarded request u)) as [[]|] eqn:Ew; [|done]. injection Hk as <- <- <-. cbn. split; [done|].
    exists request. split; [done|]. split_and!; [|done..]. unfold clean_request, forwarded. cbn.
    rewrite lookup_delete_ne, lookup_delete_eq by done. rewrite lookup_delete_eq. split_and!; [done..|]. by eexists.
Qed.
End Http.

(** ** Concrete conversations *)
Definition socks_example : list ascii := conversation [byte 2; byte 0] (byte 3 :: byte 12 :: bytes_of "example.test") 8080 (bytes_of "hello").

Definition local_socks : ProxySpec := MkProxySpec "p" "socks5" "127.0.0.1:1080" "gateway" true.

Example socks_run :
  handleSOCKS5WithBuffer (fun _ _ => Ok tt) local_socks (connection socks_example []) =
    (MkWire (bytes_of "hello") [byte <$> [5; 0]; socks_reply 0] [("example.test:8080", "gateway")] false [], Ok (bytes_of "hello")).
Proof. vm_compute. reflexivity. Qed.

(** A parser of requests that are a method, a space, a host and a newline. *)
Definition toy_http : HTTP := {|
  ReadRequest := fun l =>
    match strings.index_byte l "010"%char with
    | None => Err (EExternal "http.ReadRequest")
    | Some i =>
        match strings.Split (of_bytes (firstn i l)) " "%char with
        | [m; h] => Ok (MkRequest m h (Some (MkURL "http" h "/")) h {["Proxy-Authorization" := ["Basic"]; "Accept" := ["*"]]}, skipn (S i) l)
        | _ => Err (EExternal "http.ReadRequest")
        end
    end;
  WriteRequest := fun _ => Ok tt
|}.

Definition http_line (s : string) : list ascii := bytes_of s ++ ["010"%char].

Lemma http_proxy_safe_witness :
  let '(w, out) := @handleHTTPProxyWithBuffer (fun _ _ => Ok tt) toy_http ascii_unicode local_socks (connection (http_line "CONNECT [::1]:0443" ++ bytes_of "tls") []) in
  http_outcome (HT := toy_http) local_socks (http_line "CONNECT [::1]:0443" ++ bytes_of "tls") w out /\
  dialed w = [("[::1]:443", "gateway")] /\ out = Ok (bytes_of "tls", None).
Proof.
  destruct (@handleHTTPProxyWithBuffer _ _ _ _ _) as [w out] eqn:E. split.
  - apply (http_proxy_safe (HT := toy_http) (UN := ascii_unicode) (fun _ _ => Ok tt) local_socks _ [] w out E).
  - vm_compute in E. injection E as <- <-. split; reflexivity.
Defined.

Lemma socks5_exact_witness :
  methods_ok [byte 0] /\ address_bytes (byte 3 :: byte 2 :: bytes_of "db") "db" /\
  handleSOCKS5WithBuffer (fun _ _ => Err (EExternal "refused")) local_socks
    (connection (conversation [byte 0] (byte 3 :: byte 2 :: bytes_of "db") 22 []) []) =
  (MkWire [] [byte <$> [5; 0]; socks_reply 5] [("db:22", "gateway")] true [], Err (EExternal "refused")).
Proof.
  assert (Hm : methods_ok [byte 0]) by (split; [cbn; lia|by left]).
  assert (Ha : address_bytes (byte 3 :: byte 2 :: bytes_of "db") "db") by (apply (wire_name (bytes_of "db")); [cbn; lia|reflexivity]).
  split_and!; [exact Hm|exact Ha|].
  exact (proj1 (socks5_exact (fun _ _ => Err (EExternal "refused")) local_socks) [byte 0] _ _ 22 [] Hm Ha ltac:(lia)).
Defined.
