(* ===== verification/AfdpSession.v ===== *)
(** * AFDP sessions (src/internal/afdp/session.go)

    The handshake over the control stream as seen from both ends, the streams of an
    established session with their count, and datagrams through the reassembler.  The
    QUIC connection is a parameter: what it says of the peer's certificates, whether a
    stream can be had, what arrives on it.  A session is not nil. *)
From S2P Require Import Prelude GoStd Domain Datagram Reassembly Control.

Definition maxSessionStreams : Z := 1048576.
Definition AF00 : Z := 44800.
Definition AF01 : Z := 44801.

Record SessionOptions := MkSessionOptions {
  MaxFrame : Z; MaxDatagram : Z; MaxStreams : Z; ReassemblyFlow : Z; ReassemblyByte : Z; ReassemblyTTL : Z;
  Options_Capabilities : list string; ExpectedPeerID : string
}.

(** [(maxFrame, maxDatagram, maxStreams, flows, bytes, timeout)]. *)
Definition limits (o : SessionOptions) : Z * Z * Z * Z * Z * Z :=
  let maxFrame := if MaxFrame o <=? 0 then maxSessionFrame else MaxFrame o in
  let maxFrame := if maxFrame >? maxSessionFrame then maxSessionFrame else maxFrame in
  let maxDatagram := if MaxDatagram o <=? datagramHeaderBytes then 1200 else MaxDatagram o in
  let maxDatagram := if maxDatagram >? maxAFDPWireBytes then maxAFDPWireBytes else maxDatagram in
  let maxStreams := if MaxStreams o <=? 0 then defaultMaxStreams else MaxStreams o in
  let maxStreams := if maxStreams >? maxSessionStreams then maxSessionStreams else maxStreams in
  let flows := if ReassemblyFlow o <=? 0 then 256 else ReassemblyFlow o in
  let bytes := if ReassemblyByte o <=? 0 then 8388608 else ReassemblyByte o in
  let timeout := if ReassemblyTTL o <=? 0 then 30000000000 else ReassemblyTTL o in
  (maxFrame, maxDatagram, maxStreams, flows, bytes, timeout).

Definition options_frame (o : SessionOptions) : Z := let '(f, _, _, _, _, _) := limits o in f.
Definition options_datagram (o : SessionOptions) : Z := let '(_, d, _, _, _, _) := limits o in d.
Definition options_streams (o : SessionOptions) : Z := let '(_, _, s, _, _, _) := limits o in s.

(** [opened] and [closed] are atomics. *)
Record Session := MkSession {
  assignment : AssignmentView; maxFrame : Z; maxDatagram : Z; maxStreams : Z;
  opened : Z; closed : bool; capabilities : list string
}.

Definition ActiveStreams (s : Session) : Z := opened s.

(** ** The peer's identity *)
(** A leaf certificate: its common name, and its URIs as scheme, host and path. *)
Record certificate := MkCertificate { CommonName : string; URIs : list (option (string * string * string)) }.

(** [None]: the connection does not expose a TLS state. *)
Definition authorizePeerIdentity (state : option (list certificate)) (agentID : string) : result unit :=
  match state with
  | None => Ok tt
  | Some [] => Err (ENew "AFDP peer certificate is missing")
  | Some (c :: _) =>
      if String.eqb (CommonName c) agentID then Ok tt else
      let '(scheme, host, path) := NodeIdentityURI agentID in
      if existsb (fun uri => match uri with
                             | None => false
                             | Some (s, h, p) => String.eqb s scheme && String.eqb h host && String.eqb (strings.TrimSuffix p "/") path
                             end) (URIs c)
      then Ok tt else Err (ENew "AFDP peer certificate identity does not match agent")
  end.

(** ** Control frames on a stream *)
Section Frames.
Context `{W : Type} `{WR : !Writer W}.

Definition writeControlFrame {T} (encode : T -> Z -> result bytes) (w : W) (value : T) (max : Z) : option (W * option error) :=
  match encode value max with
  | Err e => Some (w, Some e)
  | Ok frame =>
      if llen frame >? 2 ^ 32 - 1 then Some (w, Some ErrFrameTooLarge) else
      '(w1, err) ← WriteFull (Some w) (be_put 4 (llen frame));
      match w1, err with
      | Some w1, None => '(w2, err) ← WriteFull (Some w1) frame; Some (default w1 w2, err)
      | _, _ => Some (default w w1, err)
      end
  end.

(** The frame, and the rest of the stream. *)
Definition readControlFrame (r : bytes) (max : Z) : result (bytes * bytes) :=
  let max := if max <=? 0 then maxSessionFrame else max in
  '(size, r) ← ReadFull r 4;
  let length := be_get size in
  _ ← reject_if ((length =? 0) || (length >? max + 6) || (length >? maxSessionFrame + 6)) ErrFrameTooLarge;
  ReadFull r (Z.to_nat length).

Context `{PH : !Proto SessionHello, PA : !Proto SessionAccept, PO : !Proto OpenMetadata}.

Definition WriteSessionHello (w : W) (value : SessionHello) (max : Z) := writeControlFrame EncodeSessionHello w value max.
Definition ReadSessionHello (r : bytes) (max : Z) : result (SessionHello * bytes) :=
  '(frame, r) ← readControlFrame r max; value ← DecodeSessionHello frame max; Ok (value, r).
Definition WriteSessionAccept (w : W) (value : SessionAccept) (max : Z) := writeControlFrame EncodeSessionAccept w value max.
Definition ReadSessionAccept (r : bytes) (max : Z) : result (SessionAccept * bytes) :=
  '(frame, r) ← readControlFrame r max; value ← DecodeSessionAccept frame max; Ok (value, r).

(** ** The handshake *)
(** What a connection is known to be; [control_stream] is the outcome of opening or
    accepting the first stream. *)
Record Conn := MkConn { peer_state : option (list certificate); control_stream : result unit }.

Inductive closing := CloseControl | CloseStream | CloseConnection (code : Z) (reason : string).

(** The control stream is written to [w] and read from [r]. *)
Definition ClientSession (conn : option Conn) (hello : SessionHello) (options : SessionOptions) (w : W) (r : bytes)
    : option (W * list closing * result Session) :=
  match conn with
  | None => Some (w, [], Err (ENew "AFDP connection is required"))
  | Some conn =>
      let expected := strings.TrimSpace (ExpectedPeerID options) in
      match (if String.eqb expected "" then Ok tt else authorizePeerIdentity (peer_state conn) expected) with
      | Err e => Some (w, [CloseConnection AF01 "AFDP peer identity unauthorized"], Err e)
      | Ok _ =>
          match control_stream conn with
          | Err e => Some (w, [], Err e)
          | Ok _ =>
              '(w, err) ← WriteSessionHello w hello (options_frame options);
              match err with
              | Some e => Some (w, [CloseControl], Err e)
              | None =>
                  let result :=
                    '(accept, _) ← ReadSessionAccept r (options_frame options);
                    _ ← reject_if (negb (String.eqb (Accept_AssignmentID accept) (Hello_AssignmentID hello))
                                   || negb (Accept_Generation accept =? Hello_Generation hello)) ErrUnauthorizedAgent;
                    let negotiated := NegotiateCapabilities (Hello_Capabilities hello) (Accept_Capabilities accept) in
                    _ ← reject_if (negb (llen negotiated =? llen (Accept_Capabilities accept)))
                          (EWrap "%w: session accept contains capabilities not offered by the client" [] ErrProtocolViolation);
                    Ok (MkSession (MkView (Accept_AssignmentID accept) (Hello_AgentID hello) (Accept_Generation accept) ""
                                     (list_to_set (Accept_ServiceIDs accept)) (options_streams options))
                          (options_frame options) (options_datagram options) (options_streams options) 0 false negotiated) in
                  Some (w, match result with Ok _ => [] | Err _ => [CloseControl] end, result)
              end
          end
      end
  end.

Context `{MO : !MapOrder}.

(** The service ids in the order in which the map is iterated. *)
Definition service_list (ids : gset string) : list string := (range_order ((fun id => (id, tt)) <$> elements ids)).*1.

Definition serverSession (conn : option Conn) (resolve : SessionHello -> result AssignmentView) (options : SessionOptions) (w : W) (r : bytes)
    : option (W * list closing * result Session) :=
  match conn with
  | None => Some (w, [], Err (ENew "AFDP connection is required"))
  | Some conn =>
      match control_stream conn with
      | Err e => Some (w, [], Err e)
      | Ok _ =>
          match ReadSessionHello r (options_frame options) with
          | Err e => Some (w, [CloseControl], Err e)
          | Ok (hello, _) =>
              match resolve hello with
              | Err e => Some (w, [CloseControl; CloseConnection AF01 "AFDP session unauthorized"], Err e)
              | Ok assignment =>
                  match authorizePeerIdentity (peer_state conn) (Hello_AgentID hello) with
                  | Err e => Some (w, [CloseControl; CloseConnection AF01 "AFDP peer identity unauthorized"], Err e)
                  | Ok _ =>
                      let accept := MkAccept (View_ID assignment) (View_Generation assignment)
                                      (NegotiateCapabilities (Options_Capabilities options) (Hello_Capabilities hello))
                                      (service_list (View_ServiceIDs assignment)) in
                      '(w, err) ← WriteSessionAccept w accept (options_frame options);
                      match err with
                      | Some e => Some (w, [CloseControl], Err e)
                      | None =>
                          let streams := options_streams options in
                          let streams := if (View_MaxStreams assignment >? 0) && (View_MaxStreams assignment <? streams)
                                         then View_MaxStreams assignment else streams in
                          Some (w, [], Ok (MkSession assignment (options_frame options) (options_datagram options) streams 0 false
                                             (Accept_Capabilities accept)))
                      end
                  end
              end
          end
      end
  end.

Definition ServerSessionWithLookup (conn : option Conn) (lookup : option (SessionHello -> option AssignmentView))
    (options : SessionOptions) (w : W) (r : bytes) : option (W * list closing * result Session) :=
  match lookup with
  | None => Some (w, [], Err (ENew "AFDP assignment lookup is required"))
  | Some lookup =>
      serverSession conn (fun hello =>
        match lookup hello with
        | None => Err ErrUnauthorizedAgent
        | Some assignment => _ ← AuthorizeSession hello assignment; Ok assignment
        end) options w r
  end.

(** ** Streams *)
Definition set_opened (n : Z) (s : Session) : Session :=
  MkSession (assignment s) (maxFrame s) (maxDatagram s) (maxStreams s) n (closed s) (capabilities s).

(** The compare-and-swap loops, each as the step in which its swap succeeds. *)
Definition reserveStream (s : Session) : option Session :=
  if opened s >=? maxStreams s then None else Some (set_opened (opened s + 1) s).
Definition releaseStream (s : Session) : Session :=
  if opened s <=? 0 then s else set_opened (opened s - 1) s.
Definition ReleaseStream (s : Session) : Session := releaseStream s.

Definition session_closed : error := ENew "AFDP session is closed".
Definition stream_limit_reached : error := EWrap "%w: AFDP stream limit reached" [] ErrTransient.

(** A stream that is asked for: [open] is the outcome of [OpenStreamSync], and the
    metadata is written to [w]. *)
Definition OpenStream (s : Session) (metadata : OpenMetadata) (open : result unit) (w : W)
    : option (Session * W * list closing * result unit) :=
  if closed s then Some (s, w, [], Err session_closed) else
  match AuthorizeOpen metadata (assignment s) with
  | Err e => Some (s, w, [], Err e)
  | Ok _ =>
      match reserveStream s with
      | None => Some (s, w, [], Err stream_limit_reached)
      | Some s =>
          match open with
          | Err e => Some (releaseStream s, w, [], Err e)
          | Ok _ =>
              '(w1, err) ← WriteOpen (Some w) metadata (maxFrame s);
              let w := default w w1 in
              match err with
              | Some e => Some (releaseStream s, w, [CloseStream], Err e)
              | None => Some (s, w, [], Ok tt)
              end
          end
      end
  end.

(** A stream that the peer opened: [accepted] is what [AcceptStream] returned, as the
    bytes of the stream.  [true]: the stream was closed again. *)
Definition AcceptStream (s : Session) (accepted : result bytes) : Session * bool * result (bytes * OpenMetadata) :=
  if closed s then (s, false, Err session_closed) else
  match accepted with
  | Err e => (s, false, Err e)
  | Ok stream =>
      match reserveStream s with
      | None => (s, true, Err stream_limit_reached)
      | Some s =>
          match ReadOpen stream (maxFrame s) with
          | Err e => (releaseStream s, true, Err (EWrap "%w: %w" [] (EJoin ErrProtocolViolation e)))
          | Ok (metadata, rest) =>
              match AuthorizeOpen metadata (assignment s) with
              | Err e => (releaseStream s, true, Err (EWrap "%w: %w" [] (EJoin ErrUnauthorizedOpen e)))
              | Ok _ => (s, false, Ok (rest, metadata))
              end
          end
      end
  end.

(** [closed.Swap(true)] and [opened.Store(0)]; [true] when this call closed it. *)
Definition Close (s : Session) : Session * bool :=
  if closed s then (s, false)
  else (MkSession (assignment s) (maxFrame s) (maxDatagram s) (maxStreams s) 0 true (capabilities s), true).

(** ** Datagrams *)
(** The frames that were sent, and the outcome; [send] is the connection's. *)
Fixpoint send_frames (send : bytes -> result unit) (frames : list bytes) : list bytes * result unit :=
  match frames with
  | [] => ([], Ok tt)
  | frame :: frames =>
      match send frame with
      | Err e => ([], Err e)
      | Ok _ => let '(sent, r) := send_frames send frames in (frame :: sent, r)
      end
  end.

Definition SendDatagram (s : Session) (send : bytes -> result unit) (flowID sequence : Z) (payload : bytes) (mtu : Z)
    : list bytes * result unit :=
  if closed s then ([], Err session_closed) else
  let mtu := if (mtu <=? 0) || (mtu >? maxDatagram s) then maxDatagram s else mtu in
  match Fragments flowID sequence payload mtu with
  | Err e => ([], Err e)
  | Ok frames => send_frames send frames
  end.

(** The datagrams that arrive, with the times at which they are looked at; the list
    ends where receiving fails. *)
Fixpoint ReceiveDatagramPacket (s : Session) (reassembler : Reassembler) (arrivals : list (bytes * Z))
    : Reassembler * list (bytes * Z) * result (DatagramHeader * bytes) :=
  if closed s then (reassembler, arrivals, Err session_closed) else
  match arrivals with
  | [] => (reassembler, [], Err (EExternal "quic.ReceiveDatagram"))
  | (data, now) :: arrivals =>
      match DecodeDatagram data (maxDatagram s - datagramHeaderBytes) with
      | Err e => (reassembler, arrivals, Err e)
      | Ok (header, _) =>
          let '(reassembler, r) := Add reassembler data now now in
          match r with
          | Err e => (reassembler, arrivals, Err e)
          | Ok (Some payload) => (reassembler, arrivals, Ok (header, payload))
          | Ok None => ReceiveDatagramPacket s reassembler arrivals
          end
      end
  end.
End Frames.
