(* ===== verification/Obfuscation.v ===== *)
(** * Packet camouflage (src/internal/afdp/obfuscation_conn.go, obfuscation_write.go,
    obfuscation_read.go, obfuscation_crypto.go, obfuscation_buffers.go and
    src/internal/random/random.go)

    A connection masks each datagram with a keystream, authenticates it with a short
    tag, and cuts handshake datagrams into padded fragments that the other end
    reassembles.  Parameters: BLAKE2b, SHA-256, and the system's random source, as the
    bytes it will deliver (reading fails when they are used up).  The buffers that are
    reused between packets are written in full before they are read, so each packet
    has its own here. *)
From S2P Require Import Prelude GoStd Checksum Effects Domain Datagram Control.

Definition obfuscationVersion : Z := Version.
Definition obfuscationData : Z := 0.
Definition obfuscationFragment : Z := 1.
Definition obfuscationSaltBytes : Z := 16.
Definition obfuscationTagBytes : Z := 8.
Definition fragmentHeaderBytes : Z := 10.
Definition dataHeaderBytes : Z := 2.
Definition maxFragmentCount : Z := 8.
Definition maxReassemblyEntries : Z := 128.
Definition maxReassemblyPerSource : Z := 16.
Definition maxReassemblyBytes : Z := 1048576.
Definition reassemblyTTL : Z := 1000000000.
Definition randomBufferSize : Z := 32768.
Definition maxObfuscationDatagram : Z := maxAFDPWireBytes.
Definition obfuscationMaskDomain : bytes := bytes_of "asterferry-data/1/mask/".
Definition obfuscationTagDomain : bytes := bytes_of "asterferry-data/1/tag/".
Definition maskInputBytes : Z := llen obfuscationMaskDomain + 32 + obfuscationSaltBytes + 4.
Definition ObfuscationStandard : string := "standard".
Definition ObfuscationCamouflage : string := "camouflage".

(** [blake2b.Sum256]; a hasher that is written piece by piece gives the sum of the whole. *)
Class Blake2b := { Sum256 : bytes -> bytes; Sum256_length : forall b, List.length (Sum256 b) = 32%nat }.

Record ObfuscationOptions := MkOptions {
  Mode : string; CurrentKey : bytes; PreviousKey : bytes; HandshakeShaping : bool;
  MinFragmentBytes : Z; MaxFragmentBytes : Z; MaxHandshakeFragmentWireBytes : Z
}.

Record fragmentKey := MkFragmentKey { source : string; id : Z }.
#[export] Instance fragmentKey_eq_dec : EqDecision fragmentKey.
Proof. solve_decision. Defined.
#[export] Instance fragmentKey_countable : Countable fragmentKey :=
  inj_countable' (fun k => (source k, id k)) (fun '(s, i) => MkFragmentKey s i) (fun k => match k with MkFragmentKey _ _ => eq_refl end).

Record fragmentAssembly := MkAssembly { total : Z; parts_of : list (option bytes); bytes_in : Z; deadline : Z }.

(** What a metrics sink is told. *)
Inductive metric := PacketAccepted (previousKey : bool) | PacketRejected | FragmentDropped.

(** [rand] is what the system's random source will deliver; [sent] what the socket took. *)
Record packetConn := MkConn {
  keys : list bytes; opts : ObfuscationOptions;
  parts : gmap fragmentKey fragmentAssembly; sources : gmap string Z; bytes_held : Z;
  randomBuf : bytes; randomPos : nat; rand : bytes;
  sent : list bytes; metrics : list metric
}.
Abbreviation IO A := (M packetConn A).

Definition with_random (buf : bytes) (pos : nat) (r : bytes) (c : packetConn) : packetConn :=
  MkConn (keys c) (opts c) (parts c) (sources c) (bytes_held c) buf pos r (sent c) (metrics c).
Definition with_parts (p : gmap fragmentKey fragmentAssembly) (s : gmap string Z) (n : Z) (c : packetConn) : packetConn :=
  MkConn (keys c) (opts c) p s n (randomBuf c) (randomPos c) (rand c) (sent c) (metrics c).
Definition tell (e : metric) (c : packetConn) : packetConn :=
  MkConn (keys c) (opts c) (parts c) (sources c) (bytes_held c) (randomBuf c) (randomPos c) (rand c) (sent c) (metrics c ++ [e]).

(** ** Random bytes *)
(** [rand.Read] of a buffer of [n] bytes. *)
Definition rand_Read (n : nat) : IO bytes := fun c =>
  if (n <=? List.length (rand c))%nat
  then (with_random (randomBuf c) (randomPos c) (skipn n (rand c)) c, Ok (firstn n (rand c)))
  else (c, Err (EExternal "rand.Read")).

(** The buffer as [make] leaves it, or as it is. *)
Definition sized_buffer (buf : bytes) : bytes :=
  if llen buf <? randomBufferSize then replicate (Z.to_nat randomBufferSize) "000"%char else buf.

(** Each round takes at least one byte, so [n] rounds are enough. *)
Fixpoint fill_random (fuel n : nat) : IO bytes :=
  match fuel, n with
  | _, O => mret []
  | O, _ => mret []
  | S fuel, _ =>
      _ ← (fun c =>
             if llen (randomBuf c) <=? Z.of_nat (randomPos c) then
               let c := with_random (sized_buffer (randomBuf c)) (randomPos c) (rand c) c in
               match rand_Read (Z.to_nat randomBufferSize) c with
               | (c, Ok block) => (with_random block 0 (rand c) c, Ok tt)
               | (c, Err e) => (c, Err e)
               end
             else (c, Ok tt));
      part ← (fun c =>
             let l := firstn n (skipn (randomPos c) (randomBuf c)) in
             (with_random (randomBuf c) (randomPos c + List.length l) (rand c) c, Ok l));
      rest ← fill_random fuel (n - List.length part);
      mret (part ++ rest)
  end.

(** [dst] of [n] bytes, filled. *)
Definition randomBytes (n : nat) : IO bytes := fill_random n n.

(** The draws of [Uint16n] until one is below the limit: at most as many as the source
    has bytes. *)
Fixpoint draw_below (fuel : nat) (limit n : Z) : IO Z :=
  buf ← rand_Read 2;
  let value := be_get buf in
  if value <? limit then mret (value mod n) else
  match fuel with O => fail (EExternal "rand.Read") | S fuel => draw_below fuel limit n end.

Definition Uint16n (n : Z) : IO Z := fun c =>
  if (n =? 0) || (n >? 65536) then (c, Err (ENew "random range is out of bounds"))
  else draw_below (List.length (rand c)) (65536 - 65536 mod n) n c.

(** ** Masking and authentication *)
Section Crypto.
Context `{!Blake2b}.

(** [copy(dst\[off:\], src)]. *)
Definition copy_at (dst : bytes) (off : nat) (src : bytes) : bytes :=
  firstn off dst ++ firstn (List.length dst - off) src ++ skipn (off + List.length src) dst.

Definition mask_input (salt key : bytes) : bytes :=
  let input := replicate (Z.to_nat maskInputBytes) "000"%char in
  let input := copy_at input 0 obfuscationMaskDomain in
  let input := copy_at input (List.length obfuscationMaskDomain) key in
  copy_at input (List.length obfuscationMaskDomain + List.length key) salt.

Definition xor_byte (a b : ascii) : ascii := byte_of_Z (Z.lxor (byte_val a) (byte_val b)).

(** Each round handles a block of 32 bytes. *)
Fixpoint mask_from (fuel : nat) (data : bytes) (input : bytes) (counterOffset : nat) (counter : Z) : bytes :=
  match fuel, data with
  | S fuel, _ :: _ =>
      let input := copy_at input counterOffset (be_put 4 counter) in
      let blockBytes := Sum256 input in
      zip_with xor_byte data blockBytes ++
      mask_from fuel (skipn (List.length blockBytes) data) input counterOffset ((counter + 1) mod 2 ^ 32)
  | _, _ => []
  end.

(** The data after masking in place. *)
Definition mask (data salt key : bytes) : bytes :=
  mask_from (List.length data) data (mask_input salt key) (List.length obfuscationMaskDomain + List.length key + List.length salt) 0.

Definition tag (salt masked key : bytes) : bytes :=
  firstn (Z.to_nat obfuscationTagBytes) (Sum256 (obfuscationTagDomain ++ key ++ salt ++ masked)).

(** ** The connection *)
Context `{!Crypto}.

Definition defaulted (z d : Z) : Z := if z =? 0 then d else z.

(** What wraps the socket: the socket itself, or a camouflaging connection. *)
Inductive wrapped := Plain | Camouflaged (c : packetConn).

Definition derived_keys (raws : list bytes) : list bytes :=
  foldl (fun keys raw => match raw with [] => keys | _ => keys ++ [sha256 raw] end) [] raws.

(** [conn]: the UDP socket is not nil. *)
Definition NewObfuscatingPacketConn (conn : bool) (o : ObfuscationOptions) (source : bytes) : result wrapped :=
  if negb conn then Err (ENew "UDP socket is nil") else
  let mode := if String.eqb (Mode o) "" then ObfuscationStandard else Mode o in
  let minF := defaulted (MinFragmentBytes o) 512 in
  let maxF := defaulted (MaxFragmentBytes o) 1200 in
  let maxW := defaulted (MaxHandshakeFragmentWireBytes o) 1280 in
  _ ← reject_if ((minF <? fragmentHeaderBytes + obfuscationSaltBytes + obfuscationTagBytes) || (maxF <? minF)
                 || (maxW <? maxF) || (maxW >? maxObfuscationDatagram)) (ENew "invalid AFDP obfuscation packet limits");
  if String.eqb mode ObfuscationStandard then Ok Plain else
  _ ← reject_if (negb (String.eqb mode ObfuscationCamouflage)) (EFmt "unsupported transport obfuscation mode %q" [AStr mode]);
  let keys := derived_keys [CurrentKey o; PreviousKey o] in
  _ ← reject_if (llen keys =? 0) (ENew "camouflage mode requires a transport obfuscation key");
  Ok (Camouflaged (MkConn keys (MkOptions mode (CurrentKey o) (PreviousKey o) (HandshakeShaping o) minF maxF maxW)
                     ∅ ∅ 0 [] 0 source [] [])).

(** ** Writing *)
Definition first_key (c : packetConn) : bytes := default [] (head (keys c)).

Definition reading {A} (f : packetConn -> A) : IO A := fun c => (c, Ok (f c)).

Definition seal (body : bytes) : IO bytes :=
  salt ← randomBytes (Z.to_nat obfuscationSaltBytes);
  key ← reading first_key;
  let masked := mask body salt key in
  mret (salt ++ masked ++ tag salt masked key).

Definition encodeData (payload : bytes) : IO bytes :=
  wire ← seal (byte_of_Z obfuscationVersion :: byte_of_Z obfuscationData :: payload);
  if llen wire >? maxObfuscationDatagram then fail (ENew "camouflage data datagram is too large") else mret wire.

Section Socket.
(** [conn.WriteTo]. *)
Context (send : bytes -> result unit).

Definition socket_write (wire : bytes) : IO unit := fun c =>
  match send wire with
  | Ok _ => (MkConn (keys c) (opts c) (parts c) (sources c) (bytes_held c) (randomBuf c) (randomPos c) (rand c) (sent c ++ [wire]) (metrics c), Ok tt)
  | Err e => (c, Err e)
  end.

Definition writeData (payload : bytes) : IO unit := wire ← encodeData payload; socket_write wire.

Definition padding_range (o : ObfuscationOptions) (n : Z) : Z * Z :=
  let base := fragmentHeaderBytes + obfuscationSaltBytes + obfuscationTagBytes + n in
  (Z.max 0 (MinFragmentBytes o - base), Z.max 0 (MaxFragmentBytes o - base)).

Definition fragmentBody (o : ObfuscationOptions) (id index total : Z) (payload : bytes) : IO bytes :=
  let base := fragmentHeaderBytes + obfuscationSaltBytes + obfuscationTagBytes + llen payload in
  if base >? MaxFragmentBytes o then fail (ENew "camouflage fragment payload exceeds configured size") else
  let '(minPadding, maxPadding) := padding_range o (llen payload) in
  padding ← (if maxPadding >? minPadding then value ← Uint16n (maxPadding - minPadding + 1); mret (minPadding + value)
             else mret minPadding);
  let header := [byte_of_Z obfuscationVersion; byte_of_Z obfuscationFragment] ++ be_put 2 id ++ [byte_of_Z index; byte_of_Z total]
                ++ be_put 2 (llen payload) ++ be_put 2 padding in
  if padding >? 0 then pad ← randomBytes (Z.to_nat padding); mret (header ++ payload ++ pad)
  else mret (header ++ payload).

(** The loop over the packet, [offset] bytes of which are sent; every round sends at
    least one byte. *)
Fixpoint write_chunks (fuel : nat) (o : ObfuscationOptions) (id total chunkSize index : Z) (rest : bytes) : IO unit :=
  match fuel, rest with
  | S fuel, _ :: _ =>
      body ← fragmentBody o id index total (firstn (Z.to_nat chunkSize) rest);
      wire ← seal body;
      if llen wire >? MaxHandshakeFragmentWireBytes o then fail (ENew "camouflage handshake fragment exceeds max wire packet size") else
      _ ← socket_write wire;
      write_chunks fuel o id total chunkSize (index + 1) (skipn (Z.to_nat chunkSize) rest)
  | _, _ => mret tt
  end.

Definition writeFragments (packet : bytes) : IO unit := fun c =>
  let o := opts c in
  let maxWire := MaxFragmentBytes o in
  let overhead := fragmentHeaderBytes + obfuscationSaltBytes + obfuscationTagBytes in
  if maxWire <=? overhead then (c, Err (ENew "transport obfuscation fragment size is too small")) else
  let chunkSize := maxWire - fragmentHeaderBytes - obfuscationSaltBytes - obfuscationTagBytes in
  if chunkSize <? 1 then (c, Err (ENew "transport obfuscation fragment payload is too small")) else
  let total := (llen packet + chunkSize - 1) / chunkSize in
  if total <? 2 then writeData packet c else
  if total >? maxFragmentCount then (c, Err (ENew "QUIC datagram requires too many camouflage fragments")) else
  (idBytes ← randomBytes 2; write_chunks (List.length packet) o (be_get idBytes) total chunkSize 0 packet) c.

(** [p\[0\]&0x80 != 0]. *)
Definition long_header (p : bytes) : bool := match p with c :: _ => negb (Z.land (byte_val c) 128 =? 0) | [] => false end.

Definition WriteTo (p : bytes) : IO Z := fun c =>
  if (llen p >? 0) && HandshakeShaping (opts c) && long_header p
  then (_ ← writeFragments p; mret (llen p)) c
  else (_ ← writeData p; mret (llen p)) c.
End Socket.

(** ** Reading *)
(** An assembly is given up, or complete. *)
Definition take_out (c : packetConn) (key : fragmentKey) (assembly : fragmentAssembly) : packetConn :=
  with_parts (delete key (parts c)) (<[source key := default 0 (sources c !! source key) - 1]> (sources c))
    (bytes_held c - bytes_in assembly) c.

Definition evict_fragment (now : Z) (c : packetConn) (kv : fragmentKey * fragmentAssembly) : packetConn :=
  let '(key, assembly) := kv in
  if now <? deadline assembly then c else take_out c key assembly.

Definition evictFragmentsLocked (now : Z) (c : packetConn) : packetConn :=
  foldl (evict_fragment now) c (map_to_list (parts c)).

Definition dropped (c : packetConn) : packetConn * option bytes := (tell FragmentDropped c, None).

Definition no_assembly (c : packetConn) (source : string) (payloadLen : Z) : bool :=
  (default 0 (sources c !! source) >=? maxReassemblyPerSource) || (Z.of_nat (size (parts c)) >=? maxReassemblyEntries)
  || (bytes_held c + payloadLen >? maxReassemblyBytes).

(** The fragment enters its assembly, which is taken out when it is complete. *)
Definition store_fragment (c : packetConn) (key : fragmentKey) (assembly : fragmentAssembly) (index : nat) (payload : bytes)
    : packetConn * option bytes :=
  let assembly := MkAssembly (total assembly) (<[index := Some payload]> (parts_of assembly)) (bytes_in assembly + llen payload) (deadline assembly) in
  let c := with_parts (<[key := assembly]> (parts c)) (sources c) (bytes_held c + llen payload) c in
  if existsb (fun p => match p with None => true | Some _ => false end) (parts_of assembly) then (c, None) else
  let packet := mjoin (default [] <$> parts_of assembly) in
  let c := take_out c key assembly in
  if llen packet =? 0 then dropped c else (c, Some packet).

Definition acceptFragment (c : packetConn) (body : bytes) (addr : option string) (now : Z) : packetConn * option bytes :=
  if llen body <? fragmentHeaderBytes then dropped c else
  let id := be_get (slice 2 4 body) in
  let index := be_get (slice 4 5 body) in
  let tot := be_get (slice 5 6 body) in
  let payloadLen := be_get (slice 6 8 body) in
  let paddingLen := be_get (slice 8 10 body) in
  if (tot <? 2) || (tot >? maxFragmentCount) || (index >=? tot) || (payloadLen =? 0)
     || negb (fragmentHeaderBytes + payloadLen + paddingLen =? llen body)
     || (llen body + obfuscationSaltBytes + obfuscationTagBytes >? MaxHandshakeFragmentWireBytes (opts c)) then dropped c else
  let source := default "" addr in
  let c := evictFragmentsLocked now c in
  let key := MkFragmentKey source id in
  let found := parts c !! key in
  if match found with None => no_assembly c source payloadLen | Some _ => false end then dropped c else
  let '(c, assembly) :=
    match found with
    | Some assembly => (c, assembly)
    | None =>
        let assembly := MkAssembly tot (replicate (Z.to_nat tot) None) 0 (now + reassemblyTTL) in
        (with_parts (<[key := assembly]> (parts c)) (<[source := default 0 (sources c !! source) + 1]> (sources c)) (bytes_held c) c, assembly)
    end in
  if negb (total assembly =? tot) || match parts_of assembly !! Z.to_nat index with Some None => false | _ => true end then dropped c else
  store_fragment c key assembly (Z.to_nat index) (slice (Z.to_nat fragmentHeaderBytes) (Z.to_nat (fragmentHeaderBytes + payloadLen)) body).

(** The body of an authentic datagram; [dst] is the length of the caller's buffer. *)
Definition accept_body (c : packetConn) (body : bytes) (addr : option string) (dst now : Z) : packetConn * option bytes :=
  match body with
  | version :: kind :: payload =>
      if negb (byte_val version =? obfuscationVersion) then dropped c else
      if byte_val kind =? obfuscationData then if llen payload >? dst then dropped c else (c, Some payload)
      else if byte_val kind =? obfuscationFragment then acceptFragment c body addr now
      else dropped c
  | _ => dropped c
  end.

Fixpoint try_keys (ks : list bytes) (c : packetConn) (salt masked gotTag : bytes) (addr : option string) (dst now : Z)
    : packetConn * option bytes :=
  match ks with
  | [] => (tell PacketRejected c, None)
  | key :: ks =>
      if negb (bool_decide (tag salt masked key = gotTag)) then try_keys ks c salt masked gotTag addr dst now else
      accept_body (tell (PacketAccepted (negb (bool_decide (key = first_key c)))) c) (mask masked salt key) addr dst now
  end.

Definition decode (c : packetConn) (wire : bytes) (addr : option string) (dst now : Z) : packetConn * option bytes :=
  if (llen wire <? obfuscationSaltBytes + obfuscationTagBytes + dataHeaderBytes) || (llen wire >? maxObfuscationDatagram) then (c, None) else
  let n := (List.length wire - Z.to_nat obfuscationTagBytes)%nat in
  try_keys (keys c) c (slice 0 16 wire) (slice 16 n wire) (skipn n wire) addr dst now.

(** [ReadFrom] into a buffer of [dst] bytes: the datagrams that arrive, with their
    senders and the times at which they are looked at; the socket fails after the last. *)
Fixpoint ReadFrom (c : packetConn) (dst : Z) (arrivals : list (bytes * option string * Z))
    : packetConn * list (bytes * option string * Z) * result (bytes * option string) :=
  match arrivals with
  | [] => (c, [], Err (EExternal "UDPConn.ReadFrom"))
  | (wire, addr, now) :: arrivals =>
      let '(c, r) := decode c wire addr dst now in
      match r with
      | None => ReadFrom c dst arrivals
      | Some packet => if llen packet >? dst then ReadFrom c dst arrivals else (c, arrivals, Ok (packet, addr))
      end
  end.
End Crypto.
