(* ===== verification/ObfuscationFacts.v ===== *)
(** * What packet camouflage guarantees

    Masking undoes itself; random bytes are never handed out twice and padding lengths
    are uniform; a packet that was written is read back, also when its fragments arrive
    in any order; forged packets change nothing; the assemblies in progress are bounded
    and counted exactly. *)
From S2P Require Import Prelude GoStd Effects Domain Datagram Control Obfuscation Samples.

(** ** Masking *)
Section Masking.
Context `{BL : !Blake2b}.

Lemma lxor_byte_range a b : 0 <= a < 256 -> 0 <= b < 256 -> 0 <= Z.lxor a b < 256.
Proof.
  intros Ha Hb. split; [apply Z.lxor_nonneg; lia|]. replace (Z.lxor a b) with (Z.lxor a b mod 2 ^ 8); [apply Z.mod_pos_bound; lia|].
  rewrite <- Z.land_ones by lia. apply Z.bits_inj'. intros i Hi. rewrite Z.land_spec, Z.testbit_ones_nonneg by lia.
  destruct (Z.ltb_spec i 8); [by rewrite andb_true_r|]. rewrite andb_false_r, Z.lxor_spec.
  assert (Hp : 2 ^ 8 <= 2 ^ i) by (apply Z.pow_le_mono_r; lia).
  destruct (Z.eq_dec a 0) as [->|Ha0], (Z.eq_dec b 0) as [->|Hb0]; rewrite ?Z.testbit_0_l; try done;
    rewrite ?(Z.bits_above_log2 a) by (try lia; apply Z.log2_lt_pow2; lia); rewrite ?(Z.bits_above_log2 b) by (try lia; apply Z.log2_lt_pow2; lia); done.
Qed.

Lemma xor_byte_involutive a b : xor_byte (xor_byte a b) b = a.
Proof.
  unfold xor_byte. rewrite byte_val_of_Z, (Z.mod_small (Z.lxor _ _)) by (apply lxor_byte_range; apply byte_val_range).
  by rewrite Z.lxor_assoc, Z.lxor_nilpotent, Z.lxor_0_r, byte_of_Z_val.
Qed.

(** The bytes that the data is combined with. *)
Fixpoint keystream (n : nat) (input : bytes) (off : nat) (counter : Z) : bytes :=
  match n with
  | O => []
  | S n => let input := copy_at input off (be_put 4 counter) in Sum256 input ++ keystream n input off ((counter + 1) mod 2 ^ 32)
  end.

Lemma keystream_length n input off counter : List.length (keystream n input off counter) = (32 * n)%nat.
Proof. revert input counter. induction n as [|n IH]; intros input counter; cbn [keystream]; [done|]. rewrite length_app, Sum256_length, IH. lia. Qed.

Lemma zip_with_take_l {A B C} (f : A -> B -> C) l k : zip_with f (firstn (List.length k) l) k = zip_with f l k.
Proof. revert l. induction k as [|b k IH]; intros [|a l]; cbn; try done. by rewrite IH. Qed.

Lemma mask_from_stream fuel data input off counter : (List.length data <= fuel)%nat ->
  mask_from fuel data input off counter = zip_with xor_byte data (keystream fuel input off counter).
Proof.
  revert data input counter. induction fuel as [|fuel IH]; intros [|b data] input counter H; cbn [List.length] in *; [done|lia|done|].
  cbn [mask_from keystream]. set (input' := copy_at _ _ _). rewrite zip_with_app_r, zip_with_take_l. f_equal.
  apply IH. rewrite length_skipn, Sum256_length. cbn [List.length]. lia.
Qed.

Lemma zip_xor_twice l k : (List.length l <= List.length k)%nat -> zip_with xor_byte (zip_with xor_byte l k) k = l.
Proof.
  revert k. induction l as [|a l IH]; intros [|b k]; cbn; intros H; try done; [lia|]. rewrite xor_byte_involutive. f_equal. apply IH. lia.
Qed.

Lemma mask_stream data salt key : mask data salt key = zip_with xor_byte data (keystream (List.length data) (mask_input salt key)
  (List.length obfuscationMaskDomain + List.length key + List.length salt) 0).
Proof. by apply mask_from_stream. Qed.

Lemma mask_length data salt key : List.length (mask data salt key) = List.length data.
Proof. rewrite mask_stream, length_zip_with, keystream_length. lia. Qed.

Lemma mask_twice data salt key : mask (mask data salt key) salt key = data.
Proof.
  rewrite (mask_stream (mask _ _ _)), mask_length, (mask_stream data). apply zip_xor_twice. rewrite keystream_length. lia.
Qed.

Lemma tag_length salt masked key : List.length (tag salt masked key) = 8%nat.
Proof. unfold tag. rewrite length_firstn, Sum256_length. done. Qed.
End Masking.

(** ** Random bytes *)
(** The bytes that were read from the system and not handed out. *)
Definition unread (c : packetConn) : bytes := skipn (randomPos c) (randomBuf c) ++ rand c.

(** What a draw leaves as it was. *)
Definition same_but_random (c c' : packetConn) : Prop :=
  keys c' = keys c /\ opts c' = opts c /\ parts c' = parts c /\ sources c' = sources c /\ bytes_held c' = bytes_held c /\
  sent c' = sent c /\ metrics c' = metrics c.

Lemma same_but_random_refl c : same_but_random c c.
Proof. done. Qed.
Lemma same_but_random_trans a b c : same_but_random a b -> same_but_random b c -> same_but_random a c.
Proof. intros (?&?&?&?&?&?&?) (?&?&?&?&?&?&?). split_and!; congruence. Qed.
#[local] Hint Resolve same_but_random_refl : core.

Lemma rand_Read_spec n c c' r : rand_Read n c = (c', r) -> same_but_random c c' /\
  (forall l, r = Ok l -> List.length l = n /\ rand c = l ++ rand c' /\ randomBuf c' = randomBuf c /\ randomPos c' = randomPos c).
Proof.
  unfold rand_Read. destruct (Nat.leb_spec n (List.length (rand c))); intros [= <- <-]; [|done].
  split; [done|]. intros l [= <-]. cbn. split_and!; [rewrite length_firstn; lia|by rewrite firstn_skipn|done|done].
Qed.

Lemma fill_random_spec fuel n c c' r : (n <= fuel)%nat -> fill_random fuel n c = (c', r) -> same_but_random c c' /\
  (forall l, r = Ok l -> List.length l = n /\ unread c = l ++ unread c').
Proof.
  revert n c c' r. induction fuel as [|fuel IH]; intros [|n] c c' r Hn; [|lia| |].
  1,2: intros [= <- <-]; split; [done|]; by intros l [= <-].
  cbn [fill_random]. intros H. apply M_bind_run in H as [(u & c1 & H1 & H)|(e & H1 & ->)].
  - assert (Hc1 : same_but_random c c1 /\ unread c = unread c1 /\ (randomPos c1 < List.length (randomBuf c1))%nat).
    { destruct (Z.leb_spec (llen (randomBuf c)) (Z.of_nat (randomPos c))) as [Hle|Hlt]; [|injection H1 as <- _; split; [done|split; [done|lia]]].
      destruct (rand_Read _ _) as [c2 [block|e]] eqn:Er; [|done]. injection H1 as <- _.
      apply rand_Read_spec in Er as [Hs Hl]. destruct (Hl _ eq_refl) as (Hb & Hr & _ & _). cbn in Hr.
      split_and!; try done; [|cbn; rewrite Hb; unfold randomBufferSize; lia].
      unfold unread. cbn. rewrite skipn_all2 by lia. by rewrite Hr. }
    destruct Hc1 as (Hs1 & Hu1 & Hp1). apply M_bind_run in H as [(part & c2 & H2 & H)|(e & [=] & _)].
    injection H2 as <- <-. set (part := firstn (S n) (skipn (randomPos c1) (randomBuf c1))) in *.
    assert (Hpart : (0 < List.length part <= S n)%nat) by (unfold part; rewrite length_firstn, length_skipn; lia).
    apply M_bind_run in H as [(rest & c3 & H3 & H)|(e & H3 & ->)].
    + injection H as <- <-. apply IH in H3 as [Hs3 Hl3]; [|lia]. destruct (Hl3 _ eq_refl) as [Hlen Hun].
      split; [eapply same_but_random_trans; [exact Hs1|exact Hs3]|]. intros l [= <-]. rewrite length_app. split; [lia|].
      rewrite Hu1, <- app_assoc, <- Hun. unfold unread. cbn. rewrite Nat.add_comm, <- skipn_skipn, app_assoc. f_equal.
      unfold part at 1. set (l := skipn _ _) in *. rewrite <- (firstn_skipn (S n) l) at 1. f_equal. unfold part.
      rewrite length_firstn. destruct (Nat.min_spec (S n) (List.length l)) as [[? ->]|[? ->]]; [done|]. by rewrite !skipn_all2 by lia.
    + apply IH in H3 as [Hs3 _]; [|lia]. split; [|done]. eapply same_but_random_trans; [exact Hs1|exact Hs3].
  - split; [|done]. destruct (_ <=? _); [|done]. destruct (rand_Read _ _) as [c2 [block|e2]] eqn:Er; [done|].
    injection H1 as <- _. by apply rand_Read_spec in Er as [Hs _].
Qed.

Lemma randomBytes_spec n c c' r : randomBytes n c = (c', r) -> same_but_random c c' /\
  (forall l, r = Ok l -> List.length l = n /\ unread c = l ++ unread c').
Proof. by apply fill_random_spec. Qed.

Lemma draw_below_spec fuel limit n c c' r : 0 < n -> draw_below fuel limit n c = (c', r) ->
  same_but_random c c' /\ forall v, r = Ok v -> 0 <= v < n.
Proof.
  intros Hn. revert c c' r. induction fuel as [|fuel IH]; intros c c' r; cbn [draw_below]; intros H;
    (apply M_bind_run in H as [(buf & c1 & [Hs _]%rand_Read_spec & H)|(e & [Hs _]%rand_Read_spec & ->)]; [|done]);
    destruct (be_get buf <? limit).
  - injection H as <- <-. split; [done|]. intros v [= <-]. by apply Z.mod_pos_bound.
  - by injection H as <- <-.
  - injection H as <- <-. split; [done|]. intros v [= <-]. by apply Z.mod_pos_bound.
  - apply IH in H as [Hs' Hv]. split; [|done]. by eapply same_but_random_trans.
Qed.

Lemma Uint16n_spec n c c' r : 0 <= n -> Uint16n n c = (c', r) -> same_but_random c c' /\ forall v, r = Ok v -> 0 <= v < n.
Proof.
  intros Hn. unfold Uint16n. destruct (Z.eqb_spec n 0); [by intros [= <- <-]|]. destruct (n >? 65536); [by intros [= <- <-]|].
  apply draw_below_spec. lia.
Qed.

(** ** Uniform lengths *)
(** What one draw of two bytes gives: [None] when it is rejected. *)
Definition outcome (n value : Z) : option Z := if value <? 65536 - 65536 mod n then Some (value mod n) else None.

Lemma outcome_count n r : 0 < n <= 65536 -> 0 <= r < n ->
  List.length (filter (fun value => outcome n value = Some r) (seqZ 0 65536)) = Z.to_nat (65536 / n).
Proof.
  intros Hn Hr. set (q := 65536 / n). assert (Hl : 65536 - 65536 mod n = n * q) by (unfold q; pose proof (Z.div_mod 65536 n); lia).
  pose proof (Z.mod_pos_bound 65536 n). assert (Hq : 0 <= q) by (apply Z.div_pos; lia).
  assert (Hp : filter (fun value => outcome n value = Some r) (seqZ 0 65536) ≡ₚ (fun k => n * k + r) <$> seqZ 0 q).
  { apply NoDup_Permutation.
    - apply NoDup_filter, NoDup_seqZ.
    - apply NoDup_fmap_2; [intros a b Hab; nia|apply NoDup_seqZ].
    - intros v. rewrite list_elem_of_filter, list_elem_of_fmap, elem_of_seqZ. unfold outcome. rewrite Hl. split.
      + intros [Hm Hv]. destruct (Z.ltb_spec v (n * q)); [|done]. injection Hm as Hm. exists (v / n). rewrite elem_of_seqZ.
        pose proof (Z.div_mod v n). split; [lia|]. split; [apply Z.div_pos; lia|]. apply Z.div_lt_upper_bound; lia.
      + intros (k & -> & Hk%elem_of_seqZ). split; [|nia]. destruct (Z.ltb_spec (n * k + r) (n * q)); [|nia].
        f_equal. rewrite Z.add_comm, Z.mul_comm, Z.mod_add, Z.mod_small by lia. done. }
  by rewrite Hp, length_fmap, length_seqZ.
Qed.

(** The padding lengths are uniform: a draw for a range of 1 to 65536 values that
    succeeds is in the range, and of the 65536 values that two random bytes can have, the
    accepted ones give every result equally often; other ranges are refused without a
    draw. *)
Theorem Uint16n_uniform n c : 0 <= n ->
  (forall c' v, Uint16n n c = (c', Ok v) -> 0 <= v < n) /\
  (0 < n <= 65536 -> forall r, 0 <= r < n ->
     List.length (filter (fun value => outcome n value = Some r) (seqZ 0 65536)) = Z.to_nat (65536 / n)) /\
  (forall value, 0 < n <= 65536 -> 0 <= value < 65536 -> rand c = be_put 2 value ->
     (Uint16n n c).2 = match outcome n value with Some v => Ok v | None => Err (EExternal "rand.Read") end) /\
  (n = 0 \/ 65536 < n -> Uint16n n c = (c, Err (ENew "random range is out of bounds"))).
Proof.
  intros Hn. split_and!.
  - intros c' v Hu. destruct (Uint16n_spec n c c' (Ok v) Hn Hu) as [_ Hv]. by apply Hv.
  - intros Hn' r Hr. by apply outcome_count.
  - intros value Hn' Hv Hc. unfold Uint16n. destruct (Z.eqb_spec n 0); [lia|]. destruct (Z.gtb_spec n 65536); [lia|]. cbn [orb].
    assert (Hd : rand_Read 2 c = (with_random (randomBuf c) (randomPos c) [] c, Ok (be_put 2 value))) by (unfold rand_Read; by rewrite Hc).
    rewrite Hc, be_put_length. unfold outcome. cbn [draw_below]. cbv [mbind M_bind]. rewrite Hd, be_get_put_small by (cbn; lia).
    by destruct (value <? _).
  - intros Hn'. unfold Uint16n. destruct (Z.eqb_spec n 0); [done|]. by destruct (Z.gtb_spec n 65536); [|lia].
Qed.

(** ** Sealed datagrams *)
Section Packets.
Context `{BL : !Blake2b}.

(** The datagram that carries [body] under [key]. *)
Definition sealed_as (key body wire : bytes) : Prop :=
  exists salt, List.length salt = 16%nat /\ wire = salt ++ mask body salt key ++ tag salt (mask body salt key) key.

Lemma sealed_length key body wire : sealed_as key body wire -> llen wire = llen body + 24.
Proof. intros (salt & Hl & ->). rewrite !length_app, mask_length, tag_length. lia. Qed.

Lemma seal_spec body c c' r : seal body c = (c', r) -> same_but_random c c' /\ forall wire, r = Ok wire -> sealed_as (first_key c) body wire.
Proof.
  unfold seal. intros H. apply M_bind_run in H as [(salt & c1 & [Hs Hl]%randomBytes_spec & H)|(e & [Hs _]%randomBytes_spec & ->)]; [|done].
  apply M_bind_run in H as [(key & c2 & H2 & H)|(e & [=] & _)]. injection H2 as <- <-. injection H as <- <-. split; [done|].
  intros wire [= <-]. exists salt. split; [by apply (Hl salt)|]. unfold first_key. by destruct Hs as (-> & _).
Qed.

(** The datagram carries a valid tag under the key. *)
Definition authenticates (wire key : bytes) : bool :=
  let n := (List.length wire - 8)%nat in bool_decide (tag (slice 0 16 wire) (slice 16 n wire) key = skipn n wire).

Lemma try_keys_find ks c wire addr dst now :
  let n := (List.length wire - 8)%nat in
  try_keys ks c (slice 0 16 wire) (slice 16 n wire) (skipn n wire) addr dst now =
  match find (authenticates wire) ks with
  | None => (tell PacketRejected c, None)
  | Some key => accept_body (tell (PacketAccepted (negb (bool_decide (key = first_key c)))) c)
                  (mask (slice 16 n wire) (slice 0 16 wire) key) addr dst now
  end.
Proof.
  cbv zeta. induction ks as [|key ks IH]; [done|]. cbn [try_keys find]. unfold authenticates at 1.
  destruct (bool_decide (tag _ _ key = _)); [done|exact IH].
Qed.

(** A datagram is read as its body by the first key that it authenticates under. *)
(** The body under the mask. *)
Definition unmask (key wire : bytes) : bytes := mask (slice 16 (List.length wire - 8) wire) (slice 0 16 wire) key.

Lemma unmask_sealed key body wire : sealed_as key body wire -> unmask key wire = body.
Proof.
  intros (salt & H16 & ->). unfold unmask, slice. rewrite Nat.sub_0_r, skipn_O, take_app_length' by done.
  rewrite drop_app_length' by done. rewrite length_app, length_app, tag_length, H16. rewrite take_app_length' by lia. apply mask_twice.
Qed.

Lemma decode_sealed c wire key body addr dst now :
  sealed_as key body wire -> 2 <= llen body -> llen wire <= maxObfuscationDatagram ->
  find (authenticates wire) (keys c) = Some key ->
  decode c wire addr dst now = accept_body (tell (PacketAccepted (negb (bool_decide (key = first_key c)))) c) body addr dst now.
Proof.
  intros Hs Hb Hw Hf. pose proof (sealed_length _ _ _ Hs) as Hl. unfold decode.
  destruct (Z.ltb_spec (llen wire) (obfuscationSaltBytes + obfuscationTagBytes + dataHeaderBytes)) as [Hlt|_];
    [unfold obfuscationSaltBytes, obfuscationTagBytes, dataHeaderBytes in Hlt; lia|].
  destruct (Z.gtb_spec (llen wire) maxObfuscationDatagram); [lia|]. cbn [orb]. change (Z.to_nat obfuscationTagBytes) with 8%nat.
  rewrite try_keys_find, Hf. f_equal. by apply unmask_sealed.
Qed.

Lemma decode_forged c wire addr dst now : find (authenticates wire) (keys c) = None ->
  (decode c wire addr dst now = (c, None) \/ decode c wire addr dst now = (tell PacketRejected c, None)).
Proof.
  intros Hf. unfold decode. destruct (_ || _); [by left|]. right. change (Z.to_nat obfuscationTagBytes) with 8%nat. by rewrite try_keys_find, Hf.
Qed.

(** ** Fragments *)
Definition fragment_body (id index total : Z) (payload pad : bytes) : bytes :=
  [byte_of_Z obfuscationVersion; byte_of_Z obfuscationFragment] ++ be_put 2 id ++ [byte_of_Z index; byte_of_Z total]
  ++ be_put 2 (llen payload) ++ be_put 2 (llen pad) ++ payload ++ pad.

Lemma fragment_body_length id index total payload pad : llen (fragment_body id index total payload pad) = 10 + llen payload + llen pad.
Proof. unfold fragment_body. rewrite !length_app, !be_put_length. cbn [List.length]. lia. Qed.

Lemma padding_draw (lo hi : Z) c : 0 <= lo -> exists c1 rp,
  (if hi >? lo then value ← Uint16n (hi - lo + 1); mret (lo + value) else mret lo) c = (c1, rp) /\
  same_but_random c c1 /\ forall padding, rp = Ok padding -> lo <= padding <= Z.max lo hi.
Proof.
  intros Hlo. destruct (Z.gtb_spec hi lo); [|exists c, (Ok lo); split_and!; try done; by intros padding [= <-]; lia].
  destruct ((value ← Uint16n (hi - lo + 1); mret (lo + value)) c) as [c1 rp] eqn:E. exists c1, rp. split; [done|].
  apply M_bind_run in E as [(v & c2 & Hu & E)|(e & Hu & ->)]; apply Uint16n_spec in Hu as [Hs Hv]; try lia; [|done].
  injection E as <- <-. split; [done|]. intros padding [= <-]. specialize (Hv v eq_refl). lia.
Qed.

Lemma fragmentBody_spec o id index total payload c c' r :
  fragmentBody o id index total payload c = (c', r) -> same_but_random c c' /\
  forall body, r = Ok body -> exists pad, body = fragment_body id index total payload pad /\
    34 + llen payload + llen pad <= Z.max (MinFragmentBytes o) (MaxFragmentBytes o).
Proof.
  unfold fragmentBody. change (fragmentHeaderBytes + obfuscationSaltBytes + obfuscationTagBytes) with 34.
  destruct (Z.gtb_spec (34 + llen payload) (MaxFragmentBytes o)) as [|Hb]; [by intros [= <- <-]|]. unfold padding_range.
  change (fragmentHeaderBytes + obfuscationSaltBytes + obfuscationTagBytes) with 34. cbv zeta.
  set (lo := Z.max 0 (MinFragmentBytes o - _)). set (hi := Z.max 0 (MaxFragmentBytes o - _)). intros H.
  destruct (padding_draw lo hi c) as (c1 & rp & Ep & Hs1 & Hp); [lia|]. apply M_bind_run in H as [(padding & c2 & H1 & H)|(e & H1 & ->)];
    rewrite Ep in H1; injection H1 as <- ->; [|done]. specialize (Hp _ eq_refl).
  destruct (Z.gtb_spec padding 0).
  - apply M_bind_run in H as [(pad & c2 & [Hs2 Hl2]%randomBytes_spec & H)|(e & [Hs2 _]%randomBytes_spec & ->)];
      [|split; [by eapply same_but_random_trans|done]].
    injection H as <- <-. split; [by eapply same_but_random_trans|]. intros body [= <-]. destruct (Hl2 _ eq_refl) as [Hlen _].
    assert (Hpad : padding = llen pad) by lia. exists pad. rewrite Hpad in *. split; [done|]. lia.
  - injection H as <- <-. split; [done|]. intros body [= <-]. assert (padding = 0) as -> by lia. exists []. split; [unfold fragment_body; by rewrite app_nil_r|]. cbn. lia.
Qed.

(** *** Sending the fragments of a packet *)
(** The pieces of a packet. *)
Fixpoint chunks (fuel : nat) (size : nat) (l : bytes) : list bytes :=
  match fuel, l with S fuel, _ :: _ => firstn size l :: chunks fuel size (skipn size l) | _, _ => [] end.

Lemma chunks_join fuel size l : (0 < size)%nat -> (List.length l <= fuel)%nat -> mjoin (chunks fuel size l) = l.
Proof.
  intros Hs. revert l. induction fuel as [|fuel IH]; intros [|a l] Hl; cbn [List.length] in *; [done|lia|done|].
  cbn [chunks]. match goal with |- mjoin (?x :: ?y) = ?z => change (x ++ mjoin y = z) end. rewrite IH by (rewrite length_skipn; cbn [List.length]; lia). by rewrite firstn_skipn.
Qed.

Lemma chunks_length fuel size l : (0 < size)%nat -> (List.length l <= fuel)%nat ->
  llen (chunks fuel size l) = (llen l + Z.of_nat size - 1) / Z.of_nat size.
Proof.
  intros Hs. revert l. induction fuel as [|fuel IH]; intros [|a l] Hl; cbn [List.length] in *; try lia.
  - cbn. symmetry. apply Z.div_small. lia.
  - cbn. symmetry. apply Z.div_small. lia.
  - set (k := a :: l) in *. assert (Hk : List.length k = S (List.length l)) by done. change (chunks (S fuel) size k) with (firstn size k :: chunks fuel size (skipn size k)).
    clearbody k. cbn [List.length]. rewrite Nat2Z.inj_succ, IH by (rewrite length_skipn; lia). rewrite length_skipn, <- ?Hk.
    destruct (decide (size <= List.length k)%nat).
    + replace (llen k + Z.of_nat size - 1) with ((Z.of_nat (List.length k - size) + Z.of_nat size - 1) + 1 * Z.of_nat size) by lia.
      rewrite Z.div_add by lia. lia.
    + replace (List.length k - size)%nat with 0%nat by lia. rewrite Z.div_small by lia.
      replace (llen k + Z.of_nat size - 1) with ((llen k - 1) + 1 * Z.of_nat size) by lia. rewrite Z.div_add, Z.div_small by lia. lia.
Qed.

Lemma chunks_bound fuel size l ch : (0 < size)%nat -> ch ∈ chunks fuel size l -> (0 < List.length ch <= size)%nat.
Proof.
  intros Hs. revert l. induction fuel as [|fuel IH]; intros [|a l]; cbn [chunks]; rewrite ?elem_of_nil; try done.
  intros [->|H]%elem_of_cons; [rewrite length_firstn; cbn [List.length]; lia|by eapply IH].
Qed.

(** The datagram of one fragment: [chunk] is its payload. *)
Definition fragment_wire (key : bytes) (id index total : Z) (limit : Z) (chunk wire : bytes) : Prop :=
  exists pad, sealed_as key (fragment_body id index total chunk pad) wire /\ llen wire <= limit.

Definition same_but_sent (c c' : packetConn) : Prop :=
  keys c' = keys c /\ opts c' = opts c /\ parts c' = parts c /\ sources c' = sources c /\ bytes_held c' = bytes_held c /\ metrics c' = metrics c.

Lemma write_chunks_spec send fuel o id total size index rest c c' :
  write_chunks send fuel o id total (Z.of_nat size) index rest c = (c', Ok tt) ->
  same_but_sent c c' /\ exists wires, sent c' = sent c ++ wires /\ List.length wires = List.length (chunks fuel size rest) /\
    forall i chunk wire, chunks fuel size rest !! i = Some chunk -> wires !! i = Some wire ->
      fragment_wire (first_key c) id (index + Z.of_nat i) total (MaxHandshakeFragmentWireBytes o) chunk wire.
Proof.
  revert index rest c. induction fuel as [|fuel IH]; intros index [|a rest] c; cbn [write_chunks chunks];
    [intros [= <-]; split; [done|]; exists []; by rewrite app_nil_r..|].
  set (l := a :: rest). rewrite Nat2Z.id. intros H.
  apply M_bind_run in H as [(body & c1 & [Hs1 Hb]%fragmentBody_spec & H)|(e & _ & [=])]. destruct (Hb _ eq_refl) as (pad & -> & _).
  apply M_bind_run in H as [(wire & c2 & [Hs2 Hw]%seal_spec & H)|(e & _ & [=])]. specialize (Hw _ eq_refl).
  destruct (Z.gtb_spec (llen wire) (MaxHandshakeFragmentWireBytes o)) as [|Hlim]; [done|].
  apply M_bind_run in H as [(u & c3 & H3 & H)|(e & _ & [=])]. unfold socket_write in H3. destruct (send wire); [|done]. injection H3 as <- _.
  assert (Hk : first_key c1 = first_key c) by (unfold first_key; by destruct Hs1 as (-> & _)). rewrite Hk in Hw.
  destruct Hs1 as (K1 & K2 & K3 & K4 & K5 & K6 & K7), Hs2 as (J1 & J2 & J3 & J4 & J5 & J6 & J7).
  apply IH in H as [(L1 & L2 & L3 & L4 & L5 & L6) (wires & Hsent & Hlen & Hwires)]. cbn in *.
  split; [split_and!; congruence|]. exists (wire :: wires). split_and!.
  - rewrite Hsent, J6, K6, <- app_assoc. done.
  - cbn. by rewrite Hlen.
  - intros [|i] chunk w; cbn.
    + intros [= <-] [= <-]. rewrite Z.add_0_r. by exists pad.
    + intros Hc Hwi. replace (index + Z.of_nat (S i)) with (index + 1 + Z.of_nat i) by lia.
      assert (Hk2 : first_key c = first_key (MkConn (keys c2) (opts c2) (parts c2) (sources c2) (bytes_held c2) (randomBuf c2) (randomPos c2) (rand c2) (sent c2 ++ [wire]) (metrics c2))).
      { unfold first_key. cbn. by rewrite J1, K1. }
      rewrite Hk2. by apply Hwires.
Qed.
End Packets.

(** ** Receiving fragments *)
Lemma evict_fold (I : packetConn -> Prop) now :
  (forall c key A, I c -> parts c !! key = Some A -> deadline A <= now -> I (take_out c key A)) ->
  forall l c, NoDup l.*1 -> (forall key A, (key, A) ∈ l -> parts c !! key = Some A) -> I c -> I (foldl (evict_fragment now) c l).
Proof.
  intros Hstep l. induction l as [|[key A] l IH]; intros c Hn Hl HI; [done|]. apply NoDup_cons in Hn as [Hkey Hn]. cbn [foldl].
  change (evict_fragment now c (key, A)) with (if now <? deadline A then c else take_out c key A). destruct (Z.ltb_spec now (deadline A)); apply IH; try done.
  - intros k B Hk. apply Hl. by right.
  - intros k B Hk. cbn. rewrite lookup_delete_ne; [apply Hl; by right|]. intros ->. apply Hkey. apply list_elem_of_fmap. by exists (k, B).
  - apply Hstep; [done|apply Hl; by left|done].
Qed.

Lemma evict_inv (I : packetConn -> Prop) now c :
  (forall c key A, I c -> parts c !! key = Some A -> deadline A <= now -> I (take_out c key A)) -> I c -> I (evictFragmentsLocked now c).
Proof.
  intros Hstep HI. unfold evictFragmentsLocked. apply evict_fold; [done| |by intros key A Hk%elem_of_map_to_list|done]. apply NoDup_fst_map_to_list.
Qed.

Lemma evict_keeps now c : keys (evictFragmentsLocked now c) = keys c /\ opts (evictFragmentsLocked now c) = opts c /\
  parts (evictFragmentsLocked now c) ⊆ parts c /\
  (forall key A, parts c !! key = Some A -> now < deadline A -> parts (evictFragmentsLocked now c) !! key = Some A).
Proof.
  apply (evict_inv (fun c' => keys c' = keys c /\ opts c' = opts c /\ parts c' ⊆ parts c /\
    forall key A, parts c !! key = Some A -> now < deadline A -> parts c' !! key = Some A)); [|done].
  intros c' key A (H1 & H2 & H3 & H4) Hk Hd. split_and!; try done.
  - cbn. etrans; [apply delete_subseteq|done].
  - intros k B HB Hlt. cbn. rewrite lookup_delete_ne; [by apply H4|]. intros ->.
    assert (parts c !! k = Some A) by (by eapply lookup_weaken). assert (A = B) by congruence. subst. lia.
Qed.

(** The assembly of the packet, when the fragments [got] have arrived. *)
Definition piece (got : list nat) (i : nat) (chunk : bytes) : option bytes := if decide (i ∈ got) then Some chunk else None.

Definition collecting (c : packetConn) (key : fragmentKey) (pieces : list bytes) (until : Z) (got : list nat) : Prop :=
  exists n, parts c !! key = Some (MkAssembly (llen pieces) (imap (piece got) pieces) n until).

Lemma piece_insert got i pieces chunk : pieces !! i = Some chunk ->
  <[i := Some chunk]> (imap (piece got) pieces) = imap (piece (i :: got)) pieces.
Proof.
  intros Hi. apply list_eq. intros j. rewrite list_lookup_imap. destruct (decide (i = j)) as [->|Hne].
  - rewrite list_lookup_insert_eq by (rewrite length_imap; by eapply lookup_lt_Some). rewrite Hi. cbn. unfold piece. destruct (decide _) as [|Hn]; [done|]. destruct Hn. by left.
  - rewrite list_lookup_insert_ne, list_lookup_imap by done. destruct (pieces !! j); [|done]. cbn. unfold piece. f_equal.
    destruct (decide (j ∈ got)), (decide (j ∈ i :: got)) as [Hin|Hin]; try done; [destruct Hin; by right|].
    apply elem_of_cons in Hin as [->|Hin]; done.
Qed.

(** The header of a fragment is read as it was written. *)
Lemma acceptFragment_body c id index pieces chunk pad addr now :
  0 <= id < 65536 -> pieces !! index = Some chunk -> 2 <= llen pieces <= maxFragmentCount ->
  0 < llen chunk < 65536 -> llen pad < 65536 ->
  llen (fragment_body id (Z.of_nat index) (llen pieces) chunk pad) + 24 <= MaxHandshakeFragmentWireBytes (opts c) ->
  acceptFragment c (fragment_body id (Z.of_nat index) (llen pieces) chunk pad) addr now =
  let c := evictFragmentsLocked now c in
  let key := MkFragmentKey (default "" addr) id in
  let found := parts c !! key in
  if match found with None => no_assembly c (default "" addr) (llen chunk) | Some _ => false end then dropped c else
  let '(c, assembly) :=
    match found with
    | Some assembly => (c, assembly)
    | None =>
        let assembly := MkAssembly (llen pieces) (replicate (Z.to_nat (llen pieces)) None) 0 (now + reassemblyTTL) in
        (with_parts (<[key := assembly]> (parts c)) (<[default "" addr := default 0 (sources c !! default "" addr) + 1]> (sources c)) (bytes_held c) c, assembly)
    end in
  if negb (total assembly =? llen pieces) || match parts_of assembly !! index with Some None => false | _ => true end then dropped c else
  store_fragment c key assembly index chunk.
Proof.
  intros Hid Hi Ht Hc Hp Hw. apply lookup_lt_Some in Hi as Hlt. unfold acceptFragment. set (body := fragment_body _ _ _ _ _) in *.
  unfold maxFragmentCount in Ht. assert (Hl : llen body = 10 + llen chunk + llen pad) by apply fragment_body_length.
  assert (E1 : slice 2 4 body = be_put 2 id) by done. assert (E2 : slice 4 5 body = be_put 1 (Z.of_nat index)).
  { change (slice 4 5 body) with [byte_of_Z (Z.of_nat index)]. cbn. by rewrite Z.div_1_r. }
  assert (E3 : slice 5 6 body = be_put 1 (llen pieces)).
  { change (slice 5 6 body) with [byte_of_Z (llen pieces)]. cbn. by rewrite Z.div_1_r. }
  assert (E4 : slice 6 8 body = be_put 2 (llen chunk)) by done. assert (E5 : slice 8 10 body = be_put 2 (llen pad)) by done.
  assert (E6 : slice 10 (10 + List.length chunk) body = chunk).
  { unfold slice. replace (10 + List.length chunk - 10)%nat with (List.length chunk) by lia.
    change (skipn 10 body) with (chunk ++ pad). by rewrite take_app_length. }
  clearbody body. rewrite E1, E2, E3, E4, E5, !be_get_put_small by (cbn; lia).
  unfold fragmentHeaderBytes, maxFragmentCount, obfuscationSaltBytes, obfuscationTagBytes. rewrite !Hl.
  destruct (Z.ltb_spec (10 + llen chunk + llen pad) 10); [lia|]. destruct (Z.ltb_spec (llen pieces) 2); [lia|].
  destruct (Z.gtb_spec (llen pieces) 8); [lia|]. destruct (Z.geb_spec (Z.of_nat index) (llen pieces)); [lia|].
  destruct (Z.eqb_spec (llen chunk) 0); [lia|]. destruct (Z.eqb_spec (10 + llen chunk + llen pad) (10 + llen chunk + llen pad)); [|lia].
  destruct (Z.gtb_spec (10 + llen chunk + llen pad + 16 + 8) (MaxHandshakeFragmentWireBytes (opts c))); [lia|].
  cbn [orb negb]. rewrite !Nat2Z.id. change (Z.to_nat 10) with 10%nat. replace (Z.to_nat (10 + llen chunk)) with (10 + List.length chunk)%nat by lia.
  by rewrite E6.
Qed.

(** What reading never changes. *)
Definition same_setup (c c' : packetConn) : Prop := keys c' = keys c /\ opts c' = opts c.

Lemma store_spec c key n until got pieces i chunk :
  pieces !! i = Some chunk -> 0 < llen chunk ->
  let r := store_fragment c key (MkAssembly (llen pieces) (imap (piece got) pieces) n until) i chunk in
  same_setup c r.1 /\
  ((exists j, (j < List.length pieces)%nat /\ j ∉ i :: got) -> r.2 = None /\ collecting r.1 key pieces until (i :: got)) /\
  ((forall j, (j < List.length pieces)%nat -> j ∈ i :: got) -> r.2 = Some (mjoin pieces) /\ parts r.1 !! key = None).
Proof.
  intros Hi Hc. cbv zeta. unfold store_fragment. cbn [parts_of total bytes_in deadline]. rewrite (piece_insert _ _ _ _ Hi).
  set (l := imap _ _). destruct (existsb _ l) eqn:Ex; cbn [fst snd].
  - split; [done|]. split; [intros _; split; [done|]; eexists; cbn; by rewrite lookup_insert_eq|].
    intros Hall. apply existsb_exists in Ex as (x & Hx & Hnone). apply list_elem_of_In, list_elem_of_lookup in Hx as (j & Hj).
    unfold l in Hj. rewrite list_lookup_imap in Hj. destruct (pieces !! j) as [ch|] eqn:Ej; [|done]. cbn in Hj. injection Hj as <-.
    unfold piece in Hnone. destruct (decide (j ∈ i :: got)) as [|Hn]; [done|]. destruct Hn. apply Hall. by eapply lookup_lt_Some.
  - assert (Hall : forall j, (j < List.length pieces)%nat -> j ∈ i :: got).
    { intros j Hj. destruct (decide (j ∈ i :: got)) as [|Hn]; [done|]. apply not_true_iff_false in Ex. destruct Ex. apply existsb_exists. exists None.
      split; [|done]. apply list_elem_of_In, list_elem_of_lookup. exists j. unfold l. rewrite list_lookup_imap.
      destruct (lookup_lt_is_Some_2 pieces j Hj) as [ch ->]. cbn. unfold piece. by destruct (decide _). }
    assert (Hl : default [] <$> l = pieces).
    { apply list_eq. intros j. rewrite list_lookup_fmap. unfold l. rewrite list_lookup_imap. destruct (pieces !! j) as [ch|] eqn:Ej; [|done]. cbn.
      unfold piece. destruct (decide _) as [|Hn]; [done|]. destruct Hn. apply Hall. by eapply lookup_lt_Some. }
    rewrite Hl. assert (Hpos : llen (mjoin pieces) <> 0).
    { apply list_elem_of_split_length in Hi as (l1 & l2 & -> & _). rewrite join_app, length_app. cbn. rewrite length_app. lia. }
    destruct (Z.eqb_spec (llen (mjoin pieces)) 0); [done|]. cbn. split; [done|]. split.
    + intros (j & Hj & Hn). destruct Hn. by apply Hall.
    + intros _. split; [done|]. by rewrite lookup_delete_eq.
Qed.

Lemma evict_tell now e c : evictFragmentsLocked now (tell e c) = tell e (evictFragmentsLocked now c).
Proof.
  unfold evictFragmentsLocked. change (parts (tell e c)) with (parts c). generalize (map_to_list (parts c)). intros l. revert c.
  induction l as [|[key A] l IH]; intros c; [done|]. cbn [foldl]. rewrite <- IH. f_equal.
  change (evict_fragment now ?x (key, A)) with (if now <? deadline A then x else take_out x key A). by destruct (now <? deadline A).
Qed.

Lemma piece_none pieces : replicate (List.length pieces) None = imap (piece []) pieces.
Proof.
  apply list_eq. intros j. rewrite list_lookup_imap. destruct (pieces !! j) as [ch|] eqn:Ej.
  - rewrite lookup_replicate_2 by (by eapply lookup_lt_Some). cbn. unfold piece. by destruct (decide _) as [Hin%elem_of_nil|].
  - apply lookup_ge_None in Ej. cbn. apply lookup_ge_None. by rewrite length_replicate.
Qed.

Lemma join_length (pieces : list bytes) i chunk : pieces !! i = Some chunk -> llen chunk <= llen (mjoin pieces).
Proof. intros (l1 & l2 & -> & _)%list_elem_of_split_length. rewrite join_app, length_app. cbn. rewrite length_app. lia. Qed.

(** *** One packet arriving *)
Section Arrival.
Context `{BL : !Blake2b}.
Context (key : bytes) (id : Z) (pieces wires : list bytes) (addr : option string) (dst limit : Z).

Definition good_wire (i : nat) : Prop := exists chunk wire,
  pieces !! i = Some chunk /\ wires !! i = Some wire /\ fragment_wire key id (Z.of_nat i) (llen pieces) limit chunk wire /\ 0 < llen chunk.

Definition wire_at (i : nat) : bytes := default [] (wires !! i).
Definition fkey : fragmentKey := MkFragmentKey (default "" addr) id.

Lemma fragment_arrives c i now until got :
  0 <= id < 65536 -> 2 <= llen pieces <= maxFragmentCount -> limit <= maxObfuscationDatagram -> limit <= MaxHandshakeFragmentWireBytes (opts c) ->
  good_wire i -> find (authenticates (wire_at i)) (keys c) = Some key ->
  (parts c !! fkey = None /\ no_assembly (evictFragmentsLocked now c) (default "" addr) (llen (mjoin pieces)) = false /\ got = [] /\ until = now + reassemblyTTL)
  \/ (collecting c fkey pieces until got /\ now < until /\ i ∉ got) ->
  let r := decode c (wire_at i) addr dst now in
  same_setup c r.1 /\
  ((exists j, (j < List.length pieces)%nat /\ j ∉ i :: got) -> r.2 = None /\ collecting r.1 fkey pieces until (i :: got)) /\
  ((forall j, (j < List.length pieces)%nat -> j ∈ i :: got) -> r.2 = Some (mjoin pieces) /\ parts r.1 !! fkey = None).
Proof.
  intros Hid Ht Hlim Hlim' (chunk & wire & Hch & Hwi & (pad & Hs & Hw) & Hpos) Hf Hstate. cbv zeta.
  unfold wire_at in *. rewrite Hwi in *. cbn [from_option Datatypes.id] in *. pose proof (sealed_length _ _ _ Hs) as Hlw. rewrite fragment_body_length in Hlw.
  set (body := fragment_body id (Z.of_nat i) (llen pieces) chunk pad) in *.
  assert (Hmax : maxObfuscationDatagram = 65536) by done.
  rewrite (decode_sealed c wire key body addr dst now Hs) by (try done; try lia; unfold body; rewrite fragment_body_length; lia).
  set (e := PacketAccepted _). change (accept_body (tell e c) body addr dst now) with (acceptFragment (tell e c) body addr now).
  unfold body. rewrite acceptFragment_body; try done; try lia; [|rewrite fragment_body_length; cbn; lia].
  cbv zeta. rewrite evict_tell. fold fkey. destruct (evict_keeps now c) as (Hk & Ho & Hsub & Hkeep).
  set (c1 := evictFragmentsLocked now c) in *. change (parts (tell e c1)) with (parts c1). assert (Hi := lookup_lt_Some _ _ _ Hch).
  destruct Hstate as [(Hnone & Hroom & -> & ->)|((n & Hn) & Hlt & Hgot)].
  - assert (Hnone1 : parts c1 !! fkey = None) by (by eapply lookup_weaken_None). rewrite Hnone1.
    assert (Hroom1 : no_assembly (tell e c1) (default "" addr) (llen chunk) = false).
    { unfold no_assembly in *. cbn. rewrite !orb_false_iff in Hroom. destruct Hroom as [[-> ->] Hb]. cbn [orb].
      pose proof (join_length _ _ _ Hch). destruct (Z.gtb_spec (bytes_held c1 + llen (mjoin pieces)) maxReassemblyBytes); [done|].
      destruct (Z.gtb_spec (bytes_held c1 + llen chunk) maxReassemblyBytes); [lia|done]. }
    rewrite Hroom1. cbn [total parts_of]. rewrite Z.eqb_refl, Nat2Z.id, lookup_replicate_2 by done. cbn [negb orb].
    rewrite piece_none. match goal with |- context [store_fragment ?c2 _ _ _ _] =>
      destruct (store_spec c2 fkey 0 (now + reassemblyTTL) [] pieces i chunk Hch Hpos) as [[Hs1 Hs2] Hrest] end.
    split; [|exact Hrest]. split; [by rewrite Hs1|by rewrite Hs2].
  - rewrite (Hkeep _ _ Hn Hlt). cbn [total parts_of]. rewrite Z.eqb_refl, list_lookup_imap, Hch. cbn [negb orb fmap option_fmap option_map].
    assert (Hpc : piece got i chunk = None) by (unfold piece; by destruct (decide (i ∈ got))). rewrite Hpc. cbn [negb orb].
    destruct (store_spec (tell e c1) fkey n until got pieces i chunk Hch Hpos) as [[Hs1 Hs2] Hrest].
    split; [|exact Hrest]. split; [by rewrite Hs1|by rewrite Hs2].
Qed.

Definition arrival (x : nat * Z) : bytes * option string * Z := (wire_at x.1, addr, x.2).

(** The rest of the fragments, after those of [got]. *)
Lemma rest_arrives c until got arrivals :
  0 <= id < 65536 -> 2 <= llen pieces <= maxFragmentCount -> limit <= maxObfuscationDatagram -> limit <= MaxHandshakeFragmentWireBytes (opts c) ->
  (forall i, (i < List.length pieces)%nat -> good_wire i /\ find (authenticates (wire_at i)) (keys c) = Some key) ->
  llen (mjoin pieces) <= dst ->
  collecting c fkey pieces until got -> arrivals <> [] -> (arrivals.*1 ++ got) ≡ₚ seq 0 (List.length pieces) -> Forall (fun t => t < until) arrivals.*2 ->
  exists c', ReadFrom c dst (arrival <$> arrivals) = (c', [], Ok (mjoin pieces, addr)) /\ parts c' !! fkey = None.
Proof.
  intros Hid Ht Hlim. revert c got. induction arrivals as [|[i now] arrivals IH]; intros c got Hlim' Hall Hdst Hcol Hne Hperm Htimes; [done|].
  cbn in Hperm, Htimes. apply Forall_cons in Htimes as [Hnow Htimes].
  assert (Hnd : NoDup (i :: arrivals.*1 ++ got)) by (rewrite Hperm; apply NoDup_seq). apply NoDup_cons in Hnd as [Hi Hnd].
  assert (Hil : (i < List.length pieces)%nat) by (apply elem_of_seq with (j := 0%nat); rewrite <- Hperm; by left).
  destruct (Hall i Hil) as [Hg Hf]. rewrite not_elem_of_app in Hi.
  destruct (fragment_arrives c i now until got Hid Ht Hlim Hlim' Hg Hf) as ([Hk Ho] & Hmore & Hlast); [right; split_and!; [done..|tauto]|].
  rewrite fmap_cons. change (arrival (i, now)) with (wire_at i, addr, now). cbn [ReadFrom].
  destruct (decode c (wire_at i) addr dst now) as [c1 r] eqn:Ed. cbn [fst snd] in *.
  destruct arrivals as [|[j now'] arrivals].
  - destruct Hlast as [-> Hnone].
    { intros j Hj. assert (Hin : j ∈ i :: got) by (rewrite Hperm; apply elem_of_seq; lia). done. }
    destruct (Z.gtb_spec (llen (mjoin pieces)) dst); [lia|]. by exists c1.
  - destruct Hmore as [-> Hcol1].
    { exists j. split; [apply elem_of_seq with (j := 0%nat); rewrite <- Hperm; right; left|].
      cbn in Hi, Hnd. apply NoDup_cons in Hnd as [Hj _]. intros [->|Hin]%elem_of_cons; [apply (proj1 Hi); left|apply Hj, elem_of_app; by right]. }
    refine (IH c1 (i :: got) _ _ Hdst Hcol1 ltac:(discriminate) _ Htimes).
    + rewrite Ho. exact Hlim'.
    + intros k Hkl. rewrite Hk. exact (Hall k Hkl).
    + rewrite <- Hperm. symmetry. apply Permutation_middle.
Qed.

Lemma all_arrive c arrivals start :
  0 <= id < 65536 -> 2 <= llen pieces <= maxFragmentCount -> limit <= maxObfuscationDatagram -> limit <= MaxHandshakeFragmentWireBytes (opts c) ->
  (forall i, (i < List.length pieces)%nat -> good_wire i /\ find (authenticates (wire_at i)) (keys c) = Some key) ->
  llen (mjoin pieces) <= dst ->
  parts c !! fkey = None -> no_assembly (evictFragmentsLocked start c) (default "" addr) (llen (mjoin pieces)) = false ->
  arrivals.*1 ≡ₚ seq 0 (List.length pieces) -> head arrivals.*2 = Some start -> Forall (fun t => t < start + reassemblyTTL) arrivals.*2 ->
  exists c', ReadFrom c dst (arrival <$> arrivals) = (c', [], Ok (mjoin pieces, addr)) /\ parts c' !! fkey = None.
Proof.
  intros Hid Ht Hlim Hlim' Hall Hdst Hfree Hroom Hperm Hstart Htimes. destruct arrivals as [|[i now] arrivals]; [done|]. injection Hstart as ->.
  cbn in Hperm, Htimes. apply Forall_cons in Htimes as [_ Htimes].
  assert (Hnd : NoDup (i :: arrivals.*1)) by (rewrite Hperm; apply NoDup_seq). apply NoDup_cons in Hnd as [Hi Hnd].
  assert (Hil : (i < List.length pieces)%nat) by (apply elem_of_seq with (j := 0%nat); rewrite <- Hperm; by left).
  destruct (Hall i Hil) as [Hg Hf].
  destruct (fragment_arrives c i start (start + reassemblyTTL) [] Hid Ht Hlim Hlim' Hg Hf) as ([Hk Ho] & Hmore & _); [by left|].
  rewrite fmap_cons. change (arrival (i, start)) with (wire_at i, addr, start). cbn [ReadFrom].
  destruct (decode c (wire_at i) addr dst start) as [c1 r] eqn:Ed. cbn [fst snd] in *.
  destruct arrivals as [|[j now'] arrivals]; [apply Permutation_length in Hperm; rewrite length_seq in Hperm; cbn in Hperm; lia|].
  destruct Hmore as [-> Hcol1].
  { exists j. split; [apply elem_of_seq with (j := 0%nat); rewrite <- Hperm; right; left|]. cbn in Hi. intros ->%list_elem_of_singleton. apply Hi. left. }
  refine (rest_arrives c1 (start + reassemblyTTL) [i] ((j, now') :: arrivals) Hid Ht Hlim _ _ Hdst Hcol1 ltac:(discriminate) _ Htimes).
  - rewrite Ho. exact Hlim'.
  - intros k Hkl. rewrite Hk. exact (Hall k Hkl).
  - rewrite <- Hperm. rewrite Permutation_app_comm. reflexivity.
Qed.
End Arrival.

Section Delivery.
Context `{BL : !Blake2b} (send : bytes -> result unit).

Definition data_body (p : bytes) : bytes := byte_of_Z obfuscationVersion :: byte_of_Z obfuscationData :: p.

Lemma writeData_spec p c c' : writeData send p c = (c', Ok tt) ->
  exists wire, sent c' = sent c ++ [wire] /\ sealed_as (first_key c) (data_body p) wire /\ llen wire <= maxObfuscationDatagram.
Proof.
  unfold writeData, encodeData. intros H. apply M_bind_run in H as [(wire & c1 & H1 & H)|(e & _ & [=])].
  apply M_bind_run in H1 as [(w & c2 & [Hs Hw]%seal_spec & H1)|(e & _ & [=])].
  destruct (Z.gtb_spec (llen w) maxObfuscationDatagram); [done|]. injection H1 as <- <-.
  unfold socket_write in H. destruct (send w); [|done]. injection H as <-. exists w. cbn. destruct Hs as (_ & _ & _ & _ & _ & -> & _).
  split_and!; [done|by apply Hw|done].
Qed.

(** What a packet becomes on the wire. *)
Definition carried (key p : bytes) (limit : Z) (wires : list bytes) : Prop :=
  (exists wire, wires = [wire] /\ sealed_as key (data_body p) wire /\ llen wire <= maxObfuscationDatagram) \/
  (exists id pieces, 0 <= id < 65536 /\ 2 <= llen pieces <= maxFragmentCount /\ mjoin pieces = p /\ List.length wires = List.length pieces /\
     forall i, (i < List.length pieces)%nat -> good_wire key id pieces wires limit i).

Lemma writeFragments_spec p c c' : writeFragments send p c = (c', Ok tt) ->
  exists wires, sent c' = sent c ++ wires /\ carried (first_key c) p (MaxHandshakeFragmentWireBytes (opts c)) wires.
Proof.
  unfold writeFragments. cbv zeta. change (fragmentHeaderBytes + obfuscationSaltBytes + obfuscationTagBytes) with 34.
  set (limit := MaxHandshakeFragmentWireBytes (opts c)). set (k := first_key c).
  destruct (MaxFragmentBytes (opts c) <=? 34); [done|]. set (chunkSize := MaxFragmentBytes (opts c) - _ - _ - _).
  destruct (Z.ltb_spec chunkSize 1) as [|Hcs]; [done|]. set (total := (llen p + chunkSize - 1) / chunkSize).
  destruct (Z.ltb_spec total 2) as [|Htot]; [intros (wire & ? & ? & ?)%writeData_spec; exists [wire]; split; [done|]; left; by exists wire|].
  destruct (Z.gtb_spec total maxFragmentCount) as [|Htot']; [done|]. intros H.
  apply M_bind_run in H as [(idBytes & c1 & [Hs Hl]%randomBytes_spec & H)|(e & _ & [=])]. destruct (Hl _ eq_refl) as [Hlen _].
  replace chunkSize with (Z.of_nat (Z.to_nat chunkSize)) in H by lia. set (size := Z.to_nat chunkSize) in *.
  assert (Hsize : (0 < size)%nat) by lia. apply write_chunks_spec in H as (_ & wires & Hsent & Hlw & Hw).
  set (pieces := chunks (List.length p) size p) in *.
  assert (Hpieces : llen pieces = total) by (unfold pieces; rewrite chunks_length by lia; unfold total; f_equal; lia).
  exists wires. split; [rewrite Hsent; by destruct Hs as (_ & _ & _ & _ & _ & -> & _)|]. right. exists (be_get idBytes), pieces.
  pose proof (be_get_range idBytes) as Hid. rewrite Hlen in Hid. split_and!; try lia; [by apply chunks_join|].
  intros i Hi. destruct (lookup_lt_is_Some_2 pieces i Hi) as [chunk Hch]. destruct (lookup_lt_is_Some_2 wires i) as [wire Hwi]; [lia|].
  exists chunk, wire. split_and!; [done|done| |].
  - rewrite Hpieces. specialize (Hw i chunk wire Hch Hwi). rewrite Z.add_0_l in Hw. fold limit in Hw.
    assert (Hk : first_key c1 = k) by (unfold k, first_key; by destruct Hs as (-> & _)). rewrite Hk in Hw. exact Hw.
  - apply list_elem_of_lookup_2, chunks_bound in Hch; [lia|done].
Qed.

Lemma WriteTo_spec p c c' n : WriteTo send p c = (c', Ok n) -> n = llen p /\
  exists wires, sent c' = sent c ++ wires /\ carried (first_key c) p (MaxHandshakeFragmentWireBytes (opts c)) wires.
Proof.
  unfold WriteTo. destruct (_ && _ && _); intros H; (apply M_bind_run in H as [([] & c1 & H1 & H)|(e & _ & [=])]); injection H as <- <-; (split; [done|]).
  - by apply writeFragments_spec.
  - apply writeData_spec in H1 as (wire & ? & ? & ?). exists [wire]. split; [done|]. left. by exists wire.
Qed.

Lemma wires_at (wires : list bytes) : wires = wire_at wires <$> seq 0 (List.length wires).
Proof.
  apply list_eq. intros i. rewrite list_lookup_fmap. destruct (wires !! i) as [w|] eqn:E.
  - rewrite lookup_seq_lt by (by eapply lookup_lt_Some). cbn. unfold wire_at. by rewrite E.
  - by rewrite lookup_seq_ge by (by apply lookup_ge_None).
Qed.

Lemma arrivals_as_order wires addr (arrivals : list (bytes * Z)) order : arrivals.*1 = map (wire_at wires) order ->
  (fun x => (x.1, addr, x.2)) <$> arrivals = arrival wires addr <$> zip order arrivals.*2.
Proof.
  revert order. induction arrivals as [|[w t] arrivals IH]; intros [|i order]; cbn; try done. intros [= -> Ho]. f_equal. by apply IH.
Qed.

Lemma data_arrives key p wire c addr dst (arrivals : list (bytes * Z)) :
  sealed_as key (data_body p) wire -> llen wire <= maxObfuscationDatagram -> arrivals.*1 ≡ₚ [wire] ->
  Forall (fun wire => find (authenticates wire) (keys c) = Some key) arrivals.*1 -> llen p <= dst ->
  exists c', ReadFrom c dst ((fun x => (x.1, addr, x.2)) <$> arrivals) = (c', [], Ok (p, addr)).
Proof.
  intros Hs Hw Hperm Hauth Hdst. destruct arrivals as [|[w t] arrivals]; [by apply Permutation_nil_l in Hperm|].
  apply Permutation_singleton_r in Hperm as Heq. injection Heq as -> Hnil. apply fmap_nil_inv in Hnil as ->. apply Forall_cons in Hauth as [Hauth _].
  cbn [fmap list_fmap ReadFrom fst snd]. rewrite (decode_sealed c wire key (data_body p)) by (try done; cbn [List.length data_body]; lia).
  set (c1 := tell _ c). cbn [accept_body data_body]. change (byte_val (byte_of_Z obfuscationVersion) =? obfuscationVersion) with true.
  change (byte_val (byte_of_Z obfuscationData) =? obfuscationData) with true. cbn [negb].
  destruct (Z.gtb_spec (llen p) dst); [lia|]. destruct (Z.gtb_spec (llen p) dst); [lia|]. by exists c1.
Qed.

(** The fragment id of a datagram, if it is a fragment. *)
Definition wire_id (key wire : bytes) : option Z :=
  match unmask key wire with
  | _ :: kind :: body => if byte_val kind =? obfuscationFragment then Some (be_get (firstn 2 body)) else None
  | _ => None
  end.

Lemma good_wire_id key id pieces wires limit i : 0 <= id < 65536 -> good_wire key id pieces wires limit i -> wire_id key (wire_at wires i) = Some id.
Proof.
  intros Hid (chunk & wire & _ & Hw & (pad & Hs & _) & _). unfold wire_id, wire_at. rewrite Hw. cbn [default from_option]. change (Datatypes.id wire) with wire. rewrite (unmask_sealed _ _ _ Hs).
  cbn [fragment_body app]. change (byte_val (byte_of_Z obfuscationFragment) =? obfuscationFragment) with true. cbn iota.
  rewrite take_app_length' by (by rewrite be_put_length). f_equal. by apply be_get_put_small.
Qed.

(** C38: a packet that one end wrote is read by the other exactly as it was, from the
    sender's address, whether it went as one masked datagram or as padded fragments, and
    in whatever order the fragments arrive within the reassembly time; until the last of
    them nothing is delivered.  The reader has the writer's key, among its keys, as the
    first that authenticates each datagram, does not have the fragment id of these datagrams
    in use for that address (other packets of the sender may be partly reassembled), has
    room for one more assembly, and admits fragments as large as the
    writer's; the writer's limit is one the constructor accepts. *)
Theorem packet_delivered p cs cs' n c addr dst arrivals start :
  WriteTo send p cs = (cs', Ok n) ->
  MaxHandshakeFragmentWireBytes (opts cs) <= maxObfuscationDatagram -> MaxHandshakeFragmentWireBytes (opts cs) <= MaxHandshakeFragmentWireBytes (opts c) ->
  arrivals.*1 ≡ₚ skipn (List.length (sent cs)) (sent cs') -> head arrivals.*2 = Some start -> Forall (fun t => t < start + reassemblyTTL) arrivals.*2 ->
  Forall (fun wire => find (authenticates wire) (keys c) = Some (first_key cs)) arrivals.*1 ->
  Forall (fun wire => forall id, wire_id (first_key cs) wire = Some id -> parts c !! MkFragmentKey (default "" addr) id = None) arrivals.*1 ->
  no_assembly (evictFragmentsLocked start c) (default "" addr) (llen p) = false ->
  llen p <= dst ->
  n = llen p /\ exists c', ReadFrom c dst ((fun x => (x.1, addr, x.2)) <$> arrivals) = (c', [], Ok (p, addr)).
Proof.
  intros (-> & wires & Hsent & Hcarried)%WriteTo_spec Hlim Hlim' Hperm Hstart Htimes Hauth Hfree Hroom Hdst. split; [done|].
  rewrite Hsent, skipn_app, skipn_all, Nat.sub_diag in Hperm. cbn [app skipn] in Hperm.
  destruct Hcarried as [(wire & -> & Hs & Hw)|(id & pieces & Hid & Ht & Hjoin & Hlw & Hgood)].
  - by eapply data_arrives.
  - assert (Hwires : wires = wire_at wires <$> seq 0 (List.length wires)) by apply wires_at.
    assert (Hin : forall i, (i < List.length pieces)%nat -> wire_at wires i ∈ arrivals.*1).
    { intros i Hi. rewrite Hperm. unfold wire_at. destruct (lookup_lt_is_Some_2 wires i) as [w Hw]; [lia|]. rewrite Hw. by eapply list_elem_of_lookup_2. }
    assert (Hall : forall i, (i < List.length pieces)%nat -> good_wire (first_key cs) id pieces wires (MaxHandshakeFragmentWireBytes (opts cs)) i /\
      find (authenticates (wire_at wires i)) (keys c) = Some (first_key cs)).
    { intros i Hi. split; [by apply Hgood|]. rewrite Forall_forall in Hauth. by apply Hauth, Hin. }
    assert (Hunused : parts c !! MkFragmentKey (default "" addr) id = None).
    { rewrite Forall_forall in Hfree. apply (Hfree (wire_at wires 0)); [apply Hin; lia|]. eapply good_wire_id; [done|]. apply Hgood. lia. }
    rewrite Hwires, Hlw in Hperm. apply Permutation_map_inv in Hperm as (order & Horder & Hperm). symmetry in Hperm.
    destruct (all_arrive (first_key cs) id pieces wires addr dst _ c (zip order arrivals.*2) start Hid Ht Hlim Hlim' Hall) as (c' & Hread & _).
    + by rewrite Hjoin.
    + exact Hunused.
    + by rewrite Hjoin.
    + rewrite fst_zip; [done|]. apply (f_equal (@List.length _)) in Horder. rewrite length_map in Horder. rewrite !length_fmap in *. lia.
    + rewrite snd_zip; [done|]. apply (f_equal (@List.length _)) in Horder. rewrite length_map in Horder. rewrite !length_fmap in *. lia.
    + rewrite snd_zip; [done|]. apply (f_equal (@List.length _)) in Horder. rewrite length_map in Horder. rewrite !length_fmap in *. lia.
    + exists c'. rewrite Hjoin in Hread. rewrite <- Hread. f_equal. by apply arrivals_as_order.
Qed.
End Delivery.

(** ** The assemblies in progress *)
Definition count_source (src : string) (m : gmap fragmentKey fragmentAssembly) : Z :=
  Z.of_nat (size (filter (fun kv => source kv.1 = src) m)).

Lemma count_insert src m k A : m !! k = None -> count_source src (<[k := A]> m) = count_source src m + (if decide (source k = src) then 1 else 0).
Proof.
  intros Hk. unfold count_source. destruct (decide (source k = src)) as [Hs|Hs].
  - rewrite map_filter_insert_True by done. rewrite map_size_insert_None; [lia|]. apply map_lookup_filter_None_2. by left.
  - rewrite map_filter_insert_False by done. rewrite delete_id by done. lia.
Qed.

Lemma count_delete src m k A : m !! k = Some A -> count_source src (delete k m) = count_source src m - (if decide (source k = src) then 1 else 0).
Proof.
  intros Hk. rewrite <- (insert_delete_id m k A Hk) at 2. rewrite count_insert by apply lookup_delete_eq. lia.
Qed.

Lemma count_update src m k A B : m !! k = Some A -> count_source src (<[k := B]> m) = count_source src m.
Proof.
  intros Hk. rewrite <- insert_delete_eq, count_insert, (count_delete src m k A Hk) by apply lookup_delete_eq. lia.
Qed.

Definition psum (l : list (option bytes)) : Z := foldr (fun p acc => llen (default [] p) + acc) 0 l.

Lemma psum_insert l i chunk : l !! i = Some None -> psum (<[i := Some chunk]> l) = psum l + llen chunk.
Proof. unfold psum. revert i. induction l as [|x l IH]; intros [|i]; cbn; try done; [intros [= ->]; cbn; lia|]. intros Hi. rewrite IH by done. lia. Qed.

Lemma psum_nonneg l : 0 <= psum l.
Proof. unfold psum. induction l; cbn; lia. Qed.

Lemma psum_bound L l : 0 <= L -> Forall (fun p => llen (default [] p) <= L) l -> None ∈ l -> psum l <= (llen l - 1) * L.
Proof.
  intros HL. induction l as [|x l IH]; intros Hf Hn; [by apply elem_of_nil in Hn|]. apply Forall_cons in Hf as [Hx Hf]. cbn [psum foldr List.length].
  change (foldr _ 0 l) with (psum l). apply elem_of_cons in Hn as [<-|Hn]; [|specialize (IH Hf Hn); nia].
  cbn. clear IH Hx. induction l as [|y l IH]; cbn [psum foldr List.length]; [lia|]. apply Forall_cons in Hf as [Hy Hf].
  change (foldr _ 0 l) with (psum l). specialize (IH Hf). nia.
Qed.

Record assembly_ok (L : Z) (A : fragmentAssembly) : Prop := {
  ao_total : 2 <= total A <= maxFragmentCount; ao_length : llen (parts_of A) = total A;
  ao_bytes : bytes_in A = psum (parts_of A); ao_open : None ∈ parts_of A;
  ao_small : Forall (fun p => llen (default [] p) <= L) (parts_of A)
}.

Record reading_ok (L : Z) (c : packetConn) : Prop := {
  ro_limit : L = Z.max 0 (MaxHandshakeFragmentWireBytes (opts c) - 34);
  ro_sources : forall src, default 0 (sources c !! src) = count_source src (parts c);
  ro_per_source : forall src, count_source src (parts c) <= maxReassemblyPerSource;
  ro_entries : Z.of_nat (size (parts c)) <= maxReassemblyEntries;
  ro_bytes : bytes_held c = msum bytes_in (parts c);
  ro_parts : forall k A, parts c !! k = Some A -> assembly_ok L A
}.

Lemma take_out_sources c key A src : parts c !! key = Some A -> (forall src, default 0 (sources c !! src) = count_source src (parts c)) ->
  default 0 (sources (take_out c key A) !! src) = count_source src (parts (take_out c key A)).
Proof.
  intros Hk Hs. cbn. rewrite (count_delete src _ _ _ Hk). destruct (decide (source key = src)) as [<-|Hne].
  - rewrite lookup_insert_eq. cbn. by rewrite Hs.
  - rewrite lookup_insert_ne by done. rewrite Hs. lia.
Qed.

Lemma take_out_ok L c key A : reading_ok L c -> parts c !! key = Some A -> reading_ok L (take_out c key A).
Proof.
  intros [H1 H2 H3 H4 H5 H6] Hk. split; [done|intros src; by apply take_out_sources| | | |].
  - intros src. cbn. rewrite (count_delete src _ _ _ Hk). specialize (H3 src). destruct (decide _); lia.
  - cbn. rewrite map_size_delete, Hk. cbn. lia.
  - cbn. rewrite H5, (msum_delete _ _ _ _ Hk). lia.
  - intros k B HB. cbn in HB. apply lookup_delete_Some in HB as [_ HB]. by eapply H6.
Qed.

Lemma tell_ok L c e : reading_ok L c -> reading_ok L (tell e c).
Proof. by intros [? ? ? ? ? ?]. Qed.

Lemma evict_ok L c now : reading_ok L c -> reading_ok L (evictFragmentsLocked now c).
Proof. intros Hc. apply evict_inv; [|done]. intros c' key A Hc' Hk _. by apply take_out_ok. Qed.

(** A fresh assembly, when there is room. *)
Lemma fresh_ok L c key tot until n : reading_ok L c -> parts c !! key = None -> no_assembly c (source key) n = false -> 2 <= tot <= maxFragmentCount ->
  reading_ok L (with_parts (<[key := MkAssembly tot (replicate (Z.to_nat tot) None) 0 until]> (parts c))
    (<[source key := default 0 (sources c !! source key) + 1]> (sources c)) (bytes_held c) c).
Proof.
  intros [H1 H2 H3 H4 H5 H6] Hk Hroom Ht. unfold no_assembly in Hroom. rewrite !orb_false_iff, !Z.geb_leb, !Z.leb_gt in Hroom.
  destruct Hroom as [[Hr1 Hr2] _]. split; cbn; [done| | | | |].
  - intros src. rewrite count_insert by done. destruct (decide (source key = src)) as [<-|Hne].
    + rewrite lookup_insert_eq. cbn. by rewrite H2.
    + rewrite lookup_insert_ne by done. rewrite H2. lia.
  - intros src. rewrite count_insert by done. rewrite H2 in Hr1. specialize (H3 src). destruct (decide _) as [<-|]; lia.
  - rewrite map_size_insert_None by done. lia.
  - rewrite msum_insert by done. by rewrite H5.
  - intros k B [[-> <-]|[_ HB]]%lookup_insert_Some; [|by eapply H6]. unfold maxFragmentCount in *. split; cbn.
    + done.
    + rewrite length_replicate. lia.
    + induction (Z.to_nat tot) as [|m IH]; [done|]. cbn. by rewrite <- IH.
    + apply list_elem_of_lookup. exists 0%nat. apply lookup_replicate_2. lia.
    + apply Forall_replicate. cbn. lia.
Qed.

(** A fragment that enters its assembly, which leaves when it is complete. *)
Lemma store_ok L c key A i chunk : reading_ok L c -> parts c !! key = Some A -> parts_of A !! i = Some None -> llen chunk <= L ->
  reading_ok L (store_fragment c key A i chunk).1.
Proof.
  intros [H1 H2 H3 H4 H5 H6] Hk Hi Hc. unfold store_fragment. set (A' := MkAssembly _ _ _ _). set (c' := with_parts _ _ _ c).
  pose proof (H6 key A Hk) as [A1 A2 A3 A4 A5].
  assert (Hc' : parts c' !! key = Some A') by (cbn; by rewrite lookup_insert_eq).
  assert (Hb : bytes_in A' = psum (parts_of A')) by (cbn; rewrite psum_insert by done; lia).
  assert (Hrest : (forall src, default 0 (sources c' !! src) = count_source src (parts c')) /\ (forall src, count_source src (parts c') <= maxReassemblyPerSource) /\
    Z.of_nat (size (parts c')) <= maxReassemblyEntries /\ bytes_held c' = msum bytes_in (parts c')).
  { cbn. split_and!; [intros src; by rewrite (count_update src _ _ A)..| |].
    - by rewrite map_size_insert_Some by done.
    - rewrite (msum_update _ _ _ A) by done. rewrite H5. cbn. lia. }
  destruct Hrest as (R1 & R2 & R3 & R4).
  assert (Hothers : forall k B, k <> key -> parts c' !! k = Some B -> assembly_ok L B).
  { intros k B Hne HB. cbn in HB. rewrite lookup_insert_ne in HB by done. by eapply H6. }
  destruct (existsb _ (parts_of A')) eqn:Ex; cbn [fst].
  - split; try done. intros k B HB. destruct (decide (k = key)) as [->|Hne]; [|by eapply Hothers].
    rewrite Hc' in HB. injection HB as <-. split; [done|by cbn; rewrite length_insert|done| |].
    + apply existsb_exists in Ex as (x & Hx & Hn). apply list_elem_of_In in Hx. by destruct x.
    + apply Forall_insert; [done|]. cbn. done.
  - set (c2 := take_out c' key A'). assert (Hc2 : reading_ok L c2).
    { split; [done|intros src; by apply take_out_sources| | | |].
      - intros src. cbn [c2 take_out with_parts parts]. rewrite (count_delete src _ _ _ Hc'). specialize (R2 src). destruct (decide _); lia.
      - cbn [c2 take_out with_parts parts]. rewrite map_size_delete, Hc'. cbn [from_option Datatypes.id]. lia.
      - cbn [c2 take_out with_parts parts bytes_held]. rewrite R4, (msum_delete _ _ _ _ Hc'). lia.
      - intros k B HB. cbn [c2 take_out with_parts parts] in HB. apply lookup_delete_Some in HB as [Hne HB]. apply (Hothers k); [congruence|done]. }
    destruct (_ =? 0); [by apply tell_ok|done].
Qed.

Lemma acceptFragment_ok L c body addr now : reading_ok L c -> reading_ok L (acceptFragment c body addr now).1.
Proof.
  intros Hc. unfold acceptFragment. destruct (llen body <? fragmentHeaderBytes); [by apply tell_ok|].
  set (id := be_get (slice 2 4 body)). set (index := be_get (slice 4 5 body)). set (tot := be_get (slice 5 6 body)).
  set (n := be_get (slice 6 8 body)). set (pad := be_get (slice 8 10 body)). cbv zeta.
  destruct (_ || negb (fragmentHeaderBytes + n + pad =? llen body) || _) eqn:Eg; [by apply tell_ok|].
  rewrite !orb_false_iff, Z.ltb_ge, !Z.gtb_ltb, !Z.ltb_ge, negb_false_iff, Z.eqb_eq in Eg.
  destruct Eg as [[[[[H1 H2] H3] H4] H5] H6]. unfold fragmentHeaderBytes, obfuscationSaltBytes, obfuscationTagBytes in H5, H6.
  assert (Hn : 0 <= n) by (unfold n; apply be_get_range). assert (Hpad : 0 <= pad) by (unfold pad; apply be_get_range).
  set (chunk := slice _ _ body).
  assert (Hchunk : llen chunk <= Z.max 0 (MaxHandshakeFragmentWireBytes (opts c) - 34)).
  { unfold chunk, slice. rewrite length_firstn. change (Z.to_nat fragmentHeaderBytes) with 10%nat. unfold fragmentHeaderBytes. lia. }
  rewrite <- (ro_limit L c Hc) in Hchunk. apply (evict_ok L c now) in Hc. set (c1 := evictFragmentsLocked now c) in *.
  set (key := MkFragmentKey (default "" addr) id). destruct (parts c1 !! key) as [A|] eqn:EA.
  - destruct (_ || _) eqn:Eg; [by apply tell_ok|]. apply orb_false_iff in Eg as [_ Eg].
    destruct (parts_of A !! Z.to_nat index) as [[?|]|] eqn:Ei; try done. by apply store_ok.
  - destruct (no_assembly c1 (default "" addr) n) eqn:Er; [by apply tell_ok|].
    pose proof (fresh_ok L c1 key tot (now + reassemblyTTL) n Hc EA Er (conj H1 H2)) as Hf. cbn [source key] in Hf.
    set (c2 := with_parts _ _ _ c1) in *. destruct (_ || _) eqn:Eg; [by apply tell_ok|]. apply orb_false_iff in Eg as [_ Eg].
    destruct (parts_of _ !! Z.to_nat index) as [[?|]|] eqn:Ei; try done. apply store_ok; try done. cbn. by rewrite lookup_insert_eq.
Qed.

Lemma msum_bound {K A} `{Countable K} (f : A -> Z) (b : Z) (m : gmap K A) :
  (forall k v, m !! k = Some v -> f v <= b) -> msum f m <= Z.of_nat (size m) * b.
Proof.
  induction m as [|k v m Hk IH] using map_ind; intros Hf; [by rewrite msum_empty, map_size_empty|].
  rewrite msum_insert, map_size_insert_None by done.
  assert (f v <= b) by (apply (Hf k); by rewrite lookup_insert_eq).
  assert (msum f m <= Z.of_nat (size m) * b) by (apply IH; intros k' w Hw; apply (Hf k'); rewrite lookup_insert_ne; [done|congruence]). lia.
Qed.

Section Budget.
Context `{BL : !Blake2b}.

Lemma decode_ok L c wire addr dst now : reading_ok L c -> reading_ok L (decode c wire addr dst now).1.
Proof.
  intros Hc. unfold decode. destruct (_ || _); [done|]. change (Z.to_nat obfuscationTagBytes) with 8%nat. rewrite try_keys_find.
  destruct (find _ _) as [key|]; [|by apply tell_ok]. set (e := PacketAccepted _). apply (tell_ok L c e) in Hc. set (c1 := tell e c) in *. unfold accept_body. set (body := mask _ _ key).
  destruct body as [|v [|k p]]; [by apply tell_ok..|]. destruct (negb (byte_val v =? _)); [by apply tell_ok|]. destruct (byte_val k =? obfuscationData).
  - destruct (_ >? _); [by apply tell_ok|done].
  - destruct (byte_val k =? obfuscationFragment); [by apply acceptFragment_ok|by apply tell_ok].
Qed.

(** The connection after these datagrams. *)
Definition read_all (c : packetConn) (arrivals : list (bytes * option string * Z * Z)) : packetConn :=
  foldl (fun c '(wire, addr, dst, now) => (decode c wire addr dst now).1) c arrivals.

(** Whatever datagrams arrive, from whatever addresses and at whatever times, the
    assemblies in progress stay at most 128 in all and 16 for an address; the counts that
    the limits are checked against are exact (the bytes held are those of the stored
    fragments, and each address has as many assemblies as its counter says); every
    assembly lacks a fragment; and the bytes held are at most 7 fragments of the largest
    size for each of 128 assemblies.  A datagram that authenticates under no key changes
    nothing of this and delivers nothing. *)
Theorem obfuscation_budget c arrivals :
  parts c = ∅ -> sources c = ∅ -> bytes_held c = 0 ->
  let c' := read_all c arrivals in
  Z.of_nat (size (parts c')) <= maxReassemblyEntries /\
  (forall src, default 0 (sources c' !! src) = count_source src (parts c') /\ count_source src (parts c') <= maxReassemblyPerSource) /\
  bytes_held c' = msum (fun A => psum (parts_of A)) (parts c') /\
  (forall key A, parts c' !! key = Some A -> None ∈ parts_of A) /\
  0 <= bytes_held c' <= maxReassemblyEntries * ((maxFragmentCount - 1) * Z.max 0 (MaxHandshakeFragmentWireBytes (opts c') - 34)) /\
  (forall wire addr dst now, find (authenticates wire) (keys c') = None ->
     (decode c' wire addr dst now).2 = None /\ parts (decode c' wire addr dst now).1 = parts c').
Proof.
  intros Hp Hs Hb. cbv zeta. set (L := Z.max 0 (MaxHandshakeFragmentWireBytes (opts c) - 34)).
  assert (H0 : reading_ok L c).
  { assert (H1 : forall src, count_source src ∅ = 0) by (intros src; unfold count_source; by rewrite map_filter_empty, map_size_empty).
    split; rewrite ?Hp, ?Hs, ?Hb; [done|by intros src; rewrite H1|intros src; by rewrite H1|done|by rewrite msum_empty|by intros k A]. }
  assert (Hc : reading_ok L (read_all c arrivals)).
  { unfold read_all. clear Hp Hs Hb. clearbody L. revert c H0. induction arrivals as [|[[[wire addr] dst] now] arrivals IH]; intros c Hc; [done|]. cbn. by apply IH, decode_ok. }
  destruct Hc as [H1 H2 H3 H4 H5 H6]. set (c' := read_all c arrivals) in *.
  assert (Hsum : msum bytes_in (parts c') = msum (fun A => psum (parts_of A)) (parts c')).
  { clear - H6. revert H6. induction (parts c') as [|k A m Hk IH] using map_ind; intros Hall; [by rewrite !msum_empty|]. rewrite !msum_insert by done.
    rewrite IH by (intros k' B HB; apply (Hall k'); rewrite lookup_insert_ne; [done|congruence]).
    by rewrite (ao_bytes L A) by (apply (Hall k); by rewrite lookup_insert_eq). }
  rewrite <- Hsum. split_and!; try done.
  - intros key A HA. by eapply ao_open, H6.
  - rewrite H5. apply msum_nonneg. intros k A HA. destruct (H6 k A HA) as [? ? -> ? ?]. apply psum_nonneg.
  - rewrite H5, <- H1. apply Z.le_trans with (Z.of_nat (size (parts c')) * ((maxFragmentCount - 1) * L)).
    + apply msum_bound. intros k A HA. destruct (H6 k A HA) as [A1 A2 -> A4 A5]. pose proof (psum_bound L (parts_of A) ltac:(lia) A5 A4).
      unfold maxFragmentCount in *. nia.
    + unfold maxFragmentCount. nia.
  - intros wire addr dst now Hf. by destruct (decode_forged c' wire addr dst now Hf) as [->| ->].
Qed.
End Budget.

(** ** Concrete packets *)
Module ObfuscationSamples.
(** A polynomial sum, four times. *)
Definition toy_sum (l : bytes) : bytes :=
  let h := be_put 8 (fold_left (fun acc c => (acc * 257 + byte_val c + 1) mod (2 ^ 61 - 1)) l 7) in h ++ h ++ h ++ h.

Lemma toy_sum_length l : List.length (toy_sum l) = 32%nat.
Proof. unfold toy_sum. cbv zeta. by rewrite !length_app, !be_put_length. Qed.

Definition toy_blake : Blake2b := {| Sum256 := toy_sum; Sum256_length := toy_sum_length |}.

Definition source : bytes := mjoin (replicate 1100 (bytes_of "qwertyuiopasdfghjklzxcvbnm0123456789")).
Definition options : ObfuscationOptions := MkOptions "camouflage" (bytes_of "current") (bytes_of "previous") true 40 50 60.
Definition writer : packetConn := MkConn [bytes_of "k2"; bytes_of "k1"] options ∅ ∅ 0 [] 0 source [] [].
Definition reader : packetConn := MkConn [bytes_of "k1"; bytes_of "k2"] options ∅ ∅ 0 [] 0 [] [] [].
(** A reader that has a part of another packet of the same sender. *)
Definition busy : packetConn :=
  with_parts {[MkFragmentKey "gw" 7 := MkAssembly 3 [None; Some (bytes_of "x"); None] 1 1000000000]} {["gw" := 1]} 1 reader.
Definition packet : bytes := byte_of_Z 192 :: bytes_of "a long header of a handshake".
Definition wrote : packetConn * result Z := @WriteTo toy_blake (fun _ => Ok tt) packet writer.

(** The fragments, last first. *)
Definition arrivals : list (bytes * Z) := zip (rev (sent wrote.1)) [0; 5; 9].
End ObfuscationSamples.

Example fragments_read :
  (List.length (sent ObfuscationSamples.wrote.1),
   (@ReadFrom ObfuscationSamples.toy_blake ObfuscationSamples.reader 1500 ((fun x => (x.1, Some "gw", x.2)) <$> ObfuscationSamples.arrivals)).2)
  = (2%nat, Ok (ObfuscationSamples.packet, Some "gw")).
Proof. vm_compute. reflexivity. Qed.

Lemma packet_delivered_witness :
  exists c', @ReadFrom ObfuscationSamples.toy_blake ObfuscationSamples.busy 1500 ((fun x => (x.1, Some "gw", x.2)) <$> ObfuscationSamples.arrivals)
    = (c', [], Ok (ObfuscationSamples.packet, Some "gw")).
Proof.
  assert (Hw : @WriteTo ObfuscationSamples.toy_blake (fun _ => Ok tt) ObfuscationSamples.packet ObfuscationSamples.writer
    = (ObfuscationSamples.wrote.1, Ok (llen ObfuscationSamples.packet))).
  { assert (H2 : ObfuscationSamples.wrote.2 = Ok (llen ObfuscationSamples.packet)) by (vm_compute; reflexivity).
    rewrite <- H2. unfold ObfuscationSamples.wrote. apply surjective_pairing. }
  refine (proj2 (@packet_delivered ObfuscationSamples.toy_blake (fun _ => Ok tt) ObfuscationSamples.packet ObfuscationSamples.writer ObfuscationSamples.wrote.1 _
    ObfuscationSamples.busy (Some "gw") 1500 ObfuscationSamples.arrivals 0 Hw _ _ _ _ _ _ _ _ _)).
  - vm_compute. discriminate.
  - vm_compute. discriminate.
  - assert (He : ObfuscationSamples.arrivals.*1 = rev (sent ObfuscationSamples.wrote.1)) by (vm_compute; reflexivity). rewrite He.
    replace (List.length (sent ObfuscationSamples.writer)) with 0%nat by reflexivity. rewrite skipn_O. symmetry. apply Permutation_rev.
  - vm_compute. reflexivity.
  - assert (Ht : ObfuscationSamples.arrivals.*2 = [0; 5]) by (vm_compute; reflexivity). rewrite Ht. repeat constructor.
  - assert (Hb : forallb (fun w => bool_decide (find (@authenticates ObfuscationSamples.toy_blake w) (keys ObfuscationSamples.busy) =
      Some (first_key ObfuscationSamples.writer))) ObfuscationSamples.arrivals.*1 = true) by (vm_compute; reflexivity).
    apply Forall_forall. intros w Hin%list_elem_of_In. rewrite forallb_forall in Hb. apply Hb in Hin. exact (bool_decide_eq_true_1 _ Hin).
  - assert (Hb : forallb (fun w => match @wire_id ObfuscationSamples.toy_blake (first_key ObfuscationSamples.writer) w with
      Some id => bool_decide (parts ObfuscationSamples.busy !! MkFragmentKey "gw" id = None) | None => true end) ObfuscationSamples.arrivals.*1 = true) by (vm_compute; reflexivity).
    apply Forall_forall. intros w Hin%list_elem_of_In id Hid. rewrite forallb_forall in Hb. apply Hb in Hin. rewrite Hid in Hin. exact (bool_decide_eq_true_1 _ Hin).
  - vm_compute. reflexivity.
  - vm_compute. discriminate.
Defined.

Lemma Uint16n_uniform_witness : 0 <= 6 /\ List.length (filter (fun value => outcome 6 value = Some 5) (seqZ 0 65536)) = Z.to_nat 10922.
Proof.
  split; [lia|]. assert (H0 : 0 <= 6) by lia. destruct (Uint16n_uniform 6 ObfuscationSamples.writer H0) as (_ & H & _ & _).
  rewrite (H ltac:(lia) 5 ltac:(lia)). vm_compute. reflexivity.
Defined.

Lemma obfuscation_budget_witness :
  let c := @read_all ObfuscationSamples.toy_blake ObfuscationSamples.reader ((fun x => (x.1, Some "gw", 1500, x.2)) <$> firstn 1 ObfuscationSamples.arrivals) in
  Z.of_nat (size (parts c)) = 1 /\ default 0 (sources c !! "gw") = 1 /\ bytes_held c = msum (fun A => psum (parts_of A)) (parts c).
Proof.
  cbv zeta. split; [vm_compute; reflexivity|]. split; [vm_compute; reflexivity|].
  exact (proj1 (proj2 (proj2 (@obfuscation_budget ObfuscationSamples.toy_blake ObfuscationSamples.reader
    ((fun x => (x.1, Some "gw", 1500, x.2)) <$> firstn 1 ObfuscationSamples.arrivals) eq_refl eq_refl eq_refl)))).
Defined.


(** The limit on the bytes held is looked at for a new assembly only: three assemblies
    of seven fragments of 60000 bytes hold more. *)
Example more_than_maxReassemblyBytes :
  let o := MkOptions "camouflage" [] [] true 40 65536 65536 in
  let big := replicate (Z.to_nat 60000) "x"%char in
  let c0 := MkConn [] o ∅ ∅ 0 [] 0 [] [] [] in
  let deliver c id := foldl (fun c index => (acceptFragment c (fragment_body id index 8 big []) None 0).1) c [0; 1; 2; 3; 4; 5; 6] in
  (maxReassemblyBytes <? bytes_held (deliver (deliver (deliver c0 1) 2) 3)) = true.
Proof. vm_compute. reflexivity. Qed.

(** The counter of an address whose assemblies are gone stays in the map. *)
Example sources_are_kept :
  let c := @read_all ObfuscationSamples.toy_blake ObfuscationSamples.reader ((fun x => (x.1, Some "gw", 1500, x.2)) <$> ObfuscationSamples.arrivals) in
  (size (parts c), sources c !! "gw") = (0%nat, Some 0).
Proof. vm_compute. reflexivity. Qed.
