(* ===== verification/Json.v ===== *)
(** * JSON documents (src/internal/jsonutil/strict.go)

    The rules for decoding one document, over encoding/json, which is a parameter: one
    instance for each type that is encoded. *)
From S2P Require Import Prelude GoStd Datagram.

Definition io_EOF : error := EExternal "io.EOF".
Definition is_EOF (e : error) : bool := match e with EExternal o => String.eqb o "io.EOF" | _ => false end.

(** [json_next] is [Decoder.Decode] with unknown fields refused: the first value of the
    stream and what follows it; [json_unmarshal] is [json.Unmarshal].  [json_exact] are
    the values that encoding loses nothing of: their text is UTF-8, and no field that is
    omitted when it is empty holds an empty map (decoding [{}] makes such a map, decoding
    what was encoded does not). *)
Class JSON (T : Type) := {
  json_marshal : T -> result bytes;
  json_next : bytes -> result (T * bytes);
  json_unmarshal : bytes -> result T;
  json_exact : T -> Prop;
  json_nonempty : forall v b, json_marshal v = Ok b -> b <> [];
  json_next_marshal : forall v b, json_exact v -> json_marshal v = Ok b -> json_next b = Ok (v, []);
  json_unmarshal_marshal : forall v b, json_exact v -> json_marshal v = Ok b -> json_unmarshal b = Ok v
}.

(** [Decoder.Decode] into a value of type [any], at the rest of a stream. *)
Class JSONAny := { json_any : bytes -> result bytes; json_any_end : json_any [] = Err io_EOF }.

Definition ErrTrailingJSON : error := ENew "trailing JSON".

Definition DecodeStrict `{JN : !JSON T, JA : !JSONAny} (data : bytes) : result T :=
  '(value, rest) ← json_next data;
  match json_any rest with
  | Ok _ => Err ErrTrailingJSON
  | Err e => if is_EOF e then Ok value else Err e
  end.

Lemma DecodeStrict_marshal `{JN : !JSON T, JA : !JSONAny} (v : T) b : json_exact v -> json_marshal v = Ok b -> DecodeStrict b = Ok v.
Proof. intros Hv Hb. unfold DecodeStrict. rewrite (json_next_marshal v b Hv Hb). cbn. by rewrite json_any_end. Qed.

(** A codec that knows one value. *)
Section OneValue.
Context {T : Type} (v : T).
Definition one_document : bytes := ["{"; "}"]%char.
Definition one_next (b : bytes) : result (T * bytes) :=
  if bool_decide (b = one_document) then Ok (v, []) else Err (EExternal "json.Decoder").
Definition one_unmarshal (b : bytes) : result T := '(v, _) ← one_next b; Ok v.

Lemma one_nonempty (w : T) b : Ok one_document = Ok b -> b <> [].
Proof. by intros [= <-]. Qed.
Lemma one_next_marshal w b : w = v -> Ok one_document = Ok b -> one_next b = Ok (w, []).
Proof. by intros -> [= <-]. Qed.
Lemma one_unmarshal_marshal w b : w = v -> Ok one_document = Ok b -> one_unmarshal b = Ok w.
Proof. by intros -> [= <-]. Qed.

Definition one_json : JSON T := {|
  json_marshal _ := Ok one_document; json_next := one_next; json_unmarshal := one_unmarshal; json_exact w := w = v;
  json_nonempty := one_nonempty;
  json_next_marshal := one_next_marshal; json_unmarshal_marshal := one_unmarshal_marshal
|}.
End OneValue.

Definition end_any : JSONAny := {| json_any _ := Err io_EOF; json_any_end := eq_refl |}.
