(* ===== verification/ControlWire.v ===== *)
(** * The control wire protocol (src/internal/controlwire/protocol.go)

    Desired snapshots and observed states as protobuf envelopes around a JSON document,
    with their metadata checked against it, and length-prefixed frames. *)
From S2P Require Import Prelude GoStd Domain Checksum Validation Snapshot Report Datagram Control Json.

Definition MaxControlMessageBytes : Z := 16777216.
Definition ErrUnknownSchema : error := ENew "unknown schema".
Definition ErrChecksumMismatch : string := "checksum mismatch".

(** [strings.EqualFold] of two texts needs the Unicode case tables: it is given by this
    class, with what it gives on a text and itself and against hexadecimal digits. *)
Class Fold := {
  EqualFold : string -> string -> bool;
  EqualFold_sym : forall s t, EqualFold s t = EqualFold t s;
  EqualFold_refl : forall s, EqualFold s s = true;
  EqualFold_hex : forall s n, EqualFold s (hex_encode n) = strings.equal_fold_hex s (hex_encode n)
}.

Record wire_snapshot := MkWireSnapshot {
  WSnapshot_SchemaVersion : Z; WSnapshot_NodeId : string; WSnapshot_Generation : Z; WSnapshot_Checksum : string; WSnapshot_DocumentJson : bytes
}.

Record wire_error := MkWireError { WError_Code : string; WError_FieldPath : string; WError_Message : string; WError_Retryable : bool }.

(** [WObserved_ObservedAt]: [None] for no timestamp; [Some None] for one that is not valid. *)
Record wire_observed := MkWireObserved {
  WObserved_SchemaVersion : Z; WObserved_NodeId : string; WObserved_AppliedGeneration : Z; WObserved_Healthy : bool; WObserved_Degraded : bool;
  WObserved_DocumentJson : bytes; WObserved_ObservedAt : option (option Z); WObserved_LastError : option wire_error
}.

Definition wire_error_of (e : ApplyError) : wire_error :=
  MkWireError (ApplyError_Code e) (ApplyError_Path e) (ApplyError_Message e) (ApplyError_Retryable e).

Section Wire.
Context `{!MapOrder, !SliceSort, !Crypto, !Unicode, !DocumentJSON, !Fold, JS : !JSON DesiredSnapshot, JO : !JSON ObservedState, !JSONAny}.

Definition SnapshotToProto (snapshot : DesiredSnapshot) : result wire_snapshot :=
  _ ← Snapshot_Validate snapshot;
  let canonical := set_checksum (Normalize snapshot) "" in
  checksum ← ComputeChecksum canonical;
  _ ← reject_if (negb (String.eqb (Snapshot_Checksum snapshot) "") && negb (EqualFold (Snapshot_Checksum snapshot) checksum))
        (apply_error "checksum_mismatch" "checksum" ErrChecksumMismatch);
  let canonical := set_checksum canonical checksum in
  document ← map_err (fun e => EWrap "marshal desired snapshot: %w" [] e) (json_marshal canonical);
  _ ← reject_if (llen document >? MaxControlMessageBytes)
        (apply_error "message_too_large" "" "desired snapshot exceeds control message limit");
  Ok (MkWireSnapshot (Snapshot_SchemaVersion canonical) (Snapshot_NodeID canonical) (Snapshot_Generation canonical)
        (Snapshot_Checksum canonical) document).

Definition SnapshotFromProto (value : option wire_snapshot) : result DesiredSnapshot :=
  match value with
  | None => Err (apply_error "missing_snapshot" "" "desired snapshot is required")
  | Some value =>
      _ ← reject_if (negb (WSnapshot_SchemaVersion value =? CurrentControlProtocolVersion))
            (apply_error "unknown_schema" "schema_version" "unknown schema");
      _ ← reject_if (String.eqb (WSnapshot_NodeId value) "" || (WSnapshot_Generation value =? 0) || String.eqb (WSnapshot_Checksum value) "")
            (apply_error "invalid_snapshot_metadata" "" "node_id, generation and checksum are required");
      _ ← reject_if ((llen (WSnapshot_DocumentJson value) =? 0) || (llen (WSnapshot_DocumentJson value) >? MaxControlMessageBytes))
            (apply_error "invalid_snapshot" "document_json" "snapshot document is empty or too large");
      snapshot ← map_err (fun _ => apply_error "invalid_snapshot" "document_json" "snapshot document is not valid JSON")
                   (DecodeStrict (WSnapshot_DocumentJson value));
      _ ← reject_if (negb (Snapshot_SchemaVersion snapshot =? CurrentControlProtocolVersion)
                     || negb (Snapshot_SchemaVersion snapshot =? WSnapshot_SchemaVersion value)
                     || negb (String.eqb (Snapshot_NodeID snapshot) (WSnapshot_NodeId value))
                     || negb (Snapshot_Generation snapshot =? WSnapshot_Generation value)
                     || negb (EqualFold (Snapshot_Checksum snapshot) (WSnapshot_Checksum value)))
            (apply_error "snapshot_metadata_mismatch" "" "protobuf metadata does not match snapshot document");
      _ ← Snapshot_Validate snapshot;
      match ComputeChecksum snapshot with
      | Ok checksum => if EqualFold checksum (WSnapshot_Checksum value) then Ok snapshot
                       else Err (apply_error "checksum_mismatch" "checksum" ErrChecksumMismatch)
      | Err _ => Err (apply_error "checksum_mismatch" "checksum" ErrChecksumMismatch)
      end
  end.

(** [now] is [time.Now().UTC()], read to stamp the state; [later] the clock in [Validate],
    which bounds the time of the host report. *)
Definition set_observed_version (o : ObservedState) (v : Z) : ObservedState :=
  MkObservedState v (Observed_NodeID o) (Observed_AppliedGeneration o) (Observed_Healthy o) (Observed_Degraded o) (Observed_LastError o)
    (Observed_Sessions o) (Observed_Listeners o) (Observed_Metrics o) (Observed_SystemInfo o) (Observed_ObservedAt o).
Definition set_observed_at (o : ObservedState) (t : Z) : ObservedState :=
  MkObservedState (Observed_SchemaVersion o) (Observed_NodeID o) (Observed_AppliedGeneration o) (Observed_Healthy o) (Observed_Degraded o)
    (Observed_LastError o) (Observed_Sessions o) (Observed_Listeners o) (Observed_Metrics o) (Observed_SystemInfo o) t.
Definition set_observed_error (o : ObservedState) (e : option ApplyError) : ObservedState :=
  MkObservedState (Observed_SchemaVersion o) (Observed_NodeID o) (Observed_AppliedGeneration o) (Observed_Healthy o) (Observed_Degraded o)
    e (Observed_Sessions o) (Observed_Listeners o) (Observed_Metrics o) (Observed_SystemInfo o) (Observed_ObservedAt o).

Definition observed_stamped (now : Z) (state : ObservedState) : ObservedState :=
  let state := if Observed_SchemaVersion state =? 0 then set_observed_version state CurrentControlProtocolVersion else state in
  if is_zero_time (Observed_ObservedAt state) then set_observed_at state now else state.

Definition ObservedToProto (now later : Z) (state : ObservedState) : result wire_observed :=
  let state := observed_stamped now state in
  _ ← reject_if (String.eqb (Observed_NodeID state) "") (ENew "observed state node id is required");
  _ ← reject_if (negb (Observed_SchemaVersion state =? CurrentControlProtocolVersion)) ErrUnknownSchema;
  _ ← Observed_Validate later state;
  document ← json_marshal state;
  _ ← reject_if (llen document >? MaxControlMessageBytes) (ENew "observed state exceeds control message limit");
  Ok (MkWireObserved (Observed_SchemaVersion state) (Observed_NodeID state) (Observed_AppliedGeneration state) (Observed_Healthy state)
        (Observed_Degraded state) document (Some (Some (Observed_ObservedAt state))) (wire_error_of <$> Observed_LastError state)).

Definition observed_time (value : wire_observed) (state : ObservedState) : result ObservedState :=
  match WObserved_ObservedAt value with
  | None => Ok state
  | Some None => Err (ENew "observed timestamp is invalid")
  | Some (Some wireObservedAt) =>
      _ ← reject_if (negb (is_zero_time (Observed_ObservedAt state)) && negb (Observed_ObservedAt state =? wireObservedAt))
            (ENew "observed timestamp metadata mismatch");
      Ok (set_observed_at state wireObservedAt)
  end.

Definition observed_error (value : wire_observed) (state : ObservedState) : result ObservedState :=
  match WObserved_LastError value, Observed_LastError state with
  | None, None => Ok state
  | None, Some _ | Some _, None => Err (ENew "observed state error metadata mismatch")
  | Some w, Some e =>
      _ ← reject_if (negb (String.eqb (ApplyError_Code e) (WError_Code w)) || negb (String.eqb (ApplyError_Path e) (WError_FieldPath w))
                     || negb (String.eqb (ApplyError_Message e) (WError_Message w)) || negb (Bool.eqb (ApplyError_Retryable e) (WError_Retryable w)))
            (ENew "observed state error metadata mismatch");
      Ok (set_observed_error state (Some (MkApplyError (WError_Code w) (WError_FieldPath w) (WError_Message w) (WError_Retryable w))))
  end.

Definition ObservedFromProto (now : Z) (value : option wire_observed) : result ObservedState :=
  match value with
  | None => Err (ENew "invalid observed state")
  | Some value =>
      _ ← reject_if ((llen (WObserved_DocumentJson value) =? 0) || (llen (WObserved_DocumentJson value) >? MaxControlMessageBytes))
            (ENew "invalid observed state");
      _ ← reject_if (negb (WObserved_SchemaVersion value =? CurrentControlProtocolVersion) || String.eqb (WObserved_NodeId value) "")
            ErrUnknownSchema;
      state ← map_err (fun e => EWrap "decode observed state: %w" [] e) (DecodeStrict (WObserved_DocumentJson value));
      _ ← reject_if (negb (Observed_SchemaVersion state =? WObserved_SchemaVersion value)
                     || negb (String.eqb (Observed_NodeID state) (WObserved_NodeId value))
                     || negb (Observed_AppliedGeneration state =? WObserved_AppliedGeneration value)
                     || negb (Bool.eqb (Observed_Healthy state) (WObserved_Healthy value))
                     || negb (Bool.eqb (Observed_Degraded state) (WObserved_Degraded value)))
            (ENew "observed state metadata mismatch");
      state ← observed_time value state;
      state ← observed_error value state;
      _ ← Observed_Validate now state;
      Ok state
  end.
End Wire.

(** ** Apply results and heartbeats *)
Inductive ApplyStatus := APPLY_STATUS_UNSPECIFIED | APPLY_STATUS_ACCEPTED | APPLY_STATUS_APPLIED | APPLY_STATUS_REJECTED.

Record apply_result := MkApplyResult {
  Result_Generation : Z; Result_Checksum : string; Result_Status : ApplyStatus; Result_Error : option wire_error
}.

Definition ApplyResult (generation : Z) (checksum : string) (status : ApplyStatus) (applyErr : option ApplyError) : apply_result :=
  MkApplyResult generation checksum status (wire_error_of <$> applyErr).

Record heartbeat := MkHeartbeat { Heartbeat_SentAt : Z; Heartbeat_AppliedGeneration : Z; Heartbeat_Healthy : bool }.

Definition Heartbeat (now generation : Z) (healthy : bool) : heartbeat := MkHeartbeat now generation healthy.

(** ** Frames *)
Section Frames.
Context {Msg : Type} `{!Proto Msg} `{Writer W}.

Definition message_limit (max : Z) : Z := if (max <=? 0) || (max >? MaxControlMessageBytes) then MaxControlMessageBytes else max.

Definition WriteMessage (w : option W) (message : option Msg) (max : Z) : option (option W * option error) :=
  match message with
  | None => Some (w, Some (ENew "control message is nil"))
  | Some message =>
      let max := message_limit max in
      match proto_marshal message with
      | Err e => Some (w, Some e)
      | Ok b =>
          if llen b >? max then Some (w, Some (EFmt "control message exceeds %d bytes" [AInt max])) else
          '(w, err) ← WriteFull w (be_put 4 (llen b));
          match err with
          | Some e => Some (w, Some e)
          | None => WriteFull w b
          end
      end
  end.

(** The message and the rest of the stream. *)
Definition ReadMessage (r : bytes) (max : Z) : result (Msg * bytes) :=
  let max := message_limit max in
  '(header, r) ← ReadFull r 4;
  let size := be_get header in
  _ ← reject_if (size =? 0) (ENew "control message is empty");
  _ ← reject_if (size >? max) (EFmt "control message exceeds %d bytes" [AInt max]);
  '(b, r) ← ReadFull r (Z.to_nat size);
  '(message, _) ← map_err (fun e => EWrap "decode control message: %w" [] e) (proto_unmarshal b);
  Ok (message, r).
End Frames.
