(* ===== verification/ControlWireFacts.v ===== *)
(** * What the control wire protocol guarantees

    A snapshot or an observed state that was sent is received as it was sealed, nothing
    is accepted whose metadata or checksum differ from its document, and a frame that was
    written is read back. *)
From S2P Require Import Prelude GoStd Domain Checksum Validation Snapshot Samples SnapshotFacts Report Datagram Control ControlFacts Json ControlWire.

Section WireFacts.
Context `{MO : !MapOrder, SS : !SliceSort, CR : !Crypto, UN : !Unicode, DJ : !DocumentJSON, FO : !Fold, JS : !JSON DesiredSnapshot, JO : !JSON ObservedState, JA : !JSONAny}.

Definition canonical (s : DesiredSnapshot) (checksum : string) : DesiredSnapshot := set_checksum (Normalize s) checksum.

Lemma hex_nonempty b : b <> [] -> hex_encode b <> "".
Proof.
  destruct b as [|c b]; [done|]. intros _ H. apply (f_equal (fun s => List.length (bytes_of s))) in H.
  unfold hex_encode in H. rewrite list_ascii_of_string_of_list_ascii in H. cbn in H. discriminate H.
Qed.

Lemma ComputeChecksum_hex s sum : ComputeChecksum s = Ok sum -> exists d, sum = hex_encode d /\ d <> [].
Proof.
  unfold ComputeChecksum. intros H. apply bind_Ok in H as (doc & _ & H). apply bind_Ok in H as (b & _ & [= <-]).
  eexists. split; [done|]. intros E. pose proof (sha256_length b) as Hl. rewrite E in Hl. discriminate Hl.
Qed.

Lemma canonical_checksum s sum : ComputeChecksum (canonical s "") = Ok sum -> ComputeChecksum (canonical s sum) = Ok sum.
Proof. unfold canonical. by rewrite !ComputeChecksum_set_checksum. Qed.

Lemma canonical_validates s sum :
  Snapshot_Validate (canonical s "") = Ok tt -> ComputeChecksum (canonical s "") = Ok sum -> Snapshot_Validate (canonical s sum) = Ok tt.
Proof.
  unfold canonical. intros Hv Hc. rewrite ComputeChecksum_set_checksum in Hc. rewrite Validate_set_checksum, Hc by done. cbn.
  unfold strings.equal_fold_hex. rewrite String.eqb_refl. by case_match.
Qed.

(** What was sent carries the metadata of its document. *)
Lemma SnapshotToProto_sent s w :
  SnapshotToProto s = Ok w -> exists sum document,
    ComputeChecksum (canonical s "") = Ok sum /\ json_marshal (canonical s sum) = Ok document /\ llen document <= MaxControlMessageBytes
    /\ w = MkWireSnapshot (Snapshot_SchemaVersion s) (Snapshot_NodeID s) (Snapshot_Generation s) sum document.
Proof.
  unfold SnapshotToProto. intros H. apply bind_Ok in H as ([] & _ & H). apply bind_Ok in H as (sum & Hs & H).
  apply bind_Ok in H as ([] & _ & H). apply bind_Ok in H as (document & Hd & H). apply map_err_Ok in Hd.
  apply bind_Ok in H as ([] & Hl & [= <-]). apply reject_if_Ok in Hl.
  exists sum, document. by split_and!; [| | lia |].
Qed.

Lemma Snapshot_Validate_metadata s :
  Snapshot_Validate s = Ok tt -> Snapshot_SchemaVersion s = CurrentControlProtocolVersion /\ Snapshot_NodeID s <> "" /\ Snapshot_Generation s <> 0.
Proof.
  unfold Snapshot_Validate. intros H. apply bind_Ok in H as ([] & H1 & H). apply bind_Ok in H as ([] & H2 & H). apply bind_Ok in H as ([] & H3 & _).
  apply reject_if_Ok in H1, H3. apply ValidateID_iff in H2. split_and!; [lia | intros E; rewrite E in H2; destruct H2 as [[H2 _] _]; cbn in H2; lia | lia].
Qed.

(** C22: a snapshot that [SnapshotToProto] accepted is received by [SnapshotFromProto] as
    its normal form with the checksum of its content, provided the normal form passes the
    validation that sealing a snapshot runs and encoding/json loses nothing of it. *)
Theorem snapshot_wire_roundtrip s w :
  SnapshotToProto s = Ok w -> Snapshot_Validate (canonical s "") = Ok tt -> json_exact (canonical s (WSnapshot_Checksum w)) ->
  SnapshotFromProto (Some w) = Ok (canonical s (WSnapshot_Checksum w)) /\ ComputeChecksum (canonical s "") = Ok (WSnapshot_Checksum w).
Proof.
  intros Hw Hv He. destruct (SnapshotToProto_sent _ _ Hw) as (sum & document & Hs & Hd & Hl & ->).
  cbn [WSnapshot_Checksum] in *. split; [|done]. pose proof (canonical_validates _ _ Hv Hs) as Hvc.
  destruct (Snapshot_Validate_metadata _ Hvc) as (Hver & Hid & Hgen). destruct (ComputeChecksum_hex _ _ Hs) as (d & Hsum & Hdig).
  pose proof (hex_nonempty _ Hdig) as Hne. rewrite <- Hsum in Hne. pose proof (json_nonempty _ _ Hd) as Hdoc.
  assert (Hmeta : Snapshot_SchemaVersion (canonical s sum) = Snapshot_SchemaVersion s /\ Snapshot_NodeID (canonical s sum) = Snapshot_NodeID s
                  /\ Snapshot_Generation (canonical s sum) = Snapshot_Generation s /\ Snapshot_Checksum (canonical s sum) = sum).
  { done. }
  destruct Hmeta as (M1 & M2 & M3 & M4). rewrite M1 in Hver. rewrite M2 in Hid. rewrite M3 in Hgen.
  unfold SnapshotFromProto. cbn [WSnapshot_SchemaVersion WSnapshot_NodeId WSnapshot_Generation WSnapshot_Checksum WSnapshot_DocumentJson].
  rewrite (DecodeStrict_marshal _ _ He Hd). cbn [map_err mbind result_bind].
  rewrite M1, M2, M3, M4, Hver, Hvc, (canonical_checksum _ _ Hs). apply String.eqb_neq in Hid, Hne. rewrite Hid, Hne, EqualFold_refl, String.eqb_refl, Z.eqb_refl.
  replace (Snapshot_Generation s =? 0) with false by lia. replace (llen document =? 0) with false by (by destruct document).
  replace (llen document >? MaxControlMessageBytes) with false by lia.
  by rewrite Z.eqb_refl.
Qed.

(** C23: what a node accepts from the wire is what the document of the message decodes to,
    without unknown fields or trailing data and of at most the size of a control message;
    it validates, carries the protobuf metadata of the message and a generation, and its
    checksummed content hashes to the checksum of the message.  (The checksum is not
    keyed and leaves resource metadata out: it detects a content that does not belong to
    it, not a document that was changed together with its checksum.) *)
Theorem SnapshotFromProto_sound value s :
  SnapshotFromProto value = Ok s -> exists w sum, value = Some w
    /\ DecodeStrict (WSnapshot_DocumentJson w) = Ok s /\ 0 < llen (WSnapshot_DocumentJson w) <= MaxControlMessageBytes
    /\ Snapshot_Validate s = Ok tt
    /\ Snapshot_SchemaVersion s = WSnapshot_SchemaVersion w /\ Snapshot_NodeID s = WSnapshot_NodeId w /\ Snapshot_Generation s = WSnapshot_Generation w /\ 0 <> Snapshot_Generation s
    /\ ComputeChecksum s = Ok sum /\ strings.equal_fold_hex (WSnapshot_Checksum w) sum = true.
Proof.
  destruct value as [w|]; [|done]. unfold SnapshotFromProto. intros H.
  apply bind_Ok in H as ([] & _ & H). apply bind_Ok in H as ([] & _ & H). apply bind_Ok in H as ([] & Hsize%reject_if_Ok & H).
  rewrite orb_false_iff, Z.gtb_ltb in Hsize. destruct Hsize as [Hpos%Z.eqb_neq Hmax%Z.ltb_ge].
  apply bind_Ok in H as (v & Hdec%map_err_Ok & H). apply bind_Ok in H as ([] & Hm & H). apply bind_Ok in H as ([] & Hv & H).
  destruct (ComputeChecksum v) as [sum|] eqn:Hs; [|done]. destruct (EqualFold sum _) eqn:Hf; [|done]. injection H as ->.
  apply reject_if_Ok in Hm. rewrite !orb_false_iff, !negb_false_iff in Hm. destruct Hm as ((((H1 & H2) & H3) & H4) & H5).
  apply String.eqb_eq in H3. destruct (Snapshot_Validate_metadata _ Hv) as (_ & _ & Hg). destruct (ComputeChecksum_hex _ _ Hs) as (d & -> & _).
  exists w, (hex_encode d). split_and!; [done | done | lia | lia | done | lia | done | lia | lia | done |]. rewrite <- EqualFold_hex. by rewrite EqualFold_sym.
Qed.

(** ** Observed states *)
Lemma SystemInfo_Validate_later now later i : now <= later -> SystemInfo_Validate now i = Ok tt -> SystemInfo_Validate later i = Ok tt.
Proof.
  intros Hle. unfold SystemInfo_Validate. destruct i as [i|]; [|done]. intros H.
  repeat (let H1 := fresh "E" in apply bind_Ok in H as (? & H1 & H); rewrite H1; cbn [mbind result_bind]).
  apply reject_if_Ok in H. apply reject_if_Ok. lia.
Qed.

Lemma Observed_Validate_later now later o : now <= later -> Observed_Validate now o = Ok tt -> Observed_Validate later o = Ok tt.
Proof.
  intros Hle. unfold Observed_Validate. intros H.
  do 5 (let H1 := fresh "E" in apply bind_Ok in H as (? & H1 & H); rewrite H1; cbn [mbind result_bind]).
  apply bind_Ok in H as ([] & H1 & H). by rewrite (SystemInfo_Validate_later _ _ _ Hle H1).
Qed.

Lemma observed_error_same w o : WObserved_LastError w = wire_error_of <$> Observed_LastError o -> observed_error w o = Ok o.
Proof.
  intros H. unfold observed_error. rewrite H. destruct o as [? ? ? ? ? [[code path message retryable]|] ? ? ? ? ?]; [|done].
  cbn. by rewrite !String.eqb_refl, Bool.eqb_reflx.
Qed.

(** An observed state that [ObservedToProto] accepted is received by
    [ObservedFromProto], at any later time, as it was sent: with the version and the time
    it was stamped with. *)
Theorem observed_wire_roundtrip now later arrival state w :
  later <= arrival -> ObservedToProto now later state = Ok w -> json_exact (observed_stamped now state) ->
  ObservedFromProto arrival (Some w) = Ok (observed_stamped now state).
Proof.
  intros Hle H He. unfold ObservedToProto in H. set (o := observed_stamped now state) in *. clearbody o.
  apply bind_Ok in H as ([] & H1 & H). apply bind_Ok in H as ([] & H2 & H). apply bind_Ok in H as ([] & H3 & H).
  apply bind_Ok in H as (document & Hd & H). apply bind_Ok in H as ([] & H5 & [= <-]). apply reject_if_Ok in H1, H2, H5.
  apply negb_false_iff in H2. pose proof (json_nonempty _ _ Hd) as Hdoc.
  unfold ObservedFromProto. cbn [WObserved_SchemaVersion WObserved_NodeId WObserved_DocumentJson WObserved_AppliedGeneration WObserved_Healthy WObserved_Degraded].
  replace (llen document =? 0) with false by (by destruct document).
  rewrite H1, H2, H5, (DecodeStrict_marshal _ _ He Hd). cbn [orb negb reject_if map_err mbind result_bind].
  rewrite !Z.eqb_refl, String.eqb_refl, !Bool.eqb_reflx. cbn [orb negb reject_if mbind result_bind].
  assert (observed_time (MkWireObserved (Observed_SchemaVersion o) (Observed_NodeID o) (Observed_AppliedGeneration o) (Observed_Healthy o)
    (Observed_Degraded o) document (Some (Some (Observed_ObservedAt o))) (wire_error_of <$> Observed_LastError o)) o = Ok o) as ->.
  { unfold observed_time. cbn [WObserved_ObservedAt]. rewrite Z.eqb_refl, andb_false_r. by destruct o. }
  cbn [mbind result_bind]. rewrite observed_error_same by done. cbn [mbind result_bind].
  by rewrite (Observed_Validate_later _ _ _ Hle H3).
Qed.

(** A received state is the state of the document: the indexed fields outside it
    agree with it, and a stamp, if one came, is its time. *)
Theorem ObservedFromProto_sound now value o :
  ObservedFromProto now value = Ok o -> exists w, value = Some w
    /\ Observed_Validate now o = Ok tt
    /\ Observed_NodeID o = WObserved_NodeId w /\ Observed_AppliedGeneration o = WObserved_AppliedGeneration w
    /\ Observed_Healthy o = WObserved_Healthy w /\ Observed_Degraded o = WObserved_Degraded w
    /\ wire_error_of <$> Observed_LastError o = WObserved_LastError w
    /\ (forall t, WObserved_ObservedAt w = Some t -> t = Some (Observed_ObservedAt o)).
Proof.
  destruct value as [w|]; [|done]. unfold ObservedFromProto. intros H.
  apply bind_Ok in H as ([] & _ & H). apply bind_Ok in H as ([] & _ & H). apply bind_Ok in H as (v & _ & H).
  apply bind_Ok in H as ([] & Hm & H). apply bind_Ok in H as (v1 & Ht & H). apply bind_Ok in H as (v2 & Hl & H).
  apply bind_Ok in H as ([] & Hv & [= <-]). exists w. split; [done|]. split; [done|]. apply reject_if_Ok in Hm.
  rewrite !orb_false_iff, !negb_false_iff in Hm. destruct Hm as ((((_ & H2) & H3) & H4) & H5).
  apply String.eqb_eq in H2. apply Z.eqb_eq in H3. apply Bool.eqb_prop in H4, H5. unfold observed_time, observed_error in *.
  assert (Hv1 : Observed_NodeID v1 = Observed_NodeID v /\ Observed_AppliedGeneration v1 = Observed_AppliedGeneration v
    /\ Observed_Healthy v1 = Observed_Healthy v /\ Observed_Degraded v1 = Observed_Degraded v
    /\ forall t, WObserved_ObservedAt w = Some t -> t = Some (Observed_ObservedAt v1)).
  { destruct (WObserved_ObservedAt w) as [[t|]|]; [| done | by injection Ht as <-].
    apply bind_Ok in Ht as ([] & _ & [= <-]). split_and!; try done. by intros ? [= <-]. }
  destruct Hv1 as (E1 & E2 & E3 & E4 & Htime).
  rewrite <- E1 in H2. rewrite <- E2 in H3. rewrite <- E3 in H4. rewrite <- E4 in H5.
  destruct (WObserved_LastError w) as [we|]; destruct (Observed_LastError v1) as [e|] eqn:Ee; try done.
  - apply bind_Ok in Hl as ([] & _ & [= <-]). split_and!; try done. by destruct we.
  - injection Hl as <-. rewrite Ee. by split_and!.
Qed.
End WireFacts.

(** ** Frames *)
Section FrameFacts.
Context {Msg : Type} `{PM : !Proto Msg} `{WR : Writer W}.

Lemma message_limit_range max : 0 < message_limit max <= MaxControlMessageBytes.
Proof. unfold message_limit, MaxControlMessageBytes. case_match; bool_facts; lia. Qed.

(** A control message that [WriteMessage] wrote without error is read back by
    [ReadMessage] under the same limit, which stops right behind it; only a message whose
    encoding is empty is refused, and [WriteMessage] always returns. *)
Theorem message_frame_roundtrip (w : W) m max w' rest :
  WriteMessage (Some w) (Some m) max = Some (w', None) ->
  exists w1 sent, w' = Some w1 /\ stream w1 = stream w ++ sent
    /\ ReadMessage (sent ++ rest) max = match proto_marshal m with Ok [] => Err (ENew "control message is empty") | _ => Ok (m, rest) end.
Proof.
  unfold WriteMessage. destruct (proto_marshal m) as [b|] eqn:Hm; [|done].
  destruct (llen b >? message_limit max) eqn:Hl; [done|]. pose proof (message_limit_range max) as Hr. unfold MaxControlMessageBytes in Hr.
  destruct (WriteFull_total w (be_put 4 (llen b))) as (w1 & [e|] & -> & H1); [done|]. cbn [mbind option_bind].
  destruct (WriteFull_total w1 b) as (w2 & err & -> & H2). intros [= <- ->].
  exists w2, (be_put 4 (llen b) ++ b). split; [done|]. rewrite H2, H1, <- app_assoc by done. split; [done|].
  unfold ReadMessage. rewrite <- app_assoc, ReadFull_app by apply be_put_length. cbn [mbind result_bind].
  rewrite be_get_put_small by (change (256 ^ Z.of_nat 4) with 4294967296; lia).
  destruct b as [|c b]; [done|]. set (l := c :: b) in *.
  replace (llen l =? 0) with false by done. rewrite Hl. cbn [reject_if mbind result_bind].
  rewrite Nat2Z.id, ReadFull_app by done. cbn [mbind result_bind]. by rewrite (proto_marshal_unmarshal _ _ Hm).
Qed.
End FrameFacts.

(** ** Instances at which the hypotheses hold *)
Definition hex_fold : Fold := {|
  EqualFold := strings.equal_fold_hex;
  EqualFold_sym s t := String.eqb_sym (strings.lower_bytes s) (strings.lower_bytes t);
  EqualFold_refl s := String.eqb_refl (strings.lower_bytes s);
  EqualFold_hex _ _ := eq_refl
|}.

Definition sample_wire : wire_snapshot := MkWireSnapshot 1 "gw-1" 1 (Snapshot_Checksum (sealed (sample_snapshot 1))) (one_document).

Definition sample_observed : ObservedState :=
  MkObservedState 0 "gw-1" 3 true false (Some (MkApplyError "data_plane_apply" "" "boom" false)) [] [] default_Metrics None 0.

Lemma snapshot_wire_roundtrip_witness :
  @SnapshotFromProto go_order insertion_slice_sort toy_crypto ascii_unicode toy_json hex_fold (one_json (sealed (sample_snapshot 1))) end_any (Some sample_wire)
  = Ok (@canonical insertion_slice_sort (sealed (sample_snapshot 1)) (Snapshot_Checksum (sealed (sample_snapshot 1)))).
Proof.
  apply (@snapshot_wire_roundtrip go_order insertion_slice_sort toy_crypto ascii_unicode toy_json hex_fold
           (one_json (sealed (sample_snapshot 1))) end_any (sealed (sample_snapshot 1)) sample_wire);
  vm_compute; reflexivity.
Defined.

Lemma SnapshotFromProto_sound_witness :
  exists sum, @ComputeChecksum insertion_slice_sort toy_crypto toy_json (sealed (sample_snapshot 1)) = Ok sum
    /\ strings.equal_fold_hex (WSnapshot_Checksum sample_wire) sum = true.
Proof.
  destruct (@SnapshotFromProto_sound go_order insertion_slice_sort toy_crypto ascii_unicode toy_json hex_fold
              (one_json (sealed (sample_snapshot 1))) end_any (Some sample_wire) (sealed (sample_snapshot 1)) ltac:(vm_compute; reflexivity))
    as (w & sum & [= <-] & _ & _ & _ & _ & _ & _ & _ & Hs & Hf).
  exists sum. split; [exact Hs | exact Hf].
Defined.

Definition sample_observed_wire : wire_observed :=
  MkWireObserved 1 "gw-1" 3 true false (one_document) (Some (Some 77)) (Some (MkWireError "data_plane_apply" "" "boom" false)).

Lemma observed_wire_roundtrip_witness :
  @ObservedFromProto (one_json (observed_stamped 77 sample_observed)) end_any 90 (Some sample_observed_wire) = Ok (observed_stamped 77 sample_observed).
Proof.
  apply (@observed_wire_roundtrip (one_json (observed_stamped 77 sample_observed)) end_any 77 78 90); [lia | vm_compute; reflexivity | reflexivity].
Defined.

Lemma ObservedFromProto_sound_witness :
  Observed_NodeID (observed_stamped 77 sample_observed) = WObserved_NodeId sample_observed_wire.
Proof.
  destruct (@ObservedFromProto_sound (one_json (observed_stamped 77 sample_observed)) end_any 90 (Some sample_observed_wire)
              (observed_stamped 77 sample_observed) ltac:(vm_compute; reflexivity)) as (w & [= <-] & _ & Hn & _).
  exact Hn.
Defined.

Lemma message_frame_roundtrip_witness :
  exists w1 sent, Some w1 = Some sent
    /\ @ReadMessage OpenMetadata bit_codec (sent ++ bytes_of "raw") 0 = Ok (sample_open, bytes_of "raw").
Proof.
  destruct (@WriteMessage OpenMetadata bit_codec bytes chunk_writer (Some []) (Some sample_open) 0) as [[w' [e|]]|] eqn:E; vm_compute in E; try discriminate E.
  assert (H : @WriteMessage OpenMetadata bit_codec bytes chunk_writer (Some []) (Some sample_open) 0 = Some (w', None)) by (vm_compute; exact E).
  destruct (@message_frame_roundtrip OpenMetadata bit_codec bytes chunk_writer [] sample_open 0 w' (bytes_of "raw") H) as (w1 & sent & Hw & Hs & Hr).
  exists sent, sent. split; [done|]. exact Hr.
Defined.
