(* ===== verification/NodeCache.v ===== *)
(** * The snapshot cache and the reconciler of a node (src/internal/node/cache.go)

    The cache is one encrypted file (over [Files]); the reconciler applies a snapshot to
    the data plane, publishes it in the cache and only then advances the generation it
    reports.  [Apply] and [Resync] are serialised by [applyMu]; the calls of other
    goroutines run wherever the state lock is free ([preempt]).  Parameters: AES-GCM,
    encoding/json, the texts of errors, the random source, the clock, and the data plane,
    given by the class [Component]. *)
From S2P Require Import Prelude GoStd Domain Checksum Validation Snapshot Datagram Json Effects Files ControlWire.

Definition cacheMagic : string := "AFSN1".
Definition cacheKeySize : Z := 32.
Definition maxCacheSize : Z := 67108864.
Definition ErrNoSnapshot : error := ENew "no cached desired snapshot".
Definition ErrStaleSnapshot : string := "snapshot generation is stale".

(** ** Parameters *)
(** AES-256-GCM with the 12-byte nonce. *)
Class AEAD := {
  gcm_seal : bytes -> bytes -> bytes -> bytes;
  gcm_open : bytes -> bytes -> bytes -> result bytes;
  gcm_seal_length : forall key nonce text, llen (gcm_seal key nonce text) = llen text + 16;
  gcm_open_seal : forall key nonce text, gcm_open key nonce (gcm_seal key nonce text) = Ok text
}.

(** The text of an error, and the [ApplyError] in the chain of an error that code outside
    the model returned. *)
Class ErrorText := {
  error_string : error -> string;
  text_string : text -> string;
  external_apply : string -> option ApplyError
}.

Section Errors.
Context `{ET : !ErrorText}.

(** [errors.As] for [*domain.ApplyError]. *)
Fixpoint as_apply (err : error) : option ApplyError :=
  match err with
  | EApply code path message => Some (MkApplyError code (text_string path) (text_string message) false)
  | EWrap _ _ inner => as_apply inner
  | EJoin e f => match as_apply e with Some a => Some a | None => as_apply f end
  | EExternal origin => external_apply origin
  | _ => None
  end.

Definition toApplyError (err : error) : ApplyError :=
  match as_apply err with Some e => e | None => MkApplyError "invalid_snapshot" "" (error_string err) false end.

Definition toApplyFailure (err : error) : ApplyError :=
  match as_apply err with
  | Some e =>
      MkApplyError (if String.eqb (strings.TrimSpace (ApplyError_Code e)) "" then "apply_failed" else ApplyError_Code e)
        (ApplyError_Path e)
        (if String.eqb (strings.TrimSpace (ApplyError_Message e)) "" then error_string err else ApplyError_Message e)
        (ApplyError_Retryable e)
  | None => MkApplyError "apply_failed" "" (error_string err) true
  end.
End Errors.

(** ** Encryption *)
Section Encryption.
Context `{AE : !AEAD}.

Definition aes_NewCipher (key : bytes) : result unit :=
  reject_if (negb ((llen key =? 16) || (llen key =? 24) || (llen key =? 32))) (EExternal "aes.KeySizeError").

Definition NonceSize : nat := 12.
Definition Overhead : nat := 16.

(** The random source is the list of the bytes it will deliver; the rest is returned. *)
Definition encrypt (key plaintext source : bytes) : result (bytes * bytes) :=
  _ ← aes_NewCipher key;
  if (List.length source <? NonceSize)%nat then Err (EExternal "rand.Reader") else
  let nonce := firstn NonceSize source in
  Ok (nonce ++ gcm_seal key nonce plaintext, skipn NonceSize source).

Definition decrypt (key ciphertext : bytes) : result bytes :=
  _ ← aes_NewCipher key;
  _ ← reject_if (List.length ciphertext <? NonceSize + Overhead)%nat (ENew "ciphertext is truncated");
  gcm_open key (firstn NonceSize ciphertext) (skipn NonceSize ciphertext).
End Encryption.

Record SnapshotCache := MkSnapshotCache { cache_path : string; cache_key : bytes }.

Definition NewSnapshotCache (path : string) (key : bytes) : result SnapshotCache :=
  _ ← reject_if (String.eqb (strings.TrimSpace path) "") (ENew "snapshot cache path is required");
  _ ← reject_if (negb (llen key =? cacheKeySize)) (ENew "snapshot cache key must contain exactly 32 bytes");
  Ok (MkSnapshotCache (filepath.Clean path) key).

(** ** The data plane *)
Class Component (C : Type) := {
  comp_apply : DesiredSnapshot -> option DesiredSnapshot -> M C unit;
  comp_reset : option (Z -> M C unit);
  serves : C -> DesiredSnapshot -> Prop;
  apply_serves : forall s previous c c', comp_apply s previous c = (c', Ok tt) -> serves c' s
}.

Record reconciler := MkReconciler { Rec_last : Z; Rec_lastChecksum : string; Rec_state : ObservedState; Rec_disconnectedAt : Z }.

Definition set_state (r : reconciler) (o : ObservedState) : reconciler := MkReconciler (Rec_last r) (Rec_lastChecksum r) o (Rec_disconnectedAt r).
Definition set_disconnectedAt (r : reconciler) (t : Z) : reconciler := MkReconciler (Rec_last r) (Rec_lastChecksum r) (Rec_state r) t.

(** An observed state without sessions, listeners, metrics and host report. *)
Definition plain_state (node : string) (generation : Z) (healthy degraded : bool) (e : option ApplyError) (at_ : Z) : ObservedState :=
  MkObservedState CurrentControlProtocolVersion node generation healthy degraded e [] [] default_Metrics None at_.

Definition set_health (o : ObservedState) (healthy degraded : bool) (e : option ApplyError) (at_ : Z) : ObservedState :=
  MkObservedState (Observed_SchemaVersion o) (Observed_NodeID o) (Observed_AppliedGeneration o) healthy degraded e
    (Observed_Sessions o) (Observed_Listeners o) (Observed_Metrics o) (Observed_SystemInfo o) at_.

Definition set_node (o : ObservedState) (node : string) (at_ : Z) : ObservedState :=
  MkObservedState (Observed_SchemaVersion o) node (Observed_AppliedGeneration o) (Observed_Healthy o) (Observed_Degraded o) (Observed_LastError o)
    (Observed_Sessions o) (Observed_Listeners o) (Observed_Metrics o) (Observed_SystemInfo o) at_.

(** ** Calls that only take the state lock; [clock] is [time.Now()]. *)
Definition SetNodeID (nodeID : string) (clock : Z) (r : reconciler) : reconciler * result unit :=
  let o := Rec_state r in
  match ValidateID nodeID (TLit "node_id") with
  | Err e => (r, Err e)
  | Ok _ =>
      if negb (String.eqb (Observed_NodeID o) "") && negb (String.eqb (Observed_NodeID o) nodeID)
      then (r, Err (ENew "reconciler node id does not match bootstrap"))
      else (set_state r (set_node o nodeID (if is_zero_time (Observed_ObservedAt o) then clock else Observed_ObservedAt o)), Ok tt)
  end.

Definition MarkConnected (now clock : Z) (r : reconciler) : reconciler * ObservedState :=
  let now := if is_zero_time now then clock else now in
  let o := Rec_state r in
  let o := match Observed_LastError o with
           | None => set_health o true false None now
           | Some e => set_health o (Observed_Healthy o) (Observed_Degraded o) (Some e) now
           end in
  (set_disconnectedAt (set_state r o) 0, o).

Definition MarkDisconnected (now grace clock : Z) (r : reconciler) : reconciler * ObservedState :=
  let grace := if grace <=? 0 then 30 * 1000000000 else grace in
  let now := if is_zero_time now then clock else now in
  let since := if is_zero_time (Rec_disconnectedAt r) then now else Rec_disconnectedAt r in
  let o := Rec_state r in
  let o := if time_sub now since >=? grace then set_health o false true (Observed_LastError o) now
           else set_health o (Observed_Healthy o) (Observed_Degraded o) (Observed_LastError o) now in
  (set_disconnectedAt (set_state r o) since, o).

Definition State (r : reconciler) : ObservedState := Rec_state r.
Definition AppliedGeneration (r : reconciler) : Z := Rec_last r.
Definition AppliedChecksum (r : reconciler) : string := Rec_lastChecksum r.

Inductive call := Connected (now clock : Z) | Disconnected (now grace clock : Z) | NodeID (id : string) (clock : Z).

Definition run_call (r : reconciler) (c : call) : reconciler :=
  match c with
  | Connected now clock => fst (MarkConnected now clock r)
  | Disconnected now grace clock => fst (MarkDisconnected now grace clock r)
  | NodeID id clock => fst (SetNodeID id clock r)
  end.

(** ** The node's process

    [hm_calls] are the calls other goroutines make: those of the head of the list run the
    next time [Apply] or [Resync] does not hold the state lock. *)
Record host (C : Type) := MkHost { hm_files : world; hm_random : bytes; hm_rec : reconciler; hm_comp : C; hm_calls : list (list call) }.
Arguments MkHost {C} _ _ _ _ _. Arguments hm_files {C} _. Arguments hm_random {C} _. Arguments hm_rec {C} _.
Arguments hm_comp {C} _. Arguments hm_calls {C} _.

Section Reconciler.
Context `{!MapOrder, !SliceSort, !Crypto, !Unicode, !DocumentJSON, !Fold, JS : !JSON DesiredSnapshot, !AEAD, !ErrorText, TN : !TempNames}.

(** What [Read] makes of the bytes of the file. *)
Definition parse_cache (c : SnapshotCache) (b : bytes) : result DesiredSnapshot :=
  _ ← reject_if ((llen b <? slen cacheMagic + 1) || (llen b >? maxCacheSize + 256)
                 || negb (bool_decide (firstn 5 b = bytes_of cacheMagic))) (ENew "snapshot cache has an invalid header");
  plaintext ← map_err (fun _ => ENew "snapshot cache authentication failed") (decrypt (cache_key c) (skipn 5 b));
  snapshot ← map_err (fun _ => ENew "snapshot cache document is invalid") (json_unmarshal plaintext);
  _ ← Snapshot_Validate snapshot;
  _ ← reject_if (String.eqb (strings.TrimSpace (Snapshot_Checksum snapshot)) "")
        (apply_error "missing_checksum" "checksum" "cached snapshot checksum is required");
  computedChecksum ← map_err (fun e => EWrap "compute cached snapshot checksum: %w" [] e) (ComputeChecksum snapshot);
  _ ← reject_if (negb (EqualFold computedChecksum (Snapshot_Checksum snapshot)))
        (apply_error "checksum_mismatch" "checksum" "cached snapshot checksum does not match its content");
  Ok snapshot.

Definition cache_Read (c : SnapshotCache) : IO DesiredSnapshot :=
  b ← try (os.ReadFile (cache_path c));
  match b with
  | Err e => if is_not_exist e then fail ErrNoSnapshot else fail (EWrap "read snapshot cache: %w" [] e)
  | Ok b => lift (parse_cache c b)
  end.

(** The bytes [Write] publishes, and the rest of the random source. *)
Definition render_cache (c : SnapshotCache) (snapshot : DesiredSnapshot) (source : bytes) : result (bytes * bytes) :=
  _ ← Snapshot_Validate snapshot;
  snapshot ← (if String.eqb (Snapshot_Checksum snapshot) "" then WithChecksum snapshot else Ok snapshot);
  document ← json_marshal snapshot;
  _ ← reject_if (llen document >? maxCacheSize) (ENew "snapshot cache document is too large");
  '(ciphertext, source) ← encrypt (cache_key c) document source;
  Ok (bytes_of cacheMagic ++ ciphertext, source).

Context {C : Type} `{CO : !Component C}.

Definition N A := M (host C) A.

Definition on_files {A} (m : IO A) : N A := fun h =>
  let '(w, r) := m (hm_files h) in (MkHost w (hm_random h) (hm_rec h) (hm_comp h) (hm_calls h), r).
Definition on_comp {A} (m : M C A) : N A := fun h =>
  let '(c, r) := m (hm_comp h) in (MkHost (hm_files h) (hm_random h) (hm_rec h) c (hm_calls h), r).
(** A critical section of the state lock. *)
Definition locked {A} (f : reconciler -> reconciler * A) : N A := fun h =>
  let '(r, a) := f (hm_rec h) in (MkHost (hm_files h) (hm_random h) r (hm_comp h) (hm_calls h), Ok a).
Definition preempt : N unit := fun h =>
  let calls := match hm_calls h with l :: _ => l | [] => [] end in
  (MkHost (hm_files h) (hm_random h) (fold_left run_call calls (hm_rec h)) (hm_comp h) (tl (hm_calls h)), Ok tt).

Definition cache_Write (c : SnapshotCache) (snapshot : DesiredSnapshot) : N unit := fun h =>
  match render_cache c snapshot (hm_random h) with
  | Err e => (h, Err e)
  | Ok (payload, source) =>
      on_files (AtomicWrite (cache_path c) payload) (MkHost (hm_files h) source (hm_rec h) (hm_comp h) (hm_calls h))
  end.

(** The reconciler of a starting process. *)
Definition initial_reconciler (clock : Z) (read : result DesiredSnapshot) : reconciler :=
  match read with
  | Ok snapshot => MkReconciler (Snapshot_Generation snapshot) (Snapshot_Checksum snapshot)
                     (plain_state (Snapshot_NodeID snapshot) (Snapshot_Generation snapshot) true false None clock) 0
  | Err e =>
      MkReconciler 0 ""
        (if error_is e "no cached desired snapshot" then plain_state "" 0 false false None 0
         else plain_state "" 0 false true (Some (MkApplyError "cache_read_failed" "" (error_string e) false)) 0) 0
  end.

Definition NewReconciler (c : SnapshotCache) (clock : Z) : IO reconciler := read ← try (cache_Read c); mret (initial_reconciler clock read).

Definition REJECTED := APPLY_STATUS_REJECTED.
Definition degrade (e : ApplyError) : N unit :=
  _ ← preempt; locked (fun r => (set_state r (set_health (Rec_state r) false true (Some e) (Observed_ObservedAt (Rec_state r))), tt)).

(** The critical section that refuses a snapshot for another node or a generation that
    is not new: [Some] is the answer. *)
Definition admission (snapshot : DesiredSnapshot) (r : reconciler) : reconciler * option apply_result :=
  let g := Snapshot_Generation snapshot in
  let node := Observed_NodeID (Rec_state r) in
  if negb (String.eqb node "") && negb (String.eqb (Snapshot_NodeID snapshot) node) then
    (r, Some (ApplyResult g (Snapshot_Checksum snapshot) REJECTED
                (Some (MkApplyError "node_mismatch" "node_id" "snapshot node id does not match reconciler" false))))
  else if (g =? 0) || (g <? Rec_last r) || (g =? Rec_last r) && EqualFold (Snapshot_Checksum snapshot) (Rec_lastChecksum r) then
    (r, Some (ApplyResult (if g =? 0 then Rec_last r else g) (Snapshot_Checksum snapshot) REJECTED
                (Some (MkApplyError "stale_generation" "generation" ErrStaleSnapshot false))))
  else (r, None).

Definition rejected (snapshot : DesiredSnapshot) (e : ApplyError) : apply_result :=
  ApplyResult (Snapshot_Generation snapshot) (Snapshot_Checksum snapshot) REJECTED (Some e).

Definition generation_mismatch : ApplyError :=
  MkApplyError "cache_generation_mismatch" "generation" "snapshot cache generation differs from the applied generation" true.

Definition write_failed (err : error) (rollback : result unit) : ApplyError :=
  let message := error_string err in
  MkApplyError "cache_write_failed" ""
    (match rollback with Ok _ => message | Err e => message +:+ "; data-plane rollback failed: " +:+ error_string e end) true.

(** From the cached document to the answer. *)
Definition publish (c : SnapshotCache) (snapshot : DesiredSnapshot) (previous : option DesiredSnapshot) (clock : Z) : N apply_result :=
  applied ← try (on_comp (comp_apply snapshot previous));
  match applied with
  | Err err => let e := toApplyFailure err in _ ← degrade e; mret (rejected snapshot e)
  | Ok _ =>
      written ← try (cache_Write c snapshot);
      match written with
      | Err err =>
          rollback ← try (match previous, comp_reset with
                          | Some p, _ => on_comp (comp_apply p (Some snapshot))
                          | None, Some reset => on_comp (reset (Snapshot_Generation snapshot))
                          | None, None => mret tt
                          end);
          let e := write_failed err rollback in
          _ ← degrade e;
          mret (rejected snapshot e)
      | Ok _ =>
          _ ← preempt;
          _ ← locked (fun _ => (MkReconciler (Snapshot_Generation snapshot) (Snapshot_Checksum snapshot)
                                  (plain_state (Snapshot_NodeID snapshot) (Snapshot_Generation snapshot) true false None clock) 0, tt));
          mret (ApplyResult (Snapshot_Generation snapshot) (Snapshot_Checksum snapshot) APPLY_STATUS_APPLIED None)
      end
  end.

Definition Apply (c : SnapshotCache) (snapshot : DesiredSnapshot) (clock : Z) : N apply_result :=
  match (if String.eqb (Snapshot_Checksum snapshot) "" then WithChecksum snapshot else Ok snapshot) with
  | Err e => mret (rejected snapshot (toApplyError e))
  | Ok snapshot =>
      match Snapshot_Validate snapshot with
      | Err e => mret (rejected snapshot (toApplyError e))
      | Ok _ =>
          _ ← preempt;
          answer ← locked (admission snapshot);
          match answer with
          | Some answer => mret answer
          | None =>
              old ← try (on_files (cache_Read c));
              _ ← preempt;
              match old with
              | Err _ => publish c snapshot None clock
              | Ok old =>
                  last ← locked (fun r => (r, Rec_last r));
                  if negb (last =? 0) && negb (Snapshot_Generation old =? last) then
                    _ ← degrade generation_mismatch; mret (rejected snapshot generation_mismatch)
                  else publish c snapshot (Some old) clock
              end
          end
      end
  end.

Definition resync_failure (err : error) : ApplyError :=
  let e := toApplyFailure err in
  if String.eqb (ApplyError_Code e) "apply_failed"
  then MkApplyError "resync_failed" (ApplyError_Path e) (ApplyError_Message e) (ApplyError_Retryable e) else e.

Definition Resync (c : SnapshotCache) (clock : Z) : N apply_result :=
  read ← try (on_files (cache_Read c));
  match read with
  | Err err =>
      _ ← preempt;
      generation ← locked (fun r => (r, AppliedGeneration r));
      mret (ApplyResult generation "" REJECTED (Some (MkApplyError "cache_read_failed" "" (error_string err) true)))
  | Ok snapshot =>
      match Snapshot_Validate snapshot with
      | Err e => mret (rejected snapshot (toApplyError e))
      | Ok _ =>
          applied ← try (on_comp (comp_apply snapshot (Some snapshot)));
          match applied with
          | Err err => mret (rejected snapshot (resync_failure err))
          | Ok _ =>
              _ ← preempt;
              _ ← locked (fun r => (set_state r (set_health (Rec_state r) true false None clock), tt));
              mret (ApplyResult (Snapshot_Generation snapshot) (Snapshot_Checksum snapshot) APPLY_STATUS_APPLIED None)
          end
      end
  end.
End Reconciler.
