(* ===== verification/NodeCacheFacts.v ===== *)
(** * What the cache and the reconciler guarantee

    The cache gives back what was written; a crash during [Apply] leaves the old or the new
    snapshot; a reconciler that reports a generation without an error has it in the cache
    and in the data plane. *)
From S2P Require Import Prelude GoStd Domain Checksum Validation Snapshot Samples SnapshotFacts Datagram Json Effects Files FilesFacts ControlWire ControlWireFacts NodeCache.

Section CacheFacts.
Context `{MO : !MapOrder, SS : !SliceSort, CR : !Crypto, UN : !Unicode, DJ : !DocumentJSON, FO : !Fold, JS : !JSON DesiredSnapshot, AE : !AEAD, ET : !ErrorText, TN : !TempNames}.

(** ** Round trip *)
Lemma Validate_checksum s :
  Snapshot_Validate s = Ok tt -> Snapshot_Checksum s <> "" ->
  exists d, ComputeChecksum s = Ok (hex_encode d) /\ d <> [] /\ strings.equal_fold_hex (hex_encode d) (Snapshot_Checksum s) = true.
Proof.
  intros H Hne. unfold Snapshot_Validate in H. do 8 (apply bind_Ok in H as ([] & _ & H)).
  apply bind_Ok in H as (ix & _ & H). apply bind_Ok in H as (st & _ & H). apply String.eqb_neq in Hne. rewrite Hne in H.
  apply bind_Ok in H as (sum & Hs & H). apply map_err_Ok in Hs. apply reject_if_Ok, negb_false_iff in H.
  destruct (ComputeChecksum_hex _ _ Hs) as (d & -> & Hd). by exists d.
Qed.

Lemma lower_alnum c : is_alnum (strings.ascii_lower c) = is_alnum c.
Proof. destruct c as [[] [] [] [] [] [] [] []]; reflexivity. Qed.

Lemma checksum_solid d v : strings.equal_fold_hex (hex_encode d) v = true -> Forall solid (bytes_of v).
Proof.
  unfold strings.equal_fold_hex, strings.lower_bytes. intros H. apply String.eqb_eq in H. apply (f_equal bytes_of) in H. rewrite !bytes_of_of_bytes in H.
  apply Forall_forall. intros c Hc. apply is_alnum_below. rewrite <- lower_alnum.
  assert (Hin : strings.ascii_lower c ∈ strings.ascii_lower <$> bytes_of v) by (apply list_elem_of_fmap; by exists c).
  rewrite <- H in Hin. apply list_elem_of_fmap in Hin as (x & -> & Hx). rewrite lower_alnum.
  pose proof (hex_encode_alnum d) as Ha. rewrite Forall_forall in Ha. by apply Ha.
Qed.

Lemma decrypt_encrypt key text source b source' : encrypt key text source = Ok (b, source') -> decrypt key b = Ok text /\ llen b = llen text + 28.
Proof.
  unfold encrypt, decrypt. intros H. apply bind_Ok in H as ([] & -> & H). cbn [mbind result_bind].
  destruct (Nat.ltb_spec (List.length source) NonceSize) as [|Hs]; [done|]. injection H as <- <-.
  assert (Hl : List.length (firstn NonceSize source) = NonceSize) by (rewrite length_firstn; lia).
  rewrite firstn_app, skipn_app, Hl, Nat.sub_diag, firstn_all2, skipn_all2, app_nil_r by lia. cbn [firstn skipn app].
  pose proof (gcm_seal_length key (firstn NonceSize source) text) as Hg. unfold NonceSize, Overhead in *.
  split; [|rewrite length_app; lia]. rewrite length_app, Hl.
  replace (12 + List.length (gcm_seal key (firstn 12 source) text) <? 12 + 16)%nat with false; [|symmetry; apply Nat.ltb_ge; lia].
  cbn [reject_if mbind result_bind]. apply gcm_open_seal.
Qed.

Lemma parse_render c s source payload source' :
  Snapshot_Checksum s <> "" -> json_exact s -> render_cache c s source = Ok (payload, source') -> parse_cache c payload = Ok s.
Proof.
  unfold render_cache. intros Hne He H. apply bind_Ok in H as ([] & Hv & H). pose proof (Validate_checksum _ Hv Hne) as (d & Hc & Hd & Hf).
  apply String.eqb_neq in Hne as Hne'. rewrite Hne' in H. cbn [mbind result_bind] in H. apply bind_Ok in H as (document & Hm & H).
  apply bind_Ok in H as ([] & Hl & H). apply reject_if_Ok in Hl. apply bind_Ok in H as ([b src] & Hb & [= <- <-]).
  destruct (decrypt_encrypt _ _ _ _ _ Hb) as [Hdec Hlen]. unfold parse_cache.
  cbn [List.length firstn skipn]. unfold maxCacheSize in *. change (slen cacheMagic) with 5.
  rewrite (proj2 (Z.ltb_ge _ _)) by lia. rewrite Z.gtb_ltb, (proj2 (Z.ltb_ge _ _)) by lia.
  rewrite bool_decide_eq_true_2 by done. cbn [orb negb reject_if mbind result_bind]. rewrite drop_0, Hdec. cbn [map_err mbind result_bind].
  rewrite (json_unmarshal_marshal _ _ He Hm). cbn [map_err mbind result_bind]. rewrite Hv. cbn [mbind result_bind].
  rewrite TrimSpace_all_solid by (by eapply checksum_solid). rewrite Hne', Hc. cbn [reject_if map_err mbind result_bind].
  rewrite EqualFold_sym, EqualFold_hex. unfold strings.equal_fold_hex in *. rewrite String.eqb_sym, Hf. done.
Qed.

(** What the file of the cache holds. *)
Definition cached (c : SnapshotCache) (d : files) : result DesiredSnapshot :=
  match d !! cache_path c with Some b => parse_cache c b | None => Err ErrNoSnapshot end.

(** [Read] changes nothing and returns what the file holds, when the system lets it. *)
Lemma cache_Read_run c w w' r :
  cache_Read c w = (w', r) -> disk w' = disk w /\ history w' = history w /\ (forall s, r = Ok s -> cached c (disk w) = Ok s).
Proof.
  unfold cache_Read, os.ReadFile, syscall, ask, cached. cbv [try mbind M_bind get_disk mret M_ret fail lift].
  destruct (oracle w) as [|o os]; [|destruct o]; cbn; destruct (disk w !! cache_path c); intros [= <- <-]; cbn; naive_solver.
Qed.
End CacheFacts.

(** ** The reconciler *)
Section ReconcilerFacts.
Context `{MO : !MapOrder, SS : !SliceSort, CR : !Crypto, UN : !Unicode, DJ : !DocumentJSON, FO : !Fold, JS : !JSON DesiredSnapshot, AE : !AEAD, ET : !ErrorText, TN : !TempNames}.
Context {C : Type} `{CO : !Component C} (c : SnapshotCache).
Hypothesis temp_other : forall pattern d, temp_name (cache_path c) pattern d <> cache_path c.
Implicit Types h : host C.

(** The cache holds the snapshot whose generation and checksum [h] reports. *)
Definition holds_last h (s : DesiredSnapshot) : Prop :=
  cached c (disk (hm_files h)) = Ok s /\ Snapshot_Generation s = Rec_last (hm_rec h) /\ Snapshot_Checksum s = Rec_lastChecksum (hm_rec h).

(** The reports agree with each other and with the cache, if there is one. *)
Record recorded h : Prop := {
  rec_generation : Observed_AppliedGeneration (Rec_state (hm_rec h)) = Rec_last (hm_rec h);
  rec_healthy : Observed_Healthy (Rec_state (hm_rec h)) = true -> Observed_LastError (Rec_state (hm_rec h)) = None;
  rec_file : Rec_last (hm_rec h) <> 0 -> disk (hm_files h) !! cache_path c = None \/ exists s, holds_last h s
}.

Record aligned h : Prop := {
  al_recorded : recorded h;
  al_serves : Rec_last (hm_rec h) <> 0 -> Observed_LastError (Rec_state (hm_rec h)) = None -> exists s, holds_last h s /\ serves (hm_comp h) s
}.

(** The calls that only take the state lock change what the node says of its health and
    of its connection. *)
Definition same_record (r r' : reconciler) : Prop :=
  Rec_last r' = Rec_last r /\ Rec_lastChecksum r' = Rec_lastChecksum r
  /\ Observed_AppliedGeneration (Rec_state r') = Observed_AppliedGeneration (Rec_state r)
  /\ Observed_LastError (Rec_state r') = Observed_LastError (Rec_state r)
  /\ (Observed_Healthy (Rec_state r') = true -> Observed_Healthy (Rec_state r) = true \/ Observed_LastError (Rec_state r) = None).

Lemma run_call_same r x : same_record r (run_call r x).
Proof.
  destruct x as [now clock|now grace clock|node clock]; cbn.
  - unfold MarkConnected, same_record. destruct (Observed_LastError (Rec_state r)) eqn:E; cbn; naive_solver.
  - unfold MarkDisconnected, same_record. cbn. case_match; cbn; naive_solver.
  - unfold SetNodeID, same_record. destruct (ValidateID node _); [|naive_solver]. case_match; cbn; naive_solver.
Qed.

Lemma run_calls_same l : forall r, same_record r (fold_left run_call l r).
Proof.
  induction l as [|x l IH]; intros r; cbn; [by unfold same_record; naive_solver|].
  destruct (run_call_same r x) as (E1 & E2 & E3 & E4 & E5). destruct (IH (run_call r x)) as (F1 & F2 & F3 & F4 & F5).
  unfold same_record. rewrite F1, F2, F3, F4, E1, E2, E3, E4. split_and!; try done. rewrite E4 in F5. naive_solver.
Qed.

Lemma same_record_recorded h h' :
  same_record (hm_rec h) (hm_rec h') -> disk (hm_files h') = disk (hm_files h) -> recorded h -> recorded h'.
Proof.
  intros (E1 & E2 & E3 & E4 & E5) Ed [H1 H2 H3]. constructor.
  - by rewrite E3, E1.
  - rewrite E4. naive_solver.
  - rewrite E1, Ed. intros Hl. destruct (H3 Hl) as [Hn|[s Hs]]; [by left | right]. exists s. unfold holds_last in *. by rewrite E1, E2, Ed.
Qed.

Lemma same_record_aligned h h' :
  same_record (hm_rec h) (hm_rec h') -> disk (hm_files h') = disk (hm_files h) -> hm_comp h' = hm_comp h -> aligned h -> aligned h'.
Proof.
  intros Hs Ed Ec [H1 H2]. pose proof (same_record_recorded h h' Hs Ed H1) as Hr. destruct Hs as (E1 & E2 & E3 & E4 & E5).
  constructor; [done|]. rewrite E1, E4, Ec. intros Hl He. destruct (H2 Hl He) as (s & Hs & Hv). exists s.
  unfold holds_last in *. by rewrite E1, E2, Ed.
Qed.

Lemma preempt_run h h' r :
  preempt h = (h', r) -> r = Ok tt /\ hm_files h' = hm_files h /\ hm_random h' = hm_random h /\ hm_comp h' = hm_comp h /\ same_record (hm_rec h) (hm_rec h').
Proof. unfold preempt. intros [= <- <-]. cbn. split_and!; try done. apply run_calls_same. Qed.

(** After an error is recorded, nothing is claimed of the data plane. *)
Lemma degrade_run e h h' r :
  degrade e h = (h', r) -> r = Ok tt /\ hm_files h' = hm_files h /\ hm_comp h' = hm_comp h /\ hm_random h' = hm_random h
    /\ Rec_last (hm_rec h') = Rec_last (hm_rec h) /\ Rec_lastChecksum (hm_rec h') = Rec_lastChecksum (hm_rec h)
    /\ (recorded h -> aligned h').
Proof.
  unfold degrade. intros H. apply M_bind_run in H as [([] & h1 & H1 & H)|(e' & H & _)]; [| by apply preempt_run in H as [[=] _]].
  apply preempt_run in H1 as (_ & Hf & Hr & Hc & Hs). unfold locked in H. cbn in H. injection H as <- <-. cbn. pose proof Hs as (E1 & E2 & E3 & E4 & _).
  split_and!; [done | by rewrite Hf | by rewrite Hc | by rewrite Hr | done | done |].
  intros Hrec. destruct (same_record_recorded h h1 Hs ltac:(by rewrite Hf) Hrec) as [G1 G2 G3]. constructor; [constructor|]; cbn; done.
Qed.

(** A published file is the rendered snapshot; a failed publication left the old file, or
    none under that name. *)
Lemma cache_Write_run s h h' r :
  cache_Write c s h = (h', r) -> hm_rec h' = hm_rec h /\ hm_comp h' = hm_comp h /\ hm_calls h' = hm_calls h /\
    match r with
    | Ok _ => exists payload source, render_cache c s (hm_random h) = Ok (payload, source) /\ disk (hm_files h') !! cache_path c = Some payload
    | Err _ => disk (hm_files h') !! cache_path c = disk (hm_files h) !! cache_path c \/ disk (hm_files h') !! cache_path c = None
    end.
Proof.
  unfold cache_Write. destruct (render_cache c s (hm_random h)) as [[payload source]|e] eqn:E; [|intros [= <- <-]; by auto].
  unfold on_files. cbn. pose proof (keeps_AtomicWrite (cache_path c) payload (disk (hm_files h) !! cache_path c) temp_other (fun _ => True) ltac:(done)
    (hm_files h) (conj (proj2 (Forall_forall _ _) (fun _ _ => I)) eq_refl)) as [_ Hr].
  destruct (AtomicWrite (cache_path c) payload (hm_files h)) as [w r'] eqn:Ew. intros [= <- <-]. cbn in *. split_and!; try done.
  destruct r' as [[]|e]; [by exists payload, source|]. destruct Hr as [Hr|[Hr _]]; auto.
Qed.

(** *** Every operation keeps the node aligned *)
Definition installable (s : DesiredSnapshot) : Prop := Snapshot_Validate s = Ok tt /\ Snapshot_Checksum s <> "" /\ json_exact s.

Lemma on_comp_run {A} (m : M C A) h h' r :
  on_comp m h = (h', r) -> hm_files h' = hm_files h /\ hm_rec h' = hm_rec h /\ m (hm_comp h) = (hm_comp h', r).
Proof. unfold on_comp. destruct (m (hm_comp h)) as [x r'] eqn:E. intros [= <- <-]. done. Qed.

(** A change of the data plane, or a failed publication, is not recorded yet. *)
Lemma recorded_files h h' :
  hm_rec h' = hm_rec h ->
  disk (hm_files h') !! cache_path c = disk (hm_files h) !! cache_path c \/ disk (hm_files h') !! cache_path c = None ->
  recorded h -> recorded h'.
Proof.
  intros Er Ed [H1 H2 H3]. constructor; rewrite ?Er; [done | done |]. intros Hl. destruct Ed as [Ed|Ed]; [|by left].
  unfold holds_last, cached in *. rewrite Er, Ed. auto.
Qed.

Lemma degrade_rejects h h' s e r :
  recorded h -> (_ ← degrade e; mret (rejected s e)) h = (h', r) -> aligned h' /\ r = Ok (rejected s e).
Proof.
  intros Hrec H. apply M_bind_run in H as [([] & h1 & H1 & [= <- <-])|(e' & H1 & _)]; apply degrade_run in H1 as (E & _ & _ & _ & _ & _ & Ha); [by auto | done].
Qed.

Lemma publish_aligned s previous clock h h' r :
  installable s -> recorded h -> publish c s previous clock h = (h', r) -> aligned h' /\ is_Ok r = true.
Proof.
  intros (Hv & Hne & Hex) Hrec H. unfold publish in H.
  apply M_bind_run in H as [(applied & h1 & H1 & H)|(e & H1 & _)]; apply try_run in H1 as (r1 & E1 & H1); [injection E1 as ->|done].
  apply on_comp_run in H1 as (Hf1 & Hr1 & Hc1). assert (Hrec1 : recorded h1) by (apply (recorded_files h); [done | rewrite Hf1; by left | done]).
  destruct r1 as [[]|err]; [| apply degrade_rejects in H as [Ha ->]; done].
  apply M_bind_run in H as [(written & h2 & H2 & H)|(e & H2 & _)]; apply try_run in H2 as (r2 & E2 & H2); [injection E2 as ->|done].
  apply cache_Write_run in H2 as (Hr2 & Hc2 & _ & Hw). destruct r2 as [[]|err].
  - destruct Hw as (payload & source & Hrender & Hd). pose proof (parse_render _ _ _ _ _ Hne Hex Hrender) as Hp.
    apply M_bind_run in H as [([] & h3 & H3 & H)|(e & H3 & _)]; apply preempt_run in H3 as (E3 & Hf3 & _ & Hc3 & _); [|done].
    cbn in H. injection H as <- <-. split; [|done].
    assert (Hl : holds_last (MkHost (hm_files h3) (hm_random h3) (MkReconciler (Snapshot_Generation s) (Snapshot_Checksum s)
      (plain_state (Snapshot_NodeID s) (Snapshot_Generation s) true false None clock) 0) (hm_comp h3) (hm_calls h3)) s).
    { unfold holds_last, cached. cbn. by rewrite Hf3, Hd. }
    constructor; [constructor; cbn; [done | done |]|]; intros _; [right; by exists s|]. intros _. exists s. split; [done|]. cbn.
    rewrite Hc3, Hc2. by eapply apply_serves.
  - assert (Hrec2 : recorded h2) by (by apply (recorded_files h1)).
    apply M_bind_run in H as [(rollback & h3 & H3 & H)|(e & H3 & _)]; apply try_run in H3 as (r3 & E3 & H3); [injection E3 as ->|done].
    assert (Hrec3 : recorded h3).
    { assert (hm_files h3 = hm_files h2 /\ hm_rec h3 = hm_rec h2) as [Ef Er].
      { destruct previous as [p|]; [by apply on_comp_run in H3 as (? & ? & _)|]. destruct comp_reset; [by apply on_comp_run in H3 as (? & ? & _)|].
        by injection H3 as <- _. }
      apply (recorded_files h2); [done | rewrite Ef; by left | done]. }
    apply degrade_rejects in H as [Ha ->]; done.
Qed.

Lemma same_record_refl r : same_record r r.
Proof. unfold same_record. naive_solver. Qed.

Lemma admission_run s r : exists answer, admission s r = (r, answer)
  /\ (answer = None -> Snapshot_Generation s <> 0 /\ Rec_last r <= Snapshot_Generation s).
Proof. unfold admission. case_match; [by eexists|]. case_match; [by eexists|]. eexists. split; [done|]. bool_facts. lia. Qed.

Lemma locked_admission s h h' r : locked (C := C) (admission s) h = (h', r) -> h' = h /\ is_Ok r = true.
Proof.
  unfold locked. destruct (admission_run s (hm_rec h)) as (answer & -> & _). intros [= <- <-]. by destruct h.
Qed.

(** A read of the cache changes nothing that the node reports. *)
Lemma on_files_Read h h' r :
  on_files (C := C) (cache_Read c) h = (h', r) -> hm_rec h' = hm_rec h /\ hm_comp h' = hm_comp h /\ hm_random h' = hm_random h
    /\ disk (hm_files h') = disk (hm_files h) /\ history (hm_files h') = history (hm_files h) /\ (forall s, r = Ok s -> cached c (disk (hm_files h)) = Ok s).
Proof.
  unfold on_files. destruct (cache_Read c (hm_files h)) as [w r'] eqn:E. intros [= <- <-]. cbn.
  destruct (cache_Read_run _ _ _ _ E) as (Hd & Hh & Hs). by split_and!.
Qed.

(** The snapshot that [Apply] works with: the one it was given, sealed if it was not. *)
Definition sealed_form (s : DesiredSnapshot) : result DesiredSnapshot := if String.eqb (Snapshot_Checksum s) "" then WithChecksum s else Ok s.

Lemma sealed_form_checksum s s' : sealed_form s = Ok s' -> Snapshot_Checksum s' <> "".
Proof.
  unfold sealed_form. destruct (String.eqb_spec (Snapshot_Checksum s) "") as [_|Hne]; [|by intros [= <-]]. unfold WithChecksum. intros H.
  apply bind_Ok in H as ([] & _ & H). apply bind_Ok in H as (sum & Hs & [= <-]). destruct (ComputeChecksum_hex _ _ Hs) as (d & -> & Hd).
  by apply hex_nonempty.
Qed.

Lemma Apply_aligned s clock h h' r :
  (forall s', sealed_form s = Ok s' -> json_exact s') -> aligned h -> Apply c s clock h = (h', r) -> aligned h' /\ is_Ok r = true.
Proof.
  intros Hex Ha H. unfold Apply in H. fold (sealed_form s) in H. destruct (sealed_form s) as [s1|e] eqn:Es; [|by injection H as <- <-].
  pose proof (sealed_form_checksum _ _ Es) as Hne. specialize (Hex s1 eq_refl). destruct (Snapshot_Validate s1) as [[]|e] eqn:Hv; [|by injection H as <- <-].
  assert (Hi : installable s1) by done.
  apply M_bind_run in H as [([] & h1 & H1 & H)|(e & H1 & _)]; apply preempt_run in H1 as (E1 & Hf1 & _ & Hc1 & Hs1); [clear E1|done].
  assert (Ha1 : aligned h1) by (apply (same_record_aligned h); by rewrite ?Hf1).
  apply (M_bind_run (locked (admission s1))) in H as [(answer & h1' & HL & H)|(e & HL & _)]; apply locked_admission in HL as [-> E1]; [clear E1|done].
  destruct answer as [a|]; [by injection H as <- <-|].
  apply (M_bind_run (try (on_files (cache_Read c)))) in H as [(old & h2 & H2 & H)|(e & H2 & _)]; apply try_run in H2 as (r2 & E2 & H2); [injection E2 as ->|done].
  apply on_files_Read in H2 as (Hr2 & Hc2 & _ & Hd2 & _ & _).
  apply (M_bind_run preempt) in H as [([] & h3 & H3 & H)|(e & H3 & _)]; apply preempt_run in H3 as (E3 & Hf3 & _ & Hc3 & Hs3); [clear E3|done].
  assert (Ha3 : aligned h3).
  { apply (same_record_aligned h2); rewrite ?Hf3; try done. apply (same_record_aligned h1); rewrite ?Hr2; try done. apply same_record_refl. }
  destruct r2 as [old|e]; [|by apply publish_aligned in H; [| done | apply Ha3]].
  apply (M_bind_run (locked _)) in H as [(last & h4 & H4 & H)|(e & H4 & _)]; [|done]. destruct h3 as [f3 rd3 rec3 comp3 calls3]. injection H4 as <- <-.
  case_match; [|by apply publish_aligned in H; [| done | apply Ha3]]. apply degrade_rejects in H as [? ->]; [done | apply Ha3].
Qed.

(** A failed [Resync] must leave the data plane as it was: the reconciler records nothing. *)
Definition transactional : Prop :=
  forall s c c' e, comp_apply s (Some s) c = (c', Err e) -> serves c s -> serves c' s.

Lemma Resync_aligned clock h h' r :
  transactional -> aligned h -> Resync c clock h = (h', r) -> aligned h' /\ is_Ok r = true.
Proof.
  intros Ht Ha H. unfold Resync in H.
  apply (M_bind_run (try (on_files (cache_Read c)))) in H as [(old & h2 & H2 & H)|(e & H2 & _)]; apply try_run in H2 as (r2 & E2 & H2); [injection E2 as ->|done].
  apply on_files_Read in H2 as (Hr2 & Hc2 & _ & Hd2 & _ & Hs2).
  assert (Ha2 : aligned h2) by (apply (same_record_aligned h); rewrite ?Hr2; try done; apply same_record_refl).
  destruct r2 as [s|e].
  2: { apply (M_bind_run preempt) in H as [([] & h3 & H3 & H)|(e' & H3 & _)]; apply preempt_run in H3 as (E3 & Hf3 & _ & Hc3 & Hs3); [|done].
       destruct h3 as [f3 rd3 rec3 comp3 calls3]. cbn in *. injection H as <- <-. split; [|done]. by apply (same_record_aligned h2); cbn; rewrite ?Hf3. }
  specialize (Hs2 s eq_refl). rewrite <- Hd2 in Hs2. destruct (Snapshot_Validate s) as [[]|e]; [|by injection H as <- <-].
  assert (Hown : Rec_last (hm_rec h2) <> 0 -> holds_last h2 s).
  { intros Hl. destruct (rec_file _ (al_recorded _ Ha2) Hl) as [Hn|(s' & Hc' & Hg' & Hk')].
    - unfold cached in Hs2. by rewrite Hn in Hs2.
    - rewrite Hs2 in Hc'. injection Hc' as <-. done. }
  apply (M_bind_run (try (on_comp _))) in H as [(applied & h3 & H3 & H)|(e & H3 & _)]; apply try_run in H3 as (r3 & E3 & H3); [injection E3 as ->|done].
  apply on_comp_run in H3 as (Hf3 & Hr3 & Hc3).
  assert (Hrec3 : recorded h3) by (apply (recorded_files h2); [done | rewrite Hf3; by left | apply Ha2]).
  assert (Hown3 : Rec_last (hm_rec h3) <> 0 -> holds_last h3 s) by (unfold holds_last in *; by rewrite Hr3, Hf3).
  destruct r3 as [[]|err].
  - apply (M_bind_run preempt) in H as [([] & h4 & H4 & H)|(e' & H4 & _)]; apply preempt_run in H4 as (E4 & Hf4 & _ & Hc4 & Hs4); [|done].
    pose proof (same_record_recorded h3 h4 Hs4 ltac:(by rewrite Hf4) Hrec3) as [G1 G2 G3]. destruct Hs4 as (F1 & F2 & F3 & F4 & F5).
    destruct h4 as [f4 rd4 rec4 comp4 calls4]. cbn in *. injection H as <- <-. split; [|done].
    constructor; [constructor; cbn; [done | done | exact G3]|]. cbn. intros Hl _. exists s. split.
    + unfold holds_last in *. cbn. rewrite F1, F2, Hf4. apply Hown3. by rewrite <- F1.
    + rewrite Hc4. by eapply apply_serves.
  - injection H as <- <-. split; [|done]. constructor; [done|]. intros Hl Hn. exists s. split; [by apply Hown3|].
    eapply Ht; [exact Hc3|]. rewrite Hr3 in Hl, Hn. destruct (al_serves _ Ha2 Hl Hn) as (s' & (Hc' & _) & Hv). rewrite Hs2 in Hc'. by injection Hc' as <-.
Qed.

(** *** Answers *)
Definition same_generation h h' : Prop := Rec_last (hm_rec h') = Rec_last (hm_rec h) /\ Rec_lastChecksum (hm_rec h') = Rec_lastChecksum (hm_rec h).
Definition file_of h := disk (hm_files h) !! cache_path c.
Definition kept h h' : Prop := same_generation h h' /\ (file_of h' = file_of h \/ file_of h' = None).

Definition refused h h' (a : apply_result) : Prop := Result_Status a = REJECTED /\ Result_Error a <> None /\ kept h h'.
Definition took s h' (a : apply_result) : Prop :=
  Result_Status a = APPLY_STATUS_APPLIED /\ Result_Error a = None /\ Rec_last (hm_rec h') = Snapshot_Generation s /\ Rec_lastChecksum (hm_rec h') = Snapshot_Checksum s
  /\ exists payload source source', render_cache c s source = Ok (payload, source') /\ file_of h' = Some payload.

Lemma kept_refl h : kept h h.
Proof. split; [done | by left]. Qed.

Lemma kept_trans h1 h2 h3 : kept h1 h2 -> kept h2 h3 -> kept h1 h3.
Proof.
  unfold kept, same_generation. intros [[E1 E2] [Ef|Ef]] [[F1 F2] [Ff|Ff]]; rewrite F1, F2, Ff, ?Ef; (split; [done|]); auto.
Qed.

Lemma degrade_refuses h h1 h' s e r :
  kept h h1 -> (_ ← degrade e; mret (rejected s e)) h1 = (h', r) -> exists a, r = Ok a /\ refused h h' a.
Proof.
  intros Hk H. apply M_bind_run in H as [([] & h2 & H2 & [= <- <-])|(e' & H2 & _)]; apply degrade_run in H2 as (E & Hf & _ & _ & El & Es & _); [|done].
  eexists. split; [done|]. split_and!; [done | done |]. apply (kept_trans h h1); [done|]. unfold kept, same_generation, file_of. by rewrite Hf, El, Es; auto.
Qed.

Lemma publish_answer s previous clock h h' r :
  publish c s previous clock h = (h', r) -> exists a, r = Ok a /\ (refused h h' a \/ took s h' a).
Proof.
  intros H. unfold publish in H.
  apply M_bind_run in H as [(applied & h1 & H1 & H)|(e & H1 & _)]; apply try_run in H1 as (r1 & E1 & H1); [injection E1 as ->|done].
  apply on_comp_run in H1 as (Hf1 & Hr1 & _). assert (Hk1 : kept h h1) by (unfold kept, same_generation, file_of; rewrite Hf1, Hr1; auto).
  destruct r1 as [[]|err]; [| apply degrade_refuses with (h := h) in H as (a & -> & Ha); eauto].
  apply M_bind_run in H as [(written & h2 & H2 & H)|(e & H2 & _)]; apply try_run in H2 as (r2 & E2 & H2); [injection E2 as ->|done].
  apply cache_Write_run in H2 as (Hr2 & _ & _ & Hw). destruct r2 as [[]|err].
  - destruct Hw as (payload & source & Hrender & Hd).
    apply M_bind_run in H as [([] & h3 & H3 & H)|(e & H3 & _)]; apply preempt_run in H3 as (E3 & Hf3 & _ & _ & _); [|done].
    cbn in H. injection H as <- <-. eexists. split; [done|]. right. unfold took, file_of. cbn. rewrite Hf3. split_and!; eauto 6.
  - apply M_bind_run in H as [(rollback & h3 & H3 & H)|(e & H3 & _)]; apply try_run in H3 as (r3 & E3 & H3); [injection E3 as ->|done].
    assert (Hk3 : kept h h3).
    { assert (hm_files h3 = hm_files h2 /\ hm_rec h3 = hm_rec h2) as [Ef Er].
      { destruct previous as [p|]; [by apply on_comp_run in H3 as (? & ? & _)|]. destruct comp_reset; [by apply on_comp_run in H3 as (? & ? & _)|].
        by injection H3 as <- _. }
      apply (kept_trans h h1); [done|]. unfold kept, same_generation, file_of in *. by rewrite Ef, Er, Hr2. }
    apply degrade_refuses with (h := h) in H as (a & -> & Ha); eauto.
Qed.

Lemma refused_from h h1 h' a : kept h h1 -> refused h1 h' a -> refused h h' a.
Proof. intros Hk (H1 & H2 & H3). split_and!; try done. by eapply kept_trans. Qed.

Lemma admission_refuses s1 r a : admission s1 r = (r, Some a) -> Result_Status a = REJECTED /\ Result_Error a <> None.
Proof. unfold admission. case_match; [by intros [= <-]|]. case_match; [by intros [= <-]|]. done. Qed.

(** [Apply] always answers.  It answers APPLIED, without an error, only for a
    snapshot that validates and whose generation is not behind the one the node is at,
    and then that generation and checksum are the node's and its document is in the
    cache; every other answer is REJECTED with an error and leaves the node at its
    generation, with its old cache file, or, if the publication failed after the old file
    was moved aside, without one. *)
Theorem Apply_answers s clock h :
  exists h' a, Apply c s clock h = (h', Ok a) /\
    (refused h h' a \/ exists s', sealed_form s = Ok s' /\ Snapshot_Validate s' = Ok tt /\ Rec_last (hm_rec h) <= Snapshot_Generation s' /\ took s' h' a).
Proof.
  destruct (Apply c s clock h) as [h' r] eqn:H. exists h'.
  enough (exists a, r = Ok a /\ (refused h h' a \/ exists s', sealed_form s = Ok s' /\ Snapshot_Validate s' = Ok tt
    /\ Rec_last (hm_rec h) <= Snapshot_Generation s' /\ took s' h' a)) as (a & -> & Ha) by (by exists a).
  unfold Apply in H. fold (sealed_form s) in H. pose proof (kept_refl h) as Hk.
  destruct (sealed_form s) as [s1|e] eqn:Es; [|injection H as <- <-; eexists; split; [done|]; by left].
  destruct (Snapshot_Validate s1) as [[]|e] eqn:Hv; [|injection H as <- <-; eexists; split; [done|]; by left].
  apply M_bind_run in H as [([] & h1 & H1 & H)|(e & H1 & _)]; apply preempt_run in H1 as (E1 & Hf1 & _ & _ & Hs1); [clear E1|done].
  assert (Hk1 : kept h h1) by (unfold kept, file_of; rewrite Hf1; destruct Hs1 as (? & ? & _); split; [done | by left]).
  destruct (admission_run s1 (hm_rec h1)) as (answer & Hadm & Hge).
  apply (M_bind_run (locked (admission s1))) in H as [(answer' & h1' & HL & H)|(e & HL & _)]; [|by apply locked_admission in HL as [_ ?]].
  unfold locked in HL. rewrite Hadm in HL. destruct h1 as [f1 rd1 rec1 comp1 calls1]. injection HL as <- <-. cbn [hm_rec] in *.
  set (h1 := MkHost f1 rd1 rec1 comp1 calls1) in *.
  destruct answer as [a|].
  { injection H as <- <-. eexists. split; [done|]. left. destruct (admission_refuses _ _ _ Hadm). by split_and!. }
  destruct (Hge eq_refl) as [_ Hle]. assert (Hl1 : Rec_last rec1 = Rec_last (hm_rec h)) by (by destruct Hs1 as (? & _)). rewrite Hl1 in Hle.
  apply (M_bind_run (try (on_files (cache_Read c)))) in H as [(old & h2 & H2 & H)|(e & H2 & _)]; apply try_run in H2 as (r2 & E2 & H2); [injection E2 as ->|done].
  apply on_files_Read in H2 as (Hr2 & _ & _ & Hd2 & _ & _).
  apply (M_bind_run preempt) in H as [([] & h3 & H3 & H)|(e & H3 & _)]; apply preempt_run in H3 as (E3 & Hf3 & _ & _ & Hs3); [clear E3|done].
  assert (Hk3 : kept h h3).
  { apply (kept_trans h h1); [done|]. unfold kept, same_generation, file_of. destruct Hs3 as (-> & -> & _). rewrite Hf3, Hr2, Hd2. auto. }
  assert (Hdone : forall previous, publish c s1 previous clock h3 = (h', r) -> exists a, r = Ok a /\ (refused h h' a \/ exists s', Ok s1 = Ok s' /\ Snapshot_Validate s' = Ok tt
    /\ Rec_last (hm_rec h) <= Snapshot_Generation s' /\ took s' h' a)).
  { intros previous Hp. apply publish_answer in Hp as (a & -> & [Ha|Ha]); exists a; (split; [done|]); [left; by eapply refused_from | right; by exists s1]. }
  destruct r2 as [old|e]; [|by eapply Hdone].
  apply (M_bind_run (locked _)) in H as [(last & h4 & H4 & H)|(e & H4 & _)]; [|done]. destruct h3 as [f3 rd3 rec3 comp3 calls3]. injection H4 as <- <-.
  case_match; [|by eapply Hdone]. apply degrade_refuses with (h := h) in H as (a & -> & Ha); eauto.
Qed.

(** *** The node over time *)
Inductive op := OpApply (s : DesiredSnapshot) (clock : Z) | OpResync (clock : Z) | OpCall (x : call).

Definition run_op h (o : op) : host C :=
  match o with
  | OpApply s clock => fst (Apply c s clock h)
  | OpResync clock => fst (Resync c clock h)
  | OpCall x => MkHost (hm_files h) (hm_random h) (run_call (hm_rec h) x) (hm_comp h) (hm_calls h)
  end.

(** The snapshots that are applied survive encoding/json, and a data plane that is applied
    once more is transactional. *)
Definition op_exact (o : op) : Prop :=
  match o with OpApply s _ => forall s', sealed_form s = Ok s' -> json_exact s' | OpResync _ => transactional | OpCall _ => True end.

Lemma run_op_aligned o h : op_exact o -> aligned h -> aligned (run_op h o).
Proof.
  intros He Ha. destruct o as [s clock|clock|x]; cbn.
  - destruct (Apply c s clock h) as [h' r] eqn:E. by eapply Apply_aligned.
  - destruct (Resync c clock h) as [h' r] eqn:E. by eapply Resync_aligned.
  - apply (same_record_aligned h); cbn; try done. apply run_call_same.
Qed.

Lemma run_ops_aligned ops : forall h, Forall op_exact ops -> aligned h -> aligned (fold_left run_op ops h).
Proof. induction ops as [|o ops IH]; intros h He Ha; [done|]. apply Forall_cons in He as [Ho He]. cbn. apply IH; [done..|]. by apply run_op_aligned. Qed.

(** A starting process. *)
Lemma initial_aligned clock w w' rec random comp calls :
  NewReconciler c clock w = (w', Ok rec) -> (forall s, cached c (disk w) = Ok s -> serves comp s) ->
  aligned (MkHost w' random rec comp calls).
Proof.
  unfold NewReconciler. intros H Hserve. apply (M_bind_run (try _)) in H as [(read & w1 & H1 & H)|(e & H1 & _)]; apply try_run in H1 as (r1 & E1 & H1); [injection E1 as ->|done].
  injection H as <- <-. apply cache_Read_run in H1 as (Hd & _ & Hs). destruct r1 as [s|e]; cbn.
  - specialize (Hs s eq_refl). assert (Hl : forall r cp cl, holds_last (MkHost w1 r (initial_reconciler clock (Ok s)) cp cl) s)
      by (unfold holds_last; cbn; by rewrite Hd).
    constructor; [constructor; cbn; [done | done |]|]; intros _; [right; exists s; apply Hl|]. intros _. exists s. split; [apply Hl | by apply Hserve].
  - constructor; [constructor|]; cbn; destruct (error_is e _); cbn; done.
Qed.

End ReconcilerFacts.

(** ** Crashes *)
Section CrashFacts.
Context `{MO : !MapOrder, SS : !SliceSort, CR : !Crypto, UN : !Unicode, DJ : !DocumentJSON, FO : !Fold, JS : !JSON DesiredSnapshot, AE : !AEAD, ET : !ErrorText, TN : !TempNames}.
Context {C : Type} `{CO : !Component C} (c : SnapshotCache).
Hypothesis temp_other : forall pattern d, temp_name (cache_path c) pattern d <> cache_path c.

(** What a restart finds: the old file, a readable document of the snapshot being
    applied, or no file under the name while the old one is whole under another. *)
Definition recoverable (s : DesiredSnapshot) (old : option bytes) (d : files) : Prop :=
  d !! cache_path c = old \/ cached c d = Ok s \/ (d !! cache_path c = None /\ exists backup b, old = Some b /\ d !! backup = Some b).

Definition safe s old (h : host C) : Prop := Forall (recoverable s old) (history (hm_files h)) /\ recoverable s old (disk (hm_files h)).

Lemma safe_files s old h h' : hm_files h' = hm_files h -> safe s old h -> safe s old h'.
Proof. unfold safe. by intros ->. Qed.

Lemma cache_Write_safe s h h' r :
  Snapshot_Checksum s <> "" -> json_exact s -> cache_Write c s h = (h', r) ->
  safe s (disk (hm_files h) !! cache_path c) h -> safe s (disk (hm_files h) !! cache_path c) h'.
Proof.
  intros Hne He. unfold cache_Write. destruct (render_cache c s (hm_random h)) as [[payload source]|e] eqn:E; [|by intros [= <- <-]].
  pose proof (parse_render _ _ _ _ _ Hne He E) as Hp. set (old := disk (hm_files h) !! cache_path c).
  unfold on_files. cbn. intros H [Hh _].
  assert (Hallow : forall d, not_torn (cache_path c) payload old d -> recoverable s old d).
  { intros d [Hd|[Hd|(Hn & b & x & Ho & Hb)]]; unfold recoverable, cached; [by left | right; left; by rewrite Hd | right; right; eauto]. }
  pose proof (keeps_AtomicWrite (cache_path c) payload old temp_other (recoverable s old) Hallow (hm_files h) (conj Hh eq_refl)) as [Hh' Hr].
  destruct (AtomicWrite (cache_path c) payload (hm_files h)) as [w r'] eqn:Ew. injection H as <- <-. split; [done|]. cbn in *.
  apply Hallow. destruct r' as [u|e]; [right; by left | by apply not_published_not_torn].
Qed.

Lemma degrade_safe {A} s old e (a : A) h h' r : safe s old h -> (_ ← degrade e; mret a) h = (h', r) -> safe s old h'.
Proof.
  intros Hs H. apply M_bind_run in H as [([] & h1 & H1 & [= <- <-])|(e' & H1 & _)]; apply (degrade_run c) in H1 as (_ & Hf & _); by eapply safe_files.
Qed.

Lemma publish_safe s previous clock h h' r old :
  Snapshot_Checksum s <> "" -> json_exact s -> old = disk (hm_files h) !! cache_path c -> safe s old h -> publish c s previous clock h = (h', r) -> safe s old h'.
Proof.
  intros Hne He -> Hs H. unfold publish in H.
  apply M_bind_run in H as [(applied & h1 & H1 & H)|(e & H1 & _)]; apply try_run in H1 as (r1 & E1 & H1); [injection E1 as ->|done].
  apply on_comp_run in H1 as (Hf1 & _ & _). rewrite <- Hf1. apply (safe_files _ _ _ h1) in Hs; [|done]. rewrite <- Hf1 in Hs.
  destruct r1 as [[]|err]; [|by eapply degrade_safe].
  apply M_bind_run in H as [(written & h2 & H2 & H)|(e & H2 & _)]; apply try_run in H2 as (r2 & E2 & H2); [injection E2 as ->|done].
  pose proof (cache_Write_safe _ _ _ _ Hne He H2 Hs) as Hs2. destruct r2 as [[]|err].
  - apply M_bind_run in H as [([] & h3 & H3 & H)|(e & H3 & _)]; apply preempt_run in H3 as (E3 & Hf3 & _); [|done].
    cbn in H. injection H as <- <-. by eapply (safe_files _ _ h3), (safe_files _ _ h2).
  - apply M_bind_run in H as [(rollback & h3 & H3 & H)|(e & H3 & _)]; apply try_run in H3 as (r3 & E3 & H3); [injection E3 as ->|done].
    assert (Hf3 : hm_files h3 = hm_files h2).
    { destruct previous as [p|]; [by apply on_comp_run in H3 as (? & _)|]. destruct comp_reset; [by apply on_comp_run in H3 as (? & _)|]. by injection H3 as <- _. }
    eapply degrade_safe; [|exact H]. by eapply safe_files.
Qed.

(** C16: a crash at any point of [Apply], or any failing system call, leaves a cache from
    which the node restarts at the old snapshot or at the new one, of which encoding/json
    is to lose nothing; if the system refuses to rename over a file, it can leave no cache,
    and the old document under another name. *)
Theorem Apply_crash_safe s s' clock h h' r :
  sealed_form s = Ok s' -> json_exact s' -> history (hm_files h) = [] -> Apply (C := C) c s clock h = (h', r) ->
  Forall (recoverable s' (disk (hm_files h) !! cache_path c)) (history (hm_files h')) /\ recoverable s' (disk (hm_files h) !! cache_path c) (disk (hm_files h')).
Proof.
  intros Es Hex Hh0 H. set (old := disk (hm_files h) !! cache_path c). fold (safe s' old h').
  assert (Hs : safe s' old h) by (split; [by rewrite Hh0 | by left]). unfold Apply in H. fold (sealed_form s) in H. rewrite Es in H.
  pose proof (sealed_form_checksum _ _ Es) as Hne. destruct (Snapshot_Validate s') as [[]|e]; [|by injection H as <- <-].
  apply M_bind_run in H as [([] & h1 & H1 & H)|(e & H1 & _)]; apply preempt_run in H1 as (E1 & Hf1 & _); [clear E1|done].
  apply (safe_files _ _ _ h1) in Hs; [|done].
  apply (M_bind_run (locked (admission s'))) in H as [(answer & h1' & HL & H)|(e & HL & _)]; apply locked_admission in HL as [-> E1]; [clear E1|done].
  destruct answer as [a|]; [by injection H as <- <-|].
  apply (M_bind_run (try (on_files (cache_Read c)))) in H as [(read & h2 & H2 & H)|(e & H2 & _)]; apply try_run in H2 as (r2 & E2 & H2); [injection E2 as ->|done].
  apply on_files_Read in H2 as (_ & _ & _ & Hd2 & Hh2 & _).
  apply (M_bind_run preempt) in H as [([] & h3 & H3 & H)|(e & H3 & _)]; apply preempt_run in H3 as (E3 & Hf3 & _); [clear E3|done].
  assert (Hs3 : safe s' old h3) by (unfold safe in *; rewrite Hf3, Hd2, Hh2; exact Hs).
  assert (Hold : old = disk (hm_files h3) !! cache_path c) by (by rewrite Hf3, Hd2, Hf1).
  destruct r2 as [read|e]; [|by eapply publish_safe].
  apply (M_bind_run (locked _)) in H as [(last & h4 & H4 & H)|(e & H4 & _)]; [|done]. destruct h3 as [f3 rd3 rec3 comp3 calls3]. injection H4 as <- <-.
  case_match; [by eapply degrade_safe | by eapply publish_safe].
Qed.
End CrashFacts.

(** ** A node at which the hypotheses hold *)
Definition toy_seal (key nonce text : bytes) : bytes := text ++ replicate 16 "000"%char.
Definition toy_open (key nonce text : bytes) : result bytes := Ok (firstn (List.length text - 16) text).
Lemma toy_seal_length key nonce text : llen (toy_seal key nonce text) = llen text + 16.
Proof. unfold toy_seal. rewrite length_app. cbn. lia. Qed.
Lemma toy_open_seal key nonce text : toy_open key nonce (toy_seal key nonce text) = Ok text.
Proof. unfold toy_open, toy_seal. rewrite length_app. cbn [List.length replicate]. by rewrite Nat.add_sub, firstn_app, Nat.sub_diag, app_nil_r, firstn_all. Qed.
Definition toy_aead : AEAD := {| gcm_seal := toy_seal; gcm_open := toy_open; gcm_seal_length := toy_seal_length; gcm_open_seal := toy_open_seal |}.

Definition toy_texts : ErrorText := {|
  error_string e := match e with ENew m => m | EExternal o => o | _ => "error" end;
  text_string t := match t with TLit m => m | _ => "text" end;
  external_apply _ := None
|}.

(** Temporary names other than [path]. *)
Section OtherNames.
Context (path : string).
Lemma other_fresh (p q : string) (d : files) : d !! fresh (dom d ∪ {[path]}) = None.
Proof. apply not_elem_of_dom. pose proof (is_fresh (dom d ∪ {[path]})) as H. set_solver. Qed.
Definition other_names : TempNames := {| temp_name _ _ d := fresh (dom d ∪ {[path]}); temp_name_fresh := other_fresh |}.
Lemma other_names_other pattern d : @temp_name other_names path pattern d <> path.
Proof. cbn. pose proof (is_fresh (dom d ∪ {[path]})) as H. set_solver. Qed.
End OtherNames.

(** A data plane that is the snapshot it serves, and fails while [broken]; its second
    apply in a row for one snapshot stops it when it fails. *)
Record toy_plane := MkPlane { plane_serves : option DesiredSnapshot; broken : bool; fragile : bool }.
Definition plane_apply (s : DesiredSnapshot) (previous : option DesiredSnapshot) : M toy_plane unit := fun p =>
  if broken p then (MkPlane (if fragile p then None else plane_serves p) (broken p) (fragile p), Err (ENew "address already in use"))
  else (MkPlane (Some s) false (fragile p), Ok tt).
Lemma plane_apply_serves s previous p p' : plane_apply s previous p = (p', Ok tt) -> plane_serves p' = Some s.
Proof. unfold plane_apply. destruct (broken p); [done|]. by intros [= <-]. Qed.
Definition toy_component : Component toy_plane := {|
  comp_apply := plane_apply; comp_reset := Some (fun _ p => (MkPlane None (broken p) (fragile p), Ok tt));
  serves p s := plane_serves p = Some s; apply_serves := plane_apply_serves
|}.

(** ... and one that never breaks. *)
Definition steady_apply (s : DesiredSnapshot) (previous : option DesiredSnapshot) : M (option DesiredSnapshot) unit := fun _ => (Some s, Ok tt).
Lemma steady_serves s previous p p' : steady_apply s previous p = (p', Ok tt) -> p' = Some s.
Proof. by intros [= <-]. Qed.
Definition steady_component : Component (option DesiredSnapshot) := {|
  comp_apply := steady_apply; comp_reset := None; serves p s := p = Some s; apply_serves := steady_serves
|}.

Definition node_sample : DesiredSnapshot := sealed (sample_snapshot 1).
Definition node_json : JSON DesiredSnapshot := one_json node_sample.
Definition node_cache : SnapshotCache := MkSnapshotCache "/c" (replicate 32 "k"%char).
Definition node_random : bytes := replicate 24 "n"%char.
Definition empty_world : world := MkWorld ∅ [] [] [].

Definition sample_ops : list op := [OpCall (NodeID "gw-1" 5); OpCall (Connected 6 6); OpApply node_sample 7; OpCall (Disconnected 8 0 8); OpResync 9].
Definition sample_node {C} (CO : Component C) (comp : C) (ops : list op) : host C :=
  fold_left (@run_op go_order insertion_slice_sort toy_crypto ascii_unicode toy_json hex_fold node_json toy_aead toy_texts (other_names "/c") C CO node_cache)
    ops (MkHost empty_world node_random (@initial_reconciler toy_texts 4 (Err ErrNoSnapshot)) comp []).

Lemma node_exact o : o ∈ sample_ops -> @op_exact go_order insertion_slice_sort toy_crypto ascii_unicode toy_json node_json _ steady_component o.
Proof.
  intros H. unfold sample_ops in H. rewrite !elem_of_cons in H. destruct H as [->|[->|[->|[->|[->|H]]]]]; [done | done | | done | unfold op_exact, transactional; cbn; intros s p p' e [=] | by apply elem_of_nil in H].
  cbn. intros s' Hs. assert (Hc : String.eqb (Snapshot_Checksum node_sample) "" = false) by (vm_compute; reflexivity).
  unfold sealed_form in Hs. rewrite Hc in Hs. by injection Hs as <-.
Qed.


Lemma Apply_crash_safe_witness :
  let w := hm_files (fst (@Apply go_order insertion_slice_sort toy_crypto ascii_unicode toy_json hex_fold node_json toy_aead toy_texts (other_names "/c") _ steady_component
             node_cache node_sample 7 (sample_node steady_component None []))) in
  Forall (@recoverable go_order insertion_slice_sort toy_crypto ascii_unicode toy_json hex_fold node_json toy_aead node_cache node_sample None) (history w).
Proof.
  cbv zeta. destruct (@Apply go_order insertion_slice_sort toy_crypto ascii_unicode toy_json hex_fold node_json toy_aead toy_texts (other_names "/c") _ steady_component
    node_cache node_sample 7 (sample_node steady_component None [])) as [h' r] eqn:E. cbn [fst].
  refine (proj1 (@Apply_crash_safe go_order insertion_slice_sort toy_crypto ascii_unicode toy_json hex_fold node_json toy_aead toy_texts (other_names "/c")
    _ steady_component node_cache (other_names_other "/c") node_sample node_sample 7 (sample_node steady_component None []) h' r _ _ _ E)).
  - vm_compute. reflexivity.
  - reflexivity.
  - reflexivity.
Defined.

Lemma Apply_answers_witness :
  exists h a, @Apply go_order insertion_slice_sort toy_crypto ascii_unicode toy_json hex_fold node_json toy_aead toy_texts (other_names "/c") _ steady_component
                node_cache node_sample 7 (sample_node steady_component None []) = (h, Ok a).
Proof.
  destruct (@Apply_answers go_order insertion_slice_sort toy_crypto ascii_unicode toy_json hex_fold node_json toy_aead toy_texts (other_names "/c")
    _ steady_component node_cache (other_names_other "/c") node_sample 7 (sample_node steady_component None [])) as (h & a & H & _).
  exists h, a. exact H.
Defined.

(** A resync whose data-plane failure also stops the data plane: the answer is a
    rejection, and the node goes on reporting itself healthy at that generation. *)
Definition resync_breaks : host toy_plane :=
  let h := sample_node toy_component (MkPlane None false true) [OpApply node_sample 7] in
  let h := MkHost (hm_files h) (hm_random h) (hm_rec h) (MkPlane (plane_serves (hm_comp h)) true true) (hm_calls h) in
  @run_op go_order insertion_slice_sort toy_crypto ascii_unicode toy_json hex_fold node_json toy_aead toy_texts (other_names "/c") _ toy_component node_cache h (OpResync 9).

Example failed_resync_not_reported :
  Observed_Healthy (State (hm_rec resync_breaks)) = true /\ Observed_LastError (State (hm_rec resync_breaks)) = None
  /\ Observed_AppliedGeneration (State (hm_rec resync_breaks)) = 1 /\ plane_serves (hm_comp resync_breaks) = None.
Proof. split_and!; vm_compute; reflexivity. Qed.
