(* ===== verification/NodeRuntime.v ===== *)
(** * The data plane of a node and its runtime (src/internal/node: data_runtime.go,
    runtime_types.go, runtime_snapshot.go)

    One engine and one set of network adapters per node behaviour, replaced together when
    the behaviour changes.  Opening the sockets and sessions of a generation
    (buildGateway, buildAgent), loading TLS material, and the cancellation of the context
    of an operation are answered by oracles, so a theorem for every oracle covers every
    failure.  What a generation does while it is open is not part of this file. *)
From S2P Require Import Prelude GoStd Domain Checksum Validation Snapshot Effects Engine.

(** What happens while a generation is built: it opens, fails, or the runtime is stopped
    meanwhile. *)
Inductive build := Built | BuildFails (e : error) | Stopped.

(** [DataPlaneRuntime]: [dp_state] is the snapshot of the open generation. *)
Record DataPlaneRuntime := MkDataPlane {
  dp_started : bool; dp_state : option DesiredSnapshot; dp_pending : option DesiredSnapshot
}.

Definition new_plane : DataPlaneRuntime := MkDataPlane false None None.

(** [Runtime]: the engine, the data plane and [runtimeKind], the kind of the engine, are
    installed together; [rt_running] is whether [runCtx] is set. *)
Record Runtime := MkRuntime {
  rt_nodeID : string; rt_maxStreams : Z; rt_maxSessions : Z; rt_running : bool;
  rt_engine : option Engine; rt_plane : DataPlaneRuntime;
  rt_builds : list build; rt_tls : list (option error); rt_ctx : list (option error)
}.

Definition rt_kind (r : Runtime) : string := match rt_engine r with Some e => kind e | None => "" end.

Definition with_parts (r : Runtime) (e : option Engine) (d : DataPlaneRuntime) : Runtime :=
  MkRuntime (rt_nodeID r) (rt_maxStreams r) (rt_maxSessions r) (rt_running r) e d (rt_builds r) (rt_tls r) (rt_ctx r).
Definition with_plane (r : Runtime) (d : DataPlaneRuntime) : Runtime := with_parts r (rt_engine r) d.

Definition RT A := M Runtime A.

(** *** Oracles *)
Definition next_build : RT build := fun r =>
  (MkRuntime (rt_nodeID r) (rt_maxStreams r) (rt_maxSessions r) (rt_running r) (rt_engine r) (rt_plane r)
     (tl (rt_builds r)) (rt_tls r) (rt_ctx r), Ok (match rt_builds r with b :: _ => b | [] => Built end)).
Definition load_tls : RT unit := fun r =>
  (MkRuntime (rt_nodeID r) (rt_maxStreams r) (rt_maxSessions r) (rt_running r) (rt_engine r) (rt_plane r)
     (rt_builds r) (tl (rt_tls r)) (rt_ctx r), match rt_tls r with Some e :: _ => Err e | _ => Ok tt end).
(** [ctx.Err()] of the context the operation was given; [None] is [context.WithoutCancel]. *)
Definition ctx_err (cancellable : bool) : RT (option error) := fun r =>
  if cancellable then
    (MkRuntime (rt_nodeID r) (rt_maxStreams r) (rt_maxSessions r) (rt_running r) (rt_engine r) (rt_plane r)
       (rt_builds r) (rt_tls r) (tl (rt_ctx r)), Ok (match rt_ctx r with o :: _ => o | [] => None end))
  else (r, Ok None).

Definition check_ctx (cancellable : bool) : RT unit :=
  e ← ctx_err cancellable; match e with Some err => fail err | None => mret tt end.

Definition get_plane : RT DataPlaneRuntime := fun r => (r, Ok (rt_plane r)).
Definition put_plane (d : DataPlaneRuntime) : RT unit := fun r => (with_plane r d, Ok tt).

(** A method of the installed engine; there is none for a node without a behaviour, and no
    caller gets here then. *)
Definition no_engine : error := ENew "data-plane runtime is not initialized".
Definition on_engine {A} (f : Engine -> Engine * result A) : RT A := fun r =>
  match rt_engine r with
  | None => (r, Err no_engine)
  | Some e => let '(e, a) := f e in (with_parts r (Some e) (rt_plane r), a)
  end.

Definition is_draining : RT bool := on_engine (fun e => (e, Ok (IsDraining e))).
Definition begin_drain : RT unit := on_engine (fun e => (BeginDrain e, Ok tt)).
Definition end_drain : RT unit := on_engine (fun e => (EndDrain e, Ok tt)).

(** ** DataPlaneRuntime *)
Section DataPlane.
Context `{!MapOrder, !SliceSort, !Crypto, !Unicode, !DocumentJSON}.

Definition set_generation (s : option DesiredSnapshot) (d : DataPlaneRuntime) : DataPlaneRuntime := MkDataPlane (dp_started d) s (dp_pending d).

(** [Close]: the context ends and the open generation is closed. *)
Definition plane_Close (d : DataPlaneRuntime) : DataPlaneRuntime := MkDataPlane false None (dp_pending d).

(** A generation of the engine's behaviour needs the spec of that behaviour; then the
    sockets and sessions open, or not. *)
Definition buildGeneration (snapshot : DesiredSnapshot) : RT build :=
  kind ← on_engine (fun e => (e, Ok (kind e)));
  if String.eqb kind NodeSpecGateway then
    match Snapshot_Gateway snapshot with
    | None => mret (BuildFails (ENew "gateway data-plane snapshot is required"))
    | Some _ => next_build
    end
  else
    match Snapshot_Agent snapshot with
    | None => mret (BuildFails (ENew "agent data-plane snapshot is required"))
    | Some _ => next_build
    end.

(** The runtime was closed while a generation was being built. *)
Definition stopped_now : RT unit := d ← get_plane; put_plane (plane_Close d).

(** The restore of the old generation after a failed build: whether it is back. *)
Definition restore_generation (old : DesiredSnapshot) : RT (result unit) :=
  b ← buildGeneration old;
  match b with
  | BuildFails e => mret (Err (EWrap "restore previous data-plane generation: %w" [] e))
  | Stopped => _ ← stopped_now; mret (Err (ENew "data-plane runtime stopped during rollback"))
  | Built =>
      d ← get_plane;
      if dp_started d then _ ← put_plane (set_generation (Some old) d); mret (Ok tt)
      else mret (Err (ENew "data-plane runtime stopped during rollback"))
  end.

Definition admission_end (wasDraining admissionRestored : bool) : RT unit :=
  if negb wasDraining && admissionRestored then end_drain else mret tt.

Definition context_Canceled : error := EExternal "context.Canceled".

Definition applyStarted (cancellable : bool) (snapshot : DesiredSnapshot) : RT unit :=
  _ ← check_ctx cancellable;
  wasDraining ← is_draining;
  _ ← begin_drain;
  d ← get_plane;
  let old := dp_state d in
  _ ← put_plane (set_generation None d);
  b ← buildGeneration snapshot;
  match b with
  | Stopped => _ ← stopped_now; fail context_Canceled
  | BuildFails err =>
      match old with
      | Some oldSnapshot =>
          if dp_started d then
            rollback ← restore_generation oldSnapshot;
            match rollback with
            | Ok _ => _ ← admission_end wasDraining true; fail err
            | Err rollbackErr => fail (EJoin err rollbackErr)
            end
          else fail err
      | None => fail err
      end
  | Built =>
      d ← get_plane;
      if dp_started d then
        _ ← put_plane (set_generation (Some snapshot) d); admission_end wasDraining true
      else fail context_Canceled
  end.

Definition plane_ApplySnapshot (cancellable : bool) (snapshot : DesiredSnapshot) : RT unit :=
  _ ← check_ctx cancellable;
  _ ← lift (Snapshot_Validate snapshot);
  d ← get_plane;
  if dp_started d then applyStarted cancellable snapshot
  else put_plane (MkDataPlane false (dp_state d) (Some (Clone snapshot))).

Definition plane_Start (cancellable : bool) : RT unit :=
  d ← get_plane;
  if dp_started d then mret tt else
  _ ← put_plane (MkDataPlane true (dp_state d) None);
  match dp_pending d with
  | None => mret tt
  | Some pending =>
      applied ← try (applyStarted cancellable pending);
      match applied with
      | Ok _ => mret tt
      | Err e => d ← get_plane; _ ← put_plane (plane_Close d); fail e
      end
  end.

Definition plane_ResetSnapshot (expectedGeneration : Z) : RT unit :=
  d ← get_plane;
  let other s := negb (expectedGeneration =? 0) && negb (Snapshot_Generation s =? expectedGeneration) in
  match dp_pending d with
  | Some pending =>
      if other pending then fail (ENew "data-plane pending generation changed during reset")
      else put_plane (MkDataPlane (dp_started d) (dp_state d) None)
  | None =>
      match dp_state d with
      | None => mret tt
      | Some state =>
          if other state then fail (ENew "data-plane generation changed during reset")
          else put_plane (set_generation None d)
      end
  end.

(** ** Runtime *)
Definition snapshotRuntimeKind (snapshot : DesiredSnapshot) : result string :=
  match Snapshot_Gateway snapshot, Snapshot_Agent snapshot with
  | Some _, None => Ok NodeSpecGateway
  | None, Some _ => Ok NodeSpecAgent
  | None, None => Ok ""
  | Some _, Some _ => Err (ENew "desired snapshot selects multiple node behaviors")
  end.

Definition engine_ApplySnapshot (cancellable : bool) (snapshot : DesiredSnapshot) (previous : option DesiredSnapshot) : RT unit :=
  ctx ← ctx_err cancellable; on_engine (fun e => Engine.ApplySnapshot e ctx snapshot previous).

(** [errors.Join] of what closing returns: neither [Close] fails. *)
Definition disableRuntime : RT unit := fun r => (with_parts r None new_plane, Ok tt).

Definition new_engine (kind : string) : RT Engine := fun r =>
  (r, New (MkOptions kind (rt_nodeID r) (rt_maxStreams r) (rt_maxSessions r))).

Definition install (engine : Engine) : RT unit := fun r =>
  let r := with_parts r (Some engine) new_plane in
  if rt_running r then
    match plane_Start false r with
    | (r, Ok _) => (r, Ok tt)
    | (r, Err e) => (with_parts r None new_plane, Err e)
    end
  else (r, Ok tt).

Definition replace_parts (kind : string) : RT unit :=
  _ ← disableRuntime; engine ← new_engine kind; _ ← load_tls; install engine.

Definition ensureRuntimeKind (kind : string) : RT unit := fun r =>
  if negb (String.eqb kind NodeSpecGateway) && negb (String.eqb kind NodeSpecAgent)
  then (r, Err (ENew "node behavior must be gateway or agent"))
  else if bool_decide (is_Some (rt_engine r)) && String.eqb (rt_kind r) kind then (r, Ok tt)
  else replace_parts kind r.

Definition ensureRuntime (snapshot : DesiredSnapshot) : RT unit :=
  kind ← lift (snapshotRuntimeKind snapshot);
  if String.eqb kind "" then disableRuntime else ensureRuntimeKind kind.

Definition restoreRuntime (snapshot : DesiredSnapshot) : RT unit :=
  kind ← lift (snapshotRuntimeKind snapshot);
  if String.eqb kind "" then disableRuntime else
  _ ← ensureRuntimeKind kind;
  _ ← engine_ApplySnapshot false snapshot None;
  plane_ApplySnapshot false snapshot.

(** [errors.Join(err, other)]: a nil [other] is dropped. *)
Definition join_err (err : error) (other : result unit) : error := match other with Ok _ => err | Err e => EJoin err e end.
Definition fail_join {A} (err : error) (m : RT unit) : RT A := r ← try m; fail (join_err err r).

(** The rollback of engine and data plane to the generation before. *)
Definition rollback_same (wasDraining : bool) (err : error) (snapshot previous : DesiredSnapshot) : RT unit :=
  engineErr ← try (engine_ApplySnapshot false previous (Some snapshot));
  planeErr ← try (plane_ApplySnapshot false previous);
  match engineErr, planeErr with
  | Ok _, Ok _ => _ ← (if wasDraining : bool then mret tt else end_drain); fail err
  | Err e, Ok _ | Ok _, Err e => fail (EJoin err e)
  | Err e, Err f => fail (EJoin err (EJoin e f))
  end.

Definition previous_kind (previous : option DesiredSnapshot) : string :=
  match previous with Some p => match snapshotRuntimeKind p with Ok k => k | Err _ => "" end | None => "" end.

(** The part of [applySnapshot] after the components of the behaviour are there. *)
Definition apply_parts (kind previousKind : string) (snapshot : DesiredSnapshot) (previous : option DesiredSnapshot) : RT unit :=
  let sameKind := match previous with None => true | Some _ => String.eqb previousKind kind end in
  let enginePrevious := if sameKind then previous else None in
  wasDraining ← is_draining;
  _ ← begin_drain;
  engineApplied ← try (engine_ApplySnapshot true snapshot enginePrevious);
  match engineApplied with
  | Err err =>
      match previous, sameKind with
      | Some p, false => fail_join err (restoreRuntime p)
      | _, _ => _ ← (if wasDraining : bool then mret tt else end_drain); fail err
      end
  | Ok _ =>
      planeApplied ← try (plane_ApplySnapshot true snapshot);
      match planeApplied with
      | Err err =>
          match previous with
          | None => fail_join err (on_engine (fun e => ResetSnapshot e (Snapshot_Generation snapshot)))
          | Some p =>
              if sameKind then rollback_same wasDraining err snapshot p
              else fail_join err (_ ← ensureRuntimeKind previousKind; _ ← engine_ApplySnapshot false p None; plane_ApplySnapshot false p)
          end
      | Ok _ => if wasDraining : bool then mret tt else end_drain
      end
  end.

Definition applySnapshot (snapshot : DesiredSnapshot) (previous : option DesiredSnapshot) : RT unit :=
  kind ← lift (snapshotRuntimeKind snapshot);
  let previousKind := previous_kind previous in
  if String.eqb kind "" then disableRuntime else
  ensured ← try (ensureRuntime snapshot);
  match ensured with
  | Err err =>
      match previous with
      | Some p => if negb (String.eqb previousKind "") && negb (String.eqb previousKind kind)
                  then fail_join err (restoreRuntime p) else fail err
      | None => fail err
      end
  | Ok _ => apply_parts kind previousKind snapshot previous
  end.

Definition resetSnapshot (generation : Z) : RT unit := fun r =>
  match rt_engine r with
  | None => (r, Ok tt)
  | Some _ =>
      (planeErr ← try (plane_ResetSnapshot generation);
       engineErr ← try (on_engine (fun e => ResetSnapshot e generation));
       match planeErr, engineErr with
       | Ok _, Ok _ => mret tt
       | Err e, Ok _ | Ok _, Err e => fail e
       | Err e, Err f => fail (EJoin e f)
       end) r
  end.

(** What [NewRuntime] does with the snapshot of the cache. *)
Definition restore_cached (snapshot : DesiredSnapshot) : RT unit :=
  kind ← lift (snapshotRuntimeKind snapshot);
  if String.eqb kind "" then mret tt else
  _ ← ensureRuntime snapshot;
  applied ← try (engine_ApplySnapshot false snapshot None);
  _ ← lift (map_err (EWrap "apply cached snapshot: %w" []) applied);
  prepared ← try (plane_ApplySnapshot false snapshot);
  lift (map_err (EWrap "prepare cached data-plane snapshot: %w" []) prepared).
End DataPlane.
