(* ===== verification/NodeRuntimeFacts.v ===== *)
(** * What applying a snapshot to the node's data plane guarantees

    A success leaves engine and adapters at the snapshot, a failed update of the same
    behaviour leaves them at the one before, or drained, and a drain outlives an update. *)
From S2P Require Import Prelude GoStd Domain Checksum Validation Snapshot Samples SnapshotFacts Effects Engine EngineSteps.
From S2P Require Import Datagram Json Files ControlWire NodeCache NodeRuntime.

Section RuntimeFacts.
Context `{MO : !MapOrder, SS : !SliceSort, CR : !Crypto, UN : !Unicode, DJ : !DocumentJSON}.

(** The engine has the indexes of [s], and can take [s] again. *)
Record installed (e : Engine) (s : DesiredSnapshot) : Prop := {
  in_generation : generation e = Snapshot_Generation s;
  in_gateway : gatewaySpec e = cloneGatewaySpec <$> Snapshot_Gateway s;
  in_agent : agentSpec e = cloneAgentSpec <$> Snapshot_Agent s;
  in_open : closed e = false;
  in_again : exists ctx g previous plan, prepare e ctx g s previous = Ok plan /\ assignments e = plan_assignments plan /\ services e = plan_services plan
}.

Definition plane_holds (d : DataPlaneRuntime) (s : DesiredSnapshot) : Prop :=
  if dp_started d then dp_state d = Some s else dp_pending d = Some s.

(** [applySnapshot] has left the node at [s]: without a behaviour, nothing is installed. *)
Definition node_serves (r : Runtime) (s : DesiredSnapshot) : Prop :=
  match snapshotRuntimeKind s with
  | Err _ => False
  | Ok k => if String.eqb k "" then rt_engine r = None
            else exists e, rt_engine r = Some e /\ kind e = k /\ installed e s /\ plane_holds (rt_plane r) s
  end.

(** *** The engine's part *)
(** [prepare] looks at the identity of the engine, not at what it serves. *)
Lemma prepare_same e e' ctx g s previous :
  kind e' = kind e -> nodeID e' = nodeID e -> baseMaxStreams e' = baseMaxStreams e -> closed e' = closed e ->
  prepare e' ctx g s previous = prepare e ctx g s previous.
Proof.
  intros E1 E2 E3 E4. destruct e, e'. cbn in *. subst. reflexivity.
Qed.

Lemma prepare_plan e ctx g s previous plan :
  prepare e ctx g s previous = Ok plan ->
  closed e = false /\ plan_snapshot plan = s /\ plan_gateway plan = cloneGatewaySpec <$> Snapshot_Gateway s /\ plan_agent plan = cloneAgentSpec <$> Snapshot_Agent s.
Proof.
  unfold prepare. intros H. apply bind_Ok in H as (? & _ & H). apply bind_Ok in H as (? & Hc & H). apply reject_if_Ok in Hc.
  do 6 apply bind_Ok in H as (? & _ & H). apply bind_Ok in H as (? & _ & H). apply bind_Ok in H as (? & _ & H). by injection H as <-.
Qed.

(** What [prepare] looks at. *)
Definition same_identity (e e' : Engine) : Prop := kind e' = kind e /\ nodeID e' = nodeID e /\ baseMaxStreams e' = baseMaxStreams e /\ closed e' = closed e.

Lemma ApplySnapshot_installs e ctx s previous e' :
  Engine.ApplySnapshot e ctx s previous = (e', Ok tt) -> installed e' s /\ draining e' = draining e /\ same_identity e e'.
Proof.
  unfold Engine.ApplySnapshot. destruct (prepare e ctx (generation e) s previous) as [plan|] eqn:Hp; [|done]. intros H.
  destruct (prepare_plan _ _ _ _ _ _ Hp) as (Hc & Hs & Hg & Ha). apply commit_installs in H as (? & ? & ? & ? & _ & ->). cbn.
  split; [|done]. constructor; cbn; [by rewrite Hs | done | done | done |].
  exists ctx, (generation e), previous, plan. split; [|done]. rewrite <- Hp. by apply prepare_same.
Qed.

Lemma ApplySnapshot_refused e ctx s previous e' err : Engine.ApplySnapshot e ctx s previous = (e', Err err) -> e' = e.
Proof.
  unfold Engine.ApplySnapshot. destruct (prepare e ctx (generation e) s previous) as [plan|]; [|by intros [= <- _]].
  unfold commit. destruct (_ ← reject_if (closed e) _; _) as [[]|]; [|by intros [= <- _]]. by destruct (spec_limits _ _ _) as [[[? ?] ?] ?].
Qed.

(** Engines that differ in the drain flag only. *)
Definition same_but_drain (e e' : Engine) : Prop := e' = with_flags e (draining e') (closed e).

Lemma same_but_drain_refl e : same_but_drain e e.
Proof. by destruct e. Qed.
Lemma same_but_drain_trans e1 e2 e3 : same_but_drain e1 e2 -> same_but_drain e2 e3 -> same_but_drain e1 e3.
Proof. unfold same_but_drain. intros H1 H2. rewrite H2, H1. by destruct e1. Qed.
Lemma same_but_drain_installed e e' s : same_but_drain e e' -> installed e s -> installed e' s.
Proof.
  unfold same_but_drain. intros -> [H1 H2 H3 H4 (ctx & g & previous & plan & Hp & Ha & Hs)].
  constructor; [done..|]. exists ctx, g, previous, plan. by split_and!; [rewrite <- Hp; by apply prepare_same | |].
Qed.

(** *** Operations that keep the engine's indexes *)
Definition frame (r r' : Runtime) : Prop :=
  rt_running r' = rt_running r /\ rt_nodeID r' = rt_nodeID r
  /\ match rt_engine r, rt_engine r' with Some e, Some e' => same_but_drain e e' | None, None => True | _, _ => False end.
Definition framed {A} (m : RT A) : Prop := forall r r' x, m r = (r', x) -> frame r r'.

Lemma frame_refl r : frame r r.
Proof. unfold frame. split_and!; try done. destruct (rt_engine r); [apply same_but_drain_refl | done]. Qed.
Lemma frame_engine r r' :
  rt_running r' = rt_running r -> rt_nodeID r' = rt_nodeID r -> rt_engine r' = rt_engine r -> frame r r'.
Proof. intros E1 E2 E3. unfold frame. rewrite E1, E2, E3. apply frame_refl. Qed.
Lemma frame_trans r1 r2 r3 : frame r1 r2 -> frame r2 r3 -> frame r1 r3.
Proof.
  unfold frame. intros (E1 & E2 & E3) (F1 & F2 & F3). rewrite F1, F2. split_and!; try done.
  destruct (rt_engine r1), (rt_engine r2), (rt_engine r3); try done. by eapply same_but_drain_trans.
Qed.

Lemma framed_bind {A B} (m : RT A) (f : A -> RT B) : framed m -> (forall a, framed (f a)) -> framed (m ≫= f).
Proof.
  intros Hm Hf r r' x H. apply M_bind_run in H as [(a & r1 & H1 & H2)|(e & H1 & _)]; [|by eapply Hm].
  eapply frame_trans; [by eapply Hm | by eapply Hf].
Qed.
Lemma framed_try {A} (m : RT A) : framed m -> framed (try m).
Proof. intros Hm r r' x. unfold try. destruct (m r) as [r1 a] eqn:E. intros [= <- _]. by eapply Hm. Qed.
Lemma framed_ret {A} (a : A) : framed (mret a).
Proof. intros r r' x [= <- _]. apply frame_refl. Qed.
Lemma framed_fail {A} e : framed (fail (A := A) e).
Proof. intros r r' x [= <- _]. apply frame_refl. Qed.
Lemma framed_lift {A} (a : result A) : framed (lift a).
Proof. intros r r' x [= <- _]. apply frame_refl. Qed.
Lemma framed_get_plane : framed get_plane.
Proof. intros r r' x [= <- _]. apply frame_refl. Qed.
Lemma framed_put_plane d : framed (put_plane d).
Proof. intros r r' x [= <- _]. by apply frame_engine. Qed.
Lemma framed_next_build : framed next_build.
Proof. intros r r' x [= <- _]. by apply frame_engine. Qed.
Lemma framed_ctx_err b : framed (ctx_err b).
Proof. intros r r' x. unfold ctx_err. destruct b; intros [= <- _]; by apply frame_engine. Qed.
Lemma framed_on_engine {A} (f : Engine -> Engine * result A) : (forall e, same_but_drain e (fst (f e))) -> framed (on_engine f).
Proof.
  intros Hf r r' x. unfold on_engine. destruct (rt_engine r) as [e|] eqn:E; [|intros [= <- _]; apply frame_refl].
  specialize (Hf e). destruct (f e) as [e' a]. intros [= <- _]. unfold frame. cbn. by rewrite E.
Qed.
Lemma framed_is_draining : framed is_draining.
Proof. apply framed_on_engine. intros e. apply same_but_drain_refl. Qed.
Lemma framed_begin_drain : framed begin_drain.
Proof. apply framed_on_engine. intros e. done. Qed.
Lemma framed_end_drain : framed end_drain.
Proof. apply framed_on_engine. intros e. cbn. unfold EndDrain. destruct (closed e) eqn:E; [apply same_but_drain_refl | by rewrite <- E]. Qed.
#[local] Hint Resolve framed_bind framed_try framed_ret framed_fail framed_lift framed_get_plane framed_put_plane framed_next_build framed_ctx_err
  framed_is_draining framed_begin_drain framed_end_drain : framed.
Ltac framed := repeat first [progress (eauto 2 with framed) | apply framed_bind; [|intros ?] | apply framed_try | case_match].

Lemma framed_check_ctx b : framed (check_ctx b).
Proof. unfold check_ctx. framed. Qed.
Lemma framed_build s : framed (buildGeneration s).
Proof. unfold buildGeneration. apply framed_bind; [apply framed_on_engine; intros e; apply same_but_drain_refl | intros k; framed]. Qed.
#[local] Hint Resolve framed_check_ctx framed_build : framed.
Lemma framed_restore s : framed (restore_generation s).
Proof. unfold restore_generation, stopped_now. framed. Qed.
#[local] Hint Resolve framed_restore : framed.
Lemma framed_applyStarted b s : framed (applyStarted b s).
Proof. unfold applyStarted, stopped_now, admission_end. framed. Qed.
#[local] Hint Resolve framed_applyStarted : framed.
Lemma framed_plane_Apply b s : framed (plane_ApplySnapshot b s).
Proof. unfold plane_ApplySnapshot. framed. Qed.

(** *** A success of the data plane *)
Lemma on_engine_plane {A} (f : Engine -> Engine * result A) r r' x : on_engine f r = (r', x) -> rt_plane r' = rt_plane r.
Proof. unfold on_engine. destruct (rt_engine r) as [e|]; [|by intros [= <- _]]. destruct (f e). by intros [= <- _]. Qed.

Lemma admission_end_plane w a r r' x : admission_end w a r = (r', x) -> rt_plane r' = rt_plane r.
Proof. unfold admission_end. destruct (negb w && a); [apply on_engine_plane | by intros [= <- _]]. Qed.

Lemma applyStarted_Ok b s r r' : applyStarted b s r = (r', Ok tt) -> dp_started (rt_plane r') = true /\ dp_state (rt_plane r') = Some s.
Proof.
  unfold applyStarted. intros H. apply M_bind_run in H as [([] & r1 & _ & H)|(e & _ & [=])]. apply M_bind_run in H as [(w & r2 & _ & H)|(e & _ & [=])].
  apply M_bind_run in H as [([] & r3 & _ & H)|(e & _ & [=])]. apply M_bind_run in H as [(d & r4 & _ & H)|(e & _ & [=])].
  apply M_bind_run in H as [([] & r5 & _ & H)|(e & _ & [=])]. apply M_bind_run in H as [(out & r6 & _ & H)|(e & _ & [=])].
  destruct out as [|err|].
  - apply M_bind_run in H as [(d' & r7 & _ & H)|(e & _ & [=])]. destruct (dp_started d') eqn:Ed; [|done].
    apply M_bind_run in H as [([] & r8 & H8 & H)|(e & _ & [=])]. injection H8 as <-. apply admission_end_plane in H. rewrite H. by rewrite <- Ed.
  - destruct (dp_state d) as [old|]; [|done]. destruct (dp_started d); [|done]. apply M_bind_run in H as [(rb & r7 & _ & H)|(e & _ & [=])].
    destruct rb as [[]|e]; [|done]. by apply M_bind_run in H as [([] & r8 & _ & [=])|(e & _ & [=])].
  - by apply M_bind_run in H as [([] & r7 & _ & [=])|(e & _ & [=])].
Qed.

Lemma plane_ApplySnapshot_Ok b s r r' : plane_ApplySnapshot b s r = (r', Ok tt) -> plane_holds (rt_plane r') s.
Proof.
  unfold plane_ApplySnapshot, plane_holds. intros H. apply M_bind_run in H as [([] & r1 & _ & H)|(e & _ & [=])].
  apply M_bind_run in H as [([] & r2 & _ & H)|(e & _ & [=])]. apply M_bind_run in H as [(d & r3 & _ & H)|(e & _ & [=])].
  destruct (dp_started d); [apply applyStarted_Ok in H as [-> ->]; done|]. injection H as <-. cbn. by rewrite Clone_eq.
Qed.

Lemma frame_serves r r' s : frame r r' -> rt_plane r' = rt_plane r -> node_serves r s -> node_serves r' s.
Proof.
  intros (_ & _ & E) Ep. unfold node_serves. destruct (snapshotRuntimeKind s) as [k|]; [|done]. destruct (String.eqb k "").
  - intros En. rewrite En in E. by destruct (rt_engine r').
  - intros (e & En & Hk & Hi & Hp). rewrite En in E. destruct (rt_engine r') as [e'|]; [|done]. exists e'. rewrite Ep.
    split_and!; [done | by rewrite E | by eapply same_but_drain_installed | done].
Qed.

(** Both parts took the snapshot. *)
Lemma both_serve s k e r r' b :
  snapshotRuntimeKind s = Ok k -> k <> "" -> rt_engine r = Some e -> kind e = k -> installed e s -> plane_ApplySnapshot b s r = (r', Ok tt) -> node_serves r' s.
Proof.
  intros Hk Hne He Hkind Hi H. unfold node_serves. rewrite Hk. apply String.eqb_neq in Hne. rewrite Hne.
  pose proof (framed_plane_Apply b s _ _ _ H) as (_ & _ & Hf). rewrite He in Hf. destruct (rt_engine r') as [e'|]; [|done]. exists e'.
  split_and!; [done | by rewrite Hf | by eapply same_but_drain_installed | by eapply plane_ApplySnapshot_Ok].
Qed.

Lemma engine_Apply_run b s previous r r' x :
  engine_ApplySnapshot b s previous r = (r', x) -> rt_plane r' = rt_plane r /\
  match x with
  | Ok _ => exists e e', rt_engine r = Some e /\ rt_engine r' = Some e' /\ installed e' s /\ draining e' = draining e /\ same_identity e e'
  | Err _ => rt_engine r' = rt_engine r
  end.
Proof.
  unfold engine_ApplySnapshot. intros H. apply M_bind_run in H as [(ctx & r1 & H1 & H)|(e & H1 & ->)].
  2: { unfold ctx_err in H1. by destruct b. }
  assert (Hr1 : rt_engine r1 = rt_engine r /\ rt_plane r1 = rt_plane r) by (unfold ctx_err in H1; destruct b; injection H1 as <- _; done).
  destruct Hr1 as (E1 & E2). unfold on_engine in H. rewrite E1 in H. destruct (rt_engine r) as [e|] eqn:Ee.
  - destruct (Engine.ApplySnapshot e ctx s previous) as [e' y] eqn:Ea. injection H as <- <-. cbn. rewrite E2. split_and!; try done.
    destruct y as [[]|err]; [|by rewrite (ApplySnapshot_refused _ _ _ _ _ _ Ea)]. apply ApplySnapshot_installs in Ea as (Hi & Hd & Hk). by exists e, e'.
  - injection H as <- <-. by rewrite E1, E2.
Qed.

Lemma snapshotRuntimeKind_kinds s k : snapshotRuntimeKind s = Ok k -> k = "" \/ k = NodeSpecGateway \/ k = NodeSpecAgent.
Proof. unfold snapshotRuntimeKind. destruct (Snapshot_Gateway s), (Snapshot_Agent s); intros [= <-]; auto. Qed.

Lemma end_drain_run r r' x : end_drain r = (r', x) -> frame r r' /\ rt_plane r' = rt_plane r.
Proof. intros H. split; [by eapply framed_end_drain | by eapply on_engine_plane]. Qed.

(** A new engine is of the kind it was made for; starting an empty data plane does not
    touch it. *)
Lemma New_kind k n ms mx e : New (MkOptions k n ms mx) = Ok e -> kind e = k /\ closed e = false /\ draining e = false.
Proof.
  unfold New. cbn. intros H. apply bind_Ok in H as (? & _ & H). apply bind_Ok in H as (? & _ & H). apply bind_Ok in H as (? & _ & H).
  apply bind_Ok in H as (? & _ & H). by injection H as <-.
Qed.

Lemma plane_Start_new b r r' x : rt_plane r = new_plane -> plane_Start b r = (r', x) -> x = Ok tt /\ rt_engine r' = rt_engine r.
Proof. unfold plane_Start. cbv [mbind M_bind get_plane put_plane]. intros ->. cbn. by intros [= <- <-]. Qed.

Lemma replace_parts_Ok k r r' :
  replace_parts k r = (r', Ok tt) -> exists e, rt_engine r' = Some e /\ kind e = k /\ draining e = false.
Proof.
  unfold replace_parts. intros H. apply M_bind_run in H as [([] & r1 & _ & H)|(e & _ & [=])]. apply M_bind_run in H as [(en & r2 & H2 & H)|(e & _ & [=])].
  apply M_bind_run in H as [([] & r3 & _ & H)|(e & _ & [=])]. unfold new_engine in H2. injection H2 as _ Hn. apply New_kind in Hn as (Hk & _ & Hd).
  unfold install in H. cbv zeta in H. destruct (rt_running _); [|injection H as <-; by exists en].
  destruct (plane_Start false _) as [r4 x] eqn:Es. apply plane_Start_new in Es as [-> He]; [|done]. injection H as <-. exists en. by rewrite He.
Qed.

Lemma ensureRuntimeKind_Ok k r r' :
  ensureRuntimeKind k r = (r', Ok tt) -> exists e, rt_engine r' = Some e /\ kind e = k /\ (r' = r \/ rt_kind r <> k /\ draining e = false).
Proof.
  unfold ensureRuntimeKind. destruct (negb _ && negb _) eqn:Ek; [done|]. destruct (bool_decide _ && _) eqn:Eq.
  - intros [= <-]. apply andb_true_iff in Eq as [Hs Hk]. apply bool_decide_eq_true in Hs as [e He]. apply String.eqb_eq in Hk.
    exists e. unfold rt_kind in Hk. rewrite He in Hk. auto.
  - intros H. apply replace_parts_Ok in H as (e & He & Hk & Hd). exists e. split_and!; try done. right. split; [|done].
    intros E. rewrite E, String.eqb_refl, andb_true_r in Eq. apply bool_decide_eq_false in Eq. unfold rt_kind in E.
    destruct (rt_engine r); [exfalso; apply Eq; by eexists|]. rewrite <- E in Ek. by vm_compute in Ek.
Qed.

Lemma apply_parts_serves k previousKind s previous r r' e1 :
  snapshotRuntimeKind s = Ok k -> k <> "" -> rt_engine r = Some e1 -> kind e1 = k ->
  apply_parts k previousKind s previous r = (r', Ok tt) -> node_serves r' s.
Proof.
  intros Hk Hne He1 Hk1 H. unfold apply_parts in H. cbv zeta in H.
  apply M_bind_run in H as [(w & r2 & H2 & H)|(e & _ & [=])]. apply M_bind_run in H as [([] & r3 & H3 & H)|(e & _ & [=])].
  pose proof (frame_trans _ _ _ (framed_is_draining _ _ _ H2) (framed_begin_drain _ _ _ H3)) as (_ & _ & Hf3). rewrite He1 in Hf3.
  apply M_bind_run in H as [(ea & r4 & H4 & H)|(e & _ & [=])]. apply try_run in H4 as (y & [= ->] & H4). apply engine_Apply_run in H4 as (_ & H4).
  destruct y as [[]|err].
  2: { destruct previous as [p|].
       - destruct (String.eqb _ k).
         + by apply M_bind_run in H as [(? & ? & _ & [=])|(? & _ & [=])].
         + by apply M_bind_run in H as [(? & ? & _ & [=])|(? & _ & [=])].
       - by apply M_bind_run in H as [(? & ? & _ & [=])|(? & _ & [=])]. }
  destruct H4 as (e & e' & He & He' & Hi & _ & (Hke & _)). rewrite He in Hf3. assert (Hkk : kind e' = k) by (rewrite Hke, Hf3; done).
  apply M_bind_run in H as [(pa & r5 & H5 & H)|(err & _ & [=])]. apply try_run in H5 as (z & [= ->] & H5). destruct z as [[]|err].
  - pose proof (both_serve _ _ _ _ _ _ Hk Hne He' Hkk Hi H5) as Hs. destruct w; [by injection H as <-|].
    apply end_drain_run in H as [Hf Hp]. by eapply frame_serves.
  - destruct previous as [p|].
    + destruct (String.eqb _ k); [|by apply M_bind_run in H as [(? & ? & _ & [=])|(? & _ & [=])]]. unfold rollback_same in H.
      apply M_bind_run in H as [(re & r6 & _ & H)|(? & _ & [=])]. apply M_bind_run in H as [(rp & r7 & _ & H)|(? & _ & [=])].
      destruct re, rp; try done. by apply M_bind_run in H as [(? & ? & _ & [=])|(? & _ & [=])].
    + by apply M_bind_run in H as [(? & ? & _ & [=])|(? & _ & [=])].
Qed.

(** A success of [applySnapshot] leaves the node at the snapshot. *)
Lemma applySnapshot_serves s previous r r' : applySnapshot s previous r = (r', Ok tt) -> node_serves r' s.
Proof.
  unfold applySnapshot. intros H. apply M_bind_run in H as [(k & r0 & H0 & H)|(e & _ & [=])]. unfold lift in H0. injection H0 as -> Hk.
  destruct (String.eqb_spec k "") as [->|Hne]; [injection H as <-; unfold node_serves; by rewrite Hk|].
  apply M_bind_run in H as [(ens & r1 & H1 & H)|(e & _ & [=])]. destruct ens as [[]|err].
  2: { destruct previous as [p|]; [|done]. destruct (negb _ && negb _); [|done]. by apply M_bind_run in H as [(? & ? & _ & [=])|(? & _ & [=])]. }
  apply try_run in H1 as (y & [= <-] & H1). unfold ensureRuntime in H1. apply M_bind_run in H1 as [(k' & r0' & H1' & H1)|(e & _ & [=])].
  unfold lift in H1'. injection H1' as -> Hk'. rewrite Hk in Hk'. injection Hk' as <-. apply String.eqb_neq in Hne as Hne'. rewrite Hne' in H1.
  apply ensureRuntimeKind_Ok in H1 as (e1 & He1 & Hk1 & _).
  by apply (apply_parts_serves k _ _ _ _ _ e1) in H.
Qed.

(** *** Draining *)
Definition drained (r : Runtime) : Prop := forall e, rt_engine r = Some e -> draining e = true.
Definition keeps_drain {A} (m : RT A) : Prop := hoare drained m (fun _ => drained).

Lemma kd_bind {A B} (m : RT A) (f : A -> RT B) : keeps_drain m -> (forall a, keeps_drain (f a)) -> keeps_drain (m ≫= f).
Proof. intros Hm Hf. apply (hoare_bind _ _ _ (fun _ => drained)); [|exact Hf]. eapply hoare_weaken; [exact Hm | done | by intros [] ?]. Qed.
Lemma kd_try {A} (m : RT A) : keeps_drain m -> keeps_drain (try m).
Proof. intros H. by apply hoare_try. Qed.
Lemma kd_same {A} (m : RT A) : (forall r, rt_engine (fst (m r)) = rt_engine r) -> keeps_drain m.
Proof. intros H r Hr e He. rewrite H in He. by apply Hr. Qed.
Lemma kd_begin : keeps_drain begin_drain.
Proof. intros r Hr e. unfold begin_drain, on_engine. destruct (rt_engine r) as [e0|] eqn:E; cbn; [by intros [= <-] | by rewrite E]. Qed.
Lemma kd_next_build : keeps_drain next_build. Proof. by apply kd_same. Qed.
Lemma kd_ctx b : keeps_drain (ctx_err b). Proof. apply kd_same. by destruct b. Qed.
Lemma kd_get : keeps_drain get_plane. Proof. by apply kd_same. Qed.
Lemma kd_put d : keeps_drain (put_plane d). Proof. by apply kd_same. Qed.
Lemma kd_ret {A} (a : A) : keeps_drain (mret a). Proof. by apply kd_same. Qed.
Lemma kd_fail {A} e : keeps_drain (fail (A := A) e). Proof. by apply kd_same. Qed.
Lemma kd_lift {A} (a : result A) : keeps_drain (lift a). Proof. by apply kd_same. Qed.
Lemma kd_kind : keeps_drain (on_engine (fun e => (e, Ok (kind e)))).
Proof. apply kd_same. intros r. unfold on_engine. by destruct (rt_engine r) eqn:E. Qed.
#[local] Hint Resolve kd_bind kd_try kd_begin kd_next_build kd_ctx kd_get kd_put kd_ret kd_fail kd_lift kd_kind : drain.
Ltac keep := repeat first [progress (eauto 2 with drain) | apply kd_bind; [|intros ?] | apply kd_try | case_match].

(** In a drained engine [is_draining] answers true. *)
Lemma kd_draining {B} (f : bool -> RT B) : keeps_drain (f true) -> keeps_drain (w ← is_draining; f w).
Proof.
  intros Hf r Hr. unfold is_draining, on_engine. cbv [mbind M_bind]. destruct (rt_engine r) as [e|] eqn:E; cbn; [|exact Hr].
  unfold IsDraining. rewrite (Hr e E). apply Hf. intros e' [= <-]. by apply Hr.
Qed.

Lemma kd_build s : keeps_drain (buildGeneration s).
Proof. unfold buildGeneration. keep. Qed.
#[local] Hint Resolve kd_build : drain.
Lemma kd_restore s : keeps_drain (restore_generation s).
Proof. unfold restore_generation, stopped_now. keep. Qed.
#[local] Hint Resolve kd_restore : drain.

Lemma kd_applyStarted b s : keeps_drain (applyStarted b s).
Proof.
  unfold applyStarted, check_ctx, stopped_now. apply kd_bind; [keep | intros []]. apply kd_draining. unfold admission_end. cbn [negb andb]. keep.
Qed.
#[local] Hint Resolve kd_applyStarted : drain.
Lemma kd_plane_Apply b s : keeps_drain (plane_ApplySnapshot b s).
Proof. unfold plane_ApplySnapshot, check_ctx. keep. Qed.
Lemma kd_engine_Apply b s previous : keeps_drain (engine_ApplySnapshot b s previous).
Proof.
  intros r Hr. destruct (engine_ApplySnapshot b s previous r) as [r' x] eqn:H. cbn. apply engine_Apply_run in H as (_ & H).
  destruct x as [[]|err]; [|intros e He; rewrite H in He; by apply Hr]. destruct H as (e & e' & He & He' & _ & Hd & _).
  intros e2 He2. rewrite He' in He2. injection He2 as <-. rewrite Hd. by apply Hr.
Qed.
Lemma kd_reset g : keeps_drain (on_engine (fun e => ResetSnapshot e g)).
Proof.
  intros r Hr. unfold on_engine. destruct (rt_engine r) as [e|] eqn:E; [|exact Hr]. unfold ResetSnapshot.
  destruct (_ && _); cbn; intros e' [= <-]; [by apply Hr | done].
Qed.
#[local] Hint Resolve kd_plane_Apply kd_engine_Apply kd_reset : drain.

Lemma kd_apply_parts k previousKind s previous : previousKind = k \/ previous = None -> keeps_drain (apply_parts k previousKind s previous).
Proof.
  intros Hp. unfold apply_parts. assert (match previous with Some _ => String.eqb previousKind k | None => true end = true) as ->.
  { destruct previous; [|done]. destruct Hp as [->|]; [apply String.eqb_refl | done]. }
  cbv zeta. apply kd_draining. unfold rollback_same, fail_join. keep.
Qed.

(** Nothing is replaced for a snapshot of the behaviour the node has. *)
Lemma applySnapshot_same s previous k r :
  snapshotRuntimeKind s = Ok k -> rt_kind r = k -> k <> "" -> applySnapshot s previous r = apply_parts k (previous_kind previous) s previous r.
Proof.
  intros Hk Hr Hne. unfold applySnapshot. rewrite Hk. cbv [mbind M_bind lift]. apply String.eqb_neq in Hne as Hne'. rewrite Hne'.
  assert (try (ensureRuntime s) r = (r, Ok (Ok tt))) as ->; [|done].
  unfold try, ensureRuntime. rewrite Hk. cbv [mbind M_bind lift]. rewrite Hne'. unfold ensureRuntimeKind.
  destruct (snapshotRuntimeKind_kinds _ _ Hk) as [->|Hc]; [done|].
  replace (negb (String.eqb k NodeSpecGateway) && negb (String.eqb k NodeSpecAgent)) with false by (by destruct Hc as [->| ->]).
  rewrite Hr, String.eqb_refl, andb_true_r. unfold rt_kind in Hr. destruct (rt_engine r) eqn:E; [by rewrite bool_decide_eq_true_2 | by subst k].
Qed.

(** A drain outlives every snapshot of the behaviour the node has, whether it is
    applied or fails and is rolled back: a node that the Controller drained, or whose
    certificate was revoked, admits nothing because of a new snapshot. *)
Theorem drain_survives_apply s previous k r r' x :
  snapshotRuntimeKind s = Ok k -> rt_kind r = k -> k <> "" ->
  match previous with Some p => snapshotRuntimeKind p = Ok k | None => True end ->
  drained r -> applySnapshot s previous r = (r', x) -> drained r'.
Proof.
  intros Hk Hr Hne Hp Hd H. rewrite (applySnapshot_same s previous k r Hk Hr Hne) in H.
  assert (previous_kind previous = k \/ previous = None) as Hpk by (destruct previous as [p|]; [left; cbn; by rewrite Hp | by right]).
  pose proof (kd_apply_parts k (previous_kind previous) s previous Hpk r Hd) as Hh. by rewrite H in Hh.
Qed.

(** *** Falling back to the snapshot before *)
(** The engine that serves [s] takes back [p], whatever their generations. *)
Lemma ApplySnapshot_back e p s ctx0 g0 previous0 plan0 :
  prepare e ctx0 g0 p previous0 = Ok plan0 -> generation e = Snapshot_Generation s ->
  exists e', Engine.ApplySnapshot e None p (Some s) = (e', Ok tt).
Proof.
  intros Hp Hg. destruct (prepare_plan _ _ _ _ _ _ Hp) as (Hc & _).
  assert (Hgate : forall b, negb ((Snapshot_Generation p <? Snapshot_Generation s) && (generation e =? Snapshot_Generation s)) &&
     negb ((Snapshot_Generation p =? generation e) && (Snapshot_Generation s =? Snapshot_Generation p)) && (Snapshot_Generation p <=? generation e) = b -> b = false).
  { intros b <-. rewrite Hg. destruct (Z.ltb_spec (Snapshot_Generation p) (Snapshot_Generation s)); rewrite ?Z.eqb_refl; cbn [negb andb]; [done|].
    destruct (Z.eqb_spec (Snapshot_Generation p) (Snapshot_Generation s)) as [->|]; [by rewrite Z.eqb_refl|]. apply Z.leb_gt. lia. }
  assert (exists plan, prepare e None (generation e) p (Some s) = Ok plan /\ plan_snapshot plan = p /\ plan_previous plan = Some s
    /\ plan_rollback plan = (Snapshot_Generation p <? Snapshot_Generation s) && (generation e =? Snapshot_Generation s)
    /\ plan_sameGeneration plan = (Snapshot_Generation p =? generation e) && (Snapshot_Generation s =? Snapshot_Generation p)) as (plan & Hplan & E1 & E2 & E3 & E4).
  { unfold prepare in Hp |- *. rewrite (Hgate _ eq_refl). apply bind_Ok in Hp as (? & _ & Hp). cbn [mbind result_bind].
    repeat (apply bind_Ok in Hp as (? & ? & Hp); try match goal with E : ?m = Ok _ |- context [mbind _ ?m] => rewrite E; cbn [mbind result_bind reject_if]; clear E end).
    injection Hp as <-. cbn. by eexists. }
  unfold Engine.ApplySnapshot. rewrite Hplan. unfold commit. rewrite Hc, E1, E2, E3, E4, (Hgate _ eq_refl), Hg, Z.eqb_refl, andb_true_r. cbn [negb reject_if mbind result_bind].
  rewrite andb_false_r. cbn [reject_if mbind result_bind].
  replace ((Snapshot_Generation p =? Snapshot_Generation s) && (Snapshot_Generation s =? Snapshot_Generation p) && negb (Snapshot_Generation s =? Snapshot_Generation p)) with false
    by (destruct (Z.eqb_spec (Snapshot_Generation s) (Snapshot_Generation p)); by rewrite ?andb_false_r).
  cbn [reject_if mbind result_bind]. destruct (spec_limits _ _ _) as [[[? ?] ?] ?]. by eexists.
Qed.

Definition builds_ok (r : Runtime) : Prop := Forall (eq Built) (rt_builds r).
Definition has_engine (k : string) (r : Runtime) : Prop := exists e, rt_engine r = Some e /\ kind e = k.

Lemma build_run s k r :
  snapshotRuntimeKind s = Ok k -> k <> "" -> has_engine k r -> buildGeneration s r = next_build r.
Proof.
  intros Hk Hne (e & He & Hke). unfold buildGeneration, on_engine. cbv [mbind M_bind]. rewrite He. cbn. rewrite Hke. unfold snapshotRuntimeKind in Hk.
  assert (with_parts r (Some e) (rt_plane r) = r) as -> by (rewrite <- He; by destruct r).
  destruct (Snapshot_Gateway s), (Snapshot_Agent s); try discriminate Hk; injection Hk as <-; done.
Qed.

(** Where every build succeeds. *)
Definition ready k (r : Runtime) : Prop := has_engine k r /\ builds_ok r /\ dp_started (rt_plane r) = true.

Lemma ready_engine k (f : Engine -> Engine * result unit) :
  (forall e, kind (fst (f e)) = kind e /\ snd (f e) = Ok tt) -> hoare (ready k) (on_engine f) (fun x r => x = Ok tt /\ ready k r).
Proof.
  intros Hf r ((e & He & Hk) & Hb & Hs). unfold on_engine. rewrite He. destruct (Hf e) as [H1 H2]. destruct (f e) as [e' x]. cbn in *. split; [done|].
  split; [|done]. exists e'. by rewrite H1.
Qed.

Lemma ready_end_drain k : hoare (ready k) end_drain (fun x r => x = Ok tt /\ ready k r).
Proof. apply ready_engine. intros e. unfold EndDrain. by destruct (closed e). Qed.

Lemma applyStarted_succeeds p k : snapshotRuntimeKind p = Ok k -> k <> "" -> hoare (ready k) (applyStarted false p) (fun x r => x = Ok tt /\ ready k r).
Proof.
  intros Hk Hne. unfold applyStarted. eapply (hoare_bind _ _ _ (fun _ => ready k)); [by intros r Hr|intros _].
  eapply (hoare_bind _ _ _ (fun _ => ready k)).
  { intros r ((e & He & Hke) & Hb & Hs). unfold is_draining, on_engine. rewrite He. cbn. split; [|done]. by exists e. }
  intros w. eapply (hoare_bind _ _ _ (fun _ => ready k)).
  { eapply hoare_weaken; [apply ready_engine; by intros e | done | by intros x r [-> Hr]]. }
  intros _. eapply (hoare_bind _ _ _ (fun d r => ready k r /\ d = rt_plane r)); [by intros r Hr|intros d].
  eapply (hoare_bind _ _ _ (fun _ => ready k)); [by intros r [(He & Hb & Hs) ->]|intros _].
  eapply (hoare_bind _ _ _ (fun b r => ready k r /\ b = Built)).
  { intros r (He & Hb & Hs). rewrite (build_run p k r Hk Hne He). unfold next_build, ready, has_engine, builds_ok in *. cbn.
    destruct (rt_builds r) as [|b bs]; [done|]. apply Forall_cons in Hb as [<- Hb]. done. }
  intros b. eapply (hoare_weaken _ (fun r => b = Built /\ ready k r)); [|by intros r [Hr Hb]|intros x r Hx; exact Hx].
  apply hoare_pure. intros ->. eapply (hoare_bind _ _ _ (fun d r => ready k r /\ d = rt_plane r)); [by intros r Hr|intros d'].
  destruct (dp_started d') eqn:Hd; [|intros r [(_ & _ & Hs) ->]; congruence].
  eapply (hoare_bind _ _ _ (fun _ => ready k)); [by intros r [(He & Hb & Hs) ->]|intros _]. unfold admission_end.
  destruct (negb w && true); [apply ready_end_drain | by intros r Hr].
Qed.

Lemma plane_Apply_succeeds p k r :
  snapshotRuntimeKind p = Ok k -> k <> "" -> has_engine k r -> builds_ok r -> Snapshot_Validate p = Ok tt -> exists r', plane_ApplySnapshot false p r = (r', Ok tt).
Proof.
  intros Hk Hne He Hb Hv.
  assert (plane_ApplySnapshot false p r = (if dp_started (rt_plane r) then applyStarted false p
            else put_plane (MkDataPlane false (dp_state (rt_plane r)) (Some (Clone p)))) r) as ->.
  { unfold plane_ApplySnapshot, check_ctx, lift. cbn [ctx_err]. cbv [mbind M_bind mret M_ret get_plane]. by rewrite Hv. }
  destruct (dp_started (rt_plane r)) eqn:Hst; [|by eexists].
  destruct (applyStarted_succeeds p k Hk Hne r (conj He (conj Hb Hst))) as [Hx _]. destruct (applyStarted false p r) as [r' x]. cbn in Hx. subst x. by eexists.
Qed.

(** When only the build of the new snapshot can fail, the later ones succeed. *)
Definition keeps_builds {A} (m : RT A) : Prop := hoare builds_ok m (fun _ => builds_ok).
Lemma kb_same {A} (m : RT A) : (forall r, rt_builds (fst (m r)) = rt_builds r) -> keeps_builds m.
Proof. intros H r Hr. unfold builds_ok. by rewrite H. Qed.
Lemma kb_bind {A B} (m : RT A) (f : A -> RT B) : keeps_builds m -> (forall a, keeps_builds (f a)) -> keeps_builds (m ≫= f).
Proof. intros Hm Hf. apply (hoare_bind _ _ _ (fun _ => builds_ok)); [|exact Hf]. eapply hoare_weaken; [exact Hm | done | by intros [] ?]. Qed.
Lemma kb_next : keeps_builds next_build.
Proof. intros r Hr. unfold builds_ok, next_build in *. cbn. destruct (rt_builds r); [done|]. by apply Forall_cons in Hr as [_ Hr]. Qed.
Lemma kb_engine {A} (f : Engine -> Engine * result A) : keeps_builds (on_engine f).
Proof. apply kb_same. intros r. unfold on_engine. destruct (rt_engine r) as [e|]; [|done]. by destruct (f e). Qed.
Lemma kb_end_drain : keeps_builds end_drain. Proof. apply kb_engine. Qed.
Lemma kb_get : keeps_builds get_plane. Proof. by apply kb_same. Qed.
Lemma kb_put d : keeps_builds (put_plane d). Proof. by apply kb_same. Qed.
Lemma kb_ret {A} (a : A) : keeps_builds (mret a). Proof. by apply kb_same. Qed.
Lemma kb_fail {A} e : keeps_builds (fail (A := A) e). Proof. by apply kb_same. Qed.
#[local] Hint Resolve kb_bind kb_next kb_engine kb_end_drain kb_get kb_put kb_ret kb_fail : builds.
Ltac builds := repeat first [progress (eauto 2 with builds) | by apply (kb_fail (A := unit)) | apply kb_bind; [|intros ?] | case_match].
Lemma kb_build s : keeps_builds (buildGeneration s). Proof. unfold buildGeneration. builds. Qed.
#[local] Hint Resolve kb_build : builds.

(** No cancellation, the engine of [k], and a first build that may fail. *)
Definition first_may_fail k (r : Runtime) : Prop := has_engine k r /\ rt_ctx r = [] /\ Forall (eq Built) (tl (rt_builds r)).

Lemma failing_build k s :
  snapshotRuntimeKind s = Ok k -> k <> "" -> hoare (first_may_fail k) (applyStarted true s) (fun x r => x = Ok tt \/ builds_ok r).
Proof.
  intros Hk Hne. unfold applyStarted.
  eapply (hoare_bind _ _ _ (fun _ => first_may_fail k)).
  { intros r (He & Hc & Hb). unfold check_ctx, ctx_err, first_may_fail. cbv [mbind M_bind]. rewrite Hc. cbn. by split_and!. }
  intros _. eapply (hoare_bind _ _ _ (fun _ => first_may_fail k)).
  { intros r ((e & He & Hke) & Hr). unfold is_draining, on_engine. rewrite He. cbn. split; [by exists e | done]. }
  intros w. eapply (hoare_bind _ _ _ (fun _ => first_may_fail k)).
  { intros r ((e & He & Hke) & Hr). unfold begin_drain, on_engine. rewrite He. cbn. split; [by eexists | done]. }
  intros _. eapply (hoare_bind _ _ _ (fun _ => first_may_fail k)); [by intros r Hr|intros d].
  eapply (hoare_bind _ _ _ (fun _ => first_may_fail k)); [by intros r Hr|intros _].
  eapply (hoare_bind _ _ _ (fun _ => builds_ok)).
  { intros r (He & Hc & Hb). rewrite (build_run s k r Hk Hne He). exact Hb. }
  intros b. apply (hoare_weaken _ builds_ok _ _ (fun _ => builds_ok)); [|done|intros x r Hr; by right].
  fold (keeps_builds (A := unit)). destruct b as [|err|]; unfold admission_end, restore_generation, stopped_now; builds.
Qed.

Lemma failing_plane k s r r' err :
  snapshotRuntimeKind s = Ok k -> k <> "" -> Snapshot_Validate s = Ok tt -> first_may_fail k r -> plane_ApplySnapshot true s r = (r', Err err) -> builds_ok r'.
Proof.
  intros Hk Hne Hv (He & Hc & Hb) H. unfold plane_ApplySnapshot in H.
  apply M_bind_run in H as [([] & r1 & H1 & H)|(e & H1 & _)]; unfold check_ctx, ctx_err in H1; cbv [mbind M_bind] in H1; rewrite Hc in H1; [|done]. injection H1 as <-.
  apply M_bind_run in H as [([] & r2 & H2 & H)|(e & H2 & _)]; unfold lift in H2; rewrite Hv in H2; [|done]. injection H2 as <-.
  apply M_bind_run in H as [(d & r3 & H3 & H)|(e & H3 & _)]; [|done]. injection H3 as <- <-. destruct (dp_started _); [|done].
  match type of H with applyStarted _ _ ?x = _ => destruct (failing_build k s Hk Hne x (conj He (conj eq_refl Hb))) as [Hx|Hx] end; rewrite H in Hx; done.
Qed.

Lemma installed_validates e s : installed e s -> Snapshot_Validate s = Ok tt.
Proof.
  intros [_ _ _ _ (ctx & g & previous & plan & Hp & _)]. unfold prepare in Hp. apply bind_Ok in Hp as (? & _ & Hp). apply bind_Ok in Hp as (? & _ & Hp).
  by apply bind_Ok in Hp as ([] & Hv & _).
Qed.

Lemma same_identity_drain e e' : same_but_drain e e' -> same_identity e e'.
Proof. unfold same_but_drain. intros ->. done. Qed.
Lemma same_identity_trans e1 e2 e3 : same_identity e1 e2 -> same_identity e2 e3 -> same_identity e1 e3.
Proof. unfold same_identity. intros (-> & -> & -> & ->) (F1 & F2 & F3 & F4). by rewrite F1, F2, F3, F4. Qed.

(** The rollback after the data plane failed: the engine holds the new snapshot. *)
Lemma rollback_serves k w err s p r e0 e r' x :
  snapshotRuntimeKind p = Ok k -> k <> "" -> installed e0 p -> kind e0 = k -> same_identity e0 e ->
  rt_engine r = Some e -> installed e s -> builds_ok r -> rollback_same w err s p r = (r', x) ->
  x = Err err /\ node_serves r' p /\ (w = false -> forall e', rt_engine r' = Some e' -> draining e' = false).
Proof.
  intros Hk Hne Hp Hk0 Hid He Hs Hb H. destruct (in_again _ _ Hp) as (ctx & g & previous & plan & Hprep & _).
  destruct Hid as (I1 & I2 & I3 & I4). rewrite <- (prepare_same e0 e ctx g p previous I1 I2 I3 I4) in Hprep.
  destruct (ApplySnapshot_back e p s _ _ _ _ Hprep (in_generation _ _ Hs)) as (e1 & He1). pose proof (ApplySnapshot_installs _ _ _ _ _ He1) as (Hi1 & Hd1 & (K1 & _)).
  unfold rollback_same in H. apply M_bind_run in H as [(a & r1 & H1 & H)|(e' & H1 & _)]; apply try_run in H1 as (y & E & H1); [injection E as ->|done].
  unfold engine_ApplySnapshot in H1. cbv [mbind M_bind] in H1. cbn [ctx_err] in H1. unfold on_engine in H1. rewrite He in H1. rewrite He1 in H1. injection H1 as <- <-.
  set (r1 := with_parts r (Some e1) (rt_plane r)) in *. assert (Hh : has_engine k r1) by (exists e1; split; [done | congruence]).
  destruct (plane_Apply_succeeds p k r1 Hk Hne Hh Hb (installed_validates _ _ Hp)) as (r2 & Hr2).
  apply M_bind_run in H as [(a & r2' & H2 & H)|(e' & H2 & _)]; apply try_run in H2 as (y & E & H2); [injection E as ->|done].
  rewrite Hr2 in H2. injection H2 as <- <-. assert (Hkk : kind e1 = k) by congruence.
  pose proof (both_serve p k e1 r1 r2 false Hk Hne eq_refl Hkk Hi1 Hr2) as Hserve.
  apply M_bind_run in H as [([] & r3 & H3 & H)|(e' & H3 & ->)].
  - injection H as <- <-. split; [done|]. destruct w; [by injection H3 as <-|]. destruct (end_drain_run _ _ _ H3) as [Hf Hpl]. split; [by eapply frame_serves|].
    intros _ e' He'. unfold node_serves in Hserve. rewrite Hk in Hserve. apply String.eqb_neq in Hne. rewrite Hne in Hserve. destruct Hserve as (e2 & He2 & _ & Hi2 & _).
    unfold end_drain, on_engine in H3. rewrite He2 in H3. injection H3 as <-. cbn in He'. injection He' as <-. unfold EndDrain. by rewrite (in_open _ _ Hi2).
  - exfalso. destruct w; [done|]. unfold node_serves in Hserve. rewrite Hk in Hserve. apply String.eqb_neq in Hne. rewrite Hne in Hserve. destruct Hserve as (e2 & He2 & _).
    unfold end_drain, on_engine in H3. by rewrite He2 in H3.
Qed.

Lemma end_drain_opens r r' x e : rt_engine r = Some e -> closed e = false -> end_drain r = (r', x) ->
  x = Ok tt /\ forall e', rt_engine r' = Some e' -> draining e' = false.
Proof.
  intros He Hc H. unfold end_drain, on_engine in H. rewrite He in H. injection H as <- <-. split; [done|]. intros e' [= <-]. unfold EndDrain. by rewrite Hc.
Qed.

Lemma node_serves_engine r p k : snapshotRuntimeKind p = Ok k -> k <> "" -> node_serves r p ->
  exists e, rt_engine r = Some e /\ kind e = k /\ installed e p /\ plane_holds (rt_plane r) p.
Proof. intros Hk Hne. unfold node_serves. rewrite Hk. apply String.eqb_neq in Hne. by rewrite Hne. Qed.

Lemma failed_parts_serve k s p r e0 r' err :
  snapshotRuntimeKind s = Ok k -> snapshotRuntimeKind p = Ok k -> k <> "" -> node_serves r p -> rt_ctx r = [] -> Forall (eq Built) (tl (rt_builds r)) ->
  rt_engine r = Some e0 -> apply_parts k k s (Some p) r = (r', Err err) ->
  node_serves r' p /\ (draining e0 = false -> forall e', rt_engine r' = Some e' -> draining e' = false).
Proof.
  intros Hk Hkp Hne Hserve Hctx Hb He0 H. destruct (node_serves_engine _ _ _ Hkp Hne Hserve) as (e & He & Hke & Hie & Hph). rewrite He0 in He. injection He as <-.
  unfold apply_parts in H. rewrite String.eqb_refl in H. cbv zeta in H.
  apply M_bind_run in H as [(w & r1 & H1 & H)|(e & H1 & _)]; unfold is_draining, on_engine in H1; rewrite He0 in H1; [|done]. injection H1 as <- <-.
  apply M_bind_run in H as [([] & r2 & H2 & H)|(e & H2 & _)]; unfold begin_drain, on_engine in H2; cbn [rt_engine with_parts] in H2; [|done]. injection H2 as <-.
  set (r2 := with_parts _ _ _) in H. assert (He2 : rt_engine r2 = Some (BeginDrain e0)) by done.
  assert (Hf2 : frame r r2) by (unfold frame; rewrite He0, He2; by split_and!). assert (Hp2 : rt_plane r2 = rt_plane r) by done.
  assert (Hs2 : node_serves r2 p) by (by eapply frame_serves).
  apply M_bind_run in H as [(ea & r3 & H3 & H)|(e & H3 & _)]; apply try_run in H3 as (y & E & H3); [injection E as ->|done].
  pose proof (engine_Apply_run _ _ _ _ _ _ H3) as (Hp3 & Hr3). assert (Hb3 : rt_ctx r3 = [] /\ rt_builds r3 = rt_builds r).
  { unfold engine_ApplySnapshot, ctx_err, on_engine in H3. cbv [mbind M_bind] in H3. cbn [rt_engine] in H3. rewrite He2 in H3.
    destruct (Engine.ApplySnapshot _ _ _ _) in H3. injection H3 as <- _. cbn. by rewrite Hctx. }
  destruct y as [[]|eerr].
  2: { assert (Hs3 : node_serves r3 p) by (eapply (frame_serves r2); [by apply frame_engine|done|done] || (unfold node_serves in *; by rewrite Hr3, Hp3)).
       unfold IsDraining in H. apply M_bind_run in H as [([] & r4 & H4 & H)|(e & H4 & H)].
       - injection H as <- _. destruct (draining e0) eqn:Hd; [injection H4 as <-; by split|]. destruct (end_drain_run _ _ _ H4) as [Hf4 Hp4].
         split; [by eapply frame_serves|]. intros _. eapply end_drain_opens; [by rewrite Hr3 | exact (in_open _ _ Hie) | exact H4].
       - destruct (draining e0); [done|]. unfold end_drain, on_engine in H4. by rewrite Hr3, He2 in H4. }
  destruct Hr3 as (e2' & e3 & He2' & He3 & Hi3 & Hd3 & Hid3). rewrite He2 in He2'. injection He2' as <-.
  apply M_bind_run in H as [(pa & r4 & H4 & H)|(e & H4 & _)]; apply try_run in H4 as (z & E & H4); [injection E as ->|done]. destruct z as [[]|perr].
  - exfalso. destruct (IsDraining e0); [done|]. unfold end_drain, on_engine in H. pose proof (framed_plane_Apply _ _ _ _ _ H4) as (_ & _ & Hf4). rewrite He3 in Hf4.
    by destruct (rt_engine r4).
  - assert (Hh3 : has_engine k r3) by (exists e3; split; [done|]; destruct Hid3 as (-> & _); done). destruct Hb3 as [Hc3 Hbb3].
    assert (Hb4 : builds_ok r4) by (eapply (failing_plane k s r3); [done | done | by eapply installed_validates | split; [done|split; [done | by rewrite Hbb3]] | exact H4]).
    pose proof (framed_plane_Apply _ _ _ _ _ H4) as (_ & _ & Hf4). rewrite He3 in Hf4. destruct (rt_engine r4) as [e4|] eqn:He4; [|done].
    assert (Hid : same_identity e0 e4) by (eapply same_identity_trans; [|by apply same_identity_drain]; eapply same_identity_trans; [|exact Hid3]; done).
    destruct (rollback_serves k _ perr s p r4 e0 e4 r' (Err err) Hkp Hne Hie Hke Hid He4 ltac:(by eapply same_but_drain_installed) Hb4 H) as (_ & Hs' & Hd').
    split; [done|]. exact Hd'.
Qed.

(** Whatever fails: the rollback is complete, or the engine is left drained. *)
Definition fell_back (p : DesiredSnapshot) (w : bool) (r : Runtime) : Prop :=
  node_serves r p /\ (w = false -> forall e, rt_engine r = Some e -> draining e = false).

Lemma end_drain_falls_back p k (w : bool) r r' (x : result unit) : snapshotRuntimeKind p = Ok k -> k <> "" -> node_serves r p ->
  (if w then mret tt else end_drain) r = (r', x) -> fell_back p w r' /\ x = Ok tt.
Proof.
  intros Hk Hne Hs H. destruct (node_serves_engine _ _ _ Hk Hne Hs) as (e & He & _ & Hi & _). destruct w; [by injection H as <- <-|].
  destruct (end_drain_opens _ _ _ _ He (in_open _ _ Hi) H) as [-> Ho]. destruct (end_drain_run _ _ _ H) as [Hf Hp]. split; [|done]. split; [by eapply frame_serves | done].
Qed.

Lemma rollback_falls_back k w err s p r e r' x :
  snapshotRuntimeKind p = Ok k -> k <> "" -> rt_engine r = Some e -> kind e = k -> drained r ->
  rollback_same w err s p r = (r', x) -> fell_back p w r' \/ drained r'.
Proof.
  intros Hk Hne He Hke Hd H. unfold rollback_same in H.
  apply M_bind_run in H as [(a & r1 & H1 & H)|(e' & H1 & _)]; apply try_run in H1 as (y & E & H1); [injection E as ->|done].
  apply M_bind_run in H as [(b & r2 & H2 & H)|(e' & H2 & _)]; apply try_run in H2 as (z & E & H2); [injection E as ->|done].
  assert (Hd1 : drained r1) by (pose proof (kd_engine_Apply false p (Some s) r Hd) as Hk1; by rewrite H1 in Hk1).
  assert (Hd2 : drained r2) by (pose proof (kd_plane_Apply false p r1 Hd1) as Hk2; by rewrite H2 in Hk2).
  destruct y as [[]|], z as [[]|]; [left | right; by injection H as <- _..].
  apply engine_Apply_run in H1 as (_ & e0 & e1 & He0 & He1 & Hi & _ & Hid). rewrite He in He0. injection He0 as <-.
  assert (Hs : node_serves r2 p) by (eapply both_serve; [done | done | exact He1 | by destruct Hid as (-> & _) | done | exact H2]).
  apply M_bind_run in H as [([] & r3 & H3 & H)|(e' & H3 & _)]; destruct (end_drain_falls_back p k w _ _ _ Hk Hne Hs H3) as [Hb Hx]; [|done]. by injection H as <- _.
Qed.

Lemma failed_parts_fall_back k s p r e0 r' err :
  snapshotRuntimeKind s = Ok k -> snapshotRuntimeKind p = Ok k -> k <> "" -> node_serves r p ->
  rt_engine r = Some e0 -> apply_parts k k s (Some p) r = (r', Err err) -> fell_back p (draining e0) r' \/ drained r'.
Proof.
  intros Hk Hkp Hne Hserve He0 H. destruct (node_serves_engine _ _ _ Hkp Hne Hserve) as (e & He & Hke & Hie & Hph). rewrite He0 in He. injection He as <-.
  unfold apply_parts in H. rewrite String.eqb_refl in H. cbv zeta in H.
  apply M_bind_run in H as [(w & r1 & H1 & H)|(e & H1 & _)]; unfold is_draining, on_engine in H1; rewrite He0 in H1; [|done]. injection H1 as <- <-.
  apply M_bind_run in H as [([] & r2 & H2 & H)|(e & H2 & _)]; unfold begin_drain, on_engine in H2; cbn [rt_engine with_parts] in H2; [|done]. injection H2 as <-.
  set (r2 := with_parts _ _ _) in H. assert (He2 : rt_engine r2 = Some (BeginDrain e0)) by done.
  assert (Hs2 : node_serves r2 p) by (eapply (frame_serves r); [unfold frame; rewrite He0, He2; by split_and! | done | done]).
  assert (Hd2 : drained r2) by by intros e [= <-].
  apply M_bind_run in H as [(ea & r3 & H3 & H)|(e & H3 & _)]; apply try_run in H3 as (y & E & H3); [injection E as ->|done].
  pose proof (kd_engine_Apply true s (Some p) r2 Hd2) as Hd3. rewrite H3 in Hd3. pose proof (engine_Apply_run _ _ _ _ _ _ H3) as (Hp3 & Hr3). destruct y as [[]|eerr].
  2: { assert (Hs3 : node_serves r3 p) by (unfold node_serves in *; by rewrite Hr3, Hp3).
       apply M_bind_run in H as [([] & r4 & H4 & H)|(e & H4 & H)]; destruct (end_drain_falls_back p k (draining e0) _ _ _ Hkp Hne Hs3 H4) as [Hb Hx]; [|done].
       left. by injection H as <- _. }
  destruct Hr3 as (e2' & e3 & He2' & He3 & _ & _ & Hid3). rewrite He2 in He2'. injection He2' as <-.
  apply M_bind_run in H as [(pa & r4 & H4 & H)|(e & H4 & _)]; apply try_run in H4 as (z & E & H4); [injection E as ->|done].
  pose proof (kd_plane_Apply true s r3 Hd3) as Hd4. rewrite H4 in Hd4. pose proof (framed_plane_Apply _ _ _ _ _ H4) as (_ & _ & Hf4). rewrite He3 in Hf4.
  destruct (rt_engine r4) as [e4|] eqn:He4; [|done]. destruct z as [[]|perr].
  - exfalso. destruct (IsDraining e0); [done|]. unfold end_drain, on_engine in H. by rewrite He4 in H.
  - eapply (rollback_falls_back k _ perr s p r4 e4); [done | done | done | | exact Hd4 | exact H]. rewrite Hf4. change (kind e3 = k). by destruct Hid3 as (-> & _).
Qed.

(** C17: an update between two snapshots of one behaviour fails safe.  Whatever fails, and
    whether or not the context is cancelled meanwhile, the node then serves the previous
    snapshot, in the engine and in the adapters, or its engine is drained and admits
    nothing.  If the context is not cancelled and only the first build fails, the one of
    the new snapshot, it serves the previous snapshot, and it is drained only if it was
    before. *)
Theorem failed_update_keeps_serving s p k r r' err :
  snapshotRuntimeKind s = Ok k -> snapshotRuntimeKind p = Ok k -> k <> "" ->
  node_serves r p -> applySnapshot s (Some p) r = (r', Err err) ->
  (node_serves r' p \/ drained r')
  /\ (rt_ctx r = [] -> Forall (eq Built) (tl (rt_builds r)) ->
      node_serves r' p /\ exists e e', rt_engine r = Some e /\ rt_engine r' = Some e' /\ draining e' = draining e).
Proof.
  intros Hk Hkp Hne Hs H. destruct (node_serves_engine _ _ _ Hkp Hne Hs) as (e0 & He0 & Hk0 & Hi0 & _).
  assert (Hr : rt_kind r = k) by (unfold rt_kind; by rewrite He0). rewrite (applySnapshot_same s (Some p) k r Hk Hr Hne) in H.
  assert (Hpk : previous_kind (Some p) = k) by (cbn; by rewrite Hkp). rewrite Hpk in H. split.
  { destruct (failed_parts_fall_back k s p r e0 r' err Hk Hkp Hne Hs He0 H) as [[Hb _]|Hd]; [by left | by right]. }
  intros Hc Hb. destruct (failed_parts_serve k s p r e0 r' err Hk Hkp Hne Hs Hc Hb He0 H) as [Hs' Hd]. split; [done|].
  destruct (node_serves_engine _ _ _ Hkp Hne Hs') as (e' & He' & _). exists e0, e'. split_and!; try done. destruct (draining e0) eqn:E; [|by apply Hd].
  pose proof (kd_apply_parts k k s (Some p) (or_introl eq_refl) r) as Hkd. rewrite H in Hkd. apply Hkd; [|done]. intros e He. rewrite He0 in He. by injection He as <-.
Qed.

(** The node's data plane is what the reconciler drives. *)
#[export] Instance node_component : Component Runtime := {|
  comp_apply := applySnapshot; comp_reset := Some resetSnapshot; serves := node_serves; apply_serves := applySnapshot_serves
|}.
End RuntimeFacts.

(** ** Concrete nodes *)
Definition fresh_node (builds : list build) : Runtime := MkRuntime "gw-1" 0 0 true None new_plane builds [] [].
Definition run_apply := @applySnapshot go_order insertion_slice_sort toy_crypto ascii_unicode toy_json.
Definition bind_error : error := EExternal "bind: address already in use".
Definition generation_1 : DesiredSnapshot := sealed (sample_snapshot 1).
Definition generation_2 : DesiredSnapshot := sealed (sample_snapshot 2).
Definition with_builds (r : Runtime) (builds : list build) : Runtime :=
  MkRuntime (rt_nodeID r) (rt_maxStreams r) (rt_maxSessions r) (rt_running r) (rt_engine r) (rt_plane r) builds [] [].
Definition at_1 : Runtime := fst (run_apply generation_1 None (fresh_node [])).
Definition node_at_1 (builds : list build) : Runtime := with_builds at_1 builds.

Lemma with_builds_serves `{MO : !MapOrder, SS : !SliceSort, CR : !Crypto, UN : !Unicode, DJ : !DocumentJSON} r builds s :
  node_serves r s -> node_serves (with_builds r builds) s.
Proof. done. Qed.

Lemma at_1_serves : @node_serves go_order insertion_slice_sort toy_crypto ascii_unicode toy_json at_1 generation_1.
Proof.
  assert (Hok : snd (run_apply generation_1 None (fresh_node [])) = Ok tt) by (vm_compute; reflexivity).
  apply (@applySnapshot_serves go_order insertion_slice_sort toy_crypto ascii_unicode toy_json generation_1 None (fresh_node [])).
  unfold at_1. rewrite <- Hok. apply surjective_pairing.
Qed.

Lemma failed_update_keeps_serving_witness :
  @node_serves go_order insertion_slice_sort toy_crypto ascii_unicode toy_json
    (fst (run_apply generation_2 (Some generation_1) (node_at_1 [BuildFails bind_error]))) generation_1.
Proof.
  destruct (run_apply generation_2 (Some generation_1) (node_at_1 [BuildFails bind_error])) as [r' [[]|err]] eqn:E.
  { exfalso. assert (Hx : is_Ok (snd (run_apply generation_2 (Some generation_1) (node_at_1 [BuildFails bind_error]))) = false) by (vm_compute; reflexivity).
    rewrite E in Hx. discriminate Hx. }
  refine (proj1 (proj2 (@failed_update_keeps_serving go_order insertion_slice_sort toy_crypto ascii_unicode toy_json generation_2 generation_1 NodeSpecGateway
    (node_at_1 [BuildFails bind_error]) r' err _ _ _ _ E) _ _)).
  1, 2: vm_compute; reflexivity.
  1: discriminate.
  2: reflexivity.
  2: constructor.
  apply with_builds_serves, at_1_serves.
Defined.

Definition drained_node : Runtime := fst (begin_drain (node_at_1 [])).

Lemma drain_survives_apply_witness : drained (fst (run_apply generation_2 (Some generation_1) drained_node)).
Proof.
  destruct (run_apply generation_2 (Some generation_1) drained_node) as [r' x] eqn:E. cbn [fst].
  refine (@drain_survives_apply go_order insertion_slice_sort toy_crypto ascii_unicode toy_json generation_2 (Some generation_1) NodeSpecGateway drained_node r' x _ _ _ _ _ E).
  - vm_compute. reflexivity.
  - vm_compute. reflexivity.
  - discriminate.
  - vm_compute. reflexivity.
  - intros e He. assert (Hd : option_map draining (rt_engine drained_node) = Some true) by (vm_compute; reflexivity).
    rewrite He in Hd. injection Hd as Hd. exact Hd.
Defined.

(** The first snapshot of a node does not open; the Controller sends it again, and it
    opens.  The apply succeeds, and the engine still refuses every session. *)
Definition retried : Runtime * result unit :=
  let r := fst (run_apply generation_1 None (fresh_node [BuildFails bind_error])) in run_apply generation_1 None r.

Example retry_of_first_snapshot_stays_drained :
  snd (run_apply generation_1 None (fresh_node [BuildFails bind_error])) = Err bind_error
  /\ snd retried = Ok tt
  /\ option_map (fun e => (generation e, draining e)) (rt_engine (fst retried)) = Some (1, true)
  /\ is_Ok (snd (run_apply generation_1 None (fresh_node []))) = true
  /\ option_map draining (rt_engine (fst (run_apply generation_1 None (fresh_node [])))) = Some false.
Proof. split_and!; vm_compute; reflexivity. Qed.

(** A drained gateway becomes an agent: the new engine starts open. *)
Definition as_agent : DesiredSnapshot :=
  sealed (MkSnapshot 1 "gw-1" 2 "" None (Some (MkAgentSpec "gw-1" "" (MkSelector None) [] [] (MkAgentLimits 0 0 0) default_Egress (MkLoggingPolicy "" "") 1)) [] []).

Example behaviour_switch_ends_drain :
  option_map draining (rt_engine drained_node) = Some true
  /\ snd (run_apply as_agent (Some generation_1) drained_node) = Ok tt
  /\ option_map (fun e => (kind e, draining e)) (rt_engine (fst (run_apply as_agent (Some generation_1) drained_node))) = Some (NodeSpecAgent, false).
Proof. split_and!; vm_compute; reflexivity. Qed.
