(* ===== verification/NodeLoop.v ===== *)
(** * The control connection of a node (src/internal/node: runtime_loop.go, lifecycle.go;
    [observedState] of runtime_snapshot.go, [loadOrCreateNodeKey] of runtime_enrollment.go)

    One connection is the messages that arrive on it until receiving fails; [Run] is a
    sequence of connections with the waits between them.  Sending, the certificate and
    update actions, the measurements of the data plane and the clock are answered by
    oracles; gRPC statuses and the text of a time are parameters.  The heartbeat and
    telemetry goroutines, which only send, are not modelled. *)
From S2P Require Import Prelude GoStd Domain Checksum Validation Snapshot Datagram Json Effects Engine Report Files Control ControlWire.
From S2P Require Import NodeCache NodeRuntime NodeRuntimeFacts.

(** ** Messages *)
Record Action := MkAction { Action_Id : string; Action_Name : string; Action_PayloadJson : bytes }.

(** The body of a message is one of these; [Empty] is none. *)
Inductive controller_message := ActionMessage (a : Action) | DesiredMessage (w : wire_snapshot) | CertificateMessage | EmptyMessage.

Inductive node_message :=
| HelloMessage (node : string) (generation : Z) (checksum : string)
| ApplyResultMessage (r : apply_result)
| ObservedMessage (o : wire_observed)
| RenewMessage (csr : bytes)
| ActionResultMessage (id action : string) (affected : Z) (e : option string).

Definition ErrNodeDecommissioned : error := ENew "node has been decommissioned".
Definition ErrNodeUpdateRestart : string := "node update requested process restart".

Class GrpcStatus := { permission_denied : error -> bool; status_message : error -> string }.
Class TimeText := { rfc3339nano : Z -> string }.

(** ** The process

    [nd_sends] answers the sends, [nd_hooks] the certificate and update handlers,
    [nd_runtime_actions] the runtime actions of the data plane with the number of
    connections they affected, [nd_clock] the clock readings, [nd_plane_state] what the
    data plane says of itself ([None] when it is not active). *)
Record node := MkNode {
  nd_host : host Runtime; nd_out : list node_message; nd_telemetry : bool; nd_system : option SystemInfo;
  nd_sends : list (option error); nd_hooks : list (option error); nd_runtime_actions : list (result Z); nd_clock : list Z;
  nd_plane_state : list (option ObservedState)
}.

Definition ND A := M node A.

Definition with_host (n : node) (h : host Runtime) : node :=
  MkNode h (nd_out n) (nd_telemetry n) (nd_system n) (nd_sends n) (nd_hooks n) (nd_runtime_actions n) (nd_clock n) (nd_plane_state n).
Definition on_host {A} (m : M (host Runtime) A) : ND A := fun n => let '(h, r) := m (nd_host n) in (with_host n h, r).
Definition get_host : ND (host Runtime) := fun n => (n, Ok (nd_host n)).
Definition node_files {A} (m : IO A) : ND A := on_host (on_files m).
Definition node_runtime {A} (m : RT A) : ND A := on_host (on_comp m).

Definition send (m : node_message) : ND unit := fun n =>
  let rest := MkNode (nd_host n) (nd_out n) (nd_telemetry n) (nd_system n) (tl (nd_sends n)) (nd_hooks n) (nd_runtime_actions n) (nd_clock n) (nd_plane_state n) in
  match nd_sends n with
  | Some e :: _ => (rest, Err e)
  | _ => (MkNode (nd_host n) (nd_out n ++ [m]) (nd_telemetry n) (nd_system n) (tl (nd_sends n)) (nd_hooks n) (nd_runtime_actions n) (nd_clock n) (nd_plane_state n), Ok tt)
  end.
Definition hook : ND unit := fun n =>
  (MkNode (nd_host n) (nd_out n) (nd_telemetry n) (nd_system n) (nd_sends n) (tl (nd_hooks n)) (nd_runtime_actions n) (nd_clock n) (nd_plane_state n),
   match nd_hooks n with Some e :: _ => Err e | _ => Ok tt end).
Definition time_Now : ND Z := fun n =>
  (MkNode (nd_host n) (nd_out n) (nd_telemetry n) (nd_system n) (nd_sends n) (nd_hooks n) (nd_runtime_actions n) (tl (nd_clock n)) (nd_plane_state n),
   Ok (match nd_clock n with t :: _ => t | [] => 1 end)).
Definition runtime_action : ND (result Z) := fun n =>
  (MkNode (nd_host n) (nd_out n) (nd_telemetry n) (nd_system n) (nd_sends n) (nd_hooks n) (tl (nd_runtime_actions n)) (nd_clock n) (nd_plane_state n),
   Ok (match nd_runtime_actions n with r :: _ => r | [] => Ok 0 end)).
Definition plane_state : ND (option ObservedState) := fun n =>
  (MkNode (nd_host n) (nd_out n) (nd_telemetry n) (nd_system n) (nd_sends n) (nd_hooks n) (nd_runtime_actions n) (nd_clock n) (tl (nd_plane_state n)),
   Ok (match nd_plane_state n with o :: _ => o | [] => None end)).
Definition start_telemetry : ND unit := fun n =>
  (MkNode (nd_host n) (nd_out n) true (nd_system n) (nd_sends n) (nd_hooks n) (nd_runtime_actions n) (nd_clock n) (nd_plane_state n), Ok tt).
Definition telemetry_started : ND bool := fun n => (n, Ok (nd_telemetry n)).
Definition system_info : ND (option SystemInfo) := fun n => (n, Ok (nd_system n)).

Section Node.
Context `{!MapOrder, !SliceSort, !Crypto, !Unicode, !DocumentJSON, !Fold, !AEAD, !ErrorText, TN : !TempNames, !GrpcStatus, !TimeText}.
Context `{JS : !JSON DesiredSnapshot, JO : !JSON ObservedState, JC : !JSON (list string), !JSONAny}.
Context (c : SnapshotCache) (nodeID : string).

(** The engine, if the node has a behaviour. *)
Definition if_engine (m : RT unit) : ND unit :=
  h ← get_host; match rt_engine (hm_comp h) with Some _ => node_runtime m | None => mret tt end.
Definition node_BeginDrain : ND unit := if_engine begin_drain.
Definition node_EndDrain : ND unit := if_engine end_drain.

(** [CloseSessions] ends the sessions of the open generation and keeps its listeners: the
    state modelled here stays as it is. *)
Definition node_CloseSessions : ND unit := mret tt.

(** ** What the node reports *)
Definition merge_observed (observed : ObservedState) (system : option SystemInfo) (data : option ObservedState) : ObservedState :=
  let base := MkObservedState (Observed_SchemaVersion observed) (Observed_NodeID observed) (Observed_AppliedGeneration observed)
                (Observed_Healthy observed) (Observed_Degraded observed) (Observed_LastError observed)
                (Observed_Sessions observed) (Observed_Listeners observed) (Observed_Metrics observed) system (Observed_ObservedAt observed) in
  match data with
  | None => base
  | Some d =>
      let failing := (Observed_AppliedGeneration observed =? Observed_AppliedGeneration d) && negb (Observed_Healthy d) in
      MkObservedState (Observed_SchemaVersion observed) (Observed_NodeID observed) (Observed_AppliedGeneration observed)
        (if failing then false else Observed_Healthy observed) (if failing then true else Observed_Degraded observed) (Observed_LastError observed)
        (Observed_Sessions d) (Observed_Listeners d) (Observed_Metrics d) system (Observed_ObservedAt d)
  end.

Definition observedState : ND ObservedState :=
  h ← get_host; system ← system_info;
  match rt_engine (hm_comp h) with
  | None => mret (merge_observed (State (hm_rec h)) system None)
  | Some _ => data ← plane_state; mret (merge_observed (State (hm_rec h)) system data)
  end.

Definition sendObserved : ND unit :=
  observed ← observedState; now ← time_Now; later ← time_Now;
  wire ← lift (map_err (fun e => EWrap "encode observed state: %w" [] e) (ObservedToProto now later observed));
  send (ObservedMessage wire).

(** ** Actions *)
Definition runtimeActionAllows (action : Action) (capability : string) : bool :=
  match Action_PayloadJson action with
  | [] => false
  | payload => match json_unmarshal payload with Ok capabilities => in_strings capability capabilities | Err _ => false end
  end.

Definition action_session_ready (action : Action) : ND unit :=
  _ ← node_EndDrain;
  _ ← (if runtimeActionAllows action "runtime-telemetry-v1" then start_telemetry else mret tt);
  hook.

Definition action_runtime (action : Action) : ND unit :=
  h ← get_host; started ← telemetry_started;
  answer ← (match rt_engine (hm_comp h) with
            | None => mret (Err (ENew "data-plane runtime is not configured"))
            | Some _ => if negb started && String.eqb (Action_Name action) "runtime_connection"
                        then mret (Err (ENew "runtime control capability was not negotiated")) else runtime_action
            end);
  send (match answer with
        | Ok affected => ActionResultMessage (Action_Id action) (Action_Name action) affected None
        | Err e => ActionResultMessage (Action_Id action) (Action_Name action) 0 (Some (error_string e))
        end).

Definition action_resync : ND unit :=
  clock ← time_Now;
  result ← on_host (Resync c clock);
  _ ← (match Result_Status result with APPLY_STATUS_APPLIED => node_EndDrain | _ => mret tt end);
  send (ApplyResultMessage result).

Definition handle_action (action : Action) : ND unit :=
  let name := Action_Name action in
  if String.eqb name "session_ready" then action_session_ready action
  else if String.eqb name "node_upgrade" then hook
  else if String.eqb name "runtime_connection" || String.eqb name "clear_runtime_controls" then action_runtime action
  else if String.eqb name "drain" then node_BeginDrain
  else if String.eqb name "resync" then action_resync
  else if String.eqb name "reconnect" then _ ← node_BeginDrain; _ ← node_CloseSessions; fail (ENew "controller requested reconnect")
  else if String.eqb name "decommission" then _ ← node_BeginDrain; _ ← node_CloseSessions; fail ErrNodeDecommissioned
  else mret tt.

(** ** Desired snapshots *)
Definition applyError (err : error) : ApplyError := toApplyError err.

Definition handle_desired (desired : wire_snapshot) : ND unit :=
  match SnapshotFromProto (Some desired) with
  | Err decodeErr =>
      sent ← try (send (ApplyResultMessage (ApplyResult (WSnapshot_Generation desired) (WSnapshot_Checksum desired) REJECTED (Some (applyError decodeErr)))));
      match sent with Ok _ => fail decodeErr | Err sendErr => fail (EJoin decodeErr sendErr) end
  | Ok snapshot =>
      _ ← send (ApplyResultMessage (ApplyResult (WSnapshot_Generation desired) (WSnapshot_Checksum desired) APPLY_STATUS_ACCEPTED None));
      clock ← time_Now;
      result ← on_host (Apply c snapshot clock);
      _ ← send (ApplyResultMessage result);
      sendObserved
  end.

Definition handle_message (message : option controller_message) : ND unit :=
  match message with
  | None | Some EmptyMessage => fail (ENew "controller sent an empty control message")
  | Some (ActionMessage a) => handle_action a
  | Some (DesiredMessage w) => handle_desired w
  | Some CertificateMessage => hook
  end.

(** ** A connection *)
Record connection := MkConnection {
  cn_dial : option error; cn_renewal : option bytes; cn_messages : list (option controller_message); cn_end : error
}.

Fixpoint receive (messages : list (option controller_message)) (recv_end : error) : ND unit :=
  match messages with
  | [] => fail recv_end
  | m :: ms => _ ← handle_message m; receive ms recv_end
  end.

Definition locked_call {A} (f : reconciler -> reconciler * A) : ND A := on_host (locked f).

(** Dialing and opening the stream fail with [cn_dial]; [cn_renewal] is the request for a
    new certificate, when the old one is about to expire. *)
Definition runConnection (cn : connection) : ND unit :=
  match cn_dial cn with
  | Some e => fail e
  | None =>
      clock ← time_Now;
      named ← locked_call (SetNodeID nodeID clock);
      _ ← lift named;
      state ← observedState;
      h ← get_host;
      _ ← send (HelloMessage nodeID (Observed_AppliedGeneration state) (AppliedChecksum (hm_rec h)));
      now ← time_Now;
      _ ← locked_call (MarkConnected now now);
      _ ← (match cn_renewal cn with Some csr => send (RenewMessage csr) | None => mret tt end);
      _ ← sendObserved;
      receive (cn_messages cn) (cn_end cn)
  end.

(** ** Lifecycle *)
Record lifecycle := MkLifecycle { DecommissionMarkerPath : string; bootstrapPath : string }.

Definition decommissionMarkerPath (l : lifecycle) : string :=
  let marker := strings.TrimSpace (DecommissionMarkerPath l) in
  let bootstrap := strings.TrimSpace (bootstrapPath l) in
  if negb (String.eqb marker "") then filepath.Clean marker
  else if negb (String.eqb bootstrap "") then filepath.Clean bootstrap +:+ ".decommissioned" else "".

Definition hasDecommissionMarker (l : lifecycle) : IO bool :=
  let path := decommissionMarkerPath l in
  if String.eqb path "" then mret false else
  found ← try (os.Stat path);
  match found with Ok _ => mret true | Err e => if is_not_exist e then mret false else fail e end.

Definition newline : string := String "010" EmptyString.
Definition marker_content (now : Z) (reason : string) : bytes :=
  bytes_of ("decommissioned_at=" +:+ rfc3339nano now +:+ newline +:+ "reason=" +:+ reason +:+ newline).

Definition persistDecommissionMarker (l : lifecycle) (now : Z) (cause : error) : IO unit :=
  let path := decommissionMarkerPath l in
  if String.eqb path "" then mret tt else AtomicWrite path (marker_content now (error_string cause)).

Definition ClearDecommissionMarker (bootstrap : string) : IO unit :=
  let path := strings.TrimSpace bootstrap in
  if String.eqb path "" then mret tt else
  removed ← try (os.Remove (filepath.Clean path +:+ ".decommissioned"));
  match removed with Ok _ => mret tt | Err e => if is_not_exist e then mret tt else fail e end.

(** [strings.Contains]. *)
Definition contains (s sub : string) : bool := match String.index 0 sub s with Some _ => true | None => false end.

Definition isControllerIdentityRejection (err : error) : bool := permission_denied err.
Definition isControllerDecommissioned (err : error) : bool :=
  if error_is err "node has been decommissioned" then true
  else if negb (permission_denied err) then false
  else let message := to_lower (status_message err) in contains message "decommissioned" || contains message "not enrolled".

(** ** Run *)
Definition controllerReconnectInitialBackoff : Z := 1000000000.
Definition controllerReconnectMaxBackoff : Z := 5000000000.
Definition offlineGrace : Z := 30 * 1000000000.

Definition next_backoff (backoff : Z) : Z :=
  if backoff <? controllerReconnectMaxBackoff then Z.min (backoff * 2) controllerReconnectMaxBackoff else backoff.

(** How long the loop waits after a lost connection: the jittered backoff, but not past
    the end of the grace period. *)
Definition lost_wait (jittered now disconnectedSince : Z) : Z :=
  let remaining := offlineGrace - time_sub now disconnectedSince in
  if (remaining >? 0) && (remaining <? jittered) then remaining else jittered.

(** A round: the connection, its jitter, and whether the process is told to stop before
    the end of the connection or during the wait. *)
Record round := MkRound { rd_connection : connection; rd_jitter : Z -> Z; rd_cancelled : bool; rd_cancelled_waiting : bool }.

(** [Ended] is what [Run] returned; [Waiting] is a loop that goes on after the rounds. *)
Inductive run_end := Ended (r : result unit) | Waiting.

Definition identity_rejected (err : error) : bool := isControllerIdentityRejection err || error_is err "node has been decommissioned".

(** The Controller's authoritative rejection. *)
Definition stop_rejected (l : lifecycle) (err : error) : ND unit :=
  _ ← node_BeginDrain; _ ← node_CloseSessions;
  if isControllerDecommissioned err then
    now ← time_Now; marked ← try (node_files (persistDecommissionMarker l now err)); mret tt
  else mret tt.

Fixpoint run_rounds (l : lifecycle) (rounds : list round) (backoff disconnectedSince : Z) (waits : list Z) : ND (run_end * list Z) :=
  match rounds with
  | [] => mret (Waiting, waits)
  | rd :: rounds =>
      ended ← try (runConnection (rd_connection rd));
      if rd_cancelled rd then mret (Ended (Ok tt), waits) else
      match ended with
      | Err err =>
          if error_is err ErrNodeUpdateRestart then mret (Ended (Err err), waits)
          else if identity_rejected err then _ ← stop_rejected l err; mret (Ended (Ok tt), waits)
          else
            now ← time_Now;
            let since := if is_zero_time disconnectedSince then now else disconnectedSince in
            _ ← locked_call (MarkDisconnected now offlineGrace now);
            let wait := lost_wait (rd_jitter rd backoff) now since in
            if rd_cancelled_waiting rd then mret (Ended (Ok tt), waits) else
            later ← time_Now;
            _ ← (if time_sub later since >=? offlineGrace then
                   at_ ← time_Now; _ ← locked_call (MarkDisconnected at_ offlineGrace at_); mret tt else mret tt);
            run_rounds l rounds (next_backoff backoff) since (waits ++ [wait])
      | Ok _ =>
          let backoff := if backoff >? controllerReconnectInitialBackoff then controllerReconnectInitialBackoff else backoff in
          if rd_cancelled_waiting rd then mret (Ended (Ok tt), waits) else run_rounds l rounds backoff 0 (waits ++ [backoff])
      end
  end.

Definition set_running : RT unit := fun r =>
  (MkRuntime (rt_nodeID r) (rt_maxStreams r) (rt_maxSessions r) true (rt_engine r) (rt_plane r) (rt_builds r) (rt_tls r) (rt_ctx r), Ok tt).

(** The deferred [disableRuntime] runs whatever is returned. *)
Definition Run (l : lifecycle) (rounds : list round) : ND (run_end * list Z) :=
  r ← try (
    marked ← try (node_files (hasDecommissionMarker l));
    match marked with
    | Err e => mret (Ended (Err (EWrap "check node lifecycle marker: %w" [] e)), [])
    | Ok true => mret (Ended (Ok tt), [])
    | Ok false =>
        _ ← node_runtime set_running;
        h ← get_host;
        started ← try (match rt_engine (hm_comp h) with Some _ => node_runtime (plane_Start true) | None => mret tt end);
        match started with
        | Err e => mret (Ended (Err e), [])
        | Ok _ => run_rounds l rounds controllerReconnectInitialBackoff 0 []
        end
    end);
  match r with
  | Ok (Waiting, waits) => mret (Waiting, waits)
  | Ok (Ended e, waits) => _ ← node_runtime disableRuntime; mret (Ended e, waits)
  | Err e => _ ← node_runtime disableRuntime; fail e
  end.
End Node.

(** ** The key of the cache *)
Definition cache_key_size : nat := 32.

(** [random] is what the system's random source delivers first. *)
Definition loadOrCreateNodeKey `{TN : !TempNames} (path : string) (random : bytes) : IO bytes :=
  read ← try (os.ReadFile path);
  match read with
  | Ok data => if (List.length data =? cache_key_size)%nat then mret data else fail (ENew "node cache key must contain 32 bytes")
  | Err e =>
      if negb (is_not_exist e) then fail e
      else if (List.length random <? cache_key_size)%nat then fail (EExternal "rand.Reader") else
      let key := firstn cache_key_size random in
      tmpPath ← WriteTemp path ".node-key-*" key;
      finally (
        renamed ← try (os.Rename tmpPath path);
        match renamed with
        | Ok _ => mret key
        | Err err =>
            existing ← try (os.ReadFile path);
            match existing with
            | Ok data => if (List.length data =? cache_key_size)%nat then mret data else fail (EWrap "publish node cache key: %w" [] err)
            | Err _ => fail (EWrap "publish node cache key: %w" [] err)
            end
        end) (os.Remove tmpPath)
  end.
