(* ===== verification/NodeLoopFacts.v ===== *)
(** * What the control connection of a node guarantees

    The answers to a desired snapshot, the finality of a decommission, the bounds of the
    waits between connections, and the key of the cache. *)
From S2P Require Import Prelude GoStd Domain Checksum Validation Snapshot Samples SnapshotFacts Datagram Json Effects Engine Report Files FilesFacts Control ControlWire ControlWireFacts.
From S2P Require Import NodeCache NodeCacheFacts NodeRuntime NodeRuntimeFacts NodeLoop.

Section LoopFacts.
Context `{MO : !MapOrder, SS : !SliceSort, CR : !Crypto, UN : !Unicode, DJ : !DocumentJSON, FO : !Fold, AE : !AEAD, ET : !ErrorText, TN : !TempNames, GS : !GrpcStatus, TT : !TimeText}.
Context `{JS : !JSON DesiredSnapshot, JO : !JSON ObservedState, JC : !JSON (list string), JA : !JSONAny}.
Context (c : SnapshotCache) (nodeID : string).
Hypothesis temp_other : forall pattern d, temp_name (cache_path c) pattern d <> cache_path c.

(** ** Desired snapshots *)
Lemma send_granted m n : nd_sends n = [] -> send m n =
  (MkNode (nd_host n) (nd_out n ++ [m]) (nd_telemetry n) (nd_system n) [] (nd_hooks n) (nd_runtime_actions n) (nd_clock n) (nd_plane_state n), Ok tt).
Proof. unfold send. by intros ->. Qed.

Lemma observed_quiet n n' r : observedState n = (n', r) -> nd_out n' = nd_out n /\ nd_sends n' = nd_sends n /\ nd_host n' = nd_host n /\ is_Ok r = true.
Proof.
  unfold observedState, get_host, system_info, plane_state. cbv [mbind M_bind mret M_ret]. destruct (rt_engine _); intros [= <- <-]; done.
Qed.

Lemma sendObserved_run n n' r : nd_sends n = [] -> sendObserved n = (n', r) ->
  nd_host n' = nd_host n /\ match r with Ok _ => exists wire, nd_out n' = nd_out n ++ [ObservedMessage wire] | Err _ => nd_out n' = nd_out n end.
Proof.
  intros Hs H. unfold sendObserved in H. apply M_bind_run in H as [(o & n1 & H1 & H)|(e & H1 & _)]; apply observed_quiet in H1 as (Ho & Hs1 & Hh & Hok); [|done].
  apply M_bind_run in H as [(now & n2 & H2 & H)|(e & H2 & _)]; [|done]. injection H2 as <- <-. apply M_bind_run in H as [(later & n3 & H3 & H)|(e & H3 & _)]; [|done]. injection H3 as <- <-.
  apply M_bind_run in H as [(wire & n4 & H4 & H)|(e & H4 & ->)]; unfold lift in H4; injection H4 as <- H4; [|by rewrite <- Ho].
  rewrite send_granted in H by (cbn; congruence). injection H as <- <-. cbn. split; [done|]. exists wire. by rewrite Ho.
Qed.

(** The node answers a desired snapshot as the protocol says.  One that does not
    decode is never acknowledged: it is answered REJECTED under the generation and
    checksum of its envelope, changes nothing, and ends the connection.  One that decodes
    is answered ACCEPTED, then with the outcome of applying it, and then the state the
    node is in is reported, unless it cannot be encoded. *)
Theorem desired_snapshot_answers desired n n' r :
  nd_sends n = [] -> handle_desired c desired n = (n', r) ->
  match SnapshotFromProto (Some desired) with
  | Err decodeErr => r = Err decodeErr /\ nd_host n' = nd_host n
      /\ nd_out n' = nd_out n ++ [ApplyResultMessage (ApplyResult (WSnapshot_Generation desired) (WSnapshot_Checksum desired) REJECTED (Some (applyError decodeErr)))]
  | Ok snapshot => exists clock answer, snd (Apply c snapshot clock (nd_host n)) = Ok answer /\ nd_host n' = fst (Apply c snapshot clock (nd_host n))
      /\ let accepted := ApplyResultMessage (ApplyResult (WSnapshot_Generation desired) (WSnapshot_Checksum desired) APPLY_STATUS_ACCEPTED None) in
         (r = Ok tt /\ exists wire, nd_out n' = nd_out n ++ [accepted; ApplyResultMessage answer; ObservedMessage wire])
         \/ (exists e, r = Err e) /\ nd_out n' = nd_out n ++ [accepted; ApplyResultMessage answer]
  end.
Proof.
  intros Hs H. unfold handle_desired in H. destruct (SnapshotFromProto (Some desired)) as [snapshot|decodeErr].
  2: { apply M_bind_run in H as [(a & n1 & H1 & H)|(e & H1 & _)]; unfold try in H1; rewrite send_granted in H1 by done; [|done].
       injection H1 as <- <-. injection H as <- <-. done. }
  apply M_bind_run in H as [([] & n1 & H1 & H)|(e & H1 & _)]; rewrite send_granted in H1 by done; [|done]. injection H1 as <-.
  apply M_bind_run in H as [(clock & n2 & H2 & H)|(e & H2 & _)]; [|done]. injection H2 as <- <-.
  match type of H with context [Apply c snapshot ?k] => set (clock := k) in * end. exists clock.
  destruct (Apply_answers c temp_other snapshot clock (nd_host n)) as (h' & answer & Ha & _). exists answer. rewrite Ha. cbn [fst snd]. split; [done|].
  apply M_bind_run in H as [(a & n3 & H3 & H)|(e & H3 & _)]; unfold on_host in H3; cbn [nd_host] in H3; rewrite Ha in H3; [|done]. injection H3 as <- <-.
  apply M_bind_run in H as [([] & n4 & H4 & H)|(e & H4 & _)]; rewrite send_granted in H4 by done; [|done]. injection H4 as <-.
  apply sendObserved_run in H as [Hh Ho]; [|done]. cbn in Hh, Ho. split; [done|]. cbv zeta. destruct r as [[]|e].
  - left. split; [done|]. destruct Ho as [wire Ho]. exists wire. by rewrite Ho, <- !app_assoc.
  - right. split; [by exists e|]. by rewrite Ho, <- !app_assoc.
Qed.

(** ** Draining on a rejection *)
Lemma node_runtime_run {A} (m : RT A) n n' r : node_runtime m n = (n', r) -> hm_files (nd_host n') = hm_files (nd_host n) /\ nd_out n' = nd_out n
  /\ m (hm_comp (nd_host n)) = (hm_comp (nd_host n'), r).
Proof.
  unfold node_runtime, on_host, on_comp. destruct (m (hm_comp (nd_host n))) as [x y] eqn:E. intros [= <- <-]. done.
Qed.

Lemma node_BeginDrain_run n n' r : node_BeginDrain n = (n', r) -> r = Ok tt /\ drained (hm_comp (nd_host n')) /\ hm_files (nd_host n') = hm_files (nd_host n) /\ nd_out n' = nd_out n.
Proof.
  unfold node_BeginDrain, if_engine. intros H. apply M_bind_run in H as [(h & n1 & H1 & H)|(e & H1 & _)]; [|done]. injection H1 as <- <-.
  destruct (rt_engine (hm_comp (nd_host n))) as [e|] eqn:He.
  - apply node_runtime_run in H as (Hf & Ho & Hm). unfold begin_drain, on_engine in Hm. rewrite He in Hm. injection Hm as Hc <-. split_and!; try done.
    rewrite <- Hc. by intros e' [= <-].
  - injection H as <- <-. split_and!; try done. intros e' He'. congruence.
Qed.

(** ** Decommission *)
Lemma node_files_run {A} (m : IO A) n n' r : node_files m n = (n', r) ->
  exists w', m (hm_files (nd_host n)) = (w', r) /\ hm_files (nd_host n') = w' /\ hm_comp (nd_host n') = hm_comp (nd_host n) /\ nd_out n' = nd_out n.
Proof.
  unfold node_files, on_host, on_files. destruct (m (hm_files (nd_host n))) as [w x] eqn:E. intros [= <- <-]. by exists w.
Qed.

Definition marked (l : lifecycle) (d : files) : Prop := is_Some (d !! decommissionMarkerPath l).

Lemma stop_rejected_run l err n n' r :
  decommissionMarkerPath l <> "" -> (forall d, temp_name (decommissionMarkerPath l) tempPrefix d <> decommissionMarkerPath l) ->
  oracle (hm_files (nd_host n)) = [] -> isControllerDecommissioned err = true -> stop_rejected l err n = (n', r) ->
  r = Ok tt /\ marked l (disk (hm_files (nd_host n'))) /\ oracle (hm_files (nd_host n')) = [] /\ drained (hm_comp (nd_host n')) /\ nd_out n' = nd_out n.
Proof.
  intros Hp Hne Ho Hd H. unfold stop_rejected in H. rewrite Hd in H.
  apply M_bind_run in H as [([] & n1 & H1 & H)|(e & H1 & _)]; apply node_BeginDrain_run in H1 as (E1 & Hd1 & Hf1 & Ho1); [clear E1|done].
  apply M_bind_run in H as [([] & n2 & H2 & H)|(e & H2 & _)]; [|done]. injection H2 as <-.
  apply M_bind_run in H as [(now & n3 & H3 & H)|(e & H3 & _)]; [|done]. injection H3 as <- <-.
  apply M_bind_run in H as [(x & n4 & H4 & H)|(e & H4 & _)]; unfold try in H4; destruct (node_files _ _) as [n5 y] eqn:E5 in H4; [|done]. injection H4 as <- <-. injection H as <- <-.
  apply node_files_run in E5 as (w' & Hw & Hf & Hc & Hout). unfold persistDecommissionMarker in Hw. apply String.eqb_neq in Hp. rewrite Hp in Hw.
  cbn [nd_host hm_files] in Hw. rewrite Hf1 in Hw.
  match type of Hw with AtomicWrite _ ?data _ = _ => destruct (grants_AtomicWrite (decommissionMarkerPath l) data Hne (hm_files (nd_host n)) Ho I) as ([] & w1 & Hg & Hog & _ & Hq) end.
  rewrite Hg in Hw. injection Hw as <- <-. rewrite Hf, Hc. split_and!; try done; [unfold marked; eauto | by rewrite Hout].
Qed.

(** A decommission is final.  When a connection ends because the Controller
    decommissioned the node, [Run] stops without an error, with the data plane drained
    and the marker on the disk; no process that starts on that disk ever contacts the
    Controller again, whatever would arrive. *)
Theorem decommission_is_final l rd rounds backoff since waits n n1 err :
  decommissionMarkerPath l <> "" -> (forall d, temp_name (decommissionMarkerPath l) tempPrefix d <> decommissionMarkerPath l) ->
  runConnection c nodeID (rd_connection rd) n = (n1, Err err) -> rd_cancelled rd = false ->
  error_is err ErrNodeUpdateRestart = false -> isControllerDecommissioned err = true -> oracle (hm_files (nd_host n1)) = [] ->
  exists n2, run_rounds c nodeID l (rd :: rounds) backoff since waits n = (n2, Ok (Ended (Ok tt), waits)) /\ drained (hm_comp (nd_host n2))
    /\ forall rounds' n3, disk (hm_files (nd_host n3)) = disk (hm_files (nd_host n2)) -> oracle (hm_files (nd_host n3)) = [] ->
         exists n4, Run c nodeID l rounds' n3 = (n4, Ok (Ended (Ok tt), [])) /\ nd_out n4 = nd_out n3.
Proof.
  intros Hp Hne Hc Hcan Hre Hdec Ho. destruct (stop_rejected l err n1) as [n2 r] eqn:Hstop.
  destruct (stop_rejected_run l err n1 n2 r Hp Hne Ho Hdec Hstop) as (-> & Hm & Ho2 & Hd & Hout).
  assert (Hrej : identity_rejected err = true).
  { unfold identity_rejected, isControllerDecommissioned, isControllerIdentityRejection in *. destruct (error_is err "node has been decommissioned"); [apply orb_true_r|].
    by destruct (permission_denied err). }
  exists n2. split_and!; [|done|].
  - cbn [run_rounds]. unfold try. cbv [mbind M_bind]. rewrite Hc, Hcan, Hre, Hrej, Hstop. done.
  - intros rounds' n3 Hdisk Ho3. unfold Run. set (body := (marked0 ← _; _)).
    assert (Hb : exists n5, body n3 = (n5, Ok (Ended (Ok tt), [])) /\ nd_out n5 = nd_out n3).
    { unfold body, hasDecommissionMarker. apply String.eqb_neq in Hp. rewrite Hp. destruct Hm as [data Hm]. rewrite <- Hdisk in Hm.
      unfold try, node_files, on_host, on_files, os.Stat, syscall, ask, get_disk. cbv [mbind M_bind mret M_ret]. rewrite Ho3. cbn. rewrite Hm. cbn. by eexists. }
    destruct Hb as (n5 & Hb & Ho5). unfold try. cbv [mbind M_bind]. rewrite Hb. unfold node_runtime, on_host, on_comp, disableRuntime. cbn. by eexists.
Qed.

(** ** Waits *)
Definition backoff_in (b : Z) : Prop := controllerReconnectInitialBackoff <= b <= controllerReconnectMaxBackoff.
(** [jitteredControllerReconnectDelay]: within a fifth of the backoff. *)
Definition jitter_ok (rd : round) : Prop := forall b, 0 < b -> 4 * b <= 5 * rd_jitter rd b <= 6 * b.
Definition wait_ok (w : Z) : Prop := 0 < w <= 6000000000.

Lemma next_backoff_in b : backoff_in b -> backoff_in (next_backoff b).
Proof. unfold backoff_in, next_backoff, controllerReconnectInitialBackoff, controllerReconnectMaxBackoff. intros H. destruct (Z.ltb_spec b 5000000000); lia. Qed.

Lemma lost_wait_ok rd b now since : jitter_ok rd -> backoff_in b -> wait_ok (lost_wait (rd_jitter rd b) now since).
Proof.
  unfold backoff_in, wait_ok, lost_wait, controllerReconnectInitialBackoff, controllerReconnectMaxBackoff. intros Hj Hb. specialize (Hj b ltac:(lia)).
  destruct (_ && _) eqn:E; bool_facts; lia.
Qed.

Lemma lift_result_bind {A B} (m : ND A) (f : result A -> ND B) n n' r : (x ← try m; f x) n = (n', r) -> exists n1 y, m n = (n1, y) /\ f y n1 = (n', r).
Proof. unfold try. cbv [mbind M_bind]. destruct (m n) as [n1 y]. eauto. Qed.

(** The node never retries in a tight loop and never stays away: every wait between
    two connections is positive and at most six seconds, however many connections fail. *)
Theorem waits_are_bounded l rounds : forall backoff since waits n n' e waits',
  backoff_in backoff -> Forall jitter_ok rounds -> Forall wait_ok waits ->
  run_rounds c nodeID l rounds backoff since waits n = (n', Ok (e, waits')) -> Forall wait_ok waits' /\ (List.length waits' <= List.length waits + List.length rounds)%nat.
Proof.
  induction rounds as [|rd rounds IH]; intros backoff since waits n n' e waits' Hb Hj Hw H; cbn [run_rounds] in H.
  { injection H as _ _ <-. split; [done | cbn; lia]. }
  apply Forall_cons in Hj as [Hj Hjs]. apply lift_result_bind in H as (n1 & ended & _ & H).
  destruct (rd_cancelled rd); [injection H as _ _ <-; split; [done | cbn; lia]|]. destruct ended as [[]|err].
  - set (b := if backoff >? controllerReconnectInitialBackoff then _ else _) in H.
    assert (Hb' : backoff_in b) by (subst b; unfold backoff_in, controllerReconnectInitialBackoff, controllerReconnectMaxBackoff in *; destruct (Z.gtb_spec backoff 1000000000); lia).
    destruct (rd_cancelled_waiting rd); [injection H as _ _ <-; split; [done | cbn; lia]|].
    apply IH in H; [rewrite length_app in H; cbn in *; split; [apply H | lia] | done | done |].
    apply Forall_app. split; [done|]. constructor; [|done]. unfold wait_ok, backoff_in, controllerReconnectInitialBackoff, controllerReconnectMaxBackoff in *. lia.
  - destruct (error_is err _); [injection H as _ _ <-; split; [done | cbn; lia]|]. destruct (identity_rejected err).
    { apply M_bind_run in H as [([] & n2 & _ & H)|(x & _ & [=])]. injection H as _ _ <-. split; [done | cbn; lia]. }
    apply M_bind_run in H as [(now & n2 & _ & H)|(x & _ & [=])]. apply M_bind_run in H as [(o & n3 & _ & H)|(x & _ & [=])].
    destruct (rd_cancelled_waiting rd); [injection H as _ _ <-; split; [done | cbn; lia]|].
    apply M_bind_run in H as [(later & n4 & _ & H)|(x & _ & [=])]. apply M_bind_run in H as [([] & n5 & _ & H)|(x & _ & [=])].
    apply IH in H; [rewrite length_app in H; cbn in *; split; [apply H | lia] | by apply next_backoff_in | done |].
    apply Forall_app. split; [done|]. constructor; [by apply lost_wait_ok | done].
Qed.
End LoopFacts.

(** ** The key of the cache *)
Section Key.
Context `{TN : !TempNames} (path : string) (random : bytes).
Hypothesis temp_other : forall pattern d, temp_name path pattern d <> path.

Definition whole_key (d : files) : Prop := d !! path = None \/ exists k, d !! path = Some k /\ List.length k = cache_key_size.
Definition key_of (r : result bytes) (d : files) : Prop :=
  match r with Ok k => List.length k = cache_key_size /\ d !! path = Some k | Err _ => whole_key d end.

Lemma keeps_key old : (forall k, old = Some k -> List.length k = cache_key_size) ->
  keeps whole_key (fun d => d !! path = old) (loadOrCreateNodeKey path random) key_of.
Proof.
  intros Hold. assert (Hw : forall d, d !! path = old -> whole_key d).
  { intros d Hd. destruct old as [k|]; [right; exists k; split; [done | by apply Hold] | by left]. }
  unfold loadOrCreateNodeKey. eapply keeps_bind with (K := fun r d => d !! path = old /\ match r with Ok k => d !! path = Some k | Err _ => True end).
  { apply keeps_try, keeps_ReadFile; [intros d k Hd Hk; by split | intros d e Hd; by split]. }
  intros [k|e].
  { destruct (Nat.eqb_spec (List.length k) cache_key_size); [apply keeps_ret; by intros d [_ ?] | apply keeps_fail; intros d [? _]; by apply Hw]. }
  destruct (negb (is_not_exist e)); [apply keeps_fail; intros d [? _]; by apply Hw|].
  destruct (Nat.ltb_spec (List.length random) cache_key_size) as [|Hr]; [apply keeps_fail; intros d [? _]; by apply Hw|].
  set (key := firstn cache_key_size random). assert (Hlen : List.length key = cache_key_size) by (unfold key; rewrite length_firstn; lia).
  assert (Hallow : forall d, not_torn path key old d -> whole_key d).
  { intros d [Hd|[Hd|[Hd _]]]; [by apply Hw | right; by exists key | by left]. }
  eapply keeps_bind with (K := fun tmp d => d !! path = old /\ tmp <> path /\ d !! tmp = Some key).
  { eapply keeps_weaken; [apply (keeps_WriteTemp path key old temp_other whole_key Hallow ".node-key-*")|by intros d [? _]|].
    intros [tmp|e'] d [Hd Ht]; [by destruct Ht | by apply Hw]. }
  intros tmp. apply (keeps_finally _ _ (fun r d => tmp <> path /\ key_of r d)).
  - eapply keeps_bind with (K := fun r d => tmp <> path /\ match r with Ok _ => d !! path = Some key | Err _ => d !! path = old end).
    { apply keeps_try, keeps_Rename.
      - intros d x (Hd & Hne & Ht) Hx. assert (x = key) as -> by congruence. split; [right; exists key; split; [apply lookup_insert_eq | done]|].
        split; [done | apply lookup_insert_eq].
      - intros d e' (Hd & Hne & _). by split. }
    intros [[]|err]; [apply keeps_ret; by intros d [? ?]|].
    eapply keeps_bind with (K := fun r d => (tmp <> path /\ d !! path = old) /\ match r with Ok k => d !! path = Some k | Err _ => True end).
    { apply keeps_try, keeps_ReadFile; [intros d k Hd Hk; by split | intros d e' Hd; by split]. }
    intros [k|e']; [|apply keeps_fail; intros d [[? ?] _]; split; [done | by apply Hw]].
    destruct (Nat.eqb_spec (List.length k) cache_key_size); [apply keeps_ret; by intros d [[? _] ?] | apply keeps_fail; intros d [[? ?] _]; split; [done | by apply Hw]].
  - intros r. eapply keeps_weaken; [apply (keeps_Remove_other whole_key (fun d => tmp <> path /\ key_of r d))|done|].
    + intros d [Hne Hk]. split; [done|]. unfold key_of, whole_key in *. rewrite lookup_delete_ne by done. exact Hk.
    + intros d [_ Hk]. destruct r as [k|e']; [right; exists k; by destruct Hk | exact Hk].
    + intros r' d [_ Hk]. exact Hk.
Qed.

(** The key of the cache is created whole or not at all: at every point where the
    process can stop, and after every failing call, the key file is absent or holds 32
    bytes, and a key that was returned is the one on the disk, which every later start
    reads. *)
Theorem node_key_whole d os :
  (forall k, d !! path = Some k -> List.length k = cache_key_size) ->
  let '(w, r) := loadOrCreateNodeKey path random (MkWorld d os [] []) in
  Forall whole_key (history w) /\ key_of r (disk w).
Proof.
  intros Hd. pose proof (keeps_key (d !! path) Hd (MkWorld d os [] []) (conj (Forall_nil_2 _) eq_refl)) as Hk.
  destruct (loadOrCreateNodeKey path random _) as [w r]. exact Hk.
Qed.
End Key.

(** ** A node at which the hypotheses hold *)
Definition no_status : GrpcStatus := {| permission_denied _ := false; status_message _ := "" |}.
Definition no_times : TimeText := {| rfc3339nano _ := "2026-01-01T00:00:00Z" |}.
Definition sample_capabilities : JSON (list string) := one_json ["runtime-telemetry-v1"].
Definition sample_host : host Runtime :=
  MkHost empty_world node_random (@initial_reconciler toy_texts 4 (Err ErrNoSnapshot)) (fresh_node []) [].
Definition sample_node_process : node := MkNode sample_host [] false None [] [] [] [] [].
Definition sample_json_observed : JSON ObservedState := one_json (observed_stamped 77 sample_observed).

Abbreviation sample_loop l rounds n :=
  (@run_rounds go_order insertion_slice_sort toy_crypto ascii_unicode toy_json hex_fold toy_aead toy_texts (other_names "/marker") no_status no_times
    node_json sample_json_observed sample_capabilities end_any node_cache "gw-1" l rounds controllerReconnectInitialBackoff 0 [] n).
Definition sample_lifecycle : lifecycle := MkLifecycle "/marker" "".
Definition sample_round (messages : list (option controller_message)) : round :=
  MkRound (MkConnection None None messages (EExternal "io.EOF")) (fun b => b) false false.

Lemma desired_snapshot_answers_witness :
  exists n, @handle_desired go_order insertion_slice_sort toy_crypto ascii_unicode toy_json hex_fold toy_aead toy_texts (other_names "/c") node_json sample_json_observed end_any
      node_cache (MkWireSnapshot 9 "gw-1" 1 "00" one_document) sample_node_process = (n, Err (apply_error "unknown_schema" "schema_version" "unknown schema"))
    /\ nd_host n = sample_host.
Proof.
  destruct (@handle_desired go_order insertion_slice_sort toy_crypto ascii_unicode toy_json hex_fold toy_aead toy_texts (other_names "/c") node_json sample_json_observed end_any
      node_cache (MkWireSnapshot 9 "gw-1" 1 "00" one_document) sample_node_process) as [n r] eqn:E.
  assert (Hd : @SnapshotFromProto go_order insertion_slice_sort toy_crypto ascii_unicode toy_json hex_fold node_json end_any (Some (MkWireSnapshot 9 "gw-1" 1 "00" one_document))
    = Err (apply_error "unknown_schema" "schema_version" "unknown schema")) by (vm_compute; reflexivity).
  pose proof (@desired_snapshot_answers go_order insertion_slice_sort toy_crypto ascii_unicode toy_json hex_fold toy_aead toy_texts (other_names "/c") node_json sample_json_observed end_any
      node_cache (other_names_other "/c") (MkWireSnapshot 9 "gw-1" 1 "00" one_document) sample_node_process n r eq_refl E) as Ha.
  rewrite Hd in Ha. destruct Ha as (-> & Hh & _).
  exists n. split; [reflexivity | exact Hh].
Defined.

Definition decommissioned_round : round := sample_round [Some (ActionMessage (MkAction "1" "decommission" []))].

Lemma decommission_is_final_witness :
  exists n2, sample_loop sample_lifecycle [decommissioned_round] sample_node_process = (n2, Ok (Ended (Ok tt), [])) /\ drained (hm_comp (nd_host n2)).
Proof.
  destruct (@runConnection go_order insertion_slice_sort toy_crypto ascii_unicode toy_json hex_fold toy_aead toy_texts (other_names "/marker")
    node_json sample_json_observed sample_capabilities end_any node_cache "gw-1" (rd_connection decommissioned_round) sample_node_process) as [n1 r] eqn:E.
  assert (Hr : r = Err ErrNodeDecommissioned).
  { assert (Hx : snd (@runConnection go_order insertion_slice_sort toy_crypto ascii_unicode toy_json hex_fold toy_aead toy_texts (other_names "/marker")
      node_json sample_json_observed sample_capabilities end_any node_cache "gw-1" (rd_connection decommissioned_round) sample_node_process) = Err ErrNodeDecommissioned) by (vm_compute; reflexivity).
    rewrite E in Hx. exact Hx. }
  assert (Ho : oracle (hm_files (nd_host n1)) = []).
  { assert (Hx : oracle (hm_files (nd_host (fst (@runConnection go_order insertion_slice_sort toy_crypto ascii_unicode toy_json hex_fold toy_aead toy_texts (other_names "/marker")
      node_json sample_json_observed sample_capabilities end_any node_cache "gw-1" (rd_connection decommissioned_round) sample_node_process)))) = []) by (vm_compute; reflexivity).
    rewrite E in Hx. exact Hx. }
  subst r. destruct (@decommission_is_final go_order insertion_slice_sort toy_crypto ascii_unicode toy_json hex_fold toy_aead toy_texts (other_names "/marker") no_status no_times
    node_json sample_json_observed sample_capabilities end_any node_cache "gw-1" sample_lifecycle decommissioned_round [] controllerReconnectInitialBackoff 0 []
    sample_node_process n1 ErrNodeDecommissioned) as (n2 & H2 & Hd & _).
  - vm_compute. discriminate.
  - intros d. exact (other_names_other "/marker" tempPrefix d).
  - exact E.
  - reflexivity.
  - reflexivity.
  - reflexivity.
  - exact Ho.
  - exists n2. split; [exact H2 | exact Hd].
Defined.

(** Three lost connections. *)
Lemma waits_are_bounded_witness :
  exists waits, snd (sample_loop sample_lifecycle [sample_round []; sample_round []; sample_round []] sample_node_process) = Ok (Waiting, waits) /\ Forall wait_ok waits.
Proof.
  destruct (sample_loop sample_lifecycle [sample_round []; sample_round []; sample_round []] sample_node_process) as [n' r] eqn:E.
  destruct r as [[e waits]|err].
  2: { exfalso. assert (Hx : is_Ok (snd (sample_loop sample_lifecycle [sample_round []; sample_round []; sample_round []] sample_node_process)) = true) by (vm_compute; reflexivity).
       rewrite E in Hx. discriminate Hx. }
  exists waits. split.
  - assert (Hx : match snd (sample_loop sample_lifecycle [sample_round []; sample_round []; sample_round []] sample_node_process) with Ok (Waiting, _) => true | _ => false end = true) by (vm_compute; reflexivity).
    rewrite E in Hx. cbn [snd] in Hx |- *. destruct e; [discriminate Hx | reflexivity].
  - refine (proj1 (@waits_are_bounded go_order insertion_slice_sort toy_crypto ascii_unicode toy_json hex_fold toy_aead toy_texts (other_names "/marker") no_status no_times
      node_json sample_json_observed sample_capabilities end_any node_cache "gw-1" sample_lifecycle [sample_round []; sample_round []; sample_round []]
      controllerReconnectInitialBackoff 0 [] sample_node_process n' e waits _ _ _ E)).
    + unfold backoff_in, controllerReconnectInitialBackoff, controllerReconnectMaxBackoff. lia.
    + repeat constructor; unfold jitter_ok; cbn; lia.
    + constructor.
Defined.

Lemma node_key_whole_witness :
  let '(w, r) := @loadOrCreateNodeKey (other_names "/key") "/key" (replicate 40 "r"%char) (MkWorld ∅ [Done; Done; Done; Done; Stops 7] [] []) in
  Forall (whole_key "/key") (history w) /\ key_of "/key" r (disk w).
Proof.
  apply (@node_key_whole (other_names "/key") "/key" (replicate 40 "r"%char)).
  - intros pattern d. apply other_names_other.
  - intros k Hk. rewrite lookup_empty in Hk. discriminate Hk.
Defined.
