(* ===== verification/Telemetry.v ===== *)
(** * Runtime telemetry of a node (src/internal/node: runtime_limiter.go,
      runtime_telemetry_registry.go, runtime_telemetry_actions.go, runtime_control.go)

    The registry of live connections, its bounded queue of events, the byte limits an
    operator sets, and the batches that carry both to the Controller.  A connection is
    a location of [entries], because goroutines keep pointers to it after it has left
    the table; likewise a limiter.  Each operation is written over the sections that run
    under one lock, so that the sections of several goroutines can be interleaved.
    Oracles of the state: the random source, the clock, and the context of an action. *)
From S2P Require Import Prelude GoStd GoNet Domain Checksum Validation Snapshot Report Datagram Json Effects.
From Stdlib Require Import SpecFloat.
Import netip.

(** ** float64 *)
Definition fadd := SFadd 53 1024.
Definition fsub := SFsub 53 1024.
Definition fmul := SFmul 53 1024.
Definition fdiv := SFdiv 53 1024.
Definition Second : Z := 1000000000.
Definition Millisecond : Z := 1000000.

(** [time.Duration.Seconds]. *)
Definition Seconds (d : Z) : spec_float :=
  fadd (float_of_Z (Z.quot d Second)) (fdiv (float_of_Z (Z.rem d Second)) (float_of_Z Second)).

(** The conversion to a 64-bit integer truncates; its value out of range depends on the
    implementation. *)
Class FloatOverflow := { float_overflow : spec_float -> Z }.

Definition float_to_int `{FV : !FloatOverflow} (x : spec_float) : Z :=
  match x with
  | S754_zero _ => 0
  | S754_finite s m e =>
      let magnitude := if 0 <=? e then Z.pos m * 2 ^ e else Z.pos m / 2 ^ (- e) in
      let t := if s then - magnitude else magnitude in
      if (- 2 ^ 63 <=? t) && (t <? 2 ^ 63) then t else float_overflow x
  | _ => float_overflow x
  end.

(** ** The token bucket *)
Record runtimeLimiter := MkLimiter { rate : spec_float; burst : spec_float; tokens : spec_float; last_refill : Z }.

Definition newRuntimeLimiter (bytesPerSecond burstBytes now : Z) : option runtimeLimiter :=
  if bytesPerSecond =? 0 then None else
  let b := if burstBytes =? 0 then bytesPerSecond else burstBytes in
  let b := if b >? 2 ^ 63 - 1 then 2 ^ 63 - 1 else b in
  Some (MkLimiter (float_of_Z bytesPerSecond) (float_of_Z b) (float_of_Z b) now).

Definition refill (l : runtimeLimiter) (now : Z) : runtimeLimiter :=
  let elapsed := Seconds (time_sub now (last_refill l)) in
  if SFltb (float_of_Z 0) elapsed then
    let t := fadd (tokens l) (fmul elapsed (rate l)) in
    MkLimiter (rate l) (burst l) (if SFltb (burst l) t then burst l else t) now
  else l.

Section Limiter.
Context `{FV : !FloatOverflow}.

(** One turn under the lock: the bytes are granted, or the time to wait. *)
Definition take (l : runtimeLimiter) (chunk now : Z) : runtimeLimiter * option Z :=
  let l := refill l now in
  if SFleb (float_of_Z chunk) (tokens l) then
    (MkLimiter (rate l) (burst l) (fsub (tokens l) (float_of_Z chunk)) (last_refill l), None)
  else
    let wait := float_to_int (fmul (fdiv (fsub (float_of_Z chunk) (tokens l)) (rate l)) (float_of_Z Second)) in
    (l, Some (if wait <? Millisecond then Millisecond else wait)).

(** What happens around a turn: the takes of other writers before it, the clock, and
    whether the connection is cancelled before the timer fires. *)
Record turn := MkTurn { turn_others : list (Z * Z); turn_now : Z; turn_cancelled : option error }.

Inductive waited := Granted | Stopped (err : error) | Waiting.

Definition other_takes (others : list (Z * Z)) (l : runtimeLimiter) : runtimeLimiter :=
  fold_left (fun l '(chunk, now) => fst (take l chunk now)) others l.

Fixpoint wait_chunk (chunk : Z) (turns : list turn) (l : runtimeLimiter) : runtimeLimiter * list turn * waited :=
  match turns with
  | [] => (l, [], Waiting)
  | t :: turns =>
      let '(l, w) := take (other_takes (turn_others t) l) chunk (turn_now t) in
      match w with
      | None => (l, turns, Granted)
      | Some _ => match turn_cancelled t with Some err => (l, turns, Stopped err) | None => wait_chunk chunk turns l end
      end
  end.

Definition next_chunk (l : runtimeLimiter) (remaining : Z) : Z :=
  let maximum := float_to_int (burst l) in
  if (maximum >? 0) && (remaining >? maximum) then maximum else remaining.

(** The chunks granted, in order. *)
Fixpoint wait_all (fuel : nat) (remaining : Z) (turns : list turn) (l : runtimeLimiter) : runtimeLimiter * list Z * waited :=
  match fuel with
  | O => (l, [], Waiting)
  | S fuel =>
      if remaining <=? 0 then (l, [], Granted) else
      let chunk := next_chunk l remaining in
      let '(l, turns, r) := wait_chunk chunk turns l in
      match r with
      | Granted => let '(l, granted, r) := wait_all fuel (remaining - chunk) turns l in (l, chunk :: granted, r)
      | _ => (l, [], r)
      end
  end.

(** Every chunk has a byte, so that many rounds are enough. *)
Definition wait (bytes : Z) (turns : list turn) (l : runtimeLimiter) : runtimeLimiter * list Z * waited :=
  wait_all (S (Z.to_nat bytes)) bytes turns l.
End Limiter.

(** ** The registry *)
Definition runtimeEventQueueLimit : Z := 4096.
Definition runtimeConnectionLimit : Z := 4096.
Definition runtimeActionMaxMatches : Z := 4096.
Definition defaultRuntimeLimitTTL : Z := 3600 * Second.

Definition RuntimeConnectionSession := "session".
Definition RuntimeConnectionTCP := "tcp".
Definition RuntimeConnectionUDP := "udp_flow".
Definition RuntimeConnectionEgress := "egress".
Definition RuntimeStateActive := "active".
Definition RuntimeStateClosed := "closed".
Definition RuntimeCloseOperator := "operator_disconnect".
Definition RuntimeCloseUnknown := "closed".
Definition RuntimeEventOpened := "opened".
Definition RuntimeEventClosed := "closed".
Definition RuntimeEventRateLimited := "rate_limited".

(** [owner] is the generation of the data plane; [has_closer] whether the opener gave a
    function that closes the transport; [cancelled] the context of the connection. *)
Record runtimeConnection := MkTracked {
  owner : Z; has_closer : bool; meta : RuntimeConnection; closed : bool;
  limitIn : option nat; limitOut : option nat; cancelled : bool
}.

(** [closers] are the transports closed, in order. *)
Record runtimeTelemetry := MkTelemetry {
  entries : list runtimeConnection; limiters : list runtimeLimiter;
  connections : gmap string nat; events : list RuntimeEvent;
  opened_total : Z; closed_total : Z; rejected_total : Z; rate_limited_total : Z; dropped_total : Z;
  closers : list nat; random : bytes; wall : Z; ticks : list N; contexts : list (option error)
}.

Definition newRuntimeTelemetry (source : bytes) (now : Z) (passing : list N) (ctx : list (option error)) : runtimeTelemetry :=
  MkTelemetry [] [] ∅ [] 0 0 0 0 0 [] source now passing ctx.

Definition T (A : Type) : Type := M runtimeTelemetry A.

Definition with_entries v t := MkTelemetry v (limiters t) (connections t) (events t) (opened_total t) (closed_total t)
  (rejected_total t) (rate_limited_total t) (dropped_total t) (closers t) (random t) (wall t) (ticks t) (contexts t).
Definition with_limiters v t := MkTelemetry (entries t) v (connections t) (events t) (opened_total t) (closed_total t)
  (rejected_total t) (rate_limited_total t) (dropped_total t) (closers t) (random t) (wall t) (ticks t) (contexts t).
Definition with_connections v t := MkTelemetry (entries t) (limiters t) v (events t) (opened_total t) (closed_total t)
  (rejected_total t) (rate_limited_total t) (dropped_total t) (closers t) (random t) (wall t) (ticks t) (contexts t).
Definition with_events v t := MkTelemetry (entries t) (limiters t) (connections t) v (opened_total t) (closed_total t)
  (rejected_total t) (rate_limited_total t) (dropped_total t) (closers t) (random t) (wall t) (ticks t) (contexts t).
Definition with_totals o c r l d t := MkTelemetry (entries t) (limiters t) (connections t) (events t) o c r l d
  (closers t) (random t) (wall t) (ticks t) (contexts t).
Definition with_closers v t := MkTelemetry (entries t) (limiters t) (connections t) (events t) (opened_total t) (closed_total t)
  (rejected_total t) (rate_limited_total t) (dropped_total t) v (random t) (wall t) (ticks t) (contexts t).
Definition with_oracles r w c x t := MkTelemetry (entries t) (limiters t) (connections t) (events t) (opened_total t) (closed_total t)
  (rejected_total t) (rate_limited_total t) (dropped_total t) (closers t) r w c x.

Definition incr (n : Z) : Z := (n + 1) mod 2 ^ 64.
Definition count_opened t := with_totals (incr (opened_total t)) (closed_total t) (rejected_total t) (rate_limited_total t) (dropped_total t) t.
Definition count_closed t := with_totals (opened_total t) (incr (closed_total t)) (rejected_total t) (rate_limited_total t) (dropped_total t) t.
Definition count_rejected t := with_totals (opened_total t) (closed_total t) (incr (rejected_total t)) (rate_limited_total t) (dropped_total t) t.
Definition count_limited t := with_totals (opened_total t) (closed_total t) (rejected_total t) (incr (rate_limited_total t)) (dropped_total t) t.
Definition count_dropped t := with_totals (opened_total t) (closed_total t) (rejected_total t) (rate_limited_total t) (incr (dropped_total t)) t.

Definition update (f : runtimeTelemetry -> runtimeTelemetry) : T unit := fun t => (f t, Ok tt).
Definition read {A} (f : runtimeTelemetry -> A) : T A := fun t => (t, Ok (f t)).

(** The clock goes on by the next tick; it stands when there is none. *)
Definition time_Now : T Z := fun t =>
  let now := wall t + Z.of_N (hd 0%N (ticks t)) in
  (with_oracles (random t) now (tl (ticks t)) (contexts t) t, Ok now).
(** [ctx.Err()] of an action. *)
Definition ctx_Err : T (option error) := fun t =>
  (with_oracles (random t) (wall t) (ticks t) (tl (contexts t)) t, Ok (match contexts t with e :: _ => e | [] => None end)).
Definition rand_Read (n : nat) : T (option bytes) := fun t =>
  if (List.length (random t) <? n)%nat then (t, Ok None)
  else (with_oracles (skipn n (random t)) (wall t) (ticks t) (contexts t) t, Ok (Some (firstn n (random t)))).

(** *** time.Format("20060102150405.000000000") *)
Fixpoint pad (width : nat) (n : Z) : string :=
  match width with O => "" | S w => pad w (n / 10) +:+ String (ascii_of_N (Z.to_N (48 + n mod 10))) "" end.

(** The civil date of a day counted from 0001-01-01, by years that begin in March. *)
Definition civil (day : Z) : Z * Z * Z :=
  let z := day + 306 in
  let era := z / 146097 in
  let doe := z mod 146097 in
  let yoe := (doe - doe / 1460 + doe / 36524 - doe / 146096) / 365 in
  let doy := doe - (365 * yoe + yoe / 4 - yoe / 100) in
  let mp := (5 * doy + 2) / 153 in
  let month := if mp <? 10 then mp + 3 else mp - 9 in
  (yoe + era * 400 + (if month <=? 2 then 1 else 0), month, doy - (153 * mp + 2) / 5 + 1).

Definition stamp (t : Z) : string :=
  let seconds := t / Second in
  let day := seconds / 86400 in
  let rest := seconds mod 86400 in
  let '(y, m, d) := civil day in
  pad 4 y +:+ pad 2 m +:+ pad 2 d +:+ pad 2 (rest / 3600) +:+ pad 2 (rest mod 3600 / 60) +:+ pad 2 (rest mod 60) +:+ "." +:+ pad 9 (t mod Second).

Definition runtimeConnectionID : T string :=
  raw ← rand_Read 12;
  match raw with
  | Some raw => mret ("rt-" +:+ hex_encode raw)
  | None => now ← time_Now; mret ("rt-" +:+ hex_encode (bytes_of (stamp now)))
  end.

Example stamp_examples :
  stamp 63902822400000000000 = "20260101000000.000000000" /\ stamp (63902822400000000000 + (58 * 86400 + 86399) * Second + 7) = "20260228235959.000000007".
Proof. split; vm_compute; reflexivity. Qed.

(** *** Copies *)
Definition cloneRuntimeConnection (c : RuntimeConnection) : RuntimeConnection :=
  MkRuntimeConnection (Conn_ID c) (Conn_Type c) (Conn_NodeID c) (Conn_PeerNodeID c) (Conn_GatewayID c) (Conn_AgentID c)
    (Conn_AssignmentID c) (Conn_ServiceID c) (Conn_Protocol c) (Conn_SourceIP c) (Conn_SourcePort c) (Conn_Target c)
    (Conn_ParentSessionID c) (Conn_StartedAt c) (Conn_LastActivityAt c) (Conn_EndedAt c) (Conn_State c) (Conn_CloseReason c)
    (Conn_BytesIn c) (Conn_BytesOut c) (Conn_RateIn c) (Conn_RateOut c) (Conn_Limit c).

Definition cloneRuntimeEvent (e : RuntimeEvent) : RuntimeEvent :=
  MkRuntimeEvent (Event_ID e) (Event_Type e) (Event_NodeID e) (Event_ConnectionID e)
    (cloneRuntimeConnection <$> Event_Connection e) (Event_Message e) (Event_CreatedAt e).

(** Assignments to the fields of [meta]. *)
Definition started_meta (id : string) (now : Z) (c : RuntimeConnection) : RuntimeConnection :=
  MkRuntimeConnection id (Conn_Type c) (Conn_NodeID c) (Conn_PeerNodeID c) (Conn_GatewayID c) (Conn_AgentID c)
    (Conn_AssignmentID c) (Conn_ServiceID c) (Conn_Protocol c) (Conn_SourceIP c) (Conn_SourcePort c) (Conn_Target c)
    (Conn_ParentSessionID c)
    (if is_zero_time (Conn_StartedAt c) then now else Conn_StartedAt c)
    (if is_zero_time (Conn_LastActivityAt c) then now else Conn_LastActivityAt c)
    (Conn_EndedAt c) RuntimeStateActive (Conn_CloseReason c)
    (Conn_BytesIn c) (Conn_BytesOut c) (Conn_RateIn c) (Conn_RateOut c) (Conn_Limit c).

Definition moved_meta (bytesIn bytesOut now : Z) (rateIn rateOut : spec_float) (c : RuntimeConnection) : RuntimeConnection :=
  MkRuntimeConnection (Conn_ID c) (Conn_Type c) (Conn_NodeID c) (Conn_PeerNodeID c) (Conn_GatewayID c) (Conn_AgentID c)
    (Conn_AssignmentID c) (Conn_ServiceID c) (Conn_Protocol c) (Conn_SourceIP c) (Conn_SourcePort c) (Conn_Target c)
    (Conn_ParentSessionID c) (Conn_StartedAt c) now (Conn_EndedAt c) (Conn_State c) (Conn_CloseReason c)
    bytesIn bytesOut rateIn rateOut (Conn_Limit c).

Definition limited_meta (limit : option RuntimeRateLimit) (c : RuntimeConnection) : RuntimeConnection :=
  MkRuntimeConnection (Conn_ID c) (Conn_Type c) (Conn_NodeID c) (Conn_PeerNodeID c) (Conn_GatewayID c) (Conn_AgentID c)
    (Conn_AssignmentID c) (Conn_ServiceID c) (Conn_Protocol c) (Conn_SourceIP c) (Conn_SourcePort c) (Conn_Target c)
    (Conn_ParentSessionID c) (Conn_StartedAt c) (Conn_LastActivityAt c) (Conn_EndedAt c) (Conn_State c) (Conn_CloseReason c)
    (Conn_BytesIn c) (Conn_BytesOut c) (Conn_RateIn c) (Conn_RateOut c) limit.

Definition ended_meta (reason : string) (now : Z) (c : RuntimeConnection) : RuntimeConnection :=
  MkRuntimeConnection (Conn_ID c) (Conn_Type c) (Conn_NodeID c) (Conn_PeerNodeID c) (Conn_GatewayID c) (Conn_AgentID c)
    (Conn_AssignmentID c) (Conn_ServiceID c) (Conn_Protocol c) (Conn_SourceIP c) (Conn_SourcePort c) (Conn_Target c)
    (Conn_ParentSessionID c) (Conn_StartedAt c) now (Some now) RuntimeStateClosed
    (if String.eqb (strings.TrimSpace reason) "" then RuntimeCloseUnknown else strings.TrimSpace reason)
    (Conn_BytesIn c) (Conn_BytesOut c) (Conn_RateIn c) (Conn_RateOut c) (Conn_Limit c).

(** *** Events *)
Definition appendEventLocked (event : RuntimeEvent) : T unit := update (fun t =>
  let t := if llen (events t) >=? runtimeEventQueueLimit
           then count_dropped (with_events (firstn (Z.to_nat (runtimeEventQueueLimit - 1)) (tl (events t))) t) else t in
  with_events (events t ++ [event]) t).

Definition peekEvents (max : Z) : T (list RuntimeEvent) := read (fun t =>
  if max <=? 0 then [] else map cloneRuntimeEvent (firstn (Z.to_nat (Z.min max (llen (events t)))) (events t))).

Definition ackEvents (batch : list RuntimeEvent) : T unit := update (fun t =>
  if llen batch >? llen (events t) then t
  else if forallb (fun '(queued, event) => String.eqb (Event_ID queued) (Event_ID event)) (combine (events t) batch)
  then with_events (skipn (List.length batch) (events t)) t
  else t).

Definition drainEvents (max : Z) : T (list RuntimeEvent) :=
  batch ← peekEvents max;
  match batch with [] => mret [] | _ => _ ← ackEvents batch; mret batch end.

(** *** The life of a connection *)
(** The section of [open] under the lock; [None] when the registry is full. *)
Definition register (generation : Z) (meta : RuntimeConnection) (closer : bool) (now : Z) : T (option nat) :=
  full ← read (fun t => Z.of_nat (size (connections t)) >=? runtimeConnectionLimit);
  if full : bool then _ ← update count_dropped; mret None else
  location ← read (fun t => List.length (entries t));
  _ ← update (fun t => with_entries (entries t ++ [MkTracked generation closer meta false None None false]) t);
  _ ← update (fun t => with_connections (<[Conn_ID meta := location]> (connections t)) t);
  _ ← update count_opened;
  id ← runtimeConnectionID;
  _ ← appendEventLocked (MkRuntimeEvent id RuntimeEventOpened (Conn_NodeID meta) (Conn_ID meta) (Some (cloneRuntimeConnection meta)) "" now);
  mret (Some location).

Definition open (generation : Z) (meta : RuntimeConnection) (closer : bool) : T (option nat) :=
  now ← time_Now;
  id ← (if String.eqb (Conn_ID meta) "" then runtimeConnectionID else mret (Conn_ID meta));
  register generation (started_meta id now meta) closer now.

Definition recordRejected (nodeID connectionID message : string) : T unit :=
  if String.eqb nodeID "" then mret tt else
  _ ← update count_rejected;
  id ← runtimeConnectionID;
  now ← time_Now;
  appendEventLocked (MkRuntimeEvent id RuntimeEventRejected nodeID connectionID None message now).

(** A change of one connection under its lock. *)
Definition update_entry (location : nat) (f : runtimeConnection -> runtimeConnection) : T unit :=
  update (fun t => with_entries (alter f location (entries t)) t).

Definition entry_at (location : nat) : T (option runtimeConnection) := read (fun t => entries t !! location).

(** The section of [close] that makes the connection closed: [None] when it was. *)
Definition mark_closed (location : nat) (reason : string) : T (option (RuntimeConnection * Z)) :=
  e ← entry_at location;
  match e with
  | Some e =>
      if closed e then mret None else
      now ← time_Now;
      let value := ended_meta reason now (meta e) in
      _ ← update_entry location (fun e => MkTracked (owner e) (has_closer e) value true (limitIn e) (limitOut e) (cancelled e));
      mret (Some (cloneRuntimeConnection value, now))
  | None => mret None
  end.

Definition cancel (location : nat) : T unit :=
  update_entry location (fun e => MkTracked (owner e) (has_closer e) (meta e) (closed e) (limitIn e) (limitOut e) true).

(** The section of [close] under the lock of the registry. *)
Definition unregister (location : nat) (value : RuntimeConnection) (now : Z) : T unit :=
  _ ← update (fun t => if bool_decide (connections t !! Conn_ID value = Some location)
                       then with_connections (delete (Conn_ID value) (connections t)) t else t);
  _ ← update count_closed;
  id ← runtimeConnectionID;
  appendEventLocked (MkRuntimeEvent id RuntimeEventClosed (Conn_NodeID value) (Conn_ID value) (Some value) "" now).

Definition call_closer (location : nat) : T unit :=
  e ← entry_at location;
  match e with
  | Some e => if has_closer e then update (fun t => with_closers (closers t ++ [location]) t) else mret tt
  | None => mret tt
  end.

Definition close (location : nat) (reason : string) : T unit :=
  marked ← mark_closed location reason;
  match marked with
  | None => mret tt
  | Some (value, now) => _ ← cancel location; _ ← unregister location value now; call_closer location
  end.

Section Registry.
Context `{MO : !MapOrder}.

(** The connections in the order in which a range over the table visits them. *)
Definition table_entries (t : runtimeTelemetry) : list nat := map snd (range_order (map_to_list (connections t))).

Definition entry_is (p : runtimeConnection -> bool) (t : runtimeTelemetry) (location : nat) : bool :=
  match entries t !! location with Some e => p e | None => false end.

Fixpoint each (body : nat -> T unit) (locations : list nat) : T unit :=
  match locations with [] => mret tt | l :: ls => _ ← body l; each body ls end.

Definition closeOwner (generation : Z) (reason : string) : T unit :=
  owned ← read (fun t => filter (fun l => entry_is (fun e => owner e =? generation) t l = true) (table_entries t));
  each (fun l => close l reason) owned.

(** *** Bytes and limits *)
Definition cumulativeByteRate (bytes startedAt now : Z) : spec_float :=
  let elapsed := time_sub now startedAt in
  fdiv (float_of_Z bytes) (Seconds (if elapsed <? Millisecond then Millisecond else elapsed)).

Definition touch (location : nat) (bytesIn bytesOut : Z) : T unit :=
  now ← time_Now;
  update_entry location (fun e =>
    if closed e then e else
    let totalIn := (Conn_BytesIn (meta e) + bytesIn) mod 2 ^ 64 in
    let totalOut := (Conn_BytesOut (meta e) + bytesOut) mod 2 ^ 64 in
    MkTracked (owner e) (has_closer e)
      (moved_meta totalIn totalOut now (cumulativeByteRate totalIn (Conn_StartedAt (meta e)) now)
         (cumulativeByteRate totalOut (Conn_StartedAt (meta e)) now) (meta e))
      (closed e) (limitIn e) (limitOut e) (cancelled e)).

Definition without_limit (e : runtimeConnection) : runtimeConnection :=
  MkTracked (owner e) (has_closer e) (limited_meta None (meta e)) (closed e) None None (cancelled e).

(** [now] is not before the end of the limit. *)
Definition limit_over (limit : RuntimeRateLimit) (now : Z) : bool := Limit_ExpiresAt limit <=? now.

Definition limiter (location : nat) (direction : string) : T (option nat) :=
  now ← time_Now;
  e ← entry_at location;
  match e with
  | None => mret None
  | Some e =>
      let inactive := match Conn_Limit (meta e) with
                      | None => true
                      | Some limit => closed e || (negb (is_zero_time (Limit_ExpiresAt limit)) && limit_over limit now)
                      end in
      if inactive then
        _ ← (match Conn_Limit (meta e) with
             | Some limit => if limit_over limit now then update_entry location without_limit else mret tt
             | None => mret tt
             end);
        mret None
      else mret (if String.eqb direction "in" then limitIn e else if String.eqb direction "out" then limitOut e else None)
  end.

Definition directed (limit : RuntimeRateLimit) (direction : string) : bool :=
  String.eqb (Limit_Direction limit) direction || String.eqb (Limit_Direction limit) "both".

(** A new limiter for one direction, if the limit is for it. *)
Definition add_limiter (limit : RuntimeRateLimit) (direction : string) : T (option nat) :=
  if directed limit direction then
    now ← time_Now;
    match newRuntimeLimiter (Limit_BytesPerSecond limit) (Limit_BurstBytes limit) now with
    | None => mret None
    | Some l =>
        location ← read (fun t => List.length (limiters t));
        _ ← update (fun t => with_limiters (limiters t ++ [l]) t);
        mret (Some location)
    end
  else mret None.

Definition setLimit (location : nat) (limit : RuntimeRateLimit) : T unit :=
  e ← entry_at location;
  match e with
  | Some e =>
      if closed e then mret tt else
      bytesIn ← add_limiter limit "in";
      bytesOut ← add_limiter limit "out";
      update_entry location (fun e => MkTracked (owner e) (has_closer e) (limited_meta (Some limit) (meta e)) (closed e) bytesIn bytesOut (cancelled e))
  | None => mret tt
  end.

Definition clearLimit (location : nat) : T unit := update_entry location without_limit.

(** *** What is reported *)
Definition entry_snapshot (location : nat) (t : runtimeTelemetry) : option RuntimeConnection :=
  match entries t !! location with
  | Some e => if closed e then None else Some (cloneRuntimeConnection (meta e))
  | None => None
  end.

Definition totals (t : runtimeTelemetry) : RuntimeMetrics :=
  MkRuntimeMetrics 0 0 0 0 false 0 0 0 0 (opened_total t) (closed_total t) (rejected_total t) (rate_limited_total t) (dropped_total t).

(** The table and the totals are read under the lock of the registry, each connection
    later under its own. *)
Definition snapshot_of (nodeID : string) (now : Z) (locations : list nat) (metrics : RuntimeMetrics) (t : runtimeTelemetry) : RuntimeSnapshot :=
  MkRuntimeSnapshot nodeID now (omap (fun l => entry_snapshot l t) locations) metrics.

Definition snapshot (nodeID : string) : T RuntimeSnapshot :=
  now ← time_Now;
  '(locations, metrics) ← read (fun t => (table_entries t, totals t));
  read (snapshot_of nodeID now locations metrics).

(** The section of [recordLimitEvent] under the lock of the registry. *)
Definition announce_limit (value : RuntimeConnection) : T unit :=
  _ ← update count_limited;
  id ← runtimeConnectionID;
  now ← time_Now;
  appendEventLocked (MkRuntimeEvent id RuntimeEventRateLimited (Conn_NodeID value) (Conn_ID value) (Some value) "" now).

Definition recordLimitEvent (location : nat) : T unit :=
  value ← read (entry_snapshot location);
  match value with None => mret tt | Some value => announce_limit value end.

(** *** Actions of an operator *)
Record runtimeSelector := MkSelector {
  Selector_ConnectionID : string; Selector_SourceIP : string; Selector_PeerNodeID : string;
  Selector_AssignmentID : string; Selector_ServiceID : string; Selector_Protocol : string
}.

Record runtimeActionRequest := MkActionRequest {
  Request_Action : string; Request_Selector : runtimeSelector; Request_ConnectionID : string; Request_Direction : string;
  Request_BytesPerSecond : Z; Request_BurstBytes : Z; Request_TTLSeconds : Z
}.

Definition empty_request : runtimeActionRequest := MkActionRequest "" (MkSelector "" "" "" "" "" "") "" "" 0 0 0.

Definition netipParse (value : string) : result string :=
  parsed ← ParseAddr (strings.TrimSpace value); Ok (addr_string (Unmap parsed)).

Definition normalizedRuntimeIP (value : string) : string :=
  match netipParse value with Ok address => address | Err _ => strings.TrimSpace value end.

(** [addr] is [addr.String()], if there is an address. *)
Definition runtimeAddr (addr : option string) : string * Z :=
  match addr with
  | None => ("", 0)
  | Some addr =>
      match net.SplitHostPort addr with
      | Err _ => (normalizedRuntimeIP addr, 0)
      | Ok (host, portText) =>
          match strconv.Atoi portText with
          | Ok port => if (port <? 0) || (port >? 65535) then (normalizedRuntimeIP host, 0) else (normalizedRuntimeIP host, port)
          | Err _ => (normalizedRuntimeIP host, 0)
          end
      end
  end.

Definition selects (wanted value : string) : bool := String.eqb wanted "" || String.eqb value wanted.

Definition matches (selector : runtimeSelector) (e : runtimeConnection) : bool :=
  negb (closed e)
  && (selects (Selector_ConnectionID selector) (Conn_ID (meta e)) && selects (Selector_SourceIP selector) (Conn_SourceIP (meta e))
      && selects (Selector_PeerNodeID selector) (Conn_PeerNodeID (meta e)) && selects (Selector_AssignmentID selector) (Conn_AssignmentID (meta e))
      && selects (Selector_ServiceID selector) (Conn_ServiceID (meta e)) && selects (Selector_Protocol selector) (Conn_Protocol (meta e))).

Definition matched (selector : runtimeSelector) (t : runtimeTelemetry) : list nat :=
  filter (fun l => entry_is (matches selector) t l = true) (table_entries t).

(** The request with its defaults, or the refusal. *)
Definition checked_request (name : string) (request : runtimeActionRequest) : result runtimeActionRequest :=
  let selector := Request_Selector request in
  let id := if negb (String.eqb (Request_ConnectionID request) "") && String.eqb (Selector_ConnectionID selector) ""
            then Request_ConnectionID request else Selector_ConnectionID selector in
  _ ← reject_if (negb (in_strings name ["disconnect"; "rate_limit"; "clear_limit"])) (ENew "runtime connection action is unsupported");
  let limit := String.eqb name "rate_limit" in
  _ ← reject_if (limit && ((Request_BytesPerSecond request =? 0) || (Request_BurstBytes request =? 0)))
        (ENew "runtime rate limit requires bytes_per_second and burst_bytes");
  let ttl := if limit && (Request_TTLSeconds request <=? 0) then Z.quot defaultRuntimeLimitTTL Second else Request_TTLSeconds request in
  _ ← reject_if (limit && (ttl >? 24 * 60 * 60)) (ENew "runtime rate limit ttl is too long");
  Ok (MkActionRequest name
        (MkSelector id (if String.eqb (Selector_SourceIP selector) "" then "" else normalizedRuntimeIP (Selector_SourceIP selector))
           (Selector_PeerNodeID selector) (Selector_AssignmentID selector) (Selector_ServiceID selector) (Selector_Protocol selector))
        (Request_ConnectionID request)
        (if limit && String.eqb (Request_Direction request) "" then "both" else Request_Direction request)
        (Request_BytesPerSecond request) (Request_BurstBytes request) ttl).

Definition apply_to (request : runtimeActionRequest) (location : nat) : T unit :=
  done ← ctx_Err;
  match done with
  | Some err => fail err
  | None =>
      if String.eqb (Request_Action request) "disconnect" then close location RuntimeCloseOperator
      else if String.eqb (Request_Action request) "clear_limit" then clearLimit location
      else
        now ← time_Now;
        _ ← setLimit location (MkRuntimeRateLimit (Request_Direction request) (Request_BytesPerSecond request)
                                 (Request_BurstBytes request) (now + Request_TTLSeconds request * Second));
        recordLimitEvent location
  end.

Definition applyAction `{JR : !JSON runtimeActionRequest} (name : string) (payload : bytes) : T Z :=
  request ← (match payload with
             | [] => mret empty_request
             | _ => lift (map_err (fun _ => ENew "runtime action payload is invalid") (json_unmarshal payload))
             end);
  let name := if String.eqb (Request_Action request) "" then name else Request_Action request in
  if String.eqb name "clear_runtime_controls" then
    all ← read table_entries;
    _ ← each clearLimit all;
    mret (llen all)
  else
    request ← lift (checked_request name request);
    found ← read (matched (Request_Selector request));
    if llen found >? runtimeActionMaxMatches then fail (ENew "runtime action matches too many connections") else
    _ ← each (apply_to request) found;
    mret (llen found).
End Registry.

(** ** Batches for the Controller *)
Record event_message := MkEventMessage {
  Message_Id : string; Message_Type : string; Message_Text : string; Message_AttributesJson : bytes; Message_CreatedAt : Z
}.

(** The data plane a batch is taken from ([plane_started] and the node of its engine), the
    answers of [send], and what was sent. *)
Record reporter := MkReporter {
  rp_telemetry : runtimeTelemetry; rp_plane : option (bool * string);
  rp_sends : list (option error); rp_sent : list (list event_message)
}.

Definition B (A : Type) : Type := M reporter A.
Definition on_telemetry {A} (m : T A) : B A := fun r =>
  let '(t, x) := m (rp_telemetry r) in (MkReporter t (rp_plane r) (rp_sends r) (rp_sent r), x).
Definition send_batch (messages : list event_message) : B unit := fun r =>
  let rest := MkReporter (rp_telemetry r) (rp_plane r) (tl (rp_sends r)) in
  match rp_sends r with
  | Some e :: _ => (rest (rp_sent r), Err e)
  | _ => (rest (rp_sent r ++ [messages]), Ok tt)
  end.

Section Batches.
Context `{MO : !MapOrder, JE : !JSON RuntimeEvent, JT : !JSON RuntimeSnapshot}.

Fixpoint event_messages (batch : list RuntimeEvent) : result (list event_message) :=
  match batch with
  | [] => Ok []
  | event :: batch =>
      attributes ← json_marshal event;
      rest ← event_messages batch;
      Ok (MkEventMessage (Event_ID event) "runtime_connection" (Event_Message event) attributes (Event_CreatedAt event) :: rest)
  end.

Definition RuntimeSnapshot_of (plane : option (bool * string)) : T (option RuntimeSnapshot) :=
  match plane with
  | Some (true, nodeID) => s ← snapshot nodeID; mret (Some s)
  | _ => mret None
  end.

Definition snapshot_message (plane : option (bool * string)) : T (list event_message) :=
  s ← RuntimeSnapshot_of plane;
  match s with
  | None => mret []
  | Some s =>
      _ ← lift (map_err (EWrap "validate runtime snapshot: %w" []) (RuntimeSnapshot_Validate s));
      attributes ← lift (json_marshal s);
      id ← runtimeConnectionID;
      mret [MkEventMessage id "runtime_snapshot" "" attributes (RSnapshot_ObservedAt s)]
  end.

Definition sendRuntimeTelemetryBatch (includeSnapshot : bool) : B unit := fun r =>
  match rp_plane r with
  | None => (r, Ok tt)
  | Some plane =>
      (batch ← on_telemetry (peekEvents 128);
       messages ← lift (event_messages batch);
       current ← (if includeSnapshot then on_telemetry (snapshot_message (Some plane)) else mret []);
       match messages ++ current with
       | [] => mret tt
       | all => _ ← send_batch all; on_telemetry (ackEvents batch)
       end) r
  end.

(** The loop, by the tickers that fire until the context of the connection is done. *)
Inductive tick := EventTick | SnapshotTick.

Fixpoint telemetry_ticks (ticks : list tick) : B unit :=
  match ticks with
  | [] => mret tt
  | t :: ticks =>
      r ← try (sendRuntimeTelemetryBatch (match t with SnapshotTick => true | EventTick => false end));
      match r with Ok _ => telemetry_ticks ticks | Err _ => mret tt end
  end.

(** [cancelled] is the context after a first batch that failed. *)
Definition runtimeTelemetryLoop (cancelled : bool) (ticks : list tick) : B unit :=
  r ← try (sendRuntimeTelemetryBatch true);
  match r with
  | Err _ => if cancelled then telemetry_ticks [] else mret tt
  | Ok _ => telemetry_ticks ticks
  end.

(** ** What the data plane reports of itself *)
(** A session by its assignment: [None] is a nil session. *)
Record session_view := MkSessionView { view_AgentID : string; view_Streams : Z }.

(** The active generation, its sessions and the addresses its sockets are bound to; the
    counters of the engine. *)
Record plane_view := MkPlaneView {
  pv_nodeID : string; pv_generation : Z; pv_alive : bool; pv_streams : Z; pv_sessions : Z; pv_egress : Z;
  pv_oversize : Z; pv_geoip : bool;
  pv_gateway_sessions : gmap string (option session_view); pv_agent_sessions : gmap string (option session_view);
  pv_tcp : list (option (string * Z)); pv_udp : list (option (string * Z))
}.

Definition is_flow (c : RuntimeConnection) : bool :=
  in_strings (Conn_Type c) [RuntimeConnectionTCP; RuntimeConnectionUDP; RuntimeConnectionEgress].

Definition sum_bytes (f : RuntimeConnection -> Z) (cs : list RuntimeConnection) : Z :=
  fold_left (fun total c => (total + f c) mod 2 ^ 64) cs 0.

Definition plane_metrics (v : plane_view) (s : RuntimeSnapshot) : RuntimeMetrics :=
  let m := RSnapshot_Metrics s in
  let cs := RSnapshot_Connections s in
  MkRuntimeMetrics (pv_streams v mod 2 ^ 64) (pv_sessions v mod 2 ^ 64) (pv_egress v mod 2 ^ 64) (pv_oversize v) (pv_geoip v)
    (llen cs) (llen (List.filter is_flow cs)) (sum_bytes Conn_BytesIn cs) (sum_bytes Conn_BytesOut cs)
    (Metrics_RuntimeOpenedTotal m) (Metrics_RuntimeClosedTotal m) (Metrics_RuntimeRejectedTotal m)
    (Metrics_RuntimeRateLimitedTotal m) (Metrics_RuntimeTelemetryDroppedTotal m).

(** The clock is read for every session. *)
Fixpoint session_summaries (prefix : string) (peer : session_view -> string) (sessions : list (string * option session_view)) : T (list SessionSummary) :=
  match sessions with
  | [] => mret []
  | (_, None) :: rest => session_summaries prefix peer rest
  | (assignmentID, Some s) :: rest =>
      now ← time_Now;
      others ← session_summaries prefix peer rest;
      mret (MkSessionSummary (prefix +:+ assignmentID) (peer s) now (view_Streams s) :: others)
  end.

Definition listener_states (protocol : string) (sockets : list (option (string * Z))) : list ListenerState :=
  map (fun '(ip, port) => MkListenerState protocol ip port true) (omap id sockets).

Definition plane_ObservedState (view : option plane_view) : T (option ObservedState) :=
  match view with
  | None => mret None
  | Some v =>
      now ← time_Now;
      s ← snapshot (pv_nodeID v);
      gateway ← session_summaries "gateway-" view_AgentID (range_order (map_to_list (pv_gateway_sessions v)));
      agent ← session_summaries "agent-" (fun _ => "gateway") (range_order (map_to_list (pv_agent_sessions v)));
      mret (Some (MkObservedState CurrentControlProtocolVersion (pv_nodeID v) (pv_generation v) (pv_alive v) false None
        (gateway ++ agent) (listener_states ProtocolTCP (pv_tcp v) ++ listener_states ProtocolUDP (pv_udp v))
        (plane_metrics v s) None now))
  end.
End Batches.
