(* ===== verification/TelemetryFacts.v ===== *)
(** * The telemetry registry: counts, delivery and well-formed reports

    The sections of [Telemetry] interleave as the steps of [step]; the theorems hold in
    every reachable state. *)
From S2P Require Import Prelude GoStd GoNet Domain Checksum Validation Snapshot SnapshotFacts Report Datagram Json Effects Telemetry.
From Stdlib Require Import SpecFloat.

(** ** The token bucket *)
Section LimiterFacts.
Context `{FV : !FloatOverflow}.

Lemma next_chunk_bounds l remaining : 0 < remaining -> 0 < next_chunk l remaining <= remaining.
Proof. unfold next_chunk. intros H. destruct (Z.gtb_spec (float_to_int (burst l)) 0), (Z.gtb_spec remaining (float_to_int (burst l))); cbn; lia. Qed.

Lemma take_burst l chunk now : burst (fst (take l chunk now)) = burst l.
Proof. unfold take, refill. by repeat (case_match; cbn). Qed.

Lemma other_takes_burst others : forall l, burst (other_takes others l) = burst l.
Proof. unfold other_takes. induction others as [|[c n] os IH]; intros l; [done|]. cbn. by rewrite IH, take_burst. Qed.

Lemma wait_chunk_burst chunk turns : forall l l' rest r, wait_chunk chunk turns l = (l', rest, r) -> burst l' = burst l.
Proof.
  induction turns as [|t turns IH]; intros l l' rest r; cbn; [by intros [= <- _ _]|].
  destruct (take _ chunk (turn_now t)) as [l1 w] eqn:E. pose proof (take_burst (other_takes (turn_others t) l) chunk (turn_now t)) as Hb.
  rewrite E, other_takes_burst in Hb. cbn in Hb. destruct w; [destruct (turn_cancelled t)|]; [by intros [= <- _ _]| |by intros [= <- _ _]].
  intros H. apply IH in H. by rewrite H.
Qed.

Lemma next_chunk_burst l l' remaining : burst l' = burst l -> next_chunk l' remaining = next_chunk l remaining.
Proof. unfold next_chunk. by intros ->. Qed.

Definition total (granted : list Z) : Z := fold_right Z.add 0 granted.

(** Within the burst. *)
Definition granted_within (l : runtimeLimiter) (chunk : Z) : Prop :=
  0 < chunk /\ (0 < float_to_int (burst l) -> chunk <= float_to_int (burst l)).

Lemma next_chunk_within l remaining : 0 < remaining -> granted_within l (next_chunk l remaining).
Proof.
  intros H. split; [by apply next_chunk_bounds|]. unfold next_chunk. intros Hm.
  destruct (Z.gtb_spec (float_to_int (burst l)) 0), (Z.gtb_spec remaining (float_to_int (burst l))); cbn; lia.
Qed.

Lemma wait_all_granted fuel : forall remaining turns l l' granted r,
  0 <= remaining -> wait_all fuel remaining turns l = (l', granted, r) ->
  Forall (granted_within l) granted /\ total granted <= remaining
  /\ (r = Granted -> total granted = remaining).
Proof.
  induction fuel as [|fuel IH]; intros remaining turns l l' granted r Hr; cbn [wait_all].
  { intros [= _ <- <-]. split_and!; [done | cbn; lia | done]. }
  destruct (Z.leb_spec remaining 0); [intros [= _ <- <-]; split_and!; [done | cbn; lia | cbn; lia]|].
  pose proof (next_chunk_bounds l remaining ltac:(lia)) as Hc. pose proof (next_chunk_within l remaining ltac:(lia)) as Hw.
  destruct (wait_chunk _ turns l) as [[l1 rest] w] eqn:E1. apply wait_chunk_burst in E1.
  destruct w; [|intros [= _ <- <-]; split_and!; [done | cbn; lia | done]..].
  destruct (wait_all fuel _ rest l1) as [[l2 g2] r2] eqn:E2. apply IH in E2 as (Hg & Hs & He); [|lia].
  intros [= _ <- <-]. split_and!.
  - constructor; [done|]. eapply Forall_impl; [exact Hg|]. unfold granted_within. by rewrite E1.
  - unfold total in *. cbn [fold_right]. lia.
  - intros ->. specialize (He eq_refl). unfold total in *. cbn [fold_right]. lia.
Qed.

(** The rounds [wait] allows are enough: more change nothing. *)
Lemma wait_all_fuel f : forall g remaining turns l, (Z.to_nat remaining < f)%nat -> (f <= g)%nat -> wait_all g remaining turns l = wait_all f remaining turns l.
Proof.
  induction f as [|f IH]; intros g remaining turns l Hf Hg; [lia|]. destruct g as [|g]; [lia|]. cbn [wait_all].
  destruct (Z.leb_spec remaining 0); [done|]. pose proof (next_chunk_bounds l remaining ltac:(lia)).
  destruct (wait_chunk _ turns l) as [[l1 rest] w]. destruct w; [|done..]. rewrite (IH g); [done | lia..].
Qed.

(** A wait that is neither granted nor stopped has used up its turns. *)
Lemma wait_chunk_waiting chunk turns : forall l l' rest, wait_chunk chunk turns l = (l', rest, Waiting) -> rest = [].
Proof.
  induction turns as [|t turns IH]; intros l l' rest; cbn; [by intros [= _ <-]|].
  destruct (take _ chunk (turn_now t)) as [l1 w]. destruct w; [destruct (turn_cancelled t); [done|]|done]. apply IH.
Qed.

Lemma wait_chunk_stopped chunk turns : forall l l' rest err, wait_chunk chunk turns l = (l', rest, Stopped err) ->
  exists t, t ∈ turns /\ turn_cancelled t = Some err.
Proof.
  induction turns as [|t turns IH]; intros l l' rest err; cbn; [done|].
  destruct (take _ chunk (turn_now t)) as [l1 w]. destruct w; [|done]. destruct (turn_cancelled t) eqn:E.
  - intros [= _ _ <-]. exists t. split; [by left|done].
  - intros H. apply IH in H as (t' & Ht & He). exists t'. split; [by right|done].
Qed.
Lemma wait_chunk_rest chunk turns : forall l l' rest r, wait_chunk chunk turns l = (l', rest, r) -> rest ⊆ turns.
Proof.
  induction turns as [|t turns IH]; intros l l' rest r; cbn; [by intros [= _ <- _]|].
  destruct (take _ chunk (turn_now t)) as [l1 w]. destruct w; [destruct (turn_cancelled t); [intros [= _ <- _]; set_solver|]|intros [= _ <- _]; set_solver].
  intros H. apply IH in H. set_solver.
Qed.

Lemma wait_all_stopped fuel : forall remaining turns l l' granted err, wait_all fuel remaining turns l = (l', granted, Stopped err) ->
  exists t, t ∈ turns /\ turn_cancelled t = Some err.
Proof.
  induction fuel as [|fuel IH]; intros remaining turns l l' granted err; cbn [wait_all]; [done|].
  destruct (remaining <=? 0); [done|]. destruct (wait_chunk _ turns l) as [[l1 rest] w] eqn:E1. destruct w as [|e|]; [|intros [= _ _ <-]; by eapply wait_chunk_stopped|done].
  destruct (wait_all fuel _ rest l1) as [[l2 g2] r2] eqn:E2. intros [= _ _ ->]. apply IH in E2 as (t & Ht & He). apply wait_chunk_rest in E1. exists t. set_solver.
Qed.

(** A write of [bytes] bytes waits for chunks that fit the burst; it goes on exactly
    when all its bytes were granted, it gives up only when its connection is cancelled, and
    never grants more than it was asked for; the rounds it is allowed are enough. *)
Theorem wait_exact bytes turns l l' granted r :
  0 <= bytes -> wait bytes turns l = (l', granted, r) ->
  Forall (granted_within l) granted /\ total granted <= bytes /\ (r = Granted -> total granted = bytes)
  /\ (forall err, r = Stopped err -> exists t, t ∈ turns /\ turn_cancelled t = Some err)
  /\ forall fuel, (Z.to_nat bytes < fuel)%nat -> wait_all fuel bytes turns l = (l', granted, r).
Proof.
  intros Hb H. destruct (wait_all_granted _ _ _ _ _ _ _ Hb H) as (Hg & Hs & He). split_and!; try done.
  - intros err ->. by eapply wait_all_stopped.
  - intros fuel Hf. rewrite <- H. unfold wait. destruct (decide (fuel <= S (Z.to_nat bytes))%nat).
    + symmetry. by apply wait_all_fuel.
    + apply wait_all_fuel; lia.
Qed.
End LimiterFacts.

Definition sample_turns : list turn :=
  [MkTurn [] 1 None; MkTurn [] 2 None; MkTurn [] 500000002 None; MkTurn [] 600000002 None; MkTurn [] 700000002 None].

Definition sample_limiter : runtimeLimiter :=
  match newRuntimeLimiter 1000 500 0 with Some l => l | None => MkLimiter S754_nan S754_nan S754_nan 0 end.
Definition sample_wait : runtimeLimiter * list Z * waited := @wait {| float_overflow _ := 0 |} 1200 sample_turns sample_limiter.

Lemma wait_exact_witness : sample_wait = (fst (fst sample_wait), [500; 500; 200], Granted) /\ total [500; 500; 200] = 1200.
Proof.
  assert (E : sample_wait = (fst (fst sample_wait), [500; 500; 200], Granted)) by (vm_compute; reflexivity). split; [exact E|].
  refine (proj1 (proj2 (proj2 (@wait_exact {| float_overflow _ := 0 |} 1200 sample_turns sample_limiter (fst (fst sample_wait)) [500; 500; 200] Granted _ E))) eq_refl). lia.
Defined.

(** ** What the sections do *)
Definition oracles_moved (t t' : runtimeTelemetry) : Prop :=
  wall t <= wall t' /\ t' = with_oracles (random t') (wall t') (ticks t') (contexts t') t.

Lemma oracles_refl t : oracles_moved t t.
Proof. split; [lia | by destruct t]. Qed.

Lemma oracles_trans t1 t2 t3 : oracles_moved t1 t2 -> oracles_moved t2 t3 -> oracles_moved t1 t3.
Proof. intros [H1 ->] [H2 ->]. split; [cbn in *; lia | done]. Qed.

Lemma time_Now_run t : exists t', time_Now t = (t', Ok (wall t')) /\ oracles_moved t t'.
Proof. exists (fst (time_Now t)). split; [reflexivity|]. split; [cbn; lia | done]. Qed.

(** Generated ids. *)
Lemma rt_id_valid raw : (1 <= List.length raw <= 62)%nat -> valid_id ("rt-" +:+ hex_encode raw).
Proof.
  intros Hl. pose proof (hex_encode_length raw) as Hlen. pose proof (hex_encode_alnum raw) as Hal.
  assert (Hb : bytes_of ("rt-" +:+ hex_encode raw) = bytes_of "rt-" ++ bytes_of (hex_encode raw)) by apply bytes_of_app.
  unfold valid_id. rewrite slen_bytes, Hb. set (h := bytes_of (hex_encode raw)) in *. rewrite length_app.
  change (List.length (bytes_of "rt-")) with 3%nat. split_and!; [lia | lia | | |].
  - apply Forall_app. split; [repeat (constructor; [vm_compute; tauto|]); constructor|]. eapply Forall_impl; [exact Hal | by left].
  - by exists "r"%char.
  - destruct (last h) as [c|] eqn:El; [| apply last_None in El; rewrite El in Hlen; cbn in Hlen; lia].
    exists c. split; [by rewrite last_app, El|]. rewrite Forall_forall in Hal. apply Hal. rewrite last_lookup in El. by eapply list_elem_of_lookup_2.
Qed.

Lemma pad_length width : forall n, List.length (bytes_of (pad width n)) = width.
Proof.
  induction width as [|w IH]; intros n; [done|]. cbn [pad]. rewrite bytes_of_app, length_app, IH. cbn. lia.
Qed.

Lemma stamp_length t : List.length (bytes_of (stamp t)) = 24%nat.
Proof.
  unfold stamp. destruct (civil _) as [[y m] d]. rewrite !bytes_of_app, !length_app, !pad_length. reflexivity.
Qed.

Lemma runtimeConnectionID_run t : exists t' id, runtimeConnectionID t = (t', Ok id) /\ oracles_moved t t' /\ valid_id id.
Proof.
  unfold runtimeConnectionID, rand_Read. cbv [mbind M_bind mret M_ret]. destruct (Nat.ltb_spec (List.length (random t)) 12).
  - eexists _, _. split; [reflexivity|]. split; [by split; [cbn; lia|]|]. apply rt_id_valid. rewrite stamp_length. lia.
  - eexists _, _. split; [reflexivity|]. split; [by split; [cbn; lia|]|]. apply rt_id_valid. rewrite length_firstn. lia.
Qed.

(** The queue after one more event. *)
Definition full (t : runtimeTelemetry) : bool := llen (events t) >=? runtimeEventQueueLimit.
Definition appended (event : RuntimeEvent) (t : runtimeTelemetry) : runtimeTelemetry := fst (appendEventLocked event t).

Lemma appended_run event t : appendEventLocked event t = (appended event t, Ok tt).
Proof. reflexivity. Qed.

Lemma appended_events event t : llen (events t) <= runtimeEventQueueLimit ->
  events (appended event t) = (if full t then tl (events t) else events t) ++ [event].
Proof.
  unfold appended, full. cbn. destruct (llen (events t) >=? runtimeEventQueueLimit) eqn:E; [|done]. cbn. intros H.
  rewrite take_ge; [done|]. bool_facts. unfold runtimeEventQueueLimit in *. destruct (events t); cbn in *; lia.
Qed.

Lemma appended_bounded event t : llen (events t) <= runtimeEventQueueLimit -> llen (events (appended event t)) <= runtimeEventQueueLimit.
Proof.
  intros H. rewrite appended_events by done. unfold full. destruct (llen (events t) >=? runtimeEventQueueLimit) eqn:E; bool_facts;
    unfold runtimeEventQueueLimit in *; rewrite length_app; cbn; [destruct (events t); cbn in *; lia | lia].
Qed.

(** The sections that append an event, one by one. *)
Definition registered (generation : Z) (m : RuntimeConnection) (closer : bool) (t : runtimeTelemetry) : runtimeTelemetry :=
  count_opened (with_connections (<[Conn_ID m := List.length (entries t)]> (connections t))
                  (with_entries (entries t ++ [MkTracked generation closer m false None None false]) t)).

Lemma register_run generation m closer now t t' r :
  register generation m closer now t = (t', r) ->
  (runtimeConnectionLimit <= Z.of_nat (size (connections t)) /\ t' = count_dropped t /\ r = Ok None)
  \/ (Z.of_nat (size (connections t)) < runtimeConnectionLimit /\ r = Ok (Some (List.length (entries t)))
      /\ exists t1 id, oracles_moved (registered generation m closer t) t1 /\ valid_id id
         /\ t' = appended (MkRuntimeEvent id RuntimeEventOpened (Conn_NodeID m) (Conn_ID m) (Some m) "" now) t1).
Proof.
  unfold register. cbv [mbind M_bind read]. destruct (Z.of_nat (size (connections t)) >=? runtimeConnectionLimit) eqn:E; cbn [update mret M_ret]; bool_facts.
  { intros [= <- <-]. left. done. }
  fold (registered generation m closer t). destruct (runtimeConnectionID_run (registered generation m closer t)) as (t1 & id & Hid & Ho & Hv).
  unfold registered in Hid. cbn in Hid |- *. rewrite Hid. intros [= <- <-]. right. split_and!; [lia | done |].
  exists t1, id. split_and!; [done | done |]. by destruct m.
Qed.

Definition ending_entry (value : RuntimeConnection) (e : runtimeConnection) : runtimeConnection :=
  MkTracked (owner e) (has_closer e) value true (limitIn e) (limitOut e) (cancelled e).

Lemma mark_closed_run location reason t t' r :
  mark_closed location reason t = (t', r) ->
  (t' = t /\ r = Ok None)
  \/ exists e t1, entries t !! location = Some e /\ closed e = false /\ oracles_moved t t1
     /\ t' = with_entries (alter (ending_entry (ended_meta reason (wall t1) (meta e))) location (entries t1)) t1
     /\ r = Ok (Some (ended_meta reason (wall t1) (meta e), wall t1)).
Proof.
  unfold mark_closed, entry_at. cbv [mbind M_bind read]. destruct (entries t !! location) as [e|] eqn:E; [|intros [= <- <-]; by left].
  destruct (closed e) eqn:Ec; [intros [= <- <-]; by left|]. intros H. right.
  destruct (time_Now_run t) as (t1 & Ht & Ho). rewrite Ht in H. injection H as <- <-. exists e, t1. split_and!; done.
Qed.

Definition unregistered (location : nat) (value : RuntimeConnection) (t : runtimeTelemetry) : runtimeTelemetry :=
  count_closed (if bool_decide (connections t !! Conn_ID value = Some location)
                then with_connections (delete (Conn_ID value) (connections t)) t else t).

Lemma unregister_run location value now t t' r :
  unregister location value now t = (t', r) ->
  r = Ok tt /\ exists t1 id, oracles_moved (unregistered location value t) t1 /\ valid_id id
    /\ t' = appended (MkRuntimeEvent id RuntimeEventClosed (Conn_NodeID value) (Conn_ID value) (Some value) "" now) t1.
Proof.
  unfold unregister. cbv [mbind M_bind update]. fold (unregistered location value t).
  destruct (runtimeConnectionID_run (unregistered location value t)) as (t1 & id & Hid & Ho & Hv). rewrite Hid. intros [= <- <-].
  split; [done|]. exists t1, id. split_and!; done.
Qed.

Lemma announce_limit_run value t t' r :
  announce_limit value t = (t', r) ->
  r = Ok tt /\ exists t1 id now, oracles_moved (count_limited t) t1 /\ valid_id id /\ wall t <= now
    /\ t' = appended (MkRuntimeEvent id RuntimeEventRateLimited (Conn_NodeID value) (Conn_ID value) (Some value) "" now) t1.
Proof.
  unfold announce_limit. cbv [mbind M_bind update].
  destruct (runtimeConnectionID_run (count_limited t)) as (t1 & id & Hid & Ho & Hv). rewrite Hid.
  destruct (time_Now_run t1) as (t2 & Ht & Ho2). rewrite Ht. intros [= <- <-]. split; [done|]. exists t2, id, (wall t2).
  pose proof (oracles_trans _ _ _ Ho Ho2) as H12. split_and!; [done | done | | done]. destruct H12 as [H12 _]. by cbn in H12.
Qed.

Lemma recordRejected_run nodeID connectionID message t t' r : nodeID <> "" ->
  recordRejected nodeID connectionID message t = (t', r) ->
  r = Ok tt /\ exists t1 id now, oracles_moved (count_rejected t) t1 /\ valid_id id /\ wall t <= now
    /\ t' = appended (MkRuntimeEvent id RuntimeEventRejected nodeID connectionID None message now) t1.
Proof.
  intros Hn. unfold recordRejected. apply String.eqb_neq in Hn. rewrite Hn. cbv [mbind M_bind update].
  destruct (runtimeConnectionID_run (count_rejected t)) as (t1 & id & Hid & Ho & Hv). rewrite Hid.
  destruct (time_Now_run t1) as (t2 & Ht & Ho2). rewrite Ht. intros [= <- <-]. split; [done|]. exists t2, id, (wall t2).
  pose proof (oracles_trans _ _ _ Ho Ho2) as H12. split_and!; [done | done | | done]. destruct H12 as [H12 _]. by cbn in H12.
Qed.

(** ** Interleaved sections

    [meta_ok], [limit_ok] and [reject_ok] say what the callers pass. *)
Section Steps.
Context (meta_ok : RuntimeConnection -> Prop) (limit_ok : RuntimeRateLimit -> Prop) (reject_ok : string -> string -> string -> Prop).

(** The sections that change one connection, and neither the table nor the queue. *)
Inductive quiet (t : runtimeTelemetry) : runtimeTelemetry -> Prop :=
| quiet_touch location bytesIn bytesOut : quiet t (fst (touch location bytesIn bytesOut t))
| quiet_limiter location direction : quiet t (fst (limiter location direction t))
| quiet_setLimit location limit : limit_ok limit -> quiet t (fst (setLimit location limit t))
| quiet_clearLimit location : quiet t (fst (clearLimit location t))
| quiet_cancel location : quiet t (fst (cancel location t))
| quiet_clock : quiet t (fst (time_Now t))
| quiet_random : quiet t (fst (runtimeConnectionID t)).

(** What an event is to tell: its kind, node and connection, the connection as it is then,
    a message, and the time where the caller gives it. *)
Record occurrence := MkOccurrence { Oc_kind : string; Oc_node : string; Oc_connection : string; Oc_value : option RuntimeConnection; Oc_message : string; Oc_at : option Z }.
Definition tells (e : RuntimeEvent) (o : occurrence) : Prop :=
  exists id now, e = MkRuntimeEvent id (Oc_kind o) (Oc_node o) (Oc_connection o) (Oc_value o) (Oc_message o) now /\ (Oc_at o = None \/ Oc_at o = Some now).
Definition about_connection (kind : string) (m : RuntimeConnection) (at_ : option Z) : occurrence := MkOccurrence kind (Conn_NodeID m) (Conn_ID m) (Some m) "" at_.

(** The connections marked closed that are still in the table, those whose transport is
    still open, the batches peeked and those sent; the events that entered the queue, were
    received by the Controller, and were pushed out of a full queue; the connections
    refused; and what happened, as the calls say it, whatever becomes of it. *)
Record system := MkSystem {
  tel : runtimeTelemetry; closing : list (nat * RuntimeConnection * Z); due : list nat;
  peeked : list (list RuntimeEvent); sent : list (list RuntimeEvent);
  emitted : list RuntimeEvent; delivered : list RuntimeEvent; lost : list RuntimeEvent; refused : Z;
  happened : list occurrence
}.

Definition overflow (t : runtimeTelemetry) : list RuntimeEvent := if full t then firstn 1 (events t) else [].
Definition newest (t : runtimeTelemetry) : list RuntimeEvent := match last (events t) with Some e => [e] | None => [] end.

(** The system after a section that was to append the event of [o]. *)
Definition emits (s : system) (o : occurrence) (t : runtimeTelemetry) (c : list (nat * RuntimeConnection * Z)) (d : list nat) : system :=
  MkSystem t c d (peeked s) (sent s) (emitted s ++ newest t) (delivered s) (lost s ++ overflow (tel s)) (refused s) (happened s ++ [o]).

Inductive step (s : system) : system -> Prop :=
| step_quiet t : quiet (tel s) t ->
    step s (MkSystem t (closing s) (due s) (peeked s) (sent s) (emitted s) (delivered s) (lost s) (refused s) (happened s))
| step_open generation m closer now t l : meta_ok m -> 0 < now <= wall (tel s) -> Conn_StartedAt m <= now ->
    connections (tel s) !! Conn_ID m = None -> register generation m closer now (tel s) = (t, Ok (Some l)) ->
    step s (emits s (about_connection RuntimeEventOpened m (Some now)) t (closing s) (due s))
| step_refuse generation m closer now t : register generation m closer now (tel s) = (t, Ok None) ->
    step s (MkSystem t (closing s) (due s) (peeked s) (sent s) (emitted s) (delivered s) (lost s) (refused s + 1) (happened s))
| step_reject nodeID connectionID message t : nodeID <> "" -> reject_ok nodeID connectionID message ->
    recordRejected nodeID connectionID message (tel s) = (t, Ok tt) ->
    step s (emits s (MkOccurrence RuntimeEventRejected nodeID connectionID None message None) t (closing s) (due s))
| step_mark location reason value now t : mark_closed location reason (tel s) = (t, Ok (Some (value, now))) ->
    step s (MkSystem t (closing s ++ [(location, value, now)]) (due s) (peeked s) (sent s) (emitted s) (delivered s) (lost s) (refused s) (happened s))
| step_unregister before location value now after t : closing s = before ++ (location, value, now) :: after ->
    unregister location value now (tel s) = (t, Ok tt) -> step s (emits s (about_connection RuntimeEventClosed value (Some now)) t (before ++ after) (due s ++ [location]))
| step_closer before location after t : due s = before ++ location :: after -> call_closer location (tel s) = (t, Ok tt) ->
    step s (MkSystem t (closing s) (before ++ after) (peeked s) (sent s) (emitted s) (delivered s) (lost s) (refused s) (happened s))
| step_limited location value t : entry_snapshot location (tel s) = Some value -> announce_limit value (tel s) = (t, Ok tt) ->
    step s (emits s (about_connection RuntimeEventRateLimited value None) t (closing s) (due s))
| step_peek max batch : peekEvents max (tel s) = (tel s, Ok batch) ->
    step s (MkSystem (tel s) (closing s) (due s) (batch :: peeked s) (sent s) (emitted s) (delivered s) (lost s) (refused s) (happened s))
| step_send batch : batch ∈ peeked s ->
    step s (MkSystem (tel s) (closing s) (due s) (peeked s) (batch :: sent s) (emitted s) (delivered s ++ batch) (lost s) (refused s) (happened s))
| step_ack batch t : batch ∈ sent s -> ackEvents batch (tel s) = (t, Ok tt) ->
    step s (MkSystem t (closing s) (due s) (peeked s) (sent s) (emitted s) (delivered s) (lost s) (refused s) (happened s)).

Definition initial (source : bytes) (now : Z) (passing : list N) (ctx : list (option error)) : system :=
  MkSystem (newRuntimeTelemetry source now passing ctx) [] [] [] [] [] [] [] 0 [].

Inductive reachable : system -> Prop :=
| reachable_initial source now passing ctx : 0 < now -> reachable (initial source now passing ctx)
| reachable_step s s' : reachable s -> step s s' -> reachable s'.

(** *** Quiet sections *)
Inductive meta_change (w : Z) (m : RuntimeConnection) : RuntimeConnection -> Prop :=
| meta_same : meta_change w m m
| meta_moved bytesIn bytesOut now rateIn rateOut : w <= now -> meta_change w m (moved_meta bytesIn bytesOut now rateIn rateOut m)
| meta_unlimited : meta_change w m (limited_meta None m)
| meta_limited limit : limit_ok limit -> meta_change w m (limited_meta (Some limit) m).

Definition changed (w : Z) (e e' : runtimeConnection) : Prop :=
  owner e' = owner e /\ has_closer e' = has_closer e /\ closed e' = closed e /\ meta_change w (meta e) (meta e').

Lemma changed_refl w e : changed w e e.
Proof. split_and!; by constructor. Qed.

Lemma alter_changed w f location es : (forall e, es !! location = Some e -> changed w e (f e)) -> Forall2 (changed w) es (alter f location es).
Proof.
  intros Hf. apply Forall2_same_length_lookup. split; [by rewrite length_alter|]. intros i x y Hx. destruct (decide (location = i)) as [<-|Hne].
  - rewrite list_lookup_alter_eq, Hx. intros [= <-]. by apply Hf.
  - rewrite list_lookup_alter_ne by done. rewrite Hx. intros [= <-]. apply changed_refl.
Qed.

Lemma unchanged_entries w es : Forall2 (changed w) es es.
Proof. apply Forall2_same_length_lookup. split; [done|]. intros i x y Hx Hy. rewrite Hx in Hy. injection Hy as <-. apply changed_refl. Qed.

(** A quiet section: connections change, limiters are added. *)
Definition rest_same (t t' : runtimeTelemetry) : Prop :=
  connections t' = connections t /\ events t' = events t /\ opened_total t' = opened_total t /\ closed_total t' = closed_total t
  /\ dropped_total t' = dropped_total t /\ closers t' = closers t /\ wall t <= wall t'.

Lemma rest_same_refl t : rest_same t t.
Proof. by split_and!. Qed.

Lemma rest_same_trans t1 t2 t3 : rest_same t1 t2 -> rest_same t2 t3 -> rest_same t1 t3.
Proof. intros (?&?&?&?&?&?&?) (?&?&?&?&?&?&?). split_and!; try congruence. lia. Qed.

Lemma oracles_rest t t' : oracles_moved t t' -> rest_same t t' /\ entries t' = entries t /\ limiters t' = limiters t.
Proof. intros [H E]. rewrite E. by split_and!. Qed.

Lemma add_limiter_run limit direction t : exists t' o, add_limiter limit direction t = (t', Ok o) /\ rest_same t t' /\ entries t' = entries t.
Proof.
  unfold add_limiter. destruct (directed limit direction); [|exists t, None; split_and!; done || apply rest_same_refl].
  cbv [mbind M_bind]. destruct (time_Now_run t) as (t1 & Ht & Ho). rewrite Ht. apply oracles_rest in Ho as (Hr & He & _).
  destruct (newRuntimeLimiter _ _ (wall t1)); [|by exists t1, None]. cbv [read update mret M_ret].
  eexists _, _. split; [reflexivity|]. split; [|done]. eapply rest_same_trans; [exact Hr|]. by split_and!.
Qed.

Lemma quiet_effect t t' : quiet t t' -> rest_same t t' /\ Forall2 (changed (wall t)) (entries t) (entries t').
Proof.
  intros []; unfold touch, limiter, setLimit, clearLimit, cancel, update_entry, entry_at; cbv [mbind M_bind read update].
  - destruct (time_Now_run t) as (t1 & Ht & Ho). rewrite Ht. pose proof (proj1 Ho) as Hw. apply oracles_rest in Ho as (Hr & He & _). cbn.
    split; [exact Hr|]. rewrite He. apply alter_changed. intros e _. destruct (closed e) eqn:Ec; [apply changed_refl|]. split_and!; try done. by constructor.
  - destruct (time_Now_run t) as (t1 & Ht & Ho). rewrite Ht. apply oracles_rest in Ho as (Hr & He & _).
    assert (Hsame : rest_same t t1 /\ Forall2 (changed (wall t)) (entries t) (entries t1)) by (split; [exact Hr|]; rewrite He; apply unchanged_entries).
    destruct (entries t1 !! location) as [e|]; [|exact Hsame]. cbv zeta.
    destruct (Conn_Limit (meta e)) as [limit|]; [|exact Hsame]. destruct (closed e || _); [|by repeat case_match]. destruct (limit_over limit _); [|exact Hsame].
    cbn. split; [exact Hr|]. rewrite He. apply alter_changed. intros e0 _. split_and!; try done. constructor.
  - destruct (entries t !! location) as [e|] eqn:E; [|split; [apply rest_same_refl | apply unchanged_entries]].
    destruct (closed e) eqn:Ec; [split; [apply rest_same_refl | apply unchanged_entries]|].
    destruct (add_limiter_run limit "in" t) as (t1 & o1 & H1 & Hr1 & He1). rewrite H1.
    destruct (add_limiter_run limit "out" t1) as (t2 & o2 & H2 & Hr2 & He2). rewrite H2. cbn.
    split; [eapply rest_same_trans; [exact Hr1|exact Hr2]|]. rewrite He2, He1. apply alter_changed. intros e0 _. split_and!; try done. by constructor.
  - split; [by split_and!|]. apply alter_changed. intros e _. split_and!; try done. constructor.
  - split; [by split_and!|]. apply alter_changed. intros e _. split_and!; try done. constructor.
  - destruct (time_Now_run t) as (t1 & Ht & Ho). rewrite Ht. apply oracles_rest in Ho as (Hr & He & _). split; [exact Hr|]. cbn. rewrite He. apply unchanged_entries.
  - destruct (runtimeConnectionID_run t) as (t1 & id & Ht & Ho & _). rewrite Ht. apply oracles_rest in Ho as (Hr & He & _). split; [exact Hr|]. cbn. rewrite He. apply unchanged_entries.
Qed.

(** *** Counting *)
Lemma appended_rest event t :
  entries (appended event t) = entries t /\ connections (appended event t) = connections t /\ opened_total (appended event t) = opened_total t
  /\ closed_total (appended event t) = closed_total t /\ closers (appended event t) = closers t /\ wall (appended event t) = wall t.
Proof. unfold appended. cbn. by destruct (llen (events t) >=? runtimeEventQueueLimit). Qed.

Definition live (e : runtimeConnection) : Prop := closed e = false.
#[local] Instance live_dec e : Decision (live e) := _.
Definition alive (es : list runtimeConnection) : nat := List.length (filter live es).
Definition locations (c : list (nat * RuntimeConnection * Z)) : list nat := map (fun x => fst (fst x)) c.

(** The table holds the live connections and those being closed; the totals are its size;
    each transport is closed once. *)
Record accounted (conns : gmap string nat) (es : list runtimeConnection) (o c : Z) (cl : list nat) (cs : list (nat * RuntimeConnection * Z)) (ds : list nat) : Prop := {
  ac_table : forall id l, conns !! id = Some l <-> exists e, es !! l = Some e /\ Conn_ID (meta e) = id /\ (live e \/ l ∈ locations cs);
  ac_closing : forall l v n, (l, v, n) ∈ cs -> exists e, es !! l = Some e /\ Conn_ID (meta e) = Conn_ID v;
  ac_size : size conns = (alive es + List.length cs)%nat;
  ac_total : (c + Z.of_nat (size conns)) mod 2 ^ 64 = o;
  ac_once : NoDup (cl ++ ds ++ locations cs);
  ac_closed : forall l, l ∈ cl ++ ds ++ locations cs -> exists e, es !! l = Some e /\ closed e = true;
  ac_transports : forall l e, es !! l = Some e -> closed e = true -> has_closer e = true -> l ∈ cl ++ ds ++ locations cs;
  ac_room : Z.of_nat (size conns) <= runtimeConnectionLimit
}.

Definition counted (s : system) : Prop :=
  accounted (connections (tel s)) (entries (tel s)) (opened_total (tel s)) (closed_total (tel s)) (closers (tel s)) (closing s) (due s)
  /\ llen (events (tel s)) <= runtimeEventQueueLimit.

Lemma alive_changed w es es' : Forall2 (changed w) es es' -> alive es' = alive es.
Proof.
  unfold alive. induction 1 as [|e e' es es' (_ & _ & Hc & _) _ IH]; [done|]. rewrite !filter_cons.
  destruct (decide (live e')), (decide (live e)); unfold live in *; cbn; congruence.
Qed.

Lemma changed_id w e e' : changed w e e' -> Conn_ID (meta e') = Conn_ID (meta e).
Proof. intros (_ & _ & _ & []); done. Qed.

Lemma accounted_changed w conns es es' o c cl cs ds : Forall2 (changed w) es es' -> accounted conns es o c cl cs ds -> accounted conns es' o c cl cs ds.
Proof.
  intros HF [H1 H2 H3 H4 H5 H6 H7 H8].
  assert (Hto : forall l e, es !! l = Some e -> exists e', es' !! l = Some e' /\ changed w e e') by (intros l e He; by eapply Forall2_lookup_l).
  assert (Hfrom : forall l e', es' !! l = Some e' -> exists e, es !! l = Some e /\ changed w e e') by (intros l e He; by eapply Forall2_lookup_r).
  constructor; try done.
  - intros id l. rewrite H1. split; intros (e & He & Hid & Hl).
    + destruct (Hto _ _ He) as (e' & He' & Hc). exists e'. rewrite (changed_id _ _ _ Hc). unfold live in *. by rewrite (proj1 (proj2 (proj2 Hc))).
    + destruct (Hfrom _ _ He) as (e0 & He0 & Hc). exists e0. rewrite <- (changed_id _ _ _ Hc). unfold live in *. by rewrite <- (proj1 (proj2 (proj2 Hc))).
  - intros l v n Hin. destruct (H2 _ _ _ Hin) as (e & He & Hid). destruct (Hto _ _ He) as (e' & He' & Hc). exists e'. by rewrite (changed_id _ _ _ Hc).
  - by rewrite (alive_changed w es es').
  - intros l Hin. destruct (H6 _ Hin) as (e & He & Hcl). destruct (Hto _ _ He) as (e' & He' & Hc). exists e'. by rewrite (proj1 (proj2 (proj2 Hc))).
  - intros l e' He' Hcl Hh. destruct (Hfrom _ _ He') as (e & He & Hc). destruct Hc as (_ & Hh' & Hcl' & _). apply (H7 l e); congruence.
Qed.

Lemma accounted_register generation m closer conns es o c cl cs ds :
  conns !! Conn_ID m = None -> Z.of_nat (size conns) < runtimeConnectionLimit -> accounted conns es o c cl cs ds ->
  accounted (<[Conn_ID m := List.length es]> conns) (es ++ [MkTracked generation closer m false None None false]) (incr o) c cl cs ds.
Proof.
  intros Hf Hroom [H1 H2 H3 H4 H5 H6 H7 H8]. set (new := MkTracked generation closer m false None None false).
  assert (Hold : forall l e, es !! l = Some e -> (es ++ [new]) !! l = Some e) by (intros l e He; by apply lookup_app_l_Some).
  assert (Hsplit : forall l e, (es ++ [new]) !! l = Some e -> es !! l = Some e \/ (l = List.length es /\ e = new)).
  { intros l e He. apply lookup_app_Some in He as [He|[Hge He]]; [by left|]. apply list_lookup_singleton_Some in He as [Hl <-]. right. split; [lia|done]. }
  assert (Hlt : forall l, l ∈ cl ++ ds ++ locations cs -> (l < List.length es)%nat) by (intros l Hin; destruct (H6 _ Hin) as (e & He & _); by eapply lookup_lt_Some).
  constructor; try done.
  - intros id l. rewrite lookup_insert_Some, H1. split.
    + intros [[<- <-]|[Hne (e & He & Hid & Hl)]]; [exists new|exists e]; split_and!; try done; [by rewrite list_lookup_middle | by left | by apply Hold].
    + intros (e & He & Hid & Hl). destruct (Hsplit _ _ He) as [He0|[-> ->]]; [|by left]. right. split; [|by exists e].
      intros <-. enough (conns !! Conn_ID m = Some l) by congruence. apply H1. by exists e.
  - intros l v n Hin. destruct (H2 _ _ _ Hin) as (e & He & Hid). exists e. split; [by apply Hold|done].
  - rewrite map_size_insert_None, H3 by done. unfold alive. rewrite filter_app, length_app. cbn. unfold live. cbn. destruct (decide (false = false)); [cbn; lia|done].
  - rewrite map_size_insert_None by done. unfold incr. rewrite <- H4, Zplus_mod_idemp_l. f_equal. lia.
  - intros l Hin. destruct (H6 _ Hin) as (e & He & Hcl). exists e. split; [by apply Hold|done].
  - intros l e He Hcl Hh. destruct (Hsplit _ _ He) as [He0|[-> ->]]; [by apply (H7 l e)|done].
  - rewrite map_size_insert_None by done. lia.
Qed.

Lemma alive_ended f : forall es l e, es !! l = Some e -> live e -> (forall x, closed (f x) = true) -> alive es = S (alive (alter f l es)).
Proof.
  unfold alive. induction es as [|x es IH]; intros l e He Hl Hf; [done|]. destruct l as [|l].
  - injection He as ->. cbn [alter list_alter]. rewrite !filter_cons. destruct (decide (live e)); [|done].
    destruct (decide (live (f e))) as [Hc|]; [|done]. unfold live in Hc. by rewrite Hf in Hc.
  - cbn [alter list_alter]. rewrite !filter_cons. specialize (IH l e He Hl Hf). destruct (decide (live x)); cbn; rewrite IH; done.
Qed.

Lemma locations_app a b : locations (a ++ b) = locations a ++ locations b.
Proof. apply map_app. Qed.

Lemma accounted_mark conns es o c cl cs ds l e v now :
  es !! l = Some e -> live e -> Conn_ID v = Conn_ID (meta e) -> accounted conns es o c cl cs ds ->
  accounted conns (alter (ending_entry v) l es) o c cl (cs ++ [(l, v, now)]) ds.
Proof.
  intros He Hlive Hid [H1 H2 H3 H4 H5 H6 H7 H8].
  assert (Hout : l ∉ cl ++ ds ++ locations cs).
  { intros Hin. destruct (H6 _ Hin) as (e' & He' & Hc). rewrite He in He'. injection He' as <-. unfold live in Hlive. congruence. }
  assert (Hat : alter (ending_entry v) l es !! l = Some (ending_entry v e)) by (rewrite list_lookup_alter_eq, He; done).
  assert (Hne : forall l', l' <> l -> alter (ending_entry v) l es !! l' = es !! l') by (intros l' Hn; by apply list_lookup_alter_ne).
  assert (Hcase : forall l' e', alter (ending_entry v) l es !! l' = Some e' ->
     (l' = l /\ e' = ending_entry v e) \/ (l' <> l /\ es !! l' = Some e')).
  { intros l' e' He'. destruct (decide (l' = l)) as [->|Hn]; [left; split; congruence | right; by rewrite <- Hne]. }
  assert (Hback : forall l' e', es !! l' = Some e' -> exists e2, alter (ending_entry v) l es !! l' = Some e2 /\ Conn_ID (meta e2) = Conn_ID (meta e') /\ (closed e' = true -> closed e2 = true)).
  { intros l' e' He'. destruct (decide (l' = l)) as [->|Hn]; [|exists e'; by rewrite Hne].
    exists (ending_entry v e). split_and!; [done | cbn; congruence | done]. }
  constructor; try done; rewrite ?locations_app.
  - intros id l'. rewrite H1. split; intros (e' & He' & Hi & Hl).
    + destruct (decide (l' = l)) as [->|Hn].
      * exists (ending_entry v e). split_and!; [done | cbn; congruence | right]. set_solver.
      * exists e'. rewrite Hne by done. split_and!; try done. set_solver.
    + destruct (Hcase _ _ He') as [[-> ->]|[Hn He0]].
      * exists e. split_and!; [done | cbn in Hi; congruence | by left].
      * exists e'. split_and!; try done. destruct Hl as [Hl|Hl]; [by left|]. right. apply elem_of_app in Hl as [Hl|Hl]; [done|]. cbn in Hl. set_solver.
  - intros l' v' n' Hin. apply elem_of_app in Hin as [Hin|Hin%list_elem_of_singleton].
    + destruct (H2 _ _ _ Hin) as (e' & He' & Hi). destruct (Hback _ _ He') as (e2 & He2 & Hi2 & _). exists e2. split; [done | congruence].
    + injection Hin as -> -> _. exists (ending_entry v e). by split.
  - rewrite H3, (alive_ended (ending_entry v) es l e He Hlive), length_app by done. cbn. lia.
  - rewrite !app_assoc. apply NoDup_app. rewrite <- !app_assoc. split_and!; [done | | apply NoDup_singleton]. intros x Hx ->%list_elem_of_singleton. done.
  - intros l' Hin. assert (l' = l \/ l' ∈ cl ++ ds ++ locations cs) as [->|Hin'] by (change (locations [(l, v, now)]) with [l] in Hin; rewrite !elem_of_app, list_elem_of_singleton in Hin; rewrite !elem_of_app; tauto); [by exists (ending_entry v e)|].
    destruct (H6 _ Hin') as (e' & He' & Hc). destruct (Hback _ _ He') as (e2 & He2 & _ & Hc2). exists e2. split; [done | by apply Hc2].
  - intros l' e' He' Hc Hh. destruct (Hcase _ _ He') as [[-> ->]|[Hn He0]]; [cbn; set_solver|]. specialize (H7 _ _ He0 Hc Hh). set_solver.
Qed.

Lemma accounted_unregister conns es o c cl before l v now after ds :
  accounted conns es o c cl (before ++ (l, v, now) :: after) ds ->
  conns !! Conn_ID v = Some l /\ accounted (delete (Conn_ID v) conns) es o (incr c) cl (before ++ after) (ds ++ [l]).
Proof.
  intros [H1 H2 H3 H4 H5 H6 H7 H8].
  assert (Hin : (l, v, now) ∈ before ++ (l, v, now) :: after) by set_solver.
  assert (Hloc : locations (before ++ (l, v, now) :: after) ≡ₚ l :: locations (before ++ after)).
  { rewrite !locations_app. cbn. symmetry. apply Permutation_middle. }
  destruct (H2 _ _ _ Hin) as (e & He & Hid).
  assert (Hlook : conns !! Conn_ID v = Some l) by (apply H1; exists e; split_and!; [done | done | right; rewrite Hloc; by left]).
  assert (Hperm : cl ++ ds ++ locations (before ++ (l, v, now) :: after) ≡ₚ cl ++ (ds ++ [l]) ++ locations (before ++ after)).
  { rewrite Hloc. apply Permutation_app_head. rewrite <- app_assoc. apply Permutation_app_head. done. }
  assert (Hsize : size (delete (Conn_ID v) conns) = Nat.pred (size conns)) by (rewrite map_size_delete; by rewrite Hlook).
  assert (Hpos : (0 < size conns)%nat) by (rewrite H3, length_app; cbn; lia).
  rewrite Hperm in H5. split; [done|]. constructor; try done.
  - intros id l'. rewrite lookup_delete_Some, H1. split.
    + intros (Hne & e' & He' & Hi & Hl). exists e'. split_and!; [done..|]. destruct Hl as [Hl|Hl]; [by left|right]. rewrite Hloc in Hl.
      apply elem_of_cons in Hl as [->|Hl]; [|done]. exfalso. apply Hne. rewrite He in He'. injection He' as <-. congruence.
    + intros (e' & He' & Hi & Hl). split; [|exists e'; split_and!; [done..|]; destruct Hl as [Hl|Hl]; [by left | right; rewrite Hloc; by right]].
      intros <-. assert (conns !! Conn_ID v = Some l') as Hl'.
      { apply H1. exists e'. split_and!; [done..|]. destruct Hl as [Hl|Hl]; [by left | right; rewrite Hloc; by right]. }
      rewrite Hlook in Hl'. injection Hl' as <-. rewrite He in He'. injection He' as <-. destruct Hl as [Hl|Hl].
      * destruct (H6 l) as (e2 & He2 & Hc); [rewrite Hloc; set_solver|]. rewrite He in He2. injection He2 as <-. unfold live in Hl. congruence.
      * rewrite app_assoc in H5. apply NoDup_app in H5 as (_ & Hd & _). apply (Hd l); [set_solver | done].
  - intros l' v' n' Hin'. apply (H2 _ v' n'). set_solver.
  - rewrite Hsize, H3, !length_app. cbn. lia.
  - rewrite Hsize. unfold incr. rewrite <- H4, Zplus_mod_idemp_l. f_equal. lia.
  - intros l' Hin'. apply H6. by rewrite Hperm.
  - intros l' e' He' Hc Hh. rewrite <- Hperm. by apply (H7 l' e').
  - lia.
Qed.

Lemma accounted_closer conns es o c cl before l after cs e :
  es !! l = Some e -> accounted conns es o c cl cs (before ++ l :: after) ->
  accounted conns es o c (if has_closer e then cl ++ [l] else cl) cs (before ++ after).
Proof.
  intros He [H1 H2 H3 H4 H5 H6 H7 H8].
  assert (Hperm : cl ++ (before ++ l :: after) ++ locations cs ≡ₚ (cl ++ [l]) ++ (before ++ after) ++ locations cs).
  { rewrite <- (Permutation_middle before), <- (app_assoc cl [l]). done. }
  rewrite Hperm in H5. destruct (has_closer e) eqn:Eh; constructor; try done.
  - intros l' Hin. apply H6. by rewrite Hperm.
  - intros l' e' He' Hc Hh. rewrite <- Hperm. by apply (H7 l' e').
  - rewrite <- app_assoc in H5. apply NoDup_app in H5 as (Ha & Hb & Hc). apply NoDup_app. split_and!; [done | | by apply NoDup_app in Hc as (_ & _ & Hc)].
    intros x Hx Hy. apply (Hb x); [done|]. set_solver.
  - intros l' Hin. apply H6. rewrite Hperm. set_solver.
  - intros l' e' He' Hc Hh. specialize (H7 l' e' He' Hc Hh). rewrite Hperm in H7. assert (l' <> l) by (intros ->; congruence). set_solver.
Qed.

(** What an appending section leaves, seen from its state before. *)
Lemma appended_moved event t t1 : oracles_moved t t1 -> llen (events t) <= runtimeEventQueueLimit ->
  entries (appended event t1) = entries t /\ connections (appended event t1) = connections t /\ opened_total (appended event t1) = opened_total t
  /\ closed_total (appended event t1) = closed_total t /\ closers (appended event t1) = closers t
  /\ events (appended event t1) = (if full t then tl (events t) else events t) ++ [event] /\ llen (events (appended event t1)) <= runtimeEventQueueLimit.
Proof.
  intros Ho Hl. apply oracles_rest in Ho as ((H1 & H2 & H3 & H4 & H5 & H6 & H7) & H8 & H9).
  destruct (appended_rest event t1) as (E1 & E2 & E3 & E4 & E5 & E6).
  split_and!; try congruence; [rewrite appended_events by congruence; unfold full; by rewrite H2 | apply appended_bounded; congruence].
Qed.

Lemma ackEvents_run batch t t' r : ackEvents batch t = (t', r) ->
  t' = t \/ (exists front, events t = front ++ events t' /\ map Event_ID front = map Event_ID batch
             /\ t' = with_events (events t') t).
Proof.
  unfold ackEvents, update. intros [= <- _]. destruct (llen batch >? llen (events t)) eqn:El; [by left|].
  destruct (forallb _ _) eqn:Ef; [|by left]. right. bool_facts. exists (firstn (List.length batch) (events t)). cbn.
  split_and!; [by rewrite take_drop | | done]. assert (Hle : (List.length batch <= List.length (events t))%nat) by lia. clear El. revert Ef Hle.
  generalize (events t). induction batch as [|b bs IH]; intros [|q qs]; cbn; [done | done | lia |]. intros [Hq Ht]%andb_true_iff Hle.
  apply String.eqb_eq in Hq. rewrite Hq. f_equal. apply IH; [done | lia].
Qed.

Lemma counted_step s s' : step s s' -> counted s -> counted s'.
Proof.
  intros Hs [Ha He]. unfold counted. destruct Hs; cbn [tel closing due emits]; try done.
  - apply quiet_effect in H as ((E1 & E2 & E3 & E4 & E5 & E6 & _) & HF). rewrite E1, E2, E3, E4, E6. split; [|done]. by eapply accounted_changed.
  - apply register_run in H3 as [(_ & _ & [=])|(Hr & _ & t1 & id & Ho & _ & ->)].
    apply (appended_moved (MkRuntimeEvent id RuntimeEventOpened (Conn_NodeID m) (Conn_ID m) (Some m) "" now)) in Ho as (-> & -> & -> & -> & -> & _ & Hb); [|done].
    split; [by apply accounted_register | done].
  - apply register_run in H as [(_ & -> & _)|(_ & [=] & _)]. done.
  - apply recordRejected_run in H1 as (_ & t1 & id & now & Ho & _ & _ & ->); [|done].
    apply (appended_moved (MkRuntimeEvent id RuntimeEventRejected nodeID connectionID None message now)) in Ho as (-> & -> & -> & -> & -> & _ & Hb); done.
  - apply mark_closed_run in H as [(_ & [=])|(e & t1 & Hl & Hc & Ho & -> & [= -> ->])].
    apply oracles_rest in Ho as ((E1 & E2 & E3 & E4 & E5 & E6 & _) & E7 & _). cbn. rewrite E1, E2, E3, E4, E6, E7. split; [|done].
    eapply accounted_mark; done.
  - rewrite H in Ha. destruct (accounted_unregister _ _ _ _ _ _ _ _ _ _ _ Ha) as [Hl Ha'].
    apply unregister_run in H0 as (_ & t1 & id & Ho & _ & ->). unfold unregistered in Ho. rewrite Hl in Ho. rewrite bool_decide_true in Ho by done.
    apply (appended_moved (MkRuntimeEvent id RuntimeEventClosed (Conn_NodeID value) (Conn_ID value) (Some value) "" now)) in Ho as (-> & -> & -> & -> & -> & _ & Hb); done.
  - unfold call_closer, entry_at in H0. cbv [mbind M_bind read] in H0.
    assert (Hl : exists e, entries (tel s) !! location = Some e /\ closed e = true) by (apply (ac_closed _ _ _ _ _ _ _ Ha); rewrite H, !elem_of_app, elem_of_cons; tauto).
    destruct Hl as (e & Hl & _). rewrite Hl in H0. rewrite H in Ha. pose proof (accounted_closer _ _ _ _ _ _ _ _ _ _ Hl Ha) as Ha'.
    destruct (has_closer e); injection H0 as <-; done.
  - apply announce_limit_run in H0 as (_ & t1 & id & now & Ho & _ & _ & ->).
    apply (appended_moved (MkRuntimeEvent id RuntimeEventRateLimited (Conn_NodeID value) (Conn_ID value) (Some value) "" now)) in Ho as (-> & -> & -> & -> & -> & _ & Hb); done.
  - apply ackEvents_run in H0 as [->|(front & Ef & _ & E)]; [done|]. rewrite E. split; [done|]. cbn. rewrite Ef, length_app in He. lia.
Qed.

Lemma counted_initial source now passing ctx : counted (initial source now passing ctx).
Proof.
  split; [|done]. constructor; try done.
  - intros id l. cbn. rewrite lookup_empty. split; [done|]. intros (e & He & _). by rewrite lookup_nil in He.
  - intros l v n Hin. by apply not_elem_of_nil in Hin.
  - apply NoDup_nil_2.
  - intros l Hin. by apply not_elem_of_nil in Hin.
Qed.

Lemma reachable_counted s : reachable s -> counted s.
Proof. induction 1; [apply counted_initial | by eapply counted_step]. Qed.

(** C27: however the goroutines interleave, the table of connections and the queue stay
    within their limits; the totals differ by the connections in the table, which are the
    live ones and those being closed, each under its own id; and the transport of a closed
    connection is closed once: it has been, or the goroutine that closes it still will. *)
Theorem connections_accounted s :
  reachable s ->
  let t := tel s in
  Z.of_nat (size (connections t)) <= runtimeConnectionLimit /\ llen (events t) <= runtimeEventQueueLimit
  /\ (closed_total t + Z.of_nat (size (connections t))) mod 2 ^ 64 = opened_total t
  /\ size (connections t) = (alive (entries t) + List.length (closing s))%nat
  /\ (forall l e, entries t !! l = Some e -> closed e = false -> connections t !! Conn_ID (meta e) = Some l)
  /\ NoDup (closers t)
  /\ (forall l, l ∈ closers t -> exists e, entries t !! l = Some e /\ closed e = true)
  /\ (forall l e, entries t !! l = Some e -> closed e = true -> has_closer e = true -> closing s = [] -> due s = [] -> l ∈ closers t).
Proof.
  intros H. apply reachable_counted in H as [[H1 H2 H3 H4 H5 H6 H7 H8] He]. intros t. subst t. split_and!; try done.
  - intros l e Hl Hc. apply H1. exists e. split_and!; [done | done | by left].
  - by apply NoDup_app in H5 as (H5 & _).
  - intros l Hl. apply H6. set_solver.
  - intros l e Hl Hc Hh Ec Ed. specialize (H7 l e Hl Hc Hh). rewrite Ec, Ed, !app_nil_r in H7. done.
Qed.

(** *** Delivery *)
Record tracked (s : system) : Prop := {
  tr_told : Forall2 tells (emitted s) (happened s);
  tr_queue : exists gone, emitted s = gone ++ events (tel s) /\ Forall (fun e => e ∈ delivered s \/ e ∈ lost s) gone;
  tr_peeked : Forall (fun batch => exists before after, emitted s = before ++ batch ++ after) (peeked s);
  tr_sent : Forall (fun batch => batch ⊆ delivered s /\ exists before after, emitted s = before ++ batch ++ after) (sent s);
  tr_dropped : dropped_total (tel s) = (refused s + llen (lost s)) mod 2 ^ 64
}.

Lemma cloneRuntimeEvent_id e : cloneRuntimeEvent e = e.
Proof. destruct e as [? ? ? ? [[]|] ? ?]; done. Qed.

Lemma Forall_weaken {A} (P Q : A -> Prop) l : Forall P l -> (forall x, P x -> Q x) -> Forall Q l.
Proof. intros H HPQ. by eapply Forall_impl. Qed.

Ltac tell := do 2 eexists; split; [reflexivity | first [by left | by right]].

(** A step that appends [event] to the queue of [t1], which is that of the state. *)
Lemma tracked_emits s o t1 event c d :
  tracked s -> tells event o -> llen (events (tel s)) <= runtimeEventQueueLimit -> events t1 = events (tel s) -> dropped_total t1 = dropped_total (tel s) ->
  tracked (emits s o (appended event t1) c d).
Proof.
  intros [Ht (gone & E & Hg) Hp Hs Hd] Ho Hl Ee Ed.
  assert (Hev : events (appended event t1) = (if full (tel s) then tl (events (tel s)) else events (tel s)) ++ [event])
    by (rewrite appended_events by congruence; unfold full; by rewrite Ee).
  assert (Hnew : newest (appended event t1) = [event]) by (unfold newest; by rewrite Hev, last_snoc).
  constructor; cbn [emits tel peeked sent emitted delivered lost refused happened]; rewrite ?Hnew.
  - apply Forall2_app; [exact Ht | by constructor].
  - exists (gone ++ overflow (tel s)). split.
    + rewrite E, Hev. unfold overflow. destruct (full (tel s)); [|by rewrite app_nil_r, app_assoc]. by destruct (events (tel s)); rewrite <- !app_assoc.
    + apply Forall_app. split; [eapply Forall_weaken; [exact Hg|]; intros x [Hx|Hx]; [by left | right; set_solver]|].
      apply Forall_forall. intros x Hx. right. set_solver.
  - eapply Forall_weaken; [exact Hp|]. intros b (p & q & Eb). exists p, (q ++ [event]). by rewrite Eb, !app_assoc.
  - eapply Forall_weaken; [exact Hs|]. intros b (Hb & p & q & Eb). split; [done|]. exists p, (q ++ [event]). by rewrite Eb, !app_assoc.
  - unfold appended, overflow, full. cbn. rewrite Ee. destruct (llen (events (tel s)) >=? runtimeEventQueueLimit) eqn:El; cbn.
    + unfold incr. rewrite Ed, Hd, length_app, Zplus_mod_idemp_l. f_equal. bool_facts. rewrite length_take. unfold runtimeEventQueueLimit in *. lia.
    + by rewrite Ed, Hd, app_nil_r.
Qed.

(** A step that leaves the queue alone. *)
Lemma tracked_same s t c d : tracked s -> events t = events (tel s) -> dropped_total t = dropped_total (tel s) ->
  tracked (MkSystem t c d (peeked s) (sent s) (emitted s) (delivered s) (lost s) (refused s) (happened s)).
Proof. intros [Ht Hq Hp Hs Hd] Ee Ed. constructor; cbn; [done | by rewrite Ee | done | done | by rewrite Ed]. Qed.

(** Events of one history are told apart by their ids. *)
Lemma same_ids_same (all front batch before after gone rest : list RuntimeEvent) :
  NoDup (map Event_ID all) -> all = gone ++ front ++ rest -> all = before ++ batch ++ after -> map Event_ID front = map Event_ID batch -> front = batch.
Proof.
  intros Hn E1 E2. assert (Hi : forall x y, x ∈ all -> y ∈ all -> Event_ID x = Event_ID y -> x = y).
  { intros x y Hx Hy Hid. apply list_elem_of_lookup_1 in Hx as [i Hi], Hy as [j Hj].
    assert (i = j) as <- by (eapply (NoDup_lookup (map Event_ID all)); [done | by rewrite list_lookup_fmap, Hi | rewrite list_lookup_fmap, Hj; cbn; by rewrite Hid]). congruence. }
  assert (Hf : front ⊆ all) by (rewrite E1; set_solver). assert (Hb : batch ⊆ all) by (rewrite E2; set_solver). clear E1 E2 Hn. revert batch Hb.
  induction front as [|x xs IH]; intros [|y ys] Hb; cbn; try done. intros [= Hid Hrest].
  rewrite (Hi x y); [|set_solver|set_solver|done]. f_equal. apply IH; set_solver.
Qed.

Lemma tracked_ack s batch t : tracked s -> NoDup (map Event_ID (emitted s)) -> batch ∈ sent s -> ackEvents batch (tel s) = (t, Ok tt) ->
  tracked (MkSystem t (closing s) (due s) (peeked s) (sent s) (emitted s) (delivered s) (lost s) (refused s) (happened s)).
Proof.
  intros Ht Hn Hin H. apply ackEvents_run in H as [->|(front & Ef & Hids & ->)]; [by apply tracked_same|].
  destruct Ht as [Htold (gone & E & Hg) Hp Hs Hd]. pose proof (proj1 (Forall_forall _ _) Hs _ Hin) as (Hdel & p & q & Eb).
  rewrite Ef in E. rewrite (same_ids_same _ front batch p q gone _ Hn E Eb Hids) in E.
  constructor; try done. cbn. exists (gone ++ batch). split; [by rewrite <- app_assoc|]. apply Forall_app. split; [done|].
  apply Forall_forall. intros x Hx. left. by apply Hdel.
Qed.

Lemma tracked_step s s' : step s s' -> counted s -> NoDup (map Event_ID (emitted s)) -> tracked s -> tracked s'.
Proof.
  intros Hs [_ Hl] Hn Ht. destruct Hs.
  - apply quiet_effect in H as ((_ & E2 & _ & _ & E5 & _) & _). by apply tracked_same.
  - apply register_run in H3 as [(_ & _ & [=])|(_ & _ & t1 & id & Ho & _ & ->)]. apply oracles_rest in Ho as ((_ & E2 & _ & _ & E5 & _) & _). apply tracked_emits; try done; tell.
  - apply register_run in H as [(_ & -> & _)|(_ & [=] & _)]. destruct Ht as [Htold Hq Hp Hs Hd]. constructor; try done. cbn. unfold incr.
    rewrite Hd, Zplus_mod_idemp_l. f_equal. lia.
  - apply recordRejected_run in H1 as (_ & t1 & id & now & Ho & _ & _ & ->); [|done]. apply oracles_rest in Ho as ((_ & E2 & _ & _ & E5 & _) & _). apply tracked_emits; try done; tell.
  - apply mark_closed_run in H as [(_ & [=])|(e & t1 & _ & _ & Ho & -> & _)]. apply oracles_rest in Ho as ((_ & E2 & _ & _ & E5 & _) & _). by apply tracked_same.
  - apply unregister_run in H0 as (_ & t1 & id & Ho & _ & ->). apply oracles_rest in Ho as ((_ & E2 & _ & _ & E5 & _) & _).
    assert (Hu : events (unregistered location value (tel s)) = events (tel s) /\ dropped_total (unregistered location value (tel s)) = dropped_total (tel s))
      by (unfold unregistered; by case_bool_decide). destruct Hu. apply tracked_emits; try congruence; tell.
  - unfold call_closer, entry_at in H0. cbv [mbind M_bind read] in H0. destruct (entries (tel s) !! location) as [e|]; [destruct (has_closer e)|]; injection H0 as <-; by apply tracked_same.
  - apply announce_limit_run in H0 as (_ & t1 & id & now & Ho & _ & _ & ->). apply oracles_rest in Ho as ((_ & E2 & _ & _ & E5 & _) & _). apply tracked_emits; try done; tell.
  - injection H as Hb. destruct Ht as [Htold (gone & E & Hg) Hp Hs Hd]. constructor; try done; [by exists gone|]. constructor; [|done].
    destruct (max <=? 0); [rewrite <- Hb; by exists [], (emitted s)|]. rewrite (map_ext _ id cloneRuntimeEvent_id), map_id in Hb.
    set (n := Z.to_nat (Z.min max (llen (events (tel s))))) in Hb. exists gone, (skipn n (events (tel s))). cbn. rewrite E, <- Hb. by rewrite take_drop.
  - destruct Ht as [Htold (gone & E & Hg) Hp Hs Hd]. constructor; try done; cbn.
    + exists gone. split; [done|]. eapply Forall_weaken; [exact Hg|]. intros x [Hx|Hx]; [left; set_solver | by right].
    + constructor; [split; [set_solver|]; by apply (proj1 (Forall_forall _ _) Hp)|]. eapply Forall_weaken; [exact Hs|]. intros b [Hb Hpq]. split; [set_solver|done].
  - by eapply tracked_ack.
Qed.

Lemma emitted_grows s s' : step s s' -> exists more, emitted s' = emitted s ++ more.
Proof. intros []; cbn; first [by (exists []; rewrite app_nil_r) | by eexists]. Qed.

(** C26: however opening, closing, limiting, refusing and reporting interleave, no event is
    lost unseen: the connections that were opened, closed, limited or refused for a reason,
    in the order in which that happened, are told by as many events, and each of these has
    been sent to the Controller, or is still queued for it, or was pushed out of a full
    queue and counted (the ids of the events being distinct). *)
Theorem no_event_lost s :
  reachable s -> NoDup (map Event_ID (emitted s)) ->
  Forall2 tells (emitted s) (happened s)
  /\ (exists gone, emitted s = gone ++ events (tel s) /\ Forall (fun e => e ∈ delivered s \/ e ∈ lost s) gone)
  /\ dropped_total (tel s) = (refused s + llen (lost s)) mod 2 ^ 64.
Proof.
  intros H Hn. enough (tracked s) as [Ht Hq _ _ Hd] by done. revert Hn. induction H as [source now passing ctx Hnow|s s' Hr IH Hs]; intros Hn.
  - constructor; try done. by exists [].
  - destruct (emitted_grows _ _ Hs) as [more E]. assert (Hn0 : NoDup (map Event_ID (emitted s))) by (rewrite E, map_app in Hn; by apply NoDup_app in Hn as (Hn & _)).
    eapply tracked_step; [exact Hs | by apply reachable_counted | done | by apply IH].
Qed.
End Steps.

(** ** A connection opened, closed and reported *)
Definition sample_connection : RuntimeConnection :=
  MkRuntimeConnection "conn-1" "tcp" "node-1" "" "" "" "" "web" "tcp" "192.0.2.7" 50123 "" "" 5 5 None RuntimeStateActive "" 0 0
    (S754_zero false) (S754_zero false) None.
Definition any_connection (_ : RuntimeConnection) := True.
Definition any_limit (_ : RuntimeRateLimit) := True.
Definition any_rejection (_ _ _ : string) := True.
Abbreviation any_step := (step any_connection any_limit any_rejection).

Definition started : system := initial [] 5 [1%N; 1%N; 1%N] [].
Definition after_open : system := emits started (about_connection RuntimeEventOpened sample_connection (Some 5)) (fst (register 1 sample_connection true 5 (tel started))) [] [].
Definition ended : RuntimeConnection := ended_meta "peer_closed" 7 sample_connection.
Definition after_mark : system :=
  MkSystem (fst (mark_closed 0 "peer_closed" (tel after_open))) [(0%nat, ended, 7)] [] [] [] (emitted after_open) [] [] 0 (happened after_open).
Definition after_close : system := emits after_mark (about_connection RuntimeEventClosed ended (Some 7)) (fst (unregister 0 ended 7 (tel after_mark))) [] [0%nat].

Lemma step_to_open : any_step started after_open.
Proof.
  refine (step_open _ _ _ started 1 sample_connection true 5 (fst (register 1 sample_connection true 5 (tel started))) 0%nat I _ _ _ _);
    [cbn; lia | cbn; lia | reflexivity | vm_compute; reflexivity].
Qed.
Lemma step_to_mark : any_step after_open after_mark.
Proof.
  refine (step_mark _ _ _ after_open 0 "peer_closed" ended 7 (fst (mark_closed 0 "peer_closed" (tel after_open))) _). vm_compute. reflexivity.
Qed.
Lemma step_to_close : any_step after_mark after_close.
Proof.
  refine (step_unregister _ _ _ after_mark [] 0 ended 7 [] (fst (unregister 0 ended 7 (tel after_mark))) eq_refl _). vm_compute. reflexivity.
Qed.

Lemma sample_reachable : reachable any_connection any_limit any_rejection after_close.
Proof.
  eapply reachable_step; [|exact step_to_close]. eapply reachable_step; [|exact step_to_mark]. eapply reachable_step; [|exact step_to_open].
  by apply reachable_initial.
Qed.

Lemma connections_accounted_witness :
  opened_total (tel after_close) = 1 /\ closed_total (tel after_close) = 1 /\ List.length (events (tel after_close)) = 2%nat
  /\ (closed_total (tel after_close) + Z.of_nat (size (connections (tel after_close)))) mod 2 ^ 64 = opened_total (tel after_close).
Proof.
  split_and!; [vm_compute; reflexivity..|].
  destruct (@connections_accounted any_connection any_limit any_rejection after_close sample_reachable) as (_ & _ & H & _). exact H.
Defined.

Lemma no_event_lost_witness :
  happened after_close = [about_connection RuntimeEventOpened sample_connection (Some 5); about_connection RuntimeEventClosed ended (Some 7)]
  /\ Forall2 tells (emitted after_close) (happened after_close) /\ exists gone, emitted after_close = gone ++ events (tel after_close).
Proof.
  split; [vm_compute; reflexivity|].
  destruct (@no_event_lost any_connection any_limit any_rejection after_close sample_reachable) as (Ht & (gone & E & _) & _).
  - apply (bool_decide_unpack _). vm_compute. exact I.
  - split; [exact Ht|]. by exists gone.
Defined.
