(* ===== verification/TelemetryReports.v ===== *)
(** * The reports of the telemetry registry are well formed

    What the registry sends passes the validation of [Report] when its callers pass valid
    connections and limits; what happens when they do not. *)
From S2P Require Import Prelude GoStd GoNet Domain Checksum Validation Snapshot Samples SnapshotFacts Report ReportFacts Datagram Json Effects.
From S2P Require Import ControlWire NodeCache NodeRuntime NodeLoop Telemetry TelemetryFacts.
From Stdlib Require Import SpecFloat.

Lemma seq_Ok (m k : result unit) : (_ ← m; k) = Ok tt <-> m = Ok tt /\ k = Ok tt.
Proof. destruct m as [[]|e]; cbn; split; [done | by intros [_ ?] | done | by intros [? _]]. Qed.

Lemma length_omap_le {A B} (f : A -> option B) l : (List.length (omap f l) <= List.length l)%nat.
Proof. induction l as [|x l IH]; [done|]. cbn. destruct (f x); cbn; lia. Qed.

Section Validity.
Context `{MO : !MapOrder} (node : string).
Hypothesis node_valid : valid_id node.

(** The part of the validation that no section of the registry affects. *)
Definition static_ok (c : RuntimeConnection) : Prop :=
  ValidateID (Conn_ID c) (TLit "runtime_connection.id") = Ok tt
  /\ ValidateID (Conn_NodeID c) (TLit "runtime_connection.node_id") = Ok tt
  /\ in_strings (Conn_Type c) runtime_connection_types = true
  /\ in_strings (Conn_Protocol c) [""; ProtocolTCP; ProtocolUDP; "quic"] = true
  /\ check_each (fun _ '(name, value) =>
          if String.eqb value "" then Ok tt else ValidateID value (TLit ("runtime_connection." +:+ name)))
        (range_order [("peer_node_id", Conn_PeerNodeID c); ("gateway_id", Conn_GatewayID c); ("agent_id", Conn_AgentID c);
                      ("assignment_id", Conn_AssignmentID c); ("service_id", Conn_ServiceID c);
                      ("parent_session_id", Conn_ParentSessionID c)]) = Ok tt
  /\ (if String.eqb (Conn_SourceIP c) "" then Ok tt else
         _ ← map_err (EWrap "runtime connection source_ip is invalid: %w" []) (netip.ParseAddr (Conn_SourceIP c)); Ok tt) = Ok tt
  /\ (slen (Conn_Target c) >? 2048) || strings.ContainsAny (Conn_Target c) nul_cr_lf = false.

Lemma Connection_Validate_iff c :
  Connection_Validate c = Ok tt <->
  static_ok c /\ in_strings (Conn_State c) runtime_states = true
  /\ Conn_StartedAt c <> 0 /\ Conn_LastActivityAt c <> 0
  /\ match Conn_EndedAt c with Some t => Conn_StartedAt c <= t | None => True end
  /\ match Conn_Limit c with Some l => RateLimit_Validate l = Ok tt | None => True end.
Proof.
  unfold Connection_Validate, static_ok. rewrite !seq_Ok, !reject_if_Ok, !negb_false_iff. unfold is_zero_time.
  rewrite (orb_false_iff (Conn_StartedAt c =? 0)), !Z.eqb_neq.
  assert (match Conn_EndedAt c with Some t => t <? Conn_StartedAt c | None => false end = false
          <-> match Conn_EndedAt c with Some t => Conn_StartedAt c <= t | None => True end) as -> by (destruct (Conn_EndedAt c); [apply Z.ltb_ge | done]).
  destruct (Conn_Limit c); tauto.
Qed.

(** A connection of the node, as an opener describes it. *)
Definition good_connection (c : RuntimeConnection) : Prop := Connection_Validate c = Ok tt /\ Conn_NodeID c = node.
Definition good_limit (l : RuntimeRateLimit) : Prop := RateLimit_Validate l = Ok tt.
Definition good_rejection (nodeID connectionID message : string) : Prop :=
  nodeID = node /\ (connectionID = "" \/ valid_id connectionID) /\ slen message <= 1024 /\ strings.ContainsAny message nul_cr_lf = false.

Lemma good_changed w m m' : 0 < w -> meta_change good_limit w m m' -> good_connection m -> good_connection m'.
Proof.
  intros Hw Hm [Hv Hn]. destruct Hm; [done|..]; (split; [|done]); apply Connection_Validate_iff in Hv as (Hs & ? & ? & ? & ? & ?); apply Connection_Validate_iff; cbn; split_and!; try done; lia.
Qed.

Lemma good_ended reason now m : 0 < now -> Conn_StartedAt m <= now -> good_connection m -> good_connection (ended_meta reason now m).
Proof.
  intros Hw Hs [Hv Hn]. split; [|done]. apply Connection_Validate_iff in Hv as (? & ? & ? & ? & ? & ?). apply Connection_Validate_iff. cbn. split_and!; try done. lia.
Qed.

Definition good_event (e : RuntimeEvent) : Prop := Event_Validate e = Ok tt /\ Event_NodeID e = node.

Lemma in_types (type : string) : In type ["opened"; "closed"; "rejected"; "rate_limited"] -> in_strings type runtime_event_types = true.
Proof. by intros [<-|[<-|[<-|[<-|[]]]]]. Qed.

(** An event about one connection. *)
Lemma connection_event_good id type c now :
  valid_id id -> In type ["opened"; "closed"; "rate_limited"] -> 0 < now -> good_connection c ->
  good_event (MkRuntimeEvent id type (Conn_NodeID c) (Conn_ID c) (Some c) "" now).
Proof.
  intros Hid Ht Hnow [Hv Hn]. split; [|done]. pose proof Hv as Hv0. apply Connection_Validate_iff in Hv as ((Hcid & _) & _).
  apply ValidateID_iff in Hcid. assert (Hne : String.eqb (Conn_ID c) "" = false).
  { apply String.eqb_neq. intros E. rewrite E in Hcid. destruct Hcid as [[Hl _] _]. cbn in Hl. lia. }
  unfold Event_Validate. cbn [Event_ID Event_NodeID Event_Type Event_ConnectionID Event_Connection Event_Message Event_CreatedAt].
  rewrite !seq_Ok, !reject_if_Ok, Hne, Hv0. split_and!; try done.
  - by apply ValidateID_iff.
  - rewrite Hn. by apply ValidateID_iff.
  - rewrite in_types; [done|]. destruct Ht as [<-|[<-|[<-|[]]]]; cbn; tauto.
  - by apply ValidateID_iff.
  - by rewrite String.eqb_refl.
  - by rewrite String.eqb_refl.
  - unfold is_zero_time. apply Z.eqb_neq. lia.
Qed.

Lemma rejection_event_good id connectionID message now :
  valid_id id -> 0 < now -> good_rejection node connectionID message ->
  good_event (MkRuntimeEvent id RuntimeEventRejected node connectionID None message now).
Proof.
  intros Hid Hnow (_ & Hc & Hm & Hctl). split; [|done].
  unfold Event_Validate. cbn [Event_ID Event_NodeID Event_Type Event_ConnectionID Event_Connection Event_Message Event_CreatedAt].
  rewrite !seq_Ok, !reject_if_Ok, Hctl. split_and!; try done.
  - by apply ValidateID_iff.
  - by apply ValidateID_iff.
  - by rewrite andb_false_r.
  - destruct (String.eqb_spec connectionID ""); [done|]. destruct Hc as [Hc|Hc]; [done|]. by apply ValidateID_iff.
  - rewrite orb_false_r. rewrite Z.gtb_ltb. apply Z.ltb_ge. done.
  - unfold is_zero_time. apply Z.eqb_neq. lia.
Qed.

(** ** Every reachable state *)
Abbreviation reachable_ok := (reachable good_connection good_limit good_rejection).

Record well_formed (s : system) : Prop := {
  wf_clock : 0 < wall (tel s);
  wf_entries : Forall (fun e => good_connection (meta e) /\ (live e -> Conn_StartedAt (meta e) <= wall (tel s))) (entries (tel s));
  wf_events : Forall good_event (events (tel s));
  wf_closing : Forall (fun x => good_connection (snd (fst x)) /\ 0 < snd x) (closing s)
}.

Lemma appended_good event t t1 : oracles_moved t t1 -> llen (events t) <= runtimeEventQueueLimit -> Forall good_event (events t) -> good_event event ->
  Forall good_event (events (appended event t1)) /\ entries (appended event t1) = entries t /\ wall t <= wall (appended event t1).
Proof.
  intros Ho Hl Hf Hg. pose proof (proj1 Ho) as Hw. destruct (appended_moved event t t1 Ho Hl) as (-> & _ & _ & _ & _ & -> & _).
  destruct (appended_rest event t1) as (_ & _ & _ & _ & _ & ->). split_and!; [|done|done].
  apply Forall_app. split; [|by constructor]. destruct (full t); [|done]. destruct (events t); [done|]. by apply Forall_cons in Hf as [_ Hf].
Qed.

Lemma entries_later (es : list runtimeConnection) w w' : w <= w' ->
  Forall (fun e => good_connection (meta e) /\ (live e -> Conn_StartedAt (meta e) <= w)) es ->
  Forall (fun e => good_connection (meta e) /\ (live e -> Conn_StartedAt (meta e) <= w')) es.
Proof. intros Hw H. eapply Forall_impl; [exact H|]. intros e [Hg Hl]. split; [done|]. intros He. specialize (Hl He). lia. Qed.

Lemma changed_started w e e' : changed good_limit w e e' -> Conn_StartedAt (meta e') = Conn_StartedAt (meta e).
Proof. intros (_ & _ & _ & []); done. Qed.

Lemma entries_changed w es es' : 0 < w -> Forall2 (changed good_limit w) es es' ->
  Forall (fun e => good_connection (meta e) /\ (live e -> Conn_StartedAt (meta e) <= w)) es ->
  Forall (fun e => good_connection (meta e) /\ (live e -> Conn_StartedAt (meta e) <= w)) es'.
Proof.
  intros Hw. induction 1 as [|e e' es es' Hc _ IH]; intros H; [done|]. apply Forall_cons in H as [[Hg Hl] H]. constructor; [|by apply IH].
  pose proof Hc as (_ & _ & Hcl & Hm). split; [by eapply good_changed|]. unfold live. rewrite (changed_started _ _ _ Hc), Hcl. exact Hl.
Qed.

(** A step that appends a good event to the queue of a state with the same connections. *)
Lemma well_formed_emits s o t t1 event c d :
  oracles_moved t t1 -> events t = events (tel s) -> wall t = wall (tel s) -> llen (events (tel s)) <= runtimeEventQueueLimit ->
  Forall (fun e => good_connection (meta e) /\ (live e -> Conn_StartedAt (meta e) <= wall t)) (entries t) ->
  Forall (fun x => good_connection (snd (fst x)) /\ 0 < snd x) c -> well_formed s -> good_event event ->
  well_formed (emits s o (appended event t1) c d).
Proof.
  intros Ho Ee Ew Hl Hes Hc [Hw _ Hev _] Hg. rewrite <- Ee in Hev, Hl. destruct (appended_good event t t1 Ho Hl Hev Hg) as (He & Hen & Hwt).
  rewrite Ew in Hwt, Hes. constructor; cbn [emits tel closing]; [lia | | done | done]. rewrite Hen. by eapply entries_later.
Qed.

Lemma well_formed_step s s' : counted s -> step good_connection good_limit good_rejection s s' -> well_formed s -> well_formed s'.
Proof.
  intros [_ Hl] Hs Hwf. pose proof Hwf as [Hw Hes Hev Hc]. destruct Hs.
  - apply quiet_effect in H as ((_ & E2 & _ & _ & _ & _ & E7) & HF). constructor; cbn; [lia | | by rewrite E2 | done].
    eapply entries_later; [exact E7|]. by eapply entries_changed.
  - apply register_run in H3 as [(_ & _ & [=])|(_ & _ & t1 & id & Ho & Hid & ->)].
    eapply (well_formed_emits s _ _ t1); [exact Ho | done | done | done | | done | done | apply connection_event_good; [done | cbn; tauto | lia | done]].
    cbn. apply Forall_app. split; [done|]. constructor; [|done]. split; [done|]. cbn. lia.
  - apply register_run in H as [(_ & -> & _)|(_ & [=] & _)]. by constructor.
  - apply recordRejected_run in H1 as (_ & t1 & id & now & Ho & Hid & Hn & ->); [|done]. pose proof H0 as (-> & _).
    eapply (well_formed_emits s _ _ t1); [exact Ho | done | done | done | done | done | done | apply rejection_event_good; [done | lia | done]].
  - apply mark_closed_run in H as [(_ & [=])|(e & t1 & He & Hlive & Ho & -> & [= -> ->])]. pose proof (proj1 Ho) as Hw1.
    apply oracles_rest in Ho as ((_ & E2 & _ & _ & _ & _ & E7) & E8 & _).
    assert (Hge : good_connection (ended_meta reason (wall t1) (meta e))).
    { destruct (proj1 (Forall_lookup _ _) Hes _ _ He) as [Hg Hst]. specialize (Hst Hlive). apply good_ended; [lia | lia | done]. }
    constructor; cbn; [lia | | by rewrite E2 |].
    + rewrite E8. apply entries_later with (w' := wall t1) in Hes; [|done]. apply Forall_lookup. intros i x Hx. destruct (decide (location = i)) as [<-|Hne].
      * rewrite list_lookup_alter_eq, He in Hx. injection Hx as <-. by split.
      * rewrite list_lookup_alter_ne in Hx by done. by apply (proj1 (Forall_lookup _ _) Hes i).
    + apply Forall_app. split; [done|]. constructor; [|done]. cbn. split; [done | lia].
  - rewrite H in Hc. apply Forall_app in Hc as [Hb Ha]. apply Forall_cons in Ha as [[Hg Hn] Ha]. cbn in Hg, Hn.
    apply unregister_run in H0 as (_ & t1 & id & Ho & Hid & ->).
    assert (Hu : events (unregistered location value (tel s)) = events (tel s) /\ wall (unregistered location value (tel s)) = wall (tel s)
              /\ entries (unregistered location value (tel s)) = entries (tel s)) by (unfold unregistered; by case_bool_decide).
    destruct Hu as (E1 & E2 & E3).
    eapply (well_formed_emits s _ _ t1); [exact Ho | done | done | done | by rewrite E2, E3 | by apply Forall_app | done | apply connection_event_good; [done | cbn; tauto | lia | done]].
  - unfold call_closer, entry_at in H0. cbv [mbind M_bind read] in H0. destruct (entries (tel s) !! location) as [e|]; [destruct (has_closer e)|]; injection H0 as <-; by constructor.
  - unfold entry_snapshot in H. destruct (entries (tel s) !! location) as [e|] eqn:He; [|done]. destruct (closed e); [done|]. injection H as <-.
    apply announce_limit_run in H0 as (_ & t1 & id & now & Ho & Hid & Hn & ->). pose proof (proj1 (proj1 (Forall_lookup _ _) Hes _ _ He)) as Hg.
    eapply (well_formed_emits s _ _ t1); [exact Ho | done | done | done | done | done | done |]. destruct (meta e). apply connection_event_good; [done | cbn; tauto | lia | done].
  - by constructor.
  - by constructor.
  - apply ackEvents_run in H0 as [->|(front & Ef & _ & ->)]; [by constructor|]. constructor; try done. cbn. rewrite Ef in Hev. by apply Forall_app in Hev as [_ Hev].
Qed.

Lemma reachable_well_formed s : reachable_ok s -> well_formed s.
Proof.
  induction 1 as [source now passing ctx Hnow|s s' Hr IH Hs]; [by constructor|]. eapply well_formed_step; [by eapply reachable_counted | exact Hs | exact IH].
Qed.

(** A node whose openers describe its own connections, and whose limits are within the
    bounds of the domain, reports well-formed telemetry: every queued event validates, and
    so does every snapshot, although its connections are read one by one while others
    open, close and move bytes. *)
Theorem telemetry_validates before after now :
  reachable_ok before -> reachable_ok after -> now <> 0 ->
  Forall (fun e => Event_Validate e = Ok tt) (events (tel after))
  /\ RuntimeSnapshot_Validate (snapshot_of node now (table_entries (tel before)) (totals (tel before)) (tel after)) = Ok tt.
Proof.
  intros Hb Ha Hn. pose proof (reachable_well_formed _ Ha) as [_ Hes Hev _]. split; [eapply Forall_impl; [exact Hev|]; by intros e [He _]|].
  apply reachable_counted in Hb as [[_ _ _ _ _ _ _ Hroom] _]. unfold RuntimeSnapshot_Validate. rewrite !seq_Ok, !reject_if_Ok. cbn [snapshot_of RSnapshot_NodeID RSnapshot_ObservedAt RSnapshot_Connections].
  split_and!; [by apply ValidateID_iff | by apply Z.eqb_neq | |].
  - rewrite Z.gtb_ltb. apply Z.ltb_ge. pose proof (length_omap_le (fun l => entry_snapshot l (tel after)) (table_entries (tel before))) as Hle.
    unfold table_entries in Hle at 2. rewrite length_map, range_order_perm, length_map_to_list in Hle. unfold runtimeConnectionLimit in Hroom. lia.
  - apply check_each_Forall, Forall_forall. intros c Hc. apply list_elem_of_omap in Hc as (l & _ & Hc). unfold entry_snapshot in Hc.
    destruct (entries (tel after) !! l) as [e|] eqn:He; [|done]. destruct (closed e); [done|]. injection Hc as <-.
    destruct (proj1 (proj1 (Forall_lookup _ _) Hes _ _ He)) as [Hv Hnode]. destruct (meta e). unfold cloneRuntimeConnection. cbn in *. rewrite Hv. cbn. by rewrite Hnode, String.eqb_refl.
Qed.
End Validity.

(** ** A node at which the hypotheses hold *)
Definition sample_limit : RuntimeRateLimit := MkRuntimeRateLimit "both" 1000 500 100.

Lemma telemetry_validates_witness :
  reachable (@good_connection go_order "node-1") good_limit (good_rejection "node-1") after_open
  /\ @RuntimeSnapshot_Validate go_order (@snapshot_of "node-1" 9 [0%nat] (totals (tel after_open)) (tel after_open)) = Ok tt.
Proof.
  assert (Hr : reachable (@good_connection go_order "node-1") good_limit (good_rejection "node-1") after_open).
  { eapply reachable_step; [by apply (reachable_initial _ _ _ [] 5 [1%N; 1%N; 1%N] [])|].
    refine (step_open _ _ _ started 1 sample_connection true 5 (fst (register 1 sample_connection true 5 (tel started))) 0%nat _ _ _ _ _);
      [split; vm_compute; reflexivity | cbn; lia | cbn; lia | reflexivity | vm_compute; reflexivity]. }
  split; [exact Hr|]. assert (Hv : valid_id "node-1") by (apply (ValidateID_iff _ (TLit "")); vm_compute; reflexivity).
  destruct (@telemetry_validates go_order "node-1" Hv after_open after_open 9 Hr Hr) as [_ H]; [lia|].
  replace (@table_entries go_order (tel after_open)) with [0%nat] in H by (vm_compute; reflexivity). exact H.
Defined.

(** A limit beyond the bounds of the domain is accepted from an operator; from then on no
    batch with a snapshot is sent, and the loop ends. *)
Definition no_overflow : FloatOverflow := {| float_overflow _ := 0 |}.
Definition fast_request : runtimeActionRequest :=
  MkActionRequest "rate_limit" (MkSelector "" "" "" "" "" "") "" "" (2 ^ 41) (2 ^ 41) 60.
Definition limited : runtimeTelemetry * result Z :=
  @applyAction go_order (one_json fast_request) "runtime_connection" one_document (tel after_open).
Definition limited_snapshot : RuntimeSnapshot := @snapshot_of "node-1" 9 [0%nat] (totals (fst limited)) (fst limited).

Example operator_limit_stops_telemetry :
  snd limited = Ok 1
  /\ @RuntimeSnapshot_Validate go_order limited_snapshot = Err (ENew "runtime rate limit bytes_per_second is out of range")
  /\ let r := fst (@runtimeTelemetryLoop go_order (one_json (MkRuntimeEvent "" "" "" "" None "" 0)) (one_json limited_snapshot) false [EventTick; SnapshotTick]
                     (MkReporter (with_events [] (fst limited)) (Some (true, "node-1")) [] [])) in rp_sent r = [].
Proof. split_and!; vm_compute; reflexivity. Qed.

(** The byte totals of a report are those of the open connections, and so fall when one closes. *)
Definition plane_of (gateway : gmap string (option session_view)) : plane_view :=
  MkPlaneView "node-1" 3 true 0 0 0 0 false gateway ∅ [] [].
Definition bytes_reported (t : runtimeTelemetry) : option Z :=
  match snd (@plane_ObservedState go_order (Some (plane_of ∅)) t) with
  | Ok (Some o) => Some (Metrics_RuntimeBytesInTotal (Observed_Metrics o))
  | _ => None
  end.

Example byte_counters_fall :
  let t := fst (touch 0 700 0 (tel after_open)) in
  bytes_reported t = Some 700 /\ bytes_reported (fst (close 0 "" t)) = Some 0.
Proof. split; vm_compute; reflexivity. Qed.

(** ** Reports of sessions *)
Lemma session_summaries_of prefix peer sessions : forall t t' l id s,
  session_summaries prefix peer sessions t = (t', Ok l) -> (id, Some s) ∈ sessions -> exists x, x ∈ l /\ Session_ID x = prefix +:+ id.
Proof.
  induction sessions as [|[id0 [s0|]] rest IH]; intros t t' l id s H Hin; [by apply not_elem_of_nil in Hin| |].
  - cbn [session_summaries] in H. apply M_bind_run in H as [(now & t1 & _ & H)|(e & _ & [=])].
    apply M_bind_run in H as [(others & t2 & H2 & H)|(e & _ & [=])]. injection H as _ <-. apply elem_of_cons in Hin as [[= -> _]|Hin].
    + eexists. split; [by left|done].
    + destruct (IH _ _ _ _ _ H2 Hin) as (x & Hx & Hid). exists x. split; [by right|done].
  - apply elem_of_cons in Hin as [[=]|Hin]. by eapply IH.
Qed.

Section SessionReports.
Context `{MO : !MapOrder, JO : !JSON ObservedState}.

(** A gateway with an agent session on an assignment whose id has more than 120 bytes
    cannot report its state: the session is named gateway-id, which is longer than an id
    may be, so encoding the report fails whatever else it holds. *)
Theorem long_assignment_not_reported v id s t t' o base system now later :
  pv_gateway_sessions v !! id = Some (Some s) -> 120 < slen id ->
  plane_ObservedState (Some v) t = (t', Ok (Some o)) ->
  exists e, ObservedToProto now later (merge_observed base system (Some o)) = Err e.
Proof.
  intros Hid Hlong H. cbn [plane_ObservedState] in H.
  apply M_bind_run in H as [(clock & t1 & _ & H)|(e & _ & [=])]. apply M_bind_run in H as [(snap & t2 & _ & H)|(e & _ & [=])].
  apply M_bind_run in H as [(gateway & t3 & Hg & H)|(e & _ & [=])]. apply M_bind_run in H as [(agent & t4 & _ & H)|(e & _ & [=])].
  injection H as _ <-. destruct (session_summaries_of _ _ _ _ _ _ id s Hg) as (x & Hx & Hxid); [by rewrite range_order_perm; apply elem_of_map_to_list|].
  destruct (ObservedToProto now later _) as [w|e] eqn:E; [|by exists e]. exfalso. unfold ObservedToProto in E.
  apply bind_Ok in E as ([] & _ & E). apply bind_Ok in E as ([] & _ & E). apply bind_Ok in E as ([] & Hv & _).
  apply observed_report_exact in Hv as [_ _ _ _ _ _ [Hs _] _].
  assert (Hin : x ∈ Observed_Sessions (observed_stamped now (merge_observed base system
     (Some (MkObservedState CurrentControlProtocolVersion (pv_nodeID v) (pv_generation v) (pv_alive v) false None (gateway ++ agent)
        (listener_states ProtocolTCP (pv_tcp v) ++ listener_states ProtocolUDP (pv_udp v)) (plane_metrics v snap) None clock)))))
    by (unfold observed_stamped; repeat case_match; cbn; set_solver).
  rewrite Forall_forall in Hs. specialize (Hs x Hin) as [[Hlen _] _]. rewrite Hxid, slen_bytes, bytes_of_app, length_app in Hlen. rewrite slen_bytes in Hlong. cbn in Hlen. lia.
Qed.
End SessionReports.

(** Such an id is valid. *)
Definition long_assignment : string := of_bytes (replicate 128 "a"%char).
Definition long_plane : plane_view := plane_of {[long_assignment := Some (MkSessionView "agent-1" 0)]}.
Definition no_state_json : JSON ObservedState := one_json (plain_state "node-1" 1 true false None 9).

Lemma long_assignment_not_reported_witness :
  ValidateID long_assignment (TLit "") = Ok tt
  /\ exists o, snd (@plane_ObservedState go_order (Some long_plane) (tel after_open)) = Ok (Some o)
     /\ exists e, @ObservedToProto no_state_json 9 9 (merge_observed o None (Some o)) = Err e.
Proof.
  split; [vm_compute; reflexivity|].
  destruct (@plane_ObservedState go_order (Some long_plane) (tel after_open)) as [t' [[o|]|e]] eqn:E;
    [|exfalso; revert E; vm_compute; discriminate..].
  exists o. split; [reflexivity|].
  refine (@long_assignment_not_reported go_order no_state_json long_plane long_assignment (MkSessionView "agent-1" 0) (tel after_open) t' o o None 9 9 _ _ E);
    vm_compute; reflexivity.
Defined.
