(* ===== verification/ChangeBus.v ===== *)
(** * The change bus of the Controller (src/internal/controller: change_bus.go, changes.go;
      the subscriptions of actions.go, snapshots.go and runtime_store_core.go)

    A subscription is a buffered channel.  Channels are locations of a store, because
    their receivers keep them after they left the bus; closing a closed channel and
    sending on one panic, here the error [Panic].  Every operation is one section under a
    lock, except [Close], which is a section for each lock. *)
From S2P Require Import Prelude GoStd Domain Validation Effects.

(** ** Messages *)
Record RuntimeAction := MkRuntimeAction { RuntimeAction_ID : string; RuntimeAction_Name : string; RuntimeAction_Payload : list ascii }.

(** A hint for the scheduler. *)
Record ResourceChange := MkResourceChange { NodeIDs : list string; PendingServices : bool }.

Inductive bus_message := ActionSent (a : RuntimeAction) | SnapshotChanged | ResourcesChanged (c : ResourceChange) | RuntimeChanged (nodeID : string).

(** ** Channels *)
Record channel := MkChannel { capacity : nat; queue : list bus_message; shut : bool }.

Definition Panic (what : string) : error := EExternal ("panic: " +:+ what).

(** The subscriptions by the counters that number them, and the sources of those. *)
Record ChangeBus := MkBus {
  channels : list channel;
  actionSubs : gmap string (gmap Z nat);
  snapshotSubs : gmap string (gmap Z nat);
  changeSubs : gmap Z nat;
  runtimeSubs : gmap Z nat;
  capabilities : gmap string (Z * list string);
  nextCapability : Z;
  bus_closed : bool;
  nextActionSubscription : Z; nextResourceSubscription : Z; nextRuntimeSubscription : Z
}.

Definition newChangeBus (actions resources runtime : Z) : ChangeBus := MkBus [] ∅ ∅ ∅ ∅ ∅ 0 false actions resources runtime.

Definition CB (A : Type) : Type := M ChangeBus A.

Definition with_channels v b := MkBus v (actionSubs b) (snapshotSubs b) (changeSubs b) (runtimeSubs b) (capabilities b) (nextCapability b) (bus_closed b)
  (nextActionSubscription b) (nextResourceSubscription b) (nextRuntimeSubscription b).
Definition with_actionSubs v b := MkBus (channels b) v (snapshotSubs b) (changeSubs b) (runtimeSubs b) (capabilities b) (nextCapability b) (bus_closed b)
  (nextActionSubscription b) (nextResourceSubscription b) (nextRuntimeSubscription b).
Definition with_snapshotSubs v b := MkBus (channels b) (actionSubs b) v (changeSubs b) (runtimeSubs b) (capabilities b) (nextCapability b) (bus_closed b)
  (nextActionSubscription b) (nextResourceSubscription b) (nextRuntimeSubscription b).
Definition with_changeSubs v b := MkBus (channels b) (actionSubs b) (snapshotSubs b) v (runtimeSubs b) (capabilities b) (nextCapability b) (bus_closed b)
  (nextActionSubscription b) (nextResourceSubscription b) (nextRuntimeSubscription b).
Definition with_runtimeSubs v b := MkBus (channels b) (actionSubs b) (snapshotSubs b) (changeSubs b) v (capabilities b) (nextCapability b) (bus_closed b)
  (nextActionSubscription b) (nextResourceSubscription b) (nextRuntimeSubscription b).
Definition with_capabilities v n b := MkBus (channels b) (actionSubs b) (snapshotSubs b) (changeSubs b) (runtimeSubs b) v n (bus_closed b)
  (nextActionSubscription b) (nextResourceSubscription b) (nextRuntimeSubscription b).
Definition with_closed v b := MkBus (channels b) (actionSubs b) (snapshotSubs b) (changeSubs b) (runtimeSubs b) (capabilities b) (nextCapability b) v
  (nextActionSubscription b) (nextResourceSubscription b) (nextRuntimeSubscription b).
Definition with_counters a r t b := MkBus (channels b) (actionSubs b) (snapshotSubs b) (changeSubs b) (runtimeSubs b) (capabilities b) (nextCapability b) (bus_closed b) a r t.

Definition get {A} (f : ChangeBus -> A) : CB A := fun b => (b, Ok (f b)).
Definition set (f : ChangeBus -> ChangeBus) : CB unit := fun b => (f b, Ok tt).

Definition make_chan (n : nat) : CB nat := fun b => (with_channels (channels b ++ [MkChannel n [] false]) b, Ok (List.length (channels b))).

Definition close_chan (l : nat) : CB unit := fun b =>
  match channels b !! l with
  | Some c => if shut c then (b, Err (Panic "close of closed channel"))
              else (with_channels (<[l := MkChannel (capacity c) (queue c) true]> (channels b)) b, Ok tt)
  | None => (b, Err (Panic "close of nil channel"))
  end.

(** A select with a default: whether the message was taken. *)
Definition try_send (l : nat) (m : bus_message) : CB bool := fun b =>
  match channels b !! l with
  | Some c =>
      if shut c then (b, Err (Panic "send on closed channel"))
      else if (List.length (queue c) <? capacity c)%nat
      then (with_channels (<[l := MkChannel (capacity c) (queue c ++ [m]) false]> (channels b)) b, Ok true)
      else (b, Ok false)
  | None => (b, Ok false)
  end.

(** The receiver of a channel takes what is there: [None] when it would wait, and
    [Some None] when the channel is closed. *)
Definition receive (l : nat) : CB (option (option bus_message)) := fun b =>
  match channels b !! l with
  | Some c =>
      match queue c with
      | m :: rest => (with_channels (<[l := MkChannel (capacity c) rest (shut c)]> (channels b)) b, Ok (Some (Some m)))
      | [] => (b, Ok (if shut c then Some None else None))
      end
  | None => (b, Ok None)
  end.

Definition next (n : Z) : Z := (n + 1) mod 2 ^ 64.

(** ** Subscribing

    A subscription is what the caller gets: its channel, its number and its topic. *)
Record subscription := MkSubscription { sub_topic : string; sub_id : Z; sub_chan : nat }.

(** [None] for the number when the bus was closed: its cancel does nothing. *)
Definition SubscribeActions (nodeID : string) : CB (nat * option subscription) :=
  l ← make_chan 16;
  let topic := strings.TrimSpace nodeID in
  _ ← set (fun b => with_counters (next (nextActionSubscription b)) (nextResourceSubscription b) (nextRuntimeSubscription b) b);
  id ← get nextActionSubscription;
  closed ← get bus_closed;
  if closed : bool then _ ← close_chan l; mret (l, None) else
  _ ← set (fun b => with_actionSubs (<[topic := <[id := l]> (default ∅ (actionSubs b !! topic))]> (actionSubs b)) b);
  mret (l, Some (MkSubscription topic id l)).

Definition SubscribeSnapshotChanges (nodeID : string) : CB (nat * option subscription) :=
  l ← make_chan 1;
  _ ← set (fun b => with_counters (next (nextActionSubscription b)) (nextResourceSubscription b) (nextRuntimeSubscription b) b);
  id ← get nextActionSubscription;
  closed ← get bus_closed;
  if closed : bool then _ ← close_chan l; mret (l, None) else
  _ ← set (fun b => with_snapshotSubs (<[nodeID := <[id := l]> (default ∅ (snapshotSubs b !! nodeID))]> (snapshotSubs b)) b);
  mret (l, Some (MkSubscription nodeID id l)).

Definition SubscribeResourceChanges : CB (nat * option subscription) :=
  l ← make_chan 1;
  _ ← set (fun b => with_counters (nextActionSubscription b) (next (nextResourceSubscription b)) (nextRuntimeSubscription b) b);
  id ← get nextResourceSubscription;
  closed ← get bus_closed;
  if closed : bool then _ ← close_chan l; mret (l, None) else
  _ ← set (fun b => with_changeSubs (<[id := l]> (changeSubs b)) b);
  mret (l, Some (MkSubscription "" id l)).

Definition SubscribeRuntimeChanges : CB (nat * option subscription) :=
  l ← make_chan 32;
  _ ← set (fun b => with_counters (nextActionSubscription b) (nextResourceSubscription b) (next (nextRuntimeSubscription b)) b);
  id ← get nextRuntimeSubscription;
  closed ← get bus_closed;
  if closed : bool then _ ← close_chan l; mret (l, None) else
  _ ← set (fun b => with_runtimeSubs (<[id := l]> (runtimeSubs b)) b);
  mret (l, Some (MkSubscription "" id l)).

(** *** The cancel functions, behind their [sync.Once]
    One subscriber removed from a table by topic; an empty topic leaves it. *)
Definition without_sub (s : subscription) (subs : gmap string (gmap Z nat)) : gmap string (gmap Z nat) :=
  match subs !! sub_topic s with
  | None => subs
  | Some of_topic =>
      let rest := if bool_decide (of_topic !! sub_id s = Some (sub_chan s)) then delete (sub_id s) of_topic else of_topic in
      if bool_decide (rest = ∅) then delete (sub_topic s) subs else <[sub_topic s := rest]> subs
  end.

Definition registered_in (s : subscription) (subs : gmap string (gmap Z nat)) : bool :=
  bool_decide ((subs !! sub_topic s) ≫= (fun of_topic => of_topic !! sub_id s) = Some (sub_chan s)).

Definition cancelAction (s : subscription) : CB unit :=
  current ← get (fun b => registered_in s (actionSubs b));
  _ ← set (fun b => with_actionSubs (without_sub s (actionSubs b)) b);
  if current : bool then close_chan (sub_chan s) else mret tt.

Definition cancelSnapshot (s : subscription) : CB unit :=
  current ← get (fun b => registered_in s (snapshotSubs b));
  _ ← set (fun b => with_snapshotSubs (without_sub s (snapshotSubs b)) b);
  if current : bool then close_chan (sub_chan s) else mret tt.

Definition cancelResource (s : subscription) : CB unit :=
  current ← get (fun b => bool_decide (changeSubs b !! sub_id s = Some (sub_chan s)));
  if current : bool then _ ← set (fun b => with_changeSubs (delete (sub_id s) (changeSubs b)) b); close_chan (sub_chan s) else mret tt.

Definition cancelRuntime (s : subscription) : CB unit :=
  current ← get (fun b => bool_decide (runtimeSubs b !! sub_id s = Some (sub_chan s)));
  if current : bool then _ ← set (fun b => with_runtimeSubs (delete (sub_id s) (runtimeSubs b)) b); close_chan (sub_chan s) else mret tt.

(** ** Publishing *)
Fixpoint each_chan (body : nat -> CB unit) (ls : list nat) : CB unit :=
  match ls with [] => mret tt | l :: ls => _ ← body l; each_chan body ls end.

Definition subscribers (topic : string) (subs : gmap string (gmap Z nat)) : list nat :=
  (map_to_list (default ∅ (subs !! topic))).*2.

Definition actionCanDeliver (nodeID : string) : CB bool := get (fun b =>
  existsb (fun l => match channels b !! l with Some c => (List.length (queue c) <? capacity c)%nat | None => false end)
    (subscribers nodeID (actionSubs b))).

Fixpoint deliver (m : bus_message) (ls : list nat) : CB bool :=
  match ls with
  | [] => mret false
  | l :: ls => taken ← try_send l m; others ← deliver m ls; mret (taken || others)
  end.

Definition publishAction (nodeID : string) (action : RuntimeAction) : CB bool :=
  closed ← get bus_closed;
  if closed : bool then mret false else
  to ← get (fun b => subscribers nodeID (actionSubs b));
  deliver (ActionSent action) to.

(** The nodes once each; the map of targets is ranged over in some order. *)
Definition notifySnapshotChanges (order : list string -> list string) (nodeIDs : list string) : CB unit :=
  match nodeIDs with
  | [] => mret tt
  | _ =>
      let targets := order (remove_dups (List.filter (fun id => negb (String.eqb (strings.TrimSpace id) "")) nodeIDs)) in
      closed ← get bus_closed;
      if closed : bool then mret tt else
      to ← get (fun b => flat_map (fun id => subscribers id (snapshotSubs b)) targets);
      each_chan (fun l => _ ← try_send l SnapshotChanged; mret tt) to
  end.

(** Each id where it first occurs. *)
Fixpoint distinct (seen : list string) (ids : list string) : list string :=
  match ids with
  | [] => []
  | id :: ids => if in_strings id seen then distinct seen ids else id :: distinct (id :: seen) ids
  end.

Definition mergeResourceChanges (pending latest : ResourceChange) : ResourceChange :=
  MkResourceChange (distinct [] (NodeIDs pending ++ NodeIDs latest)) (PendingServices pending || PendingServices latest).

(** The select loop: a send when there is room, else a receive of what is queued.  The
    consumer may take the queued hint between two rounds ([taken], one answer a round). *)
Definition consumer (takes : bool) (l : nat) : CB (list bus_message) :=
  if takes then r ← receive l; mret (match r with Some (Some m) => [m] | _ => [] end) else mret [].

Fixpoint enqueueResourceChange (fuel : nat) (taken : list bool) (l : nat) (change : ResourceChange) : CB (list bus_message) :=
  match fuel with
  | O => fail (EExternal "fuel")
  | S fuel =>
      before ← consumer (hd false taken) l;
      sent ← try_send l (ResourcesChanged change);
      if sent : bool then mret before else
      pending ← receive l;
      rest ← enqueueResourceChange fuel (tl taken) l
               (match pending with Some (Some (ResourcesChanged p)) => mergeResourceChanges p change | _ => change end);
      mret (before ++ rest)
  end.

Definition changed_nodes (nodeIDs : list string) : list string := distinct [] (List.filter (fun id => negb (String.eqb id "")) nodeIDs).

(** What the consumers took meanwhile, for each channel. *)
Fixpoint enqueue_all (change : ResourceChange) (taken : list (list bool)) (ls : list nat) : CB (list (nat * list bus_message)) :=
  match ls with
  | [] => mret []
  | l :: ls =>
      got ← enqueueResourceChange 3 (hd [] taken) l change;
      rest ← enqueue_all change (tl taken) ls;
      mret ((l, got) :: rest)
  end.

Definition notifyResourceChangesWithOptions (taken : list (list bool)) (pendingServices : bool) (nodeIDs : list string) : CB (list (nat * list bus_message)) :=
  match changed_nodes nodeIDs with
  | [] => mret []
  | ids =>
      closed ← get bus_closed;
      if closed : bool then mret [] else
      to ← get (fun b => (map_to_list (changeSubs b)).*2);
      enqueue_all (MkResourceChange ids pendingServices) taken to
  end.

Definition notifyResourceChanges (taken : list (list bool)) (nodeIDs : list string) := notifyResourceChangesWithOptions taken false nodeIDs.
Definition notifyPendingServiceChanges (taken : list (list bool)) (nodeIDs : list string) := notifyResourceChangesWithOptions taken true nodeIDs.

Definition notifyRuntimeChanges (nodeID : string) : CB unit :=
  closed ← get bus_closed;
  if closed : bool then mret tt else
  to ← get (fun b => (map_to_list (runtimeSubs b)).*2);
  each_chan (fun l => _ ← try_send l (RuntimeChanged nodeID); mret tt) to.

(** ** Capabilities of the connected nodes *)
Definition SetNodeCapabilities (nodeID : string) (items : list string) : CB Z :=
  _ ← set (fun b => with_capabilities (capabilities b) (next (nextCapability b)) b);
  token ← get nextCapability;
  closed ← get bus_closed;
  _ ← (if closed : bool then mret tt
       else set (fun b => with_capabilities (<[strings.TrimSpace nodeID := (token, items)]> (capabilities b)) (nextCapability b) b));
  mret token.

Definition ClearNodeCapabilities (nodeID : string) (token : Z) : CB unit := set (fun b =>
  match capabilities b !! strings.TrimSpace nodeID with
  | Some (current, _) => if current =? token then with_capabilities (delete (strings.TrimSpace nodeID) (capabilities b)) (nextCapability b) b else b
  | None => b
  end).

Definition NodeCapabilities (nodeID : string) : CB (list string) := get (fun b =>
  match capabilities b !! strings.TrimSpace nodeID with Some (_, items) => items | None => [] end).

(** ** Closing, one section after the other *)
Definition all_subscribers (subs : gmap string (gmap Z nat)) : list nat := flat_map (fun p => (map_to_list (snd p)).*2) (map_to_list subs).

Definition close_flag : CB unit := set (with_closed true).
Definition close_actions : CB unit :=
  actions ← get (fun b => all_subscribers (actionSubs b));
  _ ← each_chan close_chan actions;
  _ ← set (with_actionSubs ∅);
  snapshots ← get (fun b => all_subscribers (snapshotSubs b));
  _ ← each_chan close_chan snapshots;
  set (with_snapshotSubs ∅).
Definition close_changes : CB unit :=
  ls ← get (fun b => (map_to_list (changeSubs b)).*2); _ ← each_chan close_chan ls; set (with_changeSubs ∅).
Definition close_runtime : CB unit :=
  ls ← get (fun b => (map_to_list (runtimeSubs b)).*2); _ ← each_chan close_chan ls; set (with_runtimeSubs ∅).
Definition close_capabilities : CB unit := set (fun b => with_capabilities ∅ (nextCapability b) b).

Definition Close : CB unit :=
  _ ← close_flag; _ ← close_actions; _ ← close_changes; _ ← close_runtime; close_capabilities.
