(* ===== verification/ChangeBusFacts.v ===== *)
(** * The change bus never panics and loses no wake-up *)
From S2P Require Import Prelude GoStd Domain Validation Effects ChangeBus.

(** ** Where a channel is registered *)
Inductive place := PAction (topic : string) (id : Z) | PSnapshot (topic : string) (id : Z) | PChange (id : Z) | PRuntime (id : Z).

Definition at_place (b : ChangeBus) (p : place) : option nat :=
  match p with
  | PAction topic id => actionSubs b !! topic ≫= (fun subs => subs !! id)
  | PSnapshot topic id => snapshotSubs b !! topic ≫= (fun subs => subs !! id)
  | PChange id => changeSubs b !! id
  | PRuntime id => runtimeSubs b !! id
  end.

Definition room (p : place) : nat := match p with PAction _ _ => 16 | PSnapshot _ _ | PChange _ => 1 | PRuntime _ => 32 end.

Definition of_kind (p : place) (m : bus_message) : Prop :=
  match p, m with
  | PAction _ _, ActionSent _ | PSnapshot _ _, SnapshotChanged | PChange _, ResourcesChanged _ | PRuntime _, RuntimeChanged _ => True
  | _, _ => False
  end.

(** An open channel, within its capacity, with messages of its kind. *)
Definition good (p : place) (c : channel) : Prop :=
  shut c = false /\ capacity c = room p /\ (List.length (queue c) <= room p)%nat /\ Forall (of_kind p) (queue c).

Record sound (b : ChangeBus) : Prop := {
  so_open : forall p l, at_place b p = Some l -> exists c, channels b !! l = Some c /\ good p c;
  so_one : forall p q l, at_place b p = Some l -> at_place b q = Some l -> p = q
}.

(** Fewer registrations, of channels that stayed good. *)
Lemma sound_step b b' : sound b ->
  (forall p l, at_place b' p = Some l -> at_place b p = Some l) ->
  (forall p l c, at_place b' p = Some l -> channels b !! l = Some c -> good p c -> exists c', channels b' !! l = Some c' /\ good p c') -> sound b'.
Proof.
  intros [Ho H1] Hp Hc. constructor.
  - intros p l Hl. destruct (Ho p l (Hp _ _ Hl)) as (c & Hch & Hg). by eapply Hc.
  - intros p q l Hl Hl'. eapply H1; by apply Hp.
Qed.

(** A change of counters, flags or capabilities. *)
Lemma sound_same b b' : sound b -> channels b' = channels b -> (forall p, at_place b' p = at_place b p) -> sound b'.
Proof. intros Hs Hc Hp. apply (sound_step b); [done | intros p l; by rewrite Hp | intros p l c _ Hl Hg; exists c; by rewrite Hc]. Qed.

(** *** Messages *)
Definition sent_to (m : bus_message) (c : channel) : channel := MkChannel (capacity c) (queue c ++ [m]) false.

(** The channels of a list that have room get the message. *)
Definition moved (b b' : ChangeBus) : Prop := exists chs, b' = with_channels chs b.

Lemma moved_refl b : moved b b.
Proof. exists (channels b). by destruct b. Qed.

Lemma moved_trans b1 b2 b3 : moved b1 b2 -> moved b2 b3 -> moved b1 b3.
Proof. intros [c ->] [d ->]. by exists d. Qed.

Lemma moved_place b b' p : moved b b' -> at_place b' p = at_place b p.
Proof. intros [c ->]. by destruct p. Qed.

Lemma good_sent p m c : good p c -> of_kind p m -> (List.length (queue c) < capacity c)%nat -> good p (sent_to m c).
Proof.
  intros (Hs & Hc & Hl & Hk) Hm Hr. split_and!; cbn; [done | done | rewrite length_app; cbn; lia |]. apply Forall_app. by split; [|constructor].
Qed.

Lemma try_send_sound b p l m : sound b -> at_place b p = Some l -> of_kind p m ->
  exists b' t, try_send l m b = (b', Ok t) /\ moved b b' /\ sound b'
    /\ (forall l', l' <> l -> channels b' !! l' = channels b !! l')
    /\ exists c, channels b !! l = Some c /\ good p c
       /\ (if t then (List.length (queue c) < capacity c)%nat /\ channels b' !! l = Some (sent_to m c)
           else (capacity c <= List.length (queue c))%nat /\ b' = b).
Proof.
  intros Hs Hl Hm. destruct (so_open b Hs p l Hl) as (c & Hc & Hg). unfold try_send. rewrite Hc.
  pose proof Hg as (Hsh & _). rewrite Hsh. destruct (Nat.ltb_spec (List.length (queue c)) (capacity c)) as [Hr|Hr].
  - eexists _, true. split; [reflexivity|]. assert (Hlt : (l < List.length (channels b))%nat) by by eapply lookup_lt_Some.
    split_and!; [by eexists | | intros l' Hne; cbn; by rewrite list_lookup_insert_ne | exists c; split_and!; try done; cbn; by rewrite list_lookup_insert_eq].
    apply (sound_step b); [done | by intros q l'; destruct q |]. intros q l' c' Hq Hc' Hg'. cbn. destruct (decide (l' = l)) as [->|Hne].
    + assert (q = p) as -> by (eapply (so_one b Hs); [by destruct q | done]). rewrite list_lookup_insert_eq by done. eexists. split; [done|]. by apply good_sent.
    + rewrite list_lookup_insert_ne by done. by exists c'.
  - exists b, false. split_and!; try done; [apply moved_refl|]. by exists c.
Qed.

Lemma receive_sound b l : sound b -> exists b' r, receive l b = (b', Ok r) /\ moved b b' /\ sound b'
  /\ (forall l', l' <> l -> channels b' !! l' = channels b !! l')
  /\ match channels b !! l with
     | Some c => match queue c with
                 | m :: rest => r = Some (Some m) /\ channels b' !! l = Some (MkChannel (capacity c) rest (shut c))
                 | [] => b' = b /\ (r = None \/ r = Some None)
                 end
     | None => b' = b /\ r = None
     end.
Proof.
  intros Hs. unfold receive. destruct (channels b !! l) as [c|] eqn:Hc; [|exists b, None; split_and!; try done; apply moved_refl].
  destruct (queue c) as [|m rest] eqn:Hq.
  { exists b, (if shut c then Some None else None). split_and!; try done; [apply moved_refl | destruct (shut c); [by right | by left]]. }
  eexists _, _. split; [reflexivity|]. assert (Hlt : (l < List.length (channels b))%nat) by by eapply lookup_lt_Some.
  split_and!; [by eexists | | intros l' Hne; cbn; by rewrite list_lookup_insert_ne | done | cbn; by rewrite list_lookup_insert_eq].
  apply (sound_step b); [done | by intros q l'; destruct q |]. intros q l' c' Hq' Hc' (Hsh & Hcap & Hlen & Hk). cbn. destruct (decide (l' = l)) as [->|Hne].
  - rewrite Hc in Hc'. injection Hc' as <-. rewrite list_lookup_insert_eq by done. eexists. split; [done|]. rewrite Hq in Hlen, Hk. apply Forall_cons in Hk as [_ Hk].
    split_and!; try done. cbn in *. lia.
  - rewrite list_lookup_insert_ne by done. by exists c'.
Qed.

(** ** What a message is covered by: itself, or a later hint that says as much *)
Definition covers (m m' : bus_message) : Prop :=
  m = m' \/ exists c c', m = ResourcesChanged c /\ m' = ResourcesChanged c' /\ NodeIDs c ⊆ NodeIDs c'
                     /\ (PendingServices c = true -> PendingServices c' = true).

Lemma covers_trans m1 m2 m3 : covers m1 m2 -> covers m2 m3 -> covers m1 m3.
Proof.
  intros [->|(c & c' & -> & -> & H1 & H2)]; [done|]. intros [<-|(d & d' & [= <-] & -> & H3 & H4)]; right; [by exists c, c'|].
  exists c, d'. split_and!; try done; [by etrans | by intros; apply H4, H2].
Qed.

(** The messages of [b] are received ([got]) or still queued, or covered by such. *)
Definition kept (b b' : ChangeBus) (got : list (nat * bus_message)) : Prop :=
  forall l c, channels b !! l = Some c -> exists c', channels b' !! l = Some c' /\
    forall m, m ∈ queue c -> exists m', covers m m' /\ ((l, m') ∈ got \/ m' ∈ queue c').

Lemma kept_unmoved b : kept b b [].
Proof. intros l c Hc. exists c. split; [done|]. intros m Hm. exists m. split; [by left | by right]. Qed.

Lemma kept_after b1 b2 b3 g1 g2 : kept b1 b2 g1 -> kept b2 b3 g2 -> kept b1 b3 (g1 ++ g2).
Proof.
  intros H1 H2 l c Hc. destruct (H1 l c Hc) as (c2 & Hc2 & Hm2). destruct (H2 l c2 Hc2) as (c3 & Hc3 & Hm3). exists c3. split; [done|].
  intros m Hm. destruct (Hm2 m Hm) as (m2 & Hcov & [Hg|Hq]); [exists m2; split; [done|]; left; set_solver|].
  destruct (Hm3 m2 Hq) as (m3 & Hcov3 & [Hg|Hq3]); exists m3; (split; [by eapply covers_trans|]); [left; set_solver | by right].
Qed.

(** Channels that were only added, closed, or lengthened. *)
Definition lengthened (c c' : channel) : Prop := exists more, queue c' = queue c ++ more.

Lemma kept_lengthened b b' : (forall l c, channels b !! l = Some c -> exists c', channels b' !! l = Some c' /\ lengthened c c') -> kept b b' [].
Proof.
  intros H l c Hc. destruct (H l c Hc) as (c' & Hc' & more & Hq). exists c'. split; [done|]. intros m Hm. exists m. split; [by left|]. right. rewrite Hq. set_solver.
Qed.

Lemma kept_same b b' : channels b' = channels b -> kept b b' [].
Proof. intros E. apply kept_lengthened. intros l c Hc. exists c. rewrite E. split; [done|]. exists []. by rewrite app_nil_r. Qed.

(** A total operation that keeps the bus sound and its messages. *)
Definition fine {A} (m : CB A) (g : A -> list (nat * bus_message)) : Prop :=
  forall b, sound b -> exists b' a, m b = (b', Ok a) /\ sound b' /\ kept b b' (g a).

Definition nothing {A} (_ : A) : list (nat * bus_message) := [].

Lemma try_send_kept b p l m : sound b -> at_place b p = Some l -> of_kind p m ->
  exists b' t, try_send l m b = (b', Ok t) /\ moved b b' /\ sound b' /\ kept b b' []
    /\ ((p = PSnapshot (match p with PSnapshot n _ => n | _ => "" end) (match p with PSnapshot _ i => i | _ => 0 end)) ->
        exists c', channels b' !! l = Some c' /\ SnapshotChanged ∈ queue c').
Proof.
  intros Hs Hl Hm. destruct (try_send_sound b p l m Hs Hl Hm) as (b' & t & E & Hmv & Hs' & Hne & c & Hc & Hg & Ht).
  exists b', t. split_and!; try done.
  - destruct t; [|destruct Ht as [_ ->]; apply kept_unmoved]. apply kept_lengthened. intros l' c' Hc'. destruct (decide (l' = l)) as [->|Hd].
    + rewrite Hc in Hc'. injection Hc' as <-. destruct Ht as [_ Ht]. eexists. split; [exact Ht|]. by exists [m].
    + exists c'. rewrite Hne by done. split; [done|]. exists []. by rewrite app_nil_r.
  - intros Hp. rewrite Hp in Hm, Hg. destruct t.
    + destruct Ht as [_ Ht]. exists (sent_to m c). split; [done|]. destruct m; try done. cbn. set_solver.
    + destruct Ht as [Hfull ->]. exists c. split; [done|]. destruct Hg as (_ & Hcap & _ & Hk). cbn in *. destruct (queue c) as [|x q]; [cbn in *; lia|].
      apply Forall_cons in Hk as [Hx _]. destruct x; try done. by left.
Qed.

Lemma receive_kept b l : sound b -> exists b' r, receive l b = (b', Ok r) /\ moved b b' /\ sound b'
  /\ kept b b' (match r with Some (Some m) => [(l, m)] | _ => [] end).
Proof.
  intros Hs. destruct (receive_sound b l Hs) as (b' & r & E & Hmv & Hs' & Hne & Hr). exists b', r. split_and!; try done.
  destruct (channels b !! l) as [c|] eqn:Hc; [|destruct Hr as [-> ->]; apply kept_unmoved].
  destruct (queue c) as [|m rest] eqn:Hq; [destruct Hr as [-> [->| ->]]; apply kept_unmoved|]. destruct Hr as [-> Hr].
  intros l' c' Hc'. destruct (decide (l' = l)) as [->|Hd].
  - rewrite Hc in Hc'. injection Hc' as <-. eexists. split; [exact Hr|]. cbn. rewrite Hq. intros x Hx. exists x. split; [by left|]. set_solver.
  - exists c'. rewrite Hne by done. split; [done|]. intros x Hx. exists x. split; [by left | by right].
Qed.

(** *** Publishing to many *)
Definition registered (b : ChangeBus) (m : bus_message) (l : nat) : Prop := exists p, at_place b p = Some l /\ of_kind p m.

Lemma registered_moved b b' m l : moved b b' -> registered b m l -> registered b' m l.
Proof. intros Hm (p & Hp & Hk). exists p. by rewrite (moved_place b b'). Qed.

Lemma try_send_each m ls : forall b, sound b -> Forall (registered b m) ls ->
  exists b', each_chan (fun l => _ ← try_send l m; mret tt) ls b = (b', Ok tt) /\ moved b b' /\ sound b' /\ kept b b' [].
Proof.
  induction ls as [|l ls IH]; intros b Hs Hf; [exists b; split_and!; [done | apply moved_refl | done | apply kept_unmoved]|].
  apply Forall_cons in Hf as [(p & Hp & Hk) Hf]. destruct (try_send_kept b p l m Hs Hp Hk) as (b1 & t & E & Hmv & Hs1 & Hk1 & _).
  destruct (IH b1 Hs1) as (b2 & E2 & Hmv2 & Hs2 & Hk2); [eapply Forall_impl; [exact Hf|]; intros x; by apply registered_moved|].
  exists b2. cbn [each_chan]. cbv [mbind M_bind mret M_ret] in *. rewrite E. cbn. rewrite E2. split_and!; [done | by eapply moved_trans | done | by apply (kept_after b b1 b2 [] [])].
Qed.

Lemma deliver_each m ls : forall b, sound b -> Forall (registered b m) ls ->
  exists b' t, deliver m ls b = (b', Ok t) /\ moved b b' /\ sound b' /\ kept b b' [].
Proof.
  induction ls as [|l ls IH]; intros b Hs Hf; [exists b, false; split_and!; [done | apply moved_refl | done | apply kept_unmoved]|].
  apply Forall_cons in Hf as [(p & Hp & Hk) Hf]. destruct (try_send_kept b p l m Hs Hp Hk) as (b1 & t & E & Hmv & Hs1 & Hk1 & _).
  destruct (IH b1 Hs1) as (b2 & t2 & E2 & Hmv2 & Hs2 & Hk2); [eapply Forall_impl; [exact Hf|]; intros x; by apply registered_moved|].
  exists b2, (t || t2). cbn [deliver]. cbv [mbind M_bind mret M_ret] in *. rewrite E. cbn. rewrite E2. split_and!; [done | by eapply moved_trans | done | by apply (kept_after b b1 b2 [] [])].
Qed.

Lemma subscribers_registered topic subs l : l ∈ subscribers topic subs -> exists id, subs !! topic ≫= (fun s => s !! id) = Some l.
Proof.
  unfold subscribers. intros ([id x] & -> & Hin)%list_elem_of_fmap. apply elem_of_map_to_list in Hin. exists id. cbn.
  destruct (subs !! topic); [done|]. cbn in Hin. by rewrite lookup_empty in Hin.
Qed.

Lemma registered_subscribers topic subs id l : subs !! topic ≫= (fun s => s !! id) = Some l -> l ∈ subscribers topic subs.
Proof.
  unfold subscribers. destruct (subs !! topic) as [s|]; [|done]. cbn. intros H. apply list_elem_of_fmap. exists (id, l). split; [done|]. by apply elem_of_map_to_list.
Qed.

(** *** The select loop *)
Lemma distinct_spec ids : forall seen x, x ∈ distinct seen ids <-> x ∈ ids /\ x ∉ seen.
Proof.
  induction ids as [|y ids IH]; intros seen x; [split; [by intros ?%not_elem_of_nil | by intros [?%not_elem_of_nil _]]|]. cbn.
  assert (Hin : in_strings y seen = true <-> y ∈ seen).
  { unfold in_strings. rewrite existsb_exists. split; [intros (z & Hz & ->%String.eqb_eq); by apply list_elem_of_In | intros H; exists y; split; [by apply list_elem_of_In | apply String.eqb_refl]]. }
  destruct (in_strings y seen) eqn:E.
  - rewrite IH. assert (Hy : y ∈ seen) by by apply Hin. clear Hin E IH. rewrite elem_of_cons. split; [tauto|]. intros [[->|?] ?]; [done | by split].
  - assert (Hy : y ∉ seen) by (intros Hy; apply Hin in Hy; congruence). clear Hin E. rewrite !elem_of_cons.
    rewrite IH, elem_of_cons. destruct (decide (x = y)) as [->|Hne]; tauto.
Qed.

Lemma merged_covers p change : covers (ResourcesChanged p) (ResourcesChanged (mergeResourceChanges p change))
  /\ covers (ResourcesChanged change) (ResourcesChanged (mergeResourceChanges p change)).
Proof.
  split; right; eexists _, _; (split_and!; [reflexivity | reflexivity | |]); cbn.
  - intros x Hx. apply distinct_spec. set_solver.
  - by intros ->.
  - intros x Hx. apply distinct_spec. set_solver.
  - intros ->. apply orb_true_r.
Qed.

Lemma enqueue_S fuel taken l change :
  enqueueResourceChange (S fuel) taken l change =
  (before ← consumer (hd false taken) l;
   sent ← try_send l (ResourcesChanged change);
   if sent : bool then mret before else
   pending ← receive l;
   rest ← enqueueResourceChange fuel (tl taken) l
            (match pending with Some (Some (ResourcesChanged p)) => mergeResourceChanges p change | _ => change end);
   mret (before ++ rest)).
Proof. reflexivity. Qed.

Lemma enqueue_empty fuel taken l change b c :
  channels b !! l = Some c -> queue c = [] -> shut c = false -> capacity c = 1%nat ->
  enqueueResourceChange (S fuel) taken l change b
  = (with_channels (<[l := sent_to (ResourcesChanged change) c]> (channels b)) b, Ok []).
Proof.
  intros Hc Hq Hs Hcap. cbn [enqueueResourceChange]. cbv [mbind M_bind mret M_ret].
  assert (Hb : consumer (hd false taken) l b = (b, Ok [])).
  { unfold consumer. destruct (hd false taken); [|done]. cbv [mbind M_bind mret M_ret]. unfold receive. by rewrite Hc, Hq, Hs. }
  rewrite Hb. unfold try_send, sent_to. rewrite Hc, Hs, Hq, Hcap. reflexivity.
Qed.

Lemma enqueue_run taken l change b i : sound b -> at_place b (PChange i) = Some l ->
  exists b' got, enqueueResourceChange 3 taken l change b = (b', Ok got) /\ moved b b' /\ sound b' /\ kept b b' (map (pair l) got)
    /\ exists c' d, channels b' !! l = Some c' /\ ResourcesChanged d ∈ queue c' /\ covers (ResourcesChanged change) (ResourcesChanged d).
Proof.
  intros Hs Hl. destruct (so_open b Hs _ l Hl) as (c & Hc & Hg). pose proof Hg as (Hsh & Hcap & Hlen & Hk). cbn in Hcap, Hlen.
  assert (Hlt : (l < List.length (channels b))%nat) by by eapply lookup_lt_Some.
  assert (Hfinal : forall d, let b' := with_channels (<[l := MkChannel 1 [ResourcesChanged d] false]> (channels b)) b in moved b b' /\ sound b').
  { intros d. split; [by eexists|]. apply (sound_step b); [done | by intros q l'; destruct q|]. intros q l' x Hq Hx Hgx. cbn. destruct (decide (l' = l)) as [->|Hne].
    - assert (q = PChange i) as -> by (eapply (so_one b Hs); [by destruct q | done]). rewrite list_lookup_insert_eq by done. eexists. split; [done|].
      split_and!; cbn; [done | done | lia | by repeat constructor].
    - rewrite list_lookup_insert_ne by done. by exists x. }
  assert (Hother : forall d got, (forall m, m ∈ queue c -> exists m', covers m m' /\ ((l, m') ∈ got \/ m' = ResourcesChanged d)) ->
     kept b (with_channels (<[l := MkChannel 1 [ResourcesChanged d] false]> (channels b)) b) got).
  { intros d got Hm l' x Hx. cbn. destruct (decide (l' = l)) as [->|Hne].
    - rewrite list_lookup_insert_eq by done. eexists. split; [done|]. rewrite Hc in Hx. injection Hx as <-. intros m Hin. destruct (Hm m Hin) as (m' & Hcov & [Hgot|Heq]); exists m'; (split; [done|]); [by left | right; rewrite Heq; by left].
    - rewrite list_lookup_insert_ne by done. exists x. split; [done|]. intros m Hin. exists m. split; [by left | by right]. }
  destruct (queue c) as [|m [|]] eqn:Hq; [| |cbn in Hlen; lia].
  - rewrite (enqueue_empty 2 taken l change b c Hc Hq Hsh Hcap). unfold sent_to. rewrite Hq, Hcap. exists (with_channels (<[l := MkChannel 1 [ResourcesChanged change] false]> (channels b)) b), [].
    destruct (Hfinal change) as [H1 H2]. split_and!; try done; [apply Hother; intros m Hin; by apply not_elem_of_nil in Hin|].
    eexists _, change. split; [cbn; by rewrite list_lookup_insert_eq|]. split; [by left | by left].
  - apply Forall_cons in Hk as [Hk _]. destruct m as [| |p|]; try done. rewrite (enqueue_S 2). cbv [mbind M_bind mret M_ret]. unfold consumer at 1. destruct (hd false taken).
    + cbv [mbind M_bind mret M_ret]. unfold receive at 1. rewrite Hc, Hq. cbv iota beta. unfold try_send. cbn. rewrite list_lookup_insert_eq by done. cbn. rewrite Hsh, Hcap. cbn.
      rewrite list_insert_insert_eq. exists (with_channels (<[l := MkChannel 1 [ResourcesChanged change] false]> (channels b)) b), [ResourcesChanged p].
      destruct (Hfinal change) as [H1 H2]. split_and!; try done; [apply Hother; intros m ->%list_elem_of_singleton; exists (ResourcesChanged p); split; [by left | left; by left]|].
      eexists _, change. split; [cbn; by rewrite list_lookup_insert_eq|]. split; [by left | by left].
    + cbv [mbind M_bind mret M_ret]. unfold try_send at 1. rewrite Hc, Hsh, Hq, Hcap. cbn [List.length Nat.ltb Nat.leb]. unfold receive at 1. rewrite Hc, Hq. cbv iota beta.
      rewrite (enqueue_empty 1 (tl taken) l _ _ (MkChannel (capacity c) [] (shut c))); [|cbn; by rewrite list_lookup_insert_eq | done | done | done].
      unfold sent_to. cbn [with_channels channels queue capacity app]. rewrite list_insert_insert_eq, Hcap.
      set (d := mergeResourceChanges p change). exists (with_channels (<[l := MkChannel 1 [ResourcesChanged d] false]> (channels b)) b), [].
      destruct (Hfinal d) as [H1 H2]. destruct (merged_covers p change) as [M1 M2]. split_and!; try done; [apply Hother; intros m ->%list_elem_of_singleton; exists (ResourcesChanged d); split; [done | by right]|].
      eexists _, d. split; [cbn; by rewrite list_lookup_insert_eq|]. split; [by left | done].
Qed.

(** What is received by whom. *)
Definition tagged (got : list (nat * list bus_message)) : list (nat * bus_message) := flat_map (fun '(l, ms) => map (pair l) ms) got.

Lemma enqueue_all_run change ls : forall taken b, sound b -> NoDup ls -> Forall (fun l => exists i, at_place b (PChange i) = Some l) ls ->
  exists b' got, enqueue_all change taken ls b = (b', Ok got) /\ moved b b' /\ sound b' /\ kept b b' (tagged got)
    /\ Forall (fun l => exists m', covers (ResourcesChanged change) m' /\ ((l, m') ∈ tagged got \/ exists c', channels b' !! l = Some c' /\ m' ∈ queue c')) ls.
Proof.
  induction ls as [|l ls IH]; intros taken b Hs Hn Hf; [exists b, []; split_and!; [done | apply moved_refl | done | apply kept_unmoved | done]|].
  apply Forall_cons in Hf as [(i & Hi) Hf]. apply NoDup_cons in Hn as [Hnl Hn].
  destruct (enqueue_run (hd [] taken) l change b i Hs Hi) as (b1 & got1 & E1 & Hm1 & Hs1 & Hk1 & c1 & d & Hc1 & Hd & Hcov).
  destruct (IH (tl taken) b1 Hs1 Hn) as (b2 & got2 & E2 & Hm2 & Hs2 & Hk2 & Hf2).
  { eapply Forall_impl; [exact Hf|]. intros x (j & Hj). exists j. by rewrite (moved_place b b1). }
  exists b2, ((l, got1) :: got2). cbn [enqueue_all]. cbv [mbind M_bind mret M_ret]. rewrite E1. cbv iota beta. rewrite E2. split_and!; [done | by eapply moved_trans | done | by apply (kept_after b b1 b2) |].
  constructor.
  - destruct (Hk2 l c1 Hc1) as (c2 & Hc2 & Hq2). destruct (Hq2 _ Hd) as (m' & Hcm & Hm'). exists m'. split; [by eapply covers_trans|].
    destruct Hm' as [Hm'|Hm']; [left; cbn; apply elem_of_app; by right | right; by exists c2].
  - eapply Forall_impl; [exact Hf2|]. intros x (m' & Hcm & [Hm'|Hm']); exists m'; (split; [done|]); [left; cbn; apply elem_of_app; by right | by right].
Qed.

(** *** Subscribing *)
#[local] Instance place_eq_dec : EqDecision place.
Proof. solve_decision. Defined.

Lemma subscribe_sound b l0 c0 p b' : sound b -> l0 = List.length (channels b) -> c0 = MkChannel (room p) [] false ->
  channels b' = channels b ++ [c0] ->
  (forall q, at_place b' q = if decide (q = p) then Some l0 else at_place b q) -> sound b' /\ kept b b' [].
Proof.
  intros [Ho H1] -> -> Hc Hp. assert (Hfresh : forall q l, at_place b q = Some l -> (l < List.length (channels b))%nat).
  { intros q l Hl. destruct (Ho q l Hl) as (c & Hch & _). by eapply lookup_lt_Some. }
  split; [constructor|].
  - intros q l Hl. rewrite Hp in Hl. destruct (decide (q = p)) as [->|Hne].
    + injection Hl as <-. rewrite Hc. eexists. split; [by rewrite list_lookup_middle|]. split_and!; cbn; [done | done | destruct p; cbn; lia | constructor].
    + destruct (Ho q l Hl) as (c & Hch & Hg). exists c. split; [|done]. rewrite Hc. by apply lookup_app_l_Some.
  - intros q r l Hq Hr. rewrite Hp in Hq, Hr. destruct (decide (q = p)) as [->|Hne1], (decide (r = p)) as [->|Hne2]; [done | | | by eapply H1].
    + injection Hq as <-. apply Hfresh in Hr. lia.
    + injection Hr as <-. apply Hfresh in Hq. lia.
  - apply kept_lengthened. intros l c Hl. exists c. rewrite Hc. split; [by apply lookup_app_l_Some|]. exists []. by rewrite app_nil_r.
Qed.

(** A closed bus closes the new channel at once. *)
Lemma subscribe_closed b b' n : sound b -> channels b' = channels b ++ [MkChannel n [] true] -> (forall q, at_place b' q = at_place b q) -> sound b' /\ kept b b' [].
Proof.
  intros Hs Hc Hp. split.
  - apply (sound_step b); [done | intros p l; by rewrite Hp|]. intros p l c _ Hl Hg. exists c. split; [|done]. rewrite Hc. by apply lookup_app_l_Some.
  - apply kept_lengthened. intros l c Hl. exists c. rewrite Hc. split; [by apply lookup_app_l_Some|]. exists []. by rewrite app_nil_r.
Qed.

Lemma nested_insert (subs : gmap string (gmap Z nat)) topic id l t i :
  (<[topic := <[id := l]> (default ∅ (subs !! topic))]> subs) !! t ≫= (fun s => s !! i)
  = if decide (t = topic /\ i = id) then Some l else subs !! t ≫= (fun s => s !! i).
Proof.
  destruct (decide (t = topic)) as [->|Hne].
  - rewrite lookup_insert_eq. cbn. destruct (decide (i = id)) as [->|Hi].
    + rewrite lookup_insert_eq. by destruct (decide _) as [|[]].
    + rewrite lookup_insert_ne by done. destruct (decide _) as [[_ ?]|_]; [done|]. destruct (subs !! topic); [done|]. cbn. by rewrite lookup_empty.
  - rewrite lookup_insert_ne by done. destruct (decide _) as [[? _]|_]; [done|done].
Qed.

Lemma insert_last {A} (l : list A) x y : <[List.length l := y]> (l ++ [x]) = l ++ [y].
Proof. by rewrite <- (Nat.add_0_r (List.length l)), insert_app_r. Qed.

Ltac subscribing Hclosed :=
  cbv [mbind M_bind mret M_ret set get]; cbn [bus_closed with_counters with_channels channels];
  destruct Hclosed eqn:?; cbn;
  [ unfold close_chan; cbn; rewrite list_lookup_middle by done; cbn; rewrite insert_last; eexists _, _; split; [reflexivity|]; eapply subscribe_closed; [eassumption | reflexivity | by intros []]
  | eexists _, _; split; [reflexivity|] ].

Lemma fine_SubscribeActions nodeID : fine (SubscribeActions nodeID) nothing.
Proof.
  intros b Hs. unfold SubscribeActions, make_chan. subscribing (bus_closed b). cbn.
  eapply (subscribe_sound b _ _ (PAction (strings.TrimSpace nodeID) (next (nextActionSubscription b)))); [done | reflexivity | reflexivity | reflexivity |].
  intros [t i|t i|i|i]; cbn [at_place actionSubs snapshotSubs changeSubs runtimeSubs with_actionSubs with_counters with_channels]; [|by rewrite decide_False..].
  rewrite nested_insert. destruct (decide (t = _ /\ i = _)) as [[-> ->]|Hn]; [by rewrite decide_True|]. rewrite decide_False; [done|]. intros [= -> ->]. by apply Hn.
Qed.

Lemma fine_SubscribeSnapshotChanges nodeID : fine (SubscribeSnapshotChanges nodeID) nothing.
Proof.
  intros b Hs. unfold SubscribeSnapshotChanges, make_chan. subscribing (bus_closed b). cbn.
  eapply (subscribe_sound b _ _ (PSnapshot nodeID (next (nextActionSubscription b)))); [done | reflexivity | reflexivity | reflexivity |].
  intros [t i|t i|i|i]; cbn [at_place actionSubs snapshotSubs changeSubs runtimeSubs with_snapshotSubs with_counters with_channels]; [by rewrite decide_False| |by rewrite decide_False..].
  rewrite nested_insert. destruct (decide (t = _ /\ i = _)) as [[-> ->]|Hn]; [by rewrite decide_True|]. rewrite decide_False; [done|]. intros [= -> ->]. by apply Hn.
Qed.

Lemma fine_SubscribeResourceChanges : fine SubscribeResourceChanges nothing.
Proof.
  intros b Hs. unfold SubscribeResourceChanges, make_chan. subscribing (bus_closed b). cbn.
  eapply (subscribe_sound b _ _ (PChange (next (nextResourceSubscription b)))); [done | reflexivity | reflexivity | reflexivity |].
  intros [t i|t i|i|i]; cbn; try by rewrite decide_False. destruct (decide (i = next (nextResourceSubscription b))) as [->|Hn]; [by rewrite lookup_insert_eq, decide_True|].
  rewrite lookup_insert_ne by done. rewrite decide_False; [done|]. by intros [= ->].
Qed.

Lemma fine_SubscribeRuntimeChanges : fine SubscribeRuntimeChanges nothing.
Proof.
  intros b Hs. unfold SubscribeRuntimeChanges, make_chan. subscribing (bus_closed b). cbn.
  eapply (subscribe_sound b _ _ (PRuntime (next (nextRuntimeSubscription b)))); [done | reflexivity | reflexivity | reflexivity |].
  intros [t i|t i|i|i]; cbn; try by rewrite decide_False. destruct (decide (i = next (nextRuntimeSubscription b))) as [->|Hn]; [by rewrite lookup_insert_eq, decide_True|].
  rewrite lookup_insert_ne by done. rewrite decide_False; [done|]. by intros [= ->].
Qed.

(** *** Cancelling *)
Lemma close_open b l c : channels b !! l = Some c -> shut c = false ->
  close_chan l b = (with_channels (<[l := MkChannel (capacity c) (queue c) true]> (channels b)) b, Ok tt).
Proof. intros Hc Hs. unfold close_chan. by rewrite Hc, Hs. Qed.

Lemma kept_closed b b' l c : channels b !! l = Some c -> channels b' = <[l := MkChannel (capacity c) (queue c) true]> (channels b) -> kept b b' [].
Proof.
  intros Hc E. apply kept_lengthened. intros l' c' Hc'. rewrite E. destruct (decide (l' = l)) as [->|Hne].
  - rewrite Hc in Hc'. injection Hc' as <-. rewrite list_lookup_insert_eq by by eapply lookup_lt_Some. eexists. split; [done|]. exists []. by rewrite app_nil_r.
  - rewrite list_lookup_insert_ne by done. exists c'. split; [done|]. exists []. by rewrite app_nil_r.
Qed.

(** A registration removed and its channel closed. *)
Lemma cancel_sound b b' p l c : sound b -> at_place b p = Some l -> channels b !! l = Some c ->
  channels b' = <[l := MkChannel (capacity c) (queue c) true]> (channels b) ->
  (forall q, at_place b' q = if decide (q = p) then None else at_place b q) -> sound b' /\ kept b b' [].
Proof.
  intros Hs Hl Hc E Hp. split; [|by eapply kept_closed]. apply (sound_step b); [done | |].
  - intros q l' Hq. rewrite Hp in Hq. by destruct (decide (q = p)).
  - intros q l' c' Hq Hc' Hg. rewrite Hp in Hq. destruct (decide (q = p)) as [|Hne]; [done|]. exists c'. split; [|done]. rewrite E, list_lookup_insert_ne; [done|].
    intros <-. apply Hne. by eapply (so_one b Hs).
Qed.

Lemma nested_without (subs : gmap string (gmap Z nat)) s t i :
  without_sub s subs !! t ≫= (fun x => x !! i)
  = if decide (t = sub_topic s /\ i = sub_id s /\ subs !! sub_topic s ≫= (fun x => x !! sub_id s) = Some (sub_chan s)) then None else subs !! t ≫= (fun x => x !! i).
Proof.
  unfold without_sub. destruct (subs !! sub_topic s) as [x|] eqn:Ex; [|by destruct (decide _) as [(_ & _ & ?)|_]]. cbn.
  destruct (decide (t = sub_topic s)) as [->|Ht].
  - rewrite Ex. cbn. destruct (bool_decide (x !! sub_id s = Some (sub_chan s))) eqn:Hr; [apply bool_decide_eq_true in Hr | apply bool_decide_eq_false in Hr].
    + case_bool_decide as He; [rewrite lookup_delete_eq | rewrite lookup_insert_eq]; cbn.
      * destruct (decide _) as [(_ & -> & _)|Hn]; [done|]. destruct (decide (i = sub_id s)) as [->|Hi]; [by exfalso; apply Hn|].
        assert (H : delete (sub_id s) x !! i = None) by (rewrite He; apply lookup_empty). rewrite lookup_delete_ne in H by done. done.
      * destruct (decide _) as [(_ & -> & _)|Hn]; [by rewrite lookup_delete_eq|]. destruct (decide (i = sub_id s)) as [->|Hi]; [by exfalso; apply Hn|]. by rewrite lookup_delete_ne.
    + destruct (decide _) as [(_ & _ & ?)|_]; [done|]. case_bool_decide as He; [rewrite lookup_delete_eq | by rewrite lookup_insert_eq]. cbn. rewrite He. by rewrite lookup_empty.
  - destruct (decide _) as [(? & _)|_]; [done|]. case_bool_decide; [by rewrite lookup_delete_ne | by rewrite lookup_insert_ne].
Qed.

Lemma fine_cancelAction s : fine (cancelAction s) nothing.
Proof.
  intros b Hs. unfold cancelAction, registered_in. cbv [mbind M_bind mret M_ret set get]. case_bool_decide as Hr.
  - destruct (so_open b Hs (PAction (sub_topic s) (sub_id s)) _ Hr) as (c & Hc & Hsh & _).
    erewrite close_open; [|exact Hc|exact Hsh]. eexists _, _. split; [reflexivity|].
    eapply (cancel_sound b _ (PAction (sub_topic s) (sub_id s)) _ c); [done | exact Hr | exact Hc | reflexivity |].
    intros [t i|t i|i|i]; cbn [at_place actionSubs snapshotSubs changeSubs runtimeSubs with_actionSubs with_channels]; [|by rewrite decide_False..].
    rewrite nested_without. destruct (decide (PAction t i = _)) as [[= -> ->]|Hn]; [by rewrite decide_True|]. rewrite decide_False; [done|]. intros (-> & -> & _). by apply Hn.
  - eexists _, _. split; [reflexivity|]. split; [|by apply kept_same]. apply (sound_same b); [done | done|].
    intros [t i|t i|i|i]; cbn [at_place actionSubs snapshotSubs changeSubs runtimeSubs with_actionSubs]; [|done..]. rewrite nested_without, decide_False; [done|]. by intros (_ & _ & ?).
Qed.

Lemma fine_cancelSnapshot s : fine (cancelSnapshot s) nothing.
Proof.
  intros b Hs. unfold cancelSnapshot, registered_in. cbv [mbind M_bind mret M_ret set get]. case_bool_decide as Hr.
  - destruct (so_open b Hs (PSnapshot (sub_topic s) (sub_id s)) _ Hr) as (c & Hc & Hsh & _).
    erewrite close_open; [|exact Hc|exact Hsh]. eexists _, _. split; [reflexivity|].
    eapply (cancel_sound b _ (PSnapshot (sub_topic s) (sub_id s)) _ c); [done | exact Hr | exact Hc | reflexivity |].
    intros [t i|t i|i|i]; cbn [at_place actionSubs snapshotSubs changeSubs runtimeSubs with_snapshotSubs with_channels]; [by rewrite decide_False| |by rewrite decide_False..].
    rewrite nested_without. destruct (decide (PSnapshot t i = _)) as [[= -> ->]|Hn]; [by rewrite decide_True|]. rewrite decide_False; [done|]. intros (-> & -> & _). by apply Hn.
  - eexists _, _. split; [reflexivity|]. split; [|by apply kept_same]. apply (sound_same b); [done | done|].
    intros [t i|t i|i|i]; cbn [at_place actionSubs snapshotSubs changeSubs runtimeSubs with_snapshotSubs]; [done| |done..]. rewrite nested_without, decide_False; [done|]. by intros (_ & _ & ?).
Qed.

Lemma delete_at (subs : gmap Z nat) i j : delete i subs !! j = if decide (j = i) then None else subs !! j.
Proof. destruct (decide (j = i)) as [->|]; [apply lookup_delete_eq | by apply lookup_delete_ne]. Qed.

Lemma fine_cancelResource s : fine (cancelResource s) nothing.
Proof.
  intros b Hs. unfold cancelResource. cbv [mbind M_bind mret M_ret set get]. case_bool_decide as Hr; [|exists b, tt; split_and!; [done | done | apply kept_unmoved]].
  destruct (so_open b Hs (PChange (sub_id s)) _ Hr) as (c & Hc & Hsh & _). erewrite close_open; [|exact Hc|exact Hsh]. eexists _, _. split; [reflexivity|].
  eapply (cancel_sound b _ (PChange (sub_id s)) _ c); [done | exact Hr | exact Hc | reflexivity |].
  intros [t i|t i|i|i]; cbn; try by rewrite decide_False. rewrite delete_at. destruct (decide (i = sub_id s)) as [->|Hn]; [by rewrite decide_True|]. rewrite decide_False; [done|]. by intros [= ->].
Qed.

Lemma fine_cancelRuntime s : fine (cancelRuntime s) nothing.
Proof.
  intros b Hs. unfold cancelRuntime. cbv [mbind M_bind mret M_ret set get]. case_bool_decide as Hr; [|exists b, tt; split_and!; [done | done | apply kept_unmoved]].
  destruct (so_open b Hs (PRuntime (sub_id s)) _ Hr) as (c & Hc & Hsh & _). erewrite close_open; [|exact Hc|exact Hsh]. eexists _, _. split; [reflexivity|].
  eapply (cancel_sound b _ (PRuntime (sub_id s)) _ c); [done | exact Hr | exact Hc | reflexivity |].
  intros [t i|t i|i|i]; cbn; try by rewrite decide_False. rewrite delete_at. destruct (decide (i = sub_id s)) as [->|Hn]; [by rewrite decide_True|]. rewrite decide_False; [done|]. by intros [= ->].
Qed.

(** *** Publishing, receiving, capabilities *)
Lemma fine_publishAction nodeID action : fine (publishAction nodeID action) nothing.
Proof.
  intros b Hs. unfold publishAction. cbv [mbind M_bind mret M_ret get]. destruct (bus_closed b); [exists b, false; split_and!; [done | done | apply kept_unmoved]|].
  destruct (deliver_each (ActionSent action) (subscribers nodeID (actionSubs b)) b Hs) as (b' & t & E & _ & Hs' & Hk); [|by exists b', t].
  apply Forall_forall. intros l Hl. apply subscribers_registered in Hl as [id Hid]. by exists (PAction nodeID id).
Qed.

Lemma fine_notifyRuntimeChanges nodeID : fine (notifyRuntimeChanges nodeID) nothing.
Proof.
  intros b Hs. unfold notifyRuntimeChanges. cbv [mbind M_bind mret M_ret get]. destruct (bus_closed b); [exists b, tt; split_and!; [done | done | apply kept_unmoved]|].
  destruct (try_send_each (RuntimeChanged nodeID) (map_to_list (runtimeSubs b)).*2 b Hs) as (b' & E & _ & Hs' & Hk); [|exists b', tt; split_and!; [exact E | done | done]].
  apply Forall_forall. intros l ([id x] & -> & Hin)%list_elem_of_fmap. apply elem_of_map_to_list in Hin. by exists (PRuntime id).
Qed.

(** The subscribers a snapshot notification is for. *)
Definition snapshot_targets (order : list string -> list string) (nodeIDs : list string) : list string :=
  order (remove_dups (List.filter (fun id => negb (String.eqb (strings.TrimSpace id) "")) nodeIDs)).

Lemma snapshot_registered b targets l : l ∈ flat_map (fun id => subscribers id (snapshotSubs b)) targets -> registered b SnapshotChanged l.
Proof. intros Hl. apply list_elem_of_In, in_flat_map in Hl as (id & _ & Hl%list_elem_of_In). apply subscribers_registered in Hl as [i Hi]. by exists (PSnapshot id i). Qed.

Lemma fine_notifySnapshotChanges order nodeIDs : fine (notifySnapshotChanges order nodeIDs) nothing.
Proof.
  intros b Hs. unfold notifySnapshotChanges. destruct nodeIDs as [|n ns]; [exists b, tt; split_and!; [done | done | apply kept_unmoved]|].
  cbv [mbind M_bind mret M_ret get]. destruct (bus_closed b); [exists b, tt; split_and!; [done | done | apply kept_unmoved]|].
  match goal with |- context [each_chan _ ?ls] => destruct (try_send_each SnapshotChanged ls b Hs) as (b' & E & _ & Hs' & Hk) end; [|exists b', tt; split_and!; [exact E | done | done]].
  apply Forall_forall. intros l Hl. by apply snapshot_registered in Hl.
Qed.

Lemma fine_notifyResources taken pending nodeIDs : fine (notifyResourceChangesWithOptions taken pending nodeIDs) tagged.
Proof.
  intros b Hs. unfold notifyResourceChangesWithOptions. destruct (changed_nodes nodeIDs) as [|n ns]; [exists b, []; split_and!; [done | done | apply kept_unmoved]|].
  cbv [mbind M_bind mret M_ret get]. destruct (bus_closed b); [exists b, []; split_and!; [done | done | apply kept_unmoved]|].
  destruct (enqueue_all_run (MkResourceChange (n :: ns) pending) (map_to_list (changeSubs b)).*2 taken b Hs) as (b' & got & E & _ & Hs' & Hk & _).
  - apply NoDup_fmap_2_strong; [|apply NoDup_map_to_list]. intros [i x] [j y] Hx Hy Heq. cbn in Heq. subst y. apply elem_of_map_to_list in Hx, Hy.
    enough (PChange i = PChange j) as [= ->] by done. by eapply (so_one b Hs).
  - apply Forall_forall. intros l ([id x] & -> & Hin)%list_elem_of_fmap. apply elem_of_map_to_list in Hin. by exists id.
  - by exists b', got.
Qed.

Lemma fine_receive l : fine (receive l) (fun r => match r with Some (Some m) => [(l, m)] | _ => [] end).
Proof. intros b Hs. destruct (receive_kept b l Hs) as (b' & r & E & _ & Hs' & Hk). by exists b', r. Qed.

Lemma fine_SetNodeCapabilities nodeID items : fine (SetNodeCapabilities nodeID items) nothing.
Proof.
  intros b Hs. unfold SetNodeCapabilities. cbv [mbind M_bind mret M_ret get set]. destruct (bus_closed _); eexists _, _; (split; [reflexivity|]); split;
    [apply (sound_same b); [done | done | by intros []] | by apply kept_same | apply (sound_same b); [done | done | by intros []] | by apply kept_same].
Qed.

Lemma fine_ClearNodeCapabilities nodeID token : fine (ClearNodeCapabilities nodeID token) nothing.
Proof.
  intros b Hs. unfold ClearNodeCapabilities, set. destruct (capabilities b !! strings.TrimSpace nodeID) as [[t items]|]; [destruct (t =? token)|];
    (eexists _, _; split; [reflexivity|]); (split; [first [done | apply (sound_same b); [done | done | by intros []]] | by apply kept_same]).
Qed.

(** *** Closing *)
Lemma close_each ls : forall b, NoDup ls -> Forall (fun l => exists c, channels b !! l = Some c /\ shut c = false) ls ->
  exists chs, each_chan close_chan ls b = (with_channels chs b, Ok tt)
    /\ (forall l, l ∉ ls -> chs !! l = channels b !! l) /\ kept b (with_channels chs b) [].
Proof.
  induction ls as [|l ls IH]; intros b Hn Hf; [exists (channels b); split_and!; [by destruct b | done | by apply kept_same]|].
  apply NoDup_cons in Hn as [Hl Hn]. apply Forall_cons in Hf as [(c & Hc & Hs) Hf]. cbn [each_chan]. cbv [mbind M_bind]. rewrite (close_open b l c Hc Hs).
  set (b1 := with_channels _ b). destruct (IH b1 Hn) as (chs & E & Hsame & Hk).
  { apply Forall_forall. intros x Hx. destruct (proj1 (Forall_forall _ _) Hf x Hx) as (cx & Hcx & Hsx). exists cx. split; [|done]. cbn. rewrite list_lookup_insert_ne; [done|]. by intros <-. }
  exists chs. rewrite E. split_and!; [done | | by eapply (kept_after b b1 _ [] []); [eapply kept_closed|]].
  intros x Hx. apply not_elem_of_cons in Hx as [Hne Hx]. rewrite (Hsame x Hx). cbn. by rewrite list_lookup_insert_ne.
Qed.

Lemma NoDup_flat_map {A B} (f : A -> list B) l : NoDup l -> (forall x, x ∈ l -> NoDup (f x)) ->
  (forall x y z, x ∈ l -> y ∈ l -> z ∈ f x -> z ∈ f y -> x = y) -> NoDup (flat_map f l).
Proof.
  induction l as [|x l IH]; intros Hn Hf Hd; [constructor|]. apply NoDup_cons in Hn as [Hx Hn]. cbn. apply NoDup_app. split_and!.
  - apply Hf. by left.
  - intros z Hz Hz'. apply list_elem_of_In, in_flat_map in Hz' as (y & Hy%list_elem_of_In & Hzy%list_elem_of_In).
    assert (x = y) as <- by (eapply Hd; [by left | by right | done | done]). done.
  - apply IH; [done | intros; apply Hf; by right | intros; eapply Hd; [by right | by right | done | done]].
Qed.

Lemma all_subscribers_at subs l : l ∈ all_subscribers subs <-> exists t i, subs !! t ≫= (fun s => s !! i) = Some l.
Proof.
  unfold all_subscribers. rewrite list_elem_of_In, in_flat_map. split.
  - intros ([t s] & Hts%list_elem_of_In & Hl%list_elem_of_In). apply elem_of_map_to_list in Hts. apply list_elem_of_fmap in Hl as ([i x] & -> & Hin). apply elem_of_map_to_list in Hin. exists t, i. by rewrite Hts.
  - intros (t & i & H). destruct (subs !! t) as [s|] eqn:Et; [|done]. exists (t, s). split; [apply list_elem_of_In; by apply elem_of_map_to_list|].
    apply list_elem_of_In, list_elem_of_fmap. exists (i, l). split; [done|]. by apply elem_of_map_to_list.
Qed.

(** A table of subscriptions by topic, in which no channel occurs twice. *)
Lemma all_subscribers_NoDup subs :
  (forall t i u j l, subs !! t ≫= (fun s => s !! i) = Some l -> subs !! u ≫= (fun s => s !! j) = Some l -> t = u /\ i = j) -> NoDup (all_subscribers subs).
Proof.
  intros Hinj. apply NoDup_flat_map; [apply NoDup_map_to_list | |].
  - intros [t s] Hts. apply elem_of_map_to_list in Hts. apply NoDup_fmap_2_strong; [|apply NoDup_map_to_list]. intros [i x] [j y] Hx Hy Heq. cbn in Heq. subst y.
    apply elem_of_map_to_list in Hx, Hy. cbn in *. destruct (Hinj t i t j x) as [_ ->]; [by rewrite Hts | by rewrite Hts | done].
  - intros [t s] [u r] l Hts Hur Hl Hl'. apply elem_of_map_to_list in Hts, Hur. apply list_elem_of_fmap in Hl as ([i x] & -> & Hi), Hl' as ([j y] & Hxy & Hj). cbn in *.
    apply elem_of_map_to_list in Hi, Hj. subst y. destruct (Hinj t i u j x) as [-> _]; [by rewrite Hts | by rewrite Hur | congruence].
Qed.

(** All channels of some places closed, and their places emptied. *)
Lemma close_places b b' (ls : list nat) chs : sound b -> (forall l, l ∉ ls -> chs !! l = channels b !! l) -> channels b' = chs ->
  (forall p l, at_place b' p = Some l -> at_place b p = Some l /\ l ∉ ls) -> sound b'.
Proof.
  intros Hs Hsame E Hp. apply (sound_step b); [done | intros p l Hl; by apply Hp|]. intros p l c Hl Hc Hg. exists c. split; [|done]. rewrite E, Hsame; [done | by apply (Hp p)].
Qed.

Lemma places_open b (ls : list nat) : sound b -> (forall l, l ∈ ls -> exists p, at_place b p = Some l) -> Forall (fun l => exists c, channels b !! l = Some c /\ shut c = false) ls.
Proof. intros Hs Hl. apply Forall_forall. intros l Hin. destruct (Hl l Hin) as [p Hp]. destruct (so_open b Hs p l Hp) as (c & Hc & Hsh & _). by exists c. Qed.

Lemma values_at (subs : gmap Z nat) l : l ∈ (map_to_list subs).*2 <-> exists i, subs !! i = Some l.
Proof.
  rewrite list_elem_of_fmap. split; [intros ([i x] & -> & Hin); exists i; by apply elem_of_map_to_list | intros (i & Hi); exists (i, l); split; [done | by apply elem_of_map_to_list]].
Qed.

Lemma values_NoDup (subs : gmap Z nat) : (forall i j l, subs !! i = Some l -> subs !! j = Some l -> i = j) -> NoDup (map_to_list subs).*2.
Proof.
  intros Hinj. apply NoDup_fmap_2_strong; [|apply NoDup_map_to_list]. intros [i x] [j y] Hx Hy Heq. cbn in Heq. subst y. apply elem_of_map_to_list in Hx, Hy. by rewrite (Hinj i j x).
Qed.

(** A channel registered at two places. *)
Ltac two_places b Hs p H Hl :=
  first [ discriminate (so_one b Hs p (PAction _ _) _ H Hl) | discriminate (so_one b Hs p (PSnapshot _ _) _ H Hl)
        | discriminate (so_one b Hs p (PChange _) _ H Hl) | discriminate (so_one b Hs p (PRuntime _) _ H Hl) ].

Lemma fine_close_actions : fine close_actions nothing.
Proof.
  intros b Hs. unfold close_actions. cbv [mbind M_bind mret M_ret get set].
  assert (Ha : forall l, l ∈ all_subscribers (actionSubs b) -> exists p, at_place b p = Some l) by (intros l (t & i & H)%all_subscribers_at; by exists (PAction t i)).
  assert (Hna : NoDup (all_subscribers (actionSubs b))).
  { apply all_subscribers_NoDup. intros t i u j l H1 H2. enough (PAction t i = PAction u j) as [= -> ->] by done. by eapply (so_one b Hs). }
  destruct (close_each _ b Hna (places_open b _ Hs Ha)) as (chs1 & E1 & Hsame1 & Hk1). rewrite E1. cbv iota beta.
  set (b1 := with_actionSubs ∅ (with_channels chs1 b)).
  assert (Hs1 : sound b1).
  { eapply (close_places b); [done | exact Hsame1 | done|]. intros [t i|t i|i|i] l Hl; cbn in Hl; [by rewrite lookup_empty in Hl|..];
      (split; [done|]; intros (t' & i' & H)%all_subscribers_at; two_places b Hs (PAction t' i') H Hl). }
  assert (Hb : forall l, l ∈ all_subscribers (snapshotSubs b1) -> exists p, at_place b1 p = Some l) by (intros l (t & i & H)%all_subscribers_at; by exists (PSnapshot t i)).
  assert (Hnb : NoDup (all_subscribers (snapshotSubs b1))).
  { apply all_subscribers_NoDup. intros t i u j l H1 H2. enough (PSnapshot t i = PSnapshot u j) as [= -> ->] by done. by eapply (so_one b1 Hs1). }
  destruct (close_each _ b1 Hnb (places_open b1 _ Hs1 Hb)) as (chs2 & E2 & Hsame2 & Hk2). fold b1. rewrite E2. eexists _, _. split; [reflexivity|]. split.
  - eapply (close_places b1); [done | exact Hsame2 | done|]. intros [t i|t i|i|i] l Hl; cbn in Hl; [by rewrite lookup_empty in Hl | by rewrite lookup_empty in Hl|..];
      (split; [done|]; intros (t' & i' & H)%all_subscribers_at; two_places b1 Hs1 (PSnapshot t' i') H Hl).
  - by apply (kept_after b b1 _ [] []).
Qed.

Lemma fine_close_changes : fine close_changes nothing.
Proof.
  intros b Hs. unfold close_changes. cbv [mbind M_bind mret M_ret get set].
  assert (Ha : forall l, l ∈ (map_to_list (changeSubs b)).*2 -> exists p, at_place b p = Some l) by (intros l (i & H)%values_at; by exists (PChange i)).
  assert (Hn : NoDup (map_to_list (changeSubs b)).*2).
  { apply values_NoDup. intros i j l H1 H2. enough (PChange i = PChange j) as [= ->] by done. by eapply (so_one b Hs). }
  destruct (close_each _ b Hn (places_open b _ Hs Ha)) as (chs & E & Hsame & Hk). rewrite E. eexists _, _. split; [reflexivity|]. split; [|done].
  eapply (close_places b); [done | exact Hsame | done|]. intros [t i|t i|i|i] l Hl; cbn in Hl; [| |by rewrite lookup_empty in Hl|];
    (split; [done|]; intros (i' & H)%values_at; two_places b Hs (PChange i') H Hl).
Qed.

Lemma fine_close_runtime : fine close_runtime nothing.
Proof.
  intros b Hs. unfold close_runtime. cbv [mbind M_bind mret M_ret get set].
  assert (Ha : forall l, l ∈ (map_to_list (runtimeSubs b)).*2 -> exists p, at_place b p = Some l) by (intros l (i & H)%values_at; by exists (PRuntime i)).
  assert (Hn : NoDup (map_to_list (runtimeSubs b)).*2).
  { apply values_NoDup. intros i j l H1 H2. enough (PRuntime i = PRuntime j) as [= ->] by done. by eapply (so_one b Hs). }
  destruct (close_each _ b Hn (places_open b _ Hs Ha)) as (chs & E & Hsame & Hk). rewrite E. eexists _, _. split; [reflexivity|]. split; [|done].
  eapply (close_places b); [done | exact Hsame | done|]. intros [t i|t i|i|i] l Hl; cbn in Hl; [| | |by rewrite lookup_empty in Hl];
    (split; [done|]; intros (i' & H)%values_at; two_places b Hs (PRuntime i') H Hl).
Qed.

(** ** Any interleaving of sections *)
Inductive bus_op :=
| SubscribeA (nodeID : string) | SubscribeS (nodeID : string) | SubscribeC | SubscribeR
| CancelA (s : subscription) | CancelS (s : subscription) | CancelC (s : subscription) | CancelR (s : subscription)
| Publish (nodeID : string) (a : RuntimeAction) | NotifySnapshots (order : list string -> list string) (ids : list string)
| NotifyResources (taken : list (list bool)) (pending : bool) (ids : list string) | NotifyRuntime (nodeID : string)
| Receive (l : nat) | SetCapabilities (nodeID : string) (items : list string) | ClearCapabilities (nodeID : string) (token : Z)
| CloseFlag | CloseActions | CloseChanges | CloseRuntime | CloseCapabilities.

(** What the receivers got of it. *)
Definition run_op (o : bus_op) : CB (list (nat * bus_message)) :=
  match o with
  | SubscribeA n => _ ← SubscribeActions n; mret []
  | SubscribeS n => _ ← SubscribeSnapshotChanges n; mret []
  | SubscribeC => _ ← SubscribeResourceChanges; mret []
  | SubscribeR => _ ← SubscribeRuntimeChanges; mret []
  | CancelA s => _ ← cancelAction s; mret []
  | CancelS s => _ ← cancelSnapshot s; mret []
  | CancelC s => _ ← cancelResource s; mret []
  | CancelR s => _ ← cancelRuntime s; mret []
  | Publish n a => _ ← publishAction n a; mret []
  | NotifySnapshots order ids => _ ← notifySnapshotChanges order ids; mret []
  | NotifyResources taken pending ids => got ← notifyResourceChangesWithOptions taken pending ids; mret (tagged got)
  | NotifyRuntime n => _ ← notifyRuntimeChanges n; mret []
  | Receive l => r ← receive l; mret (match r with Some (Some m) => [(l, m)] | _ => [] end)
  | SetCapabilities n items => _ ← SetNodeCapabilities n items; mret []
  | ClearCapabilities n token => _ ← ClearNodeCapabilities n token; mret []
  | CloseFlag => _ ← close_flag; mret []
  | CloseActions => _ ← close_actions; mret []
  | CloseChanges => _ ← close_changes; mret []
  | CloseRuntime => _ ← close_runtime; mret []
  | CloseCapabilities => _ ← close_capabilities; mret []
  end.

Fixpoint run_ops (ops : list bus_op) : CB (list (nat * bus_message)) :=
  match ops with [] => mret [] | o :: ops => got ← run_op o; rest ← run_ops ops; mret (got ++ rest) end.

Lemma fine_then {A} (m : CB A) g (h : A -> list (nat * bus_message)) : fine m g -> (forall a, h a = g a) -> fine (a ← m; mret (h a)) id.
Proof. intros Hm Hh b Hs. destruct (Hm b Hs) as (b' & a & E & Hs' & Hk). exists b', (h a). cbv [mbind M_bind mret M_ret]. rewrite E. split_and!; [done | done |]. unfold id. by rewrite Hh. Qed.

Lemma fine_flags f : (forall b, channels (f b) = channels b) -> (forall b p, at_place (f b) p = at_place b p) -> fine (set f) nothing.
Proof. intros Hc Hp b Hs. exists (f b), tt. split_and!; [done | by apply (sound_same b) | by apply kept_same]. Qed.

Lemma fine_run_op o : fine (run_op o) id.
Proof.
  destruct o; cbn [run_op]; (eapply fine_then; [|intros ?; reflexivity]).
  all: auto using fine_SubscribeActions, fine_SubscribeSnapshotChanges, fine_SubscribeResourceChanges, fine_SubscribeRuntimeChanges,
    fine_cancelAction, fine_cancelSnapshot, fine_cancelResource, fine_cancelRuntime, fine_publishAction, fine_notifySnapshotChanges,
    fine_notifyResources, fine_notifyRuntimeChanges, fine_receive, fine_SetNodeCapabilities, fine_ClearNodeCapabilities,
    fine_close_actions, fine_close_changes, fine_close_runtime.
  - by apply fine_flags; intros; [|destruct p].
  - by apply fine_flags; intros; [|destruct p].
Qed.

Lemma fine_run_ops ops : fine (run_ops ops) id.
Proof.
  induction ops as [|o ops IH]; intros b Hs; [exists b, []; split_and!; [done | done | apply kept_unmoved]|].
  destruct (fine_run_op o b Hs) as (b1 & g1 & E1 & Hs1 & Hk1). destruct (IH b1 Hs1) as (b2 & g2 & E2 & Hs2 & Hk2).
  exists b2, (g1 ++ g2). cbn [run_ops]. cbv [mbind M_bind mret M_ret]. rewrite E1. cbv iota beta. rewrite E2. split_and!; [done | done | by apply (kept_after b b1 b2)].
Qed.

(** ** Wake-ups *)
Lemma snapshot_sends ls : forall b, sound b -> Forall (registered b SnapshotChanged) ls ->
  exists b', each_chan (fun l => _ ← try_send l SnapshotChanged; mret tt) ls b = (b', Ok tt) /\ sound b' /\ kept b b' []
    /\ Forall (fun l => exists c, channels b' !! l = Some c /\ SnapshotChanged ∈ queue c) ls.
Proof.
  induction ls as [|l ls IH]; intros b Hs Hf; [exists b; split_and!; [done | done | apply kept_unmoved | done]|].
  apply Forall_cons in Hf as [(p & Hp & Hk) Hf]. destruct (try_send_kept b p l SnapshotChanged Hs Hp Hk) as (b1 & t & E & Hmv & Hs1 & Hk1 & Hq).
  destruct (IH b1 Hs1) as (b2 & E2 & Hs2 & Hk2 & Hf2); [eapply Forall_impl; [exact Hf|]; intros x; by apply registered_moved|].
  exists b2. cbn [each_chan]. cbv [mbind M_bind mret M_ret] in *. rewrite E. cbn. rewrite E2. split_and!; [done | done | by apply (kept_after b b1 b2 [] []) |].
  constructor; [|done]. destruct p as [| topic id| |]; try done. destruct (Hq eq_refl) as (c & Hc & Hin).
  destruct (Hk2 l c Hc) as (c2 & Hc2 & Hm). destruct (Hm _ Hin) as (m' & [<-|(x & y & Hx & _)] & [Hg|Hm']); [by apply not_elem_of_nil in Hg | by exists c2 | done | done].
Qed.

Lemma notify_resources_covers taken pending ids b i l : sound b -> bus_closed b = false -> changeSubs b !! i = Some l -> changed_nodes ids <> [] ->
  exists b' got, run_op (NotifyResources taken pending ids) b = (b', Ok got) /\ sound b'
    /\ exists m', covers (ResourcesChanged (MkResourceChange (changed_nodes ids) pending)) m' /\ ((l, m') ∈ got \/ exists c, channels b' !! l = Some c /\ m' ∈ queue c).
Proof.
  intros Hs Hcl Hl Hne. cbn [run_op]. unfold notifyResourceChangesWithOptions. destruct (changed_nodes ids) as [|n ns] eqn:En; [done|].
  cbv [mbind M_bind mret M_ret get]. rewrite Hcl.
  destruct (enqueue_all_run (MkResourceChange (n :: ns) pending) (map_to_list (changeSubs b)).*2 taken b Hs) as (b' & got & E & _ & Hs' & _ & Hf).
  - apply values_NoDup. intros x y z H1 H2. enough (PChange x = PChange y) as [= ->] by done. by eapply (so_one b Hs).
  - apply Forall_forall. intros x (j & Hj)%values_at. by exists j.
  - rewrite E. exists b', (tagged got). split_and!; [done | done |]. rewrite Forall_forall in Hf. apply Hf, values_at. by exists i.
Qed.

Lemma notify_snapshots_queues order ids b topic i l : sound b -> bus_closed b = false ->
  snapshotSubs b !! topic ≫= (fun s => s !! i) = Some l -> topic ∈ snapshot_targets order ids -> ids <> [] ->
  exists b', run_op (NotifySnapshots order ids) b = (b', Ok []) /\ sound b' /\ exists c, channels b' !! l = Some c /\ SnapshotChanged ∈ queue c.
Proof.
  intros Hs Hcl Hl Ht Hne. cbn [run_op]. unfold notifySnapshotChanges. destruct ids as [|n ns]; [done|]. fold (snapshot_targets order (n :: ns)).
  cbv [mbind M_bind mret M_ret get]. rewrite Hcl.
  destruct (snapshot_sends (flat_map (fun id => subscribers id (snapshotSubs b)) (snapshot_targets order (n :: ns))) b Hs) as (b' & E & Hs' & _ & Hf).
  { apply Forall_forall. intros x Hx. by apply snapshot_registered in Hx. }
  cbv [mbind M_bind mret M_ret] in E. rewrite E. exists b'. split_and!; [done | done |]. rewrite Forall_forall in Hf. apply Hf.
  apply list_elem_of_In, in_flat_map. exists topic. split; [by apply list_elem_of_In|]. apply list_elem_of_In. by eapply registered_subscribers.
Qed.

(** What is queued is received later, or still queued at the end, or covered by such. *)
Lemma kept_from ops b b' got l c m : sound b -> run_ops ops b = (b', Ok got) -> channels b !! l = Some c -> m ∈ queue c ->
  exists m', covers m m' /\ ((l, m') ∈ got \/ exists c', channels b' !! l = Some c' /\ m' ∈ queue c').
Proof.
  intros Hs E Hc Hm. destruct (fine_run_ops ops b Hs) as (b2 & g2 & E2 & _ & Hk). rewrite E in E2. injection E2 as <- <-.
  destruct (Hk l c Hc) as (c' & Hc' & Hq). destruct (Hq m Hm) as (m' & Hcov & [Hg|Hq']); exists m'; (split; [done|]); [by left | right; by exists c'].
Qed.

Lemma sound_new a r t : sound (newChangeBus a r t).
Proof. constructor; intros []; cbn; by rewrite lookup_empty. Qed.

Lemma run_ops_cons o ops b b' got : run_ops (o :: ops) b = (b', Ok got) ->
  exists b1 g1 g2, run_op o b = (b1, Ok g1) /\ run_ops ops b1 = (b', Ok g2) /\ got = g1 ++ g2.
Proof.
  cbn [run_ops]. intros H. apply M_bind_run in H as [(g1 & b1 & E1 & H)|(e & _ & [=])]. apply M_bind_run in H as [(g2 & b2 & E2 & H)|(e & _ & [=])].
  injection H as <- <-. by exists b1, g1, g2.
Qed.

(** Whatever subscribes, cancels, publishes, receives and closes, in any interleaving
    of their sections and with every race of a consumer against the select loop: no
    operation closes a closed channel or sends on one, and every registered channel is
    open, registered once, and within its capacity. *)
Theorem bus_never_panics a r t ops :
  exists b got, run_ops ops (newChangeBus a r t) = (b, Ok got)
    /\ forall p l, at_place b p = Some l -> (exists c, channels b !! l = Some c /\ good p c) /\ forall q, at_place b q = Some l -> p = q.
Proof.
  destruct (fine_run_ops ops _ (sound_new a r t)) as (b & got & E & Hs & _). exists b, got. split; [done|].
  intros p l Hl. split; [by apply (so_open b Hs) | intros q Hq; by eapply (so_one b Hs)].
Qed.

(** C28: no wake-up is lost: a subscriber to resource changes that is registered when nodes
    change receives, or has queued, one hint that names all of them and asks for the pass
    over pending services if that was wanted; a stream registered for a node when its
    desired state changes receives a notification, or has one queued. *)
Theorem no_wakeup_lost a r t before b0 got0 :
  run_ops before (newChangeBus a r t) = (b0, Ok got0) -> bus_closed b0 = false ->
  (forall i l taken pending ids after b got, changeSubs b0 !! i = Some l -> changed_nodes ids <> [] ->
     run_ops (NotifyResources taken pending ids :: after) b0 = (b, Ok got) ->
     exists c, ((l, ResourcesChanged c) ∈ got \/ exists ch, channels b !! l = Some ch /\ ResourcesChanged c ∈ queue ch)
       /\ (forall id, id ∈ ids -> id <> "" -> id ∈ NodeIDs c) /\ (pending = true -> PendingServices c = true))
  /\ (forall topic i l order ids after b got, snapshotSubs b0 !! topic ≫= (fun s => s !! i) = Some l ->
     (forall xs, order xs ≡ₚ xs) -> topic ∈ ids -> strings.TrimSpace topic <> "" ->
     run_ops (NotifySnapshots order ids :: after) b0 = (b, Ok got) ->
     (l, SnapshotChanged) ∈ got \/ exists ch, channels b !! l = Some ch /\ SnapshotChanged ∈ queue ch).
Proof.
  intros E0 Hcl. destruct (fine_run_ops before _ (sound_new a r t)) as (b0' & g0' & E0' & Hs & _). rewrite E0 in E0'. injection E0' as <- <-. split.
  - intros i l taken pending ids after b got Hl Hne E. apply run_ops_cons in E as (b1 & g1 & g2 & E1 & E2 & ->).
    destruct (notify_resources_covers taken pending ids b0 i l Hs Hcl Hl Hne) as (b1' & g1' & E1' & Hs1 & m' & Hcov & Hm'). rewrite E1 in E1'. injection E1' as <- <-.
    assert (exists m, covers (ResourcesChanged (MkResourceChange (changed_nodes ids) pending)) m /\ ((l, m) ∈ g1 ++ g2 \/ exists c, channels b !! l = Some c /\ m ∈ queue c)) as (m & Hc & Hm).
    { destruct Hm' as [Hm'|(c & Hc & Hq)]; [exists m'; split; [done|]; left; apply elem_of_app; by left|].
      destruct (kept_from after b1 b g2 l c m' Hs1 E2 Hc Hq) as (m & Hcm & [Hm|Hm]); exists m; (split; [by eapply covers_trans|]); [left; apply elem_of_app; by right | by right]. }
    assert (exists c, m = ResourcesChanged c /\ changed_nodes ids ⊆ NodeIDs c /\ (pending = true -> PendingServices c = true)) as (c & -> & Hin & Hp)
      by (destruct Hc as [<-|(x & c & [= <-] & -> & Hx & Hy)]; eexists; split_and!; done).
    exists c. split_and!; [done | | done]. intros id Hid Hne'. apply Hin. apply distinct_spec. split; [|apply not_elem_of_nil].
    apply list_elem_of_In, filter_In. split; [by apply list_elem_of_In|]. by apply negb_true_iff, String.eqb_neq.
  - intros topic i l order ids after b got Hl Hperm Hin Hne E. apply run_ops_cons in E as (b1 & g1 & g2 & E1 & E2 & ->).
    assert (Ht : topic ∈ snapshot_targets order ids).
    { unfold snapshot_targets. rewrite Hperm. apply elem_of_remove_dups, list_elem_of_In, filter_In. split; [by apply list_elem_of_In|]. by apply negb_true_iff, String.eqb_neq. }
    destruct (notify_snapshots_queues order ids b0 topic i l Hs Hcl Hl Ht) as (b1' & E1' & Hs1 & c & Hc & Hq); [intros E3; rewrite E3 in Hin; by apply not_elem_of_nil in Hin|].
    rewrite E1 in E1'. injection E1' as <- ->. destruct (kept_from after b1 b g2 l c _ Hs1 E2 Hc Hq) as (m & [<-|(x & y & Hx & _)] & Hm); [exact Hm | done].
Qed.

(** Two streams of a node and the scheduler subscribe, and the node changes twice. *)
Definition sample_ops : list bus_op := [SubscribeC; SubscribeS "node-1"; SubscribeS "node-1"].
Definition sample_bus : ChangeBus := fst (run_ops sample_ops (newChangeBus 0 0 0)).
Definition sample_after : list bus_op :=
  [NotifyResources [[false]] true ["node-1"; ""; "node-2"]; NotifyResources [[false]] false ["node-3"; "node-2"]; Receive 0].

Example hints_merged :
  snd (run_ops sample_after sample_bus) = Ok [(0%nat, ResourcesChanged (MkResourceChange ["node-1"; "node-2"; "node-3"] true))].
Proof. vm_compute. reflexivity. Qed.

Lemma no_wakeup_lost_witness :
  changeSubs sample_bus !! 1 = Some 0%nat /\ snapshotSubs sample_bus !! "node-1" ≫= (fun s => s !! 2) = Some 2%nat
  /\ (forall b got, run_ops [NotifySnapshots id ["node-1"]; Receive 1] sample_bus = (b, Ok got) ->
      (2%nat, SnapshotChanged) ∈ got \/ exists ch, channels b !! 2%nat = Some ch /\ SnapshotChanged ∈ queue ch).
Proof.
  split; [vm_compute; reflexivity|]. split; [vm_compute; reflexivity|]. intros b got E.
  assert (E0 : run_ops sample_ops (newChangeBus 0 0 0) = (sample_bus, Ok [])) by (vm_compute; reflexivity).
  destruct (@no_wakeup_lost 0 0 0 sample_ops sample_bus [] E0 ltac:(vm_compute; reflexivity)) as [_ H].
  refine (H "node-1" 2 2%nat id ["node-1"] [Receive 1] b got ltac:(vm_compute; reflexivity) ltac:(intros; reflexivity) _ _ E); [by left | vm_compute; discriminate].
Defined.
