(* ===== verification/ControlStream.v ===== *)
(** * The control stream of a node (src/internal/controller: grpc_connect.go,
      grpc_snapshots.go, the identity checks of grpc_security.go)

    [Connect] from its first check to its end: admission, the Hello, authentication, the
    initial snapshot, and the messages that follow while two goroutines push snapshots and
    forward actions.  The store is the class [Repository] of the scheduler with
    [ControlStore] for the rest; what is sent and which calls change state is kept in a
    log.  Oracles: the leadership, the sends, the clock and the waits between retries.
    The map of streams and the capabilities are in [StreamRegistry]. *)
From S2P Require Import Prelude GoStd Domain Checksum Validation Snapshot Report Datagram Json Control ControlWire Effects Placement Reconcile Replacement ChangeBus.

(** ** Statuses *)
Definition status_of (code : string) (e : error) : error := EWrap ("rpc error: code = " +:+ code +:+ " desc = %w") [] e.
Definition Status (code message : string) : error := status_of code (ENew message).
Definition Unavailable := Status "Unavailable".
Definition InvalidArgument := Status "InvalidArgument".
Definition PermissionDenied := Status "PermissionDenied".
Definition ResourceExhausted := Status "ResourceExhausted".
Definition FailedPrecondition := Status "FailedPrecondition".
Definition Internal := Status "Internal".

(** ** Errors of the repositories (errors.go) *)
Definition ErrInvalidCredentials : error := ENew "invalid credentials".
Definition ErrNodeNotEnrolled : error := ENew "node is not enrolled".
Definition ErrInvalidEnrollmentRequest : error := ENew "invalid enrollment request".
Definition credential_errors : list string :=
  ["invalid credentials"; "user is disabled"; "invalid API token"; "API token has expired"; "invalid enrollment token";
   "enrollment token has already been used or revoked"; "enrollment token has expired"; "enrollment token is bound to a different node";
   "node is not enrolled"; "node enrollment is not allowed"].
Definition isCredentialError (e : error) : bool := existsb (error_is e) credential_errors.
Definition storageFailure (op : string) (e : error) : error := EWrap "%w: %s: %w" [AStr op] (EJoin ErrStorageFailure e).

(** ** Messages *)
Record hello := MkHello {
  Hello_NodeId : string; Hello_SchemaVersion : Z; Hello_AppliedGeneration : Z; Hello_AppliedChecksum : string; Hello_Capabilities : list string
}.

(** A timestamp of the wire: [None] for none, [Some None] for one that is not valid. *)
Definition wire_time := option (option Z).

Record wire_heartbeat := MkWireHeartbeat { WHeartbeat_SentAt : wire_time; WHeartbeat_AppliedGeneration : Z; WHeartbeat_Healthy : bool }.

Record wire_event := MkWireEvent {
  WEvent_Id : string; WEvent_Type : string; WEvent_Message : string; WEvent_AttributesJson : bytes; WEvent_CreatedAt : wire_time
}.

(** The status as its number: 1 accepted, 2 applied, 3 rejected. *)
Record wire_result := MkWireResult { WResult_Generation : Z; WResult_Checksum : string; WResult_Status : Z; WResult_Error : option wire_error }.
Definition ACCEPTED : Z := 1.
Definition APPLIED : Z := 2.
Definition REJECTED : Z := 3.
(** [ApplyStatus.String] of the generated code. *)
Definition status_string (n : Z) : string :=
  if n =? 0 then "APPLY_STATUS_UNSPECIFIED" else if n =? ACCEPTED then "APPLY_STATUS_ACCEPTED" else if n =? APPLIED then "APPLY_STATUS_APPLIED"
  else if n =? REJECTED then "APPLY_STATUS_REJECTED" else pretty n.

(** The body of a message; [NoBody] is a message whose body is none of these. *)
Inductive node_body :=
| HelloBody (h : hello) | HeartbeatBody (h : wire_heartbeat) | ObservedBody (o : wire_observed) | ResultBody (r : wire_result)
| EventsBody (events : list (option wire_event)) | RenewBody (csr : bytes) | NoBody.

Record issued_certificate := MkIssued { Issued_CertificatePEM : bytes; Issued_CAPEM : bytes; Issued_Serial : string; Issued_NotBefore : Z; Issued_NotAfter : Z }.

Record certificate_bundle := MkBundle { Bundle_CertificateDer : bytes; Bundle_CaCertificateDer : bytes; Bundle_Serial : string; Bundle_NotBefore : Z; Bundle_NotAfter : Z }.

Inductive controller_message :=
| ActionMessage (id name : string) (payload : bytes)
| DesiredMessage (w : wire_snapshot)
| CertificateMessage (c : certificate_bundle).

(** [pem.Decode]: the bytes of the first block. *)
Class PEM := { pem_block : bytes -> option bytes }.
Definition certificateDER `{!PEM} (pemBytes : bytes) : bytes := default [] (pem_block pemBytes).
Definition bundle_of `{!PEM} (c : issued_certificate) : certificate_bundle :=
  MkBundle (certificateDER (Issued_CertificatePEM c)) (certificateDER (Issued_CAPEM c)) (Issued_Serial c) (Issued_NotBefore c) (Issued_NotAfter c).

(** ** The peer *)
Record certificate := MkCertificate { cert_uris : list (string * string * string); cert_common_name : string; cert_serial : string }.

Definition trim_slash (path : string) : string :=
  match rev (bytes_of path) with "/"%char :: rest => of_bytes (rev rest) | _ => path end.

Definition identity_required : error := ENew "mutual TLS identity is required".

(** [peer] is the first certificate of the connection, if it has one. *)
Definition peerCertificate (peer : option certificate) : result certificate :=
  match peer with Some c => Ok c | None => Err identity_required end.

Definition verifyPeerIdentity (peer : option certificate) (nodeID : string) : result unit :=
  certificate ← peerCertificate peer;
  let '(scheme, host, path) := NodeIdentityURI nodeID in
  if existsb (fun '(s, h, p) => String.eqb s scheme && String.eqb h host && String.eqb (trim_slash p) path) (cert_uris certificate) then Ok tt
  else if String.eqb (cert_common_name certificate) nodeID then Ok tt
  else Err (ENew "certificate identity does not match node").

(** ** The store *)
Record ObservedRecord := MkObservedRecord { ORecord_NodeID : string; ORecord_Generation : Z; ORecord_Document : bytes; ORecord_UpdatedAt : Z }.

Record event_record := MkEventRecord {
  ERecord_Actor : string; ERecord_Id : string; ERecord_Type : string; ERecord_Message : string; ERecord_NodeID : string; ERecord_Attributes : gmap string string
}.

Record NodeUpdateState := MkNodeUpdateState {
  Update_SchemaVersion : Z; Update_NodeID : string; Update_ActionID : string; Update_CurrentVersion : string; Update_TargetVersion : string;
  Update_State : string; Update_Supported : bool; Update_Deployment : string; Update_Reason : string; Update_LastError : string; Update_UpdatedAt : Z
}.
Definition no_update_state := MkNodeUpdateState 0 "" "" "" "" "" false "" "" "" 0.

Class ControlStore (R : Type) := {
  SnapshotDocumentForWire : string -> M R bytes;
  SaveObserved : ObservedRecord -> M R unit;
  SaveObservedHeartbeat : ObservedRecord -> M R unit;
  RecordEvent : event_record -> M R unit;
  (* node, generation, whether applied, error code: the assignments that changed *)
  applyNodeResultWithError : string -> Z -> bool -> string -> M R (list Assignment);
  AdvancedOperationsEnabled : M R bool;
  RecordRuntimeEvent : string -> wire_event -> Z -> M R unit;
  RenewNodeCertificate : string -> bytes -> M R issued_certificate;
  GetNodeUpdateState : string -> M R NodeUpdateState;
  SaveNodeUpdateState : NodeUpdateState -> M R unit;
  MarkRuntimeConnectionsUnknown : string -> Z -> M R unit;
  UpdateNode : Node -> WriteOptions -> M R unit;
  (* token, node, CSR *)
  IssueNodeCertificate : string -> string -> bytes -> M R issued_certificate
}.

(** ** The streams of the server

    A stream is a number; [cancelled] are those whose [cancel] another handler called. *)
Record registry := MkRegistry { streams : gmap string Z; cancelled : gset Z; next_stream : Z; reg_bus : ChangeBus }.

Definition in_bus {A} (m : M ChangeBus A) : M registry A := fun g =>
  let '(b, r) := m (reg_bus g) in (MkRegistry (streams g) (cancelled g) (next_stream g) b, r).

(** The section under [streamMu] that publishes a new stream. *)
Definition publish (nodeID : string) : M registry Z := fun g =>
  let entry := next_stream g in
  (MkRegistry (<[nodeID := entry]> (streams g))
     (match streams g !! nodeID with Some previous => {[previous]} ∪ cancelled g | None => cancelled g end) (entry + 1) (reg_bus g), Ok entry).

(** The section that removes it: whether it was the current stream. *)
Definition withdraw (nodeID : string) (entry : Z) : M registry bool := fun g =>
  if bool_decide (streams g !! nodeID = Some entry)
  then (MkRegistry (delete nodeID (streams g)) (cancelled g) (next_stream g) (reg_bus g), Ok true) else (g, Ok false).

Definition cancel_current (nodeID : string) : M registry unit := fun g =>
  (match streams g !! nodeID with
   | Some current => MkRegistry (streams g) ({[current]} ∪ cancelled g) (next_stream g) (reg_bus g)
   | None => g
   end, Ok tt).

(** [Drain]: the streams are collected under the lock and cancelled after it. *)
Definition Drain : M registry unit := fun g =>
  (MkRegistry (streams g) (list_to_set (map_to_list (streams g)).*2 ∪ cancelled g) (next_stream g) (reg_bus g), Ok tt).

(** ** What a stream does that others see *)
Inductive logged :=
| SlotTaken | SlotReleased
| Sent (m : controller_message)
| Waited (delay : Z)
| Applied (generation : Z) (applied : bool) (code : string)
| ObservedSaved (o : ObservedRecord) | HeartbeatSaved (o : ObservedRecord)
| Renewed (csr : bytes) | Cancelled.

(** One call of [Connect].  [ss_leader] answers [RequireLeader]; [ss_sends] the sends: the
    error, and the error of the context then; [ss_waits] the error of the context when a
    retry timer does not fire first; [ss_ctx] is [connectionCtx.Err()]. *)
Record session (R : Type) := MkSession {
  ss_store : R; ss_reg : registry; ss_log : list logged;
  ss_leader : list bool; ss_sends : list (option (error * option error)); ss_waits : list (option error);
  ss_ctx : option error; ss_last : Z; ss_pushing : bool; ss_acting : bool; ss_slots : Z; ss_held : bool
}.
Arguments MkSession {R} _ _ _ _ _ _ _ _ _ _ _ _. Arguments ss_store {R} _. Arguments ss_reg {R} _. Arguments ss_log {R} _.
Arguments ss_leader {R} _. Arguments ss_sends {R} _. Arguments ss_waits {R} _. Arguments ss_ctx {R} _. Arguments ss_last {R} _.
Arguments ss_pushing {R} _. Arguments ss_acting {R} _. Arguments ss_slots {R} _. Arguments ss_held {R} _.

Section Session.
Context {R : Type}.
Definition ST (A : Type) : Type := M (session R) A.

Definition in_store {A} (m : M R A) : ST A := fun s =>
  let '(r, x) := m (ss_store s) in
  (MkSession r (ss_reg s) (ss_log s) (ss_leader s) (ss_sends s) (ss_waits s) (ss_ctx s) (ss_last s) (ss_pushing s) (ss_acting s) (ss_slots s) (ss_held s), x).
Definition in_registry {A} (m : M registry A) : ST A := fun s =>
  let '(g, x) := m (ss_reg s) in
  (MkSession (ss_store s) g (ss_log s) (ss_leader s) (ss_sends s) (ss_waits s) (ss_ctx s) (ss_last s) (ss_pushing s) (ss_acting s) (ss_slots s) (ss_held s), x).
Definition log (l : logged) : ST unit := fun s =>
  (MkSession (ss_store s) (ss_reg s) (ss_log s ++ [l]) (ss_leader s) (ss_sends s) (ss_waits s) (ss_ctx s) (ss_last s) (ss_pushing s) (ss_acting s)
     (ss_slots s) (ss_held s), Ok tt).
Definition gets {A} (f : session R -> A) : ST A := fun s => (s, Ok (f s)).
Definition set_ctx (e : option error) : ST unit := fun s =>
  (MkSession (ss_store s) (ss_reg s) (ss_log s) (ss_leader s) (ss_sends s) (ss_waits s) (match ss_ctx s with Some d => Some d | None => e end)
     (ss_last s) (ss_pushing s) (ss_acting s) (ss_slots s) (ss_held s), Ok tt).
Definition set_last (n : Z) : ST unit := fun s =>
  (MkSession (ss_store s) (ss_reg s) (ss_log s) (ss_leader s) (ss_sends s) (ss_waits s) (ss_ctx s) n (ss_pushing s) (ss_acting s) (ss_slots s) (ss_held s), Ok tt).
Definition set_threads (pushing acting : bool) : ST unit := fun s =>
  (MkSession (ss_store s) (ss_reg s) (ss_log s) (ss_leader s) (ss_sends s) (ss_waits s) (ss_ctx s) (ss_last s) pushing acting (ss_slots s) (ss_held s), Ok tt).
Definition set_slots (n : Z) (held : bool) : ST unit := fun s =>
  (MkSession (ss_store s) (ss_reg s) (ss_log s) (ss_leader s) (ss_sends s) (ss_waits s) (ss_ctx s) (ss_last s) (ss_pushing s) (ss_acting s) n held, Ok tt).

Definition context_canceled : error := EExternal "context.Canceled".
Definition cancel : ST unit := _ ← log Cancelled; set_ctx (Some context_canceled).

(** [leadership] is false when the server has none. *)
Definition require_leader (leadership : bool) : ST unit :=
  if leadership then fun s =>
    match ss_leader s with
    | false :: rest => (MkSession (ss_store s) (ss_reg s) (ss_log s) rest (ss_sends s) (ss_waits s) (ss_ctx s) (ss_last s) (ss_pushing s) (ss_acting s) (ss_slots s) (ss_held s),
                        Err (Unavailable "controller is not the active leader"))
    | _ => (MkSession (ss_store s) (ss_reg s) (ss_log s) (tl (ss_leader s)) (ss_sends s) (ss_waits s) (ss_ctx s) (ss_last s) (ss_pushing s) (ss_acting s) (ss_slots s) (ss_held s), Ok tt)
    end
  else mret tt.

Definition send (m : controller_message) : ST unit := fun s =>
  match ss_sends s with
  | Some (e, ctx) :: rest =>
      (MkSession (ss_store s) (ss_reg s) (ss_log s) (ss_leader s) rest (ss_waits s) (match ss_ctx s with Some d => Some d | None => ctx end)
         (ss_last s) (ss_pushing s) (ss_acting s) (ss_slots s) (ss_held s), Err e)
  | _ => (MkSession (ss_store s) (ss_reg s) (ss_log s ++ [Sent m]) (ss_leader s) (tl (ss_sends s)) (ss_waits s) (ss_ctx s)
           (ss_last s) (ss_pushing s) (ss_acting s) (ss_slots s) (ss_held s), Ok tt)
  end.

(** Whether the timer fired. *)
Definition waitForSnapshotRetry (delay : Z) : ST bool := fun s =>
  let after ctx := MkSession (ss_store s) (ss_reg s) (ss_log s ++ [Waited delay]) (ss_leader s) (ss_sends s) (tl (ss_waits s)) ctx
                     (ss_last s) (ss_pushing s) (ss_acting s) (ss_slots s) (ss_held s) in
  match ss_waits s with
  | Some e :: _ => (after (match ss_ctx s with Some d => Some d | None => Some e end), Ok false)
  | _ => (after (ss_ctx s), Ok true)
  end.
End Session.
Arguments ST : clear implicits.

(** ** Hello *)
Definition hasCapability (items : list string) (wanted : string) : bool := existsb (fun c => String.eqb c wanted) items.

Fixpoint check_capabilities (seen : gset string) (items : list string) : result unit :=
  match items with
  | [] => Ok tt
  | c :: items =>
      _ ← reject_if (String.eqb (strings.TrimSpace c) "" || (slen c >? 64) || strings.ContainsAny c nul_cr_lf)
            (InvalidArgument "hello capability is invalid");
      _ ← reject_if (bool_decide (c ∈ seen)) (InvalidArgument "hello capabilities contain duplicates");
      check_capabilities ({[c]} ∪ seen) items
  end.

(** [hex.DecodeString] of 64 bytes fails on the first that is not a digit. *)
Definition check_hello (h : hello) : result unit :=
  _ ← reject_if (negb (Hello_SchemaVersion h =? CurrentControlProtocolVersion)) (InvalidArgument "unknown control schema version");
  _ ← (match ValidateID (Hello_NodeId h) (TLit "node_id") with
       | Err _ => Err (InvalidArgument "hello identity or capabilities are invalid")
       | Ok _ => reject_if (llen (Hello_Capabilities h) >? 64) (InvalidArgument "hello identity or capabilities are invalid")
       end);
  _ ← reject_if ((Hello_AppliedGeneration h =? 0) && negb (String.eqb (Hello_AppliedChecksum h) ""))
        (InvalidArgument "hello checksum requires an applied generation");
  _ ← reject_if ((Hello_AppliedGeneration h >? 0) && String.eqb (Hello_AppliedChecksum h) "")
        (InvalidArgument "hello applied generation requires a checksum");
  _ ← (if negb (String.eqb (Hello_AppliedChecksum h) "") then
         _ ← reject_if (negb (slen (Hello_AppliedChecksum h) =? 64)) (InvalidArgument "hello checksum is invalid");
         reject_if (negb (forallb is_hex (bytes_of (Hello_AppliedChecksum h)))) (InvalidArgument "hello checksum is invalid")
       else Ok tt);
  check_capabilities ∅ (Hello_Capabilities h).

(** The first message, as the stream returned it. *)
Definition first_hello (first : result (option node_body)) : result hello :=
  match first with
  | Err e => Err e
  | Ok (Some (HelloBody h)) => Ok h
  | Ok _ => Err (InvalidArgument "first node message must be Hello")
  end.

(** ** Apply results *)
Section Stream.
Context `{FO : !Fold}.

Definition validateApplyResult (r : wire_result) (snapshot : SnapshotRecord) : result unit :=
  _ ← reject_if ((WResult_Generation r =? 0) || (WResult_Status r =? 0)) (ENew "apply result generation and status are required");
  _ ← reject_if (negb ((WResult_Status r =? ACCEPTED) || (WResult_Status r =? APPLIED) || (WResult_Status r =? REJECTED)))
        (ENew "apply result status is invalid");
  _ ← (if WResult_Status r =? REJECTED then
         match WResult_Error r with
         | None => Err (ENew "rejected apply result must include an error")
         | Some e =>
             _ ← reject_if (blank (WError_Code e) || blank (WError_Message e)) (ENew "rejected apply result must include an error");
             reject_if ((slen (WError_Code e) >? 128) || (slen (WError_FieldPath e) >? 256) || (slen (WError_Message e) >? 2048))
               (ENew "apply result error is too large")
         end
       else match WResult_Error r with Some _ => Err (ENew "accepted or applied result must not include an error") | None => Ok tt end);
  _ ← reject_if (String.eqb (Record_NodeID snapshot) "") (ENew "apply result has no desired snapshot");
  _ ← reject_if (negb (WResult_Generation r =? Record_Generation snapshot)) (ENew "apply result generation does not match desired snapshot");
  _ ← reject_if ((WResult_Status r =? APPLIED) && String.eqb (WResult_Checksum r) "") (ENew "applied result must include a checksum");
  reject_if (negb (String.eqb (WResult_Checksum r) "") && negb (EqualFold (WResult_Checksum r) (Record_Checksum snapshot)))
    (ENew "apply result checksum does not match desired snapshot").

Context {R : Type} `{PM : !PEM, RP : !Repository R, CS : !ControlStore R, JO : !JSON ObservedState, JM : !JSON (gmap string string), JA : !JSONAny}.

(** ** Snapshots *)
Definition snapshotWireRetryLimit : Z := 5.
Definition snapshotWireRetryStart : Z := 250 * 1000000.
Definition snapshotWireRetryMax : Z := 5 * 1000000000.

Definition wire_message (snapshot : SnapshotRecord) (document : bytes) : controller_message :=
  DesiredMessage (MkWireSnapshot CurrentControlProtocolVersion (Record_NodeID snapshot) (Record_Generation snapshot) (Record_Checksum snapshot) document).

Definition next_retry (delay : Z) : Z := let delay := delay * 2 in if delay >? snapshotWireRetryMax then snapshotWireRetryMax else delay.

(** The loop from an attempt. *)
Fixpoint wire_attempt (fuel : nat) (attempt retryDelay : Z) (snapshot : SnapshotRecord) : ST R unit :=
  match fuel with
  | O => fail (EExternal "fuel")
  | S fuel =>
      r ← try (in_store (SnapshotDocumentForWire (Record_Document snapshot)));
      match r with
      | Ok document => _ ← send (wire_message snapshot document); set_last (Record_Generation snapshot)
      | Err e =>
          if attempt >=? snapshotWireRetryLimit then _ ← cancel; fail e else
          fired ← waitForSnapshotRetry retryDelay;
          if fired : bool then wire_attempt fuel (attempt + 1) (next_retry retryDelay) snapshot else
          ctx ← gets ss_ctx;
          fail (default (ENew "snapshot wire retry was interrupted") ctx)
      end
  end.

Definition sendSnapshotForWire (snapshot : SnapshotRecord) : ST R unit := wire_attempt 5 1 snapshotWireRetryStart snapshot.

(** One notification of [pushSnapshots]; the goroutine ends when a snapshot cannot be sent. *)
Definition pushSnapshots (nodeID : string) : ST R unit :=
  running ← gets ss_pushing;
  if negb running then mret tt else
  r ← try (in_store (EnsureDesiredSnapshot nodeID));
  match r with
  | Err _ => mret tt
  | Ok snapshot =>
      previous ← gets ss_last;
      if Record_Generation snapshot <=? previous then mret tt else
      sent ← try (sendSnapshotForWire snapshot);
      match sent with
      | Ok _ => mret tt
      | Err _ => acting ← gets ss_acting; set_threads false acting
      end
  end.

(** One action of the subscription. *)
Definition forward_action (id name : string) (payload : bytes) : ST R unit :=
  running ← gets ss_acting;
  if negb running then mret tt else
  r ← try (send (ActionMessage id name payload));
  match r with
  | Ok _ => mret tt
  | Err _ => _ ← cancel; pushing ← gets ss_pushing; set_threads pushing false
  end.

(** ** Authentication *)
Definition authentication_failed := PermissionDenied "control stream authentication failed".
Definition storage_unavailable := Unavailable "controller storage is temporarily unavailable".

Definition serial_current (peer : option certificate) (node : Node) : bool :=
  match peerCertificate peer with
  | Ok c => negb (String.eqb (Node_CertificateSerial node) "") && EqualFold (cert_serial c) (Node_CertificateSerial node)
  | Err _ => false
  end.

Definition authenticate (peer : option certificate) (h : hello) : ST R Node :=
  _ ← lift (map_err (fun _ => authentication_failed) (verifyPeerIdentity peer (Hello_NodeId h)));
  r ← try (in_store (GetNode (Hello_NodeId h)));
  match r with
  | Err e => fail (if is_no_rows e then authentication_failed else storage_unavailable)
  | Ok node =>
      _ ← lift (reject_if (String.eqb (Node_CertificateState node) CertificateDecommissioned) (PermissionDenied "node is decommissioned"));
      _ ← lift (reject_if (negb (Node_Enabled node)) (PermissionDenied "node is disabled"));
      _ ← lift (reject_if (negb (String.eqb (Node_CertificateState node) CertificateActive)) (PermissionDenied "node certificate is not active"));
      _ ← lift (reject_if (negb (serial_current peer node)) authentication_failed);
      mret node
  end.

(** The same checks on an open stream, before a heartbeat is stored or a certificate renewed. *)
Definition check_current (peer : option certificate) (nodeID : string) : ST R unit :=
  r ← try (in_store (GetNode nodeID));
  match r with
  | Err e => fail (if is_no_rows e then PermissionDenied "node is not enrolled" else storage_unavailable)
  | Ok node =>
      _ ← lift (reject_if (String.eqb (Node_CertificateState node) CertificateDecommissioned) (PermissionDenied "node is decommissioned"));
      _ ← lift (reject_if (negb (Node_Enabled node)) (PermissionDenied "node is disabled"));
      lift (reject_if (negb (String.eqb (Node_CertificateState node) CertificateActive) || negb (serial_current peer node))
              (PermissionDenied "certificate serial is not current"))
  end.

(** ** What a node sends

    A store call whose error becomes a status. *)
Definition stored {A} (message : string) (m : M R A) : ST R A :=
  r ← try (in_store m);
  match r with Ok a => mret a | Err _ => fail (Internal message) end.

(** [LoadSnapshot], with no row as none. *)
Definition latest_snapshot (nodeID : string) : ST R (option SnapshotRecord) :=
  r ← try (in_store (LoadSnapshot nodeID));
  match r with
  | Ok record => mret (Some record)
  | Err e => if is_no_rows e then mret None else fail (Internal "load desired snapshot failed")
  end.

Definition check_generation (generation : Z) (latest : option SnapshotRecord) (future none : string) : result unit :=
  match latest with
  | Some latest => reject_if (generation >? Record_Generation latest) (InvalidArgument future)
  | None => reject_if (negb (generation =? 0)) (InvalidArgument none)
  end.

Definition heartbeat_time (now : Z) (sent : wire_time) : result Z :=
  match sent with
  | None => Ok now
  | Some None => Err (InvalidArgument "heartbeat timestamp is invalid")
  | Some (Some t) => Ok t
  end.

(** The state of a heartbeat: what the node last reported, with its health. *)
Definition heartbeat_state (nodeID : string) (h : wire_heartbeat) (at_ : Z) (previous : option ObservedState) : ObservedState :=
  let healthy := WHeartbeat_Healthy h in
  match previous with
  | None => MkObservedState CurrentControlProtocolVersion nodeID (WHeartbeat_AppliedGeneration h) healthy (negb healthy) None [] [] default_Metrics None at_
  | Some p => MkObservedState CurrentControlProtocolVersion nodeID (WHeartbeat_AppliedGeneration h) healthy (negb healthy)
                (if healthy then None else Observed_LastError p) (Observed_Sessions p) (Observed_Listeners p) (Observed_Metrics p) (Observed_SystemInfo p) at_
  end.

Definition handle_heartbeat (peer : option certificate) (nodeID : string) (h : wire_heartbeat) : ST R unit :=
  _ ← check_current peer nodeID;
  _ ← (if WHeartbeat_AppliedGeneration h >? 0 then
         latest ← latest_snapshot nodeID;
         lift (check_generation (WHeartbeat_AppliedGeneration h) latest
                 "heartbeat reports a future generation" "heartbeat has no desired generation")
       else mret tt);
  now ← in_store Now;
  at_ ← lift (heartbeat_time now (WHeartbeat_SentAt h));
  now ← in_store Now;
  _ ← lift (reject_if (at_ >? now + 5 * 60 * 1000000000) (InvalidArgument "heartbeat timestamp is too far in the future"));
  r ← try (in_store (GetObserved nodeID));
  previous ← (match r with
              | Ok p => mret (Some p)
              | Err e => if is_no_rows e then mret None else fail (Internal "load observed state failed")
              end);
  let observed := heartbeat_state nodeID h at_ previous in
  document ← lift (map_err (fun _ => Internal "encode heartbeat state failed") (json_marshal observed));
  let record := MkObservedRecord nodeID (Observed_AppliedGeneration observed) document (Observed_ObservedAt observed) in
  _ ← stored "save heartbeat state failed" (SaveObservedHeartbeat record);
  _ ← log (HeartbeatSaved record);
  match previous with
  | Some p =>
      if Observed_AppliedGeneration observed <? Observed_AppliedGeneration p then
        stored "record stale heartbeat event failed"
          (RecordEvent (MkEventRecord "system" "" "stale_generation" "heartbeat reported an older applied generation" nodeID
             (<["reported_generation" := pretty (Observed_AppliedGeneration observed)]>
                {["current_generation" := pretty (Observed_AppliedGeneration p)]})))
      else mret tt
  | None => mret tt
  end.

Definition handle_observed (nodeID : string) (o : wire_observed) : ST R unit :=
  now ← in_store Now;
  observed ← lift (map_err (status_of "InvalidArgument") (ObservedFromProto now (Some o)));
  _ ← lift (reject_if (negb (String.eqb (Observed_NodeID observed) nodeID)) (InvalidArgument "observed state node identity does not match hello"));
  latest ← latest_snapshot nodeID;
  _ ← lift (check_generation (Observed_AppliedGeneration observed) latest
              "observed state reports a future generation" "observed state has no desired generation");
  document ← lift (map_err (fun _ => Internal "encode observed state failed") (json_marshal observed));
  now ← in_store Now;
  let record := MkObservedRecord nodeID (Observed_AppliedGeneration observed) document now in
  _ ← stored "save observed state failed" (SaveObserved record);
  log (ObservedSaved record).

(** Both ends of each assignment that changed. *)
Fixpoint refresh_participants (ids : list string) : ST R unit :=
  match ids with
  | [] => mret tt
  | id :: ids =>
      r ← try (in_store (EnsureDesiredSnapshot id));
      match r with
      | Ok _ => refresh_participants ids
      | Err e => if is_no_rows e then refresh_participants ids else fail (Internal "refresh assignment snapshot failed")
      end
  end.

Definition result_attributes (r : wire_result) : gmap string string :=
  let attributes := <["generation" := pretty (WResult_Generation r)]> {["status" := status_string (WResult_Status r)]} in
  let attributes := if String.eqb (WResult_Checksum r) "" then attributes else <["checksum" := WResult_Checksum r]> attributes in
  match WResult_Error r with
  | Some e => <["error_path" := WError_FieldPath e]> (<["error_code" := WError_Code e]> attributes)
  | None => attributes
  end.

Definition no_record := MkSnapshotRecord "" 0 "" "" 0.

(** [initial] is the snapshot that the stream loaded when it opened. *)
Definition handle_result (nodeID : string) (initial : SnapshotRecord) (r : wire_result) : ST R unit :=
  current ← latest_snapshot nodeID;
  let latest := default initial current in
  if negb (String.eqb (Record_NodeID latest) "") && (WResult_Generation r <? Record_Generation latest) then
    stored "record stale apply result failed"
      (RecordEvent (MkEventRecord "system" "" "stale_apply_result" "ignored apply result for an older desired generation" nodeID
         (<["generation" := pretty (WResult_Generation r)]> {["latest_generation" := pretty (Record_Generation latest)]})))
  else
  _ ← lift (map_err (status_of "InvalidArgument") (validateApplyResult r latest));
  _ ← stored "record apply result failed"
        (RecordEvent (MkEventRecord nodeID "" "apply_result" (status_string (WResult_Status r)) nodeID (result_attributes r)));
  if (WResult_Status r =? APPLIED) || (WResult_Status r =? REJECTED) then
    let errorCode := match WResult_Error r with Some e => WError_Code e | None => "" end in
    changed ← stored "update assignment state failed"
                (applyNodeResultWithError nodeID (WResult_Generation r) (WResult_Status r =? APPLIED) errorCode);
    _ ← log (Applied (WResult_Generation r) (WResult_Status r =? APPLIED) errorCode);
    refresh_participants (flat_map (fun a => [Assignment_GatewayID a; Assignment_AgentID a]) changed)
  else mret tt.

(** *** Events (node_update_events.go for the state of an upgrade) *)
Definition attribute (attributes : gmap string string) (key : string) : string := strings.TrimSpace (default "" (attributes !! key)).
Definition keep_or (value old : string) : string := if String.eqb value "" then old else value.
Definition upgrade_states : list string := ["applying"; "up_to_date"; "failed"; "rolled_back"; "manual_required"].

Definition upgraded (current : NodeUpdateState) (nodeID : string) (attributes : gmap string string) : NodeUpdateState :=
  let state := attribute attributes "state" in
  MkNodeUpdateState (Update_SchemaVersion current) nodeID
    (keep_or (attribute attributes "action_id") (Update_ActionID current))
    (keep_or (attribute attributes "current_version") (Update_CurrentVersion current))
    (keep_or (attribute attributes "version") (Update_TargetVersion current))
    state true
    (keep_or (attribute attributes "deployment") (Update_Deployment current))
    (Update_Reason current)
    (if String.eqb state "up_to_date" then "" else attribute attributes "error")
    (Update_UpdatedAt current).

Definition applyNodeUpgradeEvent (nodeID : string) (attributes : gmap string string) : M R unit :=
  _ ← lift (reject_if (negb (in_strings (attribute attributes "state") upgrade_states)) (ENew "node upgrade event state is invalid"));
  r ← try (GetNodeUpdateState nodeID);
  current ← (match r with
             | Ok current => mret current
             | Err e => if is_no_rows e then mret no_update_state else fail e
             end);
  SaveNodeUpdateState (upgraded current nodeID attributes).

Definition big_event (type : string) : bool := in_strings type ["runtime_snapshot"; "runtime_connection"; "runtime_action_result"].
Definition max_attributes (type : string) : Z := if big_event type then 4 * 2 ^ 20 else 128 * 2 ^ 10.

Definition event_fields_ok (e : wire_event) : bool :=
  negb (blank (WEvent_Type e)) && (slen (WEvent_Type e) <=? 128) && (slen (WEvent_Message e) <=? 4096) && (slen (WEvent_Id e) <=? 128)
  && negb (strings.ContainsAny (WEvent_Id e) nul_cr_lf).

Definition attribute_ok (kv : string * string) : bool :=
  (slen (fst kv) <=? 128) && (slen (snd kv) <=? 2048) && negb (strings.ContainsAny (fst kv) nul_cr_lf) && negb (strings.ContainsAny (snd kv) nul_cr_lf).

Definition event_attributes (e : wire_event) : result (gmap string string) :=
  attributes ← (if llen (WEvent_AttributesJson e) >? 0
                then map_err (fun _ => InvalidArgument "event attributes are invalid") (json_unmarshal (WEvent_AttributesJson e))
                else Ok ∅);
  _ ← reject_if (Z.of_nat (size attributes) >? 62) (InvalidArgument "event attributes are too numerous");
  _ ← reject_if (negb (forallb attribute_ok (map_to_list attributes))) (InvalidArgument "event attributes are invalid");
  Ok attributes.

Definition runtime_event_time (now : Z) (created : wire_time) : result Z :=
  match created with
  | None => Ok now
  | Some None => Err (InvalidArgument "runtime event timestamp is invalid")
  | Some (Some t) => Ok t
  end.

Definition handle_event (nodeID : string) (event : option wire_event) : ST R unit :=
  e ← lift (match event with
            | Some e => if event_fields_ok e then Ok e else Err (InvalidArgument "event fields are invalid")
            | None => Err (InvalidArgument "event fields are invalid")
            end);
  _ ← lift (reject_if (llen (WEvent_AttributesJson e) >? max_attributes (WEvent_Type e)) (InvalidArgument "event attributes are too large"));
  if strings.HasPrefix (WEvent_Type e) "runtime_" then
    _ ← lift (reject_if (llen (WEvent_AttributesJson e) =? 0) (InvalidArgument "runtime event attributes are required"));
    now ← in_store Now;
    createdAt ← lift (runtime_event_time now (WEvent_CreatedAt e));
    stored "record runtime event failed" (RecordRuntimeEvent nodeID e createdAt)
  else
    attributes ← lift (event_attributes e);
    _ ← (if String.eqb (WEvent_Type e) "node_upgrade" then
           r ← try (in_store (applyNodeUpgradeEvent nodeID attributes));
           match r with Ok _ => mret tt | Err err => fail (status_of "InvalidArgument" err) end
         else mret tt);
    stored "record node event failed"
      (RecordEvent (MkEventRecord nodeID (WEvent_Id e) (WEvent_Type e) (WEvent_Message e) nodeID attributes)).

Fixpoint handle_events (nodeID : string) (events : list (option wire_event)) : ST R unit :=
  match events with [] => mret tt | e :: events => _ ← handle_event nodeID e; handle_events nodeID events end.

Definition handle_batch (nodeID : string) (events : list (option wire_event)) : ST R unit :=
  _ ← lift (reject_if (llen events >? 256) (InvalidArgument "event batch is too large"));
  handle_events nodeID events.

Definition renewal_status (err : error) : error :=
  if error_is err "invalid enrollment request" then InvalidArgument "renewal request is invalid"
  else if isCredentialError err then PermissionDenied "node certificate renewal is not authorized"
  else Unavailable "certificate service is temporarily unavailable".

Definition handle_renewal (peer : option certificate) (nodeID : string) (csr : bytes) : ST R unit :=
  _ ← lift (reject_if ((llen csr =? 0) || (llen csr >? 128 * 2 ^ 10)) (InvalidArgument "renewal CSR is missing or too large"));
  _ ← check_current peer nodeID;
  r ← try (in_store (RenewNodeCertificate nodeID csr));
  match r with
  | Err err => fail (renewal_status err)
  | Ok certificate => _ ← log (Renewed csr); _ ← send (CertificateMessage (bundle_of certificate)); cancel
  end.

(** A message; true when the stream is to end. *)
Definition handle (peer : option certificate) (nodeID : string) (initial : SnapshotRecord) (body : node_body) : ST R bool :=
  match body with
  | HeartbeatBody h => _ ← handle_heartbeat peer nodeID h; mret false
  | ObservedBody o => _ ← handle_observed nodeID o; mret false
  | ResultBody r => _ ← handle_result nodeID initial r; mret false
  | EventsBody events => _ ← handle_batch nodeID events; mret false
  | RenewBody csr => _ ← handle_renewal peer nodeID csr; mret true
  | HelloBody _ | NoBody => fail (InvalidArgument "node message body is required")
  end.

(** ** The loop

    What happens on an open stream, in the order in which it happens: [Received] is what
    the main loop takes from the receiver, [Ended] its other case, the other two are the
    goroutines'. *)
Inductive stream_event :=
| Received (r : result (option node_body))
| ReceiverStopped
| Ended (e : error)
| SnapshotsChanged
| Forward (id name : string) (payload : bytes)
| Elsewhere (g : registry).

Section Loop.
Context (leadership : bool) (peer : option certificate) (nodeID : string) (initial : SnapshotRecord).

(** From an event on; [top] when the leadership is to be checked first.  True when the
    stream returned without an error, false when it is still open. *)
Fixpoint serve (top : bool) (events : list stream_event) : ST R bool :=
  _ ← (if top then require_leader leadership else mret tt);
  match events with
  | [] => mret false
  | SnapshotsChanged :: events => _ ← pushSnapshots nodeID; serve false events
  | Forward id name payload :: events => _ ← forward_action id name payload; serve false events
  | Elsewhere g :: events => _ ← in_registry (fun _ => (g, Ok tt)); serve false events
  | Ended e :: _ => _ ← set_ctx (Some e); ctx ← gets ss_ctx; fail (default e ctx)
  | ReceiverStopped :: _ => ctx ← gets ss_ctx; fail (default (ENew "control stream receiver stopped") ctx)
  | Received (Err e) :: _ => fail e
  | Received (Ok None) :: _ => fail (InvalidArgument "node message is empty")
  | Received (Ok (Some body)) :: events =>
      closed ← handle peer nodeID initial body;
      if closed : bool then mret true else serve true events
  end.
End Loop.

(** ** Connect *)
Definition quoted (s : string) : string := String "034" (s +:+ String "034" "").
Definition ready_payload : bytes :=
  bytes_of ("{" +:+ quoted "capabilities" +:+ ":[" +:+ quoted "runtime-telemetry-v1" +:+ "," +:+ quoted "runtime-control-v1" +:+ "]}").

Definition check_future (h : hello) (latest : option SnapshotRecord) : result unit :=
  match latest with
  | Some record => reject_if (Hello_AppliedGeneration h >? Record_Generation record) (FailedPrecondition "node reports an unapplied future generation")
  | None => reject_if (negb (Hello_AppliedGeneration h =? 0)) (FailedPrecondition "node reports a generation without a desired snapshot")
  end.

Definition greet (h : hello) : ST R unit :=
  _ ← send (ActionMessage "" "session_ready" (if hasCapability (Hello_Capabilities h) "runtime-telemetry-v1" then ready_payload else []));
  if hasCapability (Hello_Capabilities h) "runtime-control-v1" then
    enabled ← stored "load runtime operation settings failed" AdvancedOperationsEnabled;
    if enabled : bool then mret tt else send (ActionMessage "" "clear_runtime_controls" [])
  else mret tt.

(** A newer generation, or the same one with another checksum. *)
Definition outdated (h : hello) (record : SnapshotRecord) : bool :=
  (Record_Generation record >? Hello_AppliedGeneration h)
  || ((Record_Generation record =? Hello_AppliedGeneration h) && negb (EqualFold (Record_Checksum record) (Hello_AppliedChecksum h))).

Definition send_initial (h : hello) (latest : option SnapshotRecord) : ST R unit :=
  match latest with
  | Some record =>
      if outdated h record then
        r ← try (sendSnapshotForWire record);
        match r with
        | Ok _ => mret tt
        | Err _ => ctx ← gets ss_ctx; fail (default (Internal "prepare desired snapshot for wire failed") ctx)
        end
      else mret tt
  | None => mret tt
  end.

(** After the stream is published.  The actions that are queued are forwarded as soon as
    their goroutine runs, before or after the initial snapshot: [early] are those before. *)
Definition serve_stream (leadership : bool) (peer : option certificate) (h : hello) (latest : option SnapshotRecord)
    (early : list (string * string * bytes)) (events : list stream_event) : ST R bool :=
  _ ← greet h;
  _ ← set_threads false true;
  _ ← for_each_m (fun '(id, name, payload) _ => forward_action id name payload) early tt;
  _ ← set_last (Hello_AppliedGeneration h);
  _ ← send_initial h latest;
  acting ← gets ss_acting;
  _ ← set_threads true acting;
  serve leadership peer (Hello_NodeId h) (default no_record latest) true events.

(** The deferred function that takes the stream out again. *)
Definition leave (nodeID : string) (entry token : Z) : ST R unit :=
  wasCurrent ← in_registry (withdraw nodeID entry);
  _ ← cancel;
  _ ← in_registry (in_bus (ClearNodeCapabilities nodeID token));
  if wasCurrent : bool then
    now ← in_store Now;
    _ ← try (in_store (MarkRuntimeConnectionsUnknown nodeID now));
    mret tt
  else mret tt.

Definition release_slot : ST R unit :=
  n ← gets ss_slots; _ ← set_slots (n - 1) false; log SlotReleased.

(** From the subscription of an authenticated node on. *)
Definition open_stream (leadership : bool) (peer : option certificate) (h : hello)
    (early : list (string * string * bytes)) (events : list stream_event) : ST R bool :=
  ensured ← try (in_store (EnsureDesiredSnapshot (Hello_NodeId h)));
  _ ← lift (match ensured with
            | Err e => reject_if (negb (is_no_rows e)) (Internal "build desired snapshot failed")
            | Ok _ => Ok tt
            end);
  latest ← latest_snapshot (Hello_NodeId h);
  _ ← lift (check_future h latest);
  entry ← in_registry (publish (Hello_NodeId h));
  token ← in_registry (in_bus (SetNodeCapabilities (Hello_NodeId h) (Hello_Capabilities h)));
  leading ← try (require_leader leadership);
  match leading with
  | Err e => _ ← cancel; fail e
  | Ok _ =>
      r ← try (serve_stream leadership peer h latest early events);
      _ ← leave (Hello_NodeId h) entry token;
      lift r
  end.

Definition connected (leadership : bool) (peer : option certificate) (first : result (option node_body))
    (early : list (string * string * bytes)) (events : list stream_event) : ST R bool :=
  h ← lift (first_hello first);
  _ ← lift (check_hello h);
  _ ← authenticate peer h;
  _ ← release_slot;
  open_stream leadership peer h early events.

Definition max_connect_slots : Z := 256.

(** [allowed] is the answer of the limiter. *)
Definition Connect (leadership : bool) (allowed : bool) (peer : option certificate) (first : result (option node_body))
    (early : list (string * string * bytes)) (events : list stream_event) : ST R bool :=
  _ ← require_leader leadership;
  _ ← lift (reject_if (negb allowed) (ResourceExhausted "control connection rate limit exceeded; retry after %s"));
  n ← gets ss_slots;
  if n >=? max_connect_slots then fail (ResourceExhausted "control connection capacity is temporarily exhausted") else
  _ ← set_slots (n + 1) true;
  _ ← log SlotTaken;
  r ← try (connected leadership peer first early events);
  held ← gets ss_held;
  _ ← (if held : bool then release_slot else mret tt);
  lift r.

(** ** Actions that must not wait for a subscription (grpc_security.go)

    [send_result] is what sending to the current stream gives. *)
Definition deliverNodeAction (send_result : option error) (between : registry) (nodeID action actor : string) : ST R unit :=
  current ← gets (fun s => streams (ss_reg s) !! nodeID);
  _ ← (match current with
       | Some _ =>
           match send_result with
           | None => log (Sent (ActionMessage "" action []))
           | Some _ =>
               _ ← try (in_store (RecordEvent (MkEventRecord actor "" "action_delivery_failed" "node security action could not be delivered" nodeID {["action" := action]})));
               mret tt
           end
       | None =>
           _ ← try (in_store (RecordEvent (MkEventRecord actor "" "action_not_delivered" "node security action will be enforced on the next connection" nodeID {["action" := action]})));
           mret tt
       end);
  _ ← in_registry (fun _ => (between, Ok tt));
  in_registry (cancel_current nodeID).

Definition revoked (node : Node) : Node :=
  MkNode (Node_ID node) (Node_SpecKind node) (Node_Name node) (Node_Labels node) (Node_Enabled node) CertificateRevoked (Node_CertificateSerial node)
    (Node_Revision node) (Node_CreatedAt node) (Node_UpdatedAt node).

Definition RevokeNode (leadership : bool) (send_result : option error) (between : registry) (nodeID : string) : ST R unit :=
  _ ← require_leader leadership;
  _ ← lift (reject_if (blank nodeID) (ENew "node id is required"));
  r ← try (in_store (GetNode nodeID));
  match r with
  | Err e => fail (if is_no_rows e then ErrNodeNotEnrolled else storageFailure "load node for revocation" e)
  | Ok node =>
      _ ← in_store (UpdateNode (revoked node) (MkWriteOptions (Node_Revision node) "" "system"));
      deliverNodeAction send_result between nodeID "reconnect" "system"
  end.

(** ** Enrollment (grpc_enrollment.go): its slots are a channel of their own *)
Definition max_enroll_slots : Z := 16.

Definition enrollment_status (err : error) : error :=
  if error_is err "invalid enrollment request" then InvalidArgument "enrollment request is invalid"
  else if isCredentialError err then PermissionDenied "enrollment credentials are invalid"
  else Unavailable "enrollment service is temporarily unavailable".

Definition Enroll (leadership : bool) (allowed : bool) (slots : Z) (token nodeID : string) (csr : bytes) : ST R (Z * certificate_bundle) :=
  _ ← require_leader leadership;
  _ ← lift (reject_if (String.eqb token "" || String.eqb nodeID "" || (llen csr =? 0) || (llen csr >? 128 * 2 ^ 10))
              (InvalidArgument "token, node_id and csr_der are required"));
  _ ← lift (reject_if (negb allowed) (ResourceExhausted "enrollment rate limit exceeded; retry after %s"));
  _ ← lift (reject_if (slots >=? max_enroll_slots) (ResourceExhausted "enrollment capacity is temporarily exhausted"));
  r ← try (in_store (IssueNodeCertificate token nodeID csr));
  match r with
  | Err err => fail (enrollment_status err)
  | Ok certificate => mret (CurrentControlProtocolVersion, bundle_of certificate)
  end.
End Stream.
