(* ===== verification/ControlStreamFacts.v ===== *)
(** * Facts about the control stream

    Admission: a slot is given back on every path, and nothing is sent, stored or issued
    for a peer that did not authenticate.  The snapshots of a stream go up; a result is
    applied only for the snapshot that is current.  The streams of the server: only the
    newest of a node is left alone. *)
From S2P Require Import Prelude GoStd Domain Checksum Validation Snapshot Report Datagram Json Control ControlWire Effects Placement Reconcile Replacement ChangeBus ControlStream.

(** ** Relations between the states before and after *)
Section Stays.
Context {R : Type} (Rel : session R -> session R -> Prop) `{PO : !PreOrder Rel}.

Definition stays {A} (m : ST R A) : Prop := forall s, Rel s (fst (m s)).

Lemma stays_ret {A} (a : A) : stays (mret a).
Proof. intros s. reflexivity. Qed.
Lemma stays_fail {A} e : stays (A := A) (fail e).
Proof. intros s. reflexivity. Qed.
Lemma stays_lift {A} (r : result A) : stays (lift r).
Proof. intros s. reflexivity. Qed.
Lemma stays_gets {A} (f : session R -> A) : stays (gets f).
Proof. intros s. reflexivity. Qed.
Lemma stays_bind {A B} (m : ST R A) (f : A -> ST R B) : stays m -> (forall a, stays (f a)) -> stays (m ≫= f).
Proof.
  intros Hm Hf s. specialize (Hm s). cbv [mbind M_bind]. destruct (m s) as [s1 [a|e]]; [|done].
  etransitivity; [exact Hm | apply Hf].
Qed.
Lemma stays_try {A} (m : ST R A) : stays m -> stays (try m).
Proof. intros Hm s. specialize (Hm s). unfold try. by destruct (m s). Qed.
Lemma stays_run {A} (m : ST R A) s s' r : stays m -> m s = (s', r) -> Rel s s'.
Proof. intros Hm E. specialize (Hm s). by rewrite E in Hm. Qed.
Lemma stays_for_each {A B} (body : A -> B -> ST R B) xs b : (forall x b, stays (body x b)) -> stays (for_each_m body xs b).
Proof.
  intros Hb. revert b. induction xs as [|x xs IH]; intros b; cbn [for_each_m]; [apply stays_ret|].
  apply stays_bind; [apply Hb | apply IH].
Qed.
End Stays.

Create HintDb stays.

(** Walks through an operation: what is left are its own calls. *)
Ltac stays_walk :=
  repeat first
    [ eassumption
    | solve [auto with stays nocore]
    | apply stays_bind; [assumption || typeclasses eauto | | intros ?]
    | apply stays_try
    | match goal with
      | |- stays _ (match ?x with _ => _ end) => destruct x
      | |- stays _ (let _ := _ in _) => cbv zeta
      end ].

(** What a call can do to the parts of the session that a connection counts on. *)
Definition slots_kept {R} (s s' : session R) : Prop := ss_slots s' = ss_slots s /\ ss_held s' = ss_held s.
#[export] Instance slots_kept_preorder {R} : PreOrder (@slots_kept R).
Proof. split; [intros s; done | intros s1 s2 s3 [H1 H2] [H3 H4]; split; congruence]. Qed.

Definition logs {R} (P : logged -> Prop) (s s' : session R) : Prop := exists l, ss_log s' = ss_log s ++ l /\ Forall P l.
#[export] Instance logs_preorder {R} P : PreOrder (@logs R P).
Proof.
  split; [intros s; exists []; split; [by rewrite app_nil_r | done] |].
  intros s1 s2 s3 (l1 & E1 & H1) (l2 & E2 & H2). exists (l1 ++ l2). rewrite E2, E1, app_assoc. split; [done | by apply Forall_app].
Qed.

(** A relation that the calls of a session respect, with the entries of the log that it allows. *)
Class Frame {R} (Rel : session R -> session R -> Prop) (P : logged -> Prop) := {
  frame_preorder :: PreOrder Rel;
  frame_store : forall A (m : M R A), stays Rel (in_store m);
  frame_registry : forall A (m : M registry A), stays Rel (in_registry m);
  frame_ctx : forall e, stays Rel (set_ctx e);
  frame_threads : forall p a, stays Rel (set_threads p a);
  frame_leader : forall l, stays Rel (require_leader l);
  frame_wait : forall d, P (Waited d) -> stays Rel (waitForSnapshotRetry d);
  frame_log : forall l, P l -> stays Rel (log l);
  frame_send : forall m, P (Sent m) -> stays Rel (send m)
}.

Definition is_snapshot (l : logged) : bool := match l with Sent (DesiredMessage _) => true | _ => false end.
Definition is_slot (l : logged) : bool := match l with SlotTaken | SlotReleased => true | _ => false end.

(** What a message of the node, an action or the end of the stream adds to the log. *)
Definition ordinary (l : logged) : Prop := is_snapshot l = false /\ is_slot l = false.

Section Frames.
Context {R : Type} `{PM : !PEM, FO : !Fold, RP : !Repository R, CS : !ControlStore R, JO : !JSON ObservedState, JM : !JSON (gmap string string), JA : !JSONAny}.
Context (Rel : session R -> session R -> Prop) (P : logged -> Prop) `{FR : !Frame Rel P} (HP : forall l, ordinary l -> P l).

Local Instance rel_preorder : PreOrder Rel := frame_preorder.
Lemma rel_ret {A} (a : A) : stays Rel (mret a). Proof. apply stays_ret, _. Qed.
Lemma rel_fail {A} e : stays Rel (@fail (session R) A e). Proof. apply stays_fail, _. Qed.
Lemma rel_lift {A} (r : result A) : stays Rel (lift r). Proof. apply stays_lift, _. Qed.
Lemma rel_gets {A} (f : session R -> A) : stays Rel (gets f). Proof. apply stays_gets, _. Qed.
Lemma rel_log l : ordinary l -> stays Rel (log l). Proof. intros H. apply frame_log, HP, H. Qed.
Lemma rel_send m : ordinary (Sent m) -> stays Rel (send m). Proof. intros H. apply frame_send, HP, H. Qed.
Lemma rel_store {A} (m : M R A) : stays Rel (in_store m). Proof. apply frame_store. Qed.
Lemma rel_registry {A} (m : M registry A) : stays Rel (in_registry m). Proof. apply frame_registry. Qed.
Lemma rel_ctx e : stays Rel (set_ctx e). Proof. apply frame_ctx. Qed.
Lemma rel_threads p a : stays Rel (set_threads p a). Proof. apply frame_threads. Qed.
Lemma rel_leader l : stays Rel (require_leader l). Proof. apply frame_leader. Qed.
Hint Resolve rel_ret rel_fail rel_lift rel_gets rel_log rel_send rel_store rel_registry rel_ctx rel_threads rel_leader : stays.
Hint Extern 1 (ordinary _) => split; reflexivity : stays.

Lemma stays_cancel : stays Rel cancel.
Proof. unfold cancel. stays_walk. Qed.
Hint Resolve stays_cancel : stays.

Lemma stays_stored {A} e (m : M R A) : stays Rel (stored e m).
Proof. unfold stored. stays_walk. Qed.
Hint Resolve stays_stored : stays.

Lemma stays_latest id : stays Rel (latest_snapshot id).
Proof. unfold latest_snapshot. stays_walk. Qed.
Hint Resolve stays_latest : stays.

Lemma stays_check_current peer id : stays Rel (check_current peer id).
Proof. unfold check_current. stays_walk. Qed.
Hint Resolve stays_check_current : stays.

Lemma stays_heartbeat peer id h : stays Rel (handle_heartbeat peer id h).
Proof. unfold handle_heartbeat. stays_walk. Qed.

Lemma stays_observed id o : stays Rel (handle_observed id o).
Proof. unfold handle_observed. stays_walk. Qed.

Lemma stays_refresh ids : stays Rel (refresh_participants ids).
Proof. induction ids as [|id ids IH]; cbn [refresh_participants]; stays_walk. Qed.
Hint Resolve stays_refresh : stays.

Lemma stays_result id initial r : stays Rel (handle_result id initial r).
Proof. unfold handle_result. stays_walk. Qed.

Lemma stays_event id e : stays Rel (handle_event id e).
Proof. unfold handle_event. stays_walk. Qed.

Lemma stays_batch id events : stays Rel (handle_batch id events).
Proof.
  unfold handle_batch. apply stays_bind; [typeclasses eauto | apply rel_lift | intros _].
  induction events as [|e events IH]; cbn [handle_events]; [apply rel_ret|].
  apply stays_bind; [typeclasses eauto | apply stays_event | done].
Qed.

Lemma stays_renewal peer id csr : stays Rel (handle_renewal peer id csr).
Proof. unfold handle_renewal. stays_walk. Qed.

Lemma stays_handle peer id initial body : stays Rel (handle peer id initial body).
Proof.
  destruct body; cbn [handle]; try apply rel_fail;
    (apply stays_bind; [typeclasses eauto | | intros ?; apply rel_ret]);
    first [apply stays_heartbeat | apply stays_observed | apply stays_result | apply stays_batch | apply stays_renewal].
Qed.

Lemma stays_forward id name payload : stays Rel (forward_action id name payload).
Proof. unfold forward_action. stays_walk. Qed.

Lemma stays_greet h : stays Rel (greet h).
Proof. unfold greet. stays_walk. Qed.

Lemma stays_leave id entry token : stays Rel (leave id entry token).
Proof. unfold leave. stays_walk. Qed.

Lemma stays_authenticate peer h : stays Rel (authenticate peer h).
Proof. unfold authenticate. stays_walk. Qed.

Lemma stays_serve leadership peer id initial events : (forall id, stays Rel (pushSnapshots id)) ->
  forall top, stays Rel (serve leadership peer id initial top events).
Proof.
  intros Hpush. induction events as [|e events IH]; intros top; cbn [serve];
    (apply stays_bind; [typeclasses eauto | destruct top; auto with stays | intros _]).
  { apply rel_ret. }
  destruct e as [[[body|]|e]| |e| | |]; stays_walk; first [apply IH | apply stays_handle | apply stays_forward].
Qed.

Lemma stays_early early : stays Rel (for_each_m (fun '(id, name, payload) _ => forward_action id name payload) early tt).
Proof. apply stays_for_each; [typeclasses eauto|]. intros [[id name] payload] ?. apply stays_forward. Qed.

(** The parts that send snapshots respect a relation if sending one does. *)
Context (send_stays : forall record, stays Rel (sendSnapshotForWire record)).

Lemma stays_push id : stays Rel (pushSnapshots id).
Proof. unfold pushSnapshots. stays_walk. Qed.

Lemma stays_initial h latest : stays Rel (send_initial h latest).
Proof. unfold send_initial. stays_walk. Qed.

Context (last_stays : forall n, stays Rel (set_last n)).

Lemma stays_serve_stream leadership peer h latest early events : stays Rel (serve_stream leadership peer h latest early events).
Proof.
  unfold serve_stream. pose proof (stays_greet h). pose proof (stays_initial h latest). pose proof (stays_early early).
  pose proof (stays_serve leadership peer (Hello_NodeId h) (default no_record latest) events stays_push true).
  stays_walk.
Qed.

Lemma stays_open_stream leadership peer h early events : stays Rel (open_stream leadership peer h early events).
Proof.
  unfold open_stream. pose proof (stays_latest (Hello_NodeId h)). pose proof (stays_serve_stream leadership peer h).
  pose proof (stays_leave (Hello_NodeId h)). stays_walk.
Qed.
End Frames.

Section SendFrame.
Context {R : Type} `{FO : !Fold, RP : !Repository R, CS : !ControlStore R}.
Context (Rel : session R -> session R -> Prop) (P : logged -> Prop) `{FR : !Frame Rel P}.

Lemma stays_wire_attempt record :
  (forall d, P (Waited d)) -> P Cancelled -> (forall w, P (Sent (DesiredMessage w))) -> (forall n, stays Rel (set_last n)) ->
  forall fuel attempt delay, stays Rel (wire_attempt fuel attempt delay record).
Proof.
  intros Hw Hc Hs Hl. pose proof (frame_preorder (Rel := Rel) (P := P)) as HR.
  induction fuel as [|fuel IH]; intros attempt delay; cbn [wire_attempt]; [apply stays_fail, _|].
  apply stays_bind; [done | apply stays_try, frame_store |]. intros [document|e].
  { apply stays_bind; [done | apply frame_send, Hs | intros _; apply Hl]. }
  destruct (attempt >=? snapshotWireRetryLimit).
  { unfold cancel. repeat (apply stays_bind; [done | | intros _]); [apply frame_log, Hc | apply frame_ctx | apply stays_fail, _]. }
  apply stays_bind; [done | apply frame_wait, Hw | intros [|]; [apply IH|]].
  apply stays_bind; [done | apply stays_gets, _ | intros ?; apply stays_fail, _].
Qed.

Lemma stays_send_snapshot record :
  (forall d, P (Waited d)) -> P Cancelled -> (forall w, P (Sent (DesiredMessage w))) -> (forall n, stays Rel (set_last n)) ->
  stays Rel (sendSnapshotForWire record).
Proof. intros. by apply stays_wire_attempt. Qed.
End SendFrame.

(** The relations of this file are about one part of the state each: the other calls are
    evaluated. *)
Ltac frame_eval :=
  match goal with
  | |- stays _ (in_store ?m) => intros s; unfold in_store; destruct (m (ss_store s)); cbn
  | |- stays _ (in_registry ?m) => intros s; unfold in_registry; destruct (m (ss_reg s)); cbn
  | |- stays _ (require_leader ?l) => intros s; unfold require_leader; destruct l; [destruct (ss_leader s) as [|[] ?]|]; cbn
  | |- stays _ (waitForSnapshotRetry _) => intros s; unfold waitForSnapshotRetry; destruct (ss_waits s) as [|[?|] ?]; cbn
  | |- stays _ (send _) => intros s; unfold send; destruct (ss_sends s) as [|[[? ?]|] ?]; cbn
  | |- stays _ _ => intros s; cbn
  end.

#[export] Instance slots_frame {R} : Frame (@slots_kept R) (fun _ => True).
Proof. split; [apply _ | intros; frame_eval; done ..]. Qed.

#[export] Instance logs_frame {R} P : Frame (@logs R P) P.
Proof.
  split; [apply _ | intros; frame_eval; first [by (exists []; rewrite app_nil_r) | (eexists; split; [done | by repeat constructor])] ..].
Qed.

(** ** The slot of a connection *)
Section Slots.
Context {R : Type} `{PM : !PEM, FO : !Fold, RP : !Repository R, CS : !ControlStore R, JO : !JSON ObservedState, JM : !JSON (gmap string string), JA : !JSONAny}.

(** A slot that is held is still counted. *)
Definition slot_open (n : Z) (s : session R) : Prop := if ss_held s then ss_slots s = n + 1 else ss_slots s = n.

Lemma kept_open n s s' : slots_kept s s' -> slot_open n s -> slot_open n s'.
Proof. intros [H1 H2]. unfold slot_open. by rewrite H1, H2. Qed.

Lemma release_open n s s' r : release_slot s = (s', r) -> slot_open n s -> ss_held s = true -> slot_open n s' /\ ss_held s' = false.
Proof.
  unfold release_slot. intros [= <- <-] H Hh. unfold slot_open in *. rewrite Hh in H. cbn. split; [lia | done].
Qed.

Lemma open_stream_slots leadership peer h early events : stays slots_kept (open_stream (R := R) leadership peer h early events).
Proof.
  apply (stays_open_stream _ (fun _ => True)); [done | | done].
  intros record. by apply (stays_send_snapshot _ (fun _ => True)).
Qed.

Lemma authenticate_slots peer h : stays slots_kept (authenticate (R := R) peer h).
Proof. by apply (stays_authenticate _ (fun _ => True)). Qed.

Lemma connected_slots n leadership peer first early events s s' r :
  connected (R := R) leadership peer first early events s = (s', r) -> ss_held s = true -> slot_open n s -> slot_open n s'.
Proof.
  intros H Hh Ho. unfold connected in H.
  apply M_bind_run in H as [(h & s1 & [= <- E1] & H)|(e & [= <- E1] & ->)]; [|done].
  apply M_bind_run in H as [(u & s2 & [= <- E2] & H)|(e & [= <- E2] & ->)]; [|done].
  apply M_bind_run in H as [(node & s3 & E3 & H)|(e & E3 & ->)];
    pose proof (stays_run _ _ _ _ _ (authenticate_slots peer h) E3) as K; pose proof (kept_open n _ _ K Ho) as Ho3; [|done].
  apply M_bind_run in H as [(v & s4 & E4 & H)|(e & [=] & _)].
  apply (release_open n) in E4 as [Ho4 Hh4]; [|done | by destruct K as [_ ->]].
  eapply kept_open; [eapply stays_run; [apply open_stream_slots | exact H] | done].
Qed.


(** A connection gives back the slot that it took, whatever happens to it: refused,
    failed, or served to its end, it leaves the number of slots in use as it was, and
    holds none. *)
Theorem slot_returned (leadership allowed : bool) peer first early events (s s' : session R) r :
  Connect leadership allowed peer first early events s = (s', r) -> ss_held s = false ->
  ss_slots s' = ss_slots s /\ ss_held s' = false.
Proof.
  intros H Hh. unfold Connect in H.
  assert (K0 : stays slots_kept (require_leader (R := R) leadership)) by apply (frame_leader (P := fun _ => True)).
  apply M_bind_run in H as [(u & s1 & E1 & H)|(e & E1 & ->)]; pose proof (stays_run _ _ _ _ _ K0 E1) as [K1 K2]; [|by rewrite K1, K2].
  rewrite <-K1. rewrite <-K2 in Hh. clear K0 K1 K2 E1.
  apply M_bind_run in H as [(v & s2 & [= <- E2] & H)|(e & [= <- E2] & ->)]; [|done].
  apply M_bind_run in H as [(n & s3 & [= <- <-] & H)|(e & [=] & _)].
  destruct (ss_slots s1 >=? max_connect_slots); [by injection H as <- <-|].
  apply M_bind_run in H as [(w & s4 & [= <- <-] & H)|(e & [=] & _)]. apply M_bind_run in H as [(w' & s5 & [= <- <-] & H)|(e & [=] & _)].
  apply M_bind_run in H as [(r1 & s6 & E6 & H)|(e & E6 & ->)]; [|apply try_run in E6 as (? & [=] & _)].
  apply try_run in E6 as (r2 & [= ->] & E6).
  apply (connected_slots (ss_slots s1)) in E6; [|done | done].
  apply M_bind_run in H as [(held & s7 & [= <- <-] & H)|(e & [=] & _)].
  unfold slot_open in E6. destruct (ss_held s6) eqn:E.
  - apply M_bind_run in H as [(w'' & s8 & [= <- <-] & [= <- <-])|(e & [=] & _)]. cbn. split; [lia | done].
  - injection H as <- <-. done.
Qed.
End Slots.

(** ** Only an authenticated node is served *)
Section Admission.
Context {R : Type} `{PM : !PEM, FO : !Fold, RP : !Repository R, CS : !ControlStore R, JO : !JSON ObservedState, JM : !JSON (gmap string string), JA : !JSONAny}.

Lemma no_logs (s s' : session R) : logs (fun _ => False) s s' -> ss_log s' = ss_log s.
Proof. intros ([|l ls] & E & H); [by rewrite app_nil_r in E | by apply Forall_cons in H as [? _]]. Qed.

(** What the store says of the node, and the certificate that it accepts. *)
Definition authorized (peer : option certificate) (node : Node) : Prop :=
  Node_Enabled node = true /\ Node_CertificateState node = CertificateActive /\ Node_CertificateSerial node <> "" /\
  exists c, peer = Some c /\ EqualFold (cert_serial c) (Node_CertificateSerial node) = true.

Lemma serial_current_sound peer node : serial_current peer node = true ->
  Node_CertificateSerial node <> "" /\ exists c, peer = Some c /\ EqualFold (cert_serial c) (Node_CertificateSerial node) = true.
Proof.
  unfold serial_current. destruct peer as [c|]; cbn; [|done]. rewrite andb_true_iff, negb_true_iff, String.eqb_neq. intros [? ?]. eauto.
Qed.

Lemma authenticate_exact peer h (s s' : session R) r : authenticate peer h s = (s', r) ->
  ss_log s' = ss_log s /\ forall node, r = Ok node ->
    verifyPeerIdentity peer (Hello_NodeId h) = Ok tt /\ authorized peer node /\ exists x, GetNode (Hello_NodeId h) (ss_store s) = (x, Ok node).
Proof.
  intros H. assert (K : stays (logs (fun _ => False)) (authenticate (R := R) peer h)) by apply (stays_authenticate _ (fun _ => False)).
  split; [exact (no_logs _ _ (stays_run _ _ _ _ _ K H)) |]. clear K. intros node ->. unfold authenticate in H.
  apply M_bind_run in H as [([] & s1 & [= <- E1] & H)|(? & _ & [=])]. apply map_err_Ok in E1.
  apply M_bind_run in H as [(r2 & s2 & E2 & H)|(? & _ & [=])]. apply try_run in E2 as (r3 & [= ->] & E2).
  destruct r3 as [n|e]; [|done]. unfold in_store in E2. destruct (GetNode (Hello_NodeId h) (ss_store s)) as [x y] eqn:EG. injection E2 as <- ->.
  do 4 (let E := fresh "E" in apply M_bind_run in H as [([] & ? & [= <- E%reject_if_Ok] & H)|(? & _ & [=])]). injection H as _ <-.
  split; [done|]. split; [|by exists x]. unfold authorized. rewrite negb_false_iff in *.
  split; [done|]. split; [by apply String.eqb_eq | by apply serial_current_sound].
Qed.

Definition entitled (peer : option certificate) (first : result (option node_body)) (x : R) : Prop :=
  exists h, first = Ok (Some (HelloBody h)) /\ check_hello h = Ok tt /\ verifyPeerIdentity peer (Hello_NodeId h) = Ok tt
    /\ exists node x', GetNode (Hello_NodeId h) x = (x', Ok node) /\ authorized peer node.

Lemma first_hello_Ok first h : first_hello first = Ok h -> first = Ok (Some (HelloBody h)).
Proof. destruct first as [[[]|]|]; cbn; by intros [= ->]. Qed.

Lemma connected_entitled leadership peer first early events (s s' : session R) r :
  connected leadership peer first early events s = (s', r) -> logs (fun l => is_slot l = true) s s' \/ entitled peer first (ss_store s).
Proof.
  intros H. unfold connected in H.
  apply M_bind_run in H as [(h & s1 & [= <- E1%first_hello_Ok] & H)|(e & [= <- E1] & ->)]; [|by left; apply logs_preorder].
  apply M_bind_run in H as [([] & s2 & [= <- E2] & H)|(e & [= <- E2] & ->)]; [|by left; apply logs_preorder].
  apply M_bind_run in H as [(node & s3 & E3 & H)|(e & E3 & ->)]; apply authenticate_exact in E3 as [El Ea].
  - right. exists h. destruct (Ea node eq_refl) as (? & ? & x & ?). repeat split; try done. by exists node, x.
  - left. exists []. by rewrite app_nil_r.
Qed.

Lemma require_leader_exact leadership (s s' : session R) r : require_leader leadership s = (s', r) -> ss_log s' = ss_log s /\ ss_store s' = ss_store s.
Proof. unfold require_leader. destruct leadership; [destruct (ss_leader s) as [|[] ?]|]; by intros [= <- <-]. Qed.

Lemma release_log (s s' : session R) r : release_slot s = (s', r) -> ss_log s' = ss_log s ++ [SlotReleased].
Proof. by intros [= <- <-]. Qed.

(** A connection that takes no slot does nothing; one that does may be entitled. *)
Lemma Connect_entitled leadership allowed peer first early events (s s' : session R) r :
  Connect leadership allowed peer first early events s = (s', r) ->
  logs (fun l => is_slot l = true) s s' \/ allowed = true /\ entitled peer first (ss_store s).
Proof.
  intros H. unfold Connect in H.
  apply M_bind_run in H as [(u & s1 & E1 & H)|(e & E1 & ->)]; apply require_leader_exact in E1 as [El Es];
    [|left; exists []; by rewrite app_nil_r].
  unfold logs. rewrite <-El, <-Es. clear El Es s.
  apply M_bind_run in H as [(v & s2 & [= <- E2] & H)|(e & [= <- E2] & ->)]; [|left; exists []; by rewrite app_nil_r].
  apply reject_if_Ok, negb_false_iff in E2 as ->.
  apply M_bind_run in H as [(n & s3 & [= <- <-] & H)|(e & [=] & _)].
  destruct (ss_slots s1 >=? max_connect_slots); [injection H as <- <-; left; exists []; by rewrite app_nil_r|].
  apply M_bind_run in H as [(w & s4 & [= <- <-] & H)|(e & [=] & _)]. apply M_bind_run in H as [(w' & s5 & [= <- <-] & H)|(e & [=] & _)].
  apply M_bind_run in H as [(r1 & s6 & E6 & H)|(e & E6 & ->)]; [|apply try_run in E6 as (? & [=] & _)].
  apply try_run in E6 as (r2 & [= ->] & E6). apply connected_entitled in E6 as [(ls & E6 & Hs)|He]; [|by right].
  left. apply M_bind_run in H as [(held & s7 & [= <- <-] & H)|(e & [=] & _)]. cbn in E6. rewrite <-app_assoc in E6. destruct (ss_held s6).
  - apply M_bind_run in H as [(w'' & s8 & E8%release_log & [= <- <-])|(e & [=] & _)].
    eexists. rewrite E8, E6, <-app_assoc. split; [done|]. apply Forall_app. split; [by constructor | by repeat constructor].
  - injection H as <- <-. eexists. rewrite E6. split; [done|]. by constructor.
Qed.

(** C24: whatever a connection does that others see (a message sent, a state stored, a
    result applied, a certificate issued), the limiter let it through, its first message is
    a valid Hello, its certificate is that of the node it names, and the store has that
    node enabled with an active certificate of this serial. *)
Theorem served_only_authenticated (leadership allowed : bool) peer first early events (s s' : session R) r l :
  Connect leadership allowed peer first early events s = (s', r) ->
  l ∈ drop (List.length (ss_log s)) (ss_log s') -> is_slot l = false ->
  allowed = true /\ exists h, first = Ok (Some (HelloBody h)) /\ check_hello h = Ok tt
    /\ verifyPeerIdentity peer (Hello_NodeId h) = Ok tt
    /\ exists node x, GetNode (Hello_NodeId h) (ss_store s) = (x, Ok node) /\ authorized peer node.
Proof.
  intros H Hl Hn. apply Connect_entitled in H as [(ls & E & Hs)|[-> (h & ? & ? & ? & ?)]]; [|by eauto 10].
  rewrite E, drop_app_length, list_elem_of_In in Hl. rewrite Forall_forall in Hs. rewrite (Hs l) in Hn; [done | by apply list_elem_of_In].
Qed.
End Admission.

(** ** Sending a snapshot *)
Definition sent_generations (l : list logged) : list Z :=
  omap (fun x => match x with Sent (DesiredMessage w) => Some (WSnapshot_Generation w) | _ => None end) l.
Definition waits (l : list logged) : list Z := omap (fun x => match x with Waited d => Some d | _ => None end) l.

Section Snapshots.
Context {R : Type} `{PM : !PEM, FO : !Fold, RP : !Repository R, CS : !ControlStore R, JO : !JSON ObservedState, JM : !JSON (gmap string string), JA : !JSONAny}.

(** The waits from one on. *)
Fixpoint delays (n : nat) (delay : Z) : list Z := match n with O => [] | S n => delay :: delays n (next_retry delay) end.

(** How a run of the loop ends: sent, or not, and then the stream is over, unless a send failed. *)
Definition wire_end (record : SnapshotRecord) (s s' : session R) (r : result unit) (l : list logged) : Prop :=
  match r with
  | Ok _ => sent_generations l = [Record_Generation record] /\ ss_last s' = Record_Generation record
  | Err _ => sent_generations l = [] /\ ss_last s' = ss_last s /\ (ss_sends s = [] -> ss_ctx s' <> None)
  end.

Lemma send_exact m (s s' : session R) r : send m s = (s', r) ->
  ss_last s' = ss_last s /\ match r with Ok _ => ss_log s' = ss_log s ++ [Sent m] | Err _ => ss_log s' = ss_log s /\ ss_sends s <> [] end.
Proof. unfold send. destruct (ss_sends s) as [|[[e c]|] rest]; by intros [= <- <-]. Qed.

Lemma in_store_exact {A} (m : M R A) (s s' : session R) r : in_store m s = (s', r) -> ss_log s' = ss_log s /\ ss_last s' = ss_last s /\ ss_sends s' = ss_sends s.
Proof. unfold in_store. destruct (m (ss_store s)). by intros [= <- <-]. Qed.

Lemma retry_wait_exact d (s s' : session R) r : waitForSnapshotRetry d s = (s', r) ->
  ss_log s' = ss_log s ++ [Waited d] /\ ss_last s' = ss_last s /\ ss_sends s' = ss_sends s
  /\ (r = Ok true \/ r = Ok false /\ ss_ctx s' <> None).
Proof.
  unfold waitForSnapshotRetry. destruct (ss_waits s) as [|[e|] rest]; intros [= <- <-]; repeat (split; [done|]); [by left | right | by left].
  cbn. by destruct (ss_ctx s).
Qed.

Lemma wire_attempt_exact record fuel : forall attempt delay (s s' : session R) r,
  wire_attempt fuel attempt delay record s = (s', r) -> attempt <= snapshotWireRetryLimit < Z.of_nat fuel + attempt ->
  exists l, ss_log s' = ss_log s ++ l /\ wire_end record s s' r l /\
    exists n, Z.of_nat n <= snapshotWireRetryLimit - attempt /\ waits l = delays n delay.
Proof.
  induction fuel as [|fuel IH]; intros attempt delay s s' r H Hf; cbn [wire_attempt] in H; [lia|].
  apply M_bind_run in H as [(r1 & s1 & E1 & H)|(e & E1 & ->)]; apply try_run in E1 as (r2 & E & E1); [injection E as ->|done].
  apply in_store_exact in E1 as (El & Es & Eo). rewrite <-El. unfold wire_end. rewrite <-Es, <-Eo. clear El Es Eo s. destruct r2 as [document|e].
  { apply M_bind_run in H as [([] & s2 & E2%send_exact & H)|(e & E2%send_exact & ->)]; destruct E2 as [El E2].
    - injection H as <- <-. exists [Sent (wire_message record document)]. rewrite <-E2. split; [done|]. split; [done|]. exists O. split; [lia | done].
    - exists []. rewrite app_nil_r. split; [apply E2|]. split; [split; [done|]; split; [done|]; by intros ?%E2|]. exists O. split; [lia | done]. }
  destruct (attempt >=? snapshotWireRetryLimit) eqn:Ea.
  { injection H as <- <-. exists [Cancelled]. split; [done|]. split; [split; [done|]; split; [done|]; cbn; by destruct (ss_ctx s1)|].
    exists O. split; [lia | done]. }
  apply M_bind_run in H as [(fired & s2 & (El & Es & Eo & Hw)%retry_wait_exact & H)|(e2 & (_ & _ & _ & [[=]|[[=] _]])%retry_wait_exact & _)].
  destruct Hw as [[= ->]|[[= ->] Hc]].
  - apply IH in H as (l & E & He & n & Hn & Hw); [|lia]. exists (Waited delay :: l). rewrite E, El, <-app_assoc. split; [done|].
    split; [unfold wire_end in He; by rewrite Es, Eo in He|]. exists (S n). split; [lia|]. cbn. by f_equal.
  - injection H as <- <-. exists [Waited delay]. split; [done|]. split; [by repeat split|]. exists 1%nat. split; [lia | done].
Qed.

(** C39: sending a snapshot ends: it is sent once, or after at most four waits of 250 ms,
    500 ms, 1 s and 2 s it fails, nothing of it was sent, and the stream is over (unless a
    send failed, which is the end of the transport).  The generation that the stream
    remembers changes exactly when it was sent. *)
Theorem snapshot_retry_bounded record (s s' : session R) r : sendSnapshotForWire record s = (s', r) ->
  exists l, ss_log s' = ss_log s ++ l /\ wire_end record s s' r l /\
    exists n, (n <= 4)%nat /\ waits l = take n [250 * 1000000; 500 * 1000000; 1000 * 1000000; 2000 * 1000000].
Proof.
  intros H. apply wire_attempt_exact in H as (l & E & He & n & Hn & Hw); [|unfold snapshotWireRetryLimit; lia].
  exists l. split; [done|]. split; [done|]. exists n. unfold snapshotWireRetryLimit in Hn. split; [lia|]. rewrite Hw.
  do 5 (destruct n as [|n]; [reflexivity|]). lia.
Qed.
End Snapshots.

(** ** The snapshots of a stream *)
Section Rising.
Context {R : Type} `{PM : !PEM, FO : !Fold, RP : !Repository R, CS : !ControlStore R, JO : !JSON ObservedState, JM : !JSON (gmap string string), JA : !JSONAny}.
Context (applied : Z).
Implicit Types s : session R.

(** Since the log was [base]: strictly increasing, from what the node had to the last one. *)
Definition rising (base : list logged) s : Prop := exists l, ss_log s = base ++ l /\ applied <= ss_last s
  /\ StronglySorted Z.lt (sent_generations l) /\ Forall (fun g => applied <= g <= ss_last s) (sent_generations l).

Definition keeps_rising s s' : Prop := forall base, rising base s -> rising base s'.
#[export] Instance keeps_rising_preorder : PreOrder keeps_rising.
Proof. split; [by intros s base | intros s1 s2 s3 H1 H2 base H; by apply H2, H1]. Qed.

Lemma sent_generations_app l1 l2 : sent_generations (l1 ++ l2) = sent_generations l1 ++ sent_generations l2.
Proof. apply omap_app. Qed.

Lemma no_generation l : Forall (fun x => is_snapshot x = false) l -> sent_generations l = [].
Proof. induction 1 as [|x l Hx _ IH]; [done|]. cbn. destruct x as [| |[]| | | | | |]; done. Qed.

Lemma keeps_rising_quiet s s' l : ss_log s' = ss_log s ++ l -> Forall (fun x => is_snapshot x = false) l -> ss_last s' = ss_last s -> keeps_rising s s'.
Proof.
  intros E Hl%no_generation Es base (l0 & E0 & Ha & Hs & Hf). exists (l0 ++ l). rewrite Es, E, E0, app_assoc, sent_generations_app, Hl, app_nil_r. done.
Qed.

#[export] Instance rising_frame : Frame keeps_rising (fun l => is_snapshot l = false).
Proof.
  split; [apply _ | intros; frame_eval;
    first [eapply (keeps_rising_quiet _ _ []); cbn; [by rewrite app_nil_r | done | done]
          | eapply keeps_rising_quiet; cbn; [reflexivity | by repeat constructor | done]] ..].
Qed.

(** A snapshot that is sent after a check that its generation is new. *)
Lemma send_rising record s s' r : sendSnapshotForWire record s = (s', r) -> ss_last s < Record_Generation record -> keeps_rising s s'.
Proof.
  intros H Hl base (l0 & E0 & Ha & Hs & Hf). apply wire_attempt_exact in H as (l & E & He & _); [|unfold snapshotWireRetryLimit; lia].
  exists (l0 ++ l). rewrite E, E0, app_assoc, sent_generations_app. split; [done|]. destruct r as [[]|e]; cbn in He.
  - destruct He as [-> ->]. split; [lia|]. split.
    + clear E0. induction Hs as [|g gs Hs IH Hg]; cbn; [by repeat constructor|]. apply Forall_cons in Hf as [Hf1 Hf]. constructor; [by apply IH|].
      apply Forall_app. split; [done|]. constructor; [lia | done].
    + apply Forall_app. split; [eapply Forall_impl; [exact Hf|]; cbn; lia | repeat constructor; lia].
  - destruct He as (-> & -> & _). by rewrite app_nil_r.
Qed.

Lemma push_rising id : stays keeps_rising (pushSnapshots (R := R) id).
Proof.
  intros s. destruct (pushSnapshots id s) as [s' r] eqn:H. cbn. unfold pushSnapshots in H.
  apply M_bind_run in H as [(running & s1 & [= <- <-] & H)|(e & [=] & _)]. destruct (negb (ss_pushing s)); [injection H as <- <-; done|].
  apply M_bind_run in H as [(r1 & s1 & E1 & H)|(e & E1 & ->)]; apply try_run in E1 as (r2 & E & E1); [injection E as -> | done].
  pose proof (stays_run _ _ _ _ _ (frame_store (Rel := keeps_rising) _ _) E1) as K. destruct r2 as [record|e]; [|injection H as <- <-; done].
  apply M_bind_run in H as [(previous & s2 & [= <- <-] & H)|(e & [=] & _)]. destruct (Record_Generation record <=? ss_last s1) eqn:El; [injection H as <- <-; done|].
  apply Z.leb_gt in El. apply M_bind_run in H as [(r3 & s3 & E3 & H)|(e & E3 & ->)]; apply try_run in E3 as (r4 & E & E3); [injection E as -> | done].
  apply send_rising in E3; [|done]. destruct r4 as [[]|e]; [injection H as <- <-; by etransitivity|].
  apply M_bind_run in H as [(acting & s4 & [= <- <-] & H)|(e4 & [=] & _)]. injection H as <- <-.
  etransitivity; [exact K|]. etransitivity; [exact E3|]. by apply (keeps_rising_quiet _ _ []); [rewrite app_nil_r|..].
Qed.

Lemma serve_rising leadership peer id initial top events : stays keeps_rising (serve (R := R) leadership peer id initial top events).
Proof. apply (stays_serve _ (fun l => is_snapshot l = false)); [by intros l [? _] | apply push_rising]. Qed.
End Rising.

Section Generations.
Context {R : Type} `{PM : !PEM, FO : !Fold, RP : !Repository R, CS : !ControlStore R, JO : !JSON ObservedState, JM : !JSON (gmap string string), JA : !JSONAny}.
Implicit Types s : session R.

Abbreviation unsent := (fun l : logged => is_snapshot l = false).

(** What a part of a connection sends: generations in order, from a first one on. *)
Definition sends_from (applied : Z) s s' : Prop := exists l, ss_log s' = ss_log s ++ l
  /\ StronglySorted Z.lt (sent_generations l) /\ Forall (fun g => applied <= g) (sent_generations l).

Lemma sends_none applied s s' : logs unsent s s' -> sends_from applied s s'.
Proof. intros (l & E & H%no_generation). exists l. rewrite H. repeat split; [done | constructor..]. Qed.

Lemma sends_after applied s1 s2 s3 : logs unsent s1 s2 -> sends_from applied s2 s3 -> sends_from applied s1 s3.
Proof.
  intros (l1 & E1 & H1%no_generation) (l2 & E2 & H2). exists (l1 ++ l2). by rewrite E2, E1, app_assoc, sent_generations_app, H1.
Qed.

Lemma sends_before applied s1 s2 s3 : sends_from applied s1 s2 -> logs unsent s2 s3 -> sends_from applied s1 s3.
Proof.
  intros (l1 & E1 & H1) (l2 & E2 & H2%no_generation). exists (l1 ++ l2). by rewrite E2, E1, app_assoc, sent_generations_app, H2, app_nil_r.
Qed.

(** A step that sends nothing before the rest. *)
Lemma sends_bind {A B} applied (m : ST R A) (f : A -> ST R B) s s' r :
  (m ≫= f) s = (s', r) -> stays (logs unsent) m ->
  (forall a s1, f a s1 = (s', r) -> m s = (s1, Ok a) -> sends_from applied s1 s') -> sends_from applied s s'.
Proof.
  intros H Hm Hf. apply M_bind_run in H as [(a & s1 & E1 & H)|(e & E1 & ->)]; pose proof (stays_run _ _ _ _ _ Hm E1) as K.
  - eapply sends_after; [exact K | by eapply Hf].
  - by apply sends_none.
Qed.

Lemma rising_start s : rising (ss_last s) (ss_log s) s.
Proof. exists []. rewrite app_nil_r. split; [done|]. split; [lia|]. split; constructor. Qed.

(** The initial snapshot is newer than what the node has, or the same generation. *)
Lemma initial_rising h latest s s' r : send_initial h latest s = (s', r) -> ss_last s = Hello_AppliedGeneration h ->
  rising (Hello_AppliedGeneration h) (ss_log s) s'.
Proof.
  intros H Ha. pose proof (rising_start s) as K0. rewrite Ha in K0.
  destruct latest as [record|]; [|by injection H as <- <-]. cbn [send_initial] in H.
  destruct (outdated h record) eqn:Ho; [|by injection H as <- <-].
  assert (Hge : Hello_AppliedGeneration h <= Record_Generation record) by (unfold outdated in Ho; clear -Ho; lia).
  apply M_bind_run in H as [(r1 & s3 & E3 & H)|(e & E3 & ->)]; apply try_run in E3 as (r2 & E & E3); [injection E as -> | done].
  apply wire_attempt_exact in E3 as (l & El & He & _); [|unfold snapshotWireRetryLimit; lia].
  assert (s' = s3) as -> by (destruct r2; [by injection H | by apply M_bind_run in H as [(c & s4 & [= <- <-] & [= <- <-])|(? & [=] & _)]]).
  exists l. rewrite El. split; [done|]. destruct r2 as [[]|e]; [destruct He as [-> ->] | destruct He as (-> & -> & _); rewrite Ha];
    (split; [lia|]); split; repeat constructor; lia.
Qed.

(** From the snapshot that is sent first, if any, to the last one. *)
Lemma snapshots_from leadership peer h latest events s s' r :
  (_ ← set_last (Hello_AppliedGeneration h); _ ← send_initial h latest; acting ← gets ss_acting; _ ← set_threads true acting;
   serve leadership peer (Hello_NodeId h) (default no_record latest) true events) s = (s', r) ->
  sends_from (Hello_AppliedGeneration h) s s'.
Proof.
  intros H. assert (K : rising (Hello_AppliedGeneration h) (ss_log s) s').
  { apply M_bind_run in H as [(u & s1 & [= <- <-] & H)|(e & [=] & _)].
    apply M_bind_run in H as [(w & s2 & E2%initial_rising & H)|(e & E2%initial_rising & ->)]; [|done..].
    cbn [ss_log] in E2. revert E2. apply (fun K => stays_run (keeps_rising _) _ _ _ _ K H).
    apply stays_bind; [apply keeps_rising_preorder | apply stays_gets, keeps_rising_preorder | intros acting].
    apply stays_bind; [apply keeps_rising_preorder | apply (frame_threads (Frame := rising_frame _)) | intros _]. apply serve_rising. }
  destruct K as (l & E & _ & Hs & Hf). exists l. split; [done|]. split; [done|]. eapply Forall_impl; [exact Hf|]. cbn. lia.
Qed.

(** What follows a call, with its state in the place of the one before. *)
Ltac after_call H s :=
  let s1 := fresh "s" in let H1 := fresh "H" in intros s1 H1 _; cbv beta in H1; clear H s; rename s1 into s, H1 into H.

Lemma ordinary_unsent l : ordinary l -> is_snapshot l = false.
Proof. by intros [? _]. Qed.

Lemma serve_stream_from leadership peer h latest early events s s' r :
  serve_stream leadership peer h latest early events s = (s', r) -> sends_from (Hello_AppliedGeneration h) s s'.
Proof.
  intros H. unfold serve_stream in H.
  eapply sends_bind; [exact H | apply (stays_greet _ unsent ordinary_unsent) | intros ?; after_call H s].
  eapply sends_bind; [exact H | apply (frame_threads (Rel := logs unsent)) | intros ?; after_call H s].
  eapply sends_bind; [exact H | apply (stays_early _ unsent ordinary_unsent) | intros ?; after_call H s]. by eapply snapshots_from.
Qed.

Lemma open_stream_from leadership peer h early events s s' r :
  open_stream leadership peer h early events s = (s', r) -> sends_from (Hello_AppliedGeneration h) s s'.
Proof.
  intros H. unfold open_stream in H.
  eapply sends_bind; [exact H | by apply stays_try, (rel_store _ unsent) | intros ensured; after_call H s].
  eapply sends_bind; [exact H | apply stays_lift, _ | intros ?; after_call H s].
  eapply sends_bind; [exact H | apply (stays_latest _ unsent) | intros latest; after_call H s].
  eapply sends_bind; [exact H | apply stays_lift, _ | intros ?; after_call H s].
  eapply sends_bind; [exact H | apply (rel_registry _ unsent) | intros entry; after_call H s].
  eapply sends_bind; [exact H | apply (rel_registry _ unsent) | intros token; after_call H s].
  eapply sends_bind; [exact H | by apply stays_try, (rel_leader _ unsent) | intros [u|e]; after_call H s].
  - apply M_bind_run in H as [(r1 & s1 & E1 & H)|(e & E1 & ->)]; apply try_run in E1 as (r2 & E & E1); [injection E as -> | done].
    apply serve_stream_from in E1. eapply sends_before; [exact E1|].
    assert (K : stays (logs unsent) (_ ← leave (Hello_NodeId h) entry token; lift r2)).
    { apply stays_bind; [apply _ | apply (stays_leave _ unsent ordinary_unsent) | intros _; apply stays_lift, _]. }
    exact (stays_run _ _ _ _ _ K H).
  - apply sends_none. assert (K : stays (logs unsent) (_ ← cancel (R := R); @fail _ bool e)).
    { apply stays_bind; [apply _ | apply (stays_cancel _ unsent ordinary_unsent) | intros _; apply stays_fail, _]. }
    exact (stays_run _ _ _ _ _ K H).
Qed.

Lemma connected_from leadership peer h early events s s' r :
  connected leadership peer (Ok (Some (HelloBody h))) early events s = (s', r) -> sends_from (Hello_AppliedGeneration h) s s'.
Proof.
  intros H. unfold connected in H. cbn [first_hello] in H.
  apply M_bind_run in H as [(h1 & s1 & [= <- <-] & H)|(e & [=] & _)].
  eapply sends_bind; [exact H | apply stays_lift, _ | intros ?; after_call H s].
  eapply sends_bind; [exact H | by apply (stays_authenticate _ unsent) | intros node; after_call H s].
  eapply sends_bind; [exact H | | intros ?; after_call H s; by eapply open_stream_from].
  intros x. exists [SlotReleased]. split; [done | by repeat constructor].
Qed.

(** C25: the snapshots that a node gets on one connection have strictly increasing
    generations, none below what it said it had applied, in whatever order the store
    changes, sends fail and the node's messages come. *)
Theorem snapshots_rise (leadership allowed : bool) peer h early events s s' r :
  Connect leadership allowed peer (Ok (Some (HelloBody h))) early events s = (s', r) ->
  exists l, ss_log s' = ss_log s ++ l /\ StronglySorted Z.lt (sent_generations l)
    /\ Forall (fun g => Hello_AppliedGeneration h <= g) (sent_generations l).
Proof.
  intros H. change (sends_from (Hello_AppliedGeneration h) s s'). unfold Connect in H.
  eapply sends_bind; [exact H | apply (rel_leader _ unsent) | intros ?; after_call H s].
  eapply sends_bind; [exact H | apply stays_lift, _ | intros ?; after_call H s].
  eapply sends_bind; [exact H | apply stays_gets, _ | intros n; after_call H s].
  destruct (n >=? max_connect_slots); [apply sends_none; injection H as <- <-; done|].
  eapply sends_bind; [exact H | | intros ?; after_call H s]; [intros x; exists []; by rewrite app_nil_r|].
  eapply sends_bind; [exact H | apply (frame_log (Rel := logs unsent)); done | intros ?; after_call H s].
  apply M_bind_run in H as [(r1 & s1 & E1 & H)|(e & E1 & ->)]; apply try_run in E1 as (r2 & E & E1); [injection E as -> | done].
  apply connected_from in E1. eapply sends_before; [exact E1|].
  apply M_bind_run in H as [(held & s2 & [= <- <-] & H)|(e & [=] & _)]. destruct (ss_held s1); [|injection H as <- <-; done].
  apply M_bind_run in H as [(w & s3 & E3%release_log & [= <- <-])|(e & [=] & _)]. exists [SlotReleased]. split; [done | by repeat constructor].
Qed.
End Generations.

(** ** Results and renewals *)
Section Messages.
Context {R : Type} `{PM : !PEM, FO : !Fold, RP : !Repository R, CS : !ControlStore R, JO : !JSON ObservedState, JM : !JSON (gmap string string), JA : !JSONAny}.
Implicit Types s : session R.

(** The snapshot that a result is held against. *)
Definition current_record (nodeID : string) (initial : SnapshotRecord) (x : R) (record : SnapshotRecord) : Prop :=
  snd (LoadSnapshot nodeID x) = Ok record \/ exists e, snd (LoadSnapshot nodeID x) = Err e /\ is_no_rows e = true /\ record = initial.

Definition result_matches (r : wire_result) (record : SnapshotRecord) : Prop :=
  Record_NodeID record <> "" /\ WResult_Generation r = Record_Generation record /\ WResult_Generation r <> 0
  /\ (WResult_Checksum r <> "" -> EqualFold (WResult_Checksum r) (Record_Checksum record) = true)
  /\ (WResult_Status r = APPLIED -> WResult_Checksum r <> "" /\ WResult_Error r = None)
  /\ (WResult_Status r = REJECTED -> exists e, WResult_Error r = Some e /\ blank (WError_Code e) = false /\ blank (WError_Message e) = false).

Lemma validateApplyResult_sound r record : validateApplyResult r record = Ok tt -> result_matches r record.
Proof.
  unfold validateApplyResult. intros H.
  apply bind_Ok in H as ([] & E1%reject_if_Ok & H). apply bind_Ok in H as ([] & E2%reject_if_Ok & H).
  apply bind_Ok in H as ([] & E3 & H). apply bind_Ok in H as ([] & E4%reject_if_Ok & H).
  apply bind_Ok in H as ([] & E5%reject_if_Ok & H). apply bind_Ok in H as ([] & E6%reject_if_Ok & E7%reject_if_Ok).
  apply orb_false_iff in E1 as [E1 _]. apply negb_false_iff in E5. apply String.eqb_neq in E4.
  split; [done|]. split; [lia|]. split; [lia|]. split.
  { intros Hc%String.eqb_neq. rewrite Hc in E7. by apply negb_false_iff in E7. }
  split; intros Hs; rewrite Hs in *; cbn in E3, E6.
  - apply String.eqb_neq in E6. by destruct (WResult_Error r).
  - destruct (WResult_Error r) as [e|]; [|done]. exists e. apply bind_Ok in E3 as ([] & E3%reject_if_Ok & _). by apply orb_false_iff in E3 as [-> ->].
Qed.

Lemma latest_exact id s s' r : latest_snapshot id s = (s', Ok r) ->
  ss_log s' = ss_log s /\ forall initial, current_record id initial (ss_store s) (default initial r).
Proof.
  intros H. unfold latest_snapshot, try, in_store in H. cbv [mbind M_bind mret M_ret] in H. unfold current_record. destruct (LoadSnapshot id (ss_store s)) as [x [record|e]]; cbn in *.
  - injection H as <- <-. split; [done|]. intros initial. by left.
  - destruct (is_no_rows e) eqn:E; [injection H as <- <- | by injection H]. split; [done|]. intros initial. right. by exists e.
Qed.

Lemma stored_exact {A} e (m : M R A) s s' r : stored e m s = (s', r) -> ss_log s' = ss_log s.
Proof. unfold stored, try, in_store. cbv [mbind M_bind]. destruct (m (ss_store s)) as [x [a|d]]; by intros [= <- <-]. Qed.

Lemma refresh_log ids s s' r : refresh_participants ids s = (s', r) -> ss_log s' = ss_log s.
Proof.
  intros H. apply no_logs. assert (K : stays (logs (fun _ => False)) (refresh_participants (R := R) ids)) by apply (stays_refresh _ (fun _ => False)).
  exact (stays_run _ _ _ _ _ K H).
Qed.

(** The assignments of a node change for a result only when it is the result of the
    snapshot that is current: same generation, same checksum where it has one, a checksum
    and no error when it was applied, an error when it was rejected. *)
Theorem results_are_current nodeID initial res s s' r g applied code :
  handle_result nodeID initial res s = (s', r) -> Applied g applied code ∈ drop (List.length (ss_log s)) (ss_log s') ->
  g = WResult_Generation res /\ (applied = true <-> WResult_Status res = APPLIED) /\ (applied = false <-> WResult_Status res = REJECTED)
  /\ exists record, current_record nodeID initial (ss_store s) record /\ result_matches res record.
Proof.
  intros H Hin. unfold handle_result in H.
  assert (Hno : ss_log s' = ss_log s -> False) by (intros E; rewrite E, drop_all in Hin; by apply not_elem_of_nil in Hin).
  apply M_bind_run in H as [(current & s1 & (E1 & Hc)%latest_exact & H)|(e & E1 & ->)].
  2:{ destruct Hno. apply no_logs. eapply stays_run; [|exact E1]. apply (stays_latest _ (fun _ => False)). }
  specialize (Hc initial). set (latest := default initial current) in *. clearbody latest. rewrite <-E1 in *.
  destruct (negb (String.eqb (Record_NodeID latest) "") && (WResult_Generation res <? Record_Generation latest)); [by apply stored_exact in H|].
  apply M_bind_run in H as [([] & s2 & [= <- Hv%map_err_Ok%validateApplyResult_sound] & H)|(e & [= <- _] & ->)]; [|done].
  apply M_bind_run in H as [(u & s3 & E3%stored_exact & H)|(e & E3%stored_exact & ->)]; [|done]. rewrite <-E3 in *. clear E1 E3.
  destruct ((WResult_Status res =? APPLIED) || (WResult_Status res =? REJECTED)) eqn:Es; [|injection H as <- <-; done].
  apply M_bind_run in H as [(changed & s4 & E4%stored_exact & H)|(e & E4%stored_exact & ->)]; [|done]. rewrite <-E4 in *.
  apply M_bind_run in H as [([] & s5 & [= <-] & H%refresh_log)|(e & [=] & _)]. rewrite H in Hin. cbn in Hin.
  rewrite drop_app_length, list_elem_of_singleton in Hin. injection Hin as -> -> ->.
  split; [done|]. unfold APPLIED, REJECTED in *. split; [lia|]. split; [lia|]. by exists latest.
Qed.

Lemma check_current_exact peer id s s' r : check_current peer id s = (s', r) ->
  ss_log s' = ss_log s /\ (r = Ok tt -> exists x node, GetNode id (ss_store s) = (x, Ok node) /\ authorized peer node).
Proof.
  intros H. split.
  { apply no_logs. eapply stays_run; [|exact H]. apply (stays_check_current _ (fun _ => False)). }
  intros ->. unfold check_current in H.
  apply M_bind_run in H as [(r2 & s2 & E2 & H)|(? & _ & [=])]. apply try_run in E2 as (r3 & [= ->] & E2).
  destruct r3 as [n|e]; [|done]. unfold in_store in E2. destruct (GetNode id (ss_store s)) as [x y]. injection E2 as <- ->.
  do 2 (let E := fresh "E" in apply M_bind_run in H as [([] & ? & [= <- E%reject_if_Ok] & H)|(? & _ & [=])]).
  injection H as _ H%reject_if_Ok. exists x, n. split; [done|]. unfold authorized.
  apply orb_false_iff in H as [H1%negb_false_iff H2%negb_false_iff]. split; [by apply negb_false_iff|].
  split; [by apply String.eqb_eq | by apply serial_current_sound].
Qed.

(** A certificate is renewed only over a stream whose own certificate is still the
    current one of an enabled, active node, for a CSR of bounded size; and then the stream
    is cancelled, so that the node has to come back with the new one. *)
Theorem renewal_is_current peer nodeID csr s s' r c : handle_renewal peer nodeID csr s = (s', r) ->
  Renewed c ∈ drop (List.length (ss_log s)) (ss_log s') ->
  c = csr /\ 0 < llen csr <= 128 * 2 ^ 10
  /\ (exists x node, GetNode nodeID (ss_store s) = (x, Ok node) /\ authorized peer node)
  /\ (r = Ok tt -> ss_ctx s' <> None).
Proof.
  intros H Hin. unfold handle_renewal in H.
  assert (Hno : ss_log s' = ss_log s -> False) by (intros E; rewrite E, drop_all in Hin; by apply not_elem_of_nil in Hin).
  apply M_bind_run in H as [([] & s1 & [= <- Hc%reject_if_Ok] & H)|(e & [= <- _] & ->)]; [|done].
  apply M_bind_run in H as [([] & s2 & [E2 Ha]%check_current_exact & H)|(e & [E2 _]%check_current_exact & ->)]; [|done].
  specialize (Ha eq_refl). rewrite <-E2 in *. clear E2.
  apply M_bind_run in H as [(r1 & s3 & E3 & H)|(e & E3 & ->)]; apply try_run in E3 as (r2 & E & E3); [injection E as -> | done].
  apply in_store_exact in E3 as (E3 & _ & _). rewrite <-E3 in *. destruct r2 as [issued|e]; [|injection H as <- <-; done].
  apply M_bind_run in H as [([] & s4 & [= <-] & H)|(e & [=] & _)].
  assert (c = csr /\ (r = Ok tt -> ss_ctx s' <> None)) as [-> Hx].
  { apply M_bind_run in H as [([] & s5 & [_ E5]%send_exact & H)|(e & [_ [E5 _]]%send_exact & ->)].
    - injection H as <- <-. cbn in *. rewrite E5 in Hin. cbn in Hin. rewrite <-!app_assoc, drop_app_length in Hin.
      split; [rewrite list_elem_of_In in Hin; cbn in Hin; naive_solver|]. intros _. by destruct (ss_ctx s5).
    - cbn in *. rewrite E5 in Hin. cbn in Hin. rewrite drop_app_length, list_elem_of_singleton in Hin. by injection Hin. }
  split; [done|]. split; [lia|]. done.
Qed.
End Messages.
