(* ===== verification/StreamsFacts.v ===== *)
(** * The streams of the server, and the control stream on concrete runs

    Many streams over one registry: the newest of a node is the only one that is not
    cancelled; a security action and a loss of leadership cancel what they should.  Two
    ways in which a stream leaves something behind.  Then a small store, at which the
    theorems of ControlStreamFacts are applied. *)
From S2P Require Import Prelude GoStd Domain Checksum Validation Snapshot Report Datagram Json Control ControlWire Effects Placement Reconcile Replacement ChangeBus ControlStream ControlStreamFacts.
From S2P Require Import Samples ControlWireFacts.

(** ** Handlers over one registry *)
Record world := MkWorld { w_registry : registry; w_open : gmap Z string }.

Inductive handler_step :=
| Opens (nodeID : string)          (* a stream is published *)
| Leaves (entry : Z)               (* its deferred function runs *)
| Dropped (entry : Z)              (* it returns before that function is deferred *)
| SecurityAction (nodeID : string) (* the last section of [deliverNodeAction] *)
| LeadershipLost.                  (* [Drain] *)

Definition world_step (w : world) (h : handler_step) : world :=
  match h with
  | Opens nodeID => MkWorld (fst (publish nodeID (w_registry w))) (<[next_stream (w_registry w) := nodeID]> (w_open w))
  | Leaves entry =>
      match w_open w !! entry with
      | Some nodeID => MkWorld (fst (withdraw nodeID entry (w_registry w))) (delete entry (w_open w))
      | None => w
      end
  | Dropped entry => MkWorld (w_registry w) (delete entry (w_open w))
  | SecurityAction nodeID => MkWorld (fst (cancel_current nodeID (w_registry w))) (w_open w)
  | LeadershipLost => MkWorld (fst (Drain (w_registry w))) (w_open w)
  end.

Definition empty_world (n : Z) (b : ChangeBus) : world := MkWorld (MkRegistry ∅ ∅ n b) ∅.
Definition reached (n : Z) (b : ChangeBus) (steps : list handler_step) : world := foldl world_step (empty_world n b) steps.

(** An open stream is the published one of its node, or cancelled. *)
Definition accounted (w : world) : Prop := forall entry nodeID, w_open w !! entry = Some nodeID ->
  entry < next_stream (w_registry w) /\ (streams (w_registry w) !! nodeID = Some entry \/ entry ∈ cancelled (w_registry w)).

(** A published stream has the number of no stream to come. *)
Definition numbered (w : world) : Prop := map_Forall (fun _ entry => entry < next_stream (w_registry w)) (streams (w_registry w)).

Lemma open_accounted w nodeID : numbered w -> accounted w -> accounted (world_step w (Opens nodeID)).
Proof.
  intros Hn Ha entry id. cbn. destruct (decide (entry = next_stream (w_registry w))) as [->|Hne].
  { rewrite lookup_insert_eq. intros [= ->]. split; [lia|]. left. by rewrite lookup_insert_eq. }
  rewrite lookup_insert_ne by done. intros He. destruct (Ha entry id He) as [Hl Hs]. split; [lia|].
  destruct (decide (id = nodeID)) as [->|Hid].
  - right. destruct Hs as [Hs|Hs]; [rewrite Hs; apply elem_of_union; left; by apply elem_of_singleton|].
    destruct (streams (w_registry w) !! nodeID); [apply elem_of_union; by right | done].
  - destruct Hs as [Hs|Hs]; [left; by rewrite lookup_insert_ne | right]. destruct (streams (w_registry w) !! nodeID); [apply elem_of_union; by right | done].
Qed.

Lemma leave_accounted w entry : accounted w -> accounted (world_step w (Leaves entry)).
Proof.
  intros Ha. cbn. destruct (w_open w !! entry) as [id|] eqn:E; [|done]. intros e i. cbn.
  rewrite lookup_delete_Some. intros [Hne He]. destruct (Ha e i He) as [Hl Hs]. unfold withdraw.
  case_bool_decide as Hc; cbn; [|done]. split; [done|]. destruct Hs as [Hs|Hs]; [|by right]. left.
  destruct (decide (i = id)) as [->|Hid]; [congruence | by rewrite lookup_delete_ne].
Qed.

Lemma step_accounted w h : numbered w -> accounted w -> accounted (world_step w h).
Proof.
  intros Hn Ha. destruct h as [nodeID|entry|entry|nodeID|].
  - by apply open_accounted.
  - by apply leave_accounted.
  - intros e i. cbn. rewrite lookup_delete_Some. intros [_ He]. by apply Ha.
  - intros e i He. destruct (Ha e i He) as [Hl Hs]. cbn. unfold cancel_current. destruct (streams (w_registry w) !! nodeID); cbn; [|done].
    split; [done|]. destruct Hs as [Hs|Hs]; [by left | right; apply elem_of_union; by right].
  - intros e i He. destruct (Ha e i He) as [Hl Hs]. cbn. split; [done|]. destruct Hs as [Hs|Hs]; [by left | right; apply elem_of_union; by right].
Qed.

Lemma step_numbered w h : numbered w -> numbered (world_step w h).
Proof.
  intros Hn. destruct h as [nodeID|entry|entry|nodeID|]; unfold numbered; cbn.
  - apply map_Forall_insert_2; [lia|]. eapply map_Forall_impl; [exact Hn|]. cbn. lia.
  - destruct (w_open w !! entry) as [id|]; [|done]. cbn. unfold withdraw. case_bool_decide; [by apply map_Forall_delete | done].
  - done.
  - unfold cancel_current. by destruct (streams (w_registry w) !! nodeID).
  - done.
Qed.

Lemma reached_ok n b steps : numbered (reached n b steps) /\ accounted (reached n b steps).
Proof.
  unfold reached. assert (H : numbered (empty_world n b) /\ accounted (empty_world n b)) by (split; intros i x Hx; cbn in Hx; by rewrite lookup_empty in Hx).
  revert H. generalize (empty_world n b). induction steps as [|h steps IH]; intros w [Hn Ha]; cbn [foldl]; [done|].
  apply IH. split; [by apply step_numbered | by apply step_accounted].
Qed.

(** However handlers open, leave and fail, and whenever streams are cancelled, two open
    streams of one node that are not cancelled are the same: the newest takes over. *)
Theorem newest_stream_wins n b steps e1 e2 nodeID : let w := reached n b steps in
  w_open w !! e1 = Some nodeID -> w_open w !! e2 = Some nodeID ->
  e1 ∉ cancelled (w_registry w) -> e2 ∉ cancelled (w_registry w) -> e1 = e2.
Proof.
  intros w H1 H2 N1 N2. destruct (reached_ok n b steps) as [_ Ha].
  destruct (Ha _ _ H1) as [_ [S1|?]]; [|done]. destruct (Ha _ _ H2) as [_ [S2|?]]; [|done]. congruence.
Qed.

(** After a revocation or a decommissioning every stream that the node has open is
    cancelled, and after a loss of leadership every stream of the server is. *)
Theorem security_closes n b steps entry nodeID : w_open (reached n b steps) !! entry = Some nodeID ->
  entry ∈ cancelled (w_registry (reached n b (steps ++ [SecurityAction nodeID])))
  /\ entry ∈ cancelled (w_registry (reached n b (steps ++ [LeadershipLost]))).
Proof.
  intros H. destruct (reached_ok n b steps) as [_ Ha]. destruct (Ha _ _ H) as [_ Hs]. unfold reached in *. rewrite !foldl_snoc.
  set (w := foldl world_step (empty_world n b) steps) in *. cbn. unfold cancel_current.
  destruct Hs as [Hs|Hs]; [rewrite Hs | destruct (streams (w_registry w) !! nodeID)]; cbn; split; rewrite ?elem_of_union, ?elem_of_singleton; auto.
  left. apply elem_of_list_to_set, list_elem_of_fmap. exists (nodeID, entry). split; [done|]. by apply elem_of_map_to_list.
Qed.

(** ** What a stream leaves behind *)
Section Leftovers.
Context {R : Type} `{PM : !PEM, FO : !Fold, RP : !Repository R, CS : !ControlStore R, JO : !JSON ObservedState, JM : !JSON (gmap string string), JA : !JSONAny}.

Definition same_server (s s' : session R) : Prop := ss_reg s' = ss_reg s /\ ss_leader s' = ss_leader s.

Lemma in_store_server {A} (m : M R A) (s s' : session R) r : in_store m s = (s', r) -> same_server s s'.
Proof. unfold in_store. destruct (m (ss_store s)). by intros [= <- <-]. Qed.

Lemma set_capabilities_run id items b : bus_closed b = false ->
  SetNodeCapabilities id items b = (with_capabilities (<[strings.TrimSpace id := (next (nextCapability b), items)]> (capabilities b)) (next (nextCapability b)) b,
                                    Ok (next (nextCapability b))).
Proof. intros Hb. cbv [SetNodeCapabilities mbind M_bind mret M_ret set get with_capabilities]. cbn. by rewrite Hb. Qed.

Lemma latest_server id (s s' : session R) r : latest_snapshot id s = (s', r) ->
  same_server s s' /\ r <> Err (Unavailable "controller is not the active leader").
Proof.
  unfold latest_snapshot. cbv [mbind M_bind mret M_ret]. destruct (try (in_store (LoadSnapshot id)) s) as [s1 [r1|e]] eqn:E.
  - apply try_run in E as (r2 & [= ->] & E%in_store_server). destruct r2 as [a|e]; [by intros [= <- <-]|]. by destruct (is_no_rows e); intros [= <- <-].
  - by apply try_run in E as (r2 & [=] & _).
Qed.

(** When the leadership is lost between the publication of a stream and the second
    check, the handler returns before its cleanup is deferred: the stream stays in the
    table of the server and its capabilities stay those of the node, although no stream of
    it is open. *)
Theorem lost_leadership_leaves_stream peer h early events (s s' : session R) r rest :
  open_stream true peer h early events s = (s', r) -> ss_leader s = false :: rest ->
  r = Err (Unavailable "controller is not the active leader") -> bus_closed (reg_bus (ss_reg s)) = false ->
  streams (ss_reg s') !! Hello_NodeId h = Some (next_stream (ss_reg s))
  /\ snd (NodeCapabilities (Hello_NodeId h) (reg_bus (ss_reg s'))) = Ok (Hello_Capabilities h).
Proof.
  intros H Hl Hr Hb. unfold open_stream in H.
  apply M_bind_run in H as [(ensured & s1 & E1 & H)|(e & E1 & _)]; apply try_run in E1 as (r1 & E & E1%in_store_server); [clear E | done].
  apply M_bind_run in H as [(u & s2 & [= <- _] & H)|(e & [= <- E2] & ->)].
  2:{ injection Hr as ->. destruct ensured as [x|e1]; [done|]. cbn in E2. by destruct (negb (is_no_rows e1)). }
  apply M_bind_run in H as [(latest & s3 & [E3 _]%latest_server & H)|(e & [_ E3]%latest_server & ->)]; [|congruence].
  apply M_bind_run in H as [(v & s4 & [= <- _] & H)|(e & [= <- E4] & ->)].
  2:{ injection Hr as ->. destruct latest as [record|]; cbn in E4; [destruct (Hello_AppliedGeneration h >? Record_Generation record) | destruct (Hello_AppliedGeneration h =? 0)]; done. }
  destruct E1 as [R1 L1], E3 as [R3 L3]. rewrite <-R1, <-R3 in *. rewrite <-L1, <-L3 in Hl. clear R1 L1 R3 L3.
  apply M_bind_run in H as [(entry & s5 & [= <- <-] & H)|(e & [=] & _)].
  apply M_bind_run in H as [(token & s6 & E6 & H)|(e & E6 & ->)]; unfold in_registry, in_bus in E6; cbn [reg_bus ss_reg] in E6; rewrite set_capabilities_run in E6 by done; [|done].
  injection E6 as <- <-. cbn [try mbind M_bind] in H. unfold try, require_leader in H. cbn in H. rewrite Hl in H. cbn in H.
  injection H as <- _. cbn. rewrite !lookup_insert_eq. done.
Qed.
End Leftovers.

(** Two handlers of one node: the older publishes, the newer publishes and sets its
    capabilities, then the older sets its own and leaves, as it was cancelled. *)
Definition racing_streams (nodeID : string) (older newer : list string) : M registry (Z * Z) :=
  a ← publish nodeID;
  b ← publish nodeID;
  _ ← in_bus (SetNodeCapabilities nodeID newer);
  token ← in_bus (SetNodeCapabilities nodeID older);
  _ ← withdraw nodeID a;
  _ ← in_bus (ClearNodeCapabilities nodeID token);
  mret (a, b).

(** Publishing a stream and setting the capabilities of its node are two sections: when
    an older stream sets its capabilities between those of a newer one and its own end, the
    newer stream is the one of the node, but the node has no capabilities left. *)
Theorem racing_streams_lose_capabilities nodeID older newer (g : registry) :
  bus_closed (reg_bus g) = false -> streams g !! nodeID = None ->
  exists g', racing_streams nodeID older newer g = (g', Ok (next_stream g, next_stream g + 1))
    /\ streams g' !! nodeID = Some (next_stream g + 1) /\ cancelled g' = {[next_stream g]} ∪ cancelled g
    /\ snd (NodeCapabilities nodeID (reg_bus g')) = Ok [].
Proof.
  intros Hb Hnone. eexists. split.
  { unfold racing_streams. cbv [mbind M_bind mret M_ret in_bus]. cbn [publish reg_bus streams cancelled next_stream fst snd].
    rewrite set_capabilities_run by done. cbn [reg_bus]. rewrite set_capabilities_run by done. cbn [reg_bus withdraw streams].
    unfold withdraw. cbn [streams]. rewrite bool_decide_eq_false_2 by (rewrite lookup_insert_eq; intros [=]; lia).
    reflexivity. }
  cbn. rewrite !lookup_insert_eq, Hnone, Z.eqb_refl. cbn. by rewrite lookup_delete_eq.
Qed.

(** ** A store of one node

    Every build of the desired snapshot gives the next generation. *)
Record store := MkStore { st_node : Node; st_record : SnapshotRecord; st_observed : result ObservedState }.

Definition not_found {A} : M store A := fail ErrNoRows.

#[local] Instance store_repository : Repository store := {|
  GetNode id := fun x => (x, if String.eqb id (Node_ID (st_node x)) then Ok (st_node x) else Err ErrNoRows);
  GetNodeSpec _ := not_found; ListNodes _ := not_found; ListServices _ := not_found; ListAssignments _ _ := not_found; GetAssignment _ := not_found;
  GetObserved _ := fun x => (x, st_observed x);
  LoadSnapshot _ := fun x => (x, Ok (st_record x));
  EnsureDesiredSnapshot _ := fun x =>
    let r := st_record x in
    let r := MkSnapshotRecord (Record_NodeID r) (Record_Generation r + 1) (Record_Checksum r) (Record_Document r) (Record_CreatedAt r) in
    (MkStore (st_node x) r (st_observed x), Ok r);
  UpdateAssignmentState _ _ _ := not_found; PutAssignment _ _ := not_found; LoadGatewayCandidates := not_found; AllocateAssignmentID _ := not_found;
  Now := mret 1000; ContextErr := mret None
|}.

#[local] Instance store_control : ControlStore store := {|
  SnapshotDocumentForWire d := mret (bytes_of d);
  SaveObserved _ := mret tt; SaveObservedHeartbeat _ := mret tt; RecordEvent _ := mret tt;
  applyNodeResultWithError _ _ _ _ := mret [sample_assignment "asg-1" ["web"] []];
  AdvancedOperationsEnabled := mret false;
  RecordRuntimeEvent _ _ _ := mret tt;
  RenewNodeCertificate _ csr := mret (MkIssued csr csr "2b" 0 10);
  GetNodeUpdateState _ := not_found; SaveNodeUpdateState _ := mret tt;
  MarkRuntimeConnectionsUnknown _ _ := mret tt; UpdateNode _ _ := mret tt;
  IssueNodeCertificate _ _ csr := mret (MkIssued csr csr "2a" 0 10)
|}.

(** A block is its bytes. *)
#[local] Instance raw_pem : PEM := {| pem_block b := Some b |}.
#[local] Instance fold_instance : Fold := hex_fold.
#[local] Instance observed_json : JSON ObservedState := one_json sample_observed.
#[local] Instance attributes_json : JSON (gmap string string) := one_json {["state" := "up_to_date"]}.
#[local] Existing Instance end_any.

Definition sample_node : Node := MkNode "gw-1" "gateway" "gw" None true CertificateActive "2a" 1 0 0.
Definition sample_record : SnapshotRecord := MkSnapshotRecord "gw-1" 4 "ab" "doc" 0.
Definition sample_store : store := MkStore sample_node sample_record (Err ErrNoRows).
Definition sample_peer : option certificate := Some (MkCertificate [("spiffe", "asterferry", "/node/gw-1")] "" "2A").
Definition sample_hello : hello := MkHello "gw-1" 1 0 "" ["runtime-control-v1"].
Definition sample_registry : registry := MkRegistry ∅ ∅ 1 (newChangeBus 0 0 0).

Definition fresh_session (leader : list bool) : session store :=
  MkSession sample_store sample_registry [] leader [] [] None 0 false false 3 false.

Definition sample_events : list stream_event :=
  [Received (Ok (Some (ResultBody (MkWireResult 5 "AB" APPLIED None)))); SnapshotsChanged;
   Received (Ok (Some (ResultBody (MkWireResult 5 "AB" APPLIED None)))); Received (Ok (Some (RenewBody (bytes_of "csr"))))].

Definition sample_run := Connect true true sample_peer (Ok (Some (HelloBody sample_hello))) [] sample_events (fresh_session []).

(** The node is greeted and gets generation 5; its result is applied, which rebuilds the
    snapshots of both ends; a change brings generation 8; its second result is stale; with
    its new certificate the stream ends. *)
Example control_stream_session :
  ss_log (fst sample_run)
  = [SlotTaken; SlotReleased; Sent (ActionMessage "" "session_ready" []); Sent (ActionMessage "" "clear_runtime_controls" []);
     Sent (DesiredMessage (MkWireSnapshot 1 "gw-1" 5 "ab" (bytes_of "doc"))); Applied 5 true "";
     Sent (DesiredMessage (MkWireSnapshot 1 "gw-1" 8 "ab" (bytes_of "doc")));
     Renewed (bytes_of "csr"); Sent (CertificateMessage (MkBundle (bytes_of "csr") (bytes_of "csr") "2b" 0 10)); Cancelled; Cancelled]
  /\ snd sample_run = Ok true /\ ss_slots (fst sample_run) = 3.
Proof. vm_compute. done. Qed.

(** ** The theorems on these runs *)
Lemma slot_returned_witness : ss_slots (fst sample_run) = 3 /\ ss_held (fst sample_run) = false.
Proof.
  exact (slot_returned true true sample_peer (Ok (Some (HelloBody sample_hello))) [] sample_events (fresh_session []) (fst sample_run) (snd sample_run)
           (surjective_pairing _) eq_refl).
Defined.

Lemma served_only_authenticated_witness : exists h, Ok (Some (HelloBody sample_hello)) = Ok (Some (HelloBody h)) /\ verifyPeerIdentity sample_peer (Hello_NodeId h) = Ok tt.
Proof.
  destruct (served_only_authenticated true true sample_peer (Ok (Some (HelloBody sample_hello))) [] sample_events (fresh_session []) (fst sample_run) (snd sample_run)
              (Renewed (bytes_of "csr")) (surjective_pairing _) ltac:(vm_compute; do 7 right; left) eq_refl) as (_ & h & Hh & _ & Hv & _).
  exists h. split; [exact Hh | exact Hv].
Defined.

Lemma snapshots_rise_witness : exists l, ss_log (fst sample_run) = l /\ StronglySorted Z.lt (sent_generations l).
Proof.
  destruct (snapshots_rise true true sample_peer sample_hello [] sample_events (fresh_session []) (fst sample_run) (snd sample_run) (surjective_pairing _))
    as (l & E & Hs & _).
  exists l. split; [exact E | exact Hs].
Defined.

Definition sample_send := sendSnapshotForWire sample_record (fresh_session []).
Lemma snapshot_retry_bounded_witness : exists l, ss_log (fst sample_send) = l /\ sent_generations l = [4].
Proof.
  destruct (snapshot_retry_bounded (CS := store_control) sample_record (fresh_session []) (fst sample_send) (Ok tt) ltac:(vm_compute; reflexivity)) as (l & E & [Hg _] & _).
  exists l. split; [exact E | exact Hg].
Defined.

Definition sample_result : wire_result := MkWireResult 4 "AB" APPLIED None.
Definition sample_apply := handle_result "gw-1" no_record sample_result (fresh_session []).
Lemma results_are_current_witness : exists record, current_record "gw-1" no_record sample_store record /\ result_matches sample_result record.
Proof.
  pose proof (results_are_current "gw-1" no_record sample_result (fresh_session []) (fst sample_apply) (Ok tt) 4 true "") as H.
  destruct (H ltac:(vm_compute; reflexivity) ltac:(vm_compute; left)) as (_ & _ & _ & record & Hr & Hm).
  exists record. split; [exact Hr | exact Hm].
Defined.

Definition sample_renewal := handle_renewal sample_peer "gw-1" (bytes_of "csr") (fresh_session []).
Lemma renewal_is_current_witness : exists x node, GetNode "gw-1" sample_store = (x, Ok node) /\ authorized sample_peer node.
Proof.
  pose proof (renewal_is_current sample_peer "gw-1" (bytes_of "csr") (fresh_session []) (fst sample_renewal) (Ok tt) (bytes_of "csr")) as H.
  destruct (H ltac:(vm_compute; reflexivity) ltac:(vm_compute; left)) as (_ & _ & Hr & _).
  exact Hr.
Defined.

Definition two_streams : list handler_step := [Opens "gw-1"; Opens "gw-2"; Opens "gw-1"; Dropped 2].
Lemma newest_stream_wins_witness : 3 = 3 /\ 1 ∈ cancelled (w_registry (reached 1 (newChangeBus 0 0 0) two_streams)).
Proof.
  split; [|apply (bool_decide_unpack _); vm_compute; exact I].
  apply (newest_stream_wins 1 (newChangeBus 0 0 0) two_streams 3 3 "gw-1"); [vm_compute; reflexivity.. | |]; apply (bool_decide_unpack _); vm_compute; exact I.
Defined.

Lemma security_closes_witness : 3 ∈ cancelled (w_registry (reached 1 (newChangeBus 0 0 0) (two_streams ++ [SecurityAction "gw-1"]))).
Proof. apply (security_closes 1 (newChangeBus 0 0 0) two_streams 3 "gw-1"). vm_compute. reflexivity. Defined.

Definition dropped_run := open_stream true sample_peer sample_hello [] [] (fresh_session [false]).
Lemma lost_leadership_leaves_stream_witness : streams (ss_reg (fst dropped_run)) !! "gw-1" = Some 1.
Proof.
  exact (proj1 (lost_leadership_leaves_stream sample_peer sample_hello [] [] (fresh_session [false]) (fst dropped_run) (snd dropped_run) []
                  (surjective_pairing _) eq_refl ltac:(vm_compute; reflexivity) eq_refl)).
Defined.

Lemma racing_streams_lose_capabilities_witness : exists g', streams g' !! "gw-1" = Some 2 /\ snd (NodeCapabilities "gw-1" (reg_bus g')) = Ok [].
Proof.
  destruct (racing_streams_lose_capabilities "gw-1" ["runtime-control-v1"] ["runtime-control-v1"] sample_registry eq_refl eq_refl) as (g' & _ & Hs & _ & Hc).
  exists g'. split; [exact Hs | exact Hc].
Defined.
