(* ===== verification/Release.v ===== *)
(** * Releases (src/internal/update: release.go, manifest.go, archive.go)

    Finding the latest stable release, checking its signed manifest, downloading an
    archive and taking the executable out of it.  What a server answers to the n-th
    request is given by the function [serve]; URLs, JSON, signatures and archive formats are
    parsed by the Go library and are parameters. *)
From S2P Require Import Prelude GoStd Effects Datagram Files Json Replacement.

(** ** Versions *)
Record Version := MkVersion { Major : Z; Minor : Z; Patch : Z; RC : Z; Prerelease : bool }.

Fixpoint span_digits (l : bytes) : bytes * bytes :=
  match l with
  | c :: l' => if is_digit c then let '(d, rest) := span_digits l' in (c :: d, rest) else ([], l)
  | [] => ([], [])
  end.

(** A non-empty run of digits. *)
Definition number (l : bytes) : option (bytes * bytes) :=
  let '(d, rest) := span_digits l in match d with [] => None | _ => Some (d, rest) end.

Definition literal (text : string) (l : bytes) : option bytes :=
  let p := bytes_of text in
  if bool_decide (firstn (List.length p) l = p) then Some (skipn (List.length p) l) else None.

(** [^(\d+)\.(\d+)\.(\d+)(?:-rc\.(\d+))?$] *)
Definition releaseVersionPattern (l : bytes) : option (bytes * bytes * bytes * option bytes) :=
  '(a, l) ← number l; l ← literal "." l;
  '(b, l) ← number l; l ← literal "." l;
  '(c, l) ← number l;
  match l with
  | [] => Some (a, b, c, None)
  | _ => l ← literal "-rc." l; '(d, l) ← number l; match l with [] => Some (a, b, c, Some d) | _ => None end
  end.

(** [strconv.Atoi] of digits with its error dropped: the largest [int] when out of range. *)
Definition int_of (digits : bytes) : Z := Z.min (default 0 (strconv.digits_value digits 0)) (2 ^ 63 - 1).

Definition ParseVersion (value : string) : result Version :=
  let value := strings.TrimSpace (strings.TrimPrefix value "v") in
  match releaseVersionPattern (bytes_of value) with
  | None => Err (EFmt "invalid release version %q" [AStr value])
  | Some (a, b, c, None) => Ok (MkVersion (int_of a) (int_of b) (int_of c) 0 false)
  | Some (a, b, c, Some d) => Ok (MkVersion (int_of a) (int_of b) (int_of c) (int_of d) true)
  end.

Fixpoint compare_pairs (pairs : list (Z * Z)) : option Z :=
  match pairs with
  | [] => None
  | (x, y) :: pairs => if x <? y then Some (-1) else if x >? y then Some 1 else compare_pairs pairs
  end.

Definition compare_parsed (a b : Version) : Z :=
  match compare_pairs [(Major a, Major b); (Minor a, Minor b); (Patch a, Patch b)] with
  | Some c => c
  | None =>
      if negb (Bool.eqb (Prerelease a) (Prerelease b)) then (if Prerelease a then -1 else 1)
      else if RC a <? RC b then -1 else if RC a >? RC b then 1 else 0
  end.

Definition CompareVersions (left right : string) : result Z :=
  a ← ParseVersion left; b ← ParseVersion right; Ok (compare_parsed a b).

Definition IsStable (value : string) : bool :=
  match ParseVersion value with Ok v => negb (Prerelease v) | Err _ => false end.

Definition ArchiveName (version goos goarch : string) : string :=
  "asterferry_" +:+ strings.TrimPrefix version "v" +:+ "_" +:+ goos +:+ "_" +:+ goarch +:+ "."
  +:+ (if String.eqb goos "windows" then "zip" else "tar.gz").

(** ** Names and URLs *)
Definition name_byte (c : ascii) : bool := Ascii.eqb c "." || Ascii.eqb c "_" || Ascii.eqb c "-" || is_alnum c.

Definition safeAssetName (value : string) : bool :=
  if String.eqb value "" || negb (String.eqb (filepath.Base value) value) || strings.ContainsAny value ["\"; "/"; "000"; "013"; "010"]%char then false
  else forallb name_byte (bytes_of value).

Definition safeArchivePath (value : string) : bool :=
  let value := strings.TrimSpace value in
  if String.eqb value "" || strings.ContainsAny value ["\"; "000"; "013"; "010"]%char || strings.HasPrefix value "/" || strings.HasPrefix value "\" then false
  else
    let clean := filepath.Clean value in
    negb (String.eqb clean ".") && negb (String.eqb clean "..") && negb (strings.HasPrefix clean "../").

Record url := MkURL { URL_Scheme : string; URL_Host : string; URL_User : bool; URL_RawQuery : string; URL_Fragment : string }.

(** [url.Parse]. *)
Class NetURL := { url_parse : string -> result url }.

Definition safeHTTPSURL `{!NetURL} (value : string) : bool :=
  match url_parse (strings.TrimSpace value) with
  | Ok u => String.eqb (URL_Scheme u) "https" && negb (String.eqb (URL_Host u) "") && negb (URL_User u) && String.eqb (URL_RawQuery u) ""
            && String.eqb (URL_Fragment u) ""
  | Err _ => false
  end.

(** ** The signed manifest *)
Record ReleaseArtifact := MkArtifact { Artifact_Name : string; Artifact_SHA256 : string }.
Record ReleaseManifest := MkManifest {
  Manifest_SchemaVersion : Z; Manifest_Version : string; Manifest_Tag : string; Manifest_Commit : string; Manifest_Protocol : string;
  Manifest_OptionalResources : option bytes; Manifest_Artifacts : list ReleaseArtifact
}.
Definition releaseManifestSchemaVersion : Z := 1.
Definition no_manifest := MkManifest 0 "" "" "" "" None [].

Section Manifest.
Context `{UN : !Unicode}.

Fixpoint check_artifacts (seen : gset string) (artifacts : list ReleaseArtifact) : result unit :=
  match artifacts with
  | [] => Ok tt
  | a :: artifacts =>
      _ ← reject_if (negb (safeAssetName (Artifact_Name a))) (EFmt "release manifest artifact name %q is invalid" [AStr (Artifact_Name a)]);
      _ ← reject_if (bool_decide (Artifact_Name a ∈ seen)) (EFmt "release manifest contains duplicate artifact %q" [AStr (Artifact_Name a)]);
      _ ← reject_if (negb (isSHA256 (normalizeSHA256 (Artifact_SHA256 a))))
            (EFmt "release manifest artifact %q has an invalid SHA256 digest" [AStr (Artifact_Name a)]);
      check_artifacts ({[Artifact_Name a]} ∪ seen) artifacts
  end.

Definition Manifest_Validate (m : ReleaseManifest) : result unit :=
  _ ← reject_if (negb (Manifest_SchemaVersion m =? releaseManifestSchemaVersion))
        (EFmt "release manifest schema version %d is unsupported" [AInt (Manifest_SchemaVersion m)]);
  let version := strings.TrimSpace (strings.TrimPrefix (Manifest_Version m) "v") in
  _ ← reject_if (negb (String.eqb version (Manifest_Version m)) || negb (IsStable version))
        (EFmt "release manifest version %q is not a stable release" [AStr (Manifest_Version m)]);
  _ ← reject_if (negb (String.eqb (Manifest_Tag m) ("v" +:+ version)))
        (EFmt "release manifest tag %q does not match version %q" [AStr (Manifest_Tag m); AStr (Manifest_Version m)]);
  _ ← reject_if (blank (Manifest_Commit m) || strings.ContainsAny (Manifest_Commit m) nul_cr_lf) (ENew "release manifest commit is invalid");
  _ ← reject_if (llen (Manifest_Artifacts m) =? 0) (ENew "release manifest contains no artifacts");
  check_artifacts ∅ (Manifest_Artifacts m).

Fixpoint find_artifact (name : string) (artifacts : list ReleaseArtifact) : option ReleaseArtifact :=
  match artifacts with [] => None | a :: artifacts => if String.eqb (Artifact_Name a) name then Some a else find_artifact name artifacts end.

Definition Manifest_Checksum (m : ReleaseManifest) (name : string) : result string :=
  match find_artifact name (Manifest_Artifacts m) with
  | Some a => Ok (normalizeSHA256 (Artifact_SHA256 a))
  | None => Err (EFmt "signed release manifest does not contain artifact %q" [AStr name])
  end.
End Manifest.

(** ** Signatures: PEM, PKIX, base64 and ECDSA of the Go library *)
Record pem := MkPEM { pem_type : string; pem_bytes : bytes; pem_rest : bytes }.
(** A public key: its curve, or [None] for a key that is not ECDSA. *)
Record public_key := MkPublicKey { key_curve : option string; key_bytes : bytes }.

Class Signatures := {
  pem_decode : bytes -> option pem;
  parse_pkix : bytes -> result public_key;
  base64_decode : string -> result bytes;
  verify_asn1 : bytes -> bytes -> bytes -> bool   (* key, digest, signature *)
}.

Definition NewCosignBlobVerifier `{!Signatures} (publicKeyPEM : bytes) : result public_key :=
  match pem_decode publicKeyPEM with
  | None => Err (ENew "release public key is not a single PEM block")
  | Some block =>
      _ ← reject_if (negb (blank (of_bytes (pem_rest block)))) (ENew "release public key is not a single PEM block");
      _ ← reject_if (negb (String.eqb (pem_type block) "PUBLIC KEY")) (EFmt "unsupported release public key PEM type %q" [AStr (pem_type block)]);
      key ← map_err (EWrap "parse release public key: %w" []) (parse_pkix (pem_bytes block));
      match key_curve key with
      | None => Err (EFmt "unsupported release public key type %T" [])
      | Some curve => _ ← reject_if (negb (String.eqb curve "P-256")) (ENew "release public key must use the ECDSA P-256 curve"); Ok key
      end
  end.

Definition Cosign_Verify `{!Signatures, !Crypto} (key : public_key) (payload signature : bytes) : result unit :=
  let encoded := strings.TrimSpace (of_bytes signature) in
  _ ← reject_if (String.eqb encoded "") (ENew "release signature is empty");
  decoded ← map_err (EWrap "decode release signature: %w" []) (base64_decode encoded);
  reject_if (negb (verify_asn1 (key_bytes key) (sha256 payload) decoded)) (ENew "release ECDSA P-256 signature verification failed").

(** ** The release server *)
(** [Body] up to the end of the response, or up to where reading it fails. *)
Record response := MkResponse { StatusCode : Z; Body : bytes; BodyErr : option error }.

Definition http_status (what : string) : error := EFmt what [].

(** [io.ReadAll(io.LimitReader(body, limit))], also of a copy to its end. *)
Definition read_limited (r : response) (limit : Z) : bytes * option error :=
  if llen (Body r) >=? limit then (firstn (Z.to_nat limit) (Body r), None) else (Body r, BodyErr r).

Record Asset := MkAsset { Asset_Name : string; Asset_URL : string }.

Record Release := MkRelease {
  Release_Version : string; Release_Tag : string; Release_PublishedAt : Z; Release_URL : string;
  Release_ManifestURL : string; Release_ManifestSignatureURL : string; Release_Manifest : ReleaseManifest; Release_ManifestVerified : bool;
  Release_Assets : gmap string Asset; Release_Checksums : gmap string string
}.

(** One element of the answer of the releases API. *)
Record release_entry := MkEntry {
  Entry_TagName : string; Entry_Draft : bool; Entry_Prerelease : bool; Entry_HTMLURL : string; Entry_PublishedAt : string;
  Entry_Assets : list (string * string)
}.

(** [json.NewDecoder(body).Decode] into the entries, and [time.Parse(time.RFC3339, s)]. *)
Class ReleaseFormat := {
  decode_entries : bytes -> option error -> result (list release_entry);
  decode_manifest : bytes -> result ReleaseManifest;
  parse_rfc3339 : string -> option Z
}.

Record Client := MkClient {
  Client_Repository : string; Client_APIBaseURL : string;
  Client_ManifestVerifier : option (bytes -> bytes -> result unit)
}.

Definition DefaultRepository := "eternallyzzz/asterferry".
Definition NewGitHubClient (repository : string) : Client :=
  MkClient (if blank repository then DefaultRepository else repository) "" None.

Section Assets.
Context `{UN : !Unicode}.

Definition Release_Asset (r : Release) (name : string) : result Asset :=
  match Release_Assets r !! name with
  | Some asset => if blank (Asset_URL asset) then Err (EFmt "release %s does not contain asset %q" [AStr (Release_Version r); AStr name]) else Ok asset
  | None => Err (EFmt "release %s does not contain asset %q" [AStr (Release_Version r); AStr name])
  end.

Definition Release_Checksum (r : Release) (name : string) : result string :=
  let checksum := normalizeSHA256 (default "" (Release_Checksums r !! name)) in
  _ ← reject_if (negb (slen checksum =? 64)) (EFmt "release %s does not contain a SHA256 checksum for %q" [AStr (Release_Version r); AStr name]);
  _ ← reject_if (negb (forallb is_hex (bytes_of checksum))) (EFmt "release %s contains an invalid SHA256 checksum for %q" [AStr (Release_Version r); AStr name]);
  Ok checksum.
End Assets.

(** *** Lines and fields *)
(** [bufio.Scanner]: the lines without their ends, unless one does not fit in its buffer. *)
Definition maxTokenSize : Z := 64 * 1024.
Definition ErrTooLong : error := ENew "bufio.Scanner: token too long".

Definition drop_cr (line : bytes) : bytes := match rev line with "013"%char :: rest => rev rest | _ => line end.

Definition scan_lines (data : bytes) : result (list bytes) :=
  let pieces := strings.split_bytes data "010" [] in
  let pieces := match last pieces with Some [] => removelast pieces | _ => pieces end in
  if existsb (fun line => llen line >=? maxTokenSize) pieces then Err ErrTooLong else Ok (drop_cr <$> pieces).

(** [strings.Fields]; [cur] is the field so far, reversed. *)
Definition flush (cur : bytes) (rest : list bytes) : list bytes := match cur with [] => rest | _ => rev cur :: rest end.

Fixpoint fields_bytes (l cur : bytes) : list bytes :=
  match l with
  | [] => flush cur []
  | a :: l1 =>
      if strings.space1 a then flush cur (fields_bytes l1 []) else
      match l1 with
      | [] => flush (a :: cur) []
      | b :: l2 =>
          if strings.space2 a b then flush cur (fields_bytes l2 []) else
          match l2 with
          | c :: l3 => if strings.space3 a b c then flush cur (fields_bytes l3 []) else fields_bytes l1 (a :: cur)
          | [] => fields_bytes l1 (a :: cur)
          end
      end
  end.
Definition Fields (line : bytes) : list string := of_bytes <$> fields_bytes line [].

Section Server.
Context `{UN : !Unicode, NU : !NetURL, SG : !Signatures, CR : !Crypto, RF : !ReleaseFormat, SS : !SliceSort}.
Context (serve : nat -> string -> result response) (releasePublicKey : bytes).

(** *** Checksums *)
Definition checksum_line (checksums : gmap string string) (line : bytes) : gmap string string :=
  match Fields line with
  | [digest; name] =>
      if negb (slen digest =? 64) || negb (forallb is_hex (bytes_of digest)) then checksums else
      let name := strings.TrimPrefix name "*" in
      if safeAssetName name then <[name := to_lower digest]> checksums else checksums
  | _ => checksums
  end.

Definition fetchChecksums (n : nat) (assetURL : string) : result (gmap string string) :=
  _ ← reject_if (negb (safeHTTPSURL assetURL)) (ENew "release checksum URL must use HTTPS");
  response ← map_err (EWrap "download release checksums: %w" []) (serve n assetURL);
  _ ← reject_if (negb (StatusCode response =? 200)) (http_status "download release checksums: HTTP %s");
  let '(data, readErr) := read_limited response (2 ^ 20) in
  lines ← map_err (EWrap "read release checksums: %w" []) (scan_lines data);
  _ ← (match readErr with Some e => Err (EWrap "read release checksums: %w" [] e) | None => Ok tt end);
  let checksums := foldl checksum_line ∅ lines in
  _ ← reject_if (bool_decide (checksums = ∅)) (ENew "release checksum file contains no valid entries");
  Ok checksums.

(** *** The manifest *)
Definition fetchReleaseBytes (n : nat) (assetURL : string) (limit : Z) : result bytes :=
  response ← serve n assetURL;
  _ ← reject_if (negb (StatusCode response =? 200)) (http_status "HTTP %s");
  let '(data, readErr) := read_limited response (limit + 1) in
  match readErr with
  | Some e => Err e
  | None => _ ← reject_if (llen data >? limit) (ENew "release metadata exceeds size limit"); Ok data
  end.

Definition defaultManifestVerifier : result (bytes -> bytes -> result unit) :=
  key ← NewCosignBlobVerifier releasePublicKey; Ok (Cosign_Verify key).

Definition check_expected (manifest : ReleaseManifest) (expectedVersion expectedAssetName expectedChecksum : string) : result unit :=
  _ ← reject_if (negb (String.eqb expectedVersion "")
                 && negb (String.eqb (strings.TrimPrefix (strings.TrimSpace expectedVersion) "v") (strings.TrimPrefix (Manifest_Version manifest) "v")))
        (EFmt "signed release manifest version %q does not match expected version %q" [AStr (Manifest_Version manifest); AStr expectedVersion]);
  if String.eqb expectedAssetName "" then Ok tt else
  digest ← Manifest_Checksum manifest expectedAssetName;
  reject_if (negb (String.eqb expectedChecksum "") && negb (strings.equal_fold_hex (strings.TrimSpace expectedChecksum) digest))
    (EFmt "signed release manifest checksum does not match %q" [AStr expectedAssetName]).

(** The manifest is request [n], its signature request [n + 1]. *)
Definition VerifyReleaseManifest (c : Client) (n : nat) (manifestURL signatureURL expectedVersion expectedAssetName expectedChecksum : string) : result ReleaseManifest :=
  _ ← reject_if (negb (safeHTTPSURL manifestURL) || negb (safeHTTPSURL signatureURL)) (ENew "signed release manifest URLs must use HTTPS");
  manifestBytes ← map_err (EWrap "download signed release manifest: %w" []) (fetchReleaseBytes n manifestURL (2 ^ 20));
  signatureBytes ← map_err (EWrap "download release manifest signature: %w" []) (fetchReleaseBytes (S n) signatureURL (64 * 2 ^ 10));
  verifier ← (match Client_ManifestVerifier c with Some v => Ok v | None => defaultManifestVerifier end);
  _ ← map_err (EWrap "verify release manifest signature: %w" []) (verifier manifestBytes signatureBytes);
  manifest ← map_err (EWrap "decode release manifest: %w" []) (decode_manifest manifestBytes);
  _ ← Manifest_Validate manifest;
  _ ← check_expected manifest expectedVersion expectedAssetName expectedChecksum;
  Ok manifest.

(** *** The latest stable release *)
Definition repository_byte (c : ascii) : bool := name_byte c.
(** [^[A-Za-z0-9_.-]+/[A-Za-z0-9_.-]+$] *)
Definition valid_repository (repository : string) : bool :=
  match strings.Split repository "/" with
  | [owner; name] => negb (String.eqb owner "") && negb (String.eqb name "") && forallb repository_byte (bytes_of owner) && forallb repository_byte (bytes_of name)
  | _ => false
  end.

Definition TrimRight (s : string) (c : ascii) : string := of_bytes (rev (strings.strip_set [c] (rev (bytes_of s)))).

Definition base_url (c : Client) : string :=
  let baseURL := TrimRight (strings.TrimSpace (Client_APIBaseURL c)) "/" in
  if String.eqb baseURL "" then "https://api.github.com" else baseURL.

Definition valid_base (c : Client) : bool :=
  match url_parse (base_url c) with
  | Ok u => negb (String.eqb (URL_Host u) "") && (String.eqb (URL_Scheme u) "https" || String.eqb (Client_APIBaseURL c) "")
  | Err _ => false
  end.

Definition entry_asset (assets : gmap string Asset) (candidate : string * string) : gmap string Asset :=
  let '(name, address) := candidate in
  if negb (safeAssetName name) || negb (safeHTTPSURL address) then assets else <[name := MkAsset name address]> assets.

Definition entry_release (entry : release_entry) : option Release :=
  let version := strings.TrimPrefix (strings.TrimSpace (Entry_TagName entry)) "v" in
  if Entry_Draft entry || Entry_Prerelease entry || negb (IsStable version) then None else
  publishedAt ← (if blank (Entry_PublishedAt entry) then Some 0 else parse_rfc3339 (Entry_PublishedAt entry));
  Some (MkRelease version (Entry_TagName entry) publishedAt (Entry_HTMLURL entry) "" "" no_manifest false
          (foldl entry_asset ∅ (Entry_Assets entry)) ∅).

(** The order of the candidates: the newest first. *)
Definition newer (a b : Release) : bool :=
  match CompareVersions (Release_Version a) (Release_Version b) with Ok c => c >? 0 | Err _ => false end.

Fixpoint match_checksums (manifest : ReleaseManifest) (checksums : gmap string string) (artifacts : list ReleaseArtifact) (matched : gmap string string) : result (gmap string string) :=
  match artifacts with
  | [] => Ok matched
  | a :: artifacts =>
      digest ← Manifest_Checksum manifest (Artifact_Name a);
      match checksums !! Artifact_Name a with
      | Some checksum =>
          if strings.equal_fold_hex (strings.TrimSpace checksum) digest
          then match_checksums manifest checksums artifacts (<[Artifact_Name a := digest]> matched)
          else Err (EFmt "SHA256SUMS does not match signed release manifest for %q" [AStr (Artifact_Name a)])
      | None => Err (EFmt "SHA256SUMS does not match signed release manifest for %q" [AStr (Artifact_Name a)])
      end
  end.

Definition complete_release (c : Client) (latest : Release) : result Release :=
  checksumsAsset ← Release_Asset latest "SHA256SUMS";
  manifestAsset ← Release_Asset latest "release-manifest.json";
  signatureAsset ← Release_Asset latest "release-manifest.json.sig";
  checksums ← fetchChecksums 1 (Asset_URL checksumsAsset);
  manifest ← VerifyReleaseManifest c 2 (Asset_URL manifestAsset) (Asset_URL signatureAsset) (Release_Version latest) "" "";
  manifestChecksums ← match_checksums manifest checksums (Manifest_Artifacts manifest) ∅;
  Ok (MkRelease (Release_Version latest) (Release_Tag latest) (Release_PublishedAt latest) (Release_URL latest)
        (Asset_URL manifestAsset) (Asset_URL signatureAsset) manifest true (Release_Assets latest) manifestChecksums).

Definition LatestStable (c : Client) : result Release :=
  let repository := strings.TrimSpace (Client_Repository c) in
  _ ← reject_if (negb (valid_repository repository)) (ENew "GitHub repository is invalid");
  _ ← reject_if (negb (valid_base c)) (ENew "GitHub API base URL must use HTTPS");
  response ← map_err (EWrap "query GitHub releases: %w" []) (serve 0 (base_url c +:+ "/repos/" +:+ repository +:+ "/releases?per_page=100"));
  _ ← reject_if (negb (StatusCode response =? 200)) (http_status "query GitHub releases: HTTP %s: %s");
  entries ← map_err (EWrap "decode GitHub releases: %w" []) (decode_entries (Body response) (BodyErr response));
  match sort_slice newer (omap entry_release entries) with
  | [] => Err (ENew "no published stable GitHub release was found")
  | latest :: _ => complete_release c latest
  end.

(** ** Downloading *)
Context `{TN : !TempNames}.

Definition download_limit : Z := 512 * 2 ^ 20.

(** The body goes to the file and to the hash as it is read. *)
Definition save_body (temporaryPath : string) (r : response) : IO bytes :=
  let '(data, readErr) := read_limited r download_limit in
  _ ← os.Write temporaryPath data;
  match readErr with Some e => fail e | None => mret data end.

Definition Download (reply : result response) (asset : Asset) (destination expectedChecksum : string) : IO unit :=
  _ ← lift (reject_if (negb (safeAssetName (Asset_Name asset)) || negb (safeHTTPSURL (Asset_URL asset))) (ENew "release asset URL or name is invalid"));
  let expectedChecksum := normalizeSHA256 expectedChecksum in
  _ ← lift (reject_if (negb (isSHA256 expectedChecksum)) (ENew "release asset checksum is invalid"));
  _ ← os.MkdirAll destination;
  temporaryPath ← CreateTemp destination ".asterferry-download-*";
  finally (
    reply ← try (lift reply);
    match reply with
    | Err e => _ ← try (os.Close temporaryPath); fail e
    | Ok response =>
        if negb (StatusCode response =? 200) then _ ← try (os.Close temporaryPath); fail (EFmt "download %s: HTTP %s" [AStr (Asset_Name asset)]) else
        data ← on_error (save_body temporaryPath response) (os.Close temporaryPath);
        _ ← os.Close temporaryPath;
        _ ← lift (reject_if (negb (String.eqb (digest_of data) expectedChecksum)) (EFmt "release checksum verification failed for %s" [AStr (Asset_Name asset)]));
        _ ← os.Chmod temporaryPath;
        os.Rename temporaryPath destination
    end) (os.Remove temporaryPath).
End Server.

(** ** Archives (archive.go) *)
(** The contents of an entry as reading it gives them. *)
Record contents := MkContents { c_data : bytes; c_err : option error }.
Record zip_entry := MkZipEntry { zip_name : string; zip_dir : bool; zip_open : result contents }.
Record tar_header := MkTarHeader { tar_name : string; tar_type : ascii; tar_size : Z; tar_data : contents }.
Definition TypeReg : ascii := "0".
Definition TypeDir : ascii := "5".

(** What the readers of the library find in a file: a tar reader ends with a header that it
    cannot read, or at the end. *)
Class Archives := {
  zip_entries : bytes -> result (list zip_entry);
  gzip_tar : bytes -> result (list (result tar_header))
}.

Section Extract.
Context `{UN : !Unicode, TN : !TempNames, AR : !Archives}.

Definition extract_limit : Z := 512 * 2 ^ 20.

(** [io.Copy(destination, io.LimitReader(reader, limit))] *)
Definition copy_limited (destination : string) (c : contents) (limit : Z) : IO unit :=
  let '(data, err) := if llen (c_data c) >=? limit then (firstn (Z.to_nat limit) (c_data c), None) else (c_data c, c_err c) in
  _ ← os.Write destination data;
  match err with Some e => fail e | None => mret tt end.

Definition unsafe_path (name : string) : error := EFmt "release archive contains unsafe path %q" [AStr name].
Definition no_binary (binaryName : string) : error := EFmt "release archive does not contain %s" [AStr binaryName].

Fixpoint extract_entries (destination binaryName : string) (entries : list zip_entry) : IO unit :=
  match entries with
  | [] => fail (no_binary binaryName)
  | entry :: entries =>
      if negb (safeArchivePath (zip_name entry)) then fail (unsafe_path (zip_name entry)) else
      if negb (String.eqb (filepath.Base (zip_name entry)) binaryName) || zip_dir entry then extract_entries destination binaryName entries else
      reader ← lift (zip_open entry);
      copy_limited destination reader extract_limit
  end.

Definition extractZip (path destination binaryName : string) : IO unit :=
  data ← os.ReadFile path;
  entries ← lift (zip_entries data);
  extract_entries destination binaryName entries.

Fixpoint extract_headers (destination binaryName : string) (headers : list (result tar_header)) : IO unit :=
  match headers with
  | [] => fail (no_binary binaryName)
  | Err e :: _ => fail e
  | Ok header :: headers =>
      if negb (safeArchivePath (tar_name header)) then fail (unsafe_path (tar_name header)) else
      if negb (String.eqb (filepath.Base (tar_name header)) binaryName) || Ascii.eqb (tar_type header) TypeDir then extract_headers destination binaryName headers else
      _ ← lift (reject_if (negb (Ascii.eqb (tar_type header) TypeReg)) (EFmt "release archive binary %s is not a regular file" [AStr binaryName]));
      _ ← lift (reject_if ((tar_size header <? 0) || (tar_size header >? extract_limit)) (ENew "release archive binary is too large"));
      copy_limited destination (tar_data header) (tar_size header)
  end.

Definition extractTarGz (path destination binaryName : string) : IO unit :=
  data ← os.ReadFile path;
  headers ← lift (gzip_tar data);
  extract_headers destination binaryName headers.

Definition extract_any (archivePath temporaryPath binaryName : string) : IO unit :=
  if strings.HasSuffix (to_lower archivePath) ".zip" then extractZip archivePath temporaryPath binaryName
  else if strings.HasSuffix (to_lower archivePath) ".tar.gz" then extractTarGz archivePath temporaryPath binaryName
  else fail (ENew "unsupported release archive format").

Definition ExtractBinary (archivePath destination binaryName : string) : IO unit :=
  _ ← lift (reject_if (blank archivePath || blank destination) (ENew "archive and destination are required"));
  _ ← lift (reject_if (negb (safeAssetName binaryName) || negb (String.eqb (filepath.Base binaryName) binaryName)) (ENew "binary name is invalid"));
  _ ← os.MkdirAll destination;
  temporaryPath ← CreateTemp destination ".asterferry-extract-*";
  finally (
    _ ← on_error (os.Chmod temporaryPath) (os.Close temporaryPath);
    r ← try (extract_any archivePath temporaryPath binaryName);
    c ← try (os.Close temporaryPath);
    _ ← lift r;
    _ ← lift c;
    _ ← os.Chmod temporaryPath;
    os.Rename temporaryPath destination) (os.Remove temporaryPath).
End Extract.
