(* ===== verification/ReleaseFacts.v ===== *)
(** * Facts about releases

    The order of versions, names and paths that cannot leave a directory, what a verified
    release is, and that downloading and extracting put only verified or named contents
    into place and touch no other file, wherever the process stops. *)
From S2P Require Import Prelude GoStd Effects Domain Checksum Validation Snapshot Samples SnapshotFacts Datagram Files FilesFacts Json Replacement Release.

(** ** Versions *)
(** The key by which versions are ordered: a candidate comes before its release. *)
Definition version_key (v : Version) : list Z := [Major v; Minor v; Patch v; if Prerelease v then 0 else 1; RC v].

Fixpoint lexicographic (a b : list Z) : comparison :=
  match a, b with
  | x :: a, y :: b => match Z.compare x y with Eq => lexicographic a b | c => c end
  | [], [] => Eq
  | [], _ => Lt
  | _, [] => Gt
  end.

Definition sign (c : comparison) : Z := match c with Lt => -1 | Eq => 0 | Gt => 1 end.

Lemma step_compare (x y : Z) (rest : Z) c : rest = sign c ->
  (if x <? y then -1 else if x >? y then 1 else rest) = sign (match Z.compare x y with Eq => c | c' => c' end).
Proof. intros ->. rewrite Z.gtb_ltb. unfold Z.ltb. rewrite (Z.compare_antisym x y). by destruct (x ?= y). Qed.

Lemma compare_parsed_lex a b : compare_parsed a b = sign (lexicographic (version_key a) (version_key b)).
Proof.
  unfold compare_parsed, version_key. cbn [compare_pairs lexicographic].
  destruct a as [a1 a2 a3 a4 p], b as [b1 b2 b3 b4 q]. cbn [Major Minor Patch RC Prerelease].
  transitivity (if a1 <? b1 then -1 else if a1 >? b1 then 1 else if a2 <? b2 then -1 else if a2 >? b2 then 1 else if a3 <? b3 then -1 else if a3 >? b3 then 1
     else if negb (Bool.eqb p q) then (if p then -1 else 1) else if a4 <? b4 then -1 else if a4 >? b4 then 1 else 0).
  { by destruct (a1 <? b1), (a1 >? b1), (a2 <? b2), (a2 >? b2), (a3 <? b3), (a3 >? b3). }
  do 3 apply step_compare. destruct p, q; cbn; try done; (rewrite (step_compare a4 b4 0 Eq) by done; by destruct (a4 ?= b4)).
Qed.

Lemma lexicographic_refl l : lexicographic l l = Eq.
Proof. induction l as [|x l IH]; [done|]. cbn. by rewrite Z.compare_refl. Qed.

Lemma lexicographic_antisym a : forall b, lexicographic b a = CompOpp (lexicographic a b).
Proof. induction a as [|x a IH]; intros [|y b]; cbn; try done. rewrite (Z.compare_antisym x y). destruct (x ?= y); [apply IH | done..]. Qed.

Lemma lexicographic_eq a : forall b, lexicographic a b = Eq <-> a = b.
Proof.
  induction a as [|x a IH]; intros [|y b]; cbn; try done. destruct (Z.compare_spec x y) as [->|H|H].
  - rewrite IH. split; congruence.
  - split; [done | intros [= -> _]; lia].
  - split; [done | intros [= -> _]; lia].
Qed.

Lemma lexicographic_trans a : forall b c, lexicographic a b = Lt -> lexicographic b c = Lt -> lexicographic a c = Lt.
Proof.
  induction a as [|x a IH]; intros [|y b] [|z c]; cbn; try done.
  destruct (Z.compare_spec x y), (Z.compare_spec y z), (Z.compare_spec x z); try done; try lia; subst. apply IH.
Qed.

(** Comparing two versions is comparing their numbers from left to right, a release
    candidate below its release: a total order on the versions that parse, with 0 exactly
    for equal ones, opposite signs for swapped arguments, and no cycles. *)
Theorem CompareVersions_order x y z a b c : ParseVersion x = Ok a -> ParseVersion y = Ok b -> ParseVersion z = Ok c ->
  (exists n, CompareVersions x y = Ok n /\ CompareVersions y x = Ok (- n)
     /\ n = sign (lexicographic (version_key a) (version_key b)) /\ (n = 0 <-> version_key a = version_key b))
  /\ (CompareVersions x y = Ok (-1) -> CompareVersions y z = Ok (-1) -> CompareVersions x z = Ok (-1)).
Proof.
  intros Hx Hy Hz. unfold CompareVersions. rewrite Hx, Hy, Hz. cbn [mbind result_bind]. rewrite !compare_parsed_lex. split.
  - eexists. split; [done|]. rewrite (lexicographic_antisym (version_key a) (version_key b)), <-lexicographic_eq.
    destruct (lexicographic (version_key a) (version_key b)); cbn; done.
  - generalize (version_key a) (version_key b) (version_key c). intros ka kb kc H1 H2.
    destruct (lexicographic ka kb) eqn:E1; try done. destruct (lexicographic kb kc) eqn:E2; try done. by rewrite (lexicographic_trans _ _ _ E1 E2).
Qed.

(** What the program prints for a version. *)
Definition print_version (v : Version) : string :=
  strconv.Itoa (Major v) +:+ "." +:+ strconv.Itoa (Minor v) +:+ "." +:+ strconv.Itoa (Patch v)
  +:+ (if Prerelease v then "-rc." +:+ strconv.Itoa (RC v) else "").

Definition in_int (z : Z) : Prop := 0 <= z < 2 ^ 63.
Definition proper (v : Version) : Prop :=
  in_int (Major v) /\ in_int (Minor v) /\ in_int (Patch v) /\ in_int (RC v) /\ (Prerelease v = false -> RC v = 0).

Lemma span_digits_app d rest : forallb is_digit d = true -> match rest with c :: _ => is_digit c = false | [] => True end -> span_digits (d ++ rest) = (d, rest).
Proof.
  induction d as [|c d IH]; intros Hd Hr; cbn in *; [destruct rest as [|c rest]; [done | cbn; by rewrite Hr]|].
  apply andb_true_iff in Hd as [Hc Hd]. by rewrite Hc, IH.
Qed.

Lemma number_Itoa z rest : 0 <= z -> match rest with c :: _ => is_digit c = false | [] => True end ->
  number (bytes_of (strconv.Itoa z) ++ rest) = Some (bytes_of (strconv.Itoa z), rest).
Proof.
  intros Hz Hr. destruct (strconv.Itoa_digits z Hz) as (Hd & Hn & _). unfold number. rewrite span_digits_app by done.
  by destruct (bytes_of (strconv.Itoa z)).
Qed.

Lemma literal_app text rest : literal text (bytes_of text ++ rest) = Some rest.
Proof. unfold literal. rewrite take_app_length, drop_app_length. by rewrite bool_decide_eq_true_2. Qed.

Lemma int_of_Itoa z : in_int z -> int_of (bytes_of (strconv.Itoa z)) = z.
Proof. intros Hz. destruct (strconv.Itoa_digits z ltac:(unfold in_int in Hz; lia)) as (_ & _ & Hv). unfold int_of. rewrite Hv. change (Z.min z (2 ^ 63 - 1) = z). unfold in_int in Hz. lia. Qed.

Lemma digits_solid l : forallb is_digit l = true -> Forall solid l.
Proof.
  intros H. apply Forall_forall. intros c Hc. rewrite forallb_forall in H. specialize (H c ltac:(by apply list_elem_of_In)).
  unfold is_digit, in_byte_range in H. unfold solid, strings.space1, in_byte_range. apply andb_true_iff in H as [H1%Z.leb_le H2%Z.leb_le].
  split; [lia|]. apply orb_false_iff. split; [apply andb_false_iff; right; lia | lia].
Qed.

Lemma version_bytes v : bytes_of (print_version v) =
  bytes_of (strconv.Itoa (Major v)) ++ bytes_of "." ++ bytes_of (strconv.Itoa (Minor v)) ++ bytes_of "." ++ bytes_of (strconv.Itoa (Patch v))
  ++ (if Prerelease v then bytes_of "-rc." ++ bytes_of (strconv.Itoa (RC v)) else []).
Proof. unfold print_version. rewrite !bytes_of_app. by destruct (Prerelease v); rewrite ?bytes_of_app. Qed.

Lemma version_solid v : proper v -> Forall solid (bytes_of (print_version v)).
Proof.
  intros (H1 & H2 & H3 & H4 & _). rewrite version_bytes. unfold in_int in *.
  assert (Hi : forall z, 0 <= z -> Forall solid (bytes_of (strconv.Itoa z))) by (intros z Hz; apply digits_solid; by apply strconv.Itoa_digits).
  repeat apply Forall_app_2; try (apply Hi; lia); [repeat constructor..|].
  destruct (Prerelease v); [apply Forall_app_2; [repeat constructor | apply Hi; lia] | constructor].
Qed.

Lemma pattern_print v : proper v -> releaseVersionPattern (bytes_of (print_version v)) =
  Some (bytes_of (strconv.Itoa (Major v)), bytes_of (strconv.Itoa (Minor v)), bytes_of (strconv.Itoa (Patch v)),
        if Prerelease v then Some (bytes_of (strconv.Itoa (RC v))) else None).
Proof.
  intros (H1 & H2 & H3 & H4 & _). unfold in_int in *. rewrite version_bytes. unfold releaseVersionPattern.
  rewrite number_Itoa by (first [lia | reflexivity]). cbn [mbind option_bind]. rewrite literal_app. cbn [mbind option_bind].
  rewrite number_Itoa by (first [lia | reflexivity]). cbn [mbind option_bind]. rewrite literal_app. cbn [mbind option_bind].
  destruct (Prerelease v).
  - rewrite number_Itoa by (first [lia | reflexivity]). cbn [mbind option_bind].
    change (bytes_of "-rc." ++ ?l) with ("-"%char :: "r"%char :: "c"%char :: "."%char :: l) at 1. cbv iota.
    change ("-"%char :: "r"%char :: "c"%char :: "."%char :: ?l) with (bytes_of "-rc." ++ l). rewrite literal_app. cbn [mbind option_bind].
    rewrite <-(app_nil_r (bytes_of (strconv.Itoa (RC v)))) at 1. rewrite number_Itoa by (first [lia | done]). done.
  - rewrite number_Itoa by (first [lia | done]). done.
Qed.

(** A version that is printed is parsed back to the same numbers, with or without the
    letter v before it. *)
Theorem version_roundtrip v : proper v -> ParseVersion (print_version v) = Ok v /\ ParseVersion ("v" +:+ print_version v) = Ok v.
Proof.
  intros Hv. assert (H : forall s, strings.TrimPrefix s "v" = print_version v -> ParseVersion s = Ok v).
  { intros s Hs. unfold ParseVersion. rewrite Hs, TrimSpace_all_solid by by apply version_solid. rewrite pattern_print by done.
    destruct Hv as (H1 & H2 & H3 & H4 & H5). destruct v as [a b c d p]. cbn in *.
    destruct p; rewrite !int_of_Itoa by done; [done | by rewrite H5]. }
  split; apply H.
  - unfold strings.TrimPrefix, strings.HasPrefix. destruct (print_version v) as [|x s] eqn:E; [done|].
    assert (Hd : is_digit x = true).
    { destruct Hv as [H1 _]. destruct (strconv.Itoa_digits (Major v) ltac:(unfold in_int in H1; lia)) as (Hd & Hn & _).
      pose proof (version_bytes v) as Hb. rewrite E in Hb. destruct (bytes_of (strconv.Itoa (Major v))) as [|y l]; [done|]. injection Hb as -> _.
      by apply andb_true_iff in Hd as [? _]. }
    cbn [String.prefix]. destruct (ascii_dec "v" x) as [<-|]; [done | done].
  - unfold strings.TrimPrefix, strings.HasPrefix, strings.drop.
    change ("v" +:+ print_version v) with (String "v" (print_version v)). generalize (print_version v). intros s.
    change (String.prefix "v" (String "v" s)) with (String.prefix "" s).
    destruct s; cbn; [done | by rewrite string_of_list_ascii_of_string].
Qed.

(** ** Names and paths *)
(** Where a path leads from a directory, given by its elements, the innermost first; the
    root has no parent. *)
Definition walk_step (dir : list string) (element : string) : list string :=
  if String.eqb element "" || String.eqb element "." then dir
  else if String.eqb element ".." then tl dir
  else element :: dir.
Definition walk (dir : list string) (path : string) : list string := foldl walk_step dir (strings.Split path "/").

Definition real_name (element : string) : Prop := element <> "" /\ element <> "." /\ element <> "..".

Lemma tl_drop {A} n : forall l : list A, tl (drop n l) = drop (S n) l.
Proof. induction n as [|n IH]; intros [|x l]; try done. cbn [drop]. apply IH. Qed.

(** What [Clean] has collected of a relative path: names below so many parents. *)
Lemma clean_walk elements : forall names k dir, Forall real_name names ->
  exists names' k', foldl (filepath.clean_step false) (names ++ replicate k "..") elements = names' ++ replicate k' ".."
    /\ Forall real_name names' /\ foldl walk_step (names ++ drop k dir) elements = names' ++ drop k' dir.
Proof.
  induction elements as [|e elements IH]; intros names k dir Hn; cbn [foldl]; [by exists names, k|].
  unfold filepath.clean_step at 2, walk_step at 2. destruct (String.eqb_spec e "") as [->|H1]; [by apply IH|].
  destruct (String.eqb_spec e ".") as [->|H2]; [by apply IH|]. cbn [orb].
  destruct (String.eqb_spec e "..") as [->|H3].
  - destruct names as [|n names]; cbn [app].
    + destruct k as [|k]; cbn [replicate].
      * destruct (IH [] 1%nat dir (Forall_nil_2 _)) as (n' & k' & E1 & Hn' & E2). exists n', k'. split; [exact E1|]. split; [done|].
        rewrite <-E2. by destruct dir.
      * destruct (IH [] (S (S k)) dir (Forall_nil_2 _)) as (n' & k' & E1 & Hn' & E2). exists n', k'. split; [exact E1|]. split; [done|].
        rewrite <-E2. cbn [app]. by rewrite tl_drop.
    + apply Forall_cons in Hn as [(_ & _ & Hd) Hn]. apply String.eqb_neq in Hd. rewrite Hd. cbn [tl]. by apply IH.
  - destruct (IH (e :: names) k dir) as (n' & k' & E1 & Hn' & E2); [by constructor|]. by exists n', k'.
Qed.

Lemma concat_cons x y l : String.concat "/" (x :: y :: l) = x +:+ "/" +:+ String.concat "/" (y :: l).
Proof. reflexivity. Qed.

Lemma rev_replicate {A} n (x : A) : rev (replicate n x) = replicate n x.
Proof. induction n as [|n IH]; [done|]. cbn. by rewrite IH, <-replicate_cons_app. Qed.

(** An archive path that is accepted leads from any directory to a place strictly below
    it, whatever dots and parents it goes through. *)
Theorem safe_path_stays_below value dir : safeArchivePath value = true ->
  exists below, walk dir (strings.TrimSpace value) = below ++ dir /\ below <> [] /\ Forall real_name below.
Proof.
  unfold safeArchivePath. set (v := strings.TrimSpace value). clearbody v.
  destruct (String.eqb v "" || _ || strings.HasPrefix v "/" || _) eqn:Hbad; [done|]. apply orb_false_iff in Hbad as [[_ Hrel]%orb_false_iff _].
  unfold filepath.Clean, filepath.clean_elements. rewrite Hrel. rewrite !andb_true_iff, !negb_true_iff, !String.eqb_neq.
  destruct (clean_walk (strings.Split v "/") [] 0 dir (Forall_nil_2 _)) as (names & k & E & Hn & Hw). cbn [replicate app] in E. change (foldl walk_step dir (strings.Split v "/") = names ++ drop k dir) in Hw.
  rewrite E. unfold walk. rewrite Hw, rev_app_distr, rev_replicate. intros [[Hdot Hdotdot] Hup]. exists names.
  assert (k = 0%nat) as ->.
  { destruct k as [|k]; [done|]. exfalso. revert Hdot Hdotdot Hup. cbn [replicate app].
    destruct (replicate k ".." ++ rev names) as [|x l]; [intros _ H; by destruct H | rewrite concat_cons; generalize (String.concat "/" (x :: l)); by intros [|]]. }
  split; [done|]. split; [|done]. intros ->. cbn in Hdot. done.
Qed.

Lemma before_byte_all c l : c ∉ l -> before_byte c l = l.
Proof.
  induction l as [|x l IH]; intros Hc; [done|]. apply not_elem_of_cons in Hc as [Hx Hc]. cbn. destruct (Ascii.eqb_spec x c) as [->|]; [done | by rewrite IH].
Qed.

Lemma strip_set_none (c : ascii) l : head l <> Some c -> strings.strip_set [c] l = l.
Proof.
  destruct l as [|x l]; [done|]. cbn. intros H. destruct (Ascii.eqb_spec x c) as [->|]; [done | done].
Qed.

Lemma Base_plain value : value <> "" -> "/"%char ∉ bytes_of value -> filepath.Base value = value.
Proof.
  intros Hne Hs. unfold filepath.Base. apply String.eqb_neq in Hne as Hb. rewrite Hb.
  assert (Hr : "/"%char ∉ rev (bytes_of value)) by by rewrite strings.in_rev_iff.
  rewrite strip_set_none by (intros Hh; apply Hr; destruct (rev (bytes_of value)) as [|x l]; [done|]; injection Hh as ->; left).
  rewrite before_byte_all by done. destruct (rev (bytes_of value)) as [|x l] eqn:E.
  - apply (f_equal (@rev ascii)) in E. rewrite rev_involutive in E. destruct value; done.
  - rewrite <-E, rev_involutive. apply string_of_list_ascii_of_string.
Qed.

Lemma name_byte_not c set : name_byte c = true -> forallb (fun d => negb (name_byte d)) set = true -> c ∉ set.
Proof. intros Hc Hset Hin. rewrite forallb_forall in Hset. specialize (Hset c ltac:(by apply list_elem_of_In)). by rewrite Hc in Hset. Qed.

(** The names of assets that are accepted are exactly the non-empty texts of letters,
    digits, dots, underscores and hyphens: no separator, but the two directory names made
    of dots are among them. *)
Theorem safeAssetName_exact value : safeAssetName value = true <-> value <> "" /\ Forall (fun c => name_byte c = true) (bytes_of value).
Proof.
  unfold safeAssetName. split.
  - destruct (String.eqb_spec value "") as [->|Hne]; [done|]. cbn [orb]. destruct (negb _ || _); [done|]. intros H. split; [done|].
    apply Forall_forall. intros c Hc. rewrite forallb_forall in H. apply H. by apply list_elem_of_In.
  - intros [Hne H]. assert (Hset : forall set, forallb (fun d => negb (name_byte d)) set = true -> Forall (fun c => c ∉ set) (bytes_of value)).
    { intros set Hset. eapply Forall_impl; [exact H|]. cbn. intros c Hc. by eapply name_byte_not. }
    rewrite Base_plain; [|done |].
    + rewrite String.eqb_refl. apply String.eqb_neq in Hne as ->. cbn [orb negb]. rewrite (proj2 (ContainsAny_false _ _)).
      2:{ intros c Hc Hin. specialize (Hset ["\"; "/"; "000"; "013"; "010"]%char eq_refl). rewrite Forall_forall in Hset. by apply (Hset c Hin). }
      apply forallb_forall. rewrite Forall_forall in H. intros c Hc. apply H. by apply list_elem_of_In.
    + intros Hin. specialize (Hset ["/"%char] eq_refl). rewrite Forall_forall in Hset. apply (Hset _ Hin). left.
Qed.

(** Two names of directories are accepted as names of files. *)
Example dots_are_asset_names : safeAssetName ".." = true /\ safeAssetName "." = true.
Proof. split; reflexivity. Qed.

(** ** What a verified release is *)
Section ServerFacts.
Context `{UN : !Unicode, NU : !NetURL, SG : !Signatures, CR : !Crypto, RF : !ReleaseFormat, SS : !SliceSort}.
Context (serve : nat -> string -> result response) (releasePublicKey : bytes).

(** The [n]-th request, for a URL of the release, was answered whole with these bytes. *)
Definition fetched (n : nat) (address : string) (limit : Z) (data : bytes) : Prop :=
  safeHTTPSURL address = true /\ serve n address = Ok (MkResponse 200 data None) /\ llen data <= limit.

Lemma fetchReleaseBytes_Ok n address limit data : 0 <= limit -> safeHTTPSURL address = true ->
  fetchReleaseBytes serve n address limit = Ok data -> fetched n address limit data.
Proof.
  intros Hl Hs. unfold fetchReleaseBytes, read_limited. intros H. inv_ok_step. destruct x as [code body berr]. cbn [StatusCode Body BodyErr] in *.
  apply bind_Ok in H as (u & Hcode & H). apply reject_if_Ok, negb_false_iff, Z.eqb_eq in Hcode as ->.
  rewrite Z.geb_leb in H. destruct (Z.leb_spec (limit + 1) (llen body)).
  - inv_ok. bool_facts. rewrite length_take in *. lia.
  - destruct berr; [done|]. inv_ok. bool_facts. done.
Qed.

(** What the accepted artifacts have. *)
Definition sound_artifact (a : ReleaseArtifact) : Prop :=
  safeAssetName (Artifact_Name a) = true /\ isSHA256 (normalizeSHA256 (Artifact_SHA256 a)) = true.

Definition valid_manifest (m : ReleaseManifest) : Prop :=
  Manifest_SchemaVersion m = 1 /\ IsStable (Manifest_Version m) = true /\ Manifest_Tag m = "v" +:+ Manifest_Version m
  /\ Manifest_Artifacts m <> [] /\ NoDup (Artifact_Name <$> Manifest_Artifacts m) /\ Forall sound_artifact (Manifest_Artifacts m).

Lemma check_artifacts_Ok artifacts : forall seen, check_artifacts seen artifacts = Ok tt ->
  NoDup (Artifact_Name <$> artifacts) /\ Forall (fun a => Artifact_Name a ∉ seen /\ sound_artifact a) artifacts.
Proof.
  induction artifacts as [|a artifacts IH]; intros seen; cbn [check_artifacts]; [split; constructor|].
  intros H. do 6 inv_ok_step. apply IH in H as [Hnd Hall]. bool_facts. split.
  - rewrite fmap_cons. constructor; [|done]. intros (b & Hb & Hin)%list_elem_of_fmap. rewrite Forall_forall in Hall.
    destruct (Hall b Hin) as [Hn _]. set_solver.
  - constructor; [done|]. eapply Forall_impl; [exact Hall|]. cbn. intros b [Hb Hs]. split; [set_solver | done].
Qed.

Lemma Manifest_Validate_Ok m : Manifest_Validate m = Ok tt -> valid_manifest m.
Proof.
  unfold Manifest_Validate. intros H. do 10 inv_ok_step. bool_facts. apply check_artifacts_Ok in H as [Hnd Hall].
  split_and!; try done; try congruence.
  - intros E. rewrite E in *. done.
  - eapply Forall_impl; [exact Hall|]. by intros a [_ Ha].
Qed.

(** Without duplicates, the digest of a listed artifact is the one found. *)
Lemma find_artifact_unique artifacts a : NoDup (Artifact_Name <$> artifacts) -> a ∈ artifacts -> find_artifact (Artifact_Name a) artifacts = Some a.
Proof.
  induction artifacts as [|b artifacts IH]; rewrite ?fmap_cons; intros Hnd Ha; [by apply elem_of_nil in Ha|].
  apply NoDup_cons in Hnd as [Hb Hnd]. cbn [find_artifact]. apply elem_of_cons in Ha as [->|Ha]; [by rewrite String.eqb_refl|].
  destruct (String.eqb_spec (Artifact_Name b) (Artifact_Name a)) as [E|_]; [|by apply IH].
  destruct Hb. rewrite E. by apply list_elem_of_fmap_2.
Qed.

Lemma find_artifact_Some name artifacts a : find_artifact name artifacts = Some a -> a ∈ artifacts /\ Artifact_Name a = name.
Proof.
  induction artifacts as [|b artifacts IH]; cbn; [done|]. destruct (String.eqb_spec (Artifact_Name b) name) as [E|_].
  - intros [= <-]. split; [by left | done].
  - intros [Ha Hn]%IH. split; [by right | done].
Qed.

Definition verifier_of (c : Client) : result (bytes -> bytes -> result unit) :=
  match Client_ManifestVerifier c with Some v => Ok v | None => defaultManifestVerifier releasePublicKey end.

(** A manifest that was read, whole, from the bytes whose signature is accepted. *)
Definition signed (c : Client) (n : nat) (manifestURL signatureURL : string) (m : ReleaseManifest) : Prop :=
  exists payload signature verifier, fetched n manifestURL (2 ^ 20) payload /\ fetched (S n) signatureURL (64 * 2 ^ 10) signature
    /\ verifier_of c = Ok verifier /\ verifier payload signature = Ok tt /\ decode_manifest payload = Ok m.

Lemma VerifyReleaseManifest_Ok c n manifestURL signatureURL version name checksum m :
  VerifyReleaseManifest serve releasePublicKey c n manifestURL signatureURL version name checksum = Ok m ->
  signed c n manifestURL signatureURL m /\ valid_manifest m /\ check_expected m version name checksum = Ok tt.
Proof.
  unfold VerifyReleaseManifest. intros H. apply bind_Ok in H as (u & Hurl & H). apply reject_if_Ok, orb_false_iff in Hurl as [H1%negb_false_iff H2%negb_false_iff].
  apply bind_Ok in H as (payload & Hp & H). apply map_err_Ok, fetchReleaseBytes_Ok in Hp; [|done..].
  apply bind_Ok in H as (signature & Hs & H). apply map_err_Ok, fetchReleaseBytes_Ok in Hs; [|done..].
  apply bind_Ok in H as (verifier & Hv & H). apply bind_Ok in H as ([] & Hok & H). apply map_err_Ok in Hok.
  apply bind_Ok in H as (m' & Hm & H). apply map_err_Ok in Hm. apply bind_Ok in H as ([] & Hvalid & H).
  apply bind_Ok in H as ([] & Hexp & [= ->]). split_and!; [by exists payload, signature, verifier | by apply Manifest_Validate_Ok | done].
Qed.

(** The expectations of the caller that hold. *)
Definition as_expected (m : ReleaseManifest) (version name checksum : string) : Prop :=
  (version <> "" -> strings.TrimPrefix (Manifest_Version m) "v" = strings.TrimPrefix (strings.TrimSpace version) "v")
  /\ (name <> "" -> exists a, a ∈ Manifest_Artifacts m /\ Artifact_Name a = name
        /\ (checksum <> "" -> strings.equal_fold_hex (strings.TrimSpace checksum) (normalizeSHA256 (Artifact_SHA256 a)) = true)).

Lemma Manifest_Checksum_Ok m name digest : Manifest_Checksum m name = Ok digest ->
  exists a, a ∈ Manifest_Artifacts m /\ Artifact_Name a = name /\ digest = normalizeSHA256 (Artifact_SHA256 a).
Proof.
  unfold Manifest_Checksum. destruct (find_artifact name (Manifest_Artifacts m)) as [a|] eqn:E; [|done]. intros [= <-].
  apply find_artifact_Some in E as [? ?]. by exists a.
Qed.

Lemma check_expected_Ok m version name checksum : check_expected m version name checksum = Ok tt -> as_expected m version name checksum.
Proof.
  unfold check_expected. intros H. apply bind_Ok in H as (u & Hv & H). apply reject_if_Ok, andb_false_iff in Hv. split.
  - intros Hne. apply String.eqb_neq in Hne. rewrite Hne in Hv. destruct Hv as [|Hv]; [done|]. by apply negb_false_iff, String.eqb_eq in Hv.
  - intros Hne. apply String.eqb_neq in Hne. rewrite Hne in H. apply bind_Ok in H as (d & (a & Ha & Hn & ->)%Manifest_Checksum_Ok & H).
    exists a. split_and!; [done..|]. intros Hc. apply reject_if_Ok, andb_false_iff in H as [H|H]; apply negb_false_iff in H; [|done].
    by apply String.eqb_eq in H.
Qed.

(** A manifest is accepted only if both files were read whole over HTTPS within their
    limits, the verifier accepts the signature of exactly the bytes that are decoded, the
    manifest is a stable release with distinct safe names and digests of 64 digits, and the
    version, name and checksum the caller expects are in it. *)
Theorem VerifyReleaseManifest_sound c n manifestURL signatureURL version name checksum m :
  VerifyReleaseManifest serve releasePublicKey c n manifestURL signatureURL version name checksum = Ok m ->
  signed c n manifestURL signatureURL m /\ valid_manifest m /\ as_expected m version name checksum.
Proof. intros (H1 & H2 & H3)%VerifyReleaseManifest_Ok. split_and!; [done..|]. by apply check_expected_Ok. Qed.

(** *** The newest *)
Lemma newer_keys a b v w : ParseVersion (Release_Version a) = Ok v -> ParseVersion (Release_Version b) = Ok w ->
  newer a b = true <-> lexicographic (version_key w) (version_key v) = Lt.
Proof.
  intros Ha Hb. unfold newer, CompareVersions. rewrite Ha, Hb. cbn [mbind result_bind]. rewrite compare_parsed_lex, (lexicographic_antisym (version_key v) (version_key w)).
  by destruct (lexicographic (version_key v) (version_key w)).
Qed.

Definition parses (r : Release) : Prop := exists v, ParseVersion (Release_Version r) = Ok v.

Lemma lexicographic_not_lt_trans x y z : lexicographic x y <> Lt -> lexicographic y z <> Lt -> lexicographic x z <> Lt.
Proof.
  intros H1 H2 H3. destruct (lexicographic x y) eqn:E; [|done|].
  - apply lexicographic_eq in E as ->. done.
  - apply H2, (lexicographic_trans _ x); [|done]. by rewrite lexicographic_antisym, E.
Qed.

Lemma newer_weak_order (P : Release -> Prop) : (forall r, P r -> parses r) -> weak_order_on newer P.
Proof.
  intros HP. assert (Hk : forall a, P a -> exists v, ParseVersion (Release_Version a) = Ok v) by exact HP.
  split_and!.
  - intros a [v Ha]%Hk. apply not_true_iff_false. rewrite newer_keys by done. by rewrite lexicographic_refl.
  - intros a b c [u Ha]%Hk [v Hb]%Hk [w Hc]%Hk. rewrite !newer_keys by done. intros H1 H2. by eapply lexicographic_trans.
  - intros a b c [u Ha]%Hk [v Hb]%Hk [w Hc]%Hk. rewrite <-!not_true_iff_false, !newer_keys by done. intros H1 H2. by eapply lexicographic_not_lt_trans.
Qed.

Lemma IsStable_parses value : IsStable value = true -> exists v, ParseVersion value = Ok v /\ Prerelease v = false.
Proof. unfold IsStable. destruct (ParseVersion value) as [v|]; [|done]. intros H%negb_true_iff. by exists v. Qed.

(** What the entry of a candidate is. *)
Lemma entry_release_Some entry r : entry_release entry = Some r ->
  Entry_Draft entry = false /\ Entry_Prerelease entry = false /\ Release_Version r = strings.TrimPrefix (strings.TrimSpace (Entry_TagName entry)) "v"
  /\ IsStable (Release_Version r) = true.
Proof.
  unfold entry_release. destruct (_ || _ || _) eqn:E; [done|]. apply orb_false_iff in E as [[H1 H2]%orb_false_iff H3%negb_false_iff].
  destruct (if blank _ then _ else _); [|done]. cbn [mbind option_bind]. intros [= <-]. done.
Qed.

Lemma first_is_newest entries latest rest : sort_slice newer (omap entry_release entries) = latest :: rest ->
  (exists entry, entry ∈ entries /\ entry_release entry = Some latest)
  /\ (forall entry r, entry ∈ entries -> entry_release entry = Some r -> newer r latest = false).
Proof.
  intros Hs. pose proof (sort_slice_perm newer (omap entry_release entries)) as Hp. rewrite Hs in Hp.
  assert (Hall : forall r, r ∈ omap entry_release entries -> parses r).
  { intros r (entry & _ & He)%list_elem_of_omap. apply entry_release_Some in He as (_ & _ & _ & (v & Hv & _)%IsStable_parses). by exists v. }
  pose proof (sort_slice_sorted_on newer (omap entry_release entries) (newer_weak_order _ Hall)) as Hsorted. rewrite Hs in Hsorted.
  apply StronglySorted_inv in Hsorted as [_ Hsorted]. split.
  - apply list_elem_of_omap. rewrite <-Hp. left.
  - intros entry r He Hr. assert (Hin : r ∈ latest :: rest) by (rewrite Hp; apply list_elem_of_omap; eauto).
    apply elem_of_cons in Hin as [->|Hin]; [|rewrite Forall_forall in Hsorted; by apply Hsorted].
    destruct (Hall latest) as [v Hv]; [rewrite <-Hp; left|]. apply not_true_iff_false. rewrite newer_keys by done. by rewrite lexicographic_refl.
Qed.

(** *** The checksums *)
Lemma match_checksums_Ok m sums artifacts : forall matched out, match_checksums m sums artifacts matched = Ok out ->
  (forall name d, matched !! name = Some d -> Manifest_Checksum m name = Ok d -> out !! name = Some d)
  /\ (forall a, a ∈ artifacts -> exists d sum, Manifest_Checksum m (Artifact_Name a) = Ok d /\ out !! Artifact_Name a = Some d
       /\ sums !! Artifact_Name a = Some sum /\ strings.equal_fold_hex (strings.TrimSpace sum) d = true)
  /\ (forall name d, out !! name = Some d -> matched !! name = Some d \/ exists a, a ∈ artifacts /\ Artifact_Name a = name).
Proof.
  induction artifacts as [|b artifacts IH]; intros matched out; cbn [match_checksums].
  { intros [= <-]. split_and!; [done | by intros a ?%elem_of_nil | by left]. }
  intros H. apply bind_Ok in H as (d & Hd & H). destruct (sums !! Artifact_Name b) as [sum|] eqn:Hsum; [|done].
  destruct (strings.equal_fold_hex (strings.TrimSpace sum) d) eqn:Heq; [|done]. apply IH in H as (H1 & H2 & H3). split_and!.
  - intros name d' Hm Hn. apply H1; [|done]. destruct (decide (Artifact_Name b = name)) as [<-|]; [|by rewrite lookup_insert_ne].
    rewrite lookup_insert_eq. congruence.
  - intros a [->|Ha]%elem_of_cons; [|by apply H2]. exists d, sum. split_and!; try done. apply H1; [by rewrite lookup_insert_eq | done].
  - intros name d' Hn. destruct (H3 name d' Hn) as [Hm|(a & Ha & Hna)]; [|right; exists a; split; [by right | done]].
    destruct (decide (Artifact_Name b = name)) as [<-|]; [right; exists b; split; [left | done] | left; by rewrite lookup_insert_ne in Hm].
Qed.

(** The release [r] is the newest of those published as stable, under its manifest. *)
Definition newest_stable (entries : list release_entry) (r : Release) : Prop :=
  (exists entry, entry ∈ entries /\ Entry_Draft entry = false /\ Entry_Prerelease entry = false
     /\ Release_Version r = strings.TrimPrefix (strings.TrimSpace (Entry_TagName entry)) "v" /\ IsStable (Release_Version r) = true)
  /\ (forall entry other, entry ∈ entries -> entry_release entry = Some other ->
        exists order, CompareVersions (Release_Version other) (Release_Version r) = Ok order /\ order <= 0).

(** Its checksums are those of all artifacts of the manifest and no others, and the list
    [sums] has every one of them too. *)
Definition signed_checksums (r : Release) (sums : gmap string string) : Prop :=
  (forall name digest, Release_Checksums r !! name = Some digest <->
     exists a, a ∈ Manifest_Artifacts (Release_Manifest r) /\ Artifact_Name a = name /\ digest = normalizeSHA256 (Artifact_SHA256 a))
  /\ (forall a, a ∈ Manifest_Artifacts (Release_Manifest r) ->
        exists sum, sums !! Artifact_Name a = Some sum /\ strings.equal_fold_hex (strings.TrimSpace sum) (normalizeSHA256 (Artifact_SHA256 a)) = true).

Lemma signed_checksums_of m sums out r : valid_manifest m -> match_checksums m sums (Manifest_Artifacts m) ∅ = Ok out ->
  Release_Manifest r = m -> Release_Checksums r = out -> signed_checksums r sums.
Proof.
  intros (_ & _ & _ & _ & Hnd & _) (_ & H2 & H3)%match_checksums_Ok <- <-.
  assert (Hsum : forall a, a ∈ Manifest_Artifacts (Release_Manifest r) -> Manifest_Checksum (Release_Manifest r) (Artifact_Name a) = Ok (normalizeSHA256 (Artifact_SHA256 a))).
  { intros a Ha. unfold Manifest_Checksum. by rewrite find_artifact_unique. }
  split; [intros name digest; split|].
  - intros Hn. destruct (H3 _ _ Hn) as [?|(a & Ha & <-)]; [done|]. destruct (H2 a Ha) as (d & sum & Hd & Hout & Hs & He).
    rewrite Hsum in Hd by done. injection Hd as <-. assert (digest = normalizeSHA256 (Artifact_SHA256 a)) as -> by congruence. by exists a.
  - intros (a & Ha & <- & ->). destruct (H2 a Ha) as (d & sum & Hd & Hout & _). rewrite Hsum in Hd by done. congruence.
  - intros a Ha. destruct (H2 a Ha) as (d & sum & Hd & _ & Hs & He). rewrite Hsum in Hd by done. injection Hd as ->. by exists sum.
Qed.

Lemma newest_order entries latest rest : sort_slice newer (omap entry_release entries) = latest :: rest -> newest_stable entries latest.
Proof.
  intros [(entry & He & Hr) Hnew]%first_is_newest. pose proof (entry_release_Some _ _ Hr) as (H1 & H2 & H3 & H4). split; [by exists entry|].
  intros entry' other He' Hr'. pose proof (Hnew _ _ He' Hr') as Hn. apply entry_release_Some in Hr' as (_ & _ & _ & (v & Hv & _)%IsStable_parses).
  apply IsStable_parses in H4 as (w & Hw & _). unfold newer in Hn. destruct (CompareVersions (Release_Version other) (Release_Version latest)) as [c|] eqn:E.
  - exists c. split; [done|]. rewrite Z.gtb_ltb in Hn. by apply Z.ltb_ge.
  - unfold CompareVersions in E. rewrite Hv, Hw in E. done.
Qed.

(** C30: the release that is found is the newest stable one of the answer, neither a draft nor
    a candidate; its manifest is signed, valid and of that very version; its checksums are
    exactly the digests of the manifest, none missing and none added; and the file of
    checksums confirms every one of them. *)
Theorem LatestStable_sound c r : LatestStable serve releasePublicKey c = Ok r ->
  exists response entries sums sumsAsset, serve 0 (base_url c +:+ "/repos/" +:+ strings.TrimSpace (Client_Repository c) +:+ "/releases?per_page=100") = Ok response
    /\ StatusCode response = 200 /\ decode_entries (Body response) (BodyErr response) = Ok entries /\ newest_stable entries r
    /\ signed c 2 (Release_ManifestURL r) (Release_ManifestSignatureURL r) (Release_Manifest r) /\ valid_manifest (Release_Manifest r)
    /\ strings.TrimPrefix (Manifest_Version (Release_Manifest r)) "v" = strings.TrimPrefix (strings.TrimSpace (Release_Version r)) "v"
    /\ Release_Asset r "SHA256SUMS" = Ok sumsAsset /\ fetchChecksums serve 1 (Asset_URL sumsAsset) = Ok sums /\ signed_checksums r sums.
Proof.
  unfold LatestStable. intros H. do 2 (apply bind_Ok in H as (? & _ & H)). apply bind_Ok in H as (response & Hr%map_err_Ok & H). apply bind_Ok in H as (? & Hc%reject_if_Ok & H).
  apply bind_Ok in H as (entries & Hd%map_err_Ok & H). destruct (sort_slice newer (omap entry_release entries)) as [|latest rest] eqn:Hs; [done|].
  apply newest_order in Hs. unfold complete_release in H. apply bind_Ok in H as (sumsAsset & Hsa & H). apply bind_Ok in H as (ma & _ & H).
  apply bind_Ok in H as (sa & _ & H). apply bind_Ok in H as (sums & Hsums & H). apply bind_Ok in H as (m & (Hm & Hv & He%check_expected_Ok)%VerifyReleaseManifest_Ok & H).
  apply bind_Ok in H as (out & Hout & [= <-]). exists response, entries, sums, sumsAsset. cbn [Release_ManifestURL Release_ManifestSignatureURL Release_Manifest Release_Version].
  split_and!; try done.
  - by apply negb_false_iff, Z.eqb_eq in Hc.
  - apply He. destruct Hs as [(entry & _ & _ & _ & _ & Hst) _]. intros E. rewrite E in Hst. discriminate.
  - by eapply signed_checksums_of.
Qed.
End ServerFacts.

(** ** Staging a file beside its destination *)
Section Staging.
Context `{TN : !TempNames} (start : files) (destination : string) (good : bytes -> Prop).
Hypothesis temp_other : forall pattern d, temp_name destination pattern d <> destination.

(** What a crash may leave: the files as they were, but for a new temporary file, and the
    destination as it was or with good contents. *)
Definition whole (d : files) : Prop :=
  (forall p x, p <> destination -> start !! p = Some x -> d !! p = Some x)
  /\ (d !! destination = start !! destination \/ exists data, good data /\ d !! destination = Some data).

(** Only [tmp] is new. *)
Definition beside (tmp : string) (d : files) : Prop := start !! tmp = None /\ tmp <> destination /\ delete tmp d = start.

Lemma beside_lookup tmp d p : beside tmp d -> p <> tmp -> d !! p = start !! p.
Proof. intros (_ & _ & <-) Hp. by rewrite lookup_delete_ne. Qed.

Lemma beside_whole tmp d : beside tmp d -> whole d.
Proof.
  intros Hb. pose proof Hb as (Hn & Hd & _). split; [|left; by apply (beside_lookup tmp)].
  intros p x _ Hx. rewrite (beside_lookup tmp) by (congruence || done). done.
Qed.

Lemma beside_insert tmp d x : beside tmp d -> beside tmp (<[tmp := x]> d).
Proof. intros (H1 & H2 & H3). split_and!; [done..|]. by rewrite delete_insert_eq. Qed.

(** The contents of the temporary file, when it is complete. *)
Definition complete (tmp : string) (d : files) : Prop := beside tmp d /\ exists data, good data /\ d !! tmp = Some data.

Definition placed (tmp : string) (r : result unit) (d : files) : Prop :=
  match r with Ok _ => start !! tmp = None /\ tmp <> destination /\ exists data, good data /\ d = <[destination := data]> start | Err _ => beside tmp d end.

Definition ends (r : result unit) (d : files) : Prop :=
  match r with Ok _ => exists data, good data /\ d = <[destination := data]> start | Err _ => d = start \/ exists tmp, beside tmp d end.

Lemma whole_placed data : good data -> whole (<[destination := data]> start).
Proof.
  intros Hg. split; [|right; exists data; split; [done | by rewrite lookup_insert_eq]]. intros p x Hp Hx. by rewrite lookup_insert_ne.
Qed.

Lemma keeps_commit tmp : keeps whole (complete tmp) (_ ← os.Chmod tmp; os.Rename tmp destination) (placed tmp).
Proof.
  eapply keeps_bind with (K := fun _ => complete tmp).
  { apply keeps_Chmod. intros [[]|e] d Hd; [done | apply Hd]. }
  intros _. apply keeps_Rename.
  - intros d x [(Hn & Hne & Hd) (data & Hg & Hx)] Hx'. assert (x = data) as -> by congruence. rewrite Hd.
    split; [by apply whole_placed|]. split_and!; [done..|]. by exists data.
  - intros d e [Hb _]. done.
Qed.

Lemma keeps_staging pattern (body : string -> IO unit) :
  (forall tmp, keeps whole (fun d => beside tmp d /\ d !! tmp = Some []) (body tmp) (placed tmp)) ->
  keeps whole (eq start) (tmp ← CreateTemp destination pattern; finally (body tmp) (os.Remove tmp)) ends.
Proof.
  intros Hbody. eapply keeps_bind with (K := fun tmp d => beside tmp d /\ d !! tmp = Some []).
  { apply keeps_syscall; [|by left]. apply keeps_get. intros d Hd. subst d. set (tmp := temp_name destination pattern start).
    assert (Hb : beside tmp (<[tmp := []]> start)).
    { split_and!; [apply temp_name_fresh | apply temp_other | rewrite delete_insert_id; [done | apply temp_name_fresh]]. }
    eapply keeps_bind with (K := fun _ d => beside tmp d /\ d !! tmp = Some []).
    - apply keeps_put; [by apply (beside_whole tmp)|]. split; [done | by rewrite lookup_insert_eq].
    - intros _. by apply keeps_ret. }
  intros tmp. apply keeps_finally with (K := placed tmp); [apply Hbody|]. intros r. apply keeps_Remove.
  - intros d Hp [x Hx]. destruct r as [[]|e]; cbn in Hp.
    + destruct Hp as (Hn & Hne & data & Hg & ->). rewrite lookup_insert_ne in Hx by done. congruence.
    + destruct Hp as (Hn & Hne & Hd). rewrite Hd. split; [|by left]. split; [done | by left].
  - intros d Hp _. destruct r as [[]|e]; [apply Hp | right; by exists tmp].
  - intros d Hp. destruct r as [[]|e]; [apply Hp | right; by exists tmp].
Qed.

(** Writing the temporary file. *)
Lemma keeps_fill tmp data : keeps whole (fun d => beside tmp d /\ d !! tmp = Some []) (os.Write tmp data)
  (fun r d => beside tmp d /\ (is_Ok r = true -> d !! tmp = Some data)).
Proof.
  eapply keeps_weaken; [apply (keeps_Write whole (beside tmp) tmp data) | done | intros r d (? & _ & ?); done].
  - intros d x. apply beside_insert.
  - apply beside_whole.
Qed.
End Staging.

(** ** Downloading *)
Section DownloadFacts.
Context `{UN : !Unicode, NU : !NetURL, CR : !Crypto, TN : !TempNames}.
Context (reply : result response) (asset : Asset) (destination expectedChecksum : string).

(** The body of the answer, whole up to the limit, with the digest that was asked for. *)
Definition verified (data : bytes) : Prop :=
  exists response, reply = Ok response /\ StatusCode response = 200 /\ read_limited response download_limit = (data, None)
    /\ digest_of data = normalizeSHA256 expectedChecksum.

Lemma keeps_save_body start tmp response : reply = Ok response -> StatusCode response = 200 ->
  keeps (whole start destination verified) (fun d => beside start destination tmp d /\ d !! tmp = Some []) (save_body tmp response)
    (fun r d => beside start destination tmp d /\ match r with
      | Ok data => read_limited response download_limit = (data, None) /\ d !! tmp = Some data | Err _ => True end).
Proof.
  intros Hr Hc. unfold save_body. destruct (read_limited response download_limit) as [data err] eqn:E.
  eapply keeps_bind with (K := fun _ d => beside start destination tmp d /\ d !! tmp = Some data).
  { eapply keeps_weaken; [apply keeps_fill | done |]. intros [u|e] d [Hb Hd]; [by split; [|apply Hd] | done]. }
  intros _. destruct err as [e|]; [by apply keeps_fail; intros d [? ?] | by apply keeps_ret; intros d [? ?]].
Qed.

Lemma keeps_download start : (forall pattern d, temp_name destination pattern d <> destination) ->
  keeps (whole start destination verified) (eq start) (Download reply asset destination expectedChecksum) (ends start destination verified).
Proof.
  intros Htemp. unfold Download. eapply keeps_bind with (K := fun _ => eq start); [apply keeps_lift; intros d <-; destruct (reject_if _ _); [done | by left]|]. intros _. cbv zeta.
  eapply keeps_bind with (K := fun _ => eq start); [apply keeps_lift; intros d <-; destruct (reject_if _ _); [done | by left]|]. intros _.
  eapply keeps_bind with (K := fun _ => eq start); [apply keeps_trivial; intros [] d <-; [done | by left]|]. intros _.
  apply keeps_staging; [done|]. intros tmp.
  eapply keeps_bind with (K := fun r d => (beside start destination tmp d /\ d !! tmp = Some []) /\ r = reply).
  { apply keeps_try, keeps_lift. naive_solver. }
  intros r. apply keeps_pure. intros Hr.
  assert (Hgive : forall e, keeps (whole start destination verified) (fun d => beside start destination tmp d /\ d !! tmp = Some [])
                      (_ ← try (os.Close tmp); fail e) (placed start destination verified tmp)).
  { intros e. eapply keeps_bind with (K := fun _ => beside start destination tmp); [by apply keeps_try, keeps_trivial; intros ? d [? _]|].
    intros _. by apply keeps_fail. }
  destruct r as [response|e]; [|apply Hgive]. destruct (StatusCode response =? 200) eqn:Hc; cbn [negb]; [|apply Hgive]. apply Z.eqb_eq in Hc.
  eapply keeps_bind with (K := fun data d => beside start destination tmp d /\ read_limited response download_limit = (data, None) /\ d !! tmp = Some data).
  { apply (keeps_on_error _ _ (beside start destination tmp)).
    - eapply keeps_weaken; [by apply keeps_save_body | done |]. intros [data|e] d [Hb Hd]; done.
    - by apply keeps_trivial. }
  intros data. eapply keeps_bind with (K := fun _ d => beside start destination tmp d /\ read_limited response download_limit = (data, None) /\ d !! tmp = Some data).
  { apply keeps_trivial. intros [] d Hd; [done | apply Hd]. }
  intros _. eapply keeps_bind with (K := fun _ => complete start destination verified tmp); [|intros _; by apply keeps_commit].
  apply keeps_lift. intros d (Hb & Hl & Hd). destruct (String.eqb_spec (digest_of data) (normalizeSHA256 expectedChecksum)); cbn [negb reject_if]; [|done].
  split; [done|]. exists data. split; [|done]. by exists response.
Qed.

(** C31: wherever a download stops, the destination holds what it held or a body whose
    SHA-256 is the expected one, and every other file is as it was; success puts exactly such
    a body in place, and an error leaves at most one new temporary file. *)
Theorem Download_verified start os : (forall pattern d, temp_name destination pattern d <> destination) ->
  let '(w, r) := Download reply asset destination expectedChecksum (MkWorld start os [] []) in
  Forall (whole start destination verified) (history w) /\ ends start destination verified r (disk w).
Proof.
  intros Htemp. pose proof (keeps_download start Htemp (MkWorld start os [] []) (conj (Forall_nil_2 _) eq_refl)) as [Hh Hr].
  by destruct (Download _ _ _ _ _) as [w r].
Qed.
End DownloadFacts.

(** ** Extracting *)
Section ExtractFacts.
Context `{UN : !Unicode, TN : !TempNames, AR : !Archives} (archivePath destination binaryName : string).

(** The contents of an entry as [io.LimitReader] gives them: whole when they are shorter
    than the limit and reading them ends well, and else cut at the limit. *)
Definition up_to (c : contents) (limit : Z) (data : bytes) : Prop :=
  (llen (c_data c) >= limit /\ data = take (Z.to_nat limit) (c_data c)) \/ (llen (c_data c) < limit /\ c_err c = None /\ data = c_data c).

(** The first entry with the name, all before it being safe; in a tar it must be a regular
    file of a size that is not too large. *)
Definition taken_zip (entries : list zip_entry) (data : bytes) : Prop :=
  exists before entry after c, entries = before ++ entry :: after
    /\ Forall (fun e => safeArchivePath (zip_name e) = true /\ (filepath.Base (zip_name e) <> binaryName \/ zip_dir e = true)) before
    /\ safeArchivePath (zip_name entry) = true /\ filepath.Base (zip_name entry) = binaryName /\ zip_dir entry = false
    /\ zip_open entry = Ok c /\ up_to c extract_limit data.

Definition taken_tar (headers : list (result tar_header)) (data : bytes) : Prop :=
  exists before header after, headers = before ++ Ok header :: after
    /\ Forall (fun r => exists h, r = Ok h /\ safeArchivePath (tar_name h) = true /\ (filepath.Base (tar_name h) <> binaryName \/ tar_type h = TypeDir)) before
    /\ safeArchivePath (tar_name header) = true /\ filepath.Base (tar_name header) = binaryName /\ tar_type header = TypeReg
    /\ 0 <= tar_size header <= extract_limit /\ up_to (tar_data header) (tar_size header) data.

(** What is extracted from the archive. *)
Definition taken (archive data : bytes) : Prop :=
  (strings.HasSuffix (to_lower archivePath) ".zip" = true /\ exists entries, zip_entries archive = Ok entries /\ taken_zip entries data)
  \/ (strings.HasSuffix (to_lower archivePath) ".tar.gz" = true /\ exists headers, gzip_tar archive = Ok headers /\ taken_tar headers data).

Context (start : files) (good : bytes -> Prop).
Abbreviation B := (beside start destination).
Abbreviation W := (whole start destination good).

Lemma keeps_copy_limited tmp c limit : keeps W (fun d => B tmp d /\ d !! tmp = Some []) (copy_limited tmp c limit)
  (fun r d => B tmp d /\ (is_Ok r = true -> exists data, up_to c limit data /\ d !! tmp = Some data)).
Proof.
  unfold copy_limited. rewrite Z.geb_leb. destruct (Z.leb_spec limit (llen (c_data c))) as [Hl|Hl].
  - eapply keeps_bind with (K := fun _ d => B tmp d /\ d !! tmp = Some (take (Z.to_nat limit) (c_data c))).
    { eapply keeps_weaken; [apply keeps_fill | done |]. intros [u|e] d [Hb Hd]; [by split; [|apply Hd] | done]. }
    intros _. apply keeps_ret. intros d [Hb Hd]. split; [done|]. intros _. eexists. split; [left; split; [lia | done] | done].
  - eapply keeps_bind with (K := fun _ d => B tmp d /\ d !! tmp = Some (c_data c)).
    { eapply keeps_weaken; [apply keeps_fill | done |]. intros [u|e] d [Hb Hd]; [by split; [|apply Hd] | done]. }
    intros _. destruct (c_err c) as [e|] eqn:E; [apply keeps_fail; by intros d [Hb _]|].
    apply keeps_ret. intros d [Hb Hd]. split; [done|]. intros _. eexists. split; [by right | done].
Qed.

Lemma taken_zip_skip entry entries data : safeArchivePath (zip_name entry) = true ->
  filepath.Base (zip_name entry) <> binaryName \/ zip_dir entry = true -> taken_zip entries data -> taken_zip (entry :: entries) data.
Proof.
  intros Hs Hn (before & e & after & c & -> & Hb & H). exists (entry :: before), e, after, c. split; [done|]. split; [|done]. by constructor.
Qed.

Lemma keeps_extract_entries tmp entries : keeps W (fun d => B tmp d /\ d !! tmp = Some []) (extract_entries tmp binaryName entries)
  (fun r d => B tmp d /\ (is_Ok r = true -> exists data, taken_zip entries data /\ d !! tmp = Some data)).
Proof.
  induction entries as [|entry entries IH]; cbn [extract_entries]; [apply keeps_fail; by intros d [Hb _]|].
  destruct (safeArchivePath (zip_name entry)) eqn:Hs; cbn [negb]; [|apply keeps_fail; by intros d [Hb _]].
  destruct (negb (String.eqb _ _) || zip_dir entry) eqn:Hn.
  - eapply keeps_weaken; [exact IH | done |]. intros r d [Hb Hd]. split; [done|]. intros Hr. destruct (Hd Hr) as (data & Ht & ?). exists data. split; [|done].
    apply taken_zip_skip; [done | | done]. apply orb_true_iff in Hn as [Hn%negb_true_iff|]; [left; by apply String.eqb_neq | by right].
  - apply orb_false_iff in Hn as [Hn%negb_false_iff%String.eqb_eq Hd]. destruct (zip_open entry) as [c|e] eqn:Ho.
    + eapply keeps_bind with (K := fun c' d => (B tmp d /\ d !! tmp = Some []) /\ c' = c); [by apply keeps_lift; intros d [? ?]|].
      intros c'. apply keeps_pure. intros ->. eapply keeps_weaken; [apply keeps_copy_limited | done |]. intros r d [Hb Hr]. split; [done|]. intros Hok.
      destruct (Hr Hok) as (data & Hu & ?). exists data. split; [|done]. exists [], entry, entries, c. split_and!; done.
    + eapply keeps_bind with (K := fun _ _ => False); [by apply keeps_lift; intros d [? ?]|]. intros ? ? [_ []].
Qed.

Lemma taken_tar_skip header headers data : safeArchivePath (tar_name header) = true ->
  filepath.Base (tar_name header) <> binaryName \/ tar_type header = TypeDir -> taken_tar headers data -> taken_tar (Ok header :: headers) data.
Proof.
  intros Hs Hn (before & h & after & -> & Hb & H). exists (Ok header :: before), h, after. split; [done|]. split; [|done]. constructor; [by exists header | done].
Qed.

Lemma keeps_extract_headers tmp headers : keeps W (fun d => B tmp d /\ d !! tmp = Some []) (extract_headers tmp binaryName headers)
  (fun r d => B tmp d /\ (is_Ok r = true -> exists data, taken_tar headers data /\ d !! tmp = Some data)).
Proof.
  induction headers as [|[header|e] headers IH]; cbn [extract_headers]; [apply keeps_fail; by intros d [Hb _] | | apply keeps_fail; by intros d [Hb _]].
  destruct (safeArchivePath (tar_name header)) eqn:Hs; cbn [negb]; [|apply keeps_fail; by intros d [Hb _]].
  destruct (negb (String.eqb _ _) || Ascii.eqb (tar_type header) TypeDir) eqn:Hn.
  - eapply keeps_weaken; [exact IH | done |]. intros r d [Hb Hd]. split; [done|]. intros Hr. destruct (Hd Hr) as (data & Ht & ?). exists data. split; [|done].
    apply taken_tar_skip; [done | | done]. apply orb_true_iff in Hn as [Hn%negb_true_iff|Hn]; [left; by apply String.eqb_neq | right; by apply Ascii.eqb_eq].
  - apply orb_false_iff in Hn as [Hn%negb_false_iff%String.eqb_eq Hd].
    eapply keeps_bind with (K := fun _ d => (B tmp d /\ d !! tmp = Some []) /\ tar_type header = TypeReg).
    { apply keeps_lift. intros d [Hb Ht]. destruct (Ascii.eqb_spec (tar_type header) TypeReg); done. }
    intros _. apply keeps_pure. intros Ht. eapply keeps_bind with (K := fun _ d => (B tmp d /\ d !! tmp = Some []) /\ 0 <= tar_size header <= extract_limit).
    { apply keeps_lift. intros d [Hb ?]. rewrite Z.gtb_ltb. destruct (Z.ltb_spec (tar_size header) 0), (Z.ltb_spec extract_limit (tar_size header)); cbn; done. }
    intros _. apply keeps_pure. intros Hsz. eapply keeps_weaken; [apply keeps_copy_limited | done |]. intros r d [Hb Hr]. split; [done|]. intros Hok.
    destruct (Hr Hok) as (data & Hu & ?). exists data. split; [|done]. exists [], header, headers. split_and!; try done; lia.
Qed.

(** The archive is read while only the temporary file is new. *)
Lemma keeps_read_archive tmp archive : start !! archivePath = Some archive ->
  keeps W (fun d => B tmp d /\ d !! tmp = Some []) (os.ReadFile archivePath)
    (fun r d => match r with Ok data => (B tmp d /\ d !! tmp = Some []) /\ data = archive | Err _ => B tmp d end).
Proof.
  intros Ha. apply keeps_ReadFile; [|by intros d e [Hb _]]. intros d data [Hb Ht] Hd. split; [done|].
  rewrite (beside_lookup start destination tmp) in Hd; [congruence | done |]. intros ->. destruct Hb as [Hn _]. congruence.
Qed.

Lemma keeps_extract_any tmp archive : start !! archivePath = Some archive ->
  keeps W (fun d => B tmp d /\ d !! tmp = Some []) (extract_any archivePath tmp binaryName)
    (fun r d => B tmp d /\ (is_Ok r = true -> exists data, taken archive data /\ d !! tmp = Some data)).
Proof.
  intros Ha. unfold extract_any. destruct (strings.HasSuffix (to_lower archivePath) ".zip") eqn:Hz; [|destruct (strings.HasSuffix (to_lower archivePath) ".tar.gz") eqn:Ht].
  - eapply keeps_bind with (K := fun data d => (B tmp d /\ d !! tmp = Some []) /\ data = archive).
    { eapply keeps_weaken; [by apply keeps_read_archive | intros d Hd; exact Hd | by intros [data|e] d Hd; [exact Hd | split]]. }
    intros data. apply keeps_pure. intros ->. eapply keeps_bind with (K := fun es d => (B tmp d /\ d !! tmp = Some []) /\ zip_entries archive = Ok es).
    { apply keeps_lift. intros d [Hb Ht]. by destruct (zip_entries archive). }
    intros es. apply keeps_pure. intros Hes. eapply keeps_weaken; [apply keeps_extract_entries | done |]. intros r d [Hb Hr]. split; [done|]. intros Hok.
    destruct (Hr Hok) as (data & Hu & ?). exists data. split; [left; by eauto | done].
  - eapply keeps_bind with (K := fun data d => (B tmp d /\ d !! tmp = Some []) /\ data = archive).
    { eapply keeps_weaken; [by apply keeps_read_archive | intros d Hd; exact Hd | by intros [data|e] d Hd; [exact Hd | split]]. }
    intros data. apply keeps_pure. intros ->. eapply keeps_bind with (K := fun es d => (B tmp d /\ d !! tmp = Some []) /\ gzip_tar archive = Ok es).
    { apply keeps_lift. intros d [Hb Hd]. by destruct (gzip_tar archive). }
    intros es. apply keeps_pure. intros Hes. eapply keeps_weaken; [apply keeps_extract_headers | done |]. intros r d [Hb Hr]. split; [done|]. intros Hok.
    destruct (Hr Hok) as (data & Hu & ?). exists data. split; [right; by eauto | done].
  - apply keeps_fail. by intros d [Hb _].
Qed.

Lemma keeps_extract archive : (forall data, taken archive data -> good data) -> start !! archivePath = Some archive ->
  (forall pattern d, temp_name destination pattern d <> destination) ->
  keeps W (eq start) (ExtractBinary archivePath destination binaryName) (ends start destination good).
Proof.
  intros Hgood Ha Htemp. unfold ExtractBinary.
  eapply keeps_bind with (K := fun _ => eq start); [apply keeps_lift; intros d <-; destruct (reject_if _ _); [done | by left]|]. intros _.
  eapply keeps_bind with (K := fun _ => eq start); [apply keeps_lift; intros d <-; destruct (reject_if _ _); [done | by left]|]. intros _.
  eapply keeps_bind with (K := fun _ => eq start); [apply keeps_trivial; intros [] d <-; [done | by left]|]. intros _.
  apply keeps_staging; [done|]. intros tmp.
  eapply keeps_bind with (K := fun _ d => B tmp d /\ d !! tmp = Some []).
  { apply (keeps_on_error _ _ (B tmp)); [apply keeps_Chmod; intros [] d Hd; [done | apply Hd] | by apply keeps_trivial]. }
  intros _. eapply keeps_bind with (K := fun r d => B tmp d /\ (is_Ok r = true -> exists data, taken archive data /\ d !! tmp = Some data)).
  { by apply keeps_try, keeps_extract_any. }
  intros r. eapply keeps_bind with (K := fun _ d => B tmp d /\ (is_Ok r = true -> exists data, taken archive data /\ d !! tmp = Some data)); [by apply keeps_try, keeps_trivial|].
  intros c. eapply keeps_bind with (K := fun _ => complete start destination good tmp).
  { apply keeps_lift. intros d [Hb Hd]. destruct r as [u|e]; [|done]. destruct (Hd eq_refl) as (data & Ht & Hx). split; [done|]. exists data. split; [by apply Hgood | done]. }
  intros _. eapply keeps_bind with (K := fun _ => complete start destination good tmp); [apply keeps_lift; intros d Hd; destruct c; [done | apply Hd]|].
  intros _. by apply keeps_commit.
Qed.
End ExtractFacts.

(** A zip entry that is too long is not refused but cut. *)
Lemma copy_cut tmp limit data d : d !! tmp = Some [] -> 0 <= limit < llen data ->
  let '(w, r) := copy_limited tmp (MkContents data None) limit (MkWorld d [] [] []) in
  r = Ok tt /\ exists cut, disk w !! tmp = Some cut /\ llen cut = limit /\ cut <> data.
Proof.
  intros Ht Hl. unfold copy_limited. cbn [c_data c_err]. destruct (Z.geb_spec (llen data) limit) as [_|]; [|lia].
  set (cut := firstn (Z.to_nat limit) data). assert (Hcut : llen cut = limit) by (subst cut; rewrite length_take; lia). clearbody cut.
  destruct (keeps_append (fun _ => True) (fun _ => True) tmp cut [] ltac:(done) ltac:(done) (MkWorld d [] [] []) (conj (Forall_nil_2 _) (conj I Ht))) as (_ & Hr & _ & Hd).
  cbv [mbind M_bind os.Write ask]. cbn [oracle]. destruct (os.append_bytes tmp cut _) as [w r]. cbn [fst snd] in Hr, Hd. subst r. split; [done|].
  exists cut. split_and!; [exact Hd | done |]. intros ->. lia.
Qed.

Lemma long_zip_entry_cut tmp name data d : d !! tmp = Some [] -> safeArchivePath name = true -> extract_limit < llen data ->
  let '(w, r) := extract_entries tmp (filepath.Base name) [MkZipEntry name false (Ok (MkContents data None))] (MkWorld d [] [] []) in
  r = Ok tt /\ exists cut, disk w !! tmp = Some cut /\ llen cut = extract_limit /\ cut <> data.
Proof.
  intros Ht Hs Hl. cbn [extract_entries zip_name zip_dir zip_open]. rewrite Hs, String.eqb_refl. cbn [negb orb].
  cbv [mbind M_bind lift]. apply copy_cut; [exact Ht|]. split; [discriminate | exact Hl].
Qed.

(** C32: wherever the extraction of an archive stops, the destination holds what it held or
    the data of the first entry with the name of the executable, and no other file is
    touched, whatever paths the archive names; success puts exactly that data in place.  The
    data of a tar entry are what the reader gives of the bytes that its header announces, at
    most 512 MiB; those of a zip entry are whole when it has less than 512 MiB, and of a longer one just the first
    512 MiB, which is not reported ([long_zip_entry_cut]). *)
Theorem ExtractBinary_contained `{UN : !Unicode, TN : !TempNames, AR : !Archives} archivePath destination binaryName start os archive :
  start !! archivePath = Some archive -> (forall pattern d, temp_name destination pattern d <> destination) ->
  let '(w, r) := ExtractBinary archivePath destination binaryName (MkWorld start os [] []) in
  Forall (whole start destination (taken archivePath binaryName archive)) (history w)
  /\ ends start destination (taken archivePath binaryName archive) r (disk w).
Proof.
  intros Ha Htemp. pose proof (keeps_extract archivePath destination binaryName start (taken archivePath binaryName archive) archive (fun _ H => H) Ha Htemp
    (MkWorld start os [] []) (conj (Forall_nil_2 _) eq_refl)) as [Hh Hr]. by destruct (ExtractBinary _ _ _ _) as [w r].
Qed.

(** ** Samples *)

Lemma CompareVersions_order_witness :
  CompareVersions "1.2.9" "v1.3.0-rc.1" = Ok (-1) /\ CompareVersions "v1.3.0-rc.1" "1.3.0" = Ok (-1) /\ CompareVersions "1.2.9" "1.3.0" = Ok (-1).
Proof.
  split_and!; [reflexivity..|].
  apply (CompareVersions_order "1.2.9" "v1.3.0-rc.1" "1.3.0" (MkVersion 1 2 9 0 false) (MkVersion 1 3 0 1 true) (MkVersion 1 3 0 0 false)); reflexivity.
Defined.

Lemma version_roundtrip_witness : ParseVersion "v1.20.0-rc.3" = Ok (MkVersion 1 20 0 3 true).
Proof. apply (version_roundtrip (MkVersion 1 20 0 3 true)). unfold proper, in_int. cbn. split_and!; (lia || done). Defined.

Lemma safe_path_stays_below_witness : safeArchivePath "bin/../lib//./a.so" = true /\ exists below, walk ["opt"] "bin/../lib//./a.so" = below ++ ["opt"] /\ below <> [].
Proof.
  split; [reflexivity|]. destruct (safe_path_stays_below "bin/../lib//./a.so" ["opt"] ltac:(reflexivity)) as (below & H1 & H2 & _). by exists below.
Defined.

(** A server that answers the four requests of [LatestStable]. *)
Module Sample.
Definition digest : string := "0123456789abcdef0123456789abcdef0123456789abcdef0123456789ABCDEF".
Definition manifest : ReleaseManifest := MkManifest 1 "1.3.0" "v1.3.0" "abc" "afdp1" None [MkArtifact "a.tar.gz" digest].
Definition address (name : string) : string := "https://host/" +:+ name.
Definition assets : list (string * string) := (fun n => (n, address n)) <$> ["SHA256SUMS"; "release-manifest.json"; "release-manifest.json.sig"; "a.tar.gz"].
Definition entry (tag : string) (prerelease : bool) : release_entry := MkEntry tag false prerelease "" "" assets.
Definition format : ReleaseFormat := {|
  decode_entries := fun _ _ => Ok [entry "v1.2.9" false; entry "v1.3.0" false; entry "v1.4.0-rc.1" true];
  decode_manifest := fun _ => Ok manifest;
  parse_rfc3339 := fun _ => None
|}.
Definition urls : NetURL := {| url_parse := fun s => if strings.HasPrefix s "https://" then Ok (MkURL "https" "host" false "" "") else Err (ENew "not a URL") |}.
Definition signatures : Signatures := {|
  pem_decode := fun _ => None; parse_pkix := fun _ => Err (ENew "no key"); base64_decode := fun s => Ok (bytes_of s); verify_asn1 := fun _ _ _ => false
|}.
(** The signature of a file is its text between brackets. *)
Definition verifier (payload signature : bytes) : result unit :=
  if bool_decide (signature = ["["%char] ++ payload ++ ["]"%char]) then Ok tt else Err (ENew "not signed").
Definition client : Client := MkClient DefaultRepository "" (Some verifier).
Definition answer (n : nat) (_ : string) : result response :=
  Ok (MkResponse 200 (match n with 1%nat => bytes_of (digest +:+ " *a.tar.gz") | 3%nat => bytes_of "[manifest]" | _ => bytes_of "manifest" end) None).
End Sample.

#[local] Existing Instances Sample.format Sample.urls Sample.signatures toy_crypto ascii_unicode insertion_slice_sort.
Definition sample_latest : result Release := LatestStable Sample.answer [] Sample.client.

Lemma LatestStable_sound_witness :
  exists r, sample_latest = Ok r /\ Release_Version r = "1.3.0" /\ signed Sample.answer [] Sample.client 2 (Release_ManifestURL r) (Release_ManifestSignatureURL r) (Release_Manifest r).
Proof.
  assert (H : exists r, sample_latest = Ok r /\ Release_Version r = "1.3.0").
  { destruct sample_latest as [r|e] eqn:E; [exists r; split; [done|] | exfalso]; vm_compute in E; [injection E as <-; reflexivity | discriminate E]. }
  destruct H as (r & Hr & Hv). exists r. split; [exact Hr|]. split; [exact Hv|].
  destruct (LatestStable_sound Sample.answer [] Sample.client r Hr) as (resp & es & sums & sa & _ & _ & _ & _ & Hs & _). exact Hs.
Defined.

Lemma VerifyReleaseManifest_sound_witness :
  VerifyReleaseManifest Sample.answer [] Sample.client 2 "https://a/m" "https://a/s" "v1.3.0" "a.tar.gz" (to_lower Sample.digest) = Ok Sample.manifest
  /\ valid_manifest Sample.manifest /\ as_expected Sample.manifest "v1.3.0" "a.tar.gz" (to_lower Sample.digest).
Proof.
  assert (H : VerifyReleaseManifest Sample.answer [] Sample.client 2 "https://a/m" "https://a/s" "v1.3.0" "a.tar.gz" (to_lower Sample.digest) = Ok Sample.manifest) by (vm_compute; reflexivity).
  destruct (VerifyReleaseManifest_sound Sample.answer [] Sample.client 2 "https://a/m" "https://a/s" "v1.3.0" "a.tar.gz" (to_lower Sample.digest) Sample.manifest H) as (_ & H1 & H2).
  split; [exact H|]. split; [exact H1 | exact H2].
Defined.

(** A body that is written only in part at first, and the name of a temporary file. *)
Lemma sample_names pattern d : temp_name (TempNames := fresh_names) "/status.json" pattern d <> "/status.json".
Proof. cbn. intros E. pose proof (is_fresh (dom d ∪ {["/status.json"]})) as Hf. rewrite E in Hf. set_solver. Qed.

Definition sample_reply : result response := Ok (MkResponse 200 (bytes_of "body") None).
Definition sample_download (answers : list outcome) : world * result unit :=
  Download (TN := fresh_names) sample_reply (MkAsset "a.tar.gz" "https://host/a") "/status.json" (digest_of (bytes_of "body"))
    (MkWorld {["/other" := bytes_of "x"; "/status.json" := bytes_of "old"]} answers [] []).

Lemma Download_verified_witness :
  snd (sample_download [Done; Done; Stops 2; Done; Fails]) <> Ok tt /\ snd (sample_download []) = Ok tt
  /\ ends {["/other" := bytes_of "x"; "/status.json" := bytes_of "old"]} "/status.json" (verified sample_reply (digest_of (bytes_of "body")))
       (snd (sample_download [])) (disk (fst (sample_download []))).
Proof.
  split; [vm_compute; discriminate|]. split; [vm_compute; reflexivity|].
  pose proof (Download_verified (TN := fresh_names) sample_reply (MkAsset "a.tar.gz" "https://host/a") "/status.json" (digest_of (bytes_of "body"))
    {["/other" := bytes_of "x"; "/status.json" := bytes_of "old"]} [] sample_names) as H.
  fold (sample_download []) in H. destruct (sample_download []) as [w r]. exact (proj2 H).
Defined.

(** A zip that holds a text and the executable. *)
Definition sample_archives : Archives := {|
  zip_entries := fun l => Ok [MkZipEntry "README" false (Ok (MkContents [] None)); MkZipEntry "bin/tool" false (Ok (MkContents l None))];
  gzip_tar := fun _ => Err (ENew "not a gzip file")
|}.
Definition sample_extract : world * result unit :=
  ExtractBinary (TN := fresh_names) (AR := sample_archives) "/a.ZIP" "/status.json" "tool" (MkWorld {["/a.ZIP" := bytes_of "code"]} [] [] []).

Lemma ExtractBinary_contained_witness :
  snd sample_extract = Ok tt
  /\ ends {["/a.ZIP" := bytes_of "code"]} "/status.json" (taken (AR := sample_archives) "/a.ZIP" "tool" (bytes_of "code")) (snd sample_extract) (disk (fst sample_extract)).
Proof.
  split; [vm_compute; reflexivity|].
  pose proof (ExtractBinary_contained (TN := fresh_names) (AR := sample_archives) "/a.ZIP" "/status.json" "tool" {["/a.ZIP" := bytes_of "code"]} [] (bytes_of "code")
    (lookup_singleton_eq "/a.ZIP" (bytes_of "code")) sample_names) as H.
  fold sample_extract in H. destruct sample_extract as [w r]. exact (proj2 H).
Defined.

(** Numbers beyond 63 bits are all the same number. *)
Example large_versions_equal : CompareVersions "9223372036854775808.0.0" "9223372036854775809.0.0" = Ok 0.
Proof. vm_compute. reflexivity. Qed.
