(* ===== verification/SnapshotStore.v ===== *)
(** * The snapshots of the Controller (src/internal/controller: store_snapshots.go, snapshots.go, store_security.go, crypto.go)

    What a node is to do is built from the tables of resources, sealed and kept in one row
    per node; a row changes only to a higher generation.  The tables are given by the class
    [Tables]; the rows are in the state, where other Controllers and other calls change
    them between any two statements, by the same upsert or by deleting a node with its row
    ([st_rivals]), and any call of the database may fail ([st_answers]).  Secrets are stored encrypted and decrypted for the wire. *)
From S2P Require Import Prelude GoStd Effects Domain Checksum Validation Snapshot Datagram Json ControlWire Reconcile NodeCache.

(** ** Secrets (crypto.go) *)
Section Secrets.
Context `{AE : !AEAD}.
Definition masterKeyBytes : Z := 32.
Definition ErrMasterKey : error := ENew "master key must contain exactly 32 bytes".

(** The rest of the random source is returned, as in [encrypt]. *)
Definition EncryptSecret (key plaintext source : bytes) : result (bytes * bytes) :=
  _ ← reject_if (negb (llen key =? masterKeyBytes)) ErrMasterKey;
  encrypt key plaintext source.

Definition DecryptSecret (key ciphertext : bytes) : result bytes :=
  _ ← reject_if (negb (llen key =? masterKeyBytes)) ErrMasterKey;
  _ ← aes_NewCipher key;
  _ ← reject_if (List.length ciphertext <? NonceSize + Overhead)%nat (ENew "ciphertext is truncated");
  map_err (fun _ => ENew "ciphertext authentication failed") (gcm_open key (firstn NonceSize ciphertext) (skipn NonceSize ciphertext)).
End Secrets.

(** ** The store *)
Record snapshot_row := MkRow { Row_Generation : Z; Row_Checksum : string; Row_Document : string; Row_CreatedAt : string }.
Abbreviation snapshot_rows := (gmap string snapshot_row).

(** How a call of the database ends: [Lost] is a commit that took effect although its
    answer was an error. *)
Inductive answer := Granted | Refused (e : error) | Lost (e : error).

Class Tables (R : Type) := {
  table_GetNode : string -> M R Node;
  table_GetNodeSpec : string -> M R NodeSpec;
  table_ListNodes : M R (list Node);
  table_ListAssignments : string -> string -> M R (list Assignment);
  table_ListServices : string -> M R (list Service);
  table_GetService : string -> M R Service;
  (* SELECT 1 FROM nodes WHERE id=? *)
  table_node_exists : string -> M R unit
}.

(** [time.RFC3339Nano], and back for the times of the next two centuries. *)
Class StoredTime := {
  format_time : Z -> string;
  parse_time : string -> result Z;
  parse_format : forall t, 0 <= t < 2 ^ 63 -> parse_time (format_time t) = Ok t
}.

(** A row that another transaction commits; [None]: the node is purged (PurgeNode), and its
    row is deleted with it (ON DELETE CASCADE). *)
Abbreviation change := (string * option snapshot_row)%type.

Record store (R : Type) := MkStore {
  st_tables : R; st_rows : snapshot_rows; st_answers : list answer; st_rivals : list (list change);
  st_clock : list Z; st_random : bytes; st_notified : list string
}.
Arguments MkStore {R} _ _ _ _ _ _ _. Arguments st_tables {R} _. Arguments st_rows {R} _. Arguments st_answers {R} _.
Arguments st_rivals {R} _. Arguments st_clock {R} _. Arguments st_random {R} _. Arguments st_notified {R} _.

(** INSERT ... ON CONFLICT(node_id) DO UPDATE ... WHERE excluded.generation > generation. *)
Definition supersedes (row : snapshot_row) (current : option snapshot_row) : bool :=
  match current with Some c => Row_Generation row >? Row_Generation c | None => true end.
Definition upsert (rows : snapshot_rows) (w : string * snapshot_row) : snapshot_rows :=
  if supersedes w.2 (rows !! w.1) then <[w.1 := w.2]> rows else rows.
Definition change_row (rows : snapshot_rows) (w : change) : snapshot_rows :=
  match w.2 with Some row => upsert rows (w.1, row) | None => delete w.1 rows end.

Section Store.
Context {R : Type}.
Abbreviation ST A := (M (store R) A).

(** The other transactions, except on the row this transaction has locked. *)
Definition interfere (locked : option string) (rows : snapshot_rows) (ws : list change) : snapshot_rows :=
  foldl (fun rows w => if bool_decide (locked = Some w.1) then rows else change_row rows w) rows ws.

Definition db_call (locked : option string) : ST answer := fun s =>
  (MkStore (st_tables s) (interfere locked (st_rows s) (default [] (head (st_rivals s)))) (tl (st_answers s)) (tl (st_rivals s))
     (st_clock s) (st_random s) (st_notified s), Ok (default Granted (head (st_answers s)))).

Definition statement : ST unit :=
  a ← db_call None;
  match a with Granted => mret tt | Refused e | Lost e => fail e end.

Definition in_tables {A} (m : M R A) : ST A := fun s =>
  let '(r, x) := m (st_tables s) in (MkStore r (st_rows s) (st_answers s) (st_rivals s) (st_clock s) (st_random s) (st_notified s), x).

Definition now : ST Z := fun s =>
  (MkStore (st_tables s) (st_rows s) (st_answers s) (st_rivals s) (tl (st_clock s)) (st_random s) (st_notified s), Ok (default 0 (head (st_clock s)))).

Definition take_random {A} (f : bytes -> result (A * bytes)) : ST A := fun s =>
  match f (st_random s) with
  | Ok (a, rest) => (MkStore (st_tables s) (st_rows s) (st_answers s) (st_rivals s) (st_clock s) rest (st_notified s), Ok a)
  | Err e => (s, Err e)
  end.

Definition notifySnapshotChanges (nodeID : string) : ST unit := fun s =>
  (MkStore (st_tables s) (st_rows s) (st_answers s) (st_rivals s) (st_clock s) (st_random s) (st_notified s ++ [nodeID]), Ok tt).

Definition put_rows (rows : snapshot_rows) : ST unit := fun s =>
  (MkStore (st_tables s) rows (st_answers s) (st_rivals s) (st_clock s) (st_random s) (st_notified s), Ok tt).
Definition get_rows : ST snapshot_rows := fun s => (s, Ok (st_rows s)).

(** [beginWriteTx], and [commitWriteTx] of a transaction that has written [pending]; the
    fence they check is that of [Leadership]. *)
Definition begin_tx : ST unit := statement.
Definition write_pending (pending : option (string * snapshot_row)) : ST unit :=
  rows ← get_rows; put_rows (match pending with Some (nodeID, row) => <[nodeID := row]> rows | None => rows end).
Definition commit_tx (pending : option (string * snapshot_row)) : ST unit :=
  a ← db_call (fst <$> pending);
  match a with Granted => write_pending pending | Refused e => fail e | Lost e => _ ← write_pending pending; fail e end.

Definition select_row (nodeID : string) : ST (option snapshot_row) :=
  _ ← statement; rows ← get_rows; mret (rows !! nodeID).

(** The upsert of this transaction: what it has written, if anything. *)
Definition exec_upsert (nodeID : string) (row : snapshot_row) : ST (option (string * snapshot_row)) :=
  _ ← statement; rows ← get_rows; mret (if supersedes row (rows !! nodeID) then Some (nodeID, row) else None).
End Store.

(** ** Obfuscation keys at rest and on the wire (store_security.go) *)
(** A key with its ciphertext and its id. *)
Record key_slot := MkSlot { slot_key : string; slot_cipher : string; slot_id : string }.
Definition current_slot (p : ObfuscationPolicy) : key_slot := MkSlot (Obfuscation_Key p) (Obfuscation_KeyCiphertext p) (Obfuscation_KeyID p).
Definition previous_slot (p : ObfuscationPolicy) : key_slot := MkSlot (Obfuscation_PreviousKey p) (Obfuscation_PreviousKeyCiphertext p) (Obfuscation_PreviousKeyID p).
Definition with_slots (p : ObfuscationPolicy) (current previous : key_slot) : ObfuscationPolicy :=
  MkObfuscationPolicy (Obfuscation_Mode p) (slot_cipher current) (slot_cipher previous) (slot_id current) (slot_id previous)
    (slot_key current) (slot_key previous) (Obfuscation_MaxPaddingBytes p) (Obfuscation_HandshakeShaping p).
Definition no_key := MkSlot "" "" "".
Definition is_standard (p : ObfuscationPolicy) : bool := String.eqb (Obfuscation_Mode p) "" || String.eqb (Obfuscation_Mode p) "standard".

Section Keys.
Context `{AE : !AEAD, CR : !Crypto, SS : !SliceSort} {R : Type} (masterKey : bytes).
Abbreviation ST A := (M (store R) A).

Definition encrypt_slot (length encrypting : string) (s : key_slot) : ST key_slot :=
  if negb (slen (slot_key s) >? 0) then mret s else
  _ ← lift (reject_if (negb (slen (slot_key s) =? 32)) (ENew length));
  ciphertext ← take_random (fun source => map_err (EWrap encrypting []) (EncryptSecret masterKey (bytes_of (slot_key s)) source));
  mret (MkSlot "" (of_bytes ciphertext) (ObfuscationKeyID (slot_key s))).

(** A 32-byte key that a ciphertext hides. *)
Definition hidden_key (ciphertext : string) : option string :=
  match DecryptSecret masterKey (bytes_of ciphertext) with
  | Ok key => if llen key =? 32 then Some (of_bytes key) else None
  | Err _ => None
  end.

Definition identify_slot (invalid mismatch : string) (s : key_slot) : result key_slot :=
  match hidden_key (slot_cipher s) with
  | None => Err (ENew invalid)
  | Some key =>
      _ ← reject_if (negb (String.eqb (slot_id s) "") && negb (String.eqb (slot_id s) (ObfuscationKeyID key))) (ENew mismatch);
      Ok (MkSlot (slot_key s) (slot_cipher s) (ObfuscationKeyID key))
  end.

Definition without_key (s : key_slot) : key_slot := MkSlot "" (slot_cipher s) (slot_id s).

Definition protectObfuscationPolicy (p : ObfuscationPolicy) : ST ObfuscationPolicy :=
  if is_standard p then mret (with_slots p no_key no_key) else
  _ ← lift (reject_if (negb (String.eqb (Obfuscation_Mode p) "camouflage"))
              (apply_error "invalid_obfuscation" "obfuscation.mode" "obfuscation mode must be standard or camouflage"));
  current ← encrypt_slot "data-plane obfuscation key must contain exactly 32 bytes" "encrypt obfuscation key: %w" (current_slot p);
  _ ← lift (reject_if (slen (slot_cipher current) =? 0) (ENew "camouflage mode requires a protected current key"));
  current ← lift (identify_slot "camouflage current key is not a valid Controller-encrypted 32-byte key"
                    "obfuscation key id does not match the encrypted current key" current);
  previous ← encrypt_slot "previous data-plane obfuscation key must contain exactly 32 bytes" "encrypt previous obfuscation key: %w" (previous_slot p);
  previous ← (if negb (slen (slot_cipher previous) >? 0) then mret previous
              else lift (identify_slot "previous obfuscation key is not a valid Controller-encrypted 32-byte key"
                           "obfuscation previous key id does not match the encrypted previous key" previous));
  mret (with_slots p (without_key current) (without_key previous)).

(** The gateway's policy and those of the assignments. *)
Definition set_gateway_obfuscation (g : GatewaySpec) (o : ObfuscationPolicy) : GatewaySpec :=
  MkGatewaySpec (Gateway_NodeID g) (Gateway_PublicEndpoints g) (Gateway_Listeners g) (Gateway_Labels g) (Gateway_Capacity g)
    (Gateway_PortPool g) (Gateway_Transport g) o (Gateway_Egress g) (Gateway_Revision g).
Definition set_assignment_obfuscation (a : Assignment) (o : ObfuscationPolicy) : Assignment :=
  MkAssignment (Assignment_ID a) (Assignment_GatewayID a) (Assignment_AgentID a) (Assignment_ServiceIDs a) (Assignment_Bindings a)
    (Assignment_Generation a) (Assignment_State a) (Assignment_PublicEndpoint a) o (Assignment_Revision a) (Assignment_UpdatedAt a).
Definition with_policies (s : DesiredSnapshot) (gateway : option GatewaySpec) (assignments : list Assignment) : DesiredSnapshot :=
  MkSnapshot (Snapshot_SchemaVersion s) (Snapshot_NodeID s) (Snapshot_Generation s) (Snapshot_Checksum s) gateway (Snapshot_Agent s)
    (Snapshot_Services s) assignments.

Fixpoint map_assignments (f : ObfuscationPolicy -> ST ObfuscationPolicy) (assignments : list Assignment) : ST (list Assignment) :=
  match assignments with
  | [] => mret []
  | a :: assignments =>
      r ← try (f (Assignment_Obfuscation a));
      o ← lift (map_err (EWrap "assignment %q obfuscation: %w" [AStr (Assignment_ID a)]) r);
      rest ← map_assignments f assignments;
      mret (set_assignment_obfuscation a o :: rest)
  end.

Definition map_policies (f : ObfuscationPolicy -> ST ObfuscationPolicy) (s : DesiredSnapshot) : ST DesiredSnapshot :=
  gateway ← (match Snapshot_Gateway s with
             | None => mret None
             | Some g => o ← f (Gateway_Obfuscation g); mret (Some (set_gateway_obfuscation g o))
             end);
  assignments ← map_assignments f (Snapshot_Assignments s);
  mret (with_policies s gateway assignments).

Definition protect_snapshot : DesiredSnapshot -> ST DesiredSnapshot := map_policies protectObfuscationPolicy.

(** *** For the wire *)
Definition decryptObfuscationPolicyForWire (p : ObfuscationPolicy) : result ObfuscationPolicy :=
  if is_standard p then Ok (with_slots p (MkSlot "" "" (Obfuscation_KeyID p)) (MkSlot "" "" (Obfuscation_PreviousKeyID p))) else
  key ← (if negb (slen (Obfuscation_Key p) =? 0) then Ok (Obfuscation_Key p)
         else match hidden_key (Obfuscation_KeyCiphertext p) with
              | Some key => Ok key | None => Err (ENew "current obfuscation key cannot be decrypted") end);
  _ ← reject_if (negb (String.eqb (Obfuscation_KeyID p) "") && negb (String.eqb (Obfuscation_KeyID p) (ObfuscationKeyID key)))
        (ENew "wire obfuscation key id does not match current key");
  previous ← (if (slen (Obfuscation_PreviousKeyCiphertext p) >? 0) && (slen (Obfuscation_PreviousKey p) =? 0)
              then match hidden_key (Obfuscation_PreviousKeyCiphertext p) with
                   | Some key => Ok key | None => Err (ENew "previous obfuscation key cannot be decrypted") end
              else Ok (Obfuscation_PreviousKey p));
  _ ← reject_if (negb (slen key =? 32) || (negb (slen previous =? 0) && negb (slen previous =? 32)))
        (ENew "wire obfuscation key has an invalid length");
  previousID ← (if negb (slen previous >? 0) then Ok (Obfuscation_PreviousKeyID p) else
                _ ← reject_if (negb (String.eqb (Obfuscation_PreviousKeyID p) "") && negb (String.eqb (Obfuscation_PreviousKeyID p) (ObfuscationKeyID previous)))
                      (ENew "wire obfuscation previous key id does not match previous key");
                Ok (ObfuscationKeyID previous));
  Ok (with_slots p (MkSlot key "" (ObfuscationKeyID key)) (MkSlot previous "" previousID)).
End Keys.

(** ** The rows (store_snapshots.go) *)
Definition maxSnapshotDocument : Z := 16 * 2 ^ 20.
Definition max_int64 : Z := 2 ^ 63 - 1.

Definition uint64ToRevision (value : Z) : Z := if value >? max_int64 then max_int64 else value.

Definition RevisionConflict (resource : string) (expected actual : Z) : error :=
  EWrap "%s revision conflict: expected %d, current %d" [AStr resource; AInt expected; AInt actual] ErrRevisionConflict.
Definition snapshot_conflict (current generation : Z) : error :=
  RevisionConflict "desired_snapshot" (uint64ToRevision (if current <? max_int64 then current + 1 else current)) (uint64ToRevision generation).

Section Snapshots.
Context `{MO : !MapOrder, SS : !SliceSort, CR : !Crypto, UN : !Unicode, DJ : !DocumentJSON, AE : !AEAD, FO : !Fold,
          SJ : !JSON DesiredSnapshot, TM : !StoredTime} `{TB : Tables R} (masterKey : bytes).
Abbreviation ST A := (M (store R) A).

Definition matches_record (s : DesiredSnapshot) (record : SnapshotRecord) : bool :=
  String.eqb (Snapshot_NodeID s) (Record_NodeID record) && (Snapshot_Generation s =? Record_Generation record)
  && EqualFold (Snapshot_Checksum s) (Record_Checksum record).
Definition checksum_mismatch (message : string) : error := apply_error "checksum_mismatch" "checksum" message.
Definition record_incomplete (record : SnapshotRecord) : bool :=
  String.eqb (Record_NodeID record) "" || (Record_Generation record =? 0) || String.eqb (Record_Checksum record) "" || (slen (Record_Document record) =? 0).

(** What is checked and protected before the transaction: the document to store. *)
Definition prepare_document (record : SnapshotRecord) : ST string :=
  _ ← lift (reject_if (record_incomplete record) (ENew "snapshot node, generation, checksum and document are required"));
  _ ← lift (reject_if (slen (Record_Document record) >? maxSnapshotDocument) (ENew "snapshot document is too large"));
  _ ← lift (reject_if (Record_Generation record >? max_int64) (apply_error "invalid_generation" "generation" "generation exceeds repository limit"));
  snapshot ← lift (map_err (EWrap "snapshot document is invalid: %w" []) (json_unmarshal (bytes_of (Record_Document record))));
  snapshot ← protect_snapshot masterKey snapshot;
  document ← lift (map_err (EWrap "encode protected snapshot: %w" []) (json_marshal snapshot));
  _ ← lift (reject_if (negb (matches_record snapshot record)) (ENew "snapshot metadata does not match document"));
  _ ← lift (Snapshot_Validate snapshot);
  computed ← lift (map_err (EWrap "compute snapshot checksum: %w" []) (ComputeChecksum snapshot));
  _ ← lift (reject_if (negb (EqualFold computed (Record_Checksum record))) (checksum_mismatch "snapshot checksum does not match its content"));
  mret (of_bytes document).

(** The row that a record becomes. *)
Definition row_of (record : SnapshotRecord) (document : string) (createdAt : Z) : snapshot_row :=
  MkRow (Record_Generation record) (Record_Checksum record) document (format_time createdAt).

Definition same_content (record : SnapshotRecord) (row : snapshot_row) : bool :=
  (Record_Generation record =? Row_Generation row) && EqualFold (Record_Checksum record) (Row_Checksum row).

(** The upsert found a row that is not older: the row is read again. *)
Definition lost_race (record : SnapshotRecord) : ST unit :=
  persisted ← select_row (Record_NodeID record);
  match persisted with
  | None => fail (RevisionConflict "desired_snapshot" (uint64ToRevision (Record_Generation record)) 0)
  | Some row => if same_content record row then commit_tx None else fail (snapshot_conflict (Row_Generation row) (Record_Generation record))
  end.

Definition write_row (record : SnapshotRecord) (document : string) (createdAt : Z) : ST unit :=
  pending ← exec_upsert (Record_NodeID record) (row_of record document createdAt);
  match pending with
  | None => lost_race record
  | Some _ => _ ← commit_tx pending; notifySnapshotChanges (Record_NodeID record)
  end.

Definition SaveSnapshot (record : SnapshotRecord) : ST unit :=
  document ← prepare_document record;
  createdAt ← (if is_zero_time (Record_CreatedAt record) then now else mret (Record_CreatedAt record));
  _ ← begin_tx;
  current ← select_row (Record_NodeID record);
  match current with
  | None => _ ← statement; _ ← in_tables (table_node_exists (Record_NodeID record)); write_row record document createdAt
  | Some row =>
      if Record_Generation record <? Row_Generation row then fail (snapshot_conflict (Row_Generation row) (Record_Generation record)) else
      if Record_Generation record =? Row_Generation row then
        if EqualFold (Record_Checksum record) (Row_Checksum row) then commit_tx None
        else fail (snapshot_conflict (Row_Generation row) (Record_Generation record))
      else write_row record document createdAt
  end.

Definition validateSnapshotRecord (record : SnapshotRecord) : result unit :=
  _ ← reject_if (record_incomplete record) (ENew "stored snapshot metadata is incomplete");
  snapshot ← map_err (EWrap "stored snapshot document is invalid: %w" []) (json_unmarshal (bytes_of (Record_Document record)));
  _ ← Snapshot_Validate snapshot;
  _ ← reject_if (negb (matches_record snapshot record)) (apply_error "snapshot_metadata_mismatch" "" "stored snapshot metadata does not match its document");
  computed ← map_err (EWrap "compute stored snapshot checksum: %w" []) (ComputeChecksum snapshot);
  reject_if (negb (EqualFold computed (Record_Checksum record))) (checksum_mismatch "stored snapshot checksum does not match its content").

Definition parseStoredTime (field value : string) : result Z :=
  map_err (fun e => EWrap "%w: invalid stored %s: %w" [AStr field] (EJoin ErrStorageFailure e)) (parse_time value).

Definition LoadSnapshot (nodeID : string) : ST SnapshotRecord :=
  found ← select_row nodeID;
  match found with
  | None => fail ErrNoRows
  | Some row =>
      createdAt ← lift (parseStoredTime "snapshot.created_at" (Row_CreatedAt row));
      let record := MkSnapshotRecord nodeID (Row_Generation row) (Row_Checksum row) (Row_Document row) createdAt in
      _ ← lift (validateSnapshotRecord record);
      mret record
  end.

Definition GetSnapshot (nodeID : string) : ST DesiredSnapshot :=
  record ← LoadSnapshot nodeID;
  snapshot ← lift (json_unmarshal (bytes_of (Record_Document record)));
  _ ← lift (Snapshot_Validate snapshot);
  _ ← lift (reject_if (negb (matches_record snapshot record)) (apply_error "snapshot_metadata_mismatch" "" "stored snapshot metadata does not match its document"));
  computed ← lift (map_err (EWrap "compute snapshot checksum: %w" []) (ComputeChecksum snapshot));
  _ ← lift (reject_if (negb (EqualFold computed (Record_Checksum record))) (checksum_mismatch "stored snapshot checksum does not match its content"));
  mret snapshot.

Definition SnapshotDocumentForWire (document : string) : ST bytes :=
  snapshot ← lift (map_err (EWrap "decode snapshot for wire: %w" []) (json_unmarshal (bytes_of document)));
  snapshot ← map_policies (fun p => lift (decryptObfuscationPolicyForWire masterKey p)) snapshot;
  _ ← lift (map_err (EWrap "snapshot for wire is invalid: %w" []) (Snapshot_Validate snapshot));
  lift (json_marshal snapshot).

(** ** Building a snapshot (snapshots.go) *)
Definition bare_snapshot (nodeID : string) (generation : Z) : DesiredSnapshot :=
  MkSnapshot CurrentControlProtocolVersion nodeID generation "" None None [] [].

(** The services of a gateway's assignments, each read once. *)
Fixpoint read_services (assignmentID : string) (ids : list string) (serviceByID : gmap string Service) : ST (gmap string Service) :=
  match ids with
  | [] => mret serviceByID
  | serviceID :: ids =>
      if bool_decide (is_Some (serviceByID !! serviceID)) then read_services assignmentID ids serviceByID else
      r ← try (in_tables (table_GetService serviceID));
      service ← lift (map_err (EWrap "assignment %q service %q: %w" [AStr assignmentID; AStr serviceID]) r);
      read_services assignmentID ids (<[Service_ID service := service]> serviceByID)
  end.

Fixpoint read_all_services (assignments : list Assignment) (serviceByID : gmap string Service) : ST (gmap string Service) :=
  match assignments with
  | [] => mret serviceByID
  | a :: assignments => serviceByID ← read_services (Assignment_ID a) (Assignment_ServiceIDs a) serviceByID; read_all_services assignments serviceByID
  end.

Definition sorted_services (serviceByID : gmap string Service) : list Service :=
  omap (fun id => serviceByID !! id) (sort_strings (map_to_list serviceByID).*1).

Definition highest_generation (assignments : list Assignment) (generation : Z) : Z :=
  foldl (fun g a => if Assignment_Generation a >? g then Assignment_Generation a else g) generation assignments.

(** What the tables say, with the highest generation of its assignments. *)
Definition read_desired (nodeID : string) : ST DesiredSnapshot :=
  node ← in_tables (table_GetNode nodeID);
  r ← try (in_tables (table_GetNodeSpec (Node_ID node)));
  nodeSpec ← (match r with Err e => fail (if is_no_rows e then ErrNoRows else e) | Ok spec => mret spec end);
  '(gateway, agent, serviceByID, assignments) ←
    (if String.eqb (NodeSpec_Kind nodeSpec) NodeSpecGateway then
       assignments ← in_tables (table_ListAssignments (Node_ID node) "");
       serviceByID ← read_all_services assignments ∅;
       mret (NodeSpec_Gateway nodeSpec, None, serviceByID, assignments)
     else if String.eqb (NodeSpec_Kind nodeSpec) NodeSpecAgent then
       services ← in_tables (table_ListServices (Node_ID node));
       assignments ← in_tables (table_ListAssignments "" (Node_ID node));
       mret (None, NodeSpec_Agent nodeSpec, services_by_id services, assignments)
     else fail (apply_error "invalid_spec_kind" "node_spec.kind" "node spec kind must be gateway or agent"));
  mret (MkSnapshot CurrentControlProtocolVersion (Node_ID node) (highest_generation assignments 0) "" gateway agent
          (sorted_services serviceByID) assignments).

Definition set_generation (s : DesiredSnapshot) (generation : Z) : DesiredSnapshot :=
  MkSnapshot (Snapshot_SchemaVersion s) (Snapshot_NodeID s) generation (Snapshot_Checksum s) (Snapshot_Gateway s) (Snapshot_Agent s)
    (Snapshot_Services s) (Snapshot_Assignments s).

(** The snapshot sealed under the generation of the previous one if it has its content,
    or else under a higher one. *)
Definition seal_after (previous : option SnapshotRecord) (s : DesiredSnapshot) : result DesiredSnapshot :=
  match previous with
  | None => WithChecksum (if Snapshot_Generation s =? 0 then set_generation s 1 else s)
  | Some p =>
      let s := if Record_Generation p >? Snapshot_Generation s then set_generation s (Record_Generation p) else s in
      candidate ← WithChecksum s;
      if EqualFold (Record_Checksum p) (Snapshot_Checksum candidate) then Ok candidate else
      _ ← reject_if (Record_Generation p >=? max_int64) (ENew "desired snapshot generation is exhausted");
      WithChecksum (if Snapshot_Generation s <? Record_Generation p + 1 then set_generation s (Record_Generation p + 1) else s)
  end.

Definition BuildDesiredSnapshot (nodeID : string) : ST DesiredSnapshot :=
  snapshot ← read_desired nodeID;
  snapshot ← protect_snapshot masterKey snapshot;
  r ← try (LoadSnapshot (Snapshot_NodeID snapshot));
  previous ← (match r with Ok p => mret (Some p) | Err e => if is_no_rows e then mret None else fail e end);
  lift (seal_after previous snapshot).

Definition save_and_load (nodeID : string) (s : DesiredSnapshot) : ST SnapshotRecord :=
  data ← lift (json_marshal s);
  _ ← SaveSnapshot (MkSnapshotRecord (Snapshot_NodeID s) (Snapshot_Generation s) (Snapshot_Checksum s) (of_bytes data) 0);
  LoadSnapshot nodeID.

(** The node has no desired state: an empty snapshot retires what it runs. *)
Definition retire (nodeID : string) (noRows : error) : ST SnapshotRecord :=
  r ← try (LoadSnapshot nodeID);
  match r with
  | Err e => fail (if is_no_rows e then noRows else e)
  | Ok existing =>
      current ← lift (json_unmarshal (bytes_of (Record_Document existing)));
      if bool_decide (Snapshot_Gateway current = None) && bool_decide (Snapshot_Agent current = None) then mret existing else
      _ ← lift (reject_if (Record_Generation existing =? max_int64) (ENew "desired snapshot generation is exhausted"));
      cleared ← lift (WithChecksum (bare_snapshot nodeID (Record_Generation existing + 1)));
      save_and_load nodeID cleared
  end.

(** Under [snapshotMu]. *)
Definition EnsureDesiredSnapshot (nodeID : string) : ST SnapshotRecord :=
  r ← try (BuildDesiredSnapshot nodeID);
  match r with
  | Ok snapshot => save_and_load nodeID snapshot
  | Err e => if is_no_rows e then retire nodeID e else fail e
  end.

(** In the transaction of the caller: what it has written. *)
Definition clearDesiredSnapshotTx (nodeID : string) : ST (option (string * snapshot_row)) :=
  current ← select_row nodeID;
  generation ← lift (match current with
    | None => Ok 1
    | Some row => _ ← reject_if (Row_Generation row >=? max_int64) (ENew "desired snapshot generation is exhausted"); Ok (Row_Generation row + 1)
    end);
  snapshot ← lift (WithChecksum (bare_snapshot nodeID generation));
  document ← lift (json_marshal snapshot);
  t ← now;
  exec_upsert nodeID (MkRow (Snapshot_Generation snapshot) (Snapshot_Checksum snapshot) (of_bytes document) (format_time t)).

Fixpoint rebuild (nodes : list Node) : ST unit :=
  match nodes with
  | [] => mret tt
  | node :: nodes =>
      r ← try (EnsureDesiredSnapshot (Node_ID node));
      match r with Ok _ => rebuild nodes | Err e => if is_no_rows e then rebuild nodes else fail e end
  end.

Definition RebuildDesiredSnapshots : ST unit := nodes ← in_tables table_ListNodes; rebuild nodes.
End Snapshots.
