(* ===== verification/SnapshotStoreFacts.v ===== *)
(** * Facts about the snapshots of the Controller

    Until its node is purged a row only rises and a generation names one document; a row
    that is stored is sealed, valid and free of plain keys, an unchanged node keeps its generation, and a key
    survives the way from the operator to the wire. *)
From S2P Require Import Prelude GoStd Effects Domain Checksum Validation Snapshot SnapshotFacts Samples Datagram Json ControlWire ControlWireFacts Reconcile NodeCache NodeCacheFacts SnapshotStore.

(** ** Rows rise *)
(** A row rises until its node is purged. *)
Definition higher (row row' : snapshot_row) : Prop := row' = row \/ Row_Generation row < Row_Generation row'.
Definition rises (n : string) (rows rows' : snapshot_rows) : Prop :=
  forall row, rows !! n = Some row -> exists row', rows' !! n = Some row' /\ higher row row'.

#[export] Instance rises_preorder n : PreOrder (rises n).
Proof.
  split; [intros rows row Hr; exists row; by split; [|left]|]. intros a b c Hab Hbc row Ha.
  destruct (Hab row Ha) as (row1 & Hb & H1). destruct (Hbc row1 Hb) as (row2 & Hc & H2). exists row2. split; [done|].
  destruct H1 as [->|H1], H2 as [->|H2]; [by left | by right | by right | right; lia].
Qed.

Lemma rises_insert m rows n row : supersedes row (rows !! n) = true -> rises m rows (<[n := row]> rows).
Proof.
  intros Hs r Hm. destruct (decide (n = m)) as [<-|]; [|exists r; rewrite lookup_insert_ne by done; by split; [|left]].
  exists row. rewrite lookup_insert_eq. split; [done|]. rewrite Hm in Hs. cbn in Hs. rewrite Z.gtb_ltb in Hs. right. by apply Z.ltb_lt.
Qed.

Lemma rises_change m rows w : w <> (m, None) -> rises m rows (change_row rows w).
Proof.
  destruct w as [n [row|]]; unfold change_row; cbn [fst snd]; intros Hw.
  - unfold upsert. cbn [fst snd]. destruct (supersedes row (rows !! n)) eqn:E; [by apply rises_insert | done].
  - intros r Hr. exists r. rewrite lookup_delete_ne by congruence. by split; [|left].
Qed.

Lemma rises_interfere m locked ws : (m, None) ∉ ws -> forall rows, rises m rows (interfere locked rows ws).
Proof.
  induction ws as [|w ws IH]; intros Hd rows; cbn; [done|]. rewrite not_elem_of_cons in Hd. destruct Hd as [Hw Hd]. etransitivity; [|by apply IH].
  case_bool_decide; [done | apply rises_change; congruence].
Qed.

(** The locked row stays. *)
Lemma interfere_locked n ws : forall rows, interfere (Some n) rows ws !! n = rows !! n.
Proof.
  induction ws as [|w ws IH]; intros rows; cbn; [done|]. etransitivity; [apply IH|]. case_bool_decide as Hw; [done|].
  assert (n <> w.1) by congruence. unfold change_row. destruct w as [m [row|]]; cbn in *; [|by rewrite lookup_delete_ne].
  unfold upsert. cbn. destruct (supersedes _ _); [|done]. by rewrite lookup_insert_ne.
Qed.

(** ** An invariant of the rows, and what keeps it *)
Section Keeping.
Context {R : Type} (sound : string -> snapshot_row -> Prop).

Definition change_sound (w : change) : Prop := match w.2 with Some row => sound w.1 row | None => True end.
Definition rivals_sound (s : store R) : Prop := Forall (Forall change_sound) (st_rivals s).
Definition good (s : store R) : Prop := map_Forall sound (st_rows s) /\ rivals_sound s.

(** The node is purged by one of the changes that are still to come. *)
Definition purged (s : store R) (n : string) : Prop := exists ws, ws ∈ st_rivals s /\ (n, None) ∈ ws.
Definition later (s s' : store R) : Prop := forall n, ~ purged s n -> ~ purged s' n /\ rises n (st_rows s) (st_rows s').

#[export] Instance later_preorder : PreOrder later.
Proof.
  split; [by intros s n Hn|]. intros a b c Hab Hbc n Hn. destruct (Hab n Hn) as [H1 H2], (Hbc n H1) as [H3 H4]. split; [done|]. by etransitivity.
Qed.
Lemma later_rows s s' : st_rivals s' = st_rivals s -> (forall n, rises n (st_rows s) (st_rows s')) -> later s s'.
Proof. unfold later, purged. intros -> H n Hn. by split. Qed.

(** [m] only raises rows, and keeps them good; [gives m Q]: what it returns has [Q]. *)
Definition secures {A} (m : M (store R) A) : Prop := forall s s' r, m s = (s', r) -> later s s' /\ (good s -> good s').
Definition gives {A} (m : M (store R) A) (Q : A -> Prop) : Prop := forall s s' a, m s = (s', Ok a) -> Q a.

Lemma secures_same {A} (m : M (store R) A) : (forall s, st_rows (fst (m s)) = st_rows s /\ st_rivals (fst (m s)) = st_rivals s) -> secures m.
Proof. intros H s s' r Hm. specialize (H s). rewrite Hm in H. destruct H as [H1 H2]. cbn in *. split; [apply later_rows; [done | by rewrite H1]|]. unfold good, rivals_sound. by rewrite H1, H2. Qed.

Lemma secures_ret {A} (a : A) : secures (mret a).
Proof. by apply secures_same. Qed.
Lemma secures_fail {A} e : secures (fail (A := A) e).
Proof. by apply secures_same. Qed.
Lemma secures_lift {A} (r : result A) : secures (lift r).
Proof. by apply secures_same. Qed.
Lemma secures_in_tables {A} (m : M R A) : secures (in_tables m).
Proof. apply secures_same. intros s. unfold in_tables. by destruct (m (st_tables s)). Qed.
Lemma secures_now : secures now.
Proof. by apply secures_same. Qed.
Lemma secures_take_random {A} (f : bytes -> result (A * bytes)) : secures (take_random f).
Proof. apply secures_same. intros s. unfold take_random. by destruct (f _) as [[]|]. Qed.
Lemma secures_notify n : secures (notifySnapshotChanges n).
Proof. by apply secures_same. Qed.
Lemma secures_get_rows : secures get_rows.
Proof. by apply secures_same. Qed.

Lemma secures_bind {A B} (m : M (store R) A) (f : A -> M (store R) B) : secures m -> (forall a, secures (f a)) -> secures (m ≫= f).
Proof.
  intros Hm Hf s s' r H. apply M_bind_run in H as [(a & s1 & H1 & H2)|(e & H1 & ->)]; [|by eapply Hm].
  destruct (Hm _ _ _ H1) as [Ha Hb], (Hf a _ _ _ H2) as [Hc Hd]. split; [by etransitivity | auto].
Qed.

Lemma secures_bind_gives {A B} (m : M (store R) A) (f : A -> M (store R) B) Q : secures m -> gives m Q -> (forall a, Q a -> secures (f a)) -> secures (m ≫= f).
Proof.
  intros Hm Hq Hf s s' r H. apply M_bind_run in H as [(a & s1 & H1 & H2)|(e & H1 & ->)]; [|by eapply Hm].
  destruct (Hm _ _ _ H1) as [Ha Hb], (Hf a (Hq _ _ _ H1) _ _ _ H2) as [Hc Hd]. split; [by etransitivity | auto].
Qed.

Lemma secures_try {A} (m : M (store R) A) : secures m -> secures (try m).
Proof. intros Hm s s' r H. apply try_run in H as (r' & _ & H). by eapply Hm. Qed.

Lemma interfere_sound locked ws : forall rows, Forall change_sound ws -> map_Forall sound rows -> map_Forall sound (interfere locked rows ws).
Proof.
  induction ws as [|w ws IH]; intros rows Hw Hr; cbn; [done|]. apply Forall_cons in Hw as [Hw Hws]. apply IH; [done|].
  case_bool_decide; [done|]. unfold change_row. unfold change_sound in Hw. destruct w as [m [row|]]; cbn in *; [|by apply map_Forall_delete].
  unfold upsert. cbn. destruct (supersedes _ _); [by apply map_Forall_insert_2 | done].
Qed.

Lemma secures_db_call locked : secures (db_call locked).
Proof.
  intros s s' r [= <- <-]. cbn. split.
  { intros n Hn. unfold purged in *. cbn. destruct (st_rivals s) as [|ws rivals]; cbn; [done|]. split.
    - intros (ws' & Hws & Hin). apply Hn. exists ws'. split; [by right | done].
    - apply rises_interfere. intros Hin. apply Hn. exists ws. split; [by left | done]. }
  intros [Hr Hv]. unfold good, rivals_sound in *. cbn.
  destruct (st_rivals s) as [|ws rivals]; cbn; [done|]. apply Forall_cons in Hv as [Hw Hv]. split; [by apply interfere_sound | done].
Qed.
End Keeping.

Create HintDb secures.
#[export] Hint Resolve secures_ret secures_fail secures_lift secures_in_tables secures_now secures_take_random secures_notify secures_get_rows secures_try secures_db_call : secures.

Ltac secures_walk := repeat first [progress (eauto 2 with secures) | apply secures_bind; [|intros ?] | apply secures_try | case_match].

Section KeepingWrites.
Context {R : Type} (sound : string -> snapshot_row -> Prop).

Lemma secures_statement : secures (R := R) sound statement.
Proof. unfold statement. secures_walk. Qed.
Lemma secures_select_row n : secures (R := R) sound (select_row n).
Proof. unfold select_row. apply secures_bind; [apply secures_statement | intros _]. secures_walk. Qed.

Lemma secures_commit_nothing : secures (R := R) sound (commit_tx None).
Proof.
  unfold commit_tx. apply secures_bind; [apply secures_db_call | intros a].
  assert (Hw : secures (R := R) sound (write_pending None)) by by apply secures_same.
  destruct a; secures_walk.
Qed.

(** The commit of an upsert, whose row nobody else changes. *)
Lemma commit_upserted n row s s' r : sound n row -> supersedes row (st_rows s !! n) = true -> commit_tx (R := R) (Some (n, row)) s = (s', r) ->
  later s s' /\ (good sound s -> good sound s').
Proof.
  intros Hrow Hsup H. unfold commit_tx in H. apply M_bind_run in H as [(a & s1 & Hc & H)|(e & [=] & _)].
  destruct (secures_db_call sound (Some n) _ _ _ Hc) as [Hr Hg].
  assert (Hn : st_rows s1 !! n = st_rows s !! n) by (injection Hc as <- _; apply interfere_locked).
  assert (Hp : forall s2 r2, write_pending (R := R) (Some (n, row)) s1 = (s2, r2) -> later s s2 /\ (good sound s -> good sound s2)).
  { intros s2 r2 [= <- _]. cbn. rewrite <-Hn in Hsup. split; [etransitivity; [exact Hr | apply later_rows; [done | intros m; by apply rises_insert]]|].
    intros [Hg1 Hg2]%Hg. split; [by apply map_Forall_insert_2 | done]. }
  destruct a; [by eapply Hp | by injection H as <- _|].
  apply M_bind_run in H as [(u & s2 & H & [= <- _])|(e' & H & _)]; by eapply Hp.
Qed.

Lemma secures_upsert_then {A} n row (k0 k1 : M (store R) A) : sound n row -> secures sound k0 -> secures sound k1 ->
  secures sound (pending ← exec_upsert n row; match pending with None => k0 | Some _ => _ ← commit_tx pending; k1 end).
Proof.
  intros Hrow Hk0 Hk1 s s' r H.
  assert (He : secures sound (exec_upsert (R := R) n row)).
  { unfold exec_upsert. apply secures_bind; [apply secures_statement | intros _]. secures_walk. }
  apply M_bind_run in H as [(pending & s1 & H1 & H)|(e & H1 & ->)]; [|by eapply He].
  destruct (He _ _ _ H1) as [Hr Hg]. unfold exec_upsert in H1. apply M_bind_run in H1 as [([] & s0 & _ & H1)|(e & _ & [=])].
  apply M_bind_run in H1 as [(rows & s0' & [= <- <-] & [= -> <-])|(e & [=] & _)].
  destruct (supersedes row (st_rows s1 !! n)) eqn:Hsup.
  - apply M_bind_run in H as [(u & s2 & H & H2)|(e & H & ->)]; destruct (commit_upserted _ _ _ _ _ Hrow Hsup H) as [Hr2 Hg2].
    + destruct (Hk1 _ _ _ H2) as [Hr3 Hg3]. split; [by do 2 (etransitivity; [done|]) | auto].
    + split; [by etransitivity | auto].
  - destruct (Hk0 _ _ _ H) as [Hr2 Hg2]. split; [by etransitivity | auto].
Qed.

Lemma secures_upsert_commit n row : sound n row -> secures (R := R) sound (exec_upsert n row ≫= commit_tx).
Proof.
  intros Hrow s s' r H. apply (secures_upsert_then n row (commit_tx None) (mret tt) Hrow secures_commit_nothing (secures_ret sound tt) s s' r).
  revert H. cbv [mbind M_bind]. destruct (exec_upsert n row s) as [s1 [[w|]|e]]; [|done..].
  destruct (commit_tx (Some w) s1) as [s2 [[]|e]]; done.
Qed.

Lemma secures_assoc {A B C} (m : M (store R) A) (f : A -> M (store R) B) (g : B -> M (store R) C) :
  secures sound (m ≫= (fun a => f a ≫= g)) -> secures sound ((m ≫= f) ≫= g).
Proof.
  intros H s s' r Hr. apply (H s s' r). revert Hr. cbv [mbind M_bind]. by destruct (m s) as [s1 [a|e]].
Qed.
End KeepingWrites.
#[export] Hint Resolve secures_statement secures_select_row secures_commit_nothing : secures.

(** ** Sealed rows *)
Definition keyless (p : ObfuscationPolicy) : Prop := Obfuscation_Key p = "" /\ Obfuscation_PreviousKey p = "".
Definition secret_free (s : DesiredSnapshot) : Prop :=
  (forall g, Snapshot_Gateway s = Some g -> keyless (Gateway_Obfuscation g)) /\ Forall (fun a => keyless (Assignment_Obfuscation a)) (Snapshot_Assignments s).

Section Facts.
Context `{MO : !MapOrder, SS : !SliceSort, CR : !Crypto, UN : !Unicode, DJ : !DocumentJSON, AE : !AEAD, FO : !Fold,
          SJ : !JSON DesiredSnapshot, TM : !StoredTime} `{TB : Tables R} (masterKey : bytes).

(** The document of the row is that of a valid snapshot of the node, without plain keys,
    and its checksum is the one of its content. *)
Definition sealed_row (n : string) (row : snapshot_row) : Prop :=
  exists s checksum, json_marshal s = Ok (bytes_of (Row_Document row)) /\ secret_free s /\ Snapshot_Validate s = Ok tt
    /\ Snapshot_NodeID s = n /\ Snapshot_Generation s = Row_Generation row /\ EqualFold (Snapshot_Checksum s) (Row_Checksum row) = true
    /\ ComputeChecksum s = Ok checksum /\ EqualFold checksum (Row_Checksum row) = true /\ Row_Generation row <= max_int64.

Lemma protect_keyless p : gives (R := R) (protectObfuscationPolicy masterKey p) keyless.
Proof.
  intros s s' q H. unfold protectObfuscationPolicy in H. destruct (is_standard p); [by injection H as _ <-|].
  repeat (apply M_bind_run in H as [(? & ? & _ & H)|(? & _ & [=])]). injection H as _ <-. done.
Qed.

Lemma map_assignments_keyless assignments : gives (R := R) (map_assignments (protectObfuscationPolicy masterKey) assignments)
  (Forall (fun a => keyless (Assignment_Obfuscation a))).
Proof.
  induction assignments as [|a assignments IH]; intros s s' l H; cbn [map_assignments] in H; [injection H as _ <-; constructor|].
  apply M_bind_run in H as [(r & s1 & Hr & H)|(? & _ & [=])]. apply try_run in Hr as (r' & [= ->] & Hr).
  apply M_bind_run in H as [(o & s2 & Ho & H)|(? & _ & [=])]. injection Ho as <- Ho. apply map_err_Ok in Ho as ->.
  apply M_bind_run in H as [(rest & s3 & Hrest & H)|(? & _ & [=])]. injection H as _ <-. constructor; [by eapply protect_keyless | by eapply IH].
Qed.

Lemma protect_secret_free d : gives (R := R) (protect_snapshot masterKey d) secret_free.
Proof.
  intros s s' d' H. unfold protect_snapshot, map_policies in H. apply M_bind_run in H as [(gw & s1 & Hg & H)|(? & _ & [=])].
  apply M_bind_run in H as [(l & s2 & Hl & [= _ <-])|(? & _ & [=])]. split; [|by eapply map_assignments_keyless]. cbn.
  intros g ->. destruct (Snapshot_Gateway d) as [g0|]; [|done].
  apply M_bind_run in Hg as [(o & s3 & Ho & [= _ <-])|(? & _ & [=])]. by eapply protect_keyless.
Qed.

Lemma prepare_sealed record : gives (R := R) (prepare_document masterKey record) (fun document => forall t, sealed_row (Record_NodeID record) (row_of record document t)).
Proof.
  intros s s' document H. unfold prepare_document in H.
  do 2 (apply M_bind_run in H as [(? & ? & _ & H)|(? & _ & [=])]).
  apply M_bind_run in H as [(u1 & s1 & [= <- Hmax] & H)|(? & _ & [=])]. apply reject_if_Ok in Hmax.
  apply M_bind_run in H as [(d0 & s2 & _ & H)|(? & _ & [=])].
  apply M_bind_run in H as [(d & s3 & Hd & H)|(? & _ & [=])]. apply protect_secret_free in Hd.
  apply M_bind_run in H as [(doc & s4 & [= <- Hdoc] & H)|(? & _ & [=])]. apply map_err_Ok in Hdoc.
  apply M_bind_run in H as [(u2 & s5 & [= <- Hmatch] & H)|(? & _ & [=])]. apply reject_if_Ok, negb_false_iff in Hmatch.
  apply M_bind_run in H as [([] & s6 & [= <- Hvalid] & H)|(? & _ & [=])].
  apply M_bind_run in H as [(sum & s7 & [= <- Hsum] & H)|(? & _ & [=])]. apply map_err_Ok in Hsum.
  apply M_bind_run in H as [(u3 & s8 & [= <- Heq] & H)|(? & _ & [=])]. apply reject_if_Ok, negb_false_iff in Heq.
  injection H as _ <-. intros t. unfold matches_record in Hmatch. bool_facts. exists d, sum. cbn [row_of Row_Document Row_Generation Row_Checksum].
  rewrite bytes_of_of_bytes. split_and!; done.
Qed.

(** ** Every operation keeps the rows *)
Abbreviation kept := (secures (R := R) sealed_row).

Lemma kept_protect p : kept (protectObfuscationPolicy masterKey p).
Proof. unfold protectObfuscationPolicy, encrypt_slot. secures_walk. Qed.

Lemma kept_map_assignments f assignments : (forall p, kept (f p)) -> kept (map_assignments f assignments).
Proof. intros Hf. induction assignments as [|a assignments IH]; cbn [map_assignments]; secures_walk. Qed.

Lemma kept_map_policies f d : (forall p, kept (f p)) -> kept (map_policies f d).
Proof. intros Hf. unfold map_policies. pose proof (fun l => kept_map_assignments f l Hf). secures_walk; apply Hf. Qed.

Lemma kept_prepare record : kept (prepare_document masterKey record).
Proof. unfold prepare_document. pose proof (fun d => kept_map_policies _ d kept_protect). unfold protect_snapshot. secures_walk. Qed.

Lemma kept_SaveSnapshot record : kept (SaveSnapshot masterKey record).
Proof.
  unfold SaveSnapshot. eapply secures_bind_gives; [apply kept_prepare | apply prepare_sealed |]. intros document Hdoc.
  assert (Hw : forall t, kept (write_row record document t)).
  { intros t. unfold write_row. apply secures_upsert_then; [apply Hdoc | | apply secures_notify]. unfold lost_race. secures_walk. }
  unfold begin_tx. secures_walk; apply Hw.
Qed.

Lemma kept_LoadSnapshot n : kept (LoadSnapshot n).
Proof. unfold LoadSnapshot. secures_walk. Qed.

Lemma kept_read_services id ids : forall m, kept (read_services (R := R) id ids m).
Proof. induction ids as [|x ids IH]; intros m; cbn [read_services]; secures_walk. Qed.

Lemma kept_read_all assignments : forall m, kept (read_all_services (R := R) assignments m).
Proof. pose proof kept_read_services. induction assignments as [|a l IH]; intros m; cbn [read_all_services]; secures_walk. Qed.

Lemma kept_read_desired n : kept (read_desired n).
Proof. pose proof kept_read_all. unfold read_desired. secures_walk. Qed.

Lemma kept_Build n : kept (BuildDesiredSnapshot masterKey n).
Proof.
  pose proof kept_read_desired. pose proof kept_LoadSnapshot. pose proof (fun d => kept_map_policies _ d kept_protect).
  unfold BuildDesiredSnapshot, protect_snapshot. secures_walk.
Qed.

Lemma kept_save_and_load n d : kept (save_and_load masterKey n d).
Proof. pose proof kept_SaveSnapshot. pose proof kept_LoadSnapshot. unfold save_and_load. secures_walk. Qed.

Lemma kept_Ensure n : kept (EnsureDesiredSnapshot masterKey n).
Proof.
  pose proof kept_Build. pose proof kept_save_and_load. pose proof kept_LoadSnapshot. unfold EnsureDesiredSnapshot, retire. secures_walk.
Qed.

Lemma kept_Rebuild : kept (RebuildDesiredSnapshots masterKey).
Proof.
  unfold RebuildDesiredSnapshots. apply secures_bind; [apply secures_in_tables|]. intros nodes. pose proof kept_Ensure.
  induction nodes as [|node nodes IH]; cbn [rebuild]; secures_walk.
Qed.

Lemma kept_Get n : kept (GetSnapshot n).
Proof. pose proof kept_LoadSnapshot. unfold GetSnapshot. secures_walk. Qed.

Lemma kept_Wire document : kept (SnapshotDocumentForWire masterKey document).
Proof. unfold SnapshotDocumentForWire. apply secures_bind; [apply secures_lift | intros d]. apply secures_bind; [apply kept_map_policies; intros p; apply secures_lift | intros d']. secures_walk. Qed.

Lemma sealed_form d d' : WithChecksum d = Ok d' ->
  Snapshot_Validate d' = Ok tt /\ ComputeChecksum d' = Ok (Snapshot_Checksum d') /\ Snapshot_NodeID d' = Snapshot_NodeID d
  /\ Snapshot_Generation d' = Snapshot_Generation d /\ exists sum, d' = set_checksum (Normalize d) sum.
Proof.
  intros H. destruct (WithChecksum_validates d d' "" H) as (H1 & H2 & _). unfold WithChecksum in H.
  apply bind_Ok in H as (u & _ & H). apply bind_Ok in H as (sum & _ & [= <-]). split_and!; [done | done | by unfold Normalize; rewrite Clone_eq | by unfold Normalize; rewrite Clone_eq |].
  exists sum. by rewrite set_checksum_twice.
Qed.

Lemma bare_secret_free n g sum : secret_free (set_checksum (Normalize (bare_snapshot n g)) sum).
Proof.
  unfold Normalize. rewrite Clone_eq. split; [done|]. cbn. assert (H : sort_slice (key_less Assignment_ID) [] = []) by apply Permutation_nil, symmetry, sort_slice_perm.
  by rewrite H.
Qed.

(** The transaction of the caller, with its commit. *)
Lemma kept_clear n : kept (pending ← clearDesiredSnapshotTx n; commit_tx pending).
Proof.
  unfold clearDesiredSnapshotTx. apply secures_assoc, secures_bind; [apply secures_select_row | intros current].
  apply secures_assoc. eapply (secures_bind_gives _ _ _ (fun g => g <= max_int64)); [apply secures_lift | |intros g Hg].
  { intros s1 s2 g Hg. unfold lift in Hg. injection Hg as <- Hg. destruct current as [row|]; [|by injection Hg as <-]. inv_ok. rewrite Z.geb_leb in *. bool_facts. lia. }
  apply secures_assoc. eapply (secures_bind_gives _ _ _ (fun d => WithChecksum (bare_snapshot n g) = Ok d)); [apply secures_lift | by intros s1 s2 d [= _ Hd] | intros d Hd].
  apply secures_assoc. eapply (secures_bind_gives _ _ _ (fun doc => json_marshal d = Ok doc)); [apply secures_lift | by intros s1 s2 doc [= _ Hdoc] | intros doc Hdoc].
  apply secures_assoc, secures_bind; [apply secures_now | intros t]. apply secures_upsert_commit.
  destruct (sealed_form _ _ Hd) as (H1 & H2 & H3 & H4 & sum & Hsum). exists d, (Snapshot_Checksum d).
  cbn [Row_Document Row_Generation Row_Checksum]. rewrite bytes_of_of_bytes. split_and!; try done.
  - rewrite Hsum. apply bare_secret_free.
  - apply EqualFold_refl.
  - apply EqualFold_refl.
  - by rewrite H4.
Qed.

(** ** Runs among others *)
Inductive operation :=
| OpSave (record : SnapshotRecord) | OpEnsure (n : string) | OpBuild (n : string) | OpLoad (n : string) | OpGet (n : string)
| OpClear (n : string) | OpRebuild | OpWire (document : string).

(** The operation, its result dropped. *)
Definition run_operation (o : operation) (s : store R) : store R :=
  match o with
  | OpSave record => fst (SaveSnapshot masterKey record s)
  | OpEnsure n => fst (EnsureDesiredSnapshot masterKey n s)
  | OpBuild n => fst (BuildDesiredSnapshot masterKey n s)
  | OpLoad n => fst (LoadSnapshot n s)
  | OpGet n => fst (GetSnapshot n s)
  | OpClear n => fst ((pending ← clearDesiredSnapshotTx n; commit_tx pending) s)
  | OpRebuild => fst (RebuildDesiredSnapshots masterKey s)
  | OpWire document => fst (SnapshotDocumentForWire masterKey document s)
  end.
Definition run (ops : list operation) (s : store R) : store R := foldl (fun s o => run_operation o s) s ops.

Lemma kept_fst {A} (m : M (store R) A) s : kept m -> later s (fst (m s)) /\ (good sealed_row s -> good sealed_row (fst (m s))).
Proof. intros Hm. destruct (m s) as [s' r] eqn:E. by eapply Hm. Qed.

Lemma run_operation_kept o s : later s (run_operation o s) /\ (good sealed_row s -> good sealed_row (run_operation o s)).
Proof.
  destruct o; apply kept_fst; auto using kept_SaveSnapshot, kept_Ensure, kept_Build, kept_LoadSnapshot, kept_Get, kept_clear, kept_Rebuild, kept_Wire.
Qed.

Lemma run_kept ops : forall s, later s (run ops s) /\ (good sealed_row s -> good sealed_row (run ops s)).
Proof.
  induction ops as [|o ops IH]; intros s; cbn; [split; [done | auto]|]. destruct (run_operation_kept o s) as [H1 H2], (IH (run_operation o s)) as [H3 H4].
  split; [by etransitivity | auto].
Qed.

Lemma run_sealed ops s n row : good sealed_row s -> st_rows (run ops s) !! n = Some row -> sealed_row n row.
Proof. intros Hg Hr. destruct (run_kept ops s) as [_ H]. destruct (H Hg) as [Hall _]. exact (Hall n row Hr). Qed.

(** The rows that any number of Controllers can leave in one database that was empty: what
    a run finds, and what the others commit between its statements, are such rows too. *)
Inductive stored : string -> snapshot_row -> Prop :=
| stored_by ops (s : store R) n row :
    (forall m r, st_rows s !! m = Some r -> stored m r) ->
    (forall ws m r, ws ∈ st_rivals s -> (m, Some r) ∈ ws -> stored m r) ->
    st_rows (run ops s) !! n = Some row -> stored n row.

(** C18: However many Controllers work on one database that was empty at first, whatever
    operations each of them runs, whatever the others commit and whichever nodes are purged
    between its statements, and whichever calls of the database fail or lose their answer:
    every row that is stored is the encoding of a valid snapshot of its node, with its
    generation and checksum and without any plain key. *)
Theorem stored_snapshots_sealed n row : stored n row -> sealed_row n row.
Proof.
  induction 1 as [ops s n row _ IHrows _ IHrivals Hrow]. refine (run_sealed ops s n row _ Hrow). split; [exact IHrows|].
  apply Forall_forall. intros ws Hws. apply Forall_forall. intros [m [r|]] Hin; [|done]. exact (IHrivals ws m r Hws Hin).
Qed.

Lemma LoadSnapshot_Ok n (s s' : store R) record : LoadSnapshot n s = (s', Ok record) ->
  exists row, st_rows s' !! n = Some row /\ Record_NodeID record = n /\ Record_Generation record = Row_Generation row
    /\ Record_Checksum record = Row_Checksum row /\ Record_Document record = Row_Document row
    /\ parseStoredTime "snapshot.created_at" (Row_CreatedAt row) = Ok (Record_CreatedAt record) /\ validateSnapshotRecord record = Ok tt.
Proof.
  unfold LoadSnapshot. intros H. apply M_bind_run in H as [(found & s1 & H1 & H)|(? & _ & [=])].
  unfold select_row in H1. apply M_bind_run in H1 as [([] & s0 & _ & H1)|(? & _ & [=])]. apply M_bind_run in H1 as [(rows & s0' & [= <- <-] & [= -> <-])|(? & [=] & _)].
  destruct (st_rows s1 !! n) as [row|] eqn:E; [|done]. apply M_bind_run in H as [(t & s2 & [= <- Ht] & H)|(? & _ & [=])].
  apply M_bind_run in H as [([] & s3 & [= <- Hv] & H)|(? & _ & [=])]. injection H as <- <-. by exists row.
Qed.

(** C19: As long as a node is not purged, a generation names one document: of two
    snapshots of it that are loaded, whatever runs in between and whatever other
    Controllers commit, the later has a higher generation or is the same.  (When a node is
    purged its row is deleted with it, and a node of the same name starts again.) *)
Theorem generation_names_document n ops (s s1 s2 : store R) first second : ~ purged s1 n ->
  LoadSnapshot n s = (s1, Ok first) -> LoadSnapshot n (run ops s1) = (s2, Ok second) ->
  Record_Generation first < Record_Generation second \/ first = second.
Proof.
  intros Hp (row1 & Hr1 & Hn1 & Hg1 & Hc1 & Hd1 & Ht1 & _)%LoadSnapshot_Ok H2. destruct (run_kept ops s1) as [Hrise _]. destruct (Hrise n Hp) as [Hp2 Hrise1].
  destruct (kept_LoadSnapshot n _ _ _ H2) as [Hrise2 _]. destruct (Hrise2 n Hp2) as [_ Hrise3]. apply LoadSnapshot_Ok in H2 as (row2 & Hr2 & Hn2 & Hg2 & Hc2 & Hd2 & Ht2 & _).
  destruct (((rises_preorder n).(PreOrder_Transitive) _ _ _ Hrise1 Hrise3) row1 Hr1) as (row & Hr & [->|Hlt]); rewrite Hr2 in Hr; injection Hr as ->.
  - right. destruct first, second; cbn in *. congruence.
  - left. lia.
Qed.

(** ** Keys, from the operator to the wire *)
Lemma slen_zero (t : string) : (slen t =? 0) = String.eqb t "".
Proof. by destruct t. Qed.
Lemma slen_pos (t : string) : (slen t >? 0) = negb (String.eqb t "").
Proof. by destruct t. Qed.

Lemma DecryptSecret_EncryptSecret plain source cipher rest : EncryptSecret masterKey plain source = Ok (cipher, rest) -> DecryptSecret masterKey cipher = Ok plain.
Proof.
  unfold EncryptSecret, DecryptSecret, encrypt. intros H. apply bind_Ok in H as (u & Hk & H). rewrite Hk. apply bind_Ok in H as (u' & Ha & H). cbn [mbind result_bind]. rewrite Ha.
  cbn [mbind result_bind]. destruct (Nat.ltb_spec (List.length source) NonceSize) as [|Hl]; [done|]. injection H as <- _.
  assert (Hn : List.length (firstn NonceSize source) = NonceSize) by (rewrite length_take; lia).
  pose proof (gcm_seal_length masterKey (firstn NonceSize source) plain) as Hs.
  rewrite (proj2 (Nat.ltb_ge _ _)) by (rewrite length_app, Hn; unfold Overhead; lia). cbn [reject_if mbind result_bind].
  rewrite take_app_length', drop_app_length' by done. by rewrite gcm_open_seal.
Qed.

(** The key a slot stands for: the plain one, or else the hidden one, if there is any. *)
Definition key_of (s : key_slot) : option string :=
  if slen (slot_key s) >? 0 then Some (slot_key s) else if slen (slot_cipher s) >? 0 then hidden_key masterKey (slot_cipher s) else Some "".

Lemma hidden_key_length cipher key : hidden_key masterKey cipher = Some key -> slen key = 32 /\ (slen cipher >? 0) = true.
Proof.
  unfold hidden_key. intros H. split.
  - destruct (DecryptSecret masterKey (bytes_of cipher)) as [k|]; [|done]. destruct (Z.eqb_spec (llen k) 32) as [Hl|]; [|done]. injection H as <-.
    rewrite <-Hl. f_equal. rewrite <-(bytes_of_of_bytes k) at 2. by rewrite length_bytes_of.
  - rewrite slen_pos. destruct (String.eqb_spec cipher "") as [->|]; [|done]. unfold DecryptSecret in H. destruct (reject_if (negb (llen masterKey =? masterKeyBytes)) ErrMasterKey); [|discriminate H].
    cbn [mbind result_bind] in H. destruct (aes_NewCipher masterKey); discriminate H.
Qed.

Lemma encrypt_slot_Ok length encrypting sl sl' s s' : encrypt_slot (R := R) masterKey length encrypting sl s = (s', Ok sl') ->
  slot_key sl' = "" /\ key_of sl' = key_of sl /\ ((slen (slot_key sl) >? 0) = false -> sl' = sl)
  /\ ((slen (slot_key sl) >? 0) = true -> hidden_key masterKey (slot_cipher sl') = Some (slot_key sl) /\ slot_id sl' = ObfuscationKeyID (slot_key sl)).
Proof.
  unfold encrypt_slot, key_of. destruct (slen (slot_key sl) >? 0) eqn:E; cbn [negb].
  - intros H. apply M_bind_run in H as [(u & s1 & [= <- Hl] & H)|(? & _ & [=])]. apply reject_if_Ok, negb_false_iff, Z.eqb_eq in Hl.
    apply M_bind_run in H as [(c & s2 & Hc & [= _ <-])|(? & _ & [=])]. unfold take_random in Hc.
    destruct (map_err _ _) as [[c' rest]|] eqn:Ee; [|done]. injection Hc as _ ->. apply map_err_Ok, DecryptSecret_EncryptSecret in Ee.
    assert (Hh : hidden_key masterKey (of_bytes c) = Some (slot_key sl)).
    { unfold hidden_key. rewrite bytes_of_of_bytes, Ee. rewrite length_bytes_of, Hl. cbn. by rewrite of_bytes_bytes_of. }
    cbn [slot_key slot_cipher slot_id]. split_and!; try done. cbn. apply hidden_key_length in Hh as Hc. by rewrite (proj2 Hc).
  - intros [= _ <-]. rewrite E. split_and!; try done. rewrite slen_pos in E. by apply negb_false_iff, String.eqb_eq in E.
Qed.

Lemma identify_slot_Ok invalid mismatch sl sl' : identify_slot masterKey invalid mismatch sl = Ok sl' ->
  exists key, hidden_key masterKey (slot_cipher sl) = Some key /\ sl' = MkSlot (slot_key sl) (slot_cipher sl) (ObfuscationKeyID key).
Proof.
  unfold identify_slot. destruct (hidden_key masterKey (slot_cipher sl)) as [key|]; [|done]. intros H. inv_ok. by exists key.
Qed.

(** Where a policy with keys ends, protected. *)
Lemma protect_Ok p s s' q : is_standard p = false -> protectObfuscationPolicy (R := R) masterKey p s = (s', Ok q) ->
  exists current previous, q = with_slots p (MkSlot "" (slot_cipher current) (ObfuscationKeyID (default "" (key_of (current_slot p))))) (MkSlot "" (slot_cipher previous) (slot_id previous))
    /\ key_of (current_slot p) = hidden_key masterKey (slot_cipher current) /\ is_Some (hidden_key masterKey (slot_cipher current))
    /\ (if slen (slot_cipher previous) >? 0
        then exists key, key_of (previous_slot p) = Some key /\ hidden_key masterKey (slot_cipher previous) = Some key /\ slot_id previous = ObfuscationKeyID key
        else key_of (previous_slot p) = Some "").
Proof.
  intros Hst H. unfold protectObfuscationPolicy in H. rewrite Hst in H.
  apply M_bind_run in H as [(u & s1 & _ & H)|(? & _ & [=])].
  apply M_bind_run in H as [(c1 & s2 & (Hk1 & Hof1 & _)%encrypt_slot_Ok & H)|(? & _ & [=])].
  apply M_bind_run in H as [(u2 & s3 & [= <- Hne] & H)|(? & _ & [=])]. apply reject_if_Ok in Hne.
  apply M_bind_run in H as [(c2 & s4 & [= <- (key & Hkey & ->)%identify_slot_Ok] & H)|(? & _ & [=])].
  apply M_bind_run in H as [(p1 & s5 & (Hk2 & Hof2 & _)%encrypt_slot_Ok & H)|(? & _ & [=])].
  apply M_bind_run in H as [(p2 & s6 & Hp2 & [= _ <-])|(? & _ & [=])].
  apply hidden_key_length in Hkey as Hlen. destruct Hlen as [_ Hc].
  assert (Hcur : key_of (current_slot p) = Some key) by (rewrite <-Hof1; unfold key_of; by rewrite Hk1, Hc).
  exists c1. destruct (slen (slot_cipher p1) >? 0) eqn:Ec; cbn [negb] in Hp2.
  - injection Hp2 as _ (k2 & Hk & ->)%identify_slot_Ok. exists (MkSlot "" (slot_cipher p1) (ObfuscationKeyID k2)). cbn [slot_cipher slot_id]. rewrite Ec, Hcur, Hkey.
    split_and!; [done.. | by eexists |]. exists k2. split_and!; try done. rewrite <-Hof2. unfold key_of. by rewrite Hk2, Ec.
  - injection Hp2 as _ <-. exists p1. rewrite Ec, Hcur, Hkey. split_and!; [done.. | by eexists |]. rewrite <-Hof2. unfold key_of. by rewrite Hk2, Ec.
Qed.

(** What is sent for a policy: no ciphertext, no key in the standard mode, and otherwise the
    very keys that the policy stands for, under their ids. *)
Definition carries (p w : ObfuscationPolicy) : Prop :=
  Obfuscation_Mode w = Obfuscation_Mode p /\ Obfuscation_KeyCiphertext w = "" /\ Obfuscation_PreviousKeyCiphertext w = "" /\
  if is_standard p then keyless w
  else key_of (current_slot p) = Some (Obfuscation_Key w) /\ slen (Obfuscation_Key w) = 32 /\ Obfuscation_KeyID w = ObfuscationKeyID (Obfuscation_Key w)
       /\ key_of (previous_slot p) = Some (Obfuscation_PreviousKey w)
       /\ (Obfuscation_PreviousKey w <> "" -> slen (Obfuscation_PreviousKey w) = 32 /\ Obfuscation_PreviousKeyID w = ObfuscationKeyID (Obfuscation_PreviousKey w)).

Lemma decrypt_carries p w : decryptObfuscationPolicyForWire masterKey p = Ok w -> carries p w.
Proof.
  unfold decryptObfuscationPolicyForWire, carries. destruct (is_standard p) eqn:Hst; [by intros [= <-]|].
  intros H. apply bind_Ok in H as (key & Hkey & H). apply bind_Ok in H as (u1 & _ & H). apply bind_Ok in H as (previous & Hprev & H).
  apply bind_Ok in H as (u2 & Hlen%reject_if_Ok & H). apply bind_Ok in H as (pid & Hpid & [= <-]).
  apply orb_false_iff in Hlen as [Hlen%negb_false_iff%Z.eqb_eq Hplen].
  unfold key_of. cbn [with_slots Obfuscation_Mode Obfuscation_Key Obfuscation_KeyCiphertext Obfuscation_KeyID Obfuscation_PreviousKey
    Obfuscation_PreviousKeyCiphertext Obfuscation_PreviousKeyID slot_key slot_cipher slot_id current_slot previous_slot].
  rewrite !slen_pos, !slen_zero in *. split_and!; try done.
  - destruct (String.eqb_spec (Obfuscation_Key p) "") as [E|E]; cbn [negb] in *; [|by injection Hkey as <-].
    destruct (hidden_key masterKey (Obfuscation_KeyCiphertext p)) as [k|] eqn:Ek; [injection Hkey as ->|done].
    apply hidden_key_length in Ek as [_ Hc]. rewrite slen_pos in Hc. by rewrite Hc.
  - destruct (String.eqb_spec (Obfuscation_PreviousKey p) "") as [E|E]; cbn [negb] in *.
    + rewrite andb_true_r in Hprev. destruct (String.eqb_spec (Obfuscation_PreviousKeyCiphertext p) "") as [Ec|Ec]; cbn [negb] in *; [by injection Hprev as <-; rewrite E|].
      destruct (hidden_key masterKey (Obfuscation_PreviousKeyCiphertext p)); [by injection Hprev as -> | done].
    + rewrite andb_false_r in Hprev. by injection Hprev as <-.
  - intros Hne%String.eqb_neq. rewrite Hne in *. cbn [negb andb] in Hplen. apply negb_false_iff, Z.eqb_eq in Hplen. cbn [negb] in Hpid.
    split; [done|]. by apply bind_Ok in Hpid as (u3 & _ & [= <-]).
Qed.

(** C21: The keys of a camouflage policy that the Controller has protected, encrypted and
    without plain text, can be decrypted, and what is sent for it are these very keys, the
    current one and the previous one if there is any, each under its own id and under the
    ids that were stored, without the ciphertexts. *)
Theorem keys_reach_the_wire p s s' q : is_standard p = false -> protectObfuscationPolicy (R := R) masterKey p s = (s', Ok q) ->
  keyless q /\ exists w, decryptObfuscationPolicyForWire masterKey q = Ok w /\ carries q w
    /\ key_of (current_slot p) = Some (Obfuscation_Key w) /\ key_of (previous_slot p) = Some (Obfuscation_PreviousKey w)
    /\ Obfuscation_KeyID q = ObfuscationKeyID (Obfuscation_Key w)
    /\ (Obfuscation_PreviousKey w <> "" -> Obfuscation_PreviousKeyID q = ObfuscationKeyID (Obfuscation_PreviousKey w)).
Proof.
  intros Hst (current & previous & -> & Hcur & [key Hkey] & Hprev)%protect_Ok; [|done]. split; [done|]. rewrite Hkey in Hcur. apply hidden_key_length in Hkey as Hl.
  set (q := with_slots _ _ _). enough (exists w, decryptObfuscationPolicyForWire masterKey q = Ok w /\ Obfuscation_Key w = key /\ key_of (previous_slot p) = Some (Obfuscation_PreviousKey w)
    /\ (Obfuscation_PreviousKey w <> "" -> Obfuscation_PreviousKeyID q = ObfuscationKeyID (Obfuscation_PreviousKey w))) as (w & Hw & <- & H1 & H2).
  { exists w. split_and!; try done; [by apply decrypt_carries | cbn; by rewrite Hcur]. }
  destruct Hl as [Hlen _]. subst q. unfold decryptObfuscationPolicyForWire. change (is_standard (with_slots p ?a ?b)) with (is_standard p). rewrite Hst, Hcur.
  cbn [Obfuscation_Key with_slots slot_key String.length Z.of_nat Z.eqb negb Obfuscation_KeyCiphertext slot_cipher Obfuscation_KeyID slot_id default
       Obfuscation_PreviousKeyCiphertext Obfuscation_PreviousKey Obfuscation_PreviousKeyID].
  change (Z.of_nat 0 =? 0) with true. cbn [negb]. rewrite Hkey. cbn [mbind result_bind from_option id]. rewrite String.eqb_refl, andb_false_r, Hlen. cbn [reject_if mbind result_bind negb Z.eqb Pos.eqb orb].
  destruct (slen (slot_cipher previous) >? 0).
  - destruct Hprev as (pk & -> & Hpk & Hid). rewrite Hpk. apply hidden_key_length in Hpk as [Hplen _]. cbn [andb Z.eqb mbind result_bind]. rewrite Hplen, Hid.
    cbn [negb Z.eqb Pos.eqb andb reject_if mbind result_bind Z.gtb Z.compare]. rewrite String.eqb_refl, andb_false_r. cbn [reject_if mbind result_bind].
    eexists. split; [reflexivity|]. by cbn.
  - rewrite Hprev. cbn. eexists. split; [reflexivity|]. by cbn.
Qed.

(** ** The checksum of what is sent *)
Lemma wire_checksum_policy p w : decryptObfuscationPolicyForWire masterKey p = Ok w -> is_Ok (checksumObfuscation p) = true -> checksumObfuscation w = checksumObfuscation p.
Proof.
  unfold decryptObfuscationPolicyForWire. destruct (is_standard p) eqn:Hst.
  { intros [= <-] _. unfold checksumObfuscation, is_standard in *. cbn [Obfuscation_Mode with_slots]. by rewrite Hst. }
  intros H Hok. apply bind_Ok in H as (key & _ & H). apply bind_Ok in H as (u1 & Hid & H). apply bind_Ok in H as (previous & Hprev & H).
  apply bind_Ok in H as (u2 & _ & H). apply bind_Ok in H as (pid & Hpid & [= <-]). apply reject_if_Ok in Hid.
  unfold checksumObfuscation in Hok |- *. unfold is_standard in Hst. cbn [with_slots Obfuscation_Mode Obfuscation_KeyID Obfuscation_PreviousKeyID
    Obfuscation_MaxPaddingBytes Obfuscation_HandshakeShaping Obfuscation_PreviousKey Obfuscation_PreviousKeyCiphertext slot_id slot_key slot_cipher]. rewrite Hst in *.
  destruct (String.eqb (Obfuscation_Mode p) "camouflage"); [|done]. destruct (String.eqb_spec (Obfuscation_KeyID p) "") as [|Hne]; [done|].
  cbn [negb andb] in Hid. apply negb_false_iff, String.eqb_eq in Hid. rewrite <-Hid. apply String.eqb_neq in Hne as ->. cbn [reject_if mbind result_bind] in Hok |- *.
  rewrite !slen_pos, slen_zero in *. cbn [String.eqb negb]. rewrite orb_false_r.
  destruct (String.eqb_spec previous "") as [->|Hp]; cbn [negb] in *.
  - injection Hpid as <-. rewrite !andb_false_r. cbn [reject_if mbind result_bind]. by destruct (reject_if _ _).
  - destruct (String.eqb_spec (Obfuscation_PreviousKeyID p) "") as [E|E]; cbn [negb andb] in *.
    + exfalso. destruct (String.eqb_spec (Obfuscation_PreviousKeyCiphertext p) "") as [Ec|]; cbn [negb andb] in *; [|by rewrite orb_true_r in Hok].
      injection Hprev as <-. apply String.eqb_neq in Hp. by rewrite Hp in Hok.
    + apply bind_Ok in Hpid as (u3 & He & [= <-]). apply reject_if_Ok, negb_false_iff, String.eqb_eq in He. rewrite <-He.
      apply String.eqb_neq in E as ->. done.
Qed.

(** Sorting by id goes through a change that keeps the ids. *)
Lemma sort_fmap_key {A} (key : A -> string) (f : A -> A) l : (forall x, key (f x) = key x) -> NoDup (key <$> l) ->
  sort_slice (key_less key) (f <$> l) = f <$> sort_slice (key_less key) l.
Proof.
  intros Hf Hnd. assert (Hfk : forall l', key <$> (f <$> l') = key <$> l') by (intros l'; rewrite <-list_fmap_compose; apply list_fmap_ext; intros; apply Hf).
  transitivity (sort_slice (key_less key) (f <$> sort_slice (key_less key) l)).
  - apply sort_slice_unique; [by rewrite Hfk|]. by rewrite sort_slice_perm.
  - apply (StronglySorted_unique_strong (not_after (key_less key))).
    + intros x y Hx Hy Hxy Hyx. rewrite sort_slice_perm in Hx. assert (Hk : key x = key y) by (by apply string_less_antisym).
      assert (Hnd' : NoDup (key <$> (f <$> sort_slice (key_less key) l))) by by rewrite Hfk, sort_slice_perm.
      apply list_elem_of_lookup in Hx as [i Hi], Hy as [j Hj]. assert (i = j) as ->; [|congruence].
      eapply (NoDup_lookup _ i j (key x)); [exact Hnd' | |]; rewrite list_lookup_fmap; [by rewrite Hi | by rewrite Hj, Hk].
    + apply sort_slice_sorted, key_less_weak.
    + eapply StronglySorted_fmap; [|apply sort_slice_sorted, key_less_weak]. intros x y. unfold not_after, key_less. by rewrite !Hf.
    + by rewrite sort_slice_perm.
Qed.

(** The parts of a snapshot as they are sent. *)
Definition wire_assignment (a : Assignment) : Assignment :=
  match decryptObfuscationPolicyForWire masterKey (Assignment_Obfuscation a) with Ok o => set_assignment_obfuscation a o | Err _ => a end.
Definition wire_gateway (g : GatewaySpec) : GatewaySpec :=
  match decryptObfuscationPolicyForWire masterKey (Gateway_Obfuscation g) with Ok o => set_gateway_obfuscation g o | Err _ => g end.

Lemma map_assignments_wire l : forall (s s' : store R) l', map_assignments (fun p => lift (decryptObfuscationPolicyForWire masterKey p)) l s = (s', Ok l') -> l' = wire_assignment <$> l.
Proof.
  induction l as [|a l IH]; intros s s' l' H; cbn [map_assignments] in H; [by injection H as _ <-|].
  apply M_bind_run in H as [(r & s1 & Hr & H)|(? & _ & [=])]. injection Hr as <- <-.
  apply M_bind_run in H as [(o & s2 & [= <- Ho%map_err_Ok] & H)|(? & _ & [=])].
  apply M_bind_run in H as [(rest & s3 & Hrest%IH & [= _ <-])|(? & _ & [=])]. rewrite fmap_cons, Hrest. f_equal. unfold wire_assignment. by rewrite Ho.
Qed.

Lemma map_policies_wire u (s s' : store R) w : map_policies (fun p => lift (decryptObfuscationPolicyForWire masterKey p)) u s = (s', Ok w) ->
  w = with_policies u (wire_gateway <$> Snapshot_Gateway u) (wire_assignment <$> Snapshot_Assignments u).
Proof.
  intros H. unfold map_policies in H. apply M_bind_run in H as [(gw & s1 & Hg & H)|(? & _ & [=])].
  apply M_bind_run in H as [(l & s2 & Hl%map_assignments_wire & [= _ <-])|(? & _ & [=])]. rewrite Hl. f_equal.
  destruct (Snapshot_Gateway u) as [g|]; [|by injection Hg as _ <-]. apply M_bind_run in Hg as [(o & s3 & [= _ Ho] & [= _ <-])|(? & _ & [=])].
  cbn. unfold wire_gateway. by rewrite Ho.
Qed.

(** Every policy of [w] is sent for the policy in its place in [u], and nothing else differs. *)
Definition carried_gateway (g g' : GatewaySpec) : Prop := g' = set_gateway_obfuscation g (Gateway_Obfuscation g') /\ carries (Gateway_Obfuscation g) (Gateway_Obfuscation g').
Definition carried_assignment (a a' : Assignment) : Prop :=
  a' = set_assignment_obfuscation a (Assignment_Obfuscation a') /\ carries (Assignment_Obfuscation a) (Assignment_Obfuscation a').
Definition carried (u w : DesiredSnapshot) : Prop :=
  w = with_policies u (Snapshot_Gateway w) (Snapshot_Assignments w) /\ option_Forall2 carried_gateway (Snapshot_Gateway u) (Snapshot_Gateway w)
  /\ Forall2 carried_assignment (Snapshot_Assignments u) (Snapshot_Assignments w).

Lemma map_assignments_carried l : forall (s s' : store R) l', map_assignments (fun p => lift (decryptObfuscationPolicyForWire masterKey p)) l s = (s', Ok l') -> Forall2 carried_assignment l l'.
Proof.
  induction l as [|a l IH]; intros s s' l' H; cbn [map_assignments] in H; [injection H as _ <-; constructor|].
  apply M_bind_run in H as [(r & s1 & Hr & H)|(? & _ & [=])]. injection Hr as <- <-.
  apply M_bind_run in H as [(o & s2 & [= <- Ho%map_err_Ok] & H)|(? & _ & [=])].
  apply M_bind_run in H as [(rest & s3 & Hrest%IH & [= _ <-])|(? & _ & [=])]. constructor; [|done]. split; [done | by apply decrypt_carries].
Qed.

Lemma map_policies_carried u (s s' : store R) w : map_policies (fun p => lift (decryptObfuscationPolicyForWire masterKey p)) u s = (s', Ok w) -> carried u w.
Proof.
  intros H. unfold map_policies in H. apply M_bind_run in H as [(gw & s1 & Hg & H)|(? & _ & [=])].
  apply M_bind_run in H as [(l & s2 & Hl%map_assignments_carried & [= _ <-])|(? & _ & [=])]. split; [done|]. split; [|done]. cbn.
  destruct (Snapshot_Gateway u) as [g|]; [|injection Hg as _ <-; constructor]. apply M_bind_run in Hg as [(o & s3 & [= _ Ho] & [= _ <-])|(? & _ & [=])].
  constructor. split; [done | by apply decrypt_carries].
Qed.

Lemma document_wire_assignment a d : document_assignment a = Ok d -> document_assignment (wire_assignment a) = Ok d.
Proof.
  unfold wire_assignment. destruct (decryptObfuscationPolicyForWire masterKey (Assignment_Obfuscation a)) as [o|] eqn:E; [|done].
  unfold document_assignment. cbn [set_assignment_obfuscation Assignment_Obfuscation Assignment_ID]. intros H. apply bind_Ok in H as (c & Hc%map_err_Ok & H).
  rewrite (wire_checksum_policy _ _ E) by by rewrite Hc. by rewrite Hc.
Qed.

Lemma document_wire_gateway g d : document_gateway g = Ok d -> document_gateway (wire_gateway g) = Ok d.
Proof.
  unfold wire_gateway. destruct (decryptObfuscationPolicyForWire masterKey (Gateway_Obfuscation g)) as [o|] eqn:E; [|done].
  unfold document_gateway. cbn [set_gateway_obfuscation Gateway_Obfuscation]. intros H. apply bind_Ok in H as (c & Hc%map_err_Ok & H).
  rewrite (wire_checksum_policy _ _ E) by by rewrite Hc. by rewrite Hc.
Qed.

Lemma document_wire_loop l : forall i acc out,
  for_each (fun _ a acc => d ← document_assignment a; Ok (acc ++ [d])) i l acc = Ok out ->
  for_each (fun _ a acc => d ← document_assignment a; Ok (acc ++ [d])) i (wire_assignment <$> l) acc = Ok out.
Proof.
  induction l as [|a l IH]; intros i acc out; cbn [for_each fmap list_fmap]; [done|]. intros H. apply bind_Ok in H as (acc' & Ha & H).
  apply bind_Ok in Ha as (d & Hd & [= <-]). rewrite (document_wire_assignment _ _ Hd). cbn. by apply IH.
Qed.

Lemma wire_normalize a : normalize_assignment (wire_assignment a) = wire_assignment (normalize_assignment a).
Proof. unfold wire_assignment. cbn [normalize_assignment Assignment_Obfuscation]. by destruct (decryptObfuscationPolicyForWire masterKey (Assignment_Obfuscation a)). Qed.
Lemma wire_normalize_gateway g : normalize_gateway (wire_gateway g) = wire_gateway (normalize_gateway g).
Proof. unfold wire_gateway. cbn [normalize_gateway Gateway_Obfuscation]. by destruct (decryptObfuscationPolicyForWire masterKey (Gateway_Obfuscation g)). Qed.
Lemma wire_assignment_ID a : Assignment_ID (wire_assignment a) = Assignment_ID a.
Proof. unfold wire_assignment. by destruct (decryptObfuscationPolicyForWire _ _). Qed.

Lemma wire_checksum u c : NoDup (Assignment_ID <$> Snapshot_Assignments u) -> ComputeChecksum u = Ok c ->
  ComputeChecksum (with_policies u (wire_gateway <$> Snapshot_Gateway u) (wire_assignment <$> Snapshot_Assignments u)) = Ok c.
Proof.
  intros Hnd. unfold ComputeChecksum. intros H. apply bind_Ok in H as (d & Hd & H). enough (checksum_document (with_policies u (wire_gateway <$> Snapshot_Gateway u)
    (wire_assignment <$> Snapshot_Assignments u)) = Ok d) as -> by done. clear H. unfold checksum_document, Normalize in *. rewrite !Clone_eq in *.
  cbn [with_policies Snapshot_SchemaVersion Snapshot_NodeID Snapshot_Generation Snapshot_Gateway Snapshot_Agent Snapshot_Services Snapshot_Assignments] in *.
  apply bind_Ok in Hd as (gd & Hg & Hd). apply bind_Ok in Hd as (ad & Ha & [= <-]).
  assert (Hs : sort_slice (key_less Assignment_ID) (normalize_assignment <$> (wire_assignment <$> Snapshot_Assignments u))
            = wire_assignment <$> sort_slice (key_less Assignment_ID) (normalize_assignment <$> Snapshot_Assignments u)).
  { rewrite <-sort_fmap_key; [| exact wire_assignment_ID | by rewrite <-list_fmap_compose]. f_equal. rewrite <-!list_fmap_compose. apply list_fmap_ext. intros. apply wire_normalize. }
  rewrite Hs, (document_wire_loop _ _ _ _ Ha). destruct (Snapshot_Gateway u) as [g|]; cbn [fmap option_fmap option_map] in *.
  - rewrite wire_normalize_gateway. destruct (document_gateway (normalize_gateway g)) as [gd'|] eqn:E; [|done]. rewrite (document_wire_gateway _ _ E). by injection Hg as <-.
  - by injection Hg as <-.
Qed.

(** C20: What is sent for a loaded snapshot is the encoding of a valid snapshot of the node
    and generation of the record.  It is the stored one, except that each of its policies
    has no ciphertext and, unless it is standard, the plain keys that the ciphertexts of
    the stored one hide, under their ids; its content still has the checksum of the
    record. *)
Theorem wire_keeps_checksum n (s s1 s2 : store R) record data : LoadSnapshot n s = (s1, Ok record) ->
  SnapshotDocumentForWire masterKey (Record_Document record) s1 = (s2, Ok data) ->
  exists u w checksum, json_unmarshal (bytes_of (Record_Document record)) = Ok u /\ carried u w
    /\ json_marshal w = Ok data /\ Snapshot_Validate w = Ok tt /\ matches_record w record = true /\ Snapshot_NodeID w = n
    /\ ComputeChecksum w = Ok checksum /\ EqualFold checksum (Record_Checksum record) = true.
Proof.
  intros (row & _ & Hn & _ & _ & _ & _ & Hv)%LoadSnapshot_Ok H. unfold validateSnapshotRecord in Hv.
  apply bind_Ok in Hv as (u0 & _ & Hv). apply bind_Ok in Hv as (u & Hu%map_err_Ok & Hv). apply bind_Ok in Hv as ([] & Hvalid & Hv).
  apply bind_Ok in Hv as (u1 & Hmatch%reject_if_Ok%negb_false_iff & Hv). apply bind_Ok in Hv as (c & Hc%map_err_Ok & Heq%reject_if_Ok%negb_false_iff).
  unfold SnapshotDocumentForWire in H. apply M_bind_run in H as [(u' & s3 & [= <- Hu'%map_err_Ok] & H)|(? & _ & [=])].
  assert (u' = u) as -> by congruence. apply M_bind_run in H as [(w & s4 & Hw & H)|(? & _ & [=])]. apply map_policies_carried in Hw as Hcarried. apply map_policies_wire in Hw.
  apply M_bind_run in H as [([] & s5 & [= <- Hwv%map_err_Ok] & [= _ Hdata])|(? & _ & [=])]. exists u, w, c.
  destruct (Snapshot_Validate_loops u Hvalid) as (ix & st & _ & Hai). pose proof (ai_nodup _ _ _ _ Hai) as Hnd.
  split_and!; [done | done | done | done | by rewrite Hw | | rewrite Hw; by apply wire_checksum | done].
  unfold matches_record in Hmatch. apply andb_true_iff in Hmatch as [[Hm%String.eqb_eq _]%andb_true_iff _]. rewrite Hw. cbn. congruence.
Qed.

(** ** Without failures and rivals *)
Definition quiet (s : store R) : Prop := st_answers s = [] /\ st_rivals s = [].
(** An operation that reads, with an answer that does not depend on the state. *)
Definition constant {A} (m : M (store R) A) (r : result A) : Prop := forall s, m s = (s, r).

Lemma constant_bind {A B} (m : M (store R) A) (f : A -> M (store R) B) a r : constant m (Ok a) -> constant (f a) r -> constant (m ≫= f) r.
Proof. intros Hm Hf s. cbv [mbind M_bind]. rewrite Hm. apply Hf. Qed.
Lemma constant_bind_err {A B} (m : M (store R) A) (f : A -> M (store R) B) e : constant m (Err e) -> constant (m ≫= f) (Err e).
Proof. intros Hm s. cbv [mbind M_bind]. by rewrite Hm. Qed.

Definition constantly {A} (m : M (store R) A) : Prop := exists r, constant m r.
Lemma constantly_bind {A B} (m : M (store R) A) (f : A -> M (store R) B) : constantly m -> (forall a, constant m (Ok a) -> constantly (f a)) -> constantly (m ≫= f).
Proof.
  intros [[a|e] Hm] Hf; [|exists (Err e); by apply constant_bind_err]. destruct (Hf a Hm) as [r Hr]. exists r. by eapply constant_bind.
Qed.
Lemma constantly_bind_Ok {A B} (m : M (store R) A) (f : A -> M (store R) B) a : constant m (Ok a) -> constantly (f a) -> constantly (m ≫= f).
Proof. intros Hm [r Hr]. exists r. by eapply constant_bind. Qed.
Lemma constantly_lift {A} (r : result A) : constantly (lift r).
Proof. by exists r. Qed.
Lemma constantly_ret {A} (a : A) : constantly (mret a).
Proof. by exists (Ok a). Qed.
Lemma constantly_try {A} (m : M (store R) A) : constantly m -> constantly (try m).
Proof. intros [r Hr]. exists (Ok r). intros s. unfold try. by rewrite Hr. Qed.

Lemma protect_constant p : keyless p -> constantly (protectObfuscationPolicy masterKey p).
Proof.
  intros [H1 H2]. unfold protectObfuscationPolicy. destruct (is_standard p); [apply constantly_ret|].
  assert (He : forall a b sl, slot_key sl = "" -> encrypt_slot (R := R) masterKey a b sl = mret sl) by (intros a b sl Hs; unfold encrypt_slot; by rewrite Hs).
  apply constantly_bind; [apply constantly_lift | intros _ _]. rewrite (He _ _ (current_slot p)) by done. apply constantly_bind; [apply constantly_ret | intros current _].
  apply constantly_bind; [apply constantly_lift | intros _ _]. apply constantly_bind; [apply constantly_lift | intros current' _]. rewrite (He _ _ (previous_slot p)) by done.
  apply constantly_bind; [apply constantly_ret | intros previous _]. apply constantly_bind; [|intros; apply constantly_ret].
  destruct (negb _); [apply constantly_ret | apply constantly_lift].
Qed.

Lemma protect_snapshot_constant d : secret_free d -> constantly (protect_snapshot masterKey d).
Proof.
  intros [Hg Ha]. unfold protect_snapshot, map_policies. apply constantly_bind.
  - destruct (Snapshot_Gateway d) as [g|]; [|apply constantly_ret]. apply constantly_bind; [apply protect_constant; by apply Hg | intros; apply constantly_ret].
  - intros gw _. apply constantly_bind; [|intros; apply constantly_ret]. induction Ha as [|a l Hk Hl IH]; cbn [map_assignments]; [apply constantly_ret|].
    apply constantly_bind; [by apply constantly_try, protect_constant | intros r _]. apply constantly_bind; [apply constantly_lift | intros o _].
    apply constantly_bind; [exact IH | intros; apply constantly_ret].
Qed.

Lemma prepare_constant record u : json_unmarshal (bytes_of (Record_Document record)) = Ok u -> secret_free u -> constantly (prepare_document masterKey record).
Proof.
  intros Hu Hs. unfold prepare_document. do 3 (apply constantly_bind; [apply constantly_lift | intros _ _]).
  rewrite Hu. cbn [map_err]. apply (constantly_bind_Ok _ _ u); [done|]. apply constantly_bind; [by apply protect_snapshot_constant | intros u' _].
  repeat (apply constantly_bind; [apply constantly_lift | intros ? _]). apply constantly_ret.
Qed.

Lemma prepare_undecoded record : (exists e, json_unmarshal (bytes_of (Record_Document record)) = Err e) -> constantly (prepare_document masterKey record).
Proof.
  intros [e Hu]. unfold prepare_document. do 3 (apply constantly_bind; [apply constantly_lift | intros _ _]).
  rewrite Hu. eexists. by apply constant_bind_err.
Qed.

(** *** Quiet calls *)
Lemma quiet_db_call locked s : quiet s -> db_call locked s = (s, Ok Granted).
Proof. intros [Ha Hv]. unfold db_call. rewrite Ha, Hv. destruct s; cbn in *. by subst. Qed.

Lemma quiet_statement s : quiet s -> statement s = (s, Ok tt).
Proof. intros Hq. unfold statement. cbv [mbind M_bind]. by rewrite quiet_db_call. Qed.

Lemma quiet_select n s : quiet s -> select_row n s = (s, Ok (st_rows s !! n)).
Proof. intros Hq. unfold select_row. cbv [mbind M_bind]. by rewrite quiet_statement. Qed.

Lemma quiet_LoadSnapshot n s : quiet s -> exists r, LoadSnapshot n s = (s, r).
Proof.
  intros Hq. unfold LoadSnapshot. cbv [mbind M_bind]. rewrite quiet_select by done. destruct (st_rows s !! n) as [row|]; [|by eexists].
  unfold lift. destruct (parseStoredTime _ _); [|by eexists]. destruct (validateSnapshotRecord _); by eexists.
Qed.

Lemma quiet_load_again n s s' r : quiet s -> quiet s' -> st_rows s' = st_rows s -> LoadSnapshot n s = (s, r) -> LoadSnapshot n s' = (s', r).
Proof.
  intros Hq Hq' Hr. unfold LoadSnapshot. cbv [mbind M_bind]. rewrite !quiet_select, Hr by done. destruct (st_rows s !! n) as [row|]; [|by intros [= <-]].
  unfold lift. destruct (parseStoredTime _ _); [|by intros [= <-]]. destruct (validateSnapshotRecord _); by intros [= <-].
Qed.

(** The rows after the calls of a transaction. *)
Definition same_but_clock (s s' : store R) : Prop := st_rows s' = st_rows s /\ st_notified s' = st_notified s /\ st_tables s' = st_tables s /\ quiet s'.

Lemma quiet_commit_nothing s : quiet s -> commit_tx (R := R) None s = (s, Ok tt).
Proof. intros Hq. unfold commit_tx. cbv [mbind M_bind fmap option_fmap option_map]. rewrite quiet_db_call by done. unfold write_pending, get_rows, put_rows. cbv [mbind M_bind]. by destruct s. Qed.

(** Saving what is there changes nothing. *)
Lemma save_present record document s row : quiet s -> constant (prepare_document masterKey record) (Ok document) ->
  st_rows s !! Record_NodeID record = Some row -> same_content record row = true ->
  exists s', SaveSnapshot masterKey record s = (s', Ok tt) /\ same_but_clock s s'.
Proof.
  intros Hq Hd Hr Hs. unfold SaveSnapshot. apply andb_true_iff in Hs as [Hg%Z.eqb_eq Hc].
  assert (Hn : exists s1 t, (if is_zero_time (Record_CreatedAt record) then now else mret (Record_CreatedAt record)) s = (s1, Ok t) /\ same_but_clock s s1).
  { destruct (is_zero_time _); [|exists s, (Record_CreatedAt record); by split_and!]. eexists _, _. split; [reflexivity|]. by split_and!; cbn. }
  destruct Hn as (s1 & t & Hn & Hsame). exists s1. split; [|done]. destruct Hsame as (Hrows & _ & _ & Hq1).
  cbv [mbind M_bind]. rewrite Hd, Hn. unfold begin_tx. rewrite quiet_statement, quiet_select by done. rewrite Hrows, Hr, Hg, Z.ltb_irrefl, Z.eqb_refl, Hc.
  by apply quiet_commit_nothing.
Qed.

Lemma quiet_write_row record document t s : quiet s -> supersedes (row_of record document t) (st_rows s !! Record_NodeID record) = true ->
  exists s', write_row record document t s = (s', Ok tt) /\ quiet s' /\ st_rows s' !! Record_NodeID record = Some (row_of record document t).
Proof.
  intros Hq Hs. unfold write_row, exec_upsert, commit_tx. cbv [mbind M_bind]. rewrite quiet_statement by done. cbn [get_rows]. unfold get_rows. cbn [st_rows]. rewrite Hs.
  cbn [mret M_ret fmap option_fmap option_map fst]. rewrite quiet_db_call by done. eexists. split; [reflexivity|]. split; [done|]. cbn. apply lookup_insert_eq.
Qed.

Lemma same_content_refl record document t : same_content record (row_of record document t) = true.
Proof. unfold same_content, row_of. cbn. by rewrite Z.eqb_refl, EqualFold_refl. Qed.

Lemma saved_row record document s s' : quiet s -> constant (prepare_document masterKey record) (Ok document) -> SaveSnapshot masterKey record s = (s', Ok tt) ->
  quiet s' /\ exists row, st_rows s' !! Record_NodeID record = Some row /\ same_content record row = true.
Proof.
  intros Hq Hd H. unfold SaveSnapshot in H. apply M_bind_run in H as [(doc & s1 & Hp & H)|(? & _ & [=])]. rewrite Hd in Hp. injection Hp as <- <-.
  apply M_bind_run in H as [(t & s1 & Ht & H)|(? & _ & [=])].
  assert (Hq1 : quiet s1 /\ st_rows s1 = st_rows s).
  { destruct (is_zero_time _); [injection Ht as <- _; by destruct Hq | by injection Ht as <- _]. }
  destruct Hq1 as [Hq1 _]. unfold begin_tx in H. cbv [mbind M_bind] in H. rewrite quiet_statement, quiet_select in H by done.
  assert (Hw : forall x, quiet x -> supersedes (row_of record document t) (st_rows x !! Record_NodeID record) = true -> write_row record document t x = (s', Ok tt) ->
    quiet s' /\ exists row, st_rows s' !! Record_NodeID record = Some row /\ same_content record row = true).
  { intros x Hx Hsup Hrun. destruct (quiet_write_row record document t x Hx Hsup) as (x' & Hrun' & Hq' & Hrow). rewrite Hrun in Hrun'. injection Hrun' as <-.
    split; [done|]. eexists. split; [exact Hrow | apply same_content_refl]. }
  destruct (st_rows s1 !! Record_NodeID record) as [row|] eqn:Hrow.
  - destruct (Z.ltb_spec (Record_Generation record) (Row_Generation row)); [done|]. destruct (Z.eqb_spec (Record_Generation record) (Row_Generation row)) as [E|E].
    + destruct (EqualFold (Record_Checksum record) (Row_Checksum row)) eqn:Ec; [|done]. rewrite quiet_commit_nothing in H by done. injection H as <-.
      split; [done|]. exists row. split; [done|]. unfold same_content. by rewrite E, Z.eqb_refl, Ec.
    + apply (Hw s1); [done | | done]. rewrite Hrow. cbn. rewrite Z.gtb_ltb. apply Z.ltb_lt. lia.
  - rewrite quiet_statement in H by done. unfold in_tables in H. destruct (table_node_exists (Record_NodeID record) (st_tables s1)) as [T [u|e]]; [|done].
    eapply Hw; [ | | exact H]; [done|]. cbn [st_rows]. by rewrite Hrow.
Qed.

(** ** An unchanged node *)
Lemma seal_after_form previous d c : seal_after previous d = Ok c -> exists g, WithChecksum (set_generation d g) = Ok c /\ Snapshot_Generation d <= g.
Proof.
  assert (Hself : forall e, set_generation e (Snapshot_Generation e) = e) by by intros [].
  unfold seal_after. destruct previous as [p|].
  - set (e := if Record_Generation p >? Snapshot_Generation d then _ else d).
    assert (He : exists g, e = set_generation d g /\ Snapshot_Generation d <= g).
    { unfold e. rewrite Z.gtb_ltb. destruct (Z.ltb_spec (Snapshot_Generation d) (Record_Generation p)); [exists (Record_Generation p); split; [done | lia] | exists (Snapshot_Generation d); by rewrite Hself]. }
    destruct He as (g & He & Hg). clearbody e. intros H. apply bind_Ok in H as (c' & Hc & H). destruct (EqualFold _ _).
    + injection H as <-. exists g. by rewrite <-He.
    + apply bind_Ok in H as (u & _ & H). destruct (Z.ltb_spec (Snapshot_Generation e) (Record_Generation p + 1)) as [Hlt|].
      * rewrite He in Hlt, H. cbn in Hlt. exists (Record_Generation p + 1). split; [done | lia].
      * exists g. by rewrite <-He.
  - intros H. destruct (Z.eqb_spec (Snapshot_Generation d) 0) as [E|]; [exists 1; split; [done | lia] | exists (Snapshot_Generation d); by rewrite Hself].
Qed.

(** Sealed again after its own record, a snapshot is the same. *)
Lemma seal_again d g c record : WithChecksum (set_generation d g) = Ok c -> Snapshot_Generation d <= g -> Record_Generation record = g ->
  EqualFold (Record_Checksum record) (Snapshot_Checksum c) = true -> seal_after (Some record) d = Ok c.
Proof.
  intros Hc Hg Hr He. unfold seal_after. rewrite Hr. assert (Hs : (if g >? Snapshot_Generation d then set_generation d g else d) = set_generation d g).
  { rewrite Z.gtb_ltb. destruct (Z.ltb_spec (Snapshot_Generation d) g); [done|]. assert (g = Snapshot_Generation d) as -> by lia. by destruct d. }
  rewrite Hs, Hc. cbn [mbind result_bind]. by rewrite He.
Qed.

Lemma sealed_secret_free d g c : secret_free d -> WithChecksum (set_generation d g) = Ok c -> secret_free c.
Proof.
  intros [Hg Ha] (_ & _ & _ & _ & sum & ->)%sealed_form. unfold Normalize. rewrite Clone_eq. split; cbn.
  - destruct (Snapshot_Gateway d) as [g0|] eqn:E; [|done]. intros g1 [= <-]. exact (Hg g0 eq_refl).
  - rewrite sort_slice_perm. apply Forall_fmap. eapply Forall_impl; [exact Ha|]. done.
Qed.

Lemma lift_run {A} (r r' : result A) (s s' : store R) : lift r s = (s', r') -> s' = s /\ r = r'.
Proof. by intros [= <- <-]. Qed.

(** What the calls of an undisturbed build are. *)
Lemma quiet_build n T d p c s s1 : quiet s -> st_tables s = T -> (forall x, st_tables x = T -> read_desired n x = (x, Ok d)) -> Snapshot_NodeID d = n ->
  constant (protect_snapshot masterKey d) (Ok p) -> BuildDesiredSnapshot masterKey n s = (s1, Ok c) ->
  s1 = s /\ exists g, WithChecksum (set_generation p g) = Ok c /\ Snapshot_Generation p <= g.
Proof.
  intros Hq HT Hd Hn Hp H. unfold BuildDesiredSnapshot in H. cbv [mbind M_bind] in H. rewrite Hd, Hp in H by done.
  destruct (quiet_LoadSnapshot (Snapshot_NodeID p) s Hq) as [r Hr]. unfold try in H. rewrite Hr in H.
  destruct r as [record|e]; [|destruct (is_no_rows e); [|done]].
  - change (lift (seal_after (Some record) p) s = (s1, Ok c)) in H. apply lift_run in H as [-> H]. split; [done | by eapply seal_after_form].
  - change (lift (seal_after None p) s = (s1, Ok c)) in H. apply lift_run in H as [-> H]. split; [done | by eapply seal_after_form].
Qed.

Lemma protect_node d p : constant (protect_snapshot (R := R) masterKey d) (Ok p) -> forall s : store R, Snapshot_NodeID p = Snapshot_NodeID d.
Proof.
  intros Hp s. specialize (Hp s). unfold protect_snapshot, map_policies in Hp. apply M_bind_run in Hp as [(gw & s1 & _ & H)|(? & _ & [=])].
  by apply M_bind_run in H as [(l & s2 & _ & [= _ <-])|(? & _ & [=])].
Qed.

(** A plain key is not decoded from a document that was encoded without one. *)
Definition decodes_secret_free (c : DesiredSnapshot) : Prop := forall data c', secret_free c -> json_marshal c = Ok data -> json_unmarshal data = Ok c' -> secret_free c'.

(** A node whose tables do not change and hold no plain key keeps its snapshot, when no
    other Controller writes and no call fails: materialised once more, it gives the same
    record, writes no row and tells no stream, although its checksum and generation are
    computed again.  Of the JSON codec this needs only that no plain key is decoded from a
    document that has none. *)
Theorem unchanged_node_keeps_generation n T d c s s1 record : quiet s -> st_tables s = T -> (forall x, st_tables x = T -> read_desired n x = (x, Ok d)) ->
  secret_free d -> Snapshot_NodeID d = n -> BuildDesiredSnapshot masterKey n s = (s, Ok c) -> decodes_secret_free c ->
  EnsureDesiredSnapshot masterKey n s = (s1, Ok record) -> st_tables s1 = T ->
  exists s2, EnsureDesiredSnapshot masterKey n s1 = (s2, Ok record) /\ st_rows s2 = st_rows s1 /\ st_notified s2 = st_notified s1.
Proof.
  intros Hq HT Hd Hfree Hn Hb Hdec He HT1. destruct (protect_snapshot_constant d Hfree) as [[p|e] Hp].
  2:{ exfalso. unfold BuildDesiredSnapshot in Hb. cbv [mbind M_bind] in Hb. by rewrite Hd, Hp in Hb. }
  destruct (quiet_build n T d p c s s Hq HT Hd Hn Hp Hb) as (_ & g & Hc & Hg). pose proof (protect_node _ _ Hp s) as Hpn. rewrite Hn in Hpn.
  assert (Hpf : secret_free p) by (eapply protect_secret_free; apply (Hp s)). destruct (sealed_form _ _ Hc) as (_ & _ & Hcn & Hcg & _). cbn in Hcn, Hcg.
  unfold EnsureDesiredSnapshot in He. cbv [mbind M_bind try] in He. rewrite Hb in He. unfold save_and_load in He.
  apply M_bind_run in He as [(data & s0 & [= <- Hdata] & He)|(? & _ & [=])]. set (saved := MkSnapshotRecord _ _ _ _ _) in He.
  apply M_bind_run in He as [([] & s0 & Hsave & Hload)|(? & _ & [=])].
  assert (Hprep : constantly (prepare_document masterKey saved)).
  { destruct (json_unmarshal data) as [c'|e] eqn:Hc'.
    - apply (prepare_constant saved c'); [cbn; by rewrite bytes_of_of_bytes|]. apply (Hdec data c'); [by eapply sealed_secret_free | done | done].
    - apply prepare_undecoded. exists e. cbn. by rewrite bytes_of_of_bytes. }
  destruct Hprep as [[document|e] Hprep]; [|by (unfold SaveSnapshot in Hsave; cbv [mbind M_bind] in Hsave; rewrite Hprep in Hsave)].
  destruct (saved_row saved document s s0 Hq Hprep Hsave) as (Hq0 & row & Hrow & Hsame). destruct (quiet_LoadSnapshot n s0 Hq0) as [r Hr].
  rewrite Hr in Hload. injection Hload as <- ->. change (Record_NodeID saved) with (Snapshot_NodeID c) in Hrow. rewrite Hcn, Hpn in Hrow.
  apply LoadSnapshot_Ok in Hr as Hr'. destruct Hr' as (row' & Hrow' & _ & Hrg & Hrc & _). rewrite Hrow in Hrow'. injection Hrow' as <-.
  unfold same_content in Hsame. apply andb_true_iff in Hsame as Hsame'. destruct Hsame' as [Hsg%Z.eqb_eq Hsc]. cbn in Hsg, Hsc.
  assert (Hb1 : BuildDesiredSnapshot masterKey n s0 = (s0, Ok c)).
  { unfold BuildDesiredSnapshot. cbv [mbind M_bind try]. rewrite Hd, Hp by done. rewrite Hpn, Hr. change (lift (seal_after (Some record) p) s0 = (s0, Ok c)). unfold lift. rewrite (seal_again p g c record); [done.. | | ].
    - congruence.
    - by rewrite Hrc, EqualFold_sym. }
  destruct (save_present saved document s0 row Hq0 Hprep) as (s2 & Hs2 & Hrows & Hnot & Htab & Hq2).
  { cbn. by rewrite Hcn, Hpn. }
  { unfold same_content. cbn. by rewrite Hsg, Z.eqb_refl, Hsc. }
  exists s2. unfold EnsureDesiredSnapshot. cbv [mbind M_bind try]. rewrite Hb1. unfold save_and_load. cbv [mbind M_bind]. unfold lift at 1. rewrite Hdata. fold saved. rewrite Hs2.
  rewrite (quiet_load_again n s0 s2 (Ok record)) by done. done.
Qed.
End Facts.

(** ** Samples *)
(** Two documents that are told apart by [first]. *)
Section TwoDocuments.
Context (first : DesiredSnapshot -> bool) (a b : DesiredSnapshot).
Definition two_marshal (s : DesiredSnapshot) : result bytes := if first s then Ok ["1"%char] else Ok ["2"; "2"]%char.
Definition two_unmarshal (l : bytes) : result DesiredSnapshot := if bool_decide (l = ["1"%char]) then Ok a else if bool_decide (l = ["2"; "2"]%char) then Ok b else Err (ENew "json").
Definition two_next (l : bytes) : result (DesiredSnapshot * bytes) := v ← two_unmarshal l; Ok (v, []).
Definition two_exact (s : DesiredSnapshot) : Prop := two_marshal s ≫= two_unmarshal = Ok s.

Lemma two_nonempty v l : two_marshal v = Ok l -> l <> [].
Proof. unfold two_marshal. by case_match; intros [= <-]. Qed.
Lemma two_unmarshal_marshal v l : two_exact v -> two_marshal v = Ok l -> two_unmarshal l = Ok v.
Proof. unfold two_exact. intros H E. by rewrite E in H. Qed.
Lemma two_next_marshal v l : two_exact v -> two_marshal v = Ok l -> two_next l = Ok (v, []).
Proof. intros H E. unfold two_next. by rewrite (two_unmarshal_marshal v l H E). Qed.

Definition two_json : JSON DesiredSnapshot := {|
  json_marshal := two_marshal; json_next := two_next; json_unmarshal := two_unmarshal; json_exact := two_exact; json_nonempty := two_nonempty;
  json_next_marshal := two_next_marshal; json_unmarshal_marshal := two_unmarshal_marshal
|}.
End TwoDocuments.

Definition parse_decimal (s : string) : result Z := match strconv.digits_value (bytes_of s) 0 with Some t => Ok t | None => Err (EExternal "time.Parse") end.
Lemma parse_decimal_format t : 0 <= t < 2 ^ 63 -> parse_decimal (strconv.Itoa t) = Ok t.
Proof. intros [Ht _]. destruct (strconv.Itoa_digits t Ht) as (_ & _ & Hd). unfold parse_decimal. by rewrite Hd. Qed.
Definition decimal_time : StoredTime := {| format_time := strconv.Itoa; parse_time := parse_decimal; parse_format := parse_decimal_format |}.

#[local] Existing Instances go_order insertion_slice_sort toy_crypto ascii_unicode toy_json toy_aead hex_fold decimal_time.

(** One gateway; [true] in the state are tables whose assignment names a service that was
    deleted after the assignments were read. *)
Definition gateway_assignment := MkAssignment "asg-1" "gw-1" "agent-1" ["web"] [MkBinding "web" "tcp" "0.0.0.0" 20000] 1 AssignmentApplied "" default_Obfuscation 1 0.
Definition gateway_node := MkNode "gw-1" "gateway" "gw" None true "active" "01" 1 0 0.
Definition gateway_tables : Tables bool := {|
  table_GetNode := fun _ => mret gateway_node; table_GetNodeSpec := fun _ => mret (NewGatewayNodeSpec sample_gateway);
  table_ListNodes := mret [gateway_node]; table_ListAssignments := fun _ _ raced => (raced, Ok (if raced : bool then [gateway_assignment] else []));
  table_ListServices := fun _ => mret []; table_GetService := fun _ => fail ErrNoRows; table_node_exists := fun _ => mret tt
|}.
#[local] Existing Instance gateway_tables.

Definition gateway_desired : DesiredSnapshot := MkSnapshot 1 "gw-1" 0 "" (Some sample_gateway) None [] [].
Definition gateway_first : DesiredSnapshot := match WithChecksum (set_generation gateway_desired 1) with Ok c => c | Err _ => gateway_desired end.
Definition gateway_retired : DesiredSnapshot := match WithChecksum (bare_snapshot "gw-1" 2) with Ok c => c | Err _ => gateway_desired end.
Definition gateway_json := two_json (fun s => Snapshot_Generation s <? 2) gateway_first gateway_retired.
#[local] Existing Instance gateway_json.

Definition sample_master : bytes := replicate 32 "k"%char.
Definition empty_store : store bool := MkStore false ∅ [] [] [5; 6] [] [].
Definition first_run : store bool * result SnapshotRecord := EnsureDesiredSnapshot sample_master "gw-1" empty_store.
Definition raced (s : store bool) : store bool := MkStore true (st_rows s) (st_answers s) (st_rivals s) (st_clock s) (st_random s) (st_notified s).

(** A service that is deleted while a snapshot of its gateway is built retires the gateway:
    its missing row is taken for the missing behaviour of the node, so an empty snapshot of a
    higher generation is stored and announced. *)
Example deleted_service_retires_gateway :
  is_Ok (snd first_run) = true /\
  (fun r => Row_Generation r) <$> st_rows (fst first_run) !! "gw-1" = Some 1 /\
  let '(s, r) := EnsureDesiredSnapshot sample_master "gw-1" (raced (fst first_run)) in
  (fun r => (Row_Generation r, Row_Document r)) <$> st_rows s !! "gw-1" = Some (2, "22") /\ st_notified s = ["gw-1"; "gw-1"]
  /\ json_unmarshal (bytes_of "22") = Ok gateway_retired /\ Snapshot_Gateway gateway_retired = None.
Proof. vm_compute. repeat split; reflexivity. Qed.

(** ** Witnesses *)
Definition gateway_stored : store bool := fst first_run.
Definition gateway_record : SnapshotRecord := match snd first_run with Ok r => r | Err _ => MkSnapshotRecord "" 0 "" "" 0 end.
Definition gateway_rejected : SnapshotRecord := MkSnapshotRecord "gw-1" 1 "00" "1" 5.
Definition row_at (s : store bool) : snapshot_row := default (MkRow 0 "" "" "") (st_rows s !! "gw-1").

(** A commit without an answer, then the same once more, a record with a wrong checksum, and
    the retirement of the node. *)
Definition sample_operations : list operation := [OpEnsure "gw-1"; OpEnsure "gw-1"; OpSave gateway_rejected; OpClear "gw-1"].
Definition flaky_store : store bool :=
  MkStore false ∅ [Granted; Granted; Granted; Granted; Granted; Lost (ENew "reset"); Refused (ENew "busy")] [] [5; 6; 7] [] [].

Lemma empty_good (s : store bool) : st_rows s = ∅ -> st_rivals s = [] -> good (sealed_row (SJ := gateway_json)) s.
Proof. intros H1 H2. split; [rewrite H1; apply map_Forall_empty | unfold rivals_sound; rewrite H2; constructor]. Qed.

(** A purged node starts again at the first generation. *)
Example purged_node_starts_again :
  let s := run sample_master [OpEnsure "gw-1"; OpClear "gw-1"] empty_store in
  let purged := MkStore (st_tables s) (st_rows s) [] [[("gw-1", None)]] [9] [] [] in
  Row_Generation (row_at s) = 2 /\ Row_Generation (row_at (run sample_master [OpEnsure "gw-1"] purged)) = 1.
Proof. vm_compute. split; reflexivity. Qed.

(** Another Controller stores the first snapshot between the statements of this one. *)
Definition store_with_rival (row : snapshot_row) : store bool :=
  MkStore false ∅ [Granted; Granted; Granted; Granted; Lost (ENew "reset")] [[]; []; [("gw-1", Some row)]] [5; 6; 7] [] [].
Lemma rival_stored row : stored sample_master "gw-1" row -> forall ws m r, ws ∈ st_rivals (store_with_rival row) -> (m, Some r) ∈ ws -> stored sample_master m r.
Proof.
  intros Hrow ws m r Hws Hin. cbn in Hws. apply elem_of_cons in Hws as [->|Hws]; [by apply elem_of_nil in Hin|]. apply elem_of_cons in Hws as [->|Hws]; [by apply elem_of_nil in Hin|].
  apply list_elem_of_singleton in Hws as ->. apply list_elem_of_singleton in Hin. by injection Hin as -> ->.
Qed.
Definition rival_store : store bool := store_with_rival (row_at gateway_stored).
Lemma gateway_row_stored : stored sample_master "gw-1" (row_at gateway_stored).
Proof.
  apply (stored_by sample_master [OpEnsure "gw-1"] empty_store).
  - intros m r Hm. vm_compute in Hm. discriminate Hm.
  - intros ws m r Hws. apply elem_of_nil in Hws. destruct Hws.
  - vm_compute. reflexivity.
Qed.

Lemma stored_snapshots_sealed_witness :
  Row_Generation (row_at (run sample_master sample_operations rival_store)) = 2 /\ st_notified (run sample_master sample_operations rival_store) = []
  /\ sealed_row "gw-1" (row_at (run sample_master sample_operations rival_store)).
Proof.
  split; [vm_compute; reflexivity|]. split; [vm_compute; reflexivity|]. apply (stored_snapshots_sealed sample_master).
  apply (stored_by sample_master sample_operations rival_store).
  - intros m r Hm. vm_compute in Hm. discriminate Hm.
  - exact (rival_stored (row_at gateway_stored) gateway_row_stored).
  - vm_compute. reflexivity.
Defined.

Lemma generation_names_document_witness :
  let s1 := fst (LoadSnapshot "gw-1" gateway_stored) in
  let second := snd (LoadSnapshot "gw-1" (run sample_master [OpClear "gw-1"] s1)) in
  exists r, second = Ok r /\ (Record_Generation gateway_record < Record_Generation r \/ gateway_record = r) /\ Record_Generation r = 2.
Proof.
  cbv zeta. destruct (LoadSnapshot "gw-1" (run sample_master [OpClear "gw-1"] (fst (LoadSnapshot "gw-1" gateway_stored)))) as [s2 [r|e]] eqn:E.
  2:{ exfalso. apply (f_equal (fun x => is_Ok (snd x))) in E. vm_compute in E. discriminate E. }
  exists r. split; [reflexivity|].
  assert (H1 : LoadSnapshot "gw-1" gateway_stored = (fst (LoadSnapshot "gw-1" gateway_stored), Ok gateway_record)) by (vm_compute; reflexivity).
  assert (H0 : ~ purged (fst (LoadSnapshot "gw-1" gateway_stored)) "gw-1") by (intros (ws & Hws & _); apply elem_of_nil in Hws; destruct Hws).
  pose proof (generation_names_document sample_master "gw-1" [OpClear "gw-1"] _ _ s2 gateway_record r H0 H1 E) as H. split; [exact H|].
  apply (f_equal (fun x => match snd x with Ok r => Record_Generation r | Err _ => 0 end)) in E. vm_compute in E. symmetry. exact E.
Defined.

Definition keyed_policy : ObfuscationPolicy :=
  MkObfuscationPolicy "camouflage" "" "" "" "" "0123456789abcdef0123456789abcdef" "fedcba9876543210fedcba9876543210" 0 false.
Definition keyed_store : store bool := MkStore false ∅ [] [] [] (replicate 24 "n"%char) [].
Definition keyed_stored : ObfuscationPolicy := match snd (protectObfuscationPolicy sample_master keyed_policy keyed_store) with Ok q => q | Err _ => keyed_policy end.

Lemma keys_reach_the_wire_witness :
  keyless keyed_stored /\ exists w, decryptObfuscationPolicyForWire sample_master keyed_stored = Ok w
    /\ Obfuscation_Key w = Obfuscation_Key keyed_policy /\ Obfuscation_PreviousKey w = Obfuscation_PreviousKey keyed_policy.
Proof.
  assert (H : protectObfuscationPolicy sample_master keyed_policy keyed_store = (fst (protectObfuscationPolicy sample_master keyed_policy keyed_store), Ok keyed_stored)) by (vm_compute; reflexivity).
  destruct (keys_reach_the_wire sample_master keyed_policy _ _ _ eq_refl H) as (Hk & w & Hw & _ & H1 & H2 & _). split; [exact Hk|]. exists w. split; [exact Hw|].
  split; [injection H1 as H1 | injection H2 as H2]; symmetry; assumption.
Defined.

(** A gateway with keys, as it is stored and as it is sent. *)
Section KeyedGateway.
Definition keyed_desired : DesiredSnapshot := set_generation (with_policies gateway_desired (Some (set_gateway_obfuscation sample_gateway keyed_policy)) []) 1.
Definition run_or {A} (d : A) (m : M (store bool) A) (s : store bool) : A := match snd (m s) with Ok a => a | Err _ => d end.
Definition keyed_sealed : DesiredSnapshot :=
  match WithChecksum (run_or keyed_desired (protect_snapshot sample_master keyed_desired) keyed_store) with Ok c => c | Err _ => keyed_desired end.
Definition keyed_sent : DesiredSnapshot := run_or keyed_desired (map_policies (fun p => lift (decryptObfuscationPolicyForWire sample_master p)) keyed_sealed) keyed_store.
Definition gateway_policy (s : DesiredSnapshot) : ObfuscationPolicy := match Snapshot_Gateway s with Some g => Gateway_Obfuscation g | None => default_Obfuscation end.
Definition keyed_json := two_json (fun s => String.eqb (Obfuscation_Key (gateway_policy s)) "") keyed_sealed keyed_sent.
Definition keyed_rows : snapshot_rows := {["gw-1" := MkRow 1 (Snapshot_Checksum keyed_sealed) "1" "5"]}.
Definition keyed_loaded : store bool := MkStore false keyed_rows [] [] [] [] [].
Definition keyed_record : SnapshotRecord := MkSnapshotRecord "gw-1" 1 (Snapshot_Checksum keyed_sealed) "1" 5.

Lemma wire_keeps_checksum_witness :
  Obfuscation_Key (gateway_policy keyed_sealed) = "" /\ Obfuscation_KeyCiphertext (gateway_policy keyed_sealed) <> ""
  /\ gateway_policy keyed_sent = MkObfuscationPolicy "camouflage" "" "" (Obfuscation_KeyID (gateway_policy keyed_sealed)) (Obfuscation_PreviousKeyID (gateway_policy keyed_sealed))
        (Obfuscation_Key keyed_policy) (Obfuscation_PreviousKey keyed_policy) 0 false
  /\ exists u w checksum, json_unmarshal (JSON := keyed_json) (bytes_of "1") = Ok u /\ carried sample_master u w /\ json_marshal (JSON := keyed_json) w = Ok (bytes_of "22")
    /\ ComputeChecksum w = Ok checksum /\ EqualFold checksum (Snapshot_Checksum keyed_sealed) = true.
Proof.
  split; [vm_compute; reflexivity|]. split; [vm_compute; discriminate|]. split; [vm_compute; reflexivity|].
  assert (H1 : LoadSnapshot (SJ := keyed_json) "gw-1" keyed_loaded = (keyed_loaded, Ok keyed_record)) by (vm_compute; reflexivity).
  assert (H2 : SnapshotDocumentForWire (SJ := keyed_json) sample_master "1" keyed_loaded = (keyed_loaded, Ok (bytes_of "22"))) by (vm_compute; reflexivity).
  destruct (wire_keeps_checksum (SJ := keyed_json) sample_master "gw-1" keyed_loaded keyed_loaded keyed_loaded keyed_record _ H1 H2) as (u & w & c & Hu & Hc & Hw & _ & _ & _ & Hs & He).
  exists u, w, c. repeat (split; [assumption|]). exact He.
Defined.
End KeyedGateway.

Lemma unchanged_node_keeps_generation_witness :
  exists s2, EnsureDesiredSnapshot sample_master "gw-1" gateway_stored = (s2, Ok gateway_record)
    /\ st_rows s2 = st_rows gateway_stored /\ st_notified s2 = ["gw-1"].
Proof.
  assert (Hr : EnsureDesiredSnapshot sample_master "gw-1" empty_store = (gateway_stored, Ok gateway_record)) by (vm_compute; reflexivity).
  assert (Hb : BuildDesiredSnapshot sample_master "gw-1" empty_store = (empty_store, Ok gateway_first)) by (vm_compute; reflexivity).
  destruct (unchanged_node_keeps_generation sample_master "gw-1" false gateway_desired gateway_first empty_store gateway_stored gateway_record) as (s2 & H1 & H2 & H3).
  - split; reflexivity.
  - reflexivity.
  - intros [T rows answers rivals clock random notified] HT. cbn in HT. subst T. reflexivity.
  - split; [intros g [= <-]; split; reflexivity | constructor].
  - reflexivity.
  - exact Hb.
  - intros data c' _ Hm Hu. vm_compute in Hm. injection Hm as <-. injection Hu as <-. split; [intros g [= <-]; split; reflexivity | constructor].
  - exact Hr.
  - reflexivity.
  - exists s2. split; [exact H1|]. split; [exact H2|]. rewrite H3. vm_compute. reflexivity.
Defined.
