(* ===== verification/Enrollment.v ===== *)
(** * Enrollment of nodes (src/internal/controller: enrollment_issue.go,
    enrollment_consume.go, enrollment_pending.go, enrollment_cert.go, and the
    idempotency keys of store_security.go)

    A node gets its certificate for a token that is used once; it renews it over its
    control stream; an administrator revokes a token or decommissions a node.  Each is a
    program of [Transactions] over the tables of nodes, tokens, pending installations and
    idempotency keys, so any number of them run at the same time.  Columns that none of
    these programs reads are left out (when a row was changed), and so are the tables of
    assignments and of the audit trail, which they only write. *)
From S2P Require Import Prelude GoStd Domain Validation Datagram Reconcile ControlStream SnapshotStore Transactions.

(** ** Tables *)
Record node_row := MkNodeRow { NR_name : string; NR_labels : option (gmap string string); NR_enabled : bool; NR_state : string; NR_serial : string; NR_revision : Z }.
Record token_row := MkTokenRow { TR_hash : string; TR_expires : string; TR_used : option string; TR_created : string }.
Record boot_row := MkBootRow { BR_hash : string; BR_name : string; BR_labels : option (gmap string string); BR_enabled : bool; BR_expires : string }.
Record key_row := MkKeyRow { KR_hash : string; KR_response : string }.
Record tables := MkTables { nodes : gmap string node_row; tokens : gmap string token_row; boots : gmap string boot_row; keys : gmap string key_row }.

Inductive table_row := NodeRow (id : string) | TokenRow (id : string) | BootRow (id : string) | KeyRow (key : string).
#[export] Instance table_row_dec : EqDecision table_row.
Proof. solve_decision. Defined.

Inductive table_write := WNode (id : string) (r : option node_row) | WToken (id : string) (r : token_row) | WBoot (id : string) (r : option boot_row) | WKey (key : string) (r : option key_row).
Definition row_of_write (w : table_write) : table_row :=
  match w with WNode id _ => NodeRow id | WToken id _ => TokenRow id | WBoot id _ => BootRow id | WKey key _ => KeyRow key end.
Definition put {A} (key : string) (r : option A) (m : gmap string A) : gmap string A := match r with Some r => <[key := r]> m | None => delete key m end.
Definition write_table (d : tables) (w : table_write) : tables :=
  match w with
  | WNode id r => MkTables (put id r (nodes d)) (tokens d) (boots d) (keys d)
  | WToken id r => MkTables (nodes d) (<[id := r]> (tokens d)) (boots d) (keys d)
  | WBoot id r => MkTables (nodes d) (tokens d) (put id r (boots d)) (keys d)
  | WKey key r => MkTables (nodes d) (tokens d) (boots d) (put key r (keys d))
  end.

Definition equal_row (r : table_row) (d d' : tables) : Prop :=
  match r with
  | NodeRow id => nodes d !! id = nodes d' !! id
  | TokenRow id => tokens d !! id = tokens d' !! id
  | BootRow id => boots d !! id = boots d' !! id
  | KeyRow key => keys d !! key = keys d' !! key
  end.

(** A token keeps its hash and its end, and a used token stays used. *)
Definition tokens_kept (d d' : tables) : Prop :=
  forall id t, tokens d !! id = Some t -> exists t', tokens d' !! id = Some t' /\ TR_hash t' = TR_hash t /\ TR_expires t' = TR_expires t
    /\ (is_Some (TR_used t) -> is_Some (TR_used t')).

(** ** Calls *)
Record certificate_template := MkTemplate { Template_Serial : string; Template_CommonName : string; Template_URI : string * string * string; Template_NotBefore : Z; Template_NotAfter : Z }.

Inductive db_call :=
(* elsewhere *)
| Begin | TimeNow | ReadCA | RandomSerial | RandomBytes | RandomID
| CreateCertificate (template : certificate_template) (publicKey : bytes)
| SelectParticipants (nodeID : string) | QuarantineAssignments (nodeID : string)
| InsertAudit (actor action resource resourceID : string) (revision : Z)
| Notify (ids : list string)
(* SELECT *)
| SelectNode (id : string) | SelectToken (hash : string) | SelectTokenByID (id : string)
| SelectBootByHash (hash : string) | SelectBoot (nodeID : string) | SelectKey (key : string)
(* one row, [true] if it was there *)
| UseToken (id usedAt : string) | DeleteBoot (nodeID hash : string)
| ReplaceCertificate (id serial : string) (revision : Z) | RenewCertificate (id serial : string) (revision : Z) | DecommissionRow (id : string) (revision : Z)
| InsertKey (key hash : string) | UpdateKey (key hash response : string)
| InsertNode (id : string) (r : node_row) | PutLabels (id : string) (labels : option (gmap string string)) | InsertToken (id hash expires created : string).

Definition db_answer (c : db_call) : Type :=
  match c with
  | TimeNow => Z
  | RandomSerial | RandomID => string
  | ReadCA | RandomBytes | CreateCertificate _ _ => bytes
  | SelectParticipants _ => list string
  | SelectNode _ => option node_row
  | SelectToken _ | SelectTokenByID _ => option (string * token_row)
  | SelectBootByHash _ | SelectBoot _ => option (string * boot_row)
  | SelectKey _ => option key_row
  | UseToken _ _ | DeleteBoot _ _ | ReplaceCertificate _ _ _ | RenewCertificate _ _ _ | DecommissionRow _ _ | InsertKey _ _ | UpdateKey _ _ _ => bool
  | _ => unit
  end.
Definition db_fallible (c : db_call) : bool := match c with TimeNow | Notify _ => false | _ => true end.

Definition with_certificate (r : node_row) (enabled : bool) (state serial : string) (revision : Z) : node_row :=
  MkNodeRow (NR_name r) (NR_labels r) enabled state serial revision.
Definition with_used (r : token_row) (usedAt : string) : token_row := MkTokenRow (TR_hash r) (TR_expires r) (Some usedAt) (TR_created r).

(** The first row of a table that satisfies [f]. *)
Definition find_row {A} (f : A -> bool) (m : gmap string A) : option (string * A) := List.find (fun x => f x.2) (map_to_list m).

(** The UPDATE or DELETE of one row if it satisfies the WHERE clause. *)
Definition if_row {A} (r : option A) (where_ : A -> bool) (w : A -> table_write) : result (bool * option table_write) :=
  match r with
  | Some a => if where_ a then Ok (true, Some (w a)) else Ok (false, None)
  | None => Ok (false, None)
  end.
Definition ErrConstraint : error := EExternal "constraint".

Definition db_perform (d : tables) (c : db_call) : option (result (db_answer c * option table_write)) :=
  match c with
  | SelectNode id => Some (Ok (nodes d !! id, None))
  | SelectToken hash => Some (Ok (find_row (fun t => String.eqb (TR_hash t) hash) (tokens d), None))
  | SelectTokenByID id => Some (Ok (pair id <$> tokens d !! id, None))
  | SelectBootByHash hash => Some (Ok (find_row (fun b => String.eqb (BR_hash b) hash) (boots d), None))
  | SelectBoot id => Some (Ok (pair id <$> boots d !! id, None))
  | SelectKey key => Some (Ok (keys d !! key, None))
  | UseToken id usedAt => Some (if_row (tokens d !! id) (fun t => bool_decide (TR_used t = None)) (fun t => WToken id (with_used t usedAt)))
  | DeleteBoot id hash => Some (if_row (boots d !! id) (fun b => String.eqb (BR_hash b) hash) (fun _ => WBoot id None))
  | ReplaceCertificate id serial revision =>
      Some (if_row (nodes d !! id) (fun n => (NR_revision n =? revision) && String.eqb (NR_state n) CertificateDecommissioned)
              (fun n => WNode id (Some (with_certificate n true CertificateActive serial (revision + 1)))))
  | RenewCertificate id serial revision =>
      Some (if_row (nodes d !! id) (fun n => (NR_revision n =? revision) && NR_enabled n && negb (String.eqb (NR_state n) CertificateRevoked))
              (fun n => WNode id (Some (with_certificate n (NR_enabled n) CertificateActive serial (revision + 1)))))
  | DecommissionRow id revision =>
      Some (if_row (nodes d !! id) (fun n => NR_revision n =? revision)
              (fun n => WNode id (Some (with_certificate n false CertificateDecommissioned (NR_serial n) (revision + 1)))))
  | InsertKey key hash => Some (Ok (match keys d !! key with Some _ => (false, None) | None => (true, Some (WKey key (Some (MkKeyRow hash "{}")))) end))
  | UpdateKey key hash response => Some (if_row (keys d !! key) (fun k => String.eqb (KR_hash k) hash) (fun k => WKey key (Some (MkKeyRow (KR_hash k) response))))
  | InsertNode id r => Some (match nodes d !! id with Some _ => Err ErrConstraint | None => Ok (tt, Some (WNode id (Some r))) end)
  | PutLabels id labels =>
      Some (match nodes d !! id with
            | None => Err ErrConstraint
            | Some n => Ok (tt, Some (WNode id (Some (MkNodeRow (NR_name n) labels (NR_enabled n) (NR_state n) (NR_serial n) (NR_revision n)))))
            end)
  | InsertToken id hash expires created =>
      Some (match tokens d !! id, find_row (fun t => String.eqb (TR_hash t) hash) (tokens d) with
            | None, None => Ok (tt, Some (WToken id (MkTokenRow hash expires None created)))
            | _, _ => Err ErrConstraint
            end)
  | _ => None
  end.

Lemma equal_row_preorder r : PreOrder (equal_row r).
Proof. destruct r; (split; [intros d; reflexivity | intros a b c; cbn; congruence]). Qed.
Lemma put_other {A} key k (r : option A) m : key <> k -> m !! k = put key r m !! k.
Proof. intros H. destruct r; cbn; by rewrite ?lookup_insert_ne, ?lookup_delete_ne. Qed.
Lemma write_table_other w r d : row_of_write w <> r -> equal_row r d (write_table d w).
Proof. destruct w, r; cbn; try done; intros H; try (apply put_other; congruence). rewrite lookup_insert_ne; [done | congruence]. Qed.
Lemma tokens_kept_preorder : PreOrder tokens_kept.
Proof.
  split; [intros d id t Ht; by exists t|]. intros a b c Hab Hbc id t Ht. destruct (Hab id t Ht) as (t1 & H1 & Hh & He & Hu).
  destruct (Hbc id t1 H1) as (t2 & H2 & Hh2 & He2 & Hu2). exists t2. split_and!; [done | congruence | congruence | auto].
Qed.

#[export] Instance enrollment_database : Database := {|
  call := db_call; answer := db_answer; state := tables; row := table_row; write := table_write; writes_to := row_of_write; apply_write := write_table;
  fallible := db_fallible; perform := db_perform; same_row := equal_row; same_row_preorder := equal_row_preorder; apply_other := write_table_other;
  evolves := tokens_kept; evolves_preorder := tokens_kept_preorder
|}.

(** ** Libraries *)
Class X509 := {
  csr : Type;
  ParseCertificateRequest : bytes -> result csr;
  CheckSignature : csr -> result unit;
  is_ed25519 : csr -> bool;
  CommonName : csr -> string;
  PublicKey : csr -> bytes
}.
Class RawURLEncoding := {
  raw_url_encode : bytes -> string;
  raw_url_nonempty : forall l, l <> [] -> raw_url_encode l <> ""
}.
(** encoding/json of the requests that are hashed and of the responses that are kept. *)
Class IdempotencyJSON := {
  token_request : Z -> string -> bytes;
  id_request : string -> bytes;
  decommission_request : string -> Z -> bytes;
  id_response : string -> string;
  revision_response : string -> Z -> string;
  response_id : string -> result string;
  response_id_response : forall id, response_id (id_response id) = Ok id
}.

Definition ErrInvalidEnrollmentToken : error := ENew "invalid enrollment token".
Definition ErrEnrollmentTokenUsed : error := ENew "enrollment token has already been used or revoked".
Definition ErrEnrollmentTokenExpired : error := ENew "enrollment token has expired".
Definition ErrEnrollmentNodeMismatch : error := ENew "enrollment token is bound to a different node".
Definition ErrNodeEnrollmentNotAllowed : error := ENew "node enrollment is not allowed".
Definition ErrSecretAlreadyCreated : error := ENew "one-time token was already created and its plaintext cannot be recovered".

Definition EnrollmentTTL : Z := 15 * 60 * 10 ^ 9.
Definition NodeCertificateTTL : Z := 30 * 24 * 3600 * 10 ^ 9.

Section Enrollment.
Context `{CR : !Crypto, TM : !StoredTime, X5 : !X509, RU : !RawURLEncoding, IJ : !IdempotencyJSON}.

(** ** Calls with their errors *)
Definition now_ : prog Z := invoke TimeNow.
(** [storageFailure(op, err)] on the way out. *)
Definition storing {A} (op : string) (m : prog A) : prog A := r ← attempt m; pure (map_err (storageFailure op) r).
Definition invalid_request (e : error) : error := EWrap "%w: %w" [] (EJoin ErrInvalidEnrollmentRequest e).

(** ** Tokens *)
Definition HashToken (token : string) : string := hex_encode (sha256 (bytes_of token)).
(** [io.ReadFull] of 32 bytes. *)
Definition NewAPIToken : prog string :=
  random ← invoke RandomBytes;
  _ ← pure (reject_if (negb (llen random =? 32)) (EExternal "io.ReadFull"));
  mret ("af_" +:+ raw_url_encode random).

Definition nodeEnrollmentTokenPrefix : string := "afn_".
Definition nodeEnrollmentToken (nodeID randomToken : string) : string :=
  nodeEnrollmentTokenPrefix +:+ hex_encode (bytes_of nodeID) +:+ "_" +:+ strings.TrimPrefix randomToken "af_".

(** The node that the token is bound to, if it is bound. *)
Definition parseNodeEnrollmentToken (token : string) : result (option string) :=
  if negb (strings.HasPrefix token nodeEnrollmentTokenPrefix) then Ok None else
  let rest := strings.TrimPrefix token nodeEnrollmentTokenPrefix in
  match strings.IndexByte rest "_"%char with
  | None => Err (ENew "node enrollment token is malformed")
  | Some i =>
      _ ← reject_if (String.eqb (strings.take i rest) "" || String.eqb (strings.drop (S i) rest) "") (ENew "node enrollment token is malformed");
      match hex_decode (strings.take i rest) with
      | Ok decoded =>
          _ ← reject_if (llen decoded =? 0) (ENew "node enrollment token node binding is malformed");
          _ ← map_err (fun _ => ENew "node enrollment token node binding is invalid") (ValidateID (of_bytes decoded) (TLit "node_id"));
          Ok (Some (of_bytes decoded))
      | Err _ => Err (ENew "node enrollment token node binding is malformed")
      end
  end.

(** ** Idempotency keys (store_security.go) *)
Definition requestHash (request : bytes) : string := hex_encode (sha256 request).

Definition idempotencyHit (key : string) (request : bytes) : prog bool :=
  let key := strings.TrimSpace key in
  _ ← pure (validateIdempotencyKey key);
  if String.eqb key "" then mret false else
  reserved ← invoke (InsertKey key (requestHash request));
  if (reserved : bool) then mret false else
  stored ← invoke (SelectKey key);
  match stored : option key_row with
  | None => raise ErrNoRows
  | Some k => _ ← pure (reject_if (negb (String.eqb (KR_hash k) (requestHash request))) (ENew "idempotency key was used for a different request")); mret true
  end.

Definition recordIdempotency (key : string) (request : bytes) (response : string) : prog unit :=
  let key := strings.TrimSpace key in
  _ ← pure (validateIdempotencyKey key);
  if String.eqb key "" then mret tt else
  held ← invoke (UpdateKey key (requestHash request) response);
  pure (reject_if (negb held) (ENew "idempotency key reservation was not held")).

(** ** Issuing tokens *)
Record EnrollmentToken := MkEnrollmentToken { Token_ID : string; Token_ExpiresAt : Z; Token_UsedAt : option Z; Token_CreatedAt : Z }.

(** The metadata of the token that an earlier request with this key created. *)
Definition created_before (key : string) : prog EnrollmentToken :=
  k ← invoke (SelectKey (strings.TrimSpace key));
  match k : option key_row with
  | None => raise ErrNoRows
  | Some k =>
      id ← pure (match response_id (KR_response k) with Ok id => if String.eqb id "" then Err (ENew "idempotency response is invalid") else Ok id | Err _ => Err (ENew "idempotency response is invalid") end);
      found ← invoke (SelectTokenByID id);
      match found : option (string * token_row) with
      | None => raise ErrNoRows
      | Some (id, t) =>
          expiry ← pure (parseStoredTime "enrollment_token.expires_at" (TR_expires t));
          created ← pure (parseStoredTime "enrollment_token.created_at" (TR_created t));
          used ← pure (match TR_used t with None => Ok None | Some u => Some <$> parseStoredTime "enrollment_token.used_at" u end);
          mret (MkEnrollmentToken id expiry used created)
      end
  end.

(** The token for a node, which must be enabled or decommissioned. *)
Definition bind_token (nodeID plain : string) : prog string :=
  n ← invoke (SelectNode nodeID);
  match n : option node_row with
  | None => raise ErrNodeNotEnrolled
  | Some n =>
      _ ← pure (reject_if (negb (NR_enabled n) && negb (String.eqb (NR_state n) CertificateDecommissioned)) (EWrap "%w: node is disabled" [] ErrNodeEnrollmentNotAllowed));
      mret (nodeEnrollmentToken nodeID plain)
  end.

(** The plain token, and what is kept of it. *)
Definition createEnrollmentTokenWithOptions (nodeID : string) (ttl : Z) (options : WriteOptions) : prog (string * EnrollmentToken) :=
  let ttl := if ttl <=? 0 then EnrollmentTTL else ttl in
  _ ← pure (reject_if (ttl >? EnrollmentTTL) (ENew "enrollment token lifetime cannot exceed 15 minutes"));
  now ← now_;
  let request := token_request (ttl / 10 ^ 9) nodeID in
  _ ← invoke Begin;
  hit ← idempotencyHit (IdempotencyKey options) request;
  if (hit : bool) then _ ← created_before (IdempotencyKey options); _ ← commit; raise ErrSecretAlreadyCreated else
  plain ← NewAPIToken;
  plain ← (if String.eqb nodeID "" then mret plain else bind_token nodeID plain);
  id ← invoke RandomID;
  _ ← invoke (InsertToken id (HashToken plain) (format_time (now + ttl)) (format_time now));
  _ ← invoke (InsertAudit (Actor options) "create" "enrollment_token" id 1);
  _ ← recordIdempotency (IdempotencyKey options) request (id_response id);
  _ ← commit;
  mret (plain, MkEnrollmentToken id (now + ttl) None now).

Definition CreateNodeEnrollmentTokenWithOptions (nodeID : string) (ttl : Z) (options : WriteOptions) : prog (string * EnrollmentToken) :=
  _ ← pure (ValidateID nodeID (TLit "node_id"));
  createEnrollmentTokenWithOptions nodeID ttl options.

(** ** Using tokens (enrollment_consume.go) *)
Definition RevokeEnrollmentTokenWithOptions (id : string) (options : WriteOptions) : prog unit :=
  _ ← invoke Begin;
  let request := id_request (strings.TrimSpace id) in
  hit ← idempotencyHit (IdempotencyKey options) request;
  if (hit : bool) then commit else
  now ← now_;
  revoked ← invoke (UseToken id (format_time now));
  _ ← pure (reject_if (negb revoked) (ENew "enrollment token not found or already revoked"));
  _ ← invoke (InsertAudit (Actor options) "revoke" "enrollment_token" id 1);
  _ ← recordIdempotency (IdempotencyKey options) request (id_response id);
  commit.

Definition consumeEnrollmentTokenTx (digest : string) : prog unit :=
  r ← attempt (invoke (SelectToken digest));
  found ← pure (map_err (EWrap "load enrollment token: %w" []) r);
  match found : option (string * token_row) with
  | None => raise ErrInvalidEnrollmentToken
  | Some (id, t) =>
      _ ← pure (reject_if (negb (bool_decide (TR_used t = None))) ErrEnrollmentTokenUsed);
      expiry ← pure (parseStoredTime "enrollment_token.expires_at" (TR_expires t));
      now ← now_;
      _ ← pure (reject_if (negb (now <? expiry)) ErrEnrollmentTokenExpired);
      now ← now_;
      used ← invoke (UseToken id (format_time now));
      pure (reject_if (negb used) ErrEnrollmentTokenUsed)
  end.

Definition validateEnrollmentToken (plain : string) : prog unit :=
  _ ← pure (reject_if (String.eqb (strings.TrimSpace plain) "") ErrInvalidEnrollmentToken);
  found ← storing "validate enrollment token" (invoke (SelectToken (HashToken plain)));
  match found : option (string * token_row) with
  | None => raise ErrInvalidEnrollmentToken
  | Some (_, t) =>
      _ ← pure (reject_if (negb (bool_decide (TR_used t = None))) ErrEnrollmentTokenUsed);
      expiry ← pure (parseStoredTime "enrollment_token.expires_at" (TR_expires t));
      now ← now_;
      pure (reject_if (negb (now <? expiry)) ErrEnrollmentTokenExpired)
  end.

(** ** Certificates (enrollment_cert.go) *)
Definition validateCSRIdentity (request : csr) (nodeID : string) : result unit :=
  reject_if (negb (String.eqb (CommonName request) nodeID)) (ENew "CSR common name does not match node identity").

(** [kind] is the word in the texts: enrollment or renewal. *)
Definition parse_csr (kind : string) (csrDER : bytes) (nodeID : string) : result csr :=
  request ← map_err (fun e => EWrap ("%w: parse " +:+ kind +:+ " CSR: %w") [] (EJoin ErrInvalidEnrollmentRequest e)) (ParseCertificateRequest csrDER);
  _ ← map_err (fun e => EWrap ("%w: " +:+ kind +:+ " CSR signature is invalid: %w") [] (EJoin ErrInvalidEnrollmentRequest e)) (CheckSignature request);
  _ ← reject_if (negb (is_ed25519 request)) (EWrap ("%w: " +:+ kind +:+ " CSR key must be Ed25519") [] ErrInvalidEnrollmentRequest);
  _ ← map_err invalid_request (validateCSRIdentity request nodeID);
  Ok request.

Definition signNodeCertificateWithCA (caPEM : bytes) (nodeID : string) (publicKey : bytes) : prog issued_certificate :=
  _ ← pure (reject_if (llen caPEM =? 0) (ENew "CA signing material is incomplete"));
  serial ← invoke RandomSerial;
  now ← now_;
  let template := MkTemplate serial nodeID (NodeIdentityURI nodeID) (now - 60 * 10 ^ 9) (now + NodeCertificateTTL) in
  certificate ← invoke (CreateCertificate template publicKey);
  mret (MkIssued certificate caPEM serial (Template_NotBefore template) (Template_NotAfter template)).

Definition signNodeCertificate (nodeID : string) (publicKey : bytes) : prog issued_certificate :=
  caPEM ← invoke ReadCA; signNodeCertificateWithCA caPEM nodeID publicKey.

Definition GetNode (id : string) : prog node_row :=
  n ← invoke (SelectNode id);
  match n : option node_row with None => raise ErrNoRows | Some n => mret n end.

(** [sql.ErrNoRows] of a node, and every other error. *)
Definition node_error (op : string) (e : error) : error := if is_no_rows e then ErrNodeNotEnrolled else storageFailure op e.
Definition loading {A} (op : string) (m : prog A) : prog A := r ← attempt m; pure (map_err (node_error op) r).

Definition is_replacement (bound : option string) (n : node_row) : bool := bool_decide (is_Some bound) && String.eqb (NR_state n) CertificateDecommissioned.
Definition enrollment_refused (bound : option string) (n : node_row) : bool :=
  (negb (NR_enabled n) && negb (is_replacement bound n)) || String.eqb (NR_state n) CertificateRevoked
  || (String.eqb (NR_state n) CertificateDecommissioned && negb (is_replacement bound n)).
Definition not_allowed (why : string) : error := EWrap ("%w: " +:+ why) [] ErrNodeEnrollmentNotAllowed.

(** *** A pending installation (enrollment_pending.go) *)
Definition expires_at (b : boot_row) : result Z := parseStoredTime "node_bootstrap.expires_at" (BR_expires b).
(** The row and its end; one whose other columns cannot be decoded fails like the query. *)
Definition scanPendingBootstrapWithToken (query : prog (option (string * boot_row))) : prog (string * boot_row * Z) :=
  found ← query;
  match found with
  | None => raise ErrNoRows
  | Some (id, b) => expires ← pure (expires_at b); mret (id, b, expires)
  end.
Definition pendingBootstrapForToken (hash : string) : prog (string * boot_row * Z) := scanPendingBootstrapWithToken (invoke (SelectBootByHash hash)).
Definition loadPendingBootstrapTx (nodeID : string) : prog (string * boot_row * Z) := scanPendingBootstrapWithToken (invoke (SelectBoot nodeID)).

Definition issuePendingNodeCertificate (token nodeID : string) (csrDER : bytes) (pending : string * boot_row * Z) : prog issued_certificate :=
  let '(pendingID, _, expires) := pending in
  _ ← pure (reject_if (negb (String.eqb pendingID nodeID)) ErrEnrollmentNodeMismatch);
  now ← now_;
  _ ← pure (reject_if (negb (now <? expires)) ErrEnrollmentTokenExpired);
  request ← pure (parse_csr "enrollment" csrDER nodeID);
  caPEM ← invoke ReadCA;
  _ ← storing "begin pending enrollment transaction" (invoke Begin);
  r ← attempt (loadPendingBootstrapTx nodeID);
  current ← pure (map_err (fun e => if is_no_rows e then ErrEnrollmentTokenUsed else storageFailure "reload pending node bootstrap" e) r);
  let '(_, b, expires) := current : string * boot_row * Z in
  _ ← pure (reject_if (negb (String.eqb (BR_hash b) (HashToken token))) ErrInvalidEnrollmentToken);
  now ← now_;
  _ ← pure (reject_if (negb (now <? expires)) ErrEnrollmentTokenExpired);
  existing ← storing "check pending node identity" (invoke (SelectNode nodeID));
  _ ← pure (reject_if (bool_decide (is_Some (existing : option node_row))) ErrNodeEnrollmentNotAllowed);
  deleted ← storing "consume pending node bootstrap" (invoke (DeleteBoot nodeID (HashToken token)));
  _ ← pure (reject_if (negb deleted) ErrEnrollmentTokenUsed);
  certificate ← signNodeCertificateWithCA caPEM nodeID (PublicKey request);
  _ ← now_;
  _ ← storing "create enrolled node" (invoke (InsertNode nodeID (MkNodeRow (BR_name b) None (BR_enabled b) CertificateActive (Issued_Serial certificate) 1)));
  _ ← storing "create enrolled node labels" (invoke (PutLabels nodeID (BR_labels b)));
  _ ← storing "record pending node enrollment" (invoke (InsertAudit "system" "enroll" "node" nodeID 1));
  _ ← storing "commit pending node enrollment" (_ ← commit; invoke (Notify [nodeID]));
  mret certificate.

(** *** A node that exists *)
(** From the reload of the node in the transaction to its certificate. *)
Definition enroll_node (token nodeID : string) (bound : option string) (request : csr) (caPEM : bytes) : prog issued_certificate :=
  n ← loading "reload node for enrollment" (GetNode nodeID);
  _ ← pure (reject_if (enrollment_refused bound n) (not_allowed "node is disabled"));
  _ ← pure (map_err invalid_request (validateCSRIdentity request nodeID));
  r ← attempt (consumeEnrollmentTokenTx (HashToken token));
  _ ← pure (map_err (fun e => if negb (isCredentialError e) && negb (error_is e "invalid enrollment request") then storageFailure "consume enrollment token" e else e) r);
  certificate ← signNodeCertificateWithCA caPEM nodeID (PublicKey request);
  _ ← now_;
  affected ← storing "update node certificate"
    (if is_replacement bound n then invoke (ReplaceCertificate nodeID (Issued_Serial certificate) (NR_revision n))
     else invoke (RenewCertificate nodeID (Issued_Serial certificate) (NR_revision n)));
  _ ← pure (reject_if (negb affected) (not_allowed "node enrollment state changed during certificate issuance"));
  _ ← storing "record enrollment audit" (invoke (InsertAudit "system" "enroll" "node_certificate" nodeID (NR_revision n + 1)));
  mret certificate.

Definition IssueNodeCertificate (token nodeID : string) (csrDER : bytes) : prog issued_certificate :=
  _ ← pure (map_err invalid_request (ValidateID nodeID (TLit "node_id")));
  bound ← pure (map_err invalid_request (parseNodeEnrollmentToken token));
  _ ← pure (reject_if (match bound with Some b => negb (String.eqb b nodeID) | None => false end) ErrEnrollmentNodeMismatch);
  pending ← attempt (pendingBootstrapForToken (HashToken token));
  match pending with
  | Ok pending => issuePendingNodeCertificate token nodeID csrDER pending
  | Err e =>
      _ ← pure (reject_if (negb (is_no_rows e)) (storageFailure "look up pending node bootstrap" e));
      n ← loading "load node for enrollment" (GetNode nodeID);
      _ ← pure (reject_if (enrollment_refused bound n) (not_allowed "node is disabled"));
      _ ← validateEnrollmentToken token;
      request ← pure (parse_csr "enrollment" csrDER nodeID);
      caPEM ← invoke ReadCA;
      _ ← storing "begin enrollment transaction" (invoke Begin);
      participants ← storing "load enrollment assignment participants" (invoke (SelectParticipants nodeID));
      certificate ← enroll_node token nodeID bound request caPEM;
      _ ← storing "commit enrollment" commit;
      _ ← invoke (Notify ((participants : list string) ++ [nodeID]));
      mret certificate
  end.

Definition RenewNodeCertificate (nodeID : string) (csrDER : bytes) : prog issued_certificate :=
  let refused n := negb (NR_enabled n) || String.eqb (NR_state n) CertificateRevoked in
  _ ← pure (map_err invalid_request (ValidateID nodeID (TLit "node_id")));
  n ← loading "load node for renewal" (GetNode nodeID);
  _ ← pure (reject_if (refused n) (not_allowed "node is disabled or certificate is revoked"));
  request ← pure (parse_csr "renewal" csrDER nodeID);
  certificate ← signNodeCertificate nodeID (PublicKey request);
  _ ← storing "begin renewal transaction" (invoke Begin);
  n ← loading "reload node for renewal" (GetNode nodeID);
  _ ← pure (reject_if (refused n) (not_allowed "node is disabled or certificate is revoked"));
  _ ← now_;
  affected ← storing "update renewed node certificate" (invoke (RenewCertificate nodeID (Issued_Serial certificate) (NR_revision n)));
  _ ← pure (reject_if (negb affected) (not_allowed "node state changed during certificate renewal"));
  _ ← storing "record renewal audit" (invoke (InsertAudit "system" "renew" "node_certificate" nodeID (NR_revision n + 1)));
  _ ← storing "commit renewal" commit;
  mret certificate.

(** ** Decommissioning (store_resources.go) *)
(** The row was there, or the conflict is reported with the current revision. *)
Definition requireRevisionWrite (affected : bool) (nodeID : string) (expected : Z) : prog unit :=
  if affected then mret tt else
  r ← attempt (invoke (SelectNode nodeID));
  current ← pure (map_err (EWrap "read node revision after conditional write: %w" []) r);
  raise (RevisionConflict "node" expected (match current : option node_row with Some n => NR_revision n | None => 0 end)).

Definition DecommissionNode (nodeID : string) (options : WriteOptions) : prog node_row :=
  _ ← GetNode nodeID;
  let request := decommission_request nodeID (IfMatch options) in
  _ ← invoke Begin;
  hit ← idempotencyHit (IdempotencyKey options) request;
  if (hit : bool) then _ ← commit; GetNode nodeID else
  n ← GetNode nodeID;
  _ ← pure (reject_if ((IfMatch options <=? 0) || negb (IfMatch options =? NR_revision n)) (RevisionConflict "node" (IfMatch options) (NR_revision n)));
  if String.eqb (NR_state n) CertificateDecommissioned && negb (NR_enabled n) then
    _ ← recordIdempotency (IdempotencyKey options) request (revision_response nodeID (NR_revision n));
    _ ← commit; GetNode nodeID
  else
    _ ← pure (reject_if (NR_revision n =? max_int64) (apply_error "invalid_revision" "node.revision" "node revision is exhausted"));
    participants ← invoke (SelectParticipants nodeID);
    _ ← now_;
    affected ← invoke (DecommissionRow nodeID (NR_revision n));
    _ ← requireRevisionWrite affected nodeID (NR_revision n);
    _ ← invoke (QuarantineAssignments nodeID);
    _ ← invoke (InsertAudit (Actor options) "decommission" "node" nodeID (NR_revision n + 1));
    _ ← recordIdempotency (IdempotencyKey options) request (revision_response nodeID (NR_revision n + 1));
    _ ← commit;
    _ ← invoke (Notify ((participants : list string) ++ [nodeID]));
    GetNode nodeID.

(** ** The operations that run at the same time *)
Inductive node_operation :=
| OpIssue (token nodeID : string) (csrDER : bytes)
| OpRenew (nodeID : string) (csrDER : bytes)
| OpCreateToken (nodeID : string) (ttl : Z) (options : WriteOptions)
| OpRevokeToken (id : string) (options : WriteOptions)
| OpDecommission (nodeID : string) (options : WriteOptions).

Inductive outcome := Certified (c : issued_certificate) | TokenCreated (plain : string) (t : EnrollmentToken) | NodeIs (n : node_row) | Finished.

Definition program (o : node_operation) : prog outcome :=
  match o with
  | OpIssue token nodeID csrDER => c ← IssueNodeCertificate token nodeID csrDER; mret (Certified c)
  | OpRenew nodeID csrDER => c ← RenewNodeCertificate nodeID csrDER; mret (Certified c)
  | OpCreateToken nodeID ttl options =>
      t ← (if String.eqb nodeID "" then createEnrollmentTokenWithOptions "" ttl options else CreateNodeEnrollmentTokenWithOptions nodeID ttl options);
      mret (TokenCreated t.1 t.2)
  | OpRevokeToken id options => _ ← RevokeEnrollmentTokenWithOptions id options; mret Finished
  | OpDecommission nodeID options => n ← DecommissionNode nodeID options; mret (NodeIs n)
  end.
End Enrollment.
