(* ===== verification/EnrollmentFacts.v ===== *)
(** * What enrollment guarantees

    In every interleaving of any number of enrollments, renewals, revocations and
    decommissionings a token is worth one certificate, a node changes only as its state
    permits, and the certificate that is handed out is the one its row names. *)
From S2P Require Import Prelude GoStd Domain Validation Datagram Reconcile ControlStream SnapshotStore Samples SnapshotStoreFacts Transactions Enrollment.

(** ** Rows *)
Lemma find_row_Some {A} (f : A -> bool) (m : gmap string A) id a : find_row f m = Some (id, a) -> m !! id = Some a /\ f a = true.
Proof. unfold find_row. intros [H1 H2]%find_some. split; [|done]. by apply elem_of_map_to_list, list_elem_of_In. Qed.

Lemma if_row_Ok {A} (r : option A) p w b x : if_row r p w = Ok (b, x) -> b = true -> exists a, r = Some a /\ p a = true /\ x = Some (w a).
Proof. unfold if_row. destruct r as [a|]; [|by intros [= <- <-]]. destruct (p a) eqn:E; [intros [= <- <-]; eauto | by intros [= <- <-]]. Qed.

(** The rows of the first writes of a transaction are locked. *)
Lemma locked_head (w : table_write) ws d d' : rely (DB := enrollment_database) (w :: ws) d d' -> equal_row (row_of_write w) d d'.
Proof. intros [_ H]. exact (Forall_inv H). Qed.
Lemma locked_second (v w : table_write) ws d d' : rely (DB := enrollment_database) (v :: w :: ws) d d' -> equal_row (row_of_write w) d d'.
Proof. intros [_ H]. exact (Forall_inv (Forall_inv_tail H)). Qed.

(** ** Credentials: what a token is still worth *)
Definition unused (hash : string) (t : token_row) : Z := if String.eqb (TR_hash t) hash && bool_decide (TR_used t = None) then 1 else 0.
Definition waiting (hash : string) (b : boot_row) : Z := if String.eqb (BR_hash b) hash then 1 else 0.
Definition credentials (hash : string) (d : tables) : Z := msum (unused hash) (tokens d) + msum (waiting hash) (boots d).

Lemma credentials_nonneg hash d : 0 <= credentials hash d.
Proof.
  unfold credentials. assert (0 <= msum (unused hash) (tokens d)) by (apply msum_nonneg; intros; unfold unused; case_match; lia).
  assert (0 <= msum (waiting hash) (boots d)) by (apply msum_nonneg; intros; unfold waiting; case_match; lia). lia.
Qed.

(** The next statement, and what it answers. *)
Ltac invoke_next :=
  lazymatch goal with |- ensures ?possible ?G ?Q (invoke ?c) ?pending ?d ?log => refine (ensures_invoke (DB := enrollment_database) possible G c Q pending d log _) end.
Tactic Notation "next" "as" ident(d) ident(H) :=
  invoke_next; intros d H; cbn [perform enrollment_database db_perform answer db_answer option_list option_rect apply_writes foldl app apply_write write_table nodes tokens boots keys put].

Lemma ensures_elsewhere possible G c (Q : db_answer c -> list table_write -> tables -> commits -> Prop) pending d log : (forall d', db_perform d' c = None) ->
  (forall d' a, rely pending d d' -> Q a pending d' log) -> ensures possible G Q (invoke c) pending d log.
Proof. intros Hc HQ. invoke_next. intros d' Hd. cbn [perform enrollment_database]. rewrite Hc. intros a. by apply HQ. Qed.
Ltac elsewhere :=
  unfold now_;
  lazymatch goal with |- ensures ?possible ?G ?Q (invoke ?c) ?pending ?d ?log => refine (ensures_elsewhere possible G c Q pending d log (fun _ => eq_refl) _) end.

(** ** Tokens that name their node *)
Lemma has_prefix_app p s : strings.HasPrefix (p +:+ s) p = true.
Proof.
  unfold strings.HasPrefix. induction p as [|c p IH]; [by destruct s|].
  change (String.prefix (String c p) (String c p +:+ s)) with (if ascii_dec c c then String.prefix p (p +:+ s) else false). by destruct (ascii_dec c c).
Qed.
Lemma trim_prefix_app p s : strings.TrimPrefix (p +:+ s) p = s.
Proof. unfold strings.TrimPrefix. rewrite has_prefix_app. unfold strings.drop. induction p as [|c p IH]; cbn; [apply of_bytes_bytes_of | exact IH]. Qed.

Lemma hex_no_underscore l : "_"%char ∉ bytes_of (hex_encode l).
Proof.
  unfold hex_encode. rewrite bytes_of_of_bytes. induction l as [|c l IH]; [apply not_elem_of_nil|]. cbn [flat_map app]. rewrite !not_elem_of_cons. split_and!; [..|exact IH].
  all: destruct c as [[] [] [] [] [] [] [] []]; vm_compute; congruence.
Qed.

Lemma parse_nodeEnrollmentToken nodeID suffix : ValidateID nodeID (TLit "node_id") = Ok tt -> suffix <> "" ->
  parseNodeEnrollmentToken (nodeEnrollmentToken nodeID ("af_" +:+ suffix)) = Ok (Some nodeID).
Proof.
  intros Hv Hs. unfold parseNodeEnrollmentToken, nodeEnrollmentToken. rewrite trim_prefix_app, has_prefix_app, trim_prefix_app. cbn [negb].
  set (h := hex_encode (bytes_of nodeID)). assert (Hb : bytes_of (h +:+ "_" +:+ suffix) = bytes_of h ++ "_"%char :: bytes_of suffix) by by rewrite bytes_of_app.
  unfold strings.IndexByte, strings.take, strings.drop. rewrite Hb, strings.index_byte_app by apply hex_no_underscore.
  rewrite take_app_length, of_bytes_bytes_of. replace (skipn (S (List.length (bytes_of h))) (bytes_of h ++ "_"%char :: bytes_of suffix)) with (bytes_of suffix) by (clear; induction (bytes_of h); [done | exact IHl]).
  rewrite of_bytes_bytes_of. unfold h. assert (Hne : nodeID <> "") by (intros ->; discriminate Hv).
  assert (String.eqb (hex_encode (bytes_of nodeID)) "" = false) as -> by by destruct nodeID. rewrite (proj2 (String.eqb_neq _ _) Hs). cbn [orb reject_if mbind result_bind].
  rewrite hex_decode_encode, of_bytes_bytes_of, Hv. by destruct nodeID.
Qed.

(** Writes of idempotency keys change nothing else. *)
Definition only_keys (ws : list table_write) : Prop := Forall (fun w => match w with WKey _ _ => True | _ => False end) ws.
Definition core (d : tables) : gmap string node_row * gmap string token_row * gmap string boot_row := (nodes d, tokens d, boots d).

Lemma keys_core ws : only_keys ws -> forall d, core (apply_writes d ws) = core d.
Proof. induction 1 as [|w ws Hw _ IH]; intros d; [done|]. change (core (apply_writes (write_table d w) ws) = core d). rewrite IH. by destruct w. Qed.
Lemma keys_tokens ws d : only_keys ws -> tokens (apply_writes d ws) = tokens d.
Proof. intros H. apply (keys_core ws) with (d := d) in H. unfold core in H. congruence. Qed.
Lemma keys_nodes ws d : only_keys ws -> nodes (apply_writes d ws) = nodes d.
Proof. intros H. apply (keys_core ws) with (d := d) in H. unfold core in H. congruence. Qed.
Lemma core_write w d d' : core d = core d' -> core (write_table d w) = core (write_table d' w).
Proof. unfold core. destruct w; cbn; congruence. Qed.
(** One write among those of keys. *)
Lemma core_among ws1 w ws2 d : only_keys ws1 -> only_keys ws2 -> core (apply_writes d (ws1 ++ w :: ws2)) = core (write_table d w).
Proof. intros H1 H2. unfold apply_writes. rewrite foldl_app. cbn [foldl]. etransitivity; [by apply (keys_core ws2)|]. by apply core_write, keys_core. Qed.
Lemma locked_among ws1 (w : table_write) ws2 d d' : rely (DB := enrollment_database) (ws1 ++ w :: ws2) d d' -> equal_row (row_of_write w) d d'.
Proof. intros [_ H]. apply Forall_app in H as [_ H]. exact (Forall_inv H). Qed.

Section Rules.
Context `{CR : !Crypto, TM : !StoredTime, X5 : !X509, RU : !RawURLEncoding, IJ : !IdempotencyJSON}.
Context (possible : db_call -> Prop) (G : list table_write -> tables -> Prop).
Abbreviation post A := (A -> list table_write -> tables -> commits -> Prop).

Lemma ensures_storing {A} op (Q : post A) m pending d log : ensures possible G Q m pending d log -> ensures possible G Q (storing op m) pending d log.
Proof. apply ensures_map_err. Qed.
Lemma ensures_loading {A} op (Q : post A) m pending d log : ensures possible G Q m pending d log -> ensures possible G Q (loading op m) pending d log.
Proof. apply ensures_map_err. Qed.

Lemma ensures_GetNode id (Q : post node_row) pending d log :
  (forall d' n, rely pending d d' -> nodes (apply_writes d' pending) !! id = Some n -> Q n pending d' log) -> ensures possible G Q (GetNode id) pending d log.
Proof.
  intros HQ. apply ensures_bind; next as d' Hd. intros _. rewrite app_nil_r. destruct (nodes _ !! id) as [n|] eqn:E; [|done].
  by apply ensures_ret, HQ.
Qed.

Lemma ensures_sign caPEM nodeID publicKey (Q : post issued_certificate) pending d log :
  (forall d' c, rely pending d d' -> Issued_NotAfter c - Issued_NotBefore c = NodeCertificateTTL + 60 * 10 ^ 9 -> Q c pending d' log) ->
  ensures possible G Q (signNodeCertificateWithCA caPEM nodeID publicKey) pending d log.
Proof.
  intros HQ. apply ensures_bind, ensures_pure. intros _ _. apply ensures_bind; elsewhere. intros d1 serial H1.
  apply ensures_bind; elsewhere. intros d2 t H2. apply ensures_bind; elsewhere. intros d3 bytes H3.
  apply ensures_ret, HQ; [|cbn; lia]. etransitivity; [done|]. by etransitivity.
Qed.

(** A use of the token with this digest. *)
Lemma ensures_consume digest (Q : post unit) d log :
  (forall d' id t usedAt, rely [] d d' -> tokens d' !! id = Some t -> TR_hash t = digest -> TR_used t = None -> Q tt [WToken id (with_used t usedAt)] d' log) ->
  ensures possible G Q (consumeEnrollmentTokenTx digest) [] d log.
Proof.
  intros HQ. unfold consumeEnrollmentTokenTx. apply ensures_map_err_then. next as d1 H1. intros _.
  destruct (find_row _ (tokens d1)) as [[id t]|] eqn:Ef; [|done]. apply find_row_Some in Ef as [Ht Eh%String.eqb_eq].
  apply ensures_bind, ensures_pure. intros _ _. apply ensures_bind, ensures_pure. intros expiry _.
  apply ensures_bind; elsewhere. intros d2 now H2. apply ensures_bind, ensures_pure. intros _ _.
  apply ensures_bind; elsewhere. intros d3 now' H3. apply ensures_bind; next as d4 H4.
  destruct (if_row _ _ _) as [[b w]|] eqn:Er; [|done]. intros _. apply ensures_pure. intros [] Hb%reject_if_Ok%negb_false_iff.
  destruct (if_row_Ok _ _ _ _ _ Er Hb) as (t' & Ht' & Hu%bool_decide_eq_true & ->). cbn [option_list option_rect app].
  assert (Hr : rely [] d1 d4) by by do 2 (etransitivity; [done|]). destruct (proj1 Hr id t Ht) as (t2 & Ht2 & Hh & _). rewrite Ht2 in Ht'. injection Ht' as ->.
  apply HQ; [by etransitivity | done | congruence | done].
Qed.

Lemma ensures_hit key request (Q : post bool) pending d log :
  (forall d' hit ws, rely pending d d' -> only_keys ws -> Q hit (pending ++ ws) d' log) -> ensures possible G Q (idempotencyHit key request) pending d log.
Proof.
  intros HQ. unfold idempotencyHit. apply ensures_bind, ensures_pure. intros _ _. case_match.
  { apply ensures_ret. rewrite <-(app_nil_r pending). apply HQ; [done | constructor]. }
  apply ensures_bind. next as d1 H1. destruct (keys _ !! _) as [k|]; intros _.
  - cbn [option_list option_rect]. rewrite app_nil_r. apply ensures_bind. next as d2 H2. intros _. rewrite app_nil_r.
    destruct (keys _ !! _) as [k'|]; [|done]. apply ensures_bind, ensures_pure. intros _ _. apply ensures_ret. rewrite <-(app_nil_r pending).
    apply HQ; [by etransitivity | constructor].
  - apply ensures_ret, HQ; [done | by apply Forall_singleton].
Qed.

Lemma ensures_record key request response (Q : post unit) pending d log :
  (forall d' ws, rely pending d d' -> only_keys ws -> Q tt (pending ++ ws) d' log) -> ensures possible G Q (recordIdempotency key request response) pending d log.
Proof.
  intros HQ. unfold recordIdempotency. apply ensures_bind, ensures_pure. intros _ _. case_match.
  { apply ensures_ret. rewrite <-(app_nil_r pending). apply HQ; [done | constructor]. }
  apply ensures_bind. next as d1 H1. destruct (if_row _ _ _) as [[b w]|] eqn:Er; [|done]. intros _. apply ensures_pure.
  intros [] Hb%reject_if_Ok%negb_false_iff. destruct (if_row_Ok _ _ _ _ _ Er Hb) as (k & _ & _ & ->). apply HQ; [done | by apply Forall_singleton].
Qed.

Lemma ensures_validate plain (Q : post unit) pending d log : (forall d', rely pending d d' -> Q tt pending d' log) -> ensures possible G Q (validateEnrollmentToken plain) pending d log.
Proof.
  intros HQ. unfold validateEnrollmentToken. apply ensures_bind, ensures_pure. intros _ _. apply ensures_bind, ensures_storing. next as d1 H1. intros _. rewrite app_nil_r.
  destruct (find_row _ _) as [[id t]|]; [|done]. apply ensures_bind, ensures_pure. intros _ _. apply ensures_bind, ensures_pure. intros expiry _.
  apply ensures_bind; elsewhere. intros d2 t2 H2. apply ensures_pure. intros [] _. apply HQ. by etransitivity.
Qed.

(** *** The writes of an enrollment *)
(** The row that the certificate [c] leaves. *)
Definition certified_row (c : issued_certificate) (revision : Z) (n : node_row) : Prop :=
  NR_state n = CertificateActive /\ NR_serial n = Issued_Serial c /\ NR_revision n = revision.
(** Which rows may be certified, [bound] when the token names the node. *)
Definition may_enroll (bound : Prop) (n : node_row) : Prop :=
  NR_state n <> CertificateRevoked /\ (NR_enabled n = true \/ NR_state n = CertificateDecommissioned /\ bound).

Definition enrolled (token nodeID : string) (bound : Prop) (c : issued_certificate) (pending : list table_write) (d : tables) : Prop :=
  exists id t usedAt n n', pending = [WToken id (with_used t usedAt); WNode nodeID (Some n')]
    /\ tokens d !! id = Some t /\ TR_hash t = HashToken token /\ TR_used t = None
    /\ nodes d !! nodeID = Some n /\ may_enroll bound n /\ certified_row c (NR_revision n + 1) n' /\ NR_enabled n' = true.

Lemma if_replace d nodeID serial revision b w : if_row (nodes d !! nodeID) (fun n => (NR_revision n =? revision) && String.eqb (NR_state n) CertificateDecommissioned)
    (fun n => WNode nodeID (Some (with_certificate n true CertificateActive serial (revision + 1)))) = Ok (b, w) -> b = true ->
  exists n, nodes d !! nodeID = Some n /\ NR_revision n = revision /\ NR_state n = CertificateDecommissioned
    /\ w = Some (WNode nodeID (Some (with_certificate n true CertificateActive serial (revision + 1)))).
Proof.
  intros H Hb. destruct (if_row_Ok _ _ _ _ _ H Hb) as (n & Hn & [Hr%Z.eqb_eq Hs%String.eqb_eq]%andb_true_iff & ->). by exists n.
Qed.
Lemma if_renew d nodeID serial revision b w : if_row (nodes d !! nodeID) (fun n => (NR_revision n =? revision) && NR_enabled n && negb (String.eqb (NR_state n) CertificateRevoked))
    (fun n => WNode nodeID (Some (with_certificate n (NR_enabled n) CertificateActive serial (revision + 1)))) = Ok (b, w) -> b = true ->
  exists n, nodes d !! nodeID = Some n /\ NR_revision n = revision /\ NR_enabled n = true /\ NR_state n <> CertificateRevoked
    /\ w = Some (WNode nodeID (Some (with_certificate n true CertificateActive serial (revision + 1)))).
Proof.
  intros H Hb. destruct (if_row_Ok _ _ _ _ _ H Hb) as (n & Hn & [[Hr%Z.eqb_eq He]%andb_true_iff Hs%negb_true_iff%String.eqb_neq]%andb_true_iff & ->).
  exists n. by rewrite He.
Qed.

Lemma ensures_enroll_node token nodeID bound request caPEM (Q : post issued_certificate) d log :
  (forall c pending d', enrolled token nodeID (is_Some bound) c pending d' -> Issued_NotAfter c - Issued_NotBefore c = NodeCertificateTTL + 60 * 10 ^ 9 -> Q c pending d' log) ->
  ensures possible G Q (enroll_node token nodeID bound request caPEM) [] d log.
Proof.
  intros HQ. unfold enroll_node. apply ensures_bind, ensures_loading, ensures_GetNode. intros d1 n0 H1 Hn0. apply ensures_bind, ensures_pure. intros _ Href%reject_if_Ok.
  apply ensures_bind, ensures_pure. intros _ _. apply ensures_map_err_then, ensures_consume. intros d2 id t usedAt H2 Ht Hh Hu.
  apply ensures_bind, ensures_sign. intros d3 c H3 Hc. apply ensures_bind; elsewhere. intros d4 now H4.
  assert (Hfinish : forall d5 n n', rely [WToken id (with_used t usedAt)] d4 d5 -> nodes d5 !! nodeID = Some n -> may_enroll (is_Some bound) n ->
    certified_row c (NR_revision n + 1) n' -> NR_enabled n' = true -> ensures possible G Q (_ ← storing "record enrollment audit" (invoke (InsertAudit "system" "enroll" "node_certificate" nodeID (NR_revision n0 + 1))); mret c)
      [WToken id (with_used t usedAt); WNode nodeID (Some n')] d5 log).
  { intros d5 n n' H5 Hn Hm Hrow He. apply ensures_bind, ensures_storing. elsewhere. intros d6 [] H6. apply ensures_ret, HQ; [|done].
    assert (Hr : rely [WToken id (with_used t usedAt)] d2 d5) by by do 2 (etransitivity; [done|]).
    exists id, t, usedAt, n, n'. pose proof (Forall_inv (proj2 Hr)) as Hl. pose proof (Forall_inv (proj2 H6)) as Hl6. pose proof (Forall_inv (Forall_inv_tail (proj2 H6))) as Hl6'.
    cbn in Hl, Hl6, Hl6'. split_and!; try done; congruence. }
  apply ensures_bind, ensures_storing. destruct (is_replacement bound n0) eqn:Erep.
  - next as d5 H5. destruct (if_row _ _ _) as [[b w]|] eqn:Er; [|done]. intros _. apply ensures_bind, ensures_pure. intros _ Hb%reject_if_Ok%negb_false_iff.
    destruct (if_replace _ _ _ _ _ _ Er Hb) as (n & Hn & Hrev & Hs & ->). cbn [option_list option_rect app]. apply andb_true_iff in Erep as [Hbound%bool_decide_eq_true _].
    eapply Hfinish; [done | exact Hn | | |done].
    + split; [by rewrite Hs | by right].
    + by rewrite Hrev.
  - next as d5 H5. destruct (if_row _ _ _) as [[b w]|] eqn:Er; [|done]. intros _. apply ensures_bind, ensures_pure. intros _ Hb%reject_if_Ok%negb_false_iff.
    destruct (if_renew _ _ _ _ _ _ Er Hb) as (n & Hn & Hrev & He & Hs & ->). cbn [option_list option_rect app].
    eapply Hfinish; [done | exact Hn | | |done]; [split; [done | by left] | by rewrite Hrev].
Qed.

(** A node that its installation creates. *)
Definition installed (token nodeID : string) (c : issued_certificate) (pending : list table_write) (d : tables) : Prop :=
  exists b n n', pending = [WBoot nodeID None; WNode nodeID (Some n); WNode nodeID (Some n')]
    /\ boots d !! nodeID = Some b /\ BR_hash b = HashToken token /\ nodes d !! nodeID = None /\ certified_row c 1 n'.

Definition issued_for (token nodeID : string) (c : issued_certificate) (pending : list table_write) (d : tables) : Prop :=
  enrolled token nodeID (parseNodeEnrollmentToken token = Ok (Some nodeID)) c pending d \/ installed token nodeID c pending d.
Definition lifetime (c : issued_certificate) : Prop := Issued_NotAfter c - Issued_NotBefore c = NodeCertificateTTL + 60 * 10 ^ 9.

Lemma wp_pending hash (K : result (string * boot_row * Z) -> list table_write -> tables -> commits -> Prop) pending d log :
  (forall d' r, rely pending d d' -> K r pending d' log) -> wp possible G K (pendingBootstrapForToken hash) pending d log.
Proof.
  intros HK d' Hd. cbn [perform enrollment_database db_perform]. split; [|intros _ e; cbn; by apply HK]. intros _. cbn [option_list option_rect]. rewrite app_nil_r. cbn.
  destruct (find_row _ _) as [[id b]|]; cbn; [|by apply HK]. destruct (expires_at b); cbn; by apply HK.
Qed.

Lemma ensures_boot nodeID (Q : post (string * boot_row * Z)) pending d log :
  (forall d' b t, rely pending d d' -> Q (nodeID, b, t) pending d' log) -> ensures possible G Q (loadPendingBootstrapTx nodeID) pending d log.
Proof.
  intros HQ. apply ensures_bind. next as d1 H1. intros _. rewrite app_nil_r. destruct (boots _ !! nodeID) as [b|]; cbn [fmap option_fmap option_map]; [|done].
  apply ensures_bind, ensures_pure. intros t _. by apply ensures_ret, HQ.
Qed.

Lemma ensures_issue_pending token nodeID csrDER p (Q : post issued_certificate) d log :
  (forall c pending d', installed token nodeID c pending d' -> lifetime c -> G pending d' /\ forall d'', Q c [] d'' (log ++ [(pending, d')])) ->
  ensures possible G Q (issuePendingNodeCertificate token nodeID csrDER p) [] d log.
Proof.
  intros HQ. destruct p as [[pid b0] t0]. unfold issuePendingNodeCertificate. apply ensures_bind, ensures_pure. intros _ _.
  apply ensures_bind; elsewhere. intros d1 t1 _. do 2 (apply ensures_bind, ensures_pure; intros ? _). apply ensures_bind; elsewhere. intros d2 caPEM _.
  apply ensures_bind, ensures_storing; elsewhere. intros d3 _ _. apply ensures_map_err_then, ensures_boot. intros d4 b t _.
  apply ensures_bind, ensures_pure. intros _ _. apply ensures_bind; elsewhere. intros d5 t5 _. apply ensures_bind, ensures_pure. intros _ _.
  apply ensures_bind, ensures_storing. next as d6 _H. intros _. apply ensures_bind, ensures_pure. intros _ _.
  apply ensures_bind, ensures_storing. next as d7 _H7. destruct (if_row _ _ _) as [[ok w]|] eqn:Er; [|done]. intros _. apply ensures_bind, ensures_pure. intros _ Hb%reject_if_Ok%negb_false_iff.
  destruct (if_row_Ok _ _ _ _ _ Er Hb) as (b' & Hb' & Hh%String.eqb_eq & ->). cbn [option_list option_rect app].
  apply ensures_bind, ensures_sign. intros d8 c H8 Hc. apply ensures_bind; elsewhere. intros d9 t9 H9.
  apply ensures_bind, ensures_storing. next as d10 H10. destruct (nodes d10 !! nodeID) eqn:En; [done|]. intros _. cbn [option_list option_rect app].
  apply ensures_bind, ensures_storing. next as d11 H11. cbn [put nodes]. rewrite lookup_insert_eq. intros _. cbn [option_list option_rect app].
  apply ensures_bind, ensures_storing; elsewhere. intros d12 _ H12. apply ensures_bind, ensures_storing, ensures_bind, ensures_commit. intros d13 H13.
  assert (H : rely [WBoot nodeID None] d7 d10) by by do 2 (etransitivity; [done|]).
  pose proof (locked_head _ _ _ _ H) as B1. pose proof (locked_head _ _ _ _ H11) as B2. pose proof (locked_head _ _ _ _ H12) as B3. pose proof (locked_head _ _ _ _ H13) as B4.
  pose proof (locked_second _ _ _ _ _ H11) as N2. pose proof (locked_second _ _ _ _ _ H12) as N3. pose proof (locked_second _ _ _ _ _ H13) as N4.
  cbn in B1, B2, B3, B4, N2, N3, N4. lazymatch type of H13 with rely ?pending _ _ => destruct (HQ c pending d13) as [HG HQ']; [| exact Hc |] end.
  - do 3 eexists. split; [reflexivity|]. split; [rewrite <-B4, <-B3, <-B2, <-B1; exact Hb'|]. split; [done|]. split; [congruence | by repeat split].
  - split; [exact HG|]. elsewhere. intros d14 _ _. apply ensures_ret, HQ'.
Qed.

Lemma ensures_issue token nodeID csrDER (Q : post issued_certificate) d log :
  (forall c pending d', issued_for token nodeID c pending d' -> lifetime c -> G pending d' /\ forall d'', Q c [] d'' (log ++ [(pending, d')])) ->
  ensures possible G Q (IssueNodeCertificate token nodeID csrDER) [] d log.
Proof.
  intros HQ. unfold IssueNodeCertificate. apply ensures_bind, ensures_pure. intros _ _. apply ensures_bind, ensures_pure. intros bound Hbound%map_err_Ok.
  apply ensures_bind, ensures_pure. intros _ Hsame%reject_if_Ok. apply ensures_attempt, wp_pending. intros d1 [p|e] _.
  { apply ensures_issue_pending. intros c pending d' H Hc. apply HQ; [by right | done]. }
  apply ensures_bind, ensures_pure. intros _ _. apply ensures_bind, ensures_loading, ensures_GetNode. intros d2 n _ _. apply ensures_bind, ensures_pure. intros _ _.
  apply ensures_bind, ensures_validate. intros d3 _. apply ensures_bind, ensures_pure. intros request _. apply ensures_bind; elsewhere. intros d4 caPEM _.
  apply ensures_bind, ensures_storing; elsewhere. intros d5 _ _. apply ensures_bind, ensures_storing; elsewhere. intros d6 participants _.
  apply ensures_bind, ensures_enroll_node. intros c pending d7 He Hc. apply ensures_bind, ensures_storing, ensures_commit. intros d8 H8.
  destruct (HQ c pending d8) as [HG HQ']; [|done|].
  - left. destruct He as (id & t & u & n0 & n' & -> & Ht & Hh & Hu & Hn & Hm & Hrow & Hen). pose proof (locked_head _ _ _ _ H8) as B. pose proof (locked_second _ _ _ _ _ H8) as N.
    cbn in B, N. exists id, t, u, n0, n'. split_and!; try done; [congruence | congruence |]. destruct Hm as [Hm1 [Hm2|[Hm2 [b ->]]]]; (split; [done|]); [by left|right].
    split; [done|]. apply negb_false_iff, String.eqb_eq in Hsame as ->. done.
  - split; [done|]. apply ensures_bind; elsewhere. intros d9 _ _. apply ensures_ret, HQ'.
Qed.

(** The certificate of a node that was enabled and not revoked. *)
Definition renewed (nodeID : string) (c : issued_certificate) (pending : list table_write) (d : tables) : Prop :=
  exists n n', pending = [WNode nodeID (Some n')] /\ nodes d !! nodeID = Some n /\ NR_enabled n = true /\ NR_state n <> CertificateRevoked
    /\ certified_row c (NR_revision n + 1) n' /\ NR_enabled n' = true.

Lemma ensures_renew nodeID csrDER (Q : post issued_certificate) d log :
  (forall c pending d', renewed nodeID c pending d' -> lifetime c -> G pending d' /\ forall d'', Q c [] d'' (log ++ [(pending, d')])) ->
  ensures possible G Q (RenewNodeCertificate nodeID csrDER) [] d log.
Proof.
  intros HQ. unfold RenewNodeCertificate. apply ensures_bind, ensures_pure. intros _ _. apply ensures_bind, ensures_loading, ensures_GetNode. intros d1 n1 _ _.
  do 2 (apply ensures_bind, ensures_pure; intros ? _). apply ensures_bind. unfold signNodeCertificate. apply ensures_bind; elsewhere. intros d2 caPEM _.
  apply ensures_sign. intros d3 c _ Hc. apply ensures_bind, ensures_storing; elsewhere. intros d4 _ _. apply ensures_bind, ensures_loading, ensures_GetNode. intros d5 n5 _ _.
  apply ensures_bind, ensures_pure. intros _ _. apply ensures_bind; elsewhere. intros d6 t6 _. apply ensures_bind, ensures_storing. next as d7 _H7.
  destruct (if_row _ _ _) as [[b w]|] eqn:Er; [|done]. intros _. apply ensures_bind, ensures_pure. intros _ Hb%reject_if_Ok%negb_false_iff.
  destruct (if_renew _ _ _ _ _ _ Er Hb) as (n & Hn & Hrev & He & Hs & ->). cbn [option_list option_rect app].
  apply ensures_bind, ensures_storing; elsewhere. intros d8 _ H8. apply ensures_bind, ensures_storing, ensures_commit. intros d9 H9.
  pose proof (locked_head _ _ _ _ H8) as B8. pose proof (locked_head _ _ _ _ H9) as B9. cbn in B8, B9. lazymatch type of H9 with rely ?pending _ _ => destruct (HQ c pending d9) as [HG HQ']; [| exact Hc |] end.
  - exists n. eexists. split; [reflexivity|]. split_and!; [congruence | done | done | | done]. by rewrite Hrev.
  - split; [exact HG | apply ensures_ret, HQ'].
Qed.

(** *** Revocation and decommissioning *)
Definition revoked_token (id : string) (pending : list table_write) (d : tables) : Prop :=
  exists ws1 ws2 t usedAt, pending = ws1 ++ WToken id (with_used t usedAt) :: ws2 /\ only_keys ws1 /\ only_keys ws2 /\ tokens d !! id = Some t.

Lemma ensures_revoke id options (Q : post unit) d log :
  (forall pending d', only_keys pending \/ revoked_token id pending d' -> G pending d' /\ forall d'', Q tt [] d'' (log ++ [(pending, d')])) ->
  ensures possible G Q (RevokeEnrollmentTokenWithOptions id options) [] d log.
Proof.
  intros HQ. apply ensures_bind; elsewhere. intros d1 _ _. apply ensures_bind, ensures_hit. intros d2 hit ws1 _ Hws1. cbn [app]. destruct hit.
  { apply ensures_commit. intros d3 _. destruct (HQ ws1 d3) as [HG HQ']; [by left|]. by split. }
  apply ensures_bind; elsewhere. intros d3 t3 _. apply ensures_bind. next as d4 _H4. rewrite (keys_tokens ws1) by done. destruct (if_row _ _ _) as [[b w]|] eqn:Er; [|done].
  intros _. apply ensures_bind, ensures_pure. intros _ Hb%reject_if_Ok%negb_false_iff. destruct (if_row_Ok _ _ _ _ _ Er Hb) as (t & Ht & _ & ->). cbn [option_list option_rect].
  apply ensures_bind; elsewhere. intros d5 _ H5. apply ensures_bind, ensures_record. intros d6 ws2 H6 Hws2. rewrite <-app_assoc. cbn [app]. apply ensures_commit. intros d7 H7.
  pose proof (locked_among _ _ _ _ _ H5) as L5. pose proof (locked_among _ _ _ _ _ H6) as L6. pose proof (locked_among _ _ _ _ _ H7) as L7. cbn in L5, L6, L7.
  lazymatch type of H7 with rely ?pending _ _ => destruct (HQ pending d7) as [HG HQ'] end; [|by split].
  right. exists ws1, ws2, t. eexists. split_and!; [reflexivity | done | done | congruence].
Qed.

Definition decommissioned (nodeID : string) (pending : list table_write) (d : tables) : Prop :=
  exists ws1 ws2 n, pending = ws1 ++ WNode nodeID (Some (with_certificate n false CertificateDecommissioned (NR_serial n) (NR_revision n + 1))) :: ws2
    /\ only_keys ws1 /\ only_keys ws2 /\ nodes d !! nodeID = Some n.

Lemma ensures_revision affected nodeID expected (Q : post unit) pending d log : (affected = true -> Q tt pending d log) ->
  ensures possible G Q (requireRevisionWrite affected nodeID expected) pending d log.
Proof.
  intros HQ. unfold requireRevisionWrite. destruct affected; [by apply ensures_ret, HQ|]. apply ensures_map_err_then. next as d1 H1. intros _. apply ensures_raise.
Qed.

Lemma ensures_decommission nodeID options (Q : post node_row) d log :
  (forall pending d', only_keys pending \/ decommissioned nodeID pending d' -> G pending d' /\ forall n d'', Q n [] d'' (log ++ [(pending, d')])) ->
  ensures possible G Q (DecommissionNode nodeID options) [] d log.
Proof.
  intros HQ.
  assert (Hend : forall pending d2, only_keys pending -> ensures possible G (fun _ => ensures possible G Q (GetNode nodeID)) commit pending d2 log).
  { intros pending d2 Hk. apply ensures_commit. intros d3 _. destruct (HQ pending d3) as [HG HQ']; [by left|]. split; [done|]. apply ensures_GetNode. intros d4 n _ _. apply HQ'. }
  unfold DecommissionNode. apply ensures_bind, ensures_GetNode. intros d1 n1 _ _. apply ensures_bind; elsewhere. intros d2 _ _.
  apply ensures_bind, ensures_hit. intros d3 hit ws1 _ Hws1. cbn [app]. destruct hit; [by apply ensures_bind, Hend|].
  apply ensures_bind, ensures_GetNode. intros d4 n4 _ _. apply ensures_bind, ensures_pure. intros _ _. case_match.
  { apply ensures_bind, ensures_record. intros d5 ws _ Hws. apply ensures_bind, Hend. by apply Forall_app. }
  apply ensures_bind, ensures_pure. intros _ _. apply ensures_bind; elsewhere. intros d5 participants _. apply ensures_bind; elsewhere. intros d6 t6 _.
  apply ensures_bind. next as d7 _H7. rewrite (keys_nodes ws1) by done. destruct (if_row _ _ _) as [[b w]|] eqn:Er; [|done]. intros _.
  apply ensures_bind, ensures_revision. intros Hb. destruct (if_row_Ok _ _ _ _ _ Er Hb) as (n & Hn & Hrev%Z.eqb_eq & ->). cbn [option_list option_rect].
  apply ensures_bind; elsewhere. intros d8 _ H8. apply ensures_bind; elsewhere. intros d9 _ H9. apply ensures_bind, ensures_record. intros d10 ws2 H10 Hws2.
  rewrite <-app_assoc. cbn [app]. apply ensures_bind, ensures_commit. intros d11 H11.
  pose proof (locked_among _ _ _ _ _ H8) as L8. pose proof (locked_among _ _ _ _ _ H9) as L9. pose proof (locked_among _ _ _ _ _ H10) as L10. pose proof (locked_among _ _ _ _ _ H11) as L11.
  cbn in L8, L9, L10, L11. lazymatch type of H11 with rely ?pending _ _ => destruct (HQ pending d11) as [HG HQ'] end.
  { right. exists ws1, ws2, n. rewrite Hrev. split_and!; [reflexivity | done | done | congruence]. }
  split; [done|]. apply ensures_bind; elsewhere. intros d12 _ _. apply ensures_GetNode. intros d13 n13 _ _. apply HQ'.
Qed.

(** *** New tokens *)
Definition created (nodeID plain : string) (t : EnrollmentToken) (pending : list table_write) (d : tables) : Prop :=
  exists ws1 ws2, pending = ws1 ++ WToken (Token_ID t) (MkTokenRow (HashToken plain) (format_time (Token_ExpiresAt t)) None (format_time (Token_CreatedAt t))) :: ws2
    /\ only_keys ws1 /\ only_keys ws2 /\ tokens d !! Token_ID t = None
    /\ possible (InsertToken (Token_ID t) (HashToken plain) (format_time (Token_ExpiresAt t)) (format_time (Token_CreatedAt t)))
    /\ Token_CreatedAt t < Token_ExpiresAt t <= Token_CreatedAt t + EnrollmentTTL
    /\ (nodeID = "" \/ parseNodeEnrollmentToken plain = Ok (Some nodeID)).

Lemma ensures_created_before key (Q : post EnrollmentToken) pending d log : (forall t d', rely pending d d' -> Q t pending d' log) -> ensures possible G Q (created_before key) pending d log.
Proof.
  intros HQ. apply ensures_bind. next as d1 H1. intros _. rewrite app_nil_r. destruct (keys _ !! _) as [k|]; [|done]. apply ensures_bind, ensures_pure. intros id _.
  apply ensures_bind. next as d2 H2. intros _. rewrite app_nil_r. destruct (tokens _ !! id) as [t|]; cbn [fmap option_fmap option_map]; [|done].
  do 3 (apply ensures_bind, ensures_pure; intros ? _). apply ensures_ret, HQ. by etransitivity.
Qed.

Lemma ensures_bound nodeID suffix (Q : post string) pending d log : (nodeID = "" \/ ValidateID nodeID (TLit "node_id") = Ok tt) -> suffix <> "" ->
  (forall plain d', (nodeID = "" \/ parseNodeEnrollmentToken plain = Ok (Some nodeID)) -> Q plain pending d' log) ->
  ensures possible G Q (if String.eqb nodeID "" then mret ("af_" +:+ suffix) else bind_token nodeID ("af_" +:+ suffix)) pending d log.
Proof.
  intros Hid Hs HQ. destruct (String.eqb_spec nodeID "") as [->|Hne]; [apply ensures_ret, HQ; by left|]. destruct Hid as [?|Hv]; [done|].
  apply ensures_bind. next as d1 H1. intros _. rewrite app_nil_r. destruct (nodes _ !! nodeID) as [n|]; [|done]. apply ensures_bind, ensures_pure. intros _ _.
  apply ensures_ret, HQ. right. by apply parse_nodeEnrollmentToken.
Qed.

Lemma ensures_create nodeID ttl options (Q : post (string * EnrollmentToken)) d log : (nodeID = "" \/ ValidateID nodeID (TLit "node_id") = Ok tt) ->
  (forall pending d', only_keys pending -> G pending d') ->
  (forall plain t pending d', created nodeID plain t pending d' -> G pending d' /\ Q (plain, t) [] (apply_writes d' pending) (log ++ [(pending, d')])) ->
  ensures possible G Q (createEnrollmentTokenWithOptions nodeID ttl options) [] d log.
Proof.
  intros Hid HG HQ. unfold createEnrollmentTokenWithOptions. set (life := if ttl <=? 0 then EnrollmentTTL else ttl).
  assert (Hpos : 0 < life) by (subst life; destruct (Z.leb_spec ttl 0); [by vm_compute | done]). clearbody life.
  apply ensures_bind, ensures_pure. intros _ Hlife%reject_if_Ok. rewrite Z.gtb_ltb in Hlife. apply Z.ltb_ge in Hlife.
  apply ensures_bind; elsewhere. intros d1 now _. apply ensures_bind; elsewhere. intros d2 _ _. apply ensures_bind, ensures_hit. intros d3 hit ws1 _ Hws1. cbn [app]. destruct hit.
  { apply ensures_bind, ensures_created_before. intros t d4 _. apply ensures_bind, ensures_commit. intros d5 _. split; [by apply HG | apply ensures_raise]. }
  apply ensures_bind. apply ensures_bind; elsewhere. intros d4 random _. apply ensures_bind, ensures_pure. intros _ Hr%reject_if_Ok%negb_false_iff%Z.eqb_eq. apply ensures_ret.
  assert (Hne : raw_url_encode random <> "") by (apply raw_url_nonempty; intros ->; discriminate Hr).
  apply ensures_bind, ensures_bound; [done..|]. intros plain d5 Hplain. apply ensures_bind; elsewhere. intros d6 id _.
  apply ensures_bind. next as d7 _H7. rewrite (keys_tokens ws1) by done. destruct (tokens _ !! _) as [t'|] eqn:Et; [done|]. destruct (find_row _ _); [done|].
  intros Hpossible. cbn [option_list option_rect]. apply ensures_bind; elsewhere. intros d8 _ H8. apply ensures_bind, ensures_record. intros d9 ws2 H9 Hws2.
  rewrite <-app_assoc. cbn [app]. apply ensures_bind, ensures_commit. intros d10 H10.
  pose proof (locked_among _ _ _ _ _ H8) as L8. pose proof (locked_among _ _ _ _ _ H9) as L9. pose proof (locked_among _ _ _ _ _ H10) as L10. cbn in L8, L9, L10.
  destruct (HQ plain (MkEnrollmentToken id (now + life) None now) (ws1 ++ WToken id (MkTokenRow (HashToken plain) (format_time (now + life)) None (format_time now)) :: ws2) d10) as [HG' HQ'].
  { exists ws1, ws2. cbn [Token_ID Token_ExpiresAt Token_CreatedAt]. split_and!; [done | done | done | congruence | done | lia | lia | done]. }
  split; [done | by apply ensures_ret].
Qed.
End Rules.

(** ** Any number of operations at the same time *)
Section Interleaving.
Context `{CR : !Crypto, TM : !StoredTime, X5 : !X509, RU : !RawURLEncoding, IJ : !IdempotencyJSON} (fresh : string -> Prop).

(** [fresh]: the hashes of the secrets that may be made while the operations run, by the
    random source or by the rest of the program, which changes nodes and keys as it likes
    and does not take back a use. *)
Definition possible_call (c : db_call) : Prop := match c with InsertToken _ hash _ _ => fresh hash | _ => True end.
Definition outside_write (d : tables) (w : table_write) : Prop :=
  match w with
  | WNode _ _ | WKey _ _ | WBoot _ None => True
  | WBoot _ (Some b) => fresh (BR_hash b)
  | WToken id r =>
      match tokens d !! id with
      | Some t => TR_hash r = TR_hash t /\ TR_expires r = TR_expires t /\ (is_Some (TR_used t) -> is_Some (TR_used r))
      | None => fresh (TR_hash r)
      end
  end.

(** How an operation may change the row of a node. *)
Definition permitted (o : node_operation) (id : string) (old new : option node_row) : Prop :=
  old = new \/
  match o, new with
  | OpIssue token nodeID _, Some n' => id = nodeID /\ NR_state n' = CertificateActive
      /\ match old with
         | None => NR_revision n' = 1
         | Some n => may_enroll (parseNodeEnrollmentToken token = Ok (Some nodeID)) n /\ NR_revision n' = NR_revision n + 1 /\ NR_enabled n' = true
         end
  | OpRenew nodeID _, Some n' => id = nodeID /\ NR_state n' = CertificateActive /\ NR_enabled n' = true
      /\ exists n, old = Some n /\ NR_enabled n = true /\ NR_state n <> CertificateRevoked /\ NR_revision n' = NR_revision n + 1
  | OpDecommission nodeID _, Some n' => id = nodeID /\ NR_state n' = CertificateDecommissioned /\ NR_enabled n' = false
      /\ exists n, old = Some n /\ NR_serial n' = NR_serial n /\ NR_revision n' = NR_revision n + 1
  | _, _ => False
  end.

Definition guarantee (o : node_operation) (d d' : tables) : Prop :=
  tokens_kept d d' /\ (forall hash, ~ fresh hash -> credentials hash d' <= credentials hash d)
  /\ forall id, permitted o id (nodes d !! id) (nodes d' !! id).
Definition commit_guarantee (o : node_operation) (ws : list table_write) (d : tables) : Prop := guarantee o d (apply_writes d ws).

(** What the end of an operation says of its only commit. *)
Definition certificate_recorded (nodeID : string) (c : issued_certificate) (d' : tables) : Prop :=
  lifetime c /\ exists n, nodes d' !! nodeID = Some n /\ NR_state n = CertificateActive /\ NR_serial n = Issued_Serial c.
Definition ended_well (o : node_operation) (r : result outcome) (log : list (list table_write * tables)) : Prop :=
  match o, r with
  | OpIssue token nodeID _, Ok (Certified c) => exists ws d, log = [(ws, d)]
      /\ credentials (HashToken token) (apply_writes d ws) = credentials (HashToken token) d - 1 /\ certificate_recorded nodeID c (apply_writes d ws)
  | OpRenew nodeID _, Ok (Certified c) => exists ws d, log = [(ws, d)] /\ certificate_recorded nodeID c (apply_writes d ws)
  | OpCreateToken nodeID _ _, Ok (TokenCreated plain t) => exists ws d, log = [(ws, d)]
      /\ tokens (apply_writes d ws) !! Token_ID t = Some (MkTokenRow (HashToken plain) (format_time (Token_ExpiresAt t)) None (format_time (Token_CreatedAt t)))
      /\ Token_CreatedAt t < Token_ExpiresAt t <= Token_CreatedAt t + EnrollmentTTL /\ (nodeID = "" \/ parseNodeEnrollmentToken plain = Ok (Some nodeID))
  | _, _ => True
  end.

(** *** One write *)
Lemma guarantee_core o d d1 d2 : core d1 = core d2 -> guarantee o d d1 -> guarantee o d d2.
Proof. unfold core, guarantee, tokens_kept, credentials. intros [= -> -> ->]. done. Qed.
Lemma guarantee_refl o d : guarantee o d d.
Proof. split; [apply tokens_kept_preorder|]. split; [done | by left]. Qed.

Lemma credentials_use hash d id t usedAt : tokens d !! id = Some t -> credentials hash (write_table d (WToken id (with_used t usedAt))) = credentials hash d - unused hash t.
Proof.
  intros Ht. unfold credentials. cbn [write_table tokens boots]. rewrite (msum_update _ _ _ t) by done. unfold unused at 3. cbn [TR_used with_used].
  rewrite bool_decide_false, andb_false_r by done. lia.
Qed.
Lemma unused_nonneg hash t : 0 <= unused hash t.
Proof. unfold unused. case_match; lia. Qed.
Lemma kept_use d id t usedAt : tokens d !! id = Some t -> tokens_kept d (write_table d (WToken id (with_used t usedAt))).
Proof.
  intros Ht id' t' Ht'. cbn. destruct (decide (id = id')) as [<-|Hne]; [|exists t'; by rewrite lookup_insert_ne].
  rewrite Ht in Ht'. injection Ht' as <-. exists (with_used t usedAt). by rewrite lookup_insert_eq.
Qed.
Lemma guarantee_use o d id t usedAt : tokens d !! id = Some t -> guarantee o d (write_table d (WToken id (with_used t usedAt))).
Proof.
  intros Ht. split; [by apply kept_use|]. split; [intros hash _; rewrite credentials_use by done; pose proof (unused_nonneg hash t); lia | by left].
Qed.
Lemma guarantee_node o d d1 id n' : guarantee o d d1 -> nodes d1 = nodes d -> permitted o id (nodes d !! id) (Some n') -> guarantee o d (write_table d1 (WNode id (Some n'))).
Proof.
  intros (H1 & H2 & H3) Hn Hp. split; [done|]. split; [done|]. intros id'. cbn [write_table nodes put]. destruct (decide (id = id')) as [<-|Hne].
  - by rewrite lookup_insert_eq.
  - rewrite lookup_insert_ne by done. rewrite Hn. by left.
Qed.

(** *** The commits of each operation *)
Lemma commit_keys o ws d : only_keys ws -> commit_guarantee o ws d.
Proof. intros H. eapply guarantee_core; [|apply guarantee_refl]. symmetry. by apply keys_core. Qed.

Lemma commit_revoked id options ws d : revoked_token id ws d -> commit_guarantee (OpRevokeToken id options) ws d.
Proof. intros (ws1 & ws2 & t & u & -> & H1 & H2 & Ht). eapply guarantee_core; [symmetry; by apply core_among | by apply guarantee_use]. Qed.

Lemma commit_decommissioned nodeID options ws d : decommissioned nodeID ws d -> commit_guarantee (OpDecommission nodeID options) ws d.
Proof.
  intros (ws1 & ws2 & n & -> & H1 & H2 & Hn). eapply guarantee_core; [symmetry; by apply core_among|]. apply guarantee_node; [apply guarantee_refl | done|].
  right. split_and!; [done..|]. by exists n.
Qed.

Lemma commit_created nodeID ttl options plain t ws d : created possible_call nodeID plain t ws d ->
  commit_guarantee (OpCreateToken nodeID ttl options) ws d
  /\ ended_well (OpCreateToken nodeID ttl options) (Ok (TokenCreated plain t)) [(ws, d)].
Proof.
  intros (ws1 & ws2 & -> & H1 & H2 & Hn & Hp & Hlife & Hid). pose proof (core_among ws1 (WToken (Token_ID t) (MkTokenRow (HashToken plain) (format_time (Token_ExpiresAt t)) None (format_time (Token_CreatedAt t)))) ws2 d H1 H2) as Hc.
  split.
  - eapply guarantee_core; [symmetry; exact Hc|]. split.
    + intros id' t' Ht'. exists t'. cbn. rewrite lookup_insert_ne by congruence. done.
    + split; [|by left]. intros hash Hhash. unfold credentials. cbn [write_table tokens boots]. rewrite msum_insert by done. unfold unused at 1. cbn [TR_hash].
      rewrite (proj2 (String.eqb_neq _ _)) by (intros <-; exact (Hhash Hp)). cbn [andb]. lia.
  - do 2 eexists. split; [reflexivity|]. split; [|done]. unfold core in Hc. injection Hc as _ -> _. cbn. apply lookup_insert_eq.
Qed.

Lemma commit_renewed nodeID csrDER c ws d : renewed nodeID c ws d -> lifetime c ->
  commit_guarantee (OpRenew nodeID csrDER) ws d /\ certificate_recorded nodeID c (apply_writes d ws).
Proof.
  intros (n & n' & -> & Hn & He & Hs & (H1 & H2 & H3) & He') Hc. split.
  - apply guarantee_node; [apply guarantee_refl | done|]. right. split_and!; [done..|]. by exists n.
  - split; [done|]. exists n'. split_and!; [cbn; apply lookup_insert_eq | done..].
Qed.

Lemma commit_issued token nodeID csrDER c ws d : issued_for token nodeID c ws d -> lifetime c ->
  commit_guarantee (OpIssue token nodeID csrDER) ws d /\ certificate_recorded nodeID c (apply_writes d ws)
  /\ credentials (HashToken token) (apply_writes d ws) = credentials (HashToken token) d - 1.
Proof.
  intros [(id & t & u & n & n' & -> & Ht & Hh & Hu & Hn & Hm & (H1 & H2 & H3) & He)|(b & n & n' & -> & Hb & Hh & Hn & H1 & H2 & H3)] Hc.
  - split_and!.
    + apply guarantee_node; [by apply guarantee_use | done|]. right. cbn. rewrite Hn. by split_and!.
    + split; [done|]. exists n'. split_and!; [cbn; apply lookup_insert_eq | done..].
    + change (credentials (HashToken token) (write_table d (WToken id (with_used t u))) = credentials (HashToken token) d - 1).
      rewrite credentials_use by done. unfold unused. by rewrite Hh, String.eqb_refl, bool_decide_true by done.
  - assert (Hcred : forall hash, credentials hash (apply_writes d [WBoot nodeID None; WNode nodeID (Some n); WNode nodeID (Some n')]) = credentials hash d - waiting hash b).
    { intros hash. unfold credentials. cbn. rewrite (msum_delete _ (boots d) nodeID b) by done. lia. }
    split_and!.
    + split; [intros id' t' Ht'; by exists t'|]. split.
      * intros hash _. rewrite Hcred. unfold waiting. case_match; lia.
      * intros id. cbn. rewrite insert_insert_eq. destruct (decide (nodeID = id)) as [<-|Hne]; [|rewrite lookup_insert_ne by done; by left].
        rewrite lookup_insert_eq, Hn. right. by split_and!.
    + split; [done|]. exists n'. split_and!; [cbn; rewrite lookup_insert_eq; done | done..].
    + rewrite Hcred. unfold waiting. by rewrite Hh, String.eqb_refl.
Qed.

Lemma operation_wp o d : wp possible_call (commit_guarantee o) (fun r _ _ log => ended_well o r log) (program o) [] d [].
Proof.
  apply wp_ensures; [by destruct o|]. destruct o as [token nodeID csrDER|nodeID csrDER|nodeID ttl options|id options|nodeID options]; cbn [program]; apply ensures_bind.
  - apply ensures_issue. intros c ws d' H Hc. destruct (commit_issued _ _ csrDER _ _ _ H Hc) as (HG & Hr & Hcred). split; [done|]. intros d''. apply ensures_ret.
    exists ws, d'. by split_and!.
  - apply ensures_renew. intros c ws d' H Hc. destruct (commit_renewed _ csrDER _ _ _ H Hc) as [HG Hr]. split; [done|]. intros d''. apply ensures_ret.
    exists ws, d'. by split_and!.
  - assert (Hcreate : nodeID = "" \/ ValidateID nodeID (TLit "node_id") = Ok tt -> ensures possible_call (commit_guarantee (OpCreateToken nodeID ttl options))
      (fun t => ensures possible_call (commit_guarantee (OpCreateToken nodeID ttl options)) (fun a _ _ log => ended_well (OpCreateToken nodeID ttl options) (Ok a) log) (mret (TokenCreated t.1 t.2)))
      (createEnrollmentTokenWithOptions nodeID ttl options) [] d []).
    { intros Hid. apply ensures_create; [done | intros; by apply commit_keys|]. intros plain t ws d' H. destruct (commit_created _ ttl options _ _ _ _ H) as [HG Hr].
      split; [done|]. by apply ensures_ret. }
    destruct (String.eqb_spec nodeID "") as [->|Hne]; [apply Hcreate; by left|]. apply ensures_bind, ensures_pure. intros [] Hv. apply Hcreate. by right.
  - apply ensures_revoke. intros ws d' H. split; [destruct H as [H|H]; [by apply commit_keys | by apply commit_revoked]|]. intros d''. by apply ensures_ret.
  - apply ensures_decommission. intros ws d' H. split; [destruct H as [H|H]; [by apply commit_keys | by apply commit_decommissioned]|]. intros n d''. by apply ensures_ret.
Qed.

Lemma outside_kept d w : outside_write d w -> tokens_kept d (write_table d w).
Proof.
  intros H id t Ht. destruct w as [id' r|id' r|id' r|key r]; try (by exists t). cbn in *. destruct (decide (id' = id)) as [->|Hne].
  - rewrite Ht in H. destruct H as (H1 & H2 & H3). exists r. by rewrite lookup_insert_eq.
  - exists t. by rewrite lookup_insert_ne.
Qed.

Abbreviation reach := (reachable program possible_call outside_write).
Lemma reach_sound d ops s : reach d ops s -> sound possible_call commit_guarantee ended_well s.
Proof.
  apply reachable_sound.
  - intros o ws d' [H _]. exact H.
  - intros d' w. apply outside_kept.
  - apply operation_wp.
Qed.
(** *** What is left of a token *)
Section Secret.
Context (secret : string) (Hsecret : ~ fresh (HashToken secret)).

Lemma fresh_other hash : fresh hash -> hash <> HashToken secret.
Proof. by intros Hf ->. Qed.

Lemma outside_credentials d w : outside_write d w -> credentials (HashToken secret) (write_table d w) <= credentials (HashToken secret) d.
Proof.
  unfold credentials. destruct w as [id r|id r|id [b|]|key r]; cbn; intros H; try lia.
  - destruct (tokens d !! id) as [t|] eqn:Ht.
    + destruct H as (H1 & _ & H3). rewrite (msum_update _ _ _ t) by done. unfold unused at 2 3. rewrite H1. destruct (String.eqb _ _); cbn [andb]; [|lia].
      repeat case_bool_decide; try lia. destruct (TR_used t); [|done]. destruct (H3 ltac:(done)). congruence.
    + rewrite msum_insert by done. unfold unused at 1. rewrite (proj2 (String.eqb_neq _ _) (fresh_other _ H)). cbn [andb]. lia.
  - assert (Hb : waiting (HashToken secret) b = 0) by (unfold waiting; by rewrite (proj2 (String.eqb_neq _ _) (fresh_other _ H))).
    destruct (boots d !! id) as [b'|] eqn:Hb'; [rewrite (msum_update _ _ _ b') by done | rewrite msum_insert by done]; rewrite Hb; [|lia].
    assert (0 <= waiting (HashToken secret) b') by (unfold waiting; case_match; lia). lia.
  - destruct (boots d !! id) as [b|] eqn:Hb; [|by rewrite delete_id]. rewrite (msum_delete _ (boots d) id b) by done.
    assert (0 <= waiting (HashToken secret) b) by (unfold waiting; case_match; lia). lia.
Qed.

(** What the commits of a process took of the token, and the certificates it was good for. *)
Definition spent_by (c : list table_write * tables) : Z := credentials (HashToken secret) c.2 - credentials (HashToken secret) (apply_writes c.2 c.1).
Definition spent (p : process node_operation outcome) : Z := lsum spent_by (p_commits p).
Definition certified_with (p : process node_operation outcome) : Z :=
  match p_op p, p_code p with OpIssue token _ _, Done (Ok (Certified _)) => if String.eqb token secret then 1 else 0 | _, _ => 0 end.

Lemma spent_nonneg p : Forall (fun c => commit_guarantee (p_op p) c.1 c.2) (p_commits p) -> 0 <= spent p.
Proof.
  intros Hc. apply lsum_nonneg. intros [ws d] Hin. rewrite Forall_forall in Hc. destruct (Hc _ Hin) as (_ & H & _). specialize (H _ Hsecret). unfold spent_by. cbn [fst snd] in *. lia.
Qed.
Lemma certified_spent d p : well possible_call commit_guarantee ended_well d p -> certified_with p <= spent p.
Proof.
  intros [(d0 & _ & Hw) Hc]. pose proof (spent_nonneg p Hc) as H0. unfold certified_with. destruct (p_op p) as [token nodeID csrDER| | | |]; [|done..].
  destruct (p_code p) as [[[]|]| |]; try done. destruct Hw as (ws & d' & Hl & Hcred & _). destruct (String.eqb_spec token secret) as [->|]; [|done].
  unfold spent. rewrite Hl. cbn [lsum]. unfold spent_by. cbn [fst snd]. lia.
Qed.

Lemma credentials_spent d ops s : reach d ops s -> credentials (HashToken secret) (committed s) + lsum spent (processes s) <= credentials (HashToken secret) d.
Proof.
  induction 1 as [|s s' _ IH Hstep].
  - cbn. rewrite lsum_zero; [lia|]. intros p (o & -> & _)%list_elem_of_fmap. done.
  - destruct Hstep as [i p c k a w Hi Hm Hpos Hperf Hfree | i p c k a Hi Hm Hperf | i p c k e Hi Hm Hc | i p k r Hi Hm | i p k e Hi Hm | i p r Hi Hm | w Hout Hfree]; cbn.
    1-6: rewrite (lsum_insert _ _ _ p) by done.
    1-3, 5-6: change (spent (with_code p _ _)) with (spent p); lia.
    + unfold spent at 3. cbn. rewrite lsum_app. cbn. unfold spent_by at 2. cbn [fst snd]. fold (spent p). unfold spent in *. lia.
    + pose proof (outside_credentials _ _ Hout). lia.
Qed.
(** C13: however many enrollments, renewals, revocations, decommissionings and new tokens
    run at the same time over one database, whatever fails and whatever the rest of the
    program writes to its tables: the certificates that a token was good for and the
    credentials that are left of it (its row while it is unused, the installation that waits
    for it) are never more than what there was of it at the start, so a token enrolls once.
    The tokens that are issued meanwhile, here or by the rest of the program, are other
    tokens, and the rest of the program leaves a used token used. *)
Theorem token_enrolls_once d ops s : reach d ops s ->
  lsum certified_with (processes s) + credentials (HashToken secret) (committed s) <= credentials (HashToken secret) d.
Proof.
  intros H. pose proof (credentials_spent _ _ _ H). assert (lsum certified_with (processes s) <= lsum spent (processes s)); [|lia].
  apply lsum_le. intros p [i Hi]%list_elem_of_lookup. eapply certified_spent. exact (proj1 (reach_sound d ops s H) i p Hi).
Qed.
End Secret.


(** An operation that succeeds has committed once: a certificate that is handed out
    is the one the row of its node names, it is valid for thirty days and a minute, and
    the enrollment took exactly one credential; a new token is stored as its hash, unused,
    for at most fifteen minutes, and names the node it is bound to. *)
Theorem operations_end_well d ops s i p r : reach d ops s -> processes s !! i = Some p -> p_code p = Done r -> ended_well (p_op p) r (p_commits p).
Proof. intros H Hp Hr. destruct (reach_sound _ _ _ H) as [Hw _]. destruct (Hw i p Hp) as [(d0 & _ & Hd) _]. by rewrite Hr in Hd. Qed.
End Interleaving.

(** ** Two nodes, one token *)
(** A request is the name in it, and text is written in hexadecimal. *)
Definition named_csr : X509 := {|
  csr := string; ParseCertificateRequest := fun l => Ok (of_bytes l); CheckSignature := fun _ => Ok tt; is_ed25519 := fun _ => true;
  CommonName := fun name => name; PublicKey := bytes_of
|}.
Lemma hex_text_nonempty l : l <> [] -> hex_encode l <> "".
Proof. by destruct l. Qed.
Definition hex_text : RawURLEncoding := {| raw_url_encode := hex_encode; raw_url_nonempty := hex_text_nonempty |}.
Definition plain_responses : IdempotencyJSON := {|
  token_request := fun ttl nodeID => bytes_of (strconv.Itoa ttl +:+ nodeID); id_request := bytes_of; decommission_request := fun id r => bytes_of (id +:+ strconv.Itoa r);
  id_response := fun id => id; revision_response := fun id r => id +:+ strconv.Itoa r; response_id := Ok; response_id_response := fun id => eq_refl
|}.
#[local] Existing Instances toy_crypto decimal_time named_csr hex_text plain_responses.

Definition elsewhere_answer (c : db_call) : db_answer c :=
  match c return db_answer c with
  | TimeNow => 100 * 10 ^ 9
  | RandomSerial => "5e" | RandomID => "token-2"
  | ReadCA => bytes_of "CA" | RandomBytes => repeat "z"%char 32 | CreateCertificate _ publicKey => publicKey
  | SelectParticipants _ => [] | SelectNode _ => None | SelectToken _ | SelectTokenByID _ => None | SelectBootByHash _ | SelectBoot _ => None | SelectKey _ => None
  | UseToken _ _ | DeleteBoot _ _ | ReplaceCertificate _ _ _ | RenewCertificate _ _ _ | DecommissionRow _ _ | InsertKey _ _ | UpdateKey _ _ _ => false
  | _ => tt
  end.

(** A decommissioned node and the token for its replacement, which two hosts use at the
    same time: both find it unused, one of them waits for its row. *)
Definition edge_token : string := nodeEnrollmentToken "edge-1" "af_abc".
Definition edge_node : node_row := MkNodeRow "edge" None false CertificateDecommissioned "41" 3.
Definition edge_tables : tables :=
  MkTables {["edge-1" := edge_node]} {["token-1" := MkTokenRow (HashToken edge_token) (strconv.Itoa (200 * 10 ^ 9)) None "0"]} ∅ ∅.
Definition edge_ops : list node_operation := [OpIssue edge_token "edge-1" (bytes_of "edge-1"); OpIssue edge_token "edge-1" (bytes_of "edge-1")].
Definition edge_turns : list nat := flat_map (fun _ => [0; 1]%nat) (seq 0 11) ++ repeat 0%nat 9 ++ [1%nat].
Definition edge_fresh (hash : string) : Prop := hash <> HashToken edge_token.
Definition edge_allowed (c : db_call) : bool := match c with InsertToken _ hash _ _ => negb (String.eqb hash (HashToken edge_token)) | _ => true end.
Definition edge_end : system node_operation outcome :=
  match advance_all edge_allowed elsewhere_answer (started program edge_tables edge_ops) edge_turns with Some s => s | None => started program edge_tables edge_ops end.

Lemma edge_runs : match advance_all edge_allowed elsewhere_answer (started program edge_tables edge_ops) edge_turns with Some _ => true | None => false end = true.
Proof. vm_compute. reflexivity. Qed.
Lemma edge_run : advance_all edge_allowed elsewhere_answer (started program edge_tables edge_ops) edge_turns = Some edge_end.
Proof. unfold edge_end. generalize edge_runs. by destruct (advance_all _ _ _ _). Qed.
Lemma edge_reachable : reachable program (possible_call edge_fresh) (outside_write edge_fresh) edge_tables edge_ops edge_end.
Proof.
  eapply advance_all_reachable; [|apply reach_start | exact edge_run]. intros c. destruct c; cbn; try done. intros H%negb_true_iff%String.eqb_neq. exact H.
Qed.

(** The host that came first has its certificate, of the node that was decommissioned. *)
Definition came_first (s : system node_operation outcome) : bool :=
  match processes s !! 0%nat with
  | Some p =>
      match p_code p, p_commits p with
      | Done (Ok (Certified c)), [(ws, d')] =>
          match nodes d' !! "edge-1" with Some n => String.eqb (NR_state n) CertificateDecommissioned && String.eqb (Issued_Serial c) "5e" | None => false end
      | _, _ => false
      end
  | None => false
  end.
Lemma came_first_spec s : came_first s = true -> exists p ws d' c n, processes s !! 0%nat = Some p /\ p_commits p = [(ws, d')] /\ p_code p = Done (Ok (Certified c))
  /\ nodes d' !! "edge-1" = Some n /\ NR_state n = CertificateDecommissioned /\ Issued_Serial c = "5e".
Proof.
  unfold came_first. destruct (processes s !! 0%nat) as [p|]; [|done]. destruct (p_code p) as [[[c| | |]|]| |] eqn:Hm; try done.
  destruct (p_commits p) as [|[ws d'] []] eqn:Hl; try done. destruct (nodes d' !! _) as [n|] eqn:Hn; [|done]. intros [H1%String.eqb_eq H2%String.eqb_eq]%andb_true_iff.
  by exists p, ws, d', c, n.
Qed.
Lemma edge_came_first : came_first edge_end = true.
Proof. vm_compute. reflexivity. Qed.

(** The other one got nothing. *)
Definition came_second (s : system node_operation outcome) : bool :=
  match p_code <$> processes s !! 1%nat with Some (Done (Err (ENew why))) => String.eqb why "enrollment token has already been used or revoked" | _ => false end.

Lemma token_enrolls_once_witness :
  came_first edge_end = true /\ came_second edge_end = true /\ credentials (HashToken edge_token) edge_tables = 1
  /\ lsum (certified_with edge_token) (processes edge_end) + credentials (HashToken edge_token) (committed edge_end) <= credentials (HashToken edge_token) edge_tables.
Proof.
  split; [exact edge_came_first|]. split; [vm_compute; reflexivity|]. split; [vm_compute; reflexivity|].
  refine (token_enrolls_once edge_fresh edge_token _ edge_tables edge_ops edge_end edge_reachable). intros H. apply H. reflexivity.
Defined.


Lemma operations_end_well_witness :
  exists p c, processes edge_end !! 0%nat = Some p /\ Issued_Serial c = "5e" /\ ended_well (p_op p) (Ok (Certified c)) (p_commits p).
Proof.
  destruct (came_first_spec edge_end edge_came_first) as (p & ws & d' & c & n & Hp & _ & Hr & _ & _ & Hs). exists p, c. do 2 (split; [assumption|]).
  exact (operations_end_well edge_fresh edge_tables edge_ops edge_end 0 p (Ok (Certified c)) edge_reachable Hp Hr).
Defined.
